(* ===== verification/_CoqProject ===== *)
-Q . S2P
Prelude.v
Crc32c.v
Ids.v
WalKinds.v
WalRecord.v
Utf8.v
WalPayload.v
WalPayloadCodec.v
ArenaSlot.v
ArenaFile.v
Allocator.v
WalSegment.v
WalReader.v
WalReaderSpec.v
WalReaderOpen.v
Recovery.v
RecoveryReplay.v
RecoveryArena.v
RecoveryContract.v
GroupCommit.v
Wal.v
WalDisk.v
WalSpec.v
WalDurability.v
WalOrder.v
WalResume.v
WalFaults.v
WalRetention.v
Checkpoint.v
Writer.v
Wire.v
Opcode.v
Request.v
Access.v
TxnRouter.v
Handshake.v
Routing.v
Dispatch.v
OpTask.v
Connection.v
Session.v
SessionExamples.v
Receiver.v
Gate.v
EdgeTable.v
AckCodec.v
EdgeApply.v
EdgeRecovery.v
TxnStore.v
TxnSpec.v
TxnExamples.v
Submit.v
SubmitSpec.v
SubmitExamples.v
MemoryTable.v
Registry.v
MemoryApply.v
MemorySpec.v
MemoryIndex.v
MemoryReplay.v
MemoryList.v
MemoryListSpec.v
MemoryExamples.v
RelationTable.v
RelationSpec.v
RelationCard.v
RelationReplay.v
RelationExamples.v
