(* ===== verification/Prelude.v ===== *)
(** * The storage core, the connection layer and the write path of brain-db

    brain-db keeps each shard's memories in three places: an _arena_ file of
    fixed-size vector slots that is mapped into memory, a _write-ahead log_ of
    segment files that every change goes through first, and a metadata store.
    Clients reach a shard over a binary protocol: a connection authenticates
    with an API key, its operations are routed to shards, gated by permission
    and namespace, and may be grouped into transactions.

    This development models the arena, the log and recovery (the crate
    [brain-storage], with the identifiers of [brain-core] it is keyed by), the
    parts of the server that keep the log (the framing of writes, checkpoints,
    retention), the way of a request from the bytes of the socket to its
    handler and back ([brain-protocol], [brain-server]'s [network/], the gates
    of [brain-ops]), the write path of [brain-ops] with its idempotency cache
    and its transactions, the tables of edges, memories, spaces, sessions and
    typed relations ([brain-metadata]) with the phases that change them and
    their replay, and the listing of memories.  It proves what the rest of the system builds on:
    an append that was answered survives a crash, recovery replays exactly the
    committed part of the log; no operation exceeds the credential of its
    connection or leaves its tenant; a write takes effect once and in some
    serial order, a transaction is isolated and final; a hard-forgotten memory
    never comes back, replay restores the memories, and a listing is complete
    and shows no other tenant's; declared cardinalities of relations hold and
    their histories are linear.

    ** How the parts interact

    A caller hands a batch of records to the WAL handle ([wal/wal.rs]).  The
    handle stamps each with the next LSN and pushes it to the committer of the
    active segment ([wal/group_commit.rs]), a task that frames the records
    ([wal/record.rs], [wal/payload.rs]) into the segment's buffer
    ([wal/segment.rs]), writes and syncs a batch at a time, and then answers
    the callers.  A full segment is drained and closed before the next one is
    created.  After a crash, recovery ([recovery.rs]) reads all segments
    ([wal/reader.rs]), buffers transactions until their commit, replays the
    rest onto the arena ([arena/file.rs], [arena/slot.rs]) and the metadata
    sink, rebuilds the slot allocator ([arena/allocator.rs]) and reports where
    the log ends; the handle reopens the active segment cut at that point.

    The writer ([brain-ops], [writer/submit.rs]) frames the records of one
    write as a transaction.  The snapshot worker ([brain-server],
    [shard/adapters.rs]) writes checkpoints into the log while calls are in
    flight, and the retention worker ([brain-workers], [wal_retention.rs])
    deletes segments below the durable LSN that recovery has learned from the
    checkpoints.

    An accepted socket passes the admission gate ([network/gate.rs]); its
    receiver ([network/connection.rs]) cuts the byte stream into frames and
    hands each to the state machine ([network/dispatch.rs], [dispatch_frame]):
    HELLO, AUTH against the key store ([network/auth.rs], [api_keys/]), then
    operations, which are checked against the live key, resolved to an
    effective caller, given a shard (by the transaction router for COMMIT and
    ABORT, by the routing table otherwise) and spawned as tasks.  A task asks
    the shard, whose gates ([brain-ops], [dispatch.rs]) intern the namespace
    and check the permission before a handler runs, and turns the answer into
    frames; the outcomes of transactions go back to the router.  A handler of
    a write inside a transaction buffers it ([handlers/txn.rs]); COMMIT builds
    the phases of one write and submits it.

    Every write goes through [submit] ([writer/submit.rs]): a lookup of its id
    in the idempotency cache and, behind it, the table of acknowledgements
    ([tables/idempotency.rs], [state/ack_codec.rs]); the records of its phases
    ([writer/wal_map.rs]) into the log; then one metadata transaction that
    applies the phases and stores the acknowledgement.  Edge phases
    ([apply/edge.rs]) change the edge tables ([tables/edge.rs]); memory phases
    ([apply/memory.rs], [apply/reclaim.rs]) change the rows with their
    timeline, dedup index, texts and artifacts ([tables/memory.rs],
    [tables/fingerprint.rs]) and the registry of spaces and sessions
    ([registry/]); relation phases ([apply/relation.rs]) change the sidecar
    rows of typed relations ([relation/ops.rs], [tables/relation.rs]) and, as
    their index, the edge tables.  After a restart the metadata store replays
    the records above its durable LSN ([recovery/edge.rs],
    [recovery/memory.rs], [recovery/reclaim.rs], [recovery/relation.rs]), over
    tables that may have seen them.
    MEMORY_LIST ([handlers/memory_list.rs]) reads the timeline in pages.

    ** Files

    - [Prelude]: results, machine integers, byte order, slices.
    - [Crc32c]: the checksum of a third-party crate, as a class with the laws
      its documentation states, and the bit-serial definition as an instance.
    - [Ids] ([brain-core]: [ids.rs], [edges/], [nodes/memory.rs]).
    - [WalKinds], [WalRecord] ([wal/kinds.rs], [wal/record.rs]); [Utf8],
      [WalPayload] with [WalPayloadCodec] ([wal/payload.rs] and the typed
      wrappers of [record.rs]).
    - [ArenaSlot], [ArenaFile], [Allocator] (Modules of these names).
    - [WalSegment]; [WalReader] with [WalReaderSpec] (the reference reader and
      healthy logs) and [WalReaderOpen] (directories and the contract).
    - [Recovery] with [RecoveryReplay] (recovery as a fold, the transaction
      rules), [RecoveryArena] (slot updates) and [RecoveryContract].
    - [GroupCommit]: the committer task; [Wal]: the handle and its callers.
    - [WalDisk] (segments as the reader finds them), [WalSpec] (the system of
      a handle, its callers and its tasks, and its invariant), [WalDurability]
      (crashes), [WalOrder] (the order of LSNs), [WalResume] (recovery and
      reopening), [WalFaults].
    - [WalRetention]: the retention worker over the interface of its source,
      and the source over the log directory.
    - [Checkpoint] ([wal/checkpoint.rs], [take_snapshot] up to the copies).
    - [Writer]: the records of a write.
    - [Wire] ([brain-protocol]: [codec/header.rs], [codec/frame.rs],
      [error.rs]), [Opcode] ([codec/opcode.rs]), [Request]
      ([envelope/request.rs] and the bodies that later code looks into).
    - [Access]: errors, callers, permissions, the namespace registry, the key
      store and delegation ([brain-ops]: [dispatch.rs], [error.rs];
      [brain-metadata]: [namespace/], [api_keys/]; [network/auth.rs]).
    - [TxnRouter], [Handshake], [Routing], [Dispatch] (the state machine) and
      [OpTask] (the task of an operation with the gates of the shard), all of
      [network/dispatch.rs], [network/routing.rs] and
      [connection/handshake.rs].
    - [Connection] (a connection, the key store and the registry as one
      system), [Session] (what holds of every run of it), [SessionExamples].
    - [Receiver] (frames from a byte stream), [Gate] (admission).
    - [EdgeTable] ([tables/edge.rs]), [EdgeApply] ([apply/edge.rs]),
      [EdgeRecovery] (the payloads and the replay of edge phases).
    - [AckCodec] ([state/ack_codec.rs]): acknowledgements as bytes.
    - [TxnStore] ([handlers/txn.rs] and the in-transaction handlers), [TxnSpec]
      (its invariant and theorems), [TxnExamples].
    - [Submit] ([writer/submit.rs], [tables/idempotency.rs]): any number of
      submissions in flight, over the classes [PhaseSem] and [PhaseSemLaws]
      of what it needs of phases, which edge and memory phases instantiate;
      [SubmitSpec], [SubmitExamples].
    - [MemoryTable] ([tables/memory.rs], [tables/fingerprint.rs]), [Registry]
      ([registry/], [tables/session.rs], [tables/space.rs]).
    - [MemoryApply] (memory phases, their payloads and their replay) with
      [MemorySpec] (finality, tenant wall), [MemoryIndex] (the secondary
      tables) and [MemoryReplay] (convergence).
    - [MemoryList] (the handler), [MemoryListSpec], [MemoryExamples].
    - [RelationTable] ([relation/ops.rs], [tables/relation.rs],
      [apply/relation.rs]) with [RelationSpec] (the invariant of rows, edges
      and chains; histories), [RelationCard] (listings and cardinality),
      [RelationReplay] (the payloads and the replay of relation phases) and
      [RelationExamples].

    ** How code is modelled

    A function of the source is a function here, with its name; the state it
    mutates is an argument and a result, also when it fails, since the caller
    goes on with it.  [Result] is [result], a panic is [None].  Integers are
    [Z] with wrap-around, saturation and bounds written out; floats are their
    bit patterns, which the modelled code only copies, hashes or checks for
    range.  System calls answer through arguments ([Syscalls], [FlushIo],
    [CreateIo], [TruncateIo]), so a theorem that quantifies over them covers
    their failures.  A file of the log is its cached and its synced contents.
    An asynchronous function is split at its waits into the stretches that run
    without interruption; [cm_step], [sys_step], [ck_step], the gate's
    [gate_step] and the [step] of [Submit] interleave them in any order.  A
    redb table is a finite map or set over the bytes of its keys, a redb
    transaction is atomic, and whether it opens and commits is an argument.
    Clock readings, answers of shards and verdicts of the writer are arguments
    of the step in which they occur.  Code of other packages is a class
    ([Ciborium] and [CborWriter] for CBOR, [Crates] for BLAKE3, UUIDs and
    base64, [Artifacts] for the bundle of derived artifacts), with instances
    for the examples.

    The loops that are not structural carry fuel: the reader's loop over
    segments ([next_loop], enough by [next_spec]), its driver ([read_all], one
    more than the number of records by [read_all_spec]), the recovery loop
    (likewise), the doubling of the arena capacity ([double_until], enough by
    [double_until_total]) and the committer's task after its channel is closed
    ([run_task], four events for each queued submission and four more, by
    [commit_shutdown_drains]), and the client that follows the cursors of
    MEMORY_LIST ([list_all], one call more than there are memories, by
    [memory_list_exact]).

    ** What the theorems show

    - The log: [wal_append_durable] (what [append] answered survives any
      crash, under any interleaving), from [commit_acks_durable],
      [commit_shutdown_drains] and [commit_broken_sticky] for the committer;
      [wal_resume] (crash, recovery, reopening); [wal_lsn_order] (LSNs respect
      the order of calls in real time).  The runs of these and of
      [checkpoint_report_durable] are those of [sound_step]: no rollover
      follows a failed flush, and new segments are created without an error.
    - Around the log: [write_atomic_recovery] (a write survives whole or not
      at all), [checkpoint_report_durable], [retention_preserves_recovery].
    - The reader: [reader_delivers_log], [reader_no_silent_loss],
      [reader_terminates_in_order], [reader_iter_from].
    - Recovery: [recover_committed_prefix] (atomicity), [recover_sound],
      [recover_report]; [replay_restartable] (a crash during recovery),
      [replay_hard_forget].
    - Codecs: [wal_record_roundtrip], [wal_record_decode_canonical],
      [wal_record_torn_write], [payload_roundtrip], [payload_decode_sound],
      [typed_record_roundtrip], [memory_id_pack_roundtrip],
      [edge_key_bytes_order]; on the wire [frame_roundtrip],
      [frame_decode_canonical] and, for the stream, [stream_framing].
    - Arena: [arena_create_reopen], [arena_open_sound],
      [arena_grow_preserves], [arena_hard_forget_erases]; allocator:
      [allocator_exclusive] (no slot is handed out twice, none is lost),
      [allocator_crash_keeps_version].
    - Connections: [op_needs_credential], [op_authorized] and
      [namespace_wall] (identity, rights and tenant of every operation),
      [revocation_prompt], [subscription_isolated]; [op_answered] and
      [negotiate_spec];
      [txn_shard_affinity], [txn_router_bounded], [routing_in_range];
      [gate_caps], [try_admit_exact].
    - Edges: [walks_exact] (two byte-keyed tables refine one map of edges),
      [link_tenant_wall], [edge_counters_exact], [edge_replay_converges].
    - Writes: [submit_exactly_once] (a committed id is answered from the cache
      and applied no more, across restarts that do not replay it),
      [submit_serializable] (the metadata is that of the committed writes one
      after the other), [write_ack_roundtrip].
    - Memories: [hard_forget_final], [memory_tenant_wall],
      [memory_index_exact] (timeline, dedup index and texts follow the rows of
      a shard that has not replayed anything), [memory_replay_converges] (replay
      over any state between the checkpoint and the end of the log, for memories
      no logged and refused phase names), [registry_exact] (spaces and sessions).
    - Listing: [memory_list_exact] (complete, each once, in order),
      [memory_list_isolated] (nothing of other tenants, with any cursor).
    - Relations: [relation_cardinality] and [relation_history_linear] (what
      declarations and supersession chains promise), [relation_listing_exact],
      [relation_replay_converges] (for records that say what was stored).
    - Transactions: [txn_isolated], [txn_submitted_once], [txn_commit_final],
      [txn_orphans_discarded], [txn_edges_refine].
    - Limits, each a run of the code: [arena_grow_mremap_failure],
      [active_order_unbounded] and the theorems of [WalFaults],
      [SessionFaults], [ReceiverFaults], [EdgeApplyFaults],
      [EdgeRecoveryFaults], [TxnFaults], [SubmitFaults], [RegistryFaults],
      [MemoryFaults] and the examples of [RelationExample].

    The checksum laws, and for [memory_list_exact] that a BLAKE3 hash has 32
    bytes, are the only assumptions about code outside the repository.
    No theorem needs a collision-free checksum: a damaged record or frame
    whose checksum still matches counts as one.

    ** Not modelled

    The advisory file lock of the arena; which pages of it the kernel writes
    back by itself; timing of the commit window (a batch may end at any time
    its conditions allow); directory layout, reflink helpers and the copies of
    a snapshot bundle.  Of the write path, the events, worker queues and
    metrics after a commit and the vector index (its failure is an answer).
    Of the connection layer, sockets, TLS, the writing half, metrics and the
    registry of subscriptions; of requests, the bodies no modelled code looks
    into, and the response bodies other than that of MEMORY_LIST.  Of
    [brain-ops], the handlers outside transactions other than MEMORY_LIST, and
    the phases of entities, statements and schemas, whose rules live in the
    tables of the typed graph; of relations, the interning of a type by its
    name, the keyset pages and the counts per type.  The edges inside an ENCODE record
    are not replayed here, since the writer logs none, and redb's encoding of
    rows is that of a derive macro.  The other crates: HTTP and process
    set-up, vector and text indexes, query planning with floating-point
    scores, embedding, reranking, extraction and LLM clients, and the
    background workers other than retention.  Their logic is a pipeline
    around third-party engines, models and remote calls, or floating-point
    scoring for which there is no reference to be correct against. *)

From Stdlib Require Export ZArith Lia.
From stdpp Require Export base numbers option list strings relations.
From coqutil Require Export Byte Word.LittleEndianList.

#[global] Open Scope Z_scope.

#[global] Arguments firstn {A} n l : simpl never.
#[global] Arguments skipn {A} n l : simpl never.

(** ** Fallible code *)

(** Rust's [Result<A, E>]. *)
Inductive result (A E : Type) : Type :=
| Ok (a : A)
| Err (e : E).
Arguments Ok {A E} a.
Arguments Err {A E} e.

Declare Scope result_scope.
Delimit Scope result_scope with result.

(** The [?] operator: continue on [Ok], return the error otherwise. *)
Notation "'let?' x ':=' m 'in' k" :=
  (match m with Ok x => k | Err e => Err e end)
  (at level 10, x pattern, m at level 100, k at level 200,
   format "'[v' 'let?'  x  ':='  m  'in' '/' k ']'") : result_scope.
#[global] Open Scope result_scope.

(** [Result::map_err]. *)
Definition map_err {A E F} (f : E -> F) (r : result A E) : result A F :=
  match r with Ok a => Ok a | Err e => Err (f e) end.

(** [Option::ok_or]. *)
Definition ok_or {A E} (o : option A) (e : E) : result A E :=
  match o with Some a => Ok a | None => Err e end.

Definition is_ok {A E} (r : result A E) : bool :=
  match r with Ok _ => true | Err _ => false end.

Lemma Ok_inj {A E} (a b : A) : @Ok A E a = Ok b -> a = b.
Proof. by intros [=]. Qed.

(** ** Machine integers *)

(** A [w]-bit unsigned integer is a [Z] in [0, 2^w). *)
Definition uint (w : Z) (x : Z) : Prop := 0 <= x < 2 ^ w.
Abbreviation u8 := (uint 8).
Abbreviation u16 := (uint 16).
Abbreviation u32 := (uint 32).
Abbreviation u48 := (uint 48).
Abbreviation u64 := (uint 64).
Abbreviation u128 := (uint 128).

#[global] Instance uint_dec w x : Decision (uint w x).
Proof. unfold uint. apply _. Defined.

(** The cast [x as uW] and the wrapping result of release-profile arithmetic. *)
Definition wrap (w x : Z) : Z := x mod 2 ^ w.

Definition U32_MAX : Z := 2 ^ 32 - 1.
Definition U64_MAX : Z := 2 ^ 64 - 1.

(** [u64::saturating_add] and [u64::saturating_mul]. *)
Definition sat_add64 (x y : Z) : Z := Z.min (x + y) U64_MAX.
Definition sat_mul64 (x y : Z) : Z := Z.min (x * y) U64_MAX.
Definition sat_sub (x y : Z) : Z := Z.max (x - y) 0.

Lemma wrap_uint w x : 0 <= w -> uint w (wrap w x).
Proof. intros Hw. apply Z.mod_pos_bound. lia. Qed.

Lemma wrap_small w x : uint w x -> wrap w x = x.
Proof. intros H. by apply Z.mod_small. Qed.

Lemma uint_mono w w' x : w <= w' -> uint w x -> uint w' x.
Proof.
  unfold uint. intros Hw [H0 H1]. split; [done|].
  destruct (decide (0 <= w)).
  - pose proof (Z.pow_le_mono_r 2 w w'). lia.
  - rewrite Z.pow_neg_r in H1 by lia. lia.
Qed.

(** ** Bytes and fixed-width fields *)

#[global] Instance byte_eq_dec : EqDecision Byte.byte := Byte.byte_eq_dec.
#[global] Instance byte_inhabited : Inhabited Byte.byte := populate Byte.x00.

Abbreviation bytes := (list Byte.byte).

(** [uN::to_le_bytes] / [uN::from_le_bytes] with [n] the width in bytes. *)
Abbreviation to_le_bytes := le_split.
Abbreviation from_le_bytes := le_combine.

(** [u128::to_be_bytes] / [from_be_bytes], and the same for [u32]. *)
Definition to_be_bytes (n : nat) (z : Z) : bytes := rev (le_split n z).
Definition from_be_bytes (b : bytes) : Z := le_combine (rev b).
Arguments to_be_bytes : simpl never.
Arguments from_be_bytes : simpl never.

Lemma from_to_le n z : uint (8 * Z.of_nat n) z -> from_le_bytes (to_le_bytes n z) = z.
Proof. intros H. rewrite le_combine_split, Z.mul_comm. by apply Z.mod_small. Qed.

Lemma from_le_uint b n : length b = n -> uint (8 * Z.of_nat n) (from_le_bytes b).
Proof. intros <-. apply le_combine_bound. Qed.

Lemma to_from_le b n : length b = n -> to_le_bytes n (from_le_bytes b) = b.
Proof. apply split_le_combine'. Qed.

Lemma length_to_be n z : length (to_be_bytes n z) = n.
Proof. unfold to_be_bytes. by rewrite length_rev, length_le_split. Qed.

Lemma from_to_be n z : uint (8 * Z.of_nat n) z -> from_be_bytes (to_be_bytes n z) = z.
Proof.
  intros H. unfold from_be_bytes, to_be_bytes. rewrite rev_involutive. by apply from_to_le.
Qed.

Lemma to_from_be b n : length b = n -> to_be_bytes n (from_be_bytes b) = b.
Proof.
  intros H. unfold from_be_bytes, to_be_bytes.
  rewrite to_from_le by (by rewrite length_rev). apply rev_involutive.
Qed.

Lemma from_be_uint b n : length b = n -> uint (8 * Z.of_nat n) (from_be_bytes b).
Proof. intros H. apply from_le_uint. by rewrite length_rev. Qed.

(** A single byte as [u8]. *)
Abbreviation byte_of := byte.of_Z.
Abbreviation byte_val := byte.unsigned.

Lemma byte_val_of z : u8 z -> byte_val (byte_of z) = z.
Proof. intros H. rewrite byte.unsigned_of_Z. by apply Z.mod_small. Qed.

Lemma byte_val_u8 b : u8 (byte_val b).
Proof. apply byte.unsigned_range. Qed.

(** [&buf[a..b]]. *)
Definition slice (a b : nat) (l : bytes) : bytes := take (b - a) (drop a l).

(** [buf[i]], only used under a bounds check. *)
Definition byte_at (i : nat) (l : bytes) : Byte.byte := nth i l Byte.x00.

Lemma length_slice a b l : (b <= length l)%nat -> length (slice a b l) = (b - a)%nat.
Proof. intros H. unfold slice. rewrite length_take, length_drop. lia. Qed.

Lemma slice_0 b l : slice 0 b l = take b l.
Proof. unfold slice. by rewrite drop_0, Nat.sub_0_r. Qed.

Lemma slice_app a b c l : (a <= b <= c)%nat -> slice a b l ++ slice b c l = slice a c l.
Proof.
  intros H. unfold slice.
  replace (drop b l) with (drop (b - a) (drop a l)) by (rewrite drop_drop; f_equal; lia).
  generalize (drop a l). intros k.
  replace (c - a)%nat with ((b - a) + (c - b))%nat by lia.
  generalize (b - a)%nat, (c - b)%nat. clear. intros n m.
  revert k. induction n as [|n IH]; intros k; [by rewrite take_0, drop_0|].
  destruct k as [|x k]; [by rewrite drop_nil, !take_nil|].
  rewrite skipn_cons, Nat.add_succ_l, !firstn_cons. cbn. by rewrite IH.
Qed.

(** Fields of a buffer written as a concatenation. *)
Lemma slice_skip x l a b :
  (length x <= a)%nat -> slice a b (x ++ l) = slice (a - length x) (b - length x) l.
Proof.
  intros H. unfold slice. rewrite drop_app_ge by done. f_equal. lia.
Qed.

Lemma slice_head x l a b : a = 0%nat -> b = length x -> slice a b (x ++ l) = x.
Proof. intros -> ->. by rewrite slice_0, take_app_length. Qed.

Lemma byte_at_skip x l i :
  (length x <= i)%nat -> byte_at i (x ++ l) = byte_at (i - length x) l.
Proof. intros H. unfold byte_at. by rewrite app_nth2 by lia. Qed.

Lemma byte_at_head x l i : i = 0%nat -> byte_at i ([x] ++ l) = x.
Proof. by intros ->. Qed.

Lemma slice_byte_at i l : (i < length l)%nat -> slice i (S i) l = [byte_at i l].
Proof.
  intros H. unfold slice, byte_at. replace (S i - i)%nat with 1%nat by lia.
  revert i H. induction l as [|x l IH]; intros [|i] H; simpl in *; try lia; [done|].
  rewrite skipn_cons. apply IH. lia.
Qed.

Create Rewrite HintDb len.
#[export] Hint Rewrite @length_app length_le_split length_to_be @length_replicate @length_nil
  @length_cons : len.

(** Compute the fields of a concatenated buffer; side conditions are lengths. *)
Ltac len := autorewrite with len in *; cbn [length Nat.add] in *; try lia.

Ltac slices :=
  repeat match goal with
  | |- context [slice ?a ?b (?x ++ ?l)] =>
    first [ rewrite (slice_head x l a b) by len | rewrite (slice_skip x l a b) by len ]
  | |- context [byte_at ?i ([?x] ++ ?l)] => rewrite (byte_at_head x l i) by len
  | |- context [byte_at ?i (?x ++ ?l)] => rewrite (byte_at_skip x l i) by len
  end.

(** ** Filters that keep all or nothing *)

Lemma filter_all {A} (P : A -> Prop) `{forall x, Decision (P x)} (l : list A) :
  Forall P l -> filter P l = l.
Proof. induction 1 as [|x l Hx Hl IH]; [done|]. by rewrite filter_cons, decide_True, IH. Qed.

Lemma filter_none {A} (P : A -> Prop) `{forall x, Decision (P x)} (l : list A) :
  Forall (fun x => ~ P x) l -> filter P l = [].
Proof. induction 1 as [|x l Hx Hl IH]; [done|]. by rewrite filter_cons, decide_False. Qed.

(** ** Bit fields *)

(** A field shifted above another one is a sum. *)
Lemma lor_shiftl_add hi lo n :
  0 <= n -> uint n lo -> Z.lor (Z.shiftl hi n) lo = hi * 2 ^ n + lo.
Proof.
  intros Hn [Hlo0 Hlo].
  rewrite <- Z.shiftl_mul_pow2 by done. rewrite <- Z.lxor_lor.
  - symmetry. apply Z.add_nocarry_lxor. apply Z.bits_inj'. intros i Hi.
    rewrite Z.land_spec, Z.shiftl_spec, Z.bits_0 by done.
    destruct (decide (i < n)).
    + rewrite Z.testbit_neg_r by lia. done.
    + rewrite <- (Z.mod_small lo (2 ^ n)), Z.mod_pow2_bits_high by lia.
      apply andb_false_r.
  - apply Z.bits_inj'. intros i Hi.
    rewrite Z.land_spec, Z.shiftl_spec, Z.bits_0 by done.
    destruct (decide (i < n)).
    + rewrite Z.testbit_neg_r by lia. done.
    + rewrite <- (Z.mod_small lo (2 ^ n)), Z.mod_pow2_bits_high by lia.
      apply andb_false_r.
Qed.

Lemma land_mask x n : 0 <= n -> Z.land x (Z.shiftl 1 n - 1) = x mod 2 ^ n.
Proof.
  intros Hn. rewrite Z.shiftl_1_l. rewrite <- Z.land_ones by done.
  by rewrite Z.ones_equiv.
Qed.

(** ** Lexicographic order of byte strings *)

(** The order of [&[u8]] keys, as an ordered table sorts them. *)
Fixpoint bytes_compare (a b : bytes) : comparison :=
  match a, b with
  | [], [] => Eq
  | [], _ :: _ => Lt
  | _ :: _, [] => Gt
  | x :: a, y :: b =>
    match byte_val x ?= byte_val y with Eq => bytes_compare a b | c => c end
  end.

Lemma bytes_compare_refl a : bytes_compare a a = Eq.
Proof. induction a; simpl; [done|]. by rewrite Z.compare_refl. Qed.

Lemma bytes_compare_snoc a b x y :
  length a = length b ->
  bytes_compare (a ++ [x]) (b ++ [y]) =
    match bytes_compare a b with Eq => byte_val x ?= byte_val y | c => c end.
Proof.
  revert b. induction a as [|u a IH]; intros [|v b] Hl; simplify_eq/=.
  - by destruct (byte_val x ?= byte_val y).
  - rewrite IH by done. by destruct (byte_val u ?= byte_val v).
Qed.

Lemma to_be_snoc n z : to_be_bytes (S n) z = to_be_bytes n (Z.shiftr z 8) ++ [byte_of z].
Proof. reflexivity. Qed.

(** Big-endian encodings of the same width sort numerically. *)
Lemma to_be_compare n x y :
  uint (8 * Z.of_nat n) x -> uint (8 * Z.of_nat n) y ->
  bytes_compare (to_be_bytes n x) (to_be_bytes n y) = (x ?= y).
Proof.
  revert x y. induction n as [|n IH]; intros x y Hx Hy.
  - unfold uint in *. simpl in *. by replace x with 0 by lia; replace y with 0 by lia.
  - rewrite !to_be_snoc, bytes_compare_snoc by (by rewrite !length_to_be).
    assert (forall z, uint (8 * Z.of_nat (S n)) z ->
      uint (8 * Z.of_nat n) (Z.shiftr z 8) /\ z = 256 * Z.shiftr z 8 + byte_val (byte_of z)
      /\ 0 <= byte_val (byte_of z) < 256) as Hz.
    { intros z [Hz0 Hz]. rewrite Z.shiftr_div_pow2, byte.unsigned_of_Z by lia.
      unfold byte.wrap. change (2 ^ 8) with 256.
      pose proof (Z.div_mod z 256). pose proof (Z.mod_pos_bound z 256 eq_refl).
      split; [|lia]. split; [apply Z.div_pos; lia|]. apply Z.div_lt_upper_bound; [lia|].
      replace (8 * Z.of_nat (S n)) with (8 + 8 * Z.of_nat n) in Hz by lia.
      rewrite Z.pow_add_r in Hz by lia. lia. }
    destruct (Hz x Hx) as (Hx1 & Ex & Hbx), (Hz y Hy) as (Hy1 & Ey & Hby).
    rewrite IH by done.
    destruct (Z.compare_spec (Z.shiftr x 8) (Z.shiftr y 8)) as [E|E|E];
      [|symmetry; apply Z.compare_lt_iff; lia|symmetry; apply Z.compare_gt_iff; lia].
    destruct (Z.compare_spec (byte_val (byte_of x)) (byte_val (byte_of y)));
      symmetry; [apply Z.compare_eq_iff|apply Z.compare_lt_iff|apply Z.compare_gt_iff]; lia.
Qed.
