(* ===== verification/Crc32c.v ===== *)
(** The CRC32C checksum.

    [crc32c] and [crc32c_append] come from a third-party crate, so they are a
    parameter of every definition that computes a checksum: the class [Crc32c]
    holds the two functions and [Crc32cLaws] what the crate documents about
    them (the result is a [u32]; appending continues the checksum of the
    bytes hashed so far).  [Castagnoli] is the bit-serial definition of the
    same checksum and an instance of both classes; the witnesses of the
    theorems compute with it. *)

From S2P Require Import Prelude.

Class Crc32c := {
  crc32c : bytes -> Z;
  crc32c_append : Z -> bytes -> Z;
}.

Class Crc32cLaws (C : Crc32c) : Prop := {
  crc32c_u32 : forall b, u32 (crc32c b);
  crc32c_append_app : forall a b, crc32c_append (crc32c a) b = crc32c (a ++ b);
}.

Lemma uint_lxor w x y : 0 <= w -> uint w x -> uint w y -> uint w (Z.lxor x y).
Proof.
  intros Hw [Hx0 Hx] [Hy0 Hy]. split.
  { apply Z.lxor_nonneg. lia. }
  destruct (decide (Z.lxor x y = 0)) as [->|Hne].
  { lia. }
  assert (0 <= Z.lxor x y) as H0 by (apply Z.lxor_nonneg; lia).
  destruct (decide (w = 0)) as [->|]; [assert (x = 0 /\ y = 0) as [-> ->] by lia; done|].
  apply Z.log2_lt_pow2; [lia|].
  eapply Z.le_lt_trans; [by apply Z.log2_lxor|].
  assert (forall z, 0 <= z < 2 ^ w -> Z.log2 z < w) as Hl.
  { intros z [Hz0 Hz]. destruct (decide (z = 0)) as [->|]; [cbn; lia|].
    apply Z.log2_lt_pow2; lia. }
  apply Z.max_lub_lt; by apply Hl.
Qed.

Module Castagnoli.
(** The reflected Castagnoli polynomial. *)
Definition poly : Z := 0x82F63B78.

Definition step_bit (c : Z) : Z :=
  if Z.odd c then Z.lxor (Z.shiftr c 1) poly else Z.shiftr c 1.

Definition step_byte (c : Z) (b : Byte.byte) : Z :=
  Nat.iter 8 step_bit (Z.lxor c (byte_val b)).

Definition append (c : Z) (b : bytes) : Z :=
  Z.lxor (foldl step_byte (Z.lxor c U32_MAX) b) U32_MAX.

#[export] Instance crc : Crc32c := {| crc32c := append 0; crc32c_append := append |}.

Lemma shiftr_u32 c : u32 c -> u32 (Z.shiftr c 1).
Proof.
  intros [H0 H1]. split; [by apply Z.shiftr_nonneg|].
  rewrite Z.shiftr_div_pow2 by lia. apply Z.div_lt_upper_bound; lia.
Qed.

Lemma step_bit_u32 c : u32 c -> u32 (step_bit c).
Proof.
  intros H. unfold step_bit. destruct (Z.odd c); [|by apply shiftr_u32].
  apply uint_lxor; [lia|by apply shiftr_u32|done].
Qed.

Lemma step_byte_u32 c b : u32 c -> u32 (step_byte c b).
Proof.
  intros H. unfold step_byte. simpl. repeat apply step_bit_u32.
  apply uint_lxor; [lia|done|]. eapply uint_mono, byte_val_u8. lia.
Qed.

Lemma fold_u32 b c : u32 c -> u32 (foldl step_byte c b).
Proof. revert c. induction b; intros c H; simpl; auto using step_byte_u32. Qed.

Lemma lxor_lxor x m : Z.lxor (Z.lxor x m) m = x.
Proof. by rewrite Z.lxor_assoc, Z.lxor_nilpotent, Z.lxor_0_r. Qed.

#[export] Instance crc_laws : Crc32cLaws crc.
Proof.
  split; intros; cbn [crc32c crc32c_append crc]; unfold append.
  - apply uint_lxor; [lia| |done]. by apply fold_u32.
  - rewrite lxor_lxor, foldl_app. done.
Qed.

(** The published check value of CRC32C on the bytes of [123456789]. *)
Example check_value :
  append 0 (byte_of <$> [49; 50; 51; 52; 53; 54; 55; 56; 57]) = 0xE3069283.
Proof. vm_compute. reflexivity. Qed.
End Castagnoli.
