(* ===== verification/Ids.v ===== *)
(** Identifiers, node references and edge labels of [brain-core].

    [MemoryId] is the packed 128-bit [(shard, slot, version)] triple of
    [ids.rs]; the UUID-backed identifiers are their 16 bytes; the interned
    ones their [u32].  [NodeRef] and [EdgeKindRef] are the keys of the
    unified edge table, with the byte layouts of [edges/]. *)

From S2P Require Import Prelude.

(** ** Packed memory identifiers ([ids.rs]) *)

Definition MAX_SLOT_INDEX : Z := Z.shiftl 1 48 - 1.

(** [struct MemoryId(u128)], by its raw value. *)
Abbreviation MemoryId := Z (only parsing).

Module MemoryId.
Definition NULL : MemoryId := 0.

Definition pack (shard slot version : Z) : MemoryId :=
  let slot_48 := Z.land slot MAX_SLOT_INDEX in
  Z.lor (Z.lor (Z.shiftl shard 112) (Z.shiftl slot_48 64)) (Z.shiftl version 32).

Definition shard (m : MemoryId) : Z := wrap 16 (Z.shiftr m 112).
Definition slot (m : MemoryId) : Z := Z.land (wrap 64 (Z.shiftr m 64)) MAX_SLOT_INDEX.
Definition version (m : MemoryId) : Z := wrap 32 (Z.shiftr m 32).
Definition reserved (m : MemoryId) : Z := wrap 32 m.

Definition to_be (m : MemoryId) : bytes := to_be_bytes 16 m.
Definition from_be (b : bytes) : MemoryId := from_be_bytes b.

Definition is_null (m : MemoryId) : bool := m =? 0.

#[global] Arguments to_be : simpl never.
#[global] Arguments from_be : simpl never.
End MemoryId.

(** The UUID-backed identifiers ([SpaceId], [RequestId], [TxnId], [EntityId],
    [RelationId], ...) are their 16 bytes: [to_bytes]/[from_bytes] are the
    identity on them. *)
Abbreviation Uuid := bytes (only parsing).
Definition uuid_ok (u : bytes) : Prop := length u = 16%nat.

(** [NamespaceId::SYSTEM] and the other [u32]-interned identifiers. *)
Definition NamespaceId_SYSTEM : Z := 0.
Definition NamespaceId_is_system (n : Z) : bool := n =? NamespaceId_SYSTEM.

(** ** Memory kinds, edge kinds and origins *)

Inductive MemoryKind := Episodic | Semantic | Consolidated.

Inductive EdgeKind :=
| Caused | FollowedBy | DerivedFrom | SimilarTo | Contradicts | Supports | References | PartOf.

Inductive EdgeOrigin := Explicit | AutoDerived.

#[global] Instance MemoryKind_eq_dec : EqDecision MemoryKind.
Proof. solve_decision. Defined.
#[global] Instance EdgeKind_eq_dec : EqDecision EdgeKind.
Proof. solve_decision. Defined.
#[global] Instance EdgeOrigin_eq_dec : EqDecision EdgeOrigin.
Proof. solve_decision. Defined.

Definition is_symmetric (k : EdgeKind) : bool :=
  match k with SimilarTo | Contradicts => true | _ => false end.

(** The [#[repr(u8)]] casts. *)
Definition EdgeKind_as_u8 (k : EdgeKind) : Z :=
  match k with
  | Caused => 0 | FollowedBy => 1 | DerivedFrom => 2 | SimilarTo => 3
  | Contradicts => 4 | Supports => 5 | References => 6 | PartOf => 7
  end.

Definition EdgeOrigin_as_u8 (o : EdgeOrigin) : Z :=
  match o with Explicit => 0 | AutoDerived => 1 end.

Definition edge_kind_from_u8 (b : Z) : option EdgeKind :=
  match b with
  | 0 => Some Caused | 1 => Some FollowedBy | 2 => Some DerivedFrom | 3 => Some SimilarTo
  | 4 => Some Contradicts | 5 => Some Supports | 6 => Some References | 7 => Some PartOf
  | _ => None
  end.

(** ** Node references ([edges/node_ref.rs]) *)

Inductive NodeRef :=
| NodeMemory (m : MemoryId)
| NodeEntity (e : Uuid).

Inductive NodeRefError := NodeRefUnknownTag (tag : Z).

Module NodeRef.
Definition BYTES : nat := 17.

Definition tag (n : NodeRef) : Z :=
  match n with NodeMemory _ => 0 | NodeEntity _ => 1 end.

Definition id_bytes (n : NodeRef) : bytes :=
  match n with NodeMemory m => MemoryId.to_be m | NodeEntity e => e end.

Definition to_bytes (n : NodeRef) : bytes := byte_of (tag n) :: id_bytes n.

Definition from_bytes (b : bytes) : result NodeRef NodeRefError :=
  let id := slice 1 17 b in
  match byte_val (byte_at 0 b) with
  | 0 => Ok (NodeMemory (MemoryId.from_be id))
  | 1 => Ok (NodeEntity id)
  | tag => Err (NodeRefUnknownTag tag)
  end.

Definition wf (n : NodeRef) : Prop :=
  match n with NodeMemory m => u128 m | NodeEntity e => uuid_ok e end.
End NodeRef.

(** ** Edge labels ([edges/edge_kind_ref.rs]) *)

Inductive EdgeKindRef :=
| Builtin (k : EdgeKind)
| Mentions
| Typed (relation_type_id : Z).

Inductive EdgeKindRefError :=
| EdgeKindUnknownTag (tag : Z)
| InvalidEdgeKind (b : Z)
| EdgeKindShort (got : nat).

Module EdgeKindRef.
Definition encoded_len (k : EdgeKindRef) : nat :=
  match k with Builtin _ => 2 | Mentions => 1 | Typed _ => 5 end.

(** The bytes [encode_into] appends. *)
Definition encode (k : EdgeKindRef) : bytes :=
  match k with
  | Builtin k => [byte_of 0; byte_of (EdgeKind_as_u8 k)]
  | Mentions => [byte_of 1]
  | Typed id => byte_of 2 :: to_be_bytes 4 id
  end.

Definition decode_from (b : bytes) : result (EdgeKindRef * nat) EdgeKindRefError :=
  match b with
  | [] => Err (EdgeKindShort 0)
  | t :: rest =>
    match byte_val t with
    | 0 =>
      match rest with
      | [] => Err (EdgeKindShort 1)
      | kb :: _ =>
        let? kind := ok_or (edge_kind_from_u8 (byte_val kb)) (InvalidEdgeKind (byte_val kb)) in
        Ok (Builtin kind, 2%nat)
      end
    | 1 => Ok (Mentions, 1%nat)
    | 2 =>
      if (length rest <? 4)%nat then Err (EdgeKindShort (length rest + 1))
      else Ok (Typed (from_be_bytes (take 4 rest)), 5%nat)
    | other => Err (EdgeKindUnknownTag other)
    end
  end.

Definition wf (k : EdgeKindRef) : Prop :=
  match k with Typed id => u32 id | _ => True end.
End EdgeKindRef.

(** ** Memory identifiers: packing *)

Section memory_id.
Implicit Types shard slot version : Z.

Lemma pack_arith shard slot version :
  u16 shard -> u32 version ->
  MemoryId.pack shard slot version =
    shard * 2 ^ 112 + (slot mod 2 ^ 48) * 2 ^ 64 + version * 2 ^ 32.
Proof.
  intros Hs Hv. unfold MemoryId.pack, MAX_SLOT_INDEX. rewrite land_mask by lia.
  pose proof (Z.mod_pos_bound slot (2 ^ 48) eq_refl) as Hm. unfold uint in *.
  rewrite (Z.shiftl_mul_pow2 (slot mod 2 ^ 48) 64) by lia.
  rewrite lor_shiftl_add by (unfold uint; lia).
  replace (shard * 2 ^ 112 + slot mod 2 ^ 48 * 2 ^ 64)
    with (Z.shiftl (shard * 2 ^ 48 + slot mod 2 ^ 48) 64)
    by (rewrite Z.shiftl_mul_pow2 by lia; lia).
  rewrite (Z.shiftl_mul_pow2 version 32) by lia.
  rewrite lor_shiftl_add by (unfold uint; lia). by rewrite Z.shiftl_mul_pow2 by lia.
Qed.

Lemma pack_u128 shard slot version :
  u16 shard -> u32 version -> u128 (MemoryId.pack shard slot version).
Proof.
  intros Hs Hv. rewrite pack_arith by done.
  pose proof (Z.mod_pos_bound slot (2 ^ 48) eq_refl). unfold uint in *. lia.
Qed.

Lemma unpack_arith m :
  u128 m ->
  m = MemoryId.shard m * 2 ^ 112 + MemoryId.slot m * 2 ^ 64
      + MemoryId.version m * 2 ^ 32 + MemoryId.reserved m
  /\ u16 (MemoryId.shard m) /\ u48 (MemoryId.slot m)
  /\ u32 (MemoryId.version m) /\ u32 (MemoryId.reserved m).
Proof.
  intros Hm. unfold MemoryId.shard, MemoryId.slot, MemoryId.version, MemoryId.reserved,
    MAX_SLOT_INDEX, wrap, uint in *.
  rewrite land_mask, !Z.shiftr_div_pow2 by lia.
  split; [|split_and!; try (apply Z.mod_pos_bound; lia)].
  assert (forall a, (a mod 2 ^ 64) mod 2 ^ 48 = a mod 2 ^ 48) as ->.
  { intros a. apply Z.mod_mod_divide. by exists (2 ^ 16). }
  rewrite (Z.mod_small (m / 2 ^ 112)) by (split; [apply Z.div_pos|apply Z.div_lt_upper_bound]; lia).
  pose proof (Z.div_mod m (2 ^ 32)) as E0.
  pose proof (Z.div_mod (m / 2 ^ 32) (2 ^ 32)) as E1.
  pose proof (Z.div_mod (m / 2 ^ 64) (2 ^ 48)) as E2.
  rewrite Z.div_div in E1, E2 by lia.
  change (2 ^ 32 * 2 ^ 32) with (2 ^ 64) in E1. change (2 ^ 64 * 2 ^ 48) with (2 ^ 112) in E2.
  lia.
Qed.
End memory_id.

Lemma MemoryId_from_to_be m : u128 m -> MemoryId.from_be (MemoryId.to_be m) = m.
Proof. apply (from_to_be 16). Qed.

Lemma length_MemoryId_to_be m : length (MemoryId.to_be m) = 16%nat.
Proof. apply length_to_be. Qed.

Lemma MemoryId_from_be_u128 b : length b = 16%nat -> u128 (MemoryId.from_be b).
Proof. apply from_be_uint. Qed.

Lemma unpack_pack shard slot version :
  u16 shard -> u48 slot -> u32 version ->
  MemoryId.shard (MemoryId.pack shard slot version) = shard
  /\ MemoryId.slot (MemoryId.pack shard slot version) = slot
  /\ MemoryId.version (MemoryId.pack shard slot version) = version
  /\ MemoryId.reserved (MemoryId.pack shard slot version) = 0.
Proof.
  intros Hs Hl Hv. set (m := MemoryId.pack shard slot version).
  pose proof (pack_u128 shard slot version Hs Hv) as Hm. fold m in Hm.
  destruct (unpack_arith m Hm) as (E & H1 & H2 & H3 & H4).
  pose proof (pack_arith shard slot version Hs Hv) as E'. fold m in E'.
  rewrite (Z.mod_small slot) in E' by done. unfold uint in *. split_and!; nia.
Qed.

(** Packing a 16-bit shard, a 48-bit slot index and a 32-bit
    slot version loses nothing, leaves the reserved field zero, and is never
    the null identifier unless all three are zero. *)
Theorem memory_id_pack_roundtrip shard slot version :
  u16 shard -> u48 slot -> u32 version ->
  let m := MemoryId.pack shard slot version in
  MemoryId.shard m = shard /\ MemoryId.slot m = slot /\ MemoryId.version m = version
  /\ MemoryId.reserved m = 0 /\ MemoryId.from_be (MemoryId.to_be m) = m
  /\ (MemoryId.is_null m = true <-> shard = 0 /\ slot = 0 /\ version = 0).
Proof.
  intros Hs Hl Hv m. destruct (unpack_pack shard slot version Hs Hl Hv) as (A & B & C & D).
  fold m in A, B, C, D. split_and!; try done.
  - by apply MemoryId_from_to_be, pack_u128.
  - unfold MemoryId.is_null. rewrite Z.eqb_eq. split.
    + intros E. rewrite E in A, B, C. by vm_compute in A, B, C.
    + by intros (-> & -> & ->).
Qed.

Lemma memory_id_pack_roundtrip_witness :
  let m := MemoryId.pack 7 (2 ^ 48 - 1) 3 in
  MemoryId.shard m = 7 /\ MemoryId.slot m = 2 ^ 48 - 1 /\ MemoryId.version m = 3.
Proof.
  destruct (memory_id_pack_roundtrip 7 (2 ^ 48 - 1) 3) as (A & B & C & _);
    [unfold uint; lia..|]. split_and!; assumption.
Defined.

(** ** Node references and edge labels: codecs *)

Lemma EdgeKind_u8 k : u8 (EdgeKind_as_u8 k) /\ edge_kind_from_u8 (EdgeKind_as_u8 k) = Some k.
Proof. by destruct k. Qed.

Lemma edge_kind_from_u8_Some b k : edge_kind_from_u8 b = Some k -> EdgeKind_as_u8 k = b.
Proof.
  intros H. destruct b as [|p|p]; [by simplify_eq/=| |done].
  do 3 (destruct p as [p|p|]; try by simplify_eq/=).
Qed.

Module NodeRefFacts.
Lemma length_to_bytes n : NodeRef.wf n -> length (NodeRef.to_bytes n) = NodeRef.BYTES.
Proof.
  destruct n as [m|e]; intros H; unfold NodeRef.to_bytes; cbn [length NodeRef.id_bytes].
  - by rewrite length_MemoryId_to_be.
  - by rewrite H.
Qed.

Lemma from_to n : NodeRef.wf n -> NodeRef.from_bytes (NodeRef.to_bytes n) = Ok n.
Proof.
  intros H. unfold NodeRef.from_bytes, NodeRef.to_bytes, byte_at, slice. simpl.
  rewrite (skipn_cons 0), skipn_0.
  destruct n as [m|e]; simpl in *.
  - rewrite take_ge by (by rewrite length_MemoryId_to_be). by rewrite MemoryId_from_to_be.
  - by rewrite take_ge by (rewrite H; lia).
Qed.

Lemma to_from b n :
  length b = NodeRef.BYTES -> NodeRef.from_bytes b = Ok n ->
  NodeRef.wf n /\ NodeRef.to_bytes n = b.
Proof.
  intros Hl. destruct b as [|t b]; [done|]. injection Hl as Hl.
  unfold NodeRef.from_bytes, byte_at, slice; simpl.
  rewrite (skipn_cons 0), skipn_0, take_ge by lia.
  pose proof (byte_val_u8 t) as Ht. unfold NodeRef.to_bytes.
  destruct (byte_val t) as [|[p|p|]|p] eqn:E; intros [= <-]; simpl.
  - split; [by apply MemoryId_from_be_u128|].
    unfold MemoryId.to_be, MemoryId.from_be. rewrite to_from_be by done.
    by rewrite <- E, byte.of_Z_unsigned.
  - split; [done|]. by rewrite <- E, byte.of_Z_unsigned.
Qed.
End NodeRefFacts.

Module EdgeKindRefFacts.
Lemma length_encode k : length (EdgeKindRef.encode k) = EdgeKindRef.encoded_len k.
Proof. destruct k; [done..|]. cbn [EdgeKindRef.encode length]. by rewrite length_to_be. Qed.

Lemma decode_encode k rest :
  EdgeKindRef.wf k ->
  EdgeKindRef.decode_from (EdgeKindRef.encode k ++ rest) = Ok (k, EdgeKindRef.encoded_len k).
Proof.
  intros H. destruct k as [k| |id]; cbn -[take to_be_bytes Nat.ltb length] in *.
  - by destruct k.
  - done.
  - rewrite length_app, length_to_be. cbn [Nat.ltb Nat.leb Nat.add].
    rewrite take_app_le by (by rewrite length_to_be).
    rewrite take_ge by (by rewrite length_to_be).
    by rewrite (from_to_be 4) by done.
Qed.

Lemma encode_decode b k n :
  EdgeKindRef.decode_from b = Ok (k, n) ->
  EdgeKindRef.wf k /\ n = EdgeKindRef.encoded_len k /\ (n <= length b)%nat
  /\ take n b = EdgeKindRef.encode k.
Proof.
  destruct b as [|t rest]; simpl; [done|].
  destruct (byte_val t) as [|[[p|p|]|[p|p|]|]|p] eqn:E; try done;
    rewrite <- (byte.of_Z_unsigned t), E.
  - destruct rest as [|kb rest]; [done|].
    destruct (edge_kind_from_u8 (byte_val kb)) eqn:Ek; intros [= <- <-]. simpl.
    split_and!; [done..|lia|]. rewrite (edge_kind_from_u8_Some _ _ Ek).
    by rewrite byte.of_Z_unsigned.
  - destruct (Nat.ltb_spec (length rest) 4) as [|Hl]; intros [= <- <-].
    assert (length (take 4 rest) = 4%nat) as H4 by (rewrite length_take; lia).
    simpl. split_and!; [by apply (from_be_uint (take 4 rest) 4)|done|lia|].
    by rewrite (to_from_be (take 4 rest) 4).
  - intros [= <- <-]. simpl. split_and!; [done..|lia|done].
Qed.
End EdgeKindRefFacts.

(** ** Key order of the unified edge table *)

(** The derived [Ord] of [NodeRef] and [EdgeKindRef]: variants in declaration
    order, then the payload ([Uuid]'s order is that of its bytes). *)
Definition NodeRef_cmp (a b : NodeRef) : comparison :=
  match a, b with
  | NodeMemory x, NodeMemory y => x ?= y
  | NodeMemory _, NodeEntity _ => Lt
  | NodeEntity _, NodeMemory _ => Gt
  | NodeEntity x, NodeEntity y => bytes_compare x y
  end.

Definition EdgeKindRef_cmp (a b : EdgeKindRef) : comparison :=
  match a, b with
  | Builtin x, Builtin y => EdgeKind_as_u8 x ?= EdgeKind_as_u8 y
  | Builtin _, _ => Lt
  | _, Builtin _ => Gt
  | Mentions, Mentions => Eq
  | Mentions, Typed _ => Lt
  | Typed _, Mentions => Gt
  | Typed x, Typed y => x ?= y
  end.

(** The byte strings the edge table keys on sort exactly as
    the values they encode: memory nodes before entity nodes and each by
    identifier, builtin labels before mentions before typed relations, and
    typed relations by their numeric type id. *)
Theorem edge_key_bytes_order n1 n2 k1 k2 :
  NodeRef.wf n1 -> NodeRef.wf n2 -> EdgeKindRef.wf k1 -> EdgeKindRef.wf k2 ->
  bytes_compare (NodeRef.to_bytes n1) (NodeRef.to_bytes n2) = NodeRef_cmp n1 n2
  /\ bytes_compare (EdgeKindRef.encode k1) (EdgeKindRef.encode k2) = EdgeKindRef_cmp k1 k2.
Proof.
  intros H1 H2 H3 H4. split.
  - destruct n1, n2; cbn in *; try done. by apply (to_be_compare 16).
  - destruct k1 as [k1| |i1], k2 as [k2| |i2]; cbn in *; try done.
    + by destruct k1, k2.
    + by apply (to_be_compare 4).
Qed.

Lemma edge_key_bytes_order_witness :
  bytes_compare (EdgeKindRef.encode (Typed 255)) (EdgeKindRef.encode (Typed 256)) = Lt.
Proof.
  exact (proj2 (edge_key_bytes_order (NodeMemory 1) (NodeMemory 2) (Typed 255) (Typed 256)
    ltac:(done) ltac:(done) ltac:(done) ltac:(done))).
Defined.
