(* ===== verification/WalKinds.v ===== *)
(** The [record_type] byte of a WAL record ([brain-storage/src/wal/kinds.rs]). *)

From S2P Require Import Prelude.

(** One constructor per record type; [K]-prefixed because the payload enum of
    [payload.rs] has variants of the same names. *)
Inductive WalRecordKind :=
| KEncode
| KForget
| KLink
| KUnlink
| KUpdateSalience
| KReclaim
| KConsolidate
| KUpdateKind
| KUpdateSession
| KCheckpointBegin
| KCheckpointEnd
| KTxnBegin
| KTxnCommit
| KTxnAbort
| KMigrateEmbedding
| KEntityCreate
| KEntityUpdate
| KEntityMerge
| KEntityTombstone
| KEntityRename
| KEntityUnmerge
| KStatementCreate
| KStatementSupersede
| KStatementTombstone
| KRelationCreate
| KRelationSupersede
| KRelationTombstone
| KSchemaUpdate
| KAudit
| KStageCompleted
| KSpaceCreate
| KSpaceDelete
| KSessionCreate
| KSessionDelete
| KRestoreMemory.

#[global] Instance WalRecordKind_eq_dec : EqDecision WalRecordKind.
Proof. solve_decision. Defined.

Module WalRecordKind.
(** The [#[repr(u8)]] discriminants. *)
Definition as_u8 (k : WalRecordKind) : Z :=
  match k with
  | KEncode => 1
  | KForget => 2
  | KLink => 3
  | KUnlink => 4
  | KUpdateSalience => 5
  | KReclaim => 6
  | KConsolidate => 7
  | KUpdateKind => 8
  | KUpdateSession => 9
  | KCheckpointBegin => 10
  | KCheckpointEnd => 11
  | KTxnBegin => 12
  | KTxnCommit => 13
  | KTxnAbort => 14
  | KMigrateEmbedding => 15
  | KEntityCreate => 0x10
  | KEntityUpdate => 0x11
  | KEntityMerge => 0x12
  | KEntityTombstone => 0x13
  | KEntityRename => 0x14
  | KEntityUnmerge => 0x15
  | KStatementCreate => 0x20
  | KStatementSupersede => 0x21
  | KStatementTombstone => 0x22
  | KRelationCreate => 0x30
  | KRelationSupersede => 0x31
  | KRelationTombstone => 0x32
  | KSchemaUpdate => 0x40
  | KAudit => 0x50
  | KStageCompleted => 0x51
  | KSpaceCreate => 0x60
  | KSpaceDelete => 0x61
  | KSessionCreate => 0x62
  | KSessionDelete => 0x63
  | KRestoreMemory => 0x64
  end.

Definition from_u8 (b : Z) : option WalRecordKind :=
  match b with
  | 1 => Some KEncode
  | 2 => Some KForget
  | 3 => Some KLink
  | 4 => Some KUnlink
  | 5 => Some KUpdateSalience
  | 6 => Some KReclaim
  | 7 => Some KConsolidate
  | 8 => Some KUpdateKind
  | 9 => Some KUpdateSession
  | 10 => Some KCheckpointBegin
  | 11 => Some KCheckpointEnd
  | 12 => Some KTxnBegin
  | 13 => Some KTxnCommit
  | 14 => Some KTxnAbort
  | 15 => Some KMigrateEmbedding
  | 0x10 => Some KEntityCreate
  | 0x11 => Some KEntityUpdate
  | 0x12 => Some KEntityMerge
  | 0x13 => Some KEntityTombstone
  | 0x14 => Some KEntityRename
  | 0x15 => Some KEntityUnmerge
  | 0x20 => Some KStatementCreate
  | 0x21 => Some KStatementSupersede
  | 0x22 => Some KStatementTombstone
  | 0x30 => Some KRelationCreate
  | 0x31 => Some KRelationSupersede
  | 0x32 => Some KRelationTombstone
  | 0x40 => Some KSchemaUpdate
  | 0x50 => Some KAudit
  | 0x51 => Some KStageCompleted
  | 0x60 => Some KSpaceCreate
  | 0x61 => Some KSpaceDelete
  | 0x62 => Some KSessionCreate
  | 0x63 => Some KSessionDelete
  | 0x64 => Some KRestoreMemory
  | _ => None
  end.

Definition has_opaque_body (k : WalRecordKind) : bool :=
  let d := as_u8 k in
  ((0x10 <=? d) && (d <=? 0x51)) || ((0x60 <=? d) && (d <=? 0x63)).
End WalRecordKind.

Definition ALL_KINDS : list WalRecordKind :=
  [KEncode; KForget; KLink; KUnlink; KUpdateSalience;
   KReclaim; KConsolidate; KUpdateKind; KUpdateSession; KCheckpointBegin;
   KCheckpointEnd; KTxnBegin; KTxnCommit; KTxnAbort; KMigrateEmbedding;
   KEntityCreate; KEntityUpdate; KEntityMerge; KEntityTombstone; KEntityRename;
   KEntityUnmerge; KStatementCreate; KStatementSupersede; KStatementTombstone; KRelationCreate;
   KRelationSupersede; KRelationTombstone; KSchemaUpdate; KAudit; KStageCompleted;
   KSpaceCreate; KSpaceDelete; KSessionCreate; KSessionDelete; KRestoreMemory].

Lemma all_kinds_complete k : k ∈ ALL_KINDS.
Proof. apply list_elem_of_In. destruct k; simpl; tauto. Qed.

Lemma kind_as_u8_range k : 1 <= WalRecordKind.as_u8 k <= 0x64.
Proof. destruct k; simpl; lia. Qed.

Lemma kind_as_u8_u8 k : u8 (WalRecordKind.as_u8 k).
Proof. destruct k; unfold uint; simpl; lia. Qed.

Lemma kind_from_as k : WalRecordKind.from_u8 (WalRecordKind.as_u8 k) = Some k.
Proof. by destruct k. Qed.

Lemma kind_as_from b k : WalRecordKind.from_u8 b = Some k -> WalRecordKind.as_u8 k = b.
Proof.
  intros H. destruct b as [|p|p]; [done| |done].
  do 7 (destruct p as [p|p|]; try by simplify_eq/=).
Qed.
