(* ===== verification/WalRecord.v ===== *)
(** WAL record framing ([brain-storage/src/wal/record.rs]): a 32-byte header,
    the payload, and an 8-byte footer with the CRC32C of header and payload.

    [encode_into] returns the extended buffer, or [None] where the code
    panics.  [decode_one] returns the three outcomes of the code: a record
    with the number of bytes consumed, [Truncated], or a validation error. *)

From S2P Require Import Prelude Crc32c WalKinds.

Definition HEADER_LEN : nat := 32.
Definition FOOTER_LEN : nat := 8.
Definition MAX_PAYLOAD : Z := 16 * 1024 * 1024.
Definition FLAG_SUBSCRIBE_EVENT : Z := 0x01.

(** [Lsn::next]. *)
Definition Lsn_next (l : Z) : Z := sat_add64 l 1.

Record WalRecord := {
  wr_lsn : Z;
  wr_kind : WalRecordKind;
  wr_flags : Z;
  wr_timestamp_ns : Z;
  wr_space_id_lo64 : Z;
  wr_payload : bytes;
}.

Inductive DecodeOutcome :=
| DecRecord (record : WalRecord) (consumed : nat)
| Truncated.

Inductive WalRecordError :=
| CrcMismatch (expected actual : Z)
| UnknownRecordType (b : Z)
| NonZeroReserved
| PayloadTooLarge (n : Z).

#[global] Instance WalRecord_eq_dec : EqDecision WalRecord.
Proof. solve_decision. Defined.

Definition encoded_len (r : WalRecord) : nat :=
  (HEADER_LEN + length (wr_payload r) + FOOTER_LEN)%nat.

(** The record as [lsn] is stamped on it by the writer. *)
Definition set_lsn (l : Z) (r : WalRecord) : WalRecord :=
  {| wr_lsn := l; wr_kind := wr_kind r; wr_flags := wr_flags r;
     wr_timestamp_ns := wr_timestamp_ns r; wr_space_id_lo64 := wr_space_id_lo64 r;
     wr_payload := wr_payload r |}.

(** The field values the Rust types allow, with a payload the framing accepts. *)
Record WalRecord_wf (r : WalRecord) : Prop := {
  wf_lsn : u64 (wr_lsn r);
  wf_flags : u8 (wr_flags r);
  wf_timestamp : u64 (wr_timestamp_ns r);
  wf_space : u64 (wr_space_id_lo64 r);
  wf_payload : Z.of_nat (length (wr_payload r)) <= MAX_PAYLOAD;
}.

Section record.
Context `{Crc32c}.

(** The header bytes, with [payload_len_u32] the length field. *)
Definition header_bytes (r : WalRecord) (payload_len_u32 : Z) : bytes :=
  to_le_bytes 8 (wr_lsn r)
  ++ [byte_of (WalRecordKind.as_u8 (wr_kind r))]
  ++ [byte_of (wr_flags r)]
  ++ [Byte.x00; Byte.x00]
  ++ to_le_bytes 4 payload_len_u32
  ++ to_le_bytes 8 (wr_timestamp_ns r)
  ++ to_le_bytes 8 (wr_space_id_lo64 r).

Definition encode_into (r : WalRecord) (out : bytes) : option bytes :=
  let payload_len_u32 := Z.of_nat (length (wr_payload r)) in
  if payload_len_u32 <=? U32_MAX then
    if payload_len_u32 <=? MAX_PAYLOAD then
      let start := length out in
      let out := out ++ header_bytes r payload_len_u32 in
      let out := out ++ wr_payload r in
      let crc := crc32c (slice start (start + HEADER_LEN + length (wr_payload r)) out) in
      let out := out ++ to_le_bytes 4 crc in
      Some (out ++ replicate 4 Byte.x00)
    else None
  else None.

Definition encode (r : WalRecord) : option bytes := encode_into r [].

Definition decode_one (buf : bytes) : result DecodeOutcome WalRecordError :=
  if (length buf <? HEADER_LEN)%nat then Ok Truncated else
  let lsn := from_le_bytes (slice 0 8 buf) in
  let record_type := byte_val (byte_at 8 buf) in
  let flags := byte_val (byte_at 9 buf) in
  let reserved_hi := slice 10 12 buf in
  let payload_length := from_le_bytes (slice 12 16 buf) in
  let timestamp_ns := from_le_bytes (slice 16 24 buf) in
  let space_id_lo64 := from_le_bytes (slice 24 32 buf) in
  if negb (bool_decide (reserved_hi = [Byte.x00; Byte.x00])) then Err NonZeroReserved else
  if MAX_PAYLOAD <? payload_length then Err (PayloadTooLarge payload_length) else
  let payload_len := Z.to_nat payload_length in
  let total := (HEADER_LEN + payload_len + FOOTER_LEN)%nat in
  if (length buf <? total)%nat then Ok Truncated else
  let? kind := ok_or (WalRecordKind.from_u8 record_type) (UnknownRecordType record_type) in
  let expected := from_le_bytes (slice (HEADER_LEN + payload_len) (HEADER_LEN + payload_len + 4) buf) in
  let footer_reserved := slice (HEADER_LEN + payload_len + 4) total buf in
  if negb (bool_decide (footer_reserved = replicate 4 Byte.x00)) then Err NonZeroReserved else
  let actual := crc32c (take (HEADER_LEN + payload_len) buf) in
  if negb (expected =? actual) then Err (CrcMismatch expected actual) else
  let payload := slice HEADER_LEN (HEADER_LEN + payload_len) buf in
  Ok (DecRecord
        {| wr_lsn := lsn; wr_kind := kind; wr_flags := flags;
           wr_timestamp_ns := timestamp_ns; wr_space_id_lo64 := space_id_lo64;
           wr_payload := payload |}
        total).
End record.

Section record_facts.
Context `{CRC : Crc32c}.
Implicit Types r : WalRecord.

Lemma length_header r n : length (header_bytes r n) = HEADER_LEN.
Proof. unfold header_bytes. len. done. Qed.

(** The closed form of a successful encoding. *)
Definition frame (r : WalRecord) : bytes :=
  let h := header_bytes r (Z.of_nat (length (wr_payload r))) in
  h ++ wr_payload r ++ to_le_bytes 4 (crc32c (h ++ wr_payload r)) ++ replicate 4 Byte.x00.

Lemma length_frame r : length (frame r) = encoded_len r.
Proof. unfold frame, encoded_len. len. rewrite length_header. unfold FOOTER_LEN. lia. Qed.

Lemma encode_into_frame r out :
  Z.of_nat (length (wr_payload r)) <= MAX_PAYLOAD -> encode_into r out = Some (out ++ frame r).
Proof.
  intros Hp. unfold encode_into.
  rewrite (proj2 (Z.leb_le _ U32_MAX)) by (unfold MAX_PAYLOAD, U32_MAX in *; lia).
  rewrite (proj2 (Z.leb_le _ MAX_PAYLOAD)) by done. f_equal. unfold frame.
  set (h := header_bytes _ _).
  assert (length h = HEADER_LEN) as Hh by apply length_header.
  rewrite <- !app_assoc. do 6 f_equal.
  rewrite slice_skip by lia. unfold slice. rewrite Nat.sub_diag, drop_0. apply take_ge. len.
Qed.

Lemma encode_into_None r out :
  MAX_PAYLOAD < Z.of_nat (length (wr_payload r)) -> encode_into r out = None.
Proof.
  intros Hp. unfold encode_into. rewrite (proj2 (Z.leb_gt _ MAX_PAYLOAD)) by done.
  by destruct (_ <=? _).
Qed.

Lemma encode_Some r b :
  encode r = Some b <-> Z.of_nat (length (wr_payload r)) <= MAX_PAYLOAD /\ b = frame r.
Proof.
  unfold encode. destruct (decide (Z.of_nat (length (wr_payload r)) <= MAX_PAYLOAD)).
  - rewrite encode_into_frame by done. split; [intros [= <-]; done|intros [_ ->]; done].
  - rewrite encode_into_None by lia. split; [done|lia].
Qed.

Lemma decode_frame `{!Crc32cLaws CRC} r rest :
  WalRecord_wf r -> decode_one (frame r ++ rest) = Ok (DecRecord r (encoded_len r)).
Proof.
  intros [Hl Hf Ht Hs Hp].
  assert (Z.to_nat (Z.of_nat (length (wr_payload r))) = length (wr_payload r)) as En by lia.
  assert (u32 (Z.of_nat (length (wr_payload r)))) as Hu
    by (unfold uint, MAX_PAYLOAD in *; lia).
  assert (length (frame r ++ rest) = encoded_len r + length rest)%nat as Hlen
    by (len; by rewrite length_frame).
  unfold decode_one. rewrite Hlen.
  rewrite (proj2 (Nat.ltb_ge _ HEADER_LEN)) by (unfold encoded_len; lia).
  assert (take (HEADER_LEN + length (wr_payload r)) (frame r ++ rest)
          = header_bytes r (Z.of_nat (length (wr_payload r))) ++ wr_payload r) as Htake.
  { unfold frame. rewrite <- !app_assoc, (app_assoc (header_bytes _ _)).
    rewrite take_app_le by (len; rewrite length_header; lia).
    apply take_ge. len. rewrite length_header. lia. }
  assert (from_le_bytes (slice 12 16 (frame r ++ rest)) = Z.of_nat (length (wr_payload r))) as ->.
  { unfold frame, header_bytes. rewrite <- !app_assoc. slices. by rewrite (from_to_le 4). }
  rewrite En, Htake.
  unfold frame, header_bytes. rewrite <- !app_assoc. unfold HEADER_LEN, FOOTER_LEN.
  slices.
  rewrite (bool_decide_eq_true_2 _ eq_refl). cbn [negb].
  rewrite (proj2 (Z.ltb_ge MAX_PAYLOAD _)) by done.
  rewrite (proj2 (Nat.ltb_ge _ _)) by (unfold encoded_len, HEADER_LEN, FOOTER_LEN; lia).
  rewrite !byte_val_of, kind_from_as by (done || apply kind_as_u8_u8). cbn [ok_or].
  rewrite (bool_decide_eq_true_2 _ eq_refl). cbn [negb].
  rewrite (from_to_le 4) by apply crc32c_u32. rewrite Z.eqb_refl. cbn [negb].
  rewrite !(from_to_le 8) by done. by destruct r.
Qed.

(** The header of a buffer is the concatenation of its fields. *)
Lemma header_of_slices buf k fl ts sp pl :
  (32 <= length buf)%nat ->
  slice 10 12 buf = [Byte.x00; Byte.x00] ->
  WalRecordKind.as_u8 k = byte_val (byte_at 8 buf) ->
  fl = byte_val (byte_at 9 buf) ->
  ts = from_le_bytes (slice 16 24 buf) -> sp = from_le_bytes (slice 24 32 buf) ->
  header_bytes {| wr_lsn := from_le_bytes (slice 0 8 buf); wr_kind := k; wr_flags := fl;
      wr_timestamp_ns := ts; wr_space_id_lo64 := sp; wr_payload := pl |}
    (from_le_bytes (slice 12 16 buf)) = take 32 buf.
Proof.
  intros Hl E1 Ek -> -> ->. unfold header_bytes. cbn [wr_lsn wr_kind wr_flags
    wr_timestamp_ns wr_space_id_lo64].
  rewrite !to_from_le by (rewrite length_slice by lia; lia).
  rewrite Ek, !byte.of_Z_unsigned, <- E1, <- !slice_byte_at by lia.
  rewrite !slice_app by lia. apply slice_0.
Qed.

Lemma frame_of_slices buf k pl :
  pl = from_le_bytes (slice 12 16 buf) ->
  0 <= pl ->
  (32 + Z.to_nat pl + 8 <= length buf)%nat ->
  slice 10 12 buf = [Byte.x00; Byte.x00] ->
  WalRecordKind.from_u8 (byte_val (byte_at 8 buf)) = Some k ->
  slice (32 + Z.to_nat pl + 4) (32 + Z.to_nat pl + 8) buf = replicate 4 Byte.x00 ->
  from_le_bytes (slice (32 + Z.to_nat pl) (32 + Z.to_nat pl + 4) buf)
    = crc32c (take (32 + Z.to_nat pl) buf) ->
  take (32 + Z.to_nat pl + 8) buf =
  frame {| wr_lsn := from_le_bytes (slice 0 8 buf); wr_kind := k;
           wr_flags := byte_val (byte_at 9 buf);
           wr_timestamp_ns := from_le_bytes (slice 16 24 buf);
           wr_space_id_lo64 := from_le_bytes (slice 24 32 buf);
           wr_payload := slice 32 (32 + Z.to_nat pl) buf |}.
Proof.
  intros Epl Hpl Ht E1 Ek E2 Ec. unfold frame. cbn [wr_payload].
  rewrite length_slice by lia.
  replace (Z.of_nat (32 + Z.to_nat pl - 32)) with pl by lia.
  set (n := Z.to_nat pl) in *. rewrite Epl.
  rewrite header_of_slices by (done || lia || by apply kind_as_from).
  assert (take 32 buf ++ slice 32 (32 + n) buf = take (32 + n) buf) as ->
    by (rewrite <- !slice_0; apply slice_app; lia).
  rewrite <- Ec, <- E2, to_from_le by (rewrite length_slice by lia; lia).
  rewrite app_assoc, <- !slice_0, !slice_app by lia. done.
Qed.

Lemma DecRecord_inj r1 n1 r2 n2 :
  @Ok _ WalRecordError (DecRecord r1 n1) = Ok (DecRecord r2 n2) -> r1 = r2 /\ n1 = n2.
Proof. by intros [= -> ->]. Qed.

(** Every decoded record is the record its bytes encode. *)
Lemma decode_one_inv buf r n :
  decode_one buf = Ok (DecRecord r n) ->
  WalRecord_wf r /\ n = encoded_len r /\ (n <= length buf)%nat /\ take n buf = frame r.
Proof.
  unfold decode_one.
  destruct (Nat.ltb_spec (length buf) HEADER_LEN) as [|Hh]; [done|].
  destruct (bool_decide (slice 10 12 buf = _)) eqn:E1; [|done]. apply bool_decide_eq_true in E1.
  cbn [negb]. set (pl := from_le_bytes (slice 12 16 buf)).
  destruct (Z.ltb_spec MAX_PAYLOAD pl) as [|Hpl]; [done|].
  destruct (Nat.ltb_spec (length buf) (HEADER_LEN + Z.to_nat pl + FOOTER_LEN)) as [|Ht]; [done|].
  destruct (WalRecordKind.from_u8 _) as [k|] eqn:Ek; [|done]. cbn [ok_or].
  destruct (bool_decide (slice _ (_ + FOOTER_LEN) buf = _)) eqn:E2; [|done].
  apply bool_decide_eq_true in E2. cbn [negb].
  destruct (Z.eqb_spec (from_le_bytes (slice (HEADER_LEN + Z.to_nat pl)
                (HEADER_LEN + Z.to_nat pl + 4) buf))
              (crc32c (take (HEADER_LEN + Z.to_nat pl) buf))) as [Ec|]; [|done].
  cbn [negb]. intros Heq. apply DecRecord_inj in Heq as [<- <-].
  unfold HEADER_LEN, FOOTER_LEN in *.
  assert (forall a b w, (b <= 32)%nat -> w = 8 * Z.of_nat (b - a) ->
    uint w (from_le_bytes (slice a b buf))) as Hu.
  { intros a b w Hb ->. apply from_le_uint. apply length_slice. lia. }
  assert (u32 pl) as Hpl32 by (apply (Hu 12%nat 16%nat 32); lia).
  assert (length (slice 32 (32 + Z.to_nat pl) buf) = Z.to_nat pl) as Hlp
    by (rewrite length_slice by lia; lia).
  split; [|split; [|split; [lia|]]].
  - split; cbn [wr_lsn wr_flags wr_timestamp_ns wr_space_id_lo64 wr_payload];
      [apply (Hu 0%nat 8%nat 64); lia|apply byte_val_u8|apply (Hu 16%nat 24%nat 64); lia
      |apply (Hu 24%nat 32%nat 64); lia|].
    rewrite Hlp. unfold uint in Hpl32. lia.
  - unfold encoded_len, HEADER_LEN, FOOTER_LEN. cbn [wr_payload]. by rewrite Hlp.
  - apply frame_of_slices; unfold uint in *; done || lia.
Qed.

(** A strict prefix of a frame is a torn write, never a record or an error. *)
Lemma decode_torn_frame r k :
  WalRecord_wf r -> (k < encoded_len r)%nat -> decode_one (take k (frame r)) = Ok Truncated.
Proof.
  intros Hwf Hk. destruct (Hwf) as [Hl Hf Ht Hs Hp].
  assert (length (take k (frame r)) = k) as Hlen
    by (rewrite length_take, length_frame; lia).
  unfold decode_one. rewrite Hlen.
  destruct (Nat.ltb_spec k HEADER_LEN) as [|Hk']; [done|].
  assert (forall a b, (b <= HEADER_LEN)%nat -> slice a b (take k (frame r))
    = slice a b (header_bytes r (Z.of_nat (length (wr_payload r))))) as Hsl.
  { intros a b Hb. unfold slice. unfold frame. rewrite take_app_ge by (rewrite length_header; lia).
    rewrite length_header. destruct (decide (a <= HEADER_LEN))%nat.
    - rewrite drop_app_le by (rewrite length_header; lia).
      apply take_app_le. rewrite length_drop, length_header. lia.
    - replace (b - a)%nat with 0%nat by lia. by rewrite !take_0. }
  rewrite !Hsl by (unfold HEADER_LEN; lia).
  assert (u32 (Z.of_nat (length (wr_payload r)))) as Hu
    by (unfold uint, MAX_PAYLOAD in *; lia).
  unfold header_bytes. slices.
  rewrite (bool_decide_eq_true_2 _ eq_refl). cbn [negb].
  rewrite (from_to_le 4) by done.
  rewrite (proj2 (Z.ltb_ge MAX_PAYLOAD _)) by done.
  rewrite (proj2 (Nat.ltb_lt _ _)); [done|]. unfold encoded_len in Hk. lia.
Qed.
End record_facts.

(** ** The framing contract *)

Section record_contract.
Context `{CRC : Crc32c} `{!Crc32cLaws CRC}.

(** A record whose fields fit their widths and whose payload
    is within the limit encodes to [encoded_len] bytes, and decoding those
    bytes followed by anything returns the record and that length; beyond
    the limit the encoder panics. *)
Theorem wal_record_roundtrip r rest :
  WalRecord_wf r ->
  (exists b, encode r = Some b /\ length b = encoded_len r
             /\ decode_one (b ++ rest) = Ok (DecRecord r (length b)))
  /\ (forall r', MAX_PAYLOAD < Z.of_nat (length (wr_payload r')) -> encode r' = None).
Proof.
  intros Hwf. split; [|intros r'; apply encode_into_None].
  exists (frame r). rewrite length_frame. split_and!; [|done|by apply decode_frame].
  apply encode_Some. split; [apply Hwf|done].
Qed.

(** Decoding accepts only canonical frames: whatever bytes
    [decode_one] accepts are exactly the encoding of the record it returns,
    so no two byte strings decode to the same record. *)
Theorem wal_record_decode_canonical buf r n :
  decode_one buf = Ok (DecRecord r n) ->
  WalRecord_wf r /\ n = encoded_len r /\ (n <= length buf)%nat
  /\ encode r = Some (take n buf).
Proof.
  intros H. apply decode_one_inv in H as (Hwf & -> & Hl & E).
  split_and!; [done..|]. apply encode_Some. by destruct Hwf.
Qed.

(** A write torn at any byte before the end of the record
    decodes as [Truncated], never as a record or as corruption. *)
Theorem wal_record_torn_write r b k :
  WalRecord_wf r -> encode r = Some b -> (k < length b)%nat ->
  decode_one (take k b) = Ok Truncated.
Proof.
  intros Hwf E Hk. apply encode_Some in E as [_ ->].
  rewrite length_frame in Hk. by apply decode_torn_frame.
Qed.
End record_contract.

Module RecordExample.
Import Castagnoli.
Definition sample : WalRecord :=
  {| wr_lsn := 7; wr_kind := KForget; wr_flags := 0; wr_timestamp_ns := 1700;
     wr_space_id_lo64 := 42; wr_payload := [Byte.x01; Byte.x02; Byte.x03] |}.

Lemma sample_wf : WalRecord_wf sample.
Proof. split; unfold uint, MAX_PAYLOAD; simpl; lia. Qed.

Lemma wal_record_roundtrip_witness :
  exists b, encode sample = Some b /\ length b = 43%nat
            /\ decode_one (b ++ [Byte.xff]) = Ok (DecRecord sample (length b)).
Proof. exact (proj1 (wal_record_roundtrip sample [Byte.xff] sample_wf)). Defined.

Lemma wal_record_decode_canonical_witness :
  encode sample = Some (take 43 (frame sample ++ [Byte.xff])).
Proof.
  apply (wal_record_decode_canonical (frame sample ++ [Byte.xff]) sample 43).
  vm_compute. reflexivity.
Defined.

Lemma wal_record_torn_write_witness :
  decode_one (take 40 (frame sample)) = Ok Truncated.
Proof.
  apply (wal_record_torn_write sample (frame sample) 40);
    [exact sample_wf|vm_compute; reflexivity|vm_compute; lia].
Defined.
End RecordExample.
