(* ===== verification/Utf8.v ===== *)
(** UTF-8 validity, as [core::str::from_utf8] decides it: the well-formed byte
    sequences of the Unicode standard (no overlong forms, no surrogates, at
    most U+10FFFF). *)

From S2P Require Import Prelude.

Definition in_range (lo hi : Z) (b : Byte.byte) : bool :=
  (lo <=? byte_val b) && (byte_val b <=? hi).

Definition cont (b : Byte.byte) : bool := in_range 0x80 0xBF b.

Fixpoint utf8_valid (s : bytes) : bool :=
  match s with
  | [] => true
  | b0 :: s1 =>
    if in_range 0 0x7F b0 then utf8_valid s1 else
    match s1 with
    | [] => false
    | b1 :: s2 =>
      if in_range 0xC2 0xDF b0 then cont b1 && utf8_valid s2 else
      match s2 with
      | [] => false
      | b2 :: s3 =>
        if in_range 0xE0 0xEF b0 then
          (if byte_val b0 =? 0xE0 then in_range 0xA0 0xBF b1
           else if byte_val b0 =? 0xED then in_range 0x80 0x9F b1 else cont b1)
          && cont b2 && utf8_valid s3
        else
        match s3 with
        | [] => false
        | b3 :: s4 =>
          in_range 0xF0 0xF4 b0
          && (if byte_val b0 =? 0xF0 then in_range 0x90 0xBF b1
              else if byte_val b0 =? 0xF4 then in_range 0x80 0x8F b1 else cont b1)
          && cont b2 && cont b3 && utf8_valid s4
        end
      end
    end
  end.

(** Two byte sequences around the edges of the ranges: U+D7FF is valid, the
    surrogate U+D800 and the overlong two-byte form of U+007F are not. *)
Example utf8_edges :
  utf8_valid (byte_of <$> [0xED; 0x9F; 0xBF]) = true
  /\ utf8_valid (byte_of <$> [0xED; 0xA0; 0x80]) = false
  /\ utf8_valid (byte_of <$> [0xC1; 0xBF]) = false
  /\ utf8_valid (byte_of <$> [0xF4; 0x8F; 0xBF; 0xBF]) = true
  /\ utf8_valid (byte_of <$> [0xF4; 0x90; 0x80; 0x80]) = false.
Proof. vm_compute. done. Qed.
