(* ===== verification/WalPayload.v ===== *)
(** Typed WAL payloads ([brain-storage/src/wal/payload.rs]): one record type
    per payload struct, the [Reader] cursor with its error-returning
    primitives, and an encoder and a decoder per payload kind.

    An encoder is the bytes it appends to its output buffer, [None] where the
    code panics ([expect] on a length conversion).  An [f32] is its bit
    pattern, as [to_bits]/[from_bits] move it; a [String] its UTF-8 bytes. *)

From S2P Require Import Prelude Ids WalKinds Utf8.

(** ** Payload types *)

Inductive ForgetMode := Soft | Hard.
Inductive ForgetReason := ClientRequest | Eviction.
Inductive SalienceReason := Access | Decay | ExplicitUpdate.

Record EdgePayload := {
  eg_source : NodeRef;
  eg_target : NodeRef;
  eg_kind : EdgeKindRef;
  eg_weight : Z;
  eg_origin : EdgeOrigin;
}.

Record EncodePayload := {
  ep_memory_id : MemoryId;
  ep_request_id : Uuid;
  ep_space_id : Uuid;
  ep_namespace_id : Z;
  ep_session_id : Z;
  ep_kind : MemoryKind;
  ep_salience_initial : Z;
  ep_embedding_model_fp : bytes;
  ep_text : bytes;
  ep_vector : list Z;
  ep_edges : list EdgePayload;
  ep_request_hash : bytes;
  ep_response_payload : bytes;
  ep_deduplicate : bool;
  ep_occurred_at : option Z;
}.

Record ForgetPayload := {
  fp_memory_id : MemoryId;
  fp_request_id : Uuid;
  fp_space_id : Uuid;
  fp_mode : ForgetMode;
  fp_reason : ForgetReason;
}.

Record RestorePayload := {
  rp_memory_id : MemoryId;
  rp_request_id : Uuid;
  rp_space_id : Uuid;
}.

Record LinkPayload := {
  lp_source : NodeRef;
  lp_target : NodeRef;
  lp_edge_kind : EdgeKindRef;
  lp_weight : Z;
  lp_origin : EdgeOrigin;
}.

Record UnlinkPayload := {
  up_source : NodeRef;
  up_target : NodeRef;
  up_edge_kind : EdgeKindRef;
  up_edge_seq : Z;
}.

Record SalienceUpdate := {
  su_memory_id : MemoryId;
  su_new_salience : Z;
  su_reason : SalienceReason;
}.

Record UpdateSaliencePayload := { us_updates : list SalienceUpdate }.

Record ReclaimPayload := {
  rc_slot_id : Z;
  rc_old_version : Z;
  rc_new_version : Z;
  rc_memory_id : MemoryId;
}.

Record ConsolidatePayload := {
  cp_new_memory_id : MemoryId;
  cp_source_memory_ids : list MemoryId;
  cp_text : bytes;
  cp_vector : list Z;
  cp_embedding_model_fp : bytes;
}.

Record UpdateKindPayload := { uk_memory_id : MemoryId; uk_new_kind : MemoryKind }.
Record UpdateSessionPayload := { ux_memory_id : MemoryId; ux_new_session_id : Z }.
Record CheckpointBeginPayload := { cb_checkpoint_id : Z; cb_started_at : Z }.

Record CheckpointEndPayload := {
  ce_checkpoint_id : Z;
  ce_durable_lsn : Z;
  ce_arena_capacity : Z;
}.

Record TxnBeginPayload := { tb_txn_id : Uuid; tb_expected_record_count : Z }.
Record TxnCommitPayload := { tc_txn_id : Uuid }.
Record TxnAbortPayload := { ta_txn_id : Uuid; ta_reason_code : Z }.

Record MigrateEmbeddingPayload := {
  me_memory_id : MemoryId;
  me_old_fingerprint : bytes;
  me_new_fingerprint : bytes;
  me_new_vector : list Z;
}.

Record RelationLinkPayload := {
  rl_relation_id : Uuid;
  rl_from : NodeRef;
  rl_to : NodeRef;
  rl_relation_type_id : Z;
  rl_chain_root : Uuid;
  rl_confidence : Z;
  rl_valid_from : option Z;
  rl_valid_to : option Z;
  rl_supersedes : option Uuid;
  rl_evidence : list MemoryId;
  rl_extractor_id : Z;
  rl_is_symmetric : bool;
  rl_properties_blob : bytes;
  rl_space_id : Uuid;
  rl_namespace_id : Z;
  rl_session_id : Z;
  rl_intern_hint : option (bytes * bytes);
}.

Record RelationSupersedePayload := {
  rs_old_relation_id : Uuid;
  rs_new : RelationLinkPayload;
}.

Record RelationTombstonePayload := {
  rt_relation_id : Uuid;
  rt_reason : bytes;
  rt_at_unix_nanos : Z;
  rt_space_id : Uuid;
}.

Record PhaseBodyRecord := {
  pb_kind : WalRecordKind;
  pb_space_id : Uuid;
  pb_body : bytes;
}.

Inductive WalPayload :=
| Encode (p : EncodePayload)
| Forget (p : ForgetPayload)
| Link (p : LinkPayload)
| Unlink (p : UnlinkPayload)
| UpdateSalience (p : UpdateSaliencePayload)
| Reclaim (p : ReclaimPayload)
| Consolidate (p : ConsolidatePayload)
| UpdateKind (p : UpdateKindPayload)
| UpdateSession (p : UpdateSessionPayload)
| CheckpointBegin (p : CheckpointBeginPayload)
| CheckpointEnd (p : CheckpointEndPayload)
| TxnBegin (p : TxnBeginPayload)
| TxnCommit (p : TxnCommitPayload)
| TxnAbort (p : TxnAbortPayload)
| MigrateEmbedding (p : MigrateEmbeddingPayload)
| RelationLink (p : RelationLinkPayload)
| RelationSupersede (p : RelationSupersedePayload)
| RelationTombstone (p : RelationTombstonePayload)
| RestoreMemory (p : RestorePayload)
| PhaseBody (r : PhaseBodyRecord).

(** [WalPayload::kind]. *)
Definition payload_kind (p : WalPayload) : WalRecordKind :=
  match p with
  | Encode _ => KEncode
  | Forget _ => KForget
  | Link _ => KLink
  | Unlink _ => KUnlink
  | UpdateSalience _ => KUpdateSalience
  | Reclaim _ => KReclaim
  | Consolidate _ => KConsolidate
  | UpdateKind _ => KUpdateKind
  | UpdateSession _ => KUpdateSession
  | CheckpointBegin _ => KCheckpointBegin
  | CheckpointEnd _ => KCheckpointEnd
  | TxnBegin _ => KTxnBegin
  | TxnCommit _ => KTxnCommit
  | TxnAbort _ => KTxnAbort
  | MigrateEmbedding _ => KMigrateEmbedding
  | RelationLink _ => KRelationCreate
  | RelationSupersede _ => KRelationSupersede
  | RelationTombstone _ => KRelationTombstone
  | RestoreMemory _ => KRestoreMemory
  | PhaseBody r => pb_kind r
  end.

(** ** Errors and limits *)

Inductive WalPayloadError :=
| Underrun (needed had : nat)
| TrailingBytes (n : nat)
| BadMemoryKind (b : Z)
| BadEdgeOrigin (b : Z)
| BadNodeRef (e : NodeRefError)
| BadEdgeKindRef (e : EdgeKindRefError)
| BadEvidenceCount (n : Z)
| BadOptionTag (b : Z)
| BadForgetMode (b : Z)
| BadForgetReason (b : Z)
| BadSalienceReason (b : Z)
| BadTextLength (n : Z)
| BadUtf8
| BadVectorDims (n : Z)
| BadSourceCount (n : Z)
| BadUpdateCount (n : Z)
| BadEdgeCount (n : Z)
| BadBlobLength (n : Z).

Definition RESPONSE_BLOB_MAX : Z := 1024 * 1024.
Definition VECTOR_DIMS_MAX : Z := 4096.

(** ** The reader *)

Record Reader := { rd_bytes : bytes; rd_cursor : nat }.

(** A [fn(&mut Reader) -> Result<A, WalPayloadError>]. *)
Definition Parser (A : Type) : Type := Reader -> result (A * Reader) WalPayloadError.

Definition pret {A} (a : A) : Parser A := fun r => Ok (a, r).
Definition pfail {A} (e : WalPayloadError) : Parser A := fun _ => Err e.
Definition pbind {A B} (p : Parser A) (k : A -> Parser B) : Parser B :=
  fun r => let? (a, r') := p r in k a r'.

Declare Scope parser_scope.
Notation "'let!' x ':=' p 'in' k" := (pbind p (fun x => k))
  (at level 10, x name, p at level 100, k at level 200) : parser_scope.
Open Scope parser_scope.

Definition lift {A} (m : result A WalPayloadError) : Parser A :=
  match m with Ok a => pret a | Err e => pfail e end.

Module Reader.
Definition new (b : bytes) : Reader := {| rd_bytes := b; rd_cursor := 0 |}.
Definition is_at_end (r : Reader) : bool := (rd_cursor r =? length (rd_bytes r))%nat.
Definition remaining (r : Reader) : nat := (length (rd_bytes r) - rd_cursor r)%nat.

Definition take (n : nat) : Parser bytes := fun r =>
  if (remaining r <? n)%nat then Err (Underrun n (remaining r)) else
  let s := slice (rd_cursor r) (rd_cursor r + n) (rd_bytes r) in
  Ok (s, {| rd_bytes := rd_bytes r; rd_cursor := (rd_cursor r + n)%nat |}).

Definition u8 : Parser Z := let! b := take 1 in pret (byte_val (byte_at 0 b)).
Definition u16_le : Parser Z := let! b := take 2 in pret (from_le_bytes b).
Definition u32_le : Parser Z := let! b := take 4 in pret (from_le_bytes b).
Definition u64_le : Parser Z := let! b := take 8 in pret (from_le_bytes b).
Definition f32_le : Parser Z := u32_le.
Definition array16 : Parser bytes := take 16.
Definition memory_id : Parser MemoryId := let! b := array16 in pret (MemoryId.from_be b).

Definition node_ref : Parser NodeRef :=
  let! b := take NodeRef.BYTES in
  lift (map_err BadNodeRef (NodeRef.from_bytes b)).

Definition edge_kind_ref : Parser EdgeKindRef := fun r =>
  let rest := drop (rd_cursor r) (rd_bytes r) in
  let? (k, consumed) := map_err BadEdgeKindRef (EdgeKindRef.decode_from rest) in
  Ok (k, {| rd_bytes := rd_bytes r; rd_cursor := (rd_cursor r + consumed)%nat |}).
End Reader.

(** A check against [r.remaining()] that returns [e] when it fails. *)
Definition bail_if (bad : nat -> bool) (e : nat -> WalPayloadError) : Parser unit := fun r =>
  if bad (Reader.remaining r) then Err (e (Reader.remaining r)) else Ok (tt, r).

(** [for _ in 0..n { v.push(p()?) }]. *)
Fixpoint prepeat {A} (n : nat) (p : Parser A) : Parser (list A) :=
  match n with
  | O => pret []
  | S n => let! x := p in let! xs := prepeat n p in pret (x :: xs)
  end.

(** ** Field encoders and decoders *)

Abbreviation Encoder := (option bytes) (only parsing).

(** Append one output after another; a panic in either stops the encoder. *)
Definition emit (b : bytes) : Encoder := Some b.
Definition seq_enc (a b : Encoder) : Encoder := x ← a; y ← b; Some (x ++ y).
Infix "+++" := seq_enc (at level 60, right associativity).

Definition emit_all {A} (f : A -> Encoder) (l : list A) : Encoder :=
  foldr (fun x acc => f x +++ acc) (emit []) l.

(** [uN::try_from(len).expect(..)] with [max] the largest [uN]. *)
Definition try_len (max : Z) (n : nat) : option Z :=
  if Z.of_nat n <=? max then Some (Z.of_nat n) else None.

Definition U16_MAX : Z := 2 ^ 16 - 1.

Definition put_u8 (v : Z) : Encoder := emit [byte_of v].
Definition put_memory_id (id : MemoryId) : Encoder := emit (MemoryId.to_be id).
Definition put_node_ref (n : NodeRef) : Encoder := emit (NodeRef.to_bytes n).
Definition put_edge_kind_ref (k : EdgeKindRef) : Encoder := emit (EdgeKindRef.encode k).
Definition put_uuid_bytes (b : bytes) : Encoder := emit b.
Definition put_u32_le (v : Z) : Encoder := emit (to_le_bytes 4 v).
Definition put_u64_le (v : Z) : Encoder := emit (to_le_bytes 8 v).
Definition put_u16_le (v : Z) : Encoder := emit (to_le_bytes 2 v).
Definition put_f32_le (v : Z) : Encoder := put_u32_le v.

Definition put_vector (v : list Z) : Encoder :=
  dims ← try_len U16_MAX (length v);
  put_u16_le dims +++ emit_all put_f32_le v.

Definition read_vector : Parser (list Z) :=
  let! dims := Reader.u16_le in
  if VECTOR_DIMS_MAX <? dims then pfail (BadVectorDims dims) else
  let needed := (Z.to_nat dims * 4)%nat in
  let! _ := bail_if (fun rem => (rem <? needed)%nat) (fun rem => Underrun needed rem) in
  prepeat (Z.to_nat dims) Reader.f32_le.

Definition put_text (text : bytes) : Encoder :=
  len ← try_len U32_MAX (length text);
  put_u32_le len +++ emit text.

Definition read_text : Parser bytes :=
  let! len := Reader.u32_le in
  let! _ := bail_if (fun rem => (rem <? Z.to_nat len)%nat) (fun _ => BadTextLength len) in
  let! b := Reader.take (Z.to_nat len) in
  if utf8_valid b then pret b else pfail BadUtf8.

Definition put_blob (b : bytes) : Encoder :=
  len ← try_len U32_MAX (length b);
  put_u32_le len +++ emit b.

Definition read_blob : Parser bytes :=
  let! len := Reader.u32_le in
  let! _ := bail_if (fun rem => (RESPONSE_BLOB_MAX <? len) || (rem <? Z.to_nat len)%nat)
                    (fun _ => BadBlobLength len) in
  Reader.take (Z.to_nat len).

(** [String::from_utf8(read_blob(r)?)]. *)
Definition read_utf8_blob : Parser bytes :=
  let! b := read_blob in
  if utf8_valid b then pret b else pfail BadUtf8.

Definition memory_kind_to_u8 (k : MemoryKind) : Z :=
  match k with Episodic => 0 | Semantic => 1 | Consolidated => 2 end.

Definition memory_kind_from_u8 (b : Z) : result MemoryKind WalPayloadError :=
  match b with
  | 0 => Ok Episodic | 1 => Ok Semantic | 2 => Ok Consolidated
  | _ => Err (BadMemoryKind b)
  end.

Definition edge_origin_from_u8 (b : Z) : result EdgeOrigin WalPayloadError :=
  match b with 0 => Ok Explicit | 1 => Ok AutoDerived | _ => Err (BadEdgeOrigin b) end.

Definition forget_mode_as_u8 (m : ForgetMode) : Z := match m with Soft => 0 | Hard => 1 end.
Definition forget_mode_from_u8 (b : Z) : result ForgetMode WalPayloadError :=
  match b with 0 => Ok Soft | 1 => Ok Hard | _ => Err (BadForgetMode b) end.

Definition forget_reason_as_u8 (m : ForgetReason) : Z :=
  match m with ClientRequest => 0 | Eviction => 1 end.
Definition forget_reason_from_u8 (b : Z) : result ForgetReason WalPayloadError :=
  match b with 0 => Ok ClientRequest | 1 => Ok Eviction | _ => Err (BadForgetReason b) end.

Definition salience_reason_as_u8 (m : SalienceReason) : Z :=
  match m with Access => 0 | Decay => 1 | ExplicitUpdate => 2 end.
Definition salience_reason_from_u8 (b : Z) : result SalienceReason WalPayloadError :=
  match b with
  | 0 => Ok Access | 1 => Ok Decay | 2 => Ok ExplicitUpdate | _ => Err (BadSalienceReason b)
  end.

Definition put_option_u64 (v : option Z) : Encoder :=
  match v with None => put_u8 0 | Some x => put_u8 1 +++ put_u64_le x end.

Definition read_option_u64 : Parser (option Z) :=
  let! tag := Reader.u8 in
  match tag with
  | 0 => pret None
  | 1 => let! x := Reader.u64_le in pret (Some x)
  | _ => pfail (BadOptionTag tag)
  end.

Definition put_option_relation_id (v : option Uuid) : Encoder :=
  match v with None => put_u8 0 | Some id => put_u8 1 +++ emit id end.

Definition read_option_relation_id : Parser (option Uuid) :=
  let! tag := Reader.u8 in
  match tag with
  | 0 => pret None
  | 1 => let! x := Reader.array16 in pret (Some x)
  | _ => pfail (BadOptionTag tag)
  end.

Definition put_bool (b : bool) : Encoder := put_u8 (Z.b2z b).
Definition read_bool : Parser bool := let! b := Reader.u8 in pret (negb (b =? 0)).

(** ** Per-variant encoders and decoders *)

Definition encode_edge (e : EdgePayload) : Encoder :=
  put_node_ref (eg_source e) +++ put_node_ref (eg_target e) +++ put_edge_kind_ref (eg_kind e)
  +++ put_f32_le (eg_weight e) +++ put_u8 (EdgeOrigin_as_u8 (eg_origin e)).

Definition decode_edge : Parser EdgePayload :=
  let! source := Reader.node_ref in
  let! target := Reader.node_ref in
  let! edge_kind := Reader.edge_kind_ref in
  let! weight := Reader.f32_le in
  let! o := Reader.u8 in
  let! origin := lift (edge_origin_from_u8 o) in
  pret {| eg_source := source; eg_target := target; eg_kind := edge_kind;
          eg_weight := weight; eg_origin := origin |}.

Definition encode_encode (p : EncodePayload) : Encoder :=
  edge_count ← try_len U16_MAX (length (ep_edges p));
  put_memory_id (ep_memory_id p)
  +++ put_uuid_bytes (ep_request_id p)
  +++ put_uuid_bytes (ep_space_id p)
  +++ put_u32_le (ep_namespace_id p)
  +++ put_u64_le (ep_session_id p)
  +++ put_u8 (memory_kind_to_u8 (ep_kind p))
  +++ put_f32_le (ep_salience_initial p)
  +++ emit (ep_embedding_model_fp p)
  +++ put_text (ep_text p)
  +++ put_vector (ep_vector p)
  +++ put_u16_le edge_count
  +++ emit_all encode_edge (ep_edges p)
  +++ emit (ep_request_hash p)
  +++ put_blob (ep_response_payload p)
  +++ put_bool (ep_deduplicate p)
  +++ put_option_u64 (ep_occurred_at p).

Definition decode_encode : Parser EncodePayload :=
  let! memory_id := Reader.memory_id in
  let! request_id := Reader.array16 in
  let! space_id := Reader.array16 in
  let! namespace_id := Reader.u32_le in
  let! session_id := Reader.u64_le in
  let! k := Reader.u8 in
  let! kind := lift (memory_kind_from_u8 k) in
  let! salience_initial := Reader.f32_le in
  let! embedding_model_fp := Reader.array16 in
  let! text := read_text in
  let! vector := read_vector in
  let! edge_count := Reader.u16_le in
  let! _ := bail_if
    (fun rem => Z.of_nat rem <? sat_add64 (sat_mul64 edge_count 40) 37)
    (fun _ => BadEdgeCount edge_count) in
  let! edges := prepeat (Z.to_nat edge_count) decode_edge in
  let! request_hash := Reader.take 32 in
  let! response_payload := read_blob in
  let! deduplicate := read_bool in
  let! occurred_at := read_option_u64 in
  pret {| ep_memory_id := memory_id; ep_request_id := request_id; ep_space_id := space_id;
          ep_namespace_id := namespace_id; ep_session_id := session_id; ep_kind := kind;
          ep_salience_initial := salience_initial;
          ep_embedding_model_fp := embedding_model_fp; ep_text := text; ep_vector := vector;
          ep_edges := edges; ep_request_hash := request_hash;
          ep_response_payload := response_payload; ep_deduplicate := deduplicate;
          ep_occurred_at := occurred_at |}.

Definition encode_forget (p : ForgetPayload) : Encoder :=
  put_memory_id (fp_memory_id p) +++ put_uuid_bytes (fp_request_id p)
  +++ put_uuid_bytes (fp_space_id p) +++ put_u8 (forget_mode_as_u8 (fp_mode p))
  +++ put_u8 (forget_reason_as_u8 (fp_reason p)).

Definition decode_forget : Parser ForgetPayload :=
  let! memory_id := Reader.memory_id in
  let! request_id := Reader.array16 in
  let! space_id := Reader.array16 in
  let! m := Reader.u8 in
  let! mode := lift (forget_mode_from_u8 m) in
  let! w := Reader.u8 in
  let! reason := lift (forget_reason_from_u8 w) in
  pret {| fp_memory_id := memory_id; fp_request_id := request_id; fp_space_id := space_id;
          fp_mode := mode; fp_reason := reason |}.

Definition encode_restore (p : RestorePayload) : Encoder :=
  put_memory_id (rp_memory_id p) +++ put_uuid_bytes (rp_request_id p)
  +++ put_uuid_bytes (rp_space_id p).

Definition decode_restore : Parser RestorePayload :=
  let! memory_id := Reader.memory_id in
  let! request_id := Reader.array16 in
  let! space_id := Reader.array16 in
  pret {| rp_memory_id := memory_id; rp_request_id := request_id; rp_space_id := space_id |}.

Definition encode_link (p : LinkPayload) : Encoder :=
  put_node_ref (lp_source p) +++ put_node_ref (lp_target p)
  +++ put_edge_kind_ref (lp_edge_kind p) +++ put_f32_le (lp_weight p)
  +++ put_u8 (EdgeOrigin_as_u8 (lp_origin p)).

Definition decode_link : Parser LinkPayload :=
  let! source := Reader.node_ref in
  let! target := Reader.node_ref in
  let! edge_kind := Reader.edge_kind_ref in
  let! weight := Reader.f32_le in
  let! o := Reader.u8 in
  let! origin := lift (edge_origin_from_u8 o) in
  pret {| lp_source := source; lp_target := target; lp_edge_kind := edge_kind;
          lp_weight := weight; lp_origin := origin |}.

Definition encode_unlink (p : UnlinkPayload) : Encoder :=
  put_node_ref (up_source p) +++ put_node_ref (up_target p)
  +++ put_edge_kind_ref (up_edge_kind p) +++ put_u32_le (up_edge_seq p).

Definition decode_unlink : Parser UnlinkPayload :=
  let! source := Reader.node_ref in
  let! target := Reader.node_ref in
  let! edge_kind := Reader.edge_kind_ref in
  let! edge_seq := Reader.u32_le in
  pret {| up_source := source; up_target := target; up_edge_kind := edge_kind;
          up_edge_seq := edge_seq |}.

Definition encode_salience_update (u : SalienceUpdate) : Encoder :=
  put_memory_id (su_memory_id u) +++ put_f32_le (su_new_salience u)
  +++ put_u8 (salience_reason_as_u8 (su_reason u)).

Definition decode_salience_update : Parser SalienceUpdate :=
  let! memory_id := Reader.memory_id in
  let! new_salience := Reader.f32_le in
  let! w := Reader.u8 in
  let! reason := lift (salience_reason_from_u8 w) in
  pret {| su_memory_id := memory_id; su_new_salience := new_salience; su_reason := reason |}.

Definition encode_update_salience (p : UpdateSaliencePayload) : Encoder :=
  n ← try_len U32_MAX (length (us_updates p));
  put_u32_le n +++ emit_all encode_salience_update (us_updates p).

Definition decode_update_salience : Parser UpdateSaliencePayload :=
  let! count := Reader.u32_le in
  let! _ := bail_if (fun rem => Z.of_nat rem <? sat_mul64 count 21)
                    (fun _ => BadUpdateCount count) in
  let! updates := prepeat (Z.to_nat count) decode_salience_update in
  pret {| us_updates := updates |}.

Definition encode_reclaim (p : ReclaimPayload) : Encoder :=
  put_u64_le (rc_slot_id p) +++ put_u32_le (rc_old_version p)
  +++ put_u32_le (rc_new_version p) +++ put_memory_id (rc_memory_id p).

Definition decode_reclaim : Parser ReclaimPayload :=
  let! slot_id := Reader.u64_le in
  let! old_version := Reader.u32_le in
  let! new_version := Reader.u32_le in
  let! memory_id := Reader.memory_id in
  pret {| rc_slot_id := slot_id; rc_old_version := old_version;
          rc_new_version := new_version; rc_memory_id := memory_id |}.

Definition encode_consolidate (p : ConsolidatePayload) : Encoder :=
  src_count ← try_len U32_MAX (length (cp_source_memory_ids p));
  put_memory_id (cp_new_memory_id p)
  +++ put_u32_le src_count
  +++ emit_all put_memory_id (cp_source_memory_ids p)
  +++ put_text (cp_text p)
  +++ put_vector (cp_vector p)
  +++ emit (cp_embedding_model_fp p).

Definition decode_consolidate : Parser ConsolidatePayload :=
  let! new_memory_id := Reader.memory_id in
  let! src_count := Reader.u32_le in
  let! _ := bail_if (fun rem => Z.of_nat rem <? sat_mul64 src_count 16)
                    (fun _ => BadSourceCount src_count) in
  let! source_memory_ids := prepeat (Z.to_nat src_count) Reader.memory_id in
  let! text := read_text in
  let! vector := read_vector in
  let! embedding_model_fp := Reader.array16 in
  pret {| cp_new_memory_id := new_memory_id; cp_source_memory_ids := source_memory_ids;
          cp_text := text; cp_vector := vector;
          cp_embedding_model_fp := embedding_model_fp |}.

Definition encode_update_kind (p : UpdateKindPayload) : Encoder :=
  put_memory_id (uk_memory_id p) +++ put_u8 (memory_kind_to_u8 (uk_new_kind p)).

Definition decode_update_kind : Parser UpdateKindPayload :=
  let! memory_id := Reader.memory_id in
  let! k := Reader.u8 in
  let! new_kind := lift (memory_kind_from_u8 k) in
  pret {| uk_memory_id := memory_id; uk_new_kind := new_kind |}.

Definition encode_update_session (p : UpdateSessionPayload) : Encoder :=
  put_memory_id (ux_memory_id p) +++ put_u64_le (ux_new_session_id p).

Definition decode_update_session : Parser UpdateSessionPayload :=
  let! memory_id := Reader.memory_id in
  let! new_session_id := Reader.u64_le in
  pret {| ux_memory_id := memory_id; ux_new_session_id := new_session_id |}.

Definition encode_checkpoint_begin (p : CheckpointBeginPayload) : Encoder :=
  put_u64_le (cb_checkpoint_id p) +++ put_u64_le (cb_started_at p).

Definition decode_checkpoint_begin : Parser CheckpointBeginPayload :=
  let! checkpoint_id := Reader.u64_le in
  let! started_at := Reader.u64_le in
  pret {| cb_checkpoint_id := checkpoint_id; cb_started_at := started_at |}.

Definition encode_checkpoint_end (p : CheckpointEndPayload) : Encoder :=
  put_u64_le (ce_checkpoint_id p) +++ put_u64_le (ce_durable_lsn p)
  +++ put_u64_le (ce_arena_capacity p).

Definition decode_checkpoint_end : Parser CheckpointEndPayload :=
  let! checkpoint_id := Reader.u64_le in
  let! durable_lsn := Reader.u64_le in
  let! arena_capacity := Reader.u64_le in
  pret {| ce_checkpoint_id := checkpoint_id; ce_durable_lsn := durable_lsn;
          ce_arena_capacity := arena_capacity |}.

Definition encode_txn_begin (p : TxnBeginPayload) : Encoder :=
  put_uuid_bytes (tb_txn_id p) +++ put_u32_le (tb_expected_record_count p).

Definition decode_txn_begin : Parser TxnBeginPayload :=
  let! txn_id := Reader.array16 in
  let! expected_record_count := Reader.u32_le in
  pret {| tb_txn_id := txn_id; tb_expected_record_count := expected_record_count |}.

Definition encode_txn_commit (p : TxnCommitPayload) : Encoder := put_uuid_bytes (tc_txn_id p).

Definition decode_txn_commit : Parser TxnCommitPayload :=
  let! txn_id := Reader.array16 in pret {| tc_txn_id := txn_id |}.

Definition encode_txn_abort (p : TxnAbortPayload) : Encoder :=
  put_uuid_bytes (ta_txn_id p) +++ put_u32_le (ta_reason_code p).

Definition decode_txn_abort : Parser TxnAbortPayload :=
  let! txn_id := Reader.array16 in
  let! reason_code := Reader.u32_le in
  pret {| ta_txn_id := txn_id; ta_reason_code := reason_code |}.

Definition encode_migrate_embedding (p : MigrateEmbeddingPayload) : Encoder :=
  put_memory_id (me_memory_id p) +++ emit (me_old_fingerprint p)
  +++ emit (me_new_fingerprint p) +++ put_vector (me_new_vector p).

Definition decode_migrate_embedding : Parser MigrateEmbeddingPayload :=
  let! memory_id := Reader.memory_id in
  let! old_fingerprint := Reader.array16 in
  let! new_fingerprint := Reader.array16 in
  let! new_vector := read_vector in
  pret {| me_memory_id := memory_id; me_old_fingerprint := old_fingerprint;
          me_new_fingerprint := new_fingerprint; me_new_vector := new_vector |}.

Definition put_intern_hint (h : option (bytes * bytes)) : Encoder :=
  match h with
  | None => put_u8 0
  | Some (namespace, name) => put_u8 1 +++ put_blob namespace +++ put_blob name
  end.

Definition read_intern_hint : Parser (option (bytes * bytes)) :=
  let! tag := Reader.u8 in
  match tag with
  | 0 => pret None
  | 1 =>
    let! namespace := read_utf8_blob in
    let! name := read_utf8_blob in
    pret (Some (namespace, name))
  | other => pfail (BadOptionTag other)
  end.

Definition encode_relation_link (p : RelationLinkPayload) : Encoder :=
  ev_count ← try_len U32_MAX (length (rl_evidence p));
  emit (rl_relation_id p)
  +++ put_node_ref (rl_from p)
  +++ put_node_ref (rl_to p)
  +++ put_u32_le (rl_relation_type_id p)
  +++ emit (rl_chain_root p)
  +++ put_f32_le (rl_confidence p)
  +++ put_option_u64 (rl_valid_from p)
  +++ put_option_u64 (rl_valid_to p)
  +++ put_option_relation_id (rl_supersedes p)
  +++ put_u32_le ev_count
  +++ emit_all put_memory_id (rl_evidence p)
  +++ put_u32_le (rl_extractor_id p)
  +++ put_bool (rl_is_symmetric p)
  +++ put_blob (rl_properties_blob p)
  +++ put_uuid_bytes (rl_space_id p)
  +++ put_u32_le (rl_namespace_id p)
  +++ put_u64_le (rl_session_id p)
  +++ put_intern_hint (rl_intern_hint p).

Definition decode_relation_link : Parser RelationLinkPayload :=
  let! relation_id := Reader.array16 in
  let! from := Reader.node_ref in
  let! to := Reader.node_ref in
  let! relation_type_id := Reader.u32_le in
  let! chain_root := Reader.array16 in
  let! confidence := Reader.f32_le in
  let! valid_from := read_option_u64 in
  let! valid_to := read_option_u64 in
  let! supersedes := read_option_relation_id in
  let! ev_count := Reader.u32_le in
  let! _ := bail_if (fun rem => Z.of_nat rem <? sat_mul64 ev_count 16)
                    (fun _ => BadEvidenceCount ev_count) in
  let! evidence := prepeat (Z.to_nat ev_count) Reader.memory_id in
  let! extractor_id := Reader.u32_le in
  let! is_symmetric := read_bool in
  let! properties_blob := read_blob in
  let! space_id := Reader.array16 in
  let! namespace_id := Reader.u32_le in
  let! session_id := Reader.u64_le in
  let! intern_hint := read_intern_hint in
  pret {| rl_relation_id := relation_id; rl_from := from; rl_to := to;
          rl_relation_type_id := relation_type_id; rl_chain_root := chain_root;
          rl_confidence := confidence; rl_valid_from := valid_from;
          rl_valid_to := valid_to; rl_supersedes := supersedes; rl_evidence := evidence;
          rl_extractor_id := extractor_id; rl_is_symmetric := is_symmetric;
          rl_properties_blob := properties_blob; rl_space_id := space_id;
          rl_namespace_id := namespace_id; rl_session_id := session_id;
          rl_intern_hint := intern_hint |}.

Definition encode_relation_supersede (p : RelationSupersedePayload) : Encoder :=
  emit (rs_old_relation_id p) +++ encode_relation_link (rs_new p).

Definition decode_relation_supersede : Parser RelationSupersedePayload :=
  let! old_relation_id := Reader.array16 in
  let! new := decode_relation_link in
  pret {| rs_old_relation_id := old_relation_id; rs_new := new |}.

Definition encode_relation_tombstone (p : RelationTombstonePayload) : Encoder :=
  emit (rt_relation_id p) +++ put_text (rt_reason p) +++ put_u64_le (rt_at_unix_nanos p)
  +++ put_uuid_bytes (rt_space_id p).

Definition decode_relation_tombstone : Parser RelationTombstonePayload :=
  let! relation_id := Reader.array16 in
  let! reason := read_text in
  let! at_unix_nanos := Reader.u64_le in
  let! space_id := Reader.array16 in
  pret {| rt_relation_id := relation_id; rt_reason := reason;
          rt_at_unix_nanos := at_unix_nanos; rt_space_id := space_id |}.

(** ** Top-level dispatch *)

(** [WalPayload::encode_to_bytes]. *)
Definition encode_to_bytes (p : WalPayload) : option bytes :=
  match p with
  | Encode p => encode_encode p
  | Forget p => encode_forget p
  | Link p => encode_link p
  | Unlink p => encode_unlink p
  | UpdateSalience p => encode_update_salience p
  | Reclaim p => encode_reclaim p
  | Consolidate p => encode_consolidate p
  | UpdateKind p => encode_update_kind p
  | UpdateSession p => encode_update_session p
  | CheckpointBegin p => encode_checkpoint_begin p
  | CheckpointEnd p => encode_checkpoint_end p
  | TxnBegin p => encode_txn_begin p
  | TxnCommit p => encode_txn_commit p
  | TxnAbort p => encode_txn_abort p
  | MigrateEmbedding p => encode_migrate_embedding p
  | RelationLink p => encode_relation_link p
  | RelationSupersede p => encode_relation_supersede p
  | RelationTombstone p => encode_relation_tombstone p
  | RestoreMemory p => encode_restore p
  | PhaseBody r => put_uuid_bytes (pb_space_id r) +++ emit (pb_body r)
  end.

(** The kinds whose payload [decode] keeps as an opaque body. *)
Definition opaque_kind (k : WalRecordKind) : bool :=
  match k with
  | KEntityCreate | KEntityUpdate | KEntityMerge | KEntityTombstone | KEntityRename
  | KEntityUnmerge | KStatementCreate | KStatementSupersede | KStatementTombstone
  | KSchemaUpdate | KAudit | KStageCompleted | KSpaceCreate | KSpaceDelete
  | KSessionCreate | KSessionDelete => true
  | _ => false
  end.

Definition pmap {A B} (f : A -> B) (p : Parser A) : Parser B := let! x := p in pret (f x).

(** The structured part of [WalPayload::decode], by kind; the opaque kinds
    take everything after the space id as the body. *)
Definition decode_body (k : WalRecordKind) : Parser WalPayload :=
  match k with
  | KEncode => pmap Encode decode_encode
  | KForget => pmap Forget decode_forget
  | KLink => pmap Link decode_link
  | KUnlink => pmap Unlink decode_unlink
  | KUpdateSalience => pmap UpdateSalience decode_update_salience
  | KReclaim => pmap Reclaim decode_reclaim
  | KConsolidate => pmap Consolidate decode_consolidate
  | KUpdateKind => pmap UpdateKind decode_update_kind
  | KUpdateSession => pmap UpdateSession decode_update_session
  | KCheckpointBegin => pmap CheckpointBegin decode_checkpoint_begin
  | KCheckpointEnd => pmap CheckpointEnd decode_checkpoint_end
  | KTxnBegin => pmap TxnBegin decode_txn_begin
  | KTxnCommit => pmap TxnCommit decode_txn_commit
  | KTxnAbort => pmap TxnAbort decode_txn_abort
  | KMigrateEmbedding => pmap MigrateEmbedding decode_migrate_embedding
  | KRelationCreate => pmap RelationLink decode_relation_link
  | KRelationSupersede => pmap RelationSupersede decode_relation_supersede
  | KRelationTombstone => pmap RelationTombstone decode_relation_tombstone
  | KRestoreMemory => pmap RestoreMemory decode_restore
  | k =>
    let! space_id := Reader.array16 in
    fun r => Ok (PhaseBody {| pb_kind := k; pb_space_id := space_id;
                              pb_body := drop (rd_cursor r) (rd_bytes r) |}, r)
  end.

(** [WalPayload::decode]: the opaque kinds return before the trailing-bytes check. *)
Definition decode (k : WalRecordKind) (b : bytes) : result WalPayload WalPayloadError :=
  let? (payload, r) := decode_body k (Reader.new b) in
  if opaque_kind k then Ok payload
  else if negb (Reader.is_at_end r) then Err (TrailingBytes (Reader.remaining r))
  else Ok payload.

(** ** Well-formed payloads: what the Rust types and the decoder's limits allow *)

Definition hash_wf (b : bytes) : Prop := length b = 32%nat.
Definition text_wf (t : bytes) : Prop := utf8_valid t = true /\ Z.of_nat (length t) <= U32_MAX.
Definition vector_wf (v : list Z) : Prop :=
  Forall (uint 32) v /\ Z.of_nat (length v) <= VECTOR_DIMS_MAX.
Definition blob_wf (b : bytes) : Prop := Z.of_nat (length b) <= RESPONSE_BLOB_MAX.
Definition list_wf {A} (max : Z) (P : A -> Prop) (l : list A) : Prop :=
  Forall P l /\ Z.of_nat (length l) <= max.
Definition option_wf {A} (P : A -> Prop) (o : option A) : Prop :=
  match o with Some x => P x | None => True end.

Definition edge_wf (e : EdgePayload) : Prop :=
  NodeRef.wf (eg_source e) /\ NodeRef.wf (eg_target e) /\ EdgeKindRef.wf (eg_kind e)
  /\ u32 (eg_weight e).

Definition encode_wf (p : EncodePayload) : Prop :=
  u128 (ep_memory_id p) /\ uuid_ok (ep_request_id p) /\ uuid_ok (ep_space_id p)
  /\ u32 (ep_namespace_id p) /\ u64 (ep_session_id p) /\ u32 (ep_salience_initial p)
  /\ uuid_ok (ep_embedding_model_fp p) /\ text_wf (ep_text p) /\ vector_wf (ep_vector p)
  /\ list_wf U16_MAX edge_wf (ep_edges p) /\ hash_wf (ep_request_hash p)
  /\ blob_wf (ep_response_payload p) /\ option_wf (uint 64) (ep_occurred_at p).

Definition relation_link_wf (p : RelationLinkPayload) : Prop :=
  uuid_ok (rl_relation_id p) /\ NodeRef.wf (rl_from p) /\ NodeRef.wf (rl_to p)
  /\ u32 (rl_relation_type_id p) /\ uuid_ok (rl_chain_root p) /\ u32 (rl_confidence p)
  /\ option_wf (uint 64) (rl_valid_from p) /\ option_wf (uint 64) (rl_valid_to p)
  /\ option_wf uuid_ok (rl_supersedes p) /\ list_wf U32_MAX (uint 128) (rl_evidence p)
  /\ u32 (rl_extractor_id p) /\ blob_wf (rl_properties_blob p) /\ uuid_ok (rl_space_id p)
  /\ u32 (rl_namespace_id p) /\ u64 (rl_session_id p)
  /\ option_wf (fun h => (blob_wf h.1 /\ utf8_valid h.1 = true)
                         /\ (blob_wf h.2 /\ utf8_valid h.2 = true)) (rl_intern_hint p).

Definition payload_wf (p : WalPayload) : Prop :=
  match p with
  | Encode p => encode_wf p
  | Forget p => u128 (fp_memory_id p) /\ uuid_ok (fp_request_id p) /\ uuid_ok (fp_space_id p)
  | Link p =>
    NodeRef.wf (lp_source p) /\ NodeRef.wf (lp_target p) /\ EdgeKindRef.wf (lp_edge_kind p)
    /\ u32 (lp_weight p)
  | Unlink p =>
    NodeRef.wf (up_source p) /\ NodeRef.wf (up_target p) /\ EdgeKindRef.wf (up_edge_kind p)
    /\ u32 (up_edge_seq p)
  | UpdateSalience p =>
    list_wf U32_MAX (fun u => u128 (su_memory_id u) /\ u32 (su_new_salience u)) (us_updates p)
  | Reclaim p =>
    u64 (rc_slot_id p) /\ u32 (rc_old_version p) /\ u32 (rc_new_version p)
    /\ u128 (rc_memory_id p)
  | Consolidate p =>
    u128 (cp_new_memory_id p) /\ list_wf U32_MAX (uint 128) (cp_source_memory_ids p)
    /\ text_wf (cp_text p) /\ vector_wf (cp_vector p) /\ uuid_ok (cp_embedding_model_fp p)
  | UpdateKind p => u128 (uk_memory_id p)
  | UpdateSession p => u128 (ux_memory_id p) /\ u64 (ux_new_session_id p)
  | CheckpointBegin p => u64 (cb_checkpoint_id p) /\ u64 (cb_started_at p)
  | CheckpointEnd p =>
    u64 (ce_checkpoint_id p) /\ u64 (ce_durable_lsn p) /\ u64 (ce_arena_capacity p)
  | TxnBegin p => uuid_ok (tb_txn_id p) /\ u32 (tb_expected_record_count p)
  | TxnCommit p => uuid_ok (tc_txn_id p)
  | TxnAbort p => uuid_ok (ta_txn_id p) /\ u32 (ta_reason_code p)
  | MigrateEmbedding p =>
    u128 (me_memory_id p) /\ uuid_ok (me_old_fingerprint p) /\ uuid_ok (me_new_fingerprint p)
    /\ vector_wf (me_new_vector p)
  | RelationLink p => relation_link_wf p
  | RelationSupersede p => uuid_ok (rs_old_relation_id p) /\ relation_link_wf (rs_new p)
  | RelationTombstone p =>
    uuid_ok (rt_relation_id p) /\ text_wf (rt_reason p) /\ u64 (rt_at_unix_nanos p)
    /\ uuid_ok (rt_space_id p)
  | RestoreMemory p => u128 (rp_memory_id p) /\ uuid_ok (rp_request_id p) /\ uuid_ok (rp_space_id p)
  | PhaseBody r => opaque_kind (pb_kind r) = true /\ uuid_ok (pb_space_id r)
  end.
