(* ===== verification/WalPayloadCodec.v ===== *)
(** Correctness of the payload codecs.

    [reads p bs v]: started anywhere in a buffer in front of the bytes [bs],
    [p] consumes exactly [bs] and returns [v].  [yields p P]: whatever [p]
    accepts satisfies [P].  [FieldCodec] puts the two directions together for
    an encoder/decoder pair, with a lower bound on the encoded size that the
    element-count guards of the decoders rely on; payload codecs are built
    from the field instances by one tactic each. *)

From S2P Require Import Prelude Crc32c Ids WalKinds WalRecord Utf8 WalPayload.

(** ** Consuming exactly the encoded bytes *)

Definition at_pos (pre rest : bytes) : Reader :=
  {| rd_bytes := pre ++ rest; rd_cursor := length pre |}.

Definition reads {A} (p : Parser A) (bs : bytes) (v : A) : Prop :=
  forall pre tl, p (at_pos pre (bs ++ tl)) = Ok (v, at_pos (pre ++ bs) tl).

Definition yields {A} (p : Parser A) (P : A -> Prop) : Prop :=
  forall r v r', p r = Ok (v, r') -> P v.

Lemma reads_pret {A} (v : A) : reads (pret v) [] v.
Proof. intros pre tl. unfold pret. by rewrite app_nil_r. Qed.

Lemma reads_bind {A B} (p : Parser A) (k : A -> Parser B) b1 b2 v w :
  reads p b1 v -> reads (k v) b2 w -> reads (pbind p k) (b1 ++ b2) w.
Proof.
  intros H1 H2 pre tl. unfold pbind. rewrite <- app_assoc, H1, H2. by rewrite app_assoc.
Qed.

Lemma reads_bind_ret {A B} (p : Parser A) (k : A -> Parser B) b v w :
  reads p b v -> reads (k v) [] w -> reads (pbind p k) b w.
Proof. intros. rewrite <- (app_nil_r b). by eapply reads_bind. Qed.

(** A one-byte enum: read the byte, then convert it. *)
Lemma reads_bind_enum {A B} (q : Parser Z) (f : Z -> result A WalPayloadError)
    (k : A -> Parser B) b1 b2 z x w :
  reads q b1 z -> f z = Ok x -> reads (k x) b2 w ->
  reads (let! c := q in let! y := lift (f c) in k y) (b1 ++ b2) w.
Proof. intros H1 E H2. eapply reads_bind; [done|]. by rewrite E. Qed.

Lemma remaining_at pre rest : Reader.remaining (at_pos pre rest) = length rest.
Proof. unfold Reader.remaining, at_pos; simpl. rewrite length_app. lia. Qed.

Lemma reads_bail {B} bad e (k : unit -> Parser B) bs w :
  (forall n, (length bs <= n)%nat -> bad n = false) ->
  reads (k tt) bs w -> reads (pbind (bail_if bad e) k) bs w.
Proof.
  intros Hb Hk pre tl. unfold pbind, bail_if. rewrite remaining_at, Hb by len. apply Hk.
Qed.

Lemma reads_take bs n : length bs = n -> reads (Reader.take n) bs bs.
Proof.
  intros <- pre tl. unfold Reader.take. rewrite remaining_at.
  rewrite (proj2 (Nat.ltb_ge _ _)) by len.
  unfold at_pos; cbn [rd_bytes rd_cursor]. slices.
  by rewrite app_assoc, length_app.
Qed.

Lemma reads_fmap {A B} (f : A -> B) p bs v : reads p bs v -> reads (pmap f p) bs (f v).
Proof. intros H. eapply reads_bind_ret; [done|]. apply reads_pret. Qed.

(** ** Everything accepted is well formed *)

Lemma yields_pret {A} (v : A) (P : A -> Prop) : P v -> yields (pret v) P.
Proof. by intros H r w r' [= <- _]. Qed.

Lemma yields_pfail {A} e (P : A -> Prop) : yields (pfail e) P.
Proof. by intros r v r'. Qed.

Lemma yields_bind {A B} (p : Parser A) (k : A -> Parser B) P Q :
  yields p P -> (forall x, P x -> yields (k x) Q) -> yields (pbind p k) Q.
Proof.
  intros Hp Hk r v r'. unfold pbind. destruct (p r) as [[x r1]|e] eqn:E; [|done].
  apply Hk. by eapply Hp.
Qed.

Lemma yields_lift {A} (m : result A WalPayloadError) : yields (lift m) (fun _ => True).
Proof. by destruct m. Qed.

Lemma yields_weaken {A} (p : Parser A) (P Q : A -> Prop) :
  (forall x, P x -> Q x) -> yields p P -> yields p Q.
Proof. intros H Hp r v r' E. eapply H, Hp, E. Qed.

Lemma yields_take n : yields (Reader.take n) (fun b => length b = n).
Proof.
  intros r v r'. unfold Reader.take.
  destruct (Nat.ltb_spec (Reader.remaining r) n) as [|Hr]; [done|]. intros [= <- _].
  unfold Reader.remaining in Hr. destruct (decide (n = 0%nat)) as [->|].
  { unfold slice. by rewrite Nat.add_0_r, Nat.sub_diag, take_0. }
  rewrite length_slice; lia.
Qed.

Lemma yields_prepeat {A} (p : Parser A) P n :
  yields p P -> yields (prepeat n p) (fun l => Forall P l /\ length l = n).
Proof.
  intros Hp. induction n as [|n IH]; simpl; [by apply yields_pret|].
  eapply yields_bind; [exact Hp|]. intros x Hx.
  eapply yields_bind; [exact IH|]. intros xs [Hxs <-].
  apply yields_pret. by split; [constructor|].
Qed.

(** ** Field codecs *)

(** [min] bounds the encoded size from below. *)
Class FieldCodec {A} (enc : A -> option bytes) (dec : Parser A) (wf : A -> Prop) (min : nat)
  : Prop := {
  field_reads : forall v, wf v ->
    exists bs, enc v = Some bs /\ reads dec bs v /\ (min <= length bs)%nat;
  field_yields : yields dec wf;
}.

Lemma codec_of_emit {A} (f : A -> bytes) (g : bytes -> A) (wf : A -> Prop) n :
  (forall v, wf v -> length (f v) = n /\ g (f v) = v) ->
  (forall b, length b = n -> wf (g b)) ->
  FieldCodec (fun v => emit (f v)) (let! b := Reader.take n in pret (g b)) wf n.
Proof.
  intros Hf Hg. split.
  - intros v Hv. exists (f v). destruct (Hf v Hv) as [Hl E]. split_and!; [done| |lia].
    eapply reads_bind_ret; [by apply reads_take|]. rewrite E. apply reads_pret.
  - eapply yields_bind; [apply yields_take|]. intros b Hb. by apply yields_pret, Hg.
Qed.

#[export] Instance u8_codec : FieldCodec put_u8 Reader.u8 (uint 8) 1.
Proof.
  apply (codec_of_emit (fun v => [byte_of v]) (fun b => byte_val (byte_at 0 b))).
  - intros v Hv. split; [done|]. by apply byte_val_of.
  - intros b _. apply byte_val_u8.
Qed.

#[export] Instance u16_codec : FieldCodec put_u16_le Reader.u16_le (uint 16) 2.
Proof.
  apply (codec_of_emit (to_le_bytes 2) from_le_bytes).
  - intros v Hv. split; [apply length_le_split|by apply (from_to_le 2)].
  - intros b Hb. by apply (from_le_uint b 2).
Qed.

#[export] Instance u32_codec : FieldCodec put_u32_le Reader.u32_le (uint 32) 4.
Proof.
  apply (codec_of_emit (to_le_bytes 4) from_le_bytes).
  - intros v Hv. split; [apply length_le_split|by apply (from_to_le 4)].
  - intros b Hb. by apply (from_le_uint b 4).
Qed.

#[export] Instance f32_codec : FieldCodec put_f32_le Reader.f32_le (uint 32) 4.
Proof. exact u32_codec. Qed.

#[export] Instance u64_codec : FieldCodec put_u64_le Reader.u64_le (uint 64) 8.
Proof.
  apply (codec_of_emit (to_le_bytes 8) from_le_bytes).
  - intros v Hv. split; [apply length_le_split|by apply (from_to_le 8)].
  - intros b Hb. by apply (from_le_uint b 8).
Qed.

Lemma raw_codec n (wf : bytes -> Prop) :
  (forall b, wf b <-> length b = n) -> FieldCodec emit (Reader.take n) wf n.
Proof.
  intros Hwf. split.
  - intros v Hv. apply Hwf in Hv. exists v. split_and!; [done|by apply reads_take|lia].
  - eapply yields_weaken, yields_take. intros b. by rewrite Hwf.
Qed.

#[export] Instance emit16_codec : FieldCodec emit Reader.array16 uuid_ok 16.
Proof. by apply raw_codec. Qed.

#[export] Instance uuid_codec : FieldCodec put_uuid_bytes Reader.array16 uuid_ok 16.
Proof. exact emit16_codec. Qed.

#[export] Instance hash_codec : FieldCodec emit (Reader.take 32) hash_wf 32.
Proof. by apply raw_codec. Qed.

#[export] Instance memory_id_codec : FieldCodec put_memory_id Reader.memory_id (uint 128) 16.
Proof.
  apply (codec_of_emit MemoryId.to_be MemoryId.from_be).
  - intros v Hv. split; [apply length_MemoryId_to_be|by apply MemoryId_from_to_be].
  - intros b Hb. by apply MemoryId_from_be_u128.
Qed.

#[export] Instance node_ref_codec : FieldCodec put_node_ref Reader.node_ref NodeRef.wf 17.
Proof.
  split.
  - intros v Hv. exists (NodeRef.to_bytes v).
    pose proof (NodeRefFacts.length_to_bytes v Hv) as Hl.
    split_and!; [done| |rewrite Hl; unfold NodeRef.BYTES; lia].
    eapply reads_bind_ret; [by apply reads_take|].
    rewrite NodeRefFacts.from_to by done. apply reads_pret.
  - eapply yields_bind; [apply yields_take|]. intros b Hb.
    destruct (NodeRef.from_bytes b) as [n|e] eqn:E; simpl; [|apply yields_pfail].
    apply yields_pret. by apply (NodeRefFacts.to_from b n).
Qed.

#[export] Instance edge_kind_ref_codec :
  FieldCodec put_edge_kind_ref Reader.edge_kind_ref EdgeKindRef.wf 1.
Proof.
  split.
  - intros v Hv. exists (EdgeKindRef.encode v).
    split_and!; [done| |rewrite EdgeKindRefFacts.length_encode; destruct v; simpl; lia].
    intros pre tl. unfold Reader.edge_kind_ref, at_pos; cbn [rd_bytes rd_cursor].
    rewrite drop_app_length, EdgeKindRefFacts.decode_encode by done. cbn [map_err].
    rewrite <- EdgeKindRefFacts.length_encode. by rewrite app_assoc, length_app.
  - intros r v r'. unfold Reader.edge_kind_ref.
    destruct (EdgeKindRef.decode_from _) as [[k n]|e] eqn:E; simpl; [|done].
    intros [= <- _]. by eapply EdgeKindRefFacts.encode_decode.
Qed.

(** ** Sequences, strings, options *)

Lemma seq_enc_Some a b x y : a = Some x -> b = Some y -> a +++ b = Some (x ++ y).
Proof. by intros -> ->. Qed.

Lemma seq_enc_nil_r a : a +++ emit [] = a.
Proof. destruct a; [|done]. unfold seq_enc, emit; simpl. by rewrite app_nil_r. Qed.

Lemma emit_all_reads {A enc dec wf} {m : nat} `{H : FieldCodec A enc dec wf m} l :
  Forall wf l ->
  exists bs, emit_all enc l = Some bs /\ reads (prepeat (length l) dec) bs l
             /\ (length l * m <= length bs)%nat.
Proof.
  induction 1 as [|x l Hx Hl (bs & E & Hr & Hm)]; simpl.
  { exists []. split_and!; [done|apply reads_pret|done]. }
  destruct (field_reads x Hx) as (b & Ex & Hrx & Hmx).
  exists (b ++ bs). split_and!; [by apply seq_enc_Some| |len].
  eapply reads_bind; [done|]. eapply reads_bind_ret; [done|]. apply reads_pret.
Qed.

Lemma try_len_Some max n : Z.of_nat n <= max -> try_len max n = Some (Z.of_nat n).
Proof. intros Hn. unfold try_len. by rewrite (proj2 (Z.leb_le _ _)). Qed.

Lemma u32_len n : Z.of_nat n <= U32_MAX -> u32 (Z.of_nat n).
Proof. unfold U32_MAX, uint. lia. Qed.

#[export] Instance vector_codec : FieldCodec put_vector read_vector vector_wf 2.
Proof.
  split.
  - intros v [Hv Hl]. unfold put_vector, VECTOR_DIMS_MAX in *.
    rewrite try_len_Some by (unfold U16_MAX; lia). cbn [mbind option_bind].
    destruct (field_reads (FieldCodec := u16_codec) (Z.of_nat (length v)))
      as (b1 & E1 & H1 & M1); [unfold uint; lia|].
    destruct (emit_all_reads (H := f32_codec) v Hv) as (b2 & E2 & H2 & M2).
    exists (b1 ++ b2). split_and!; [by apply seq_enc_Some| |len].
    eapply reads_bind; [done|]. cbn beta. rewrite (proj2 (Z.ltb_ge _ _)) by (unfold VECTOR_DIMS_MAX; lia).
    rewrite Nat2Z.id. apply reads_bail; [|done]. intros n Hn. apply Nat.ltb_ge. lia.
  - eapply yields_bind; [apply u16_codec|]. intros dims Hd. cbn beta.
    destruct (Z.ltb_spec VECTOR_DIMS_MAX dims); [apply yields_pfail|].
    eapply yields_bind with (P := fun _ => True); [done|]. intros _ _.
    eapply yields_weaken, yields_prepeat, f32_codec.
    intros l [Hl El]. split; [done|]. unfold uint in Hd. lia.
Qed.

Lemma len_prefixed_reads (b : bytes) :
  Z.of_nat (length b) <= U32_MAX ->
  exists b1, put_u32_le (Z.of_nat (length b)) = Some b1 /\ length b1 = 4%nat
             /\ reads Reader.u32_le b1 (Z.of_nat (length b)).
Proof.
  intros Hl. destruct (field_reads (FieldCodec := u32_codec) _ (u32_len _ Hl)) as (b1 & E1 & H1 & _).
  exists b1. split_and!; [done| |done]. injection E1 as <-. apply length_le_split.
Qed.

#[export] Instance text_codec : FieldCodec put_text read_text text_wf 4.
Proof.
  split.
  - intros t [Hu Hl]. unfold put_text. rewrite try_len_Some by done. cbn [mbind option_bind].
    destruct (len_prefixed_reads t Hl) as (b1 & E1 & L1 & H1).
    exists (b1 ++ t). split_and!; [by apply seq_enc_Some| |len].
    eapply reads_bind; [done|]. cbn beta. rewrite Nat2Z.id.
    apply reads_bail; [intros n Hn; apply Nat.ltb_ge; lia|].
    eapply reads_bind_ret; [by apply reads_take|]. cbn beta. rewrite Hu. apply reads_pret.
  - eapply yields_bind; [apply u32_codec|]. intros n Hn.
    eapply yields_bind with (P := fun _ => True); [done|]. intros _ _.
    eapply yields_bind; [apply yields_take|]. intros b Hb. cbn beta.
    destruct (utf8_valid b) eqn:Hu; [|apply yields_pfail].
    apply yields_pret. split; [done|]. unfold uint, U32_MAX in *. lia.
Qed.

#[export] Instance blob_codec : FieldCodec put_blob read_blob blob_wf 4.
Proof.
  split.
  - intros b Hl. unfold put_blob, blob_wf, RESPONSE_BLOB_MAX in *.
    assert (Z.of_nat (length b) <= U32_MAX) as Hl' by (unfold U32_MAX; lia).
    rewrite try_len_Some by done. cbn [mbind option_bind].
    destruct (len_prefixed_reads b Hl') as (b1 & E1 & L1 & H1).
    exists (b1 ++ b). split_and!; [by apply seq_enc_Some| |len].
    eapply reads_bind; [done|]. cbn beta. rewrite Nat2Z.id.
    apply reads_bail; [|by apply reads_take]. intros n Hn.
    apply orb_false_iff. rewrite Z.ltb_ge, Nat.ltb_ge. unfold RESPONSE_BLOB_MAX. lia.
  - eapply yields_bind; [apply u32_codec|]. intros n Hn r v r'. unfold pbind, bail_if.
    destruct ((RESPONSE_BLOB_MAX <? n) || _) eqn:E; [done|].
    apply orb_false_iff in E as [E _]. apply Z.ltb_ge in E.
    intros Ht. apply yields_take in Ht. unfold blob_wf. unfold uint in Hn. lia.
Qed.

#[export] Instance utf8_blob_codec :
  FieldCodec put_blob read_utf8_blob (fun b => blob_wf b /\ utf8_valid b = true) 4.
Proof.
  split.
  - intros b [Hl Hu]. destruct (field_reads (FieldCodec := blob_codec) b Hl) as (bs & E & H & M).
    exists bs. split_and!; [done| |done].
    eapply reads_bind_ret; [done|]. cbn beta. rewrite Hu. apply reads_pret.
  - eapply yields_bind; [apply blob_codec|]. intros b Hb. cbn beta.
    destruct (utf8_valid b) eqn:Hu; [by apply yields_pret|apply yields_pfail].
Qed.

#[export] Instance bool_codec : FieldCodec put_bool read_bool (fun _ => True) 1.
Proof.
  split; [|by intros r v r' _].
  intros b _. destruct (field_reads (FieldCodec := u8_codec) (Z.b2z b)) as (bs & E & H & M).
  { destruct b; done. }
  exists bs. split_and!; [done| |done]. eapply reads_bind_ret; [done|].
  destruct b; apply reads_pret.
Qed.

(** The tagged options share their shape: tag 0, or tag 1 and the value. *)
Section option_codec.
Context {A : Type} (enc : A -> option bytes) (dec : Parser A) (wf : A -> Prop) (m : nat).
Context (HC : FieldCodec enc dec wf m).

Definition put_opt (o : option A) : option bytes :=
  match o with None => put_u8 0 | Some x => put_u8 1 +++ enc x end.
Definition read_opt : Parser (option A) :=
  let! tag := Reader.u8 in
  match tag with
  | 0 => pret None
  | 1 => let! x := dec in pret (Some x)
  | other => pfail (BadOptionTag other)
  end.

Lemma option_codec : FieldCodec put_opt read_opt (option_wf wf) 1.
Proof.
  split.
  - intros [x|] Hx.
    + destruct (field_reads (FieldCodec := u8_codec) 1) as (b1 & E1 & H1 & M1); [done|].
      destruct (field_reads x Hx) as (b2 & E2 & H2 & M2).
      exists (b1 ++ b2). split_and!; [by apply seq_enc_Some| |len].
      eapply reads_bind; [done|]. eapply reads_bind_ret; [done|]. apply reads_pret.
    + destruct (field_reads (FieldCodec := u8_codec) 0) as (b1 & E1 & H1 & M1); [done|].
      exists b1. split_and!; [done| |done]. eapply reads_bind_ret; [done|]. apply reads_pret.
  - eapply yields_bind; [apply u8_codec|]. intros t _. cbn beta.
    destruct t as [|[p|p|]|p]; try apply yields_pfail; [by apply yields_pret|].
    eapply yields_bind; [apply HC|]. intros x Hx. by apply yields_pret.
Qed.
End option_codec.

#[export] Instance option_u64_codec :
  FieldCodec put_option_u64 read_option_u64 (option_wf (uint 64)) 1.
Proof. exact (option_codec _ _ _ _ u64_codec). Qed.

#[export] Instance option_relation_id_codec :
  FieldCodec put_option_relation_id read_option_relation_id (option_wf uuid_ok) 1.
Proof. exact (option_codec _ _ _ _ emit16_codec). Qed.

(** ** Building a record codec field by field *)

(** The encoder [E] succeeds and the decoder [d] reads its output back as [w]. *)
Definition enc_ok {B} (E : option bytes) (d : Parser B) (w : B) (n : nat) : Prop :=
  exists bs, E = Some bs /\ reads d bs w /\ (n <= length bs)%nat.

Lemma enc_ok_weaken {B} E (d : Parser B) w n n' :
  enc_ok E d w n -> (n' <= n)%nat -> enc_ok E d w n'.
Proof. intros (bs & ? & ? & ?) ?. exists bs. split_and!; [done..|lia]. Qed.

Section fields.
Context {A B : Type} {enc : A -> option bytes} {dec : Parser A} {wf : A -> Prop} {m : nat}.
Context {HC : FieldCodec enc dec wf m}.

Lemma enc_field x (k : A -> Parser B) E w n :
  wf x -> enc_ok E (k x) w n -> enc_ok (enc x +++ E) (pbind dec k) w (m + n).
Proof using HC.
  intros Hx (b2 & -> & H2 & M2). destruct (field_reads x Hx) as (b1 & -> & H1 & M1).
  exists (b1 ++ b2). split_and!; [done|by eapply reads_bind|len].
Qed.

Lemma enc_last x (k : A -> Parser B) w :
  wf x -> reads (k x) [] w -> enc_ok (enc x) (pbind dec k) w m.
Proof using HC.
  intros Hx Hk. destruct (field_reads x Hx) as (b1 & -> & H1 & M1).
  exists b1. split_and!; [done|by eapply reads_bind_ret|done].
Qed.

(** A count prefix, the guard on it, and that many elements. *)
Lemma enc_counted {cenc cdec cwf cm} `{!FieldCodec cenc cdec cwf cm}
    (l : list A) bad e (k : list A -> Parser B) E w n :
  cwf (Z.of_nat (length l)) -> Forall wf l ->
  (forall rem, (length l * m + n <= rem)%nat -> bad (Z.of_nat (length l)) rem = false) ->
  enc_ok E (k l) w n ->
  enc_ok (cenc (Z.of_nat (length l)) +++ emit_all enc l +++ E)
    (let! c := cdec in let! _ := bail_if (bad c) (e c) in
     let! xs := prepeat (Z.to_nat c) dec in k xs) w (cm + n).
Proof using HC.
  intros Hc Hl Hb (b3 & -> & H3 & M3).
  destruct (field_reads _ Hc) as (b1 & -> & H1 & M1).
  destruct (emit_all_reads (H := HC) l Hl) as (b2 & -> & H2 & M2).
  exists (b1 ++ b2 ++ b3). split_and!; [done| |len].
  eapply reads_bind; [done|]. cbn beta. rewrite Nat2Z.id.
  apply reads_bail; [intros r Hr; apply Hb; len|]. by eapply reads_bind.
Qed.
End fields.

Section enum_fields.
Context {A B : Type} (to : A -> Z) (from : Z -> result A WalPayloadError).
Context (Hto : forall x, u8 (to x)) (Hfrom : forall x, from (to x) = Ok x).

Lemma enc_enum x (k : A -> Parser B) E w n :
  enc_ok E (k x) w n ->
  enc_ok (put_u8 (to x) +++ E) (let! c := Reader.u8 in let! y := lift (from c) in k y) w (1 + n).
Proof using Hto Hfrom.
  intros HE. apply (enc_field (HC := u8_codec)); [apply Hto|]. by rewrite Hfrom.
Qed.

Lemma enc_enum_last x (k : A -> Parser B) w :
  reads (k x) [] w ->
  enc_ok (put_u8 (to x)) (let! c := Reader.u8 in let! y := lift (from c) in k y) w 1.
Proof using Hto Hfrom.
  intros HE. apply (enc_last (HC := u8_codec)); [apply Hto|]. by rewrite Hfrom.
Qed.
End enum_fields.

(** A record of one-byte enums with their casts. *)
Create HintDb codec discriminated.
#[export] Hint Extern 1 (u8 (_ ?x)) => destruct x; done : codec.
#[export] Hint Extern 1 (_ = Ok ?x) => destruct x; done : codec.

(** Walk through the encoder and the decoder together. *)
Ltac enc_step :=
  first
  [ eapply enc_enum; [intros ?; solve [auto with codec]|intros ?; solve [auto with codec]|]
  | eapply enc_enum_last; [intros ?; solve [auto with codec]|intros ?; solve [auto with codec]|]
  | eapply enc_field; [first [eassumption|exact I]|]
  | eapply enc_last; [first [eassumption|exact I]|] ].

Definition salience_update_wf (u : SalienceUpdate) : Prop :=
  u128 (su_memory_id u) /\ u32 (su_new_salience u).

(** Expose the conjunction of a well-formedness predicate. *)
Ltac open_wf H :=
  cbv beta iota delta [payload_wf edge_wf salience_update_wf encode_wf relation_link_wf] in H;
  destruct_and?.

Ltac enc_record :=
  let v := fresh "v" in let Hv := fresh "Hv" in
  intros v Hv; open_wf Hv; eapply enc_ok_weaken;
  [repeat enc_step; destruct v; apply reads_pret | lia].

(** Walk through the decoder collecting what each field guarantees. *)
Ltac yields_step :=
  first
  [ eapply yields_bind; [apply field_yields|intros ? ?]
  | eapply yields_bind; [apply yields_lift|intros ? _]
  | eapply yields_bind with (P := fun _ => True); [done|intros _ _]
  | eapply yields_bind; [apply yields_prepeat, field_yields|intros ? [? ?]] ].

Ltac yields_record :=
  repeat yields_step; apply yields_pret;
  cbv beta iota delta [payload_wf edge_wf salience_update_wf encode_wf relation_link_wf]; cbn;
  split_and?; try done.

Tactic Notation "record_codec" reference(enc) reference(dec) :=
  split; unfold enc, dec; [ enc_record | yields_record ].

#[export] Instance edge_codec : FieldCodec encode_edge decode_edge edge_wf 40.
Proof. record_codec encode_edge decode_edge. Qed.

#[export] Instance salience_update_codec :
  FieldCodec encode_salience_update decode_salience_update salience_update_wf 21.
Proof. record_codec encode_salience_update decode_salience_update. Qed.

(** ** Payload codecs *)

#[export] Instance forget_codec :
  FieldCodec encode_forget decode_forget (fun p => payload_wf (Forget p)) 0.
Proof. record_codec encode_forget decode_forget. Qed.

#[export] Instance restore_codec :
  FieldCodec encode_restore decode_restore (fun p => payload_wf (RestoreMemory p)) 0.
Proof. record_codec encode_restore decode_restore. Qed.

#[export] Instance link_codec :
  FieldCodec encode_link decode_link (fun p => payload_wf (Link p)) 0.
Proof. record_codec encode_link decode_link. Qed.

#[export] Instance unlink_codec :
  FieldCodec encode_unlink decode_unlink (fun p => payload_wf (Unlink p)) 0.
Proof. record_codec encode_unlink decode_unlink. Qed.

#[export] Instance reclaim_codec :
  FieldCodec encode_reclaim decode_reclaim (fun p => payload_wf (Reclaim p)) 0.
Proof. record_codec encode_reclaim decode_reclaim. Qed.

#[export] Instance update_kind_codec :
  FieldCodec encode_update_kind decode_update_kind (fun p => payload_wf (UpdateKind p)) 0.
Proof. record_codec encode_update_kind decode_update_kind. Qed.

#[export] Instance update_session_codec :
  FieldCodec encode_update_session decode_update_session
    (fun p => payload_wf (UpdateSession p)) 0.
Proof. record_codec encode_update_session decode_update_session. Qed.

#[export] Instance checkpoint_begin_codec :
  FieldCodec encode_checkpoint_begin decode_checkpoint_begin
    (fun p => payload_wf (CheckpointBegin p)) 0.
Proof. record_codec encode_checkpoint_begin decode_checkpoint_begin. Qed.

#[export] Instance checkpoint_end_codec :
  FieldCodec encode_checkpoint_end decode_checkpoint_end
    (fun p => payload_wf (CheckpointEnd p)) 0.
Proof. record_codec encode_checkpoint_end decode_checkpoint_end. Qed.

#[export] Instance txn_begin_codec :
  FieldCodec encode_txn_begin decode_txn_begin (fun p => payload_wf (TxnBegin p)) 0.
Proof. record_codec encode_txn_begin decode_txn_begin. Qed.

#[export] Instance txn_commit_codec :
  FieldCodec encode_txn_commit decode_txn_commit (fun p => payload_wf (TxnCommit p)) 0.
Proof. record_codec encode_txn_commit decode_txn_commit. Qed.

#[export] Instance txn_abort_codec :
  FieldCodec encode_txn_abort decode_txn_abort (fun p => payload_wf (TxnAbort p)) 0.
Proof. record_codec encode_txn_abort decode_txn_abort. Qed.

#[export] Instance migrate_embedding_codec :
  FieldCodec encode_migrate_embedding decode_migrate_embedding
    (fun p => payload_wf (MigrateEmbedding p)) 0.
Proof. record_codec encode_migrate_embedding decode_migrate_embedding. Qed.

#[export] Instance relation_tombstone_codec :
  FieldCodec encode_relation_tombstone decode_relation_tombstone
    (fun p => payload_wf (RelationTombstone p)) 0.
Proof. record_codec encode_relation_tombstone decode_relation_tombstone. Qed.

(** The intern hint is a tagged option of two UTF-8 blobs. *)
Definition intern_hint_wf (h : bytes * bytes) : Prop :=
  (blob_wf h.1 /\ utf8_valid h.1 = true) /\ (blob_wf h.2 /\ utf8_valid h.2 = true).

Definition put_hint_pair (h : bytes * bytes) : option bytes := put_blob h.1 +++ put_blob h.2.
Definition read_hint_pair : Parser (bytes * bytes) :=
  let! namespace := read_utf8_blob in
  let! name := read_utf8_blob in
  pret (namespace, name).

Lemma hint_pair_codec : FieldCodec put_hint_pair read_hint_pair intern_hint_wf 8.
Proof.
  split; unfold put_hint_pair, read_hint_pair; [|by yields_record].
  intros v [H1 H2]. eapply enc_ok_weaken; [|reflexivity].
  apply (enc_field (HC := utf8_blob_codec) (m := 4)); [done|].
  apply (enc_last (HC := utf8_blob_codec)); [done|]. destruct v; apply reads_pret.
Qed.

Lemma read_intern_hint_opt r : read_intern_hint r = read_opt read_hint_pair r.
Proof.
  unfold read_intern_hint, read_opt, read_hint_pair, pbind, pret.
  destruct (Reader.u8 r) as [[t r']|]; [|done].
  destruct t as [|[p|p|]|p]; try done.
  destruct (read_utf8_blob r') as [[? r2]|]; [|done].
  by destruct (read_utf8_blob r2) as [[? ?]|].
Qed.

#[export] Instance intern_hint_codec :
  FieldCodec put_intern_hint read_intern_hint (option_wf intern_hint_wf) 1.
Proof.
  destruct (option_codec _ _ _ _ hint_pair_codec) as [H1 H2]. split.
  - intros v Hv. destruct (H1 v Hv) as (bs & E & H & M). exists bs.
    split_and!; [by destruct v as [[]|]| |done].
    intros pre tl. rewrite read_intern_hint_opt. apply H.
  - intros r v r'. rewrite read_intern_hint_opt. apply H2.
Qed.

(** The guards of the counted decoders hold on what the encoders write. *)
Lemma count_guard n k m rem :
  (n * Z.to_nat k + m <= rem)%nat -> 0 <= k ->
  (Z.of_nat rem <? sat_mul64 (Z.of_nat n) k) = false.
Proof. intros Hr Hk. apply Z.ltb_ge. unfold sat_mul64. nia. Qed.

Lemma list_wf_of_count {A} (P : A -> Prop) c l max :
  0 <= c <= max -> Forall P l -> length l = Z.to_nat c -> list_wf max P l.
Proof. intros Hc Hl El. split; [done|lia]. Qed.

#[export] Hint Extern 1 (list_wf U32_MAX _ _) =>
  eapply list_wf_of_count; [|eassumption..];
  match goal with H : u32 _ |- _ => unfold uint in H; unfold U32_MAX; lia end : codec.

#[export] Instance update_salience_codec :
  FieldCodec encode_update_salience decode_update_salience
    (fun p => payload_wf (UpdateSalience p)) 0.
Proof.
  split; unfold encode_update_salience, decode_update_salience.
  - intros v [Hl Hn]. rewrite try_len_Some by done. cbn [mbind option_bind].
    eapply enc_ok_weaken; [|apply Nat.le_0_l].
    rewrite <- (seq_enc_nil_r (emit_all _ _)).
    eapply (enc_counted (m := 21)) with (n := 0%nat); [by apply u32_len|done| |].
    + intros rem Hr. by apply (count_guard _ 21 0).
    + exists []. split_and!; [done|destruct v; apply reads_pret|done].
  - yields_record. auto with codec.
Qed.

#[export] Instance consolidate_codec :
  FieldCodec encode_consolidate decode_consolidate (fun p => payload_wf (Consolidate p)) 0.
Proof.
  split; unfold encode_consolidate, decode_consolidate; [|yields_record; auto with codec].
  intros v Hv. open_wf Hv. match goal with H : list_wf _ _ _ |- _ => destruct H as [Hl Hn] end.
  rewrite try_len_Some by done. cbn [mbind option_bind].
  eapply enc_ok_weaken; [|apply Nat.le_0_l]. enc_step.
  eapply (enc_counted (m := 16)); [by apply u32_len|done| |].
  - intros rem Hr. eapply (count_guard _ 16); [exact Hr|done].
  - repeat enc_step. destruct v; apply reads_pret.
Qed.

#[export] Instance relation_link_codec :
  FieldCodec encode_relation_link decode_relation_link relation_link_wf 0.
Proof.
  split; unfold encode_relation_link, decode_relation_link; [|yields_record; auto with codec].
  intros v Hv. open_wf Hv. match goal with H : list_wf _ _ _ |- _ => destruct H as [Hl Hn] end.
  rewrite try_len_Some by done. cbn [mbind option_bind].
  eapply enc_ok_weaken; [|apply Nat.le_0_l]. do 9 enc_step.
  eapply (enc_counted (m := 16)); [by apply u32_len|done| |].
  - intros rem Hr. eapply (count_guard _ 16); [exact Hr|done].
  - repeat enc_step. destruct v; apply reads_pret.
Qed.

#[export] Instance relation_supersede_codec :
  FieldCodec encode_relation_supersede decode_relation_supersede
    (fun p => payload_wf (RelationSupersede p)) 0.
Proof.
  split; unfold encode_relation_supersede, decode_relation_supersede;
    [|by repeat yields_step; apply yields_pret].
  intros v [H1 H2]. eapply enc_ok_weaken; [|apply Nat.le_0_l].
  repeat enc_step. destruct v; apply reads_pret.
Qed.

#[export] Instance encode_codec :
  FieldCodec encode_encode decode_encode (fun p => payload_wf (Encode p)) 0.
Proof.
  split; unfold encode_encode, decode_encode.
  - intros v Hv. open_wf Hv. match goal with H : list_wf _ _ _ |- _ => destruct H as [Hl Hn] end.
    rewrite try_len_Some by done. cbn [mbind option_bind].
    eapply enc_ok_weaken; [|apply Nat.le_0_l]. do 10 enc_step.
    eapply (enc_counted (m := 40)) with (n := (32 + (4 + (1 + 1)))%nat); [unfold U16_MAX, uint in *; lia|done| |].
    + intros rem Hr. apply Z.ltb_ge. unfold sat_add64, sat_mul64. lia.
    + repeat enc_step. destruct v; apply reads_pret.
  - yields_record. eapply list_wf_of_count; [|eassumption..].
    match goal with H : u16 _ |- _ => unfold uint in H; unfold U16_MAX; lia end.
Qed.

(** ** Whole payloads *)

Lemma reads_new {A} (p : Parser A) bs v :
  reads p bs v -> p (Reader.new bs) = Ok (v, at_pos bs []).
Proof. intros H. specialize (H [] []). by rewrite app_nil_r in H. Qed.

(** A structured kind: the decoder of the kind, then the trailing-bytes check. *)
Lemma body_codec {A enc dec wf m} {HC : FieldCodec (A := A) enc dec wf m}
    (C : A -> WalPayload) p k :
  decode_body k = pmap C dec -> opaque_kind k = false -> wf p ->
  exists bs, enc p = Some bs /\ decode k bs = Ok (C p)
    /\ forall tl, tl <> [] -> decode k (bs ++ tl) = Err (TrailingBytes (length tl)).
Proof.
  intros Ek Ho Hp. destruct (field_reads p Hp) as (bs & E & H & _).
  exists bs. split; [done|]. apply (reads_fmap C) in H. rewrite <- Ek in H.
  unfold decode. rewrite (reads_new _ _ _ H), Ho. split.
  - unfold Reader.is_at_end, at_pos; simpl. by rewrite app_nil_r, Nat.eqb_refl.
  - intros tl Ht. specialize (H [] tl). cbn in H. unfold at_pos at 1 in H. cbn in H.
    unfold Reader.new. rewrite H. unfold Reader.is_at_end. cbn [rd_cursor rd_bytes at_pos].
    rewrite remaining_at. destruct tl; [done|].
    rewrite (proj2 (Nat.eqb_neq _ _)) by len. done.
Qed.

Lemma body_yields {A enc dec wf m} {HC : FieldCodec (A := A) enc dec wf m}
    (C : A -> WalPayload) (Q : WalPayload -> Prop) :
  (forall p, wf p -> Q (C p)) -> yields (pmap C dec) Q.
Proof.
  intros H. eapply yields_bind; [apply field_yields|]. intros x Hx. by apply yields_pret, H.
Qed.

Lemma phase_body_codec r :
  payload_wf (PhaseBody r) ->
  exists bs, encode_to_bytes (PhaseBody r) = Some bs /\ decode (pb_kind r) bs = Ok (PhaseBody r).
Proof.
  intros [Ho Hs]. exists (pb_space_id r ++ pb_body r). split; [done|].
  unfold decode. rewrite Ho.
  assert (reads Reader.array16 (pb_space_id r) (pb_space_id r)) as H by by apply reads_take.
  specialize (H [] (pb_body r)). unfold Reader.new.
  destruct r as [k s b]; cbn in *. unfold at_pos in H; cbn in H.
  by destruct k; cbn in Ho; try discriminate; unfold decode_body, pbind; rewrite H; cbn;
    rewrite drop_app_length.
Qed.

Lemma decode_body_yields k :
  yields (decode_body k) (fun p => payload_wf p /\ payload_kind p = k).
Proof.
  destruct k;
    first [ apply (body_yields _ _); by intros p Hp
          | eapply yields_bind; [apply emit16_codec|]; intros s Hs r v r' [= <- _]; by split ].
Qed.

Lemma payload_roundtrip_aux p :
  payload_wf p ->
  exists bs, encode_to_bytes p = Some bs /\ decode (payload_kind p) bs = Ok p
    /\ (opaque_kind (payload_kind p) = false ->
        forall tl, tl <> [] ->
        decode (payload_kind p) (bs ++ tl) = Err (TrailingBytes (length tl))).
Proof.
  intros Hp. destruct p; try match goal with
  | _ : payload_wf (?C ?p) |- _ =>
    destruct (body_codec C p (payload_kind (C p)) eq_refl eq_refl Hp) as (bs & ? & ? & ?);
    exists bs; by split_and!
  end.
  destruct (phase_body_codec r Hp) as (bs & E1 & E2). exists bs. split_and!; [done..|].
  destruct Hp as [Ho _]. cbn. by rewrite Ho.
Qed.

Lemma payload_decode_sound_aux k bs p :
  decode k bs = Ok p -> payload_wf p /\ payload_kind p = k.
Proof.
  unfold decode. destruct (decode_body k (Reader.new bs)) as [[p' r]|e] eqn:E; [|done].
  pose proof (decode_body_yields k _ _ _ E) as Hp.
  destruct (opaque_kind k); [by intros [= <-]|].
  destruct (negb _); [done|]. by intros [= <-].
Qed.

(** [PhaseBodyRecord::new]; its [debug_assert!] is compiled out of the release
    profile, [has_opaque_body] is the precondition it states. *)
Definition PhaseBodyRecord_new (kind : WalRecordKind) (space_id : Uuid) (body : bytes)
  : PhaseBodyRecord :=
  {| pb_kind := kind; pb_space_id := space_id; pb_body := body |}.

(** The precondition admits the three relation kinds, which [decode] parses as
    typed payloads: an opaque body under one of them is never read back. *)
Lemma phase_body_relation_kind k space body bs :
  k = KRelationCreate \/ k = KRelationSupersede \/ k = KRelationTombstone ->
  WalRecordKind.has_opaque_body k = true
  /\ decode k bs <> Ok (PhaseBody (PhaseBodyRecord_new k space body)).
Proof.
  intros Hk. split; [by destruct Hk as [->|[->| ->]]|]. intros E.
  apply payload_decode_sound_aux in E as [[Ho _] _]. by destruct Hk as [->|[->| ->]].
Qed.

(** The bridge between the layers: [WalRecord::from_typed] and
    [WalRecord::typed_payload]. *)
Definition from_typed (lsn flags timestamp_ns space_id_lo64 : Z) (payload : WalPayload)
  : option WalRecord :=
  b ← encode_to_bytes payload;
  Some {| wr_lsn := lsn; wr_kind := payload_kind payload; wr_flags := flags;
          wr_timestamp_ns := timestamp_ns; wr_space_id_lo64 := space_id_lo64;
          wr_payload := b |}.

Definition typed_payload (r : WalRecord) : result WalPayload WalPayloadError :=
  decode (wr_kind r) (wr_payload r).

Lemma from_typed_payload lsn fl ts sp p :
  payload_wf p ->
  exists r, from_typed lsn fl ts sp p = Some r /\ typed_payload r = Ok p
    /\ wr_lsn r = lsn /\ wr_kind r = payload_kind p /\ wr_flags r = fl
    /\ wr_timestamp_ns r = ts /\ wr_space_id_lo64 r = sp.
Proof.
  intros Hp. destruct (payload_roundtrip_aux p Hp) as (bs & E & D & _).
  unfold from_typed. rewrite E. eexists. by split_and!.
Qed.

(** ** Contract *)

(** C36: every well-formed payload encodes (no panic), and decoding those bytes
    under its kind gives the payload back; the structured kinds also reject
    the same bytes with anything appended, reporting the number of extra bytes. *)
Theorem payload_roundtrip p :
  payload_wf p ->
  exists bs, encode_to_bytes p = Some bs /\ decode (payload_kind p) bs = Ok p
    /\ (opaque_kind (payload_kind p) = false ->
        forall tl, tl <> [] ->
        decode (payload_kind p) (bs ++ tl) = Err (TrailingBytes (length tl))).
Proof. apply payload_roundtrip_aux. Qed.

(** C37: whatever the decoder accepts, from any bytes, is a well-formed payload
    of the requested kind: no field outside its range, no text that is not
    UTF-8, no vector, blob or list beyond the limits. *)
Theorem payload_decode_sound k bs p :
  decode k bs = Ok p -> payload_wf p /\ payload_kind p = k.
Proof. apply payload_decode_sound_aux. Qed.

(** The bridge writers and readers use, end to end: a payload wrapped by
    [from_typed], framed, and followed by anything in the segment is decoded
    by [decode_one] to the same record, whose [typed_payload] is the payload. *)
Theorem typed_record_roundtrip `{CRC : Crc32c} `{!Crc32cLaws CRC} lsn fl ts sp p r b rest :
  payload_wf p -> from_typed lsn fl ts sp p = Some r -> WalRecord_wf r ->
  encode r = Some b ->
  decode_one (b ++ rest) = Ok (DecRecord r (length b)) /\ typed_payload r = Ok p.
Proof.
  intros Hp Ef Hr Eb. apply encode_Some in Eb as [Hl ->]. split.
  - rewrite decode_frame by done. by rewrite length_frame.
  - destruct (from_typed_payload lsn fl ts sp p Hp) as (r' & E & D & _). congruence.
Qed.

Module PayloadExample.
Import Castagnoli.
Definition id16 : bytes := replicate 16 Byte.x07.
Definition edge : EdgePayload :=
  {| eg_source := NodeMemory (MemoryId.pack 1 2 3); eg_target := NodeMemory (MemoryId.pack 1 5 1);
     eg_kind := Builtin Caused; eg_weight := 0x3f800000; eg_origin := Explicit |}.
Definition sample : WalPayload :=
  Encode {| ep_memory_id := MemoryId.pack 1 5 1; ep_request_id := id16; ep_space_id := id16;
    ep_namespace_id := 1; ep_session_id := 9; ep_kind := Episodic;
    ep_salience_initial := 0x3f000000; ep_embedding_model_fp := id16;
    ep_text := [Byte.x68; Byte.x69]; ep_vector := [0x3f800000; 0]; ep_edges := [edge; edge];
    ep_request_hash := replicate 32 Byte.x01; ep_response_payload := [Byte.xff];
    ep_deduplicate := true; ep_occurred_at := Some 1700 |}.

Lemma sample_payload_wf : payload_wf sample.
Proof.
  assert (edge_wf edge) as He by (repeat split; (reflexivity || discriminate)).
  assert (Forall (uint 32) [0x3f800000; 0]) as Hv
    by (repeat constructor; (reflexivity || discriminate)).
  unfold sample, payload_wf, encode_wf, text_wf, vector_wf, list_wf, blob_wf, hash_wf, uuid_ok.
  cbn [ep_memory_id ep_request_id ep_space_id ep_namespace_id ep_session_id ep_salience_initial
       ep_embedding_model_fp ep_text ep_vector ep_edges ep_request_hash ep_response_payload
       ep_occurred_at option_wf].
  repeat match goal with |- _ /\ _ => split end;
    first [exact Hv | exact (Forall_cons_2 _ _ _ He (Forall_cons_2 _ _ _ He (Forall_nil_2 _)))
          | reflexivity | discriminate | by vm_compute].
Qed.

Lemma payload_roundtrip_witness :
  exists bs, encode_to_bytes sample = Some bs /\ decode KEncode bs = Ok sample
    /\ decode KEncode (bs ++ [Byte.x00]) = Err (TrailingBytes 1).
Proof.
  destruct (payload_roundtrip sample sample_payload_wf) as (bs & E & D & T). exists bs.
  split_and!; [done..|]. by apply (T eq_refl [Byte.x00]).
Defined.

Definition sample_bytes : bytes := default [] (encode_to_bytes sample).
Definition sample_record : option WalRecord := from_typed 7 1 1700 42 sample.

Lemma payload_decode_sound_witness :
  decode KEncode sample_bytes = Ok sample /\ payload_wf sample /\ payload_kind sample = KEncode.
Proof.
  assert (decode KEncode sample_bytes = Ok sample) as E by (vm_compute; reflexivity).
  split; [exact E|]. exact (payload_decode_sound KEncode sample_bytes sample E).
Defined.

Lemma typed_record_roundtrip_witness :
  exists r b, sample_record = Some r /\ encode r = Some b
    /\ decode_one (b ++ [Byte.x01]) = Ok (DecRecord r (length b)) /\ typed_payload r = Ok sample.
Proof.
  set (r := {| wr_lsn := 7; wr_kind := KEncode; wr_flags := 1; wr_timestamp_ns := 1700;
               wr_space_id_lo64 := 42; wr_payload := sample_bytes |}).
  exists r, (frame r).
  split; [vm_compute; reflexivity|]. split; [vm_compute; reflexivity|].
  refine (typed_record_roundtrip 7 1 1700 42 sample r (frame r) [Byte.x01] sample_payload_wf _ _ _).
  - vm_compute; reflexivity.
  - split; vm_compute; intuition congruence.
  - vm_compute; reflexivity.
Defined.
End PayloadExample.
