(* ===== verification/ArenaSlot.v ===== *)
(** Arena slots ([brain-storage/src/arena/slot.rs]): 384 [f32] components and
    64 bytes of metadata, with their byte layout, the flag bits and the CRC
    over the vector and the metadata fields in front of the CRC.

    A vector component is the bit pattern of its [f32]; [0] is [0.0]. *)

From S2P Require Import Prelude Crc32c.

Definition VECTOR_DIM : nat := 384.
Definition VECTOR_BYTES : nat := (VECTOR_DIM * 4)%nat.
Definition META_BYTES : nat := 64.
Definition SLOT_SIZE : nat := (VECTOR_BYTES + META_BYTES)%nat.
Definition META_OFFSET_IN_SLOT : nat := VECTOR_BYTES.
Definition META_CRC_COVERAGE_END : nat := 40.

Module flags.
Definition OCCUPIED : Z := Z.shiftl 1 0.
Definition TOMBSTONED : Z := Z.shiftl 1 1.
Definition PENDING_WRITE : Z := Z.shiftl 1 2.
Definition HARD_FORGOTTEN : Z := Z.shiftl 1 3.
Definition RESERVED_MASK : Z :=
  Z.lxor U32_MAX (Z.lor (Z.lor (Z.lor OCCUPIED TOMBSTONED) PENDING_WRITE) HARD_FORGOTTEN).
End flags.

Record SlotMeta := {
  slot_version : Z;
  slot_flags : Z;
  embedding_model_fp_short : bytes;
  created_at_unix_nanos : Z;
  last_modified_at_unix_nanos : Z;
  metadata_crc32c : Z;
  meta_reserved : bytes;
}.

Record Slot := { vector : list Z; metadata : SlotMeta }.

#[global] Instance SlotMeta_eq_dec : EqDecision SlotMeta.
Proof. solve_decision. Defined.
#[global] Instance Slot_eq_dec : EqDecision Slot.
Proof. solve_decision. Defined.

(** Field updates of a slot reached through [&mut Slot]. *)
Definition with_vector (v : list Z) (s : Slot) : Slot :=
  {| vector := v; metadata := metadata s |}.
Definition with_meta (f : SlotMeta -> SlotMeta) (s : Slot) : Slot :=
  {| vector := vector s; metadata := f (metadata s) |}.

Definition meta_version (v : Z) (m : SlotMeta) : SlotMeta :=
  {| slot_version := v; slot_flags := slot_flags m;
     embedding_model_fp_short := embedding_model_fp_short m;
     created_at_unix_nanos := created_at_unix_nanos m;
     last_modified_at_unix_nanos := last_modified_at_unix_nanos m;
     metadata_crc32c := metadata_crc32c m; meta_reserved := meta_reserved m |}.
Definition meta_flags (v : Z) (m : SlotMeta) : SlotMeta :=
  {| slot_version := slot_version m; slot_flags := v;
     embedding_model_fp_short := embedding_model_fp_short m;
     created_at_unix_nanos := created_at_unix_nanos m;
     last_modified_at_unix_nanos := last_modified_at_unix_nanos m;
     metadata_crc32c := metadata_crc32c m; meta_reserved := meta_reserved m |}.
Definition meta_fp (v : bytes) (m : SlotMeta) : SlotMeta :=
  {| slot_version := slot_version m; slot_flags := slot_flags m;
     embedding_model_fp_short := v;
     created_at_unix_nanos := created_at_unix_nanos m;
     last_modified_at_unix_nanos := last_modified_at_unix_nanos m;
     metadata_crc32c := metadata_crc32c m; meta_reserved := meta_reserved m |}.
Definition meta_created (v : Z) (m : SlotMeta) : SlotMeta :=
  {| slot_version := slot_version m; slot_flags := slot_flags m;
     embedding_model_fp_short := embedding_model_fp_short m;
     created_at_unix_nanos := v;
     last_modified_at_unix_nanos := last_modified_at_unix_nanos m;
     metadata_crc32c := metadata_crc32c m; meta_reserved := meta_reserved m |}.
Definition meta_modified (v : Z) (m : SlotMeta) : SlotMeta :=
  {| slot_version := slot_version m; slot_flags := slot_flags m;
     embedding_model_fp_short := embedding_model_fp_short m;
     created_at_unix_nanos := created_at_unix_nanos m;
     last_modified_at_unix_nanos := v;
     metadata_crc32c := metadata_crc32c m; meta_reserved := meta_reserved m |}.
Definition meta_crc (v : Z) (m : SlotMeta) : SlotMeta :=
  {| slot_version := slot_version m; slot_flags := slot_flags m;
     embedding_model_fp_short := embedding_model_fp_short m;
     created_at_unix_nanos := created_at_unix_nanos m;
     last_modified_at_unix_nanos := last_modified_at_unix_nanos m;
     metadata_crc32c := v; meta_reserved := meta_reserved m |}.

(** ** Byte layout ([bytemuck::bytes_of] and the pointer cast of [slot]) *)

Definition meta_bytes (m : SlotMeta) : bytes :=
  to_le_bytes 4 (slot_version m)
  ++ to_le_bytes 4 (slot_flags m)
  ++ embedding_model_fp_short m
  ++ to_le_bytes 8 (created_at_unix_nanos m)
  ++ to_le_bytes 8 (last_modified_at_unix_nanos m)
  ++ to_le_bytes 4 (metadata_crc32c m)
  ++ meta_reserved m.

Definition vector_bytes (v : list Z) : bytes := v ≫= to_le_bytes 4.

Definition slot_bytes (s : Slot) : bytes := vector_bytes (vector s) ++ meta_bytes (metadata s).

Definition meta_of_bytes (b : bytes) : SlotMeta :=
  {| slot_version := from_le_bytes (slice 0 4 b);
     slot_flags := from_le_bytes (slice 4 8 b);
     embedding_model_fp_short := slice 8 24 b;
     created_at_unix_nanos := from_le_bytes (slice 24 32 b);
     last_modified_at_unix_nanos := from_le_bytes (slice 32 40 b);
     metadata_crc32c := from_le_bytes (slice 40 44 b);
     meta_reserved := slice 44 64 b |}.

Fixpoint vector_of_bytes (n : nat) (b : bytes) : list Z :=
  match n with
  | O => []
  | S n => from_le_bytes (take 4 b) :: vector_of_bytes n (drop 4 b)
  end.

Definition slot_of_bytes (b : bytes) : Slot :=
  {| vector := vector_of_bytes VECTOR_DIM (take VECTOR_BYTES b);
     metadata := meta_of_bytes (drop META_OFFSET_IN_SLOT b) |}.

(** ** Operations *)

(** [Slot::zeroed]. *)
Definition zeroed : Slot :=
  {| vector := replicate VECTOR_DIM 0;
     metadata := {| slot_version := 0; slot_flags := 0;
       embedding_model_fp_short := replicate 16 Byte.x00; created_at_unix_nanos := 0;
       last_modified_at_unix_nanos := 0; metadata_crc32c := 0;
       meta_reserved := replicate 20 Byte.x00 |} |}.

Definition has_flag (mask : Z) (s : Slot) : bool :=
  negb (Z.land (slot_flags (metadata s)) mask =? 0).
Definition is_occupied : Slot -> bool := has_flag flags.OCCUPIED.
Definition is_tombstoned : Slot -> bool := has_flag flags.TOMBSTONED.
Definition is_pending_write : Slot -> bool := has_flag flags.PENDING_WRITE.
Definition is_hard_forgotten : Slot -> bool := has_flag flags.HARD_FORGOTTEN.

(** [!mask] on [u32] is [mask ^ u32::MAX]. *)
Definition set_flag (mask : Z) (on : bool) (s : Slot) : Slot :=
  with_meta (fun m =>
    meta_flags (if on then Z.lor (slot_flags m) mask
                else Z.land (slot_flags m) (Z.lxor mask U32_MAX)) m) s.

Section crc.
Context `{Crc32c}.

Definition compute_crc (s : Slot) : Z :=
  let b := slot_bytes s in
  let crc_vec := crc32c (slice 0 VECTOR_BYTES b) in
  crc32c_append crc_vec
    (slice META_OFFSET_IN_SLOT (META_OFFSET_IN_SLOT + META_CRC_COVERAGE_END) b).

Definition refresh_crc (s : Slot) : Slot := with_meta (meta_crc (compute_crc s)) s.

Definition is_valid (s : Slot) : bool := metadata_crc32c (metadata s) =? compute_crc s.
End crc.

(** ** Well-formed slots: the field widths *)

Record SlotMeta_wf (m : SlotMeta) : Prop := {
  wf_version : u32 (slot_version m);
  wf_slot_flags : u32 (slot_flags m);
  wf_fp : length (embedding_model_fp_short m) = 16%nat;
  wf_created : u64 (created_at_unix_nanos m);
  wf_modified : u64 (last_modified_at_unix_nanos m);
  wf_crc : u32 (metadata_crc32c m);
  wf_reserved : length (meta_reserved m) = 20%nat;
}.

Record Slot_wf (s : Slot) : Prop := {
  wf_vector_len : length (vector s) = VECTOR_DIM;
  wf_vector : Forall (uint 32) (vector s);
  wf_meta : SlotMeta_wf (metadata s);
}.

Lemma length_meta_bytes m : SlotMeta_wf m -> length (meta_bytes m) = META_BYTES.
Proof. intros H. unfold meta_bytes. len. rewrite (wf_fp m), (wf_reserved m) by done. done. Qed.

Lemma length_vector_bytes v : length (vector_bytes v) = (length v * 4)%nat.
Proof. induction v as [|x v IH]; [done|]. unfold vector_bytes in *. cbn [mbind list_bind length].
  rewrite length_app, IH, length_le_split. lia. Qed.

Lemma length_slot_bytes s : Slot_wf s -> length (slot_bytes s) = SLOT_SIZE.
Proof.
  intros H. unfold slot_bytes.
  rewrite length_app, length_vector_bytes, length_meta_bytes, wf_vector_len by apply H. done.
Qed.

Lemma meta_of_meta_bytes m : SlotMeta_wf m -> meta_of_bytes (meta_bytes m) = m.
Proof.
  intros [? ? Hfp ? ? ? Hr]. unfold meta_of_bytes, meta_bytes.
  rewrite <- (app_nil_r (meta_reserved m)). slices.
  by rewrite !(from_to_le 4), !(from_to_le 8) by done; destruct m.
Qed.

Lemma meta_bytes_of_bytes b : length b = META_BYTES -> meta_bytes (meta_of_bytes b) = b.
Proof.
  unfold META_BYTES. intros Hb. unfold meta_bytes, meta_of_bytes; cbn.
  rewrite !to_from_le by (rewrite length_slice; lia). rewrite !slice_app by lia.
  rewrite slice_0. apply take_ge. lia.
Qed.

Lemma meta_of_bytes_wf b : length b = META_BYTES -> SlotMeta_wf (meta_of_bytes b).
Proof.
  unfold META_BYTES. intros Hb. split; cbn; try (rewrite length_slice; lia).
  all: first [ by apply (from_le_uint _ 4); rewrite length_slice; lia
             | by apply (from_le_uint _ 8); rewrite length_slice; lia ].
Qed.

Lemma vector_of_vector_bytes v :
  Forall (uint 32) v -> vector_of_bytes (length v) (vector_bytes v) = v.
Proof.
  induction 1 as [|x v Hx Hv IH]; [done|]. unfold vector_bytes in *.
  cbn [vector_of_bytes length mbind list_bind].
  rewrite take_app_length', drop_app_length' by (by rewrite length_le_split).
  by rewrite IH, (from_to_le 4).
Qed.

Lemma vector_bytes_of_bytes n b :
  length b = (n * 4)%nat -> vector_bytes (vector_of_bytes n b) = b.
Proof.
  revert b. induction n as [|n IH]; intros b Hb; [by apply nil_length_inv in Hb|].
  cbn [vector_of_bytes]. unfold vector_bytes in *. cbn [mbind list_bind].
  rewrite IH by (rewrite length_drop; lia).
  rewrite to_from_le by (rewrite length_take; lia). apply take_drop.
Qed.

Lemma vector_of_bytes_wf n b :
  length b = (n * 4)%nat ->
  length (vector_of_bytes n b) = n /\ Forall (uint 32) (vector_of_bytes n b).
Proof.
  revert b. induction n as [|n IH]; intros b Hb; [by split|].
  destruct (IH (drop 4 b)) as [E H]; [rewrite length_drop; lia|]. cbn [vector_of_bytes].
  split; [cbn; by rewrite E|]. constructor; [|done].
  apply (from_le_uint _ 4). rewrite length_take. lia.
Qed.

Lemma slot_of_slot_bytes s : Slot_wf s -> slot_of_bytes (slot_bytes s) = s.
Proof.
  intros [Hl Hv Hm]. unfold slot_of_bytes, slot_bytes.
  assert (length (vector_bytes (vector s)) = VECTOR_BYTES) as E
    by (rewrite length_vector_bytes, Hl; done).
  rewrite take_app_length', drop_app_length' by (by rewrite E).
  rewrite <- Hl, vector_of_vector_bytes, meta_of_meta_bytes by done. by destruct s.
Qed.

Lemma slot_bytes_of_bytes b : length b = SLOT_SIZE -> slot_bytes (slot_of_bytes b) = b.
Proof.
  intros Hb. unfold slot_bytes, slot_of_bytes; cbn [vector metadata].
  rewrite vector_bytes_of_bytes
    by (rewrite length_take, Hb; unfold SLOT_SIZE, VECTOR_BYTES; lia).
  rewrite meta_bytes_of_bytes by (rewrite length_drop, Hb; done).
  apply take_drop.
Qed.

Lemma slot_of_bytes_wf b : length b = SLOT_SIZE -> Slot_wf (slot_of_bytes b).
Proof.
  intros Hb. destruct (vector_of_bytes_wf VECTOR_DIM (take VECTOR_BYTES b)) as [H1 H2].
  { rewrite length_take, Hb. done. }
  split; [done..|]. apply meta_of_bytes_wf. rewrite length_drop, Hb. done.
Qed.

Lemma zeroed_wf : Slot_wf zeroed.
Proof.
  split; [done| |split; cbn; unfold uint; lia || done].
  apply Forall_replicate. unfold uint. lia.
Qed.

(** A freshly allocated file region is a zeroed slot. *)
Lemma zeroed_bytes : slot_bytes zeroed = replicate SLOT_SIZE Byte.x00.
Proof. vm_compute. reflexivity. Qed.

Lemma slot_of_zeros : slot_of_bytes (replicate SLOT_SIZE Byte.x00) = zeroed.
Proof. rewrite <- zeroed_bytes. apply slot_of_slot_bytes, zeroed_wf. Qed.

(** ** Flags *)

Lemma has_flag_lor mask a s :
  has_flag mask (set_flag a true s) =
  has_flag mask s || negb (Z.land a mask =? 0).
Proof.
  unfold has_flag, set_flag; cbn. rewrite Z.land_lor_distr_l.
  destruct (Z.eqb_spec (Z.land (slot_flags (metadata s)) mask) 0) as [E|E]; cbn.
  - by rewrite E, Z.lor_0_l.
  - apply negb_true_iff, Z.eqb_neq. intros E'. apply Z.lor_eq_0_iff in E' as [? _]. done.
Qed.

Lemma uint_lor w x y : 0 <= w -> uint w x -> uint w y -> uint w (Z.lor x y).
Proof.
  intros Hw [Hx0 Hx] [Hy0 Hy]. assert (0 <= Z.lor x y) as H0 by (by apply Z.lor_nonneg).
  split; [done|]. destruct (decide (Z.lor x y = 0)) as [E|E]; [lia|].
  apply Z.log2_lt_pow2; [lia|]. rewrite Z.log2_lor by done.
  destruct (decide (w = 0)) as [->|]; [assert (x = 0 /\ y = 0) as [-> ->] by lia; done|].
  apply Z.max_lub_lt.
  - destruct (decide (x = 0)) as [->|]; [cbn; lia|]. apply Z.log2_lt_pow2; lia.
  - destruct (decide (y = 0)) as [->|]; [cbn; lia|]. apply Z.log2_lt_pow2; lia.
Qed.

Lemma set_flag_on_wf mask s : u32 mask -> Slot_wf s -> Slot_wf (set_flag mask true s).
Proof.
  intros Hm [? ? [? ? ? ? ? ? ?]]. split; [done..|]. split; try done. by apply uint_lor.
Qed.

Lemma flag_or_u32 : u32 (Z.lor flags.TOMBSTONED flags.HARD_FORGOTTEN).
Proof. by vm_compute. Qed.

(** ** CRC *)

Section crc_facts.
Context `{CRC : Crc32c} `{!Crc32cLaws CRC}.

Lemma compute_crc_unfold s :
  length (vector s) = VECTOR_DIM ->
  compute_crc s = crc32c_append (crc32c (vector_bytes (vector s)))
                    (take META_CRC_COVERAGE_END (meta_bytes (metadata s))).
Proof.
  intros Hs. unfold compute_crc, slot_bytes, META_OFFSET_IN_SLOT.
  assert (length (vector_bytes (vector s)) = VECTOR_BYTES) as E
    by (rewrite length_vector_bytes, Hs; done).
  rewrite slice_head by (by rewrite ?E). rewrite slice_skip by (by rewrite E).
  rewrite E, Nat.sub_diag, slice_0. by f_equal.
Qed.

Lemma compute_crc_eq s :
  Slot_wf s ->
  compute_crc s = crc32c (vector_bytes (vector s)
                          ++ take META_CRC_COVERAGE_END (meta_bytes (metadata s))).
Proof using Crc32cLaws0.
  intros Hs. by rewrite compute_crc_unfold, crc32c_append_app by apply Hs.
Qed.

Lemma compute_crc_u32 s : Slot_wf s -> u32 (compute_crc s).
Proof using Crc32cLaws0. intros Hs. rewrite compute_crc_eq by done. apply crc32c_u32. Qed.

Lemma meta_crc_wf v s : u32 v -> Slot_wf s -> Slot_wf (with_meta (meta_crc v) s).
Proof. intros Hv [? ? [? ? ? ? ? ? ?]]. by split; [done..|]; split. Qed.

Lemma refresh_crc_wf s : Slot_wf s -> Slot_wf (refresh_crc s).
Proof using Crc32cLaws0. intros Hs. by apply meta_crc_wf; [apply compute_crc_u32|]. Qed.

(** The stored CRC is outside the region the CRC covers. *)
Lemma take_meta_crc v m :
  SlotMeta_wf m ->
  take META_CRC_COVERAGE_END (meta_bytes (meta_crc v m))
  = take META_CRC_COVERAGE_END (meta_bytes m).
Proof.
  intros Hm. unfold meta_bytes; cbn.
  rewrite !(app_assoc (to_le_bytes 8 _) (to_le_bytes 4 _)), !app_assoc.
  rewrite <- !(app_assoc _ (to_le_bytes 4 _) (meta_reserved _)).
  rewrite !take_app_length'; [done|..]; len; rewrite (wf_fp m) by done; done.
Qed.

Lemma compute_crc_ignores_stored v s :
  Slot_wf s -> compute_crc (with_meta (meta_crc v) s) = compute_crc s.
Proof.
  intros Hs. rewrite !compute_crc_unfold by apply Hs. f_equal.
  apply take_meta_crc, Hs.
Qed.

Lemma refresh_crc_valid s : Slot_wf s -> is_valid (refresh_crc s) = true.
Proof.
  intros Hs. unfold is_valid, refresh_crc.
  rewrite compute_crc_ignores_stored by done. apply Z.eqb_refl.
Qed.
End crc_facts.

#[export] Hint Resolve zeroed_wf set_flag_on_wf refresh_crc_wf flag_or_u32 refresh_crc_valid : core.
