(* ===== verification/ArenaFile.v ===== *)
(** The arena file ([brain-storage/src/arena/file.rs]): a 4096-byte header and
    an array of slots, opened, created, read, written and grown through one
    shared mapping.

    An [ArenaFile] holds the mapped header, the mapped slots and the bytes of
    the file behind the mapping, so [file_bytes] is the file as the next open
    reads it.  The outcomes of the system calls are arguments ([Syscalls]);
    an operation returns the file or arena it leaves behind also when it
    fails.  A panicking operation returns [None].  [usize] is 64 bits wide. *)

From S2P Require Import Prelude Crc32c Ids ArenaSlot.

Module ArenaFile.

Definition HEADER_LEN : nat := 4096.
Definition HEADER_MAGIC : bytes := [Byte.x42; Byte.x41; Byte.x52; Byte.x4e].
Definition FORMAT_VERSION_V1 : Z := 1.
Definition VECTOR_DIM_V1 : Z := 384.
Definition SLOT_SIZE_V1 : Z := 1600.
Definition HEADER_CRC_COVERAGE_END : nat := 80.

Record HeaderRaw := {
  magic : bytes;
  format_version : Z;
  hdr_shard_uuid : bytes;
  vector_dim : Z;
  slot_size : Z;
  slot_count_capacity : Z;
  slot_count_in_use : Z;
  embedding_model_fp_active : bytes;
  hdr_created_at_unix_nanos : Z;
  last_grow_at_unix_nanos : Z;
  header_crc32c : Z;
  hdr_reserved : bytes;
}.

(** The in-memory layout of the [repr(C)] struct. *)
Definition header_bytes (h : HeaderRaw) : bytes :=
  magic h
  ++ to_le_bytes 4 (format_version h)
  ++ hdr_shard_uuid h
  ++ to_le_bytes 4 (vector_dim h)
  ++ to_le_bytes 4 (slot_size h)
  ++ to_le_bytes 8 (slot_count_capacity h)
  ++ to_le_bytes 8 (slot_count_in_use h)
  ++ embedding_model_fp_active h
  ++ to_le_bytes 8 (hdr_created_at_unix_nanos h)
  ++ to_le_bytes 8 (last_grow_at_unix_nanos h)
  ++ to_le_bytes 4 (header_crc32c h)
  ++ hdr_reserved h.

Definition header_of_bytes (b : bytes) : HeaderRaw :=
  {| magic := slice 0 4 b;
     format_version := from_le_bytes (slice 4 8 b);
     hdr_shard_uuid := slice 8 24 b;
     vector_dim := from_le_bytes (slice 24 28 b);
     slot_size := from_le_bytes (slice 28 32 b);
     slot_count_capacity := from_le_bytes (slice 32 40 b);
     slot_count_in_use := from_le_bytes (slice 40 48 b);
     embedding_model_fp_active := slice 48 64 b;
     hdr_created_at_unix_nanos := from_le_bytes (slice 64 72 b);
     last_grow_at_unix_nanos := from_le_bytes (slice 72 80 b);
     header_crc32c := from_le_bytes (slice 80 84 b);
     hdr_reserved := slice 84 HEADER_LEN b |}.

Inductive ArenaOpenError :=
| Io (errno : Z)
| InitialCapacityZero
| FileTooSmall (size : Z)
| InvalidMagic (m : bytes)
| UnsupportedFormatVersion (v : Z)
| BadVectorDim (expected found : Z)
| BadSlotSize (expected found : Z)
| HeaderCrcMismatch (expected actual : Z)
| ShardUuidMismatch (expected found : bytes)
| FileSizeInconsistent (capacity_slots file_size : Z)
| MmapFailed (errno : Z)
| FallocateFailed (errno : Z).

Inductive ArenaGrowError :=
| ShrinkRequested (current requested : Z)
| GrowFallocateFailed (errno : Z)
| MremapFailed (errno : Z)
| MsyncFailed (errno : Z).

Record ArenaFile := {
  header : HeaderRaw;
  slots : list Slot;
  tail : bytes;
  file_size : Z;
  capacity_slots : Z;
  shard_uuid : bytes;
}.

(** What the kernel answers: success or an [errno], and the clock. *)
Record Syscalls := {
  sys_fallocate : result unit Z;
  sys_mmap : result unit Z;
  sys_mremap : result unit Z;
  sys_msync : result unit Z;
  unix_nanos_now : Z;
}.

(** The slots of a mapped region, and what does not fill a slot. *)
Fixpoint slots_of_bytes (n : nat) (b : bytes) : list Slot :=
  match n with
  | O => []
  | S n => slot_of_bytes (take SLOT_SIZE b) :: slots_of_bytes n (drop SLOT_SIZE b)
  end.

Definition slots_bytes (l : list Slot) : bytes := l ≫= slot_bytes.

(** The file contents. *)
Definition file_bytes (a : ArenaFile) : bytes :=
  header_bytes (header a) ++ slots_bytes (slots a) ++ tail a.

(** [fallocate(fd, 0, 0, len)] extends the file with zeros, never shrinks it. *)
Definition fallocate (len : nat) (b : bytes) : bytes :=
  b ++ replicate (len - length b) Byte.x00.

(** The typed view of a mapping of the first [size] bytes of the file [b]. *)
Definition map_file (b : bytes) (size capacity : Z) (uuid : bytes) : ArenaFile :=
  let n := ((Z.to_nat size - HEADER_LEN) / SLOT_SIZE)%nat in
  {| header := header_of_bytes (take HEADER_LEN b);
     slots := slots_of_bytes n (drop HEADER_LEN b);
     tail := drop (HEADER_LEN + n * SLOT_SIZE) b;
     file_size := size; capacity_slots := capacity; shard_uuid := uuid |}.

Definition with_header (h : HeaderRaw) (a : ArenaFile) : ArenaFile :=
  {| header := h; slots := slots a; tail := tail a; file_size := file_size a;
     capacity_slots := capacity_slots a; shard_uuid := shard_uuid a |}.

Definition with_slots (l : list Slot) (a : ArenaFile) : ArenaFile :=
  {| header := header a; slots := l; tail := tail a; file_size := file_size a;
     capacity_slots := capacity_slots a; shard_uuid := shard_uuid a |}.

Definition header_with_crc (crc : Z) (h : HeaderRaw) : HeaderRaw :=
  {| magic := magic h; format_version := format_version h;
     hdr_shard_uuid := hdr_shard_uuid h; vector_dim := vector_dim h; slot_size := slot_size h;
     slot_count_capacity := slot_count_capacity h; slot_count_in_use := slot_count_in_use h;
     embedding_model_fp_active := embedding_model_fp_active h;
     hdr_created_at_unix_nanos := hdr_created_at_unix_nanos h;
     last_grow_at_unix_nanos := last_grow_at_unix_nanos h; header_crc32c := crc;
     hdr_reserved := hdr_reserved h |}.

Definition header_with_growth (capacity now : Z) (h : HeaderRaw) : HeaderRaw :=
  {| magic := magic h; format_version := format_version h;
     hdr_shard_uuid := hdr_shard_uuid h; vector_dim := vector_dim h; slot_size := slot_size h;
     slot_count_capacity := capacity; slot_count_in_use := slot_count_in_use h;
     embedding_model_fp_active := embedding_model_fp_active h;
     hdr_created_at_unix_nanos := hdr_created_at_unix_nanos h;
     last_grow_at_unix_nanos := now; header_crc32c := header_crc32c h;
     hdr_reserved := hdr_reserved h |}.

(** [HEADER_LEN + (n as usize) * SLOT_SIZE] in wrapping [usize] arithmetic. *)
Definition size_of_capacity (n : Z) : Z :=
  wrap 64 (Z.of_nat HEADER_LEN + wrap 64 (n * Z.of_nat SLOT_SIZE)).

Section arena.
Context `{Crc32c}.

Definition compute_header_crc (h : HeaderRaw) : Z :=
  crc32c (slice 0 HEADER_CRC_COVERAGE_END (header_bytes h)).

Definition create_new (sys : Syscalls) (contents : bytes) (uuid : bytes)
    (initial_capacity_slots : Z) : bytes * result ArenaFile ArenaOpenError :=
  let size := size_of_capacity initial_capacity_slots in
  match sys_fallocate sys with
  | Err e => (contents, Err (FallocateFailed e))
  | Ok _ =>
    let contents := fallocate (Z.to_nat size) contents in
    match sys_mmap sys with
    | Err e => (contents, Err (MmapFailed e))
    | Ok _ =>
      let h := {| magic := HEADER_MAGIC; format_version := FORMAT_VERSION_V1;
        hdr_shard_uuid := uuid; vector_dim := VECTOR_DIM_V1; slot_size := SLOT_SIZE_V1;
        slot_count_capacity := initial_capacity_slots; slot_count_in_use := 0;
        embedding_model_fp_active := replicate 16 Byte.x00;
        hdr_created_at_unix_nanos := unix_nanos_now sys; last_grow_at_unix_nanos := 0;
        header_crc32c := 0; hdr_reserved := replicate 4012 Byte.x00 |} in
      let h := header_with_crc (compute_header_crc h) h in
      let a := with_header h (map_file contents size initial_capacity_slots uuid) in
      match sys_msync sys with
      | Err e => (file_bytes a, Err (Io e))
      | Ok _ => (file_bytes a, Ok a)
      end
    end
  end.

Definition open_existing (sys : Syscalls) (contents : bytes) (expected_shard_uuid : bytes)
  : result ArenaFile ArenaOpenError :=
  let file_size_u64 := Z.of_nat (length contents) in
  if file_size_u64 <? Z.of_nat HEADER_LEN then Err (FileTooSmall file_size_u64) else
  let? _ := map_err MmapFailed (sys_mmap sys) in
  let h := header_of_bytes (take HEADER_LEN contents) in
  let actual_crc := compute_header_crc h in
  if negb (bool_decide (magic h = HEADER_MAGIC)) then Err (InvalidMagic (magic h)) else
  if negb (header_crc32c h =? actual_crc) then
    Err (HeaderCrcMismatch (header_crc32c h) actual_crc) else
  if negb (format_version h =? FORMAT_VERSION_V1) then
    Err (UnsupportedFormatVersion (format_version h)) else
  if negb (vector_dim h =? VECTOR_DIM_V1) then
    Err (BadVectorDim VECTOR_DIM_V1 (vector_dim h)) else
  if negb (slot_size h =? SLOT_SIZE_V1) then
    Err (BadSlotSize SLOT_SIZE_V1 (slot_size h)) else
  if negb (bool_decide (hdr_shard_uuid h = expected_shard_uuid)) then
    Err (ShardUuidMismatch expected_shard_uuid (hdr_shard_uuid h)) else
  let capacity := slot_count_capacity h in
  let expected_file_size := wrap 64 (Z.of_nat HEADER_LEN + wrap 64 (capacity * SLOT_SIZE_V1)) in
  if negb (file_size_u64 =? expected_file_size) then
    Err (FileSizeInconsistent capacity file_size_u64) else
  Ok (map_file contents file_size_u64 capacity (hdr_shard_uuid h)).

(** [ArenaFile::open] on a file with the given contents (empty when it was
    just created); also returns the contents it leaves. *)
Definition open (sys : Syscalls) (contents : bytes) (uuid : bytes)
    (initial_capacity_slots : Z) : bytes * result ArenaFile ArenaOpenError :=
  if initial_capacity_slots =? 0 then (contents, Err InitialCapacityZero) else
  if (length contents =? 0)%nat then create_new sys contents uuid initial_capacity_slots
  else (contents, open_existing sys contents uuid).

(** [slot] and [slot_mut]: [None] when the index assertion panics. *)
Definition slot (a : ArenaFile) (idx : Z) : option Slot :=
  if idx <? capacity_slots a then slots a !! Z.to_nat idx else None.

Definition slot_mut (a : ArenaFile) (idx : Z) (f : Slot -> Slot) : option ArenaFile :=
  s ← slot a idx;
  Some (with_slots (<[Z.to_nat idx := f s]> (slots a)) a).

Definition hard_forget_slot (a : ArenaFile) (slot_idx expected_version : Z)
  : option (ArenaFile * bool) :=
  if capacity_slots a <=? slot_idx then Some (a, false) else
  s ← slot a slot_idx;
  if negb (is_occupied s) || negb (slot_version (metadata s) =? expected_version)
  then Some (a, false)
  else
    a' ← slot_mut a slot_idx (fun s =>
      let s := with_vector (replicate VECTOR_DIM 0) s in
      let s := set_flag (Z.lor flags.TOMBSTONED flags.HARD_FORGOTTEN) true s in
      refresh_crc s);
    Some (a', true).

Definition grow_to (sys : Syscalls) (a : ArenaFile) (new_capacity_slots : Z)
  : ArenaFile * result unit ArenaGrowError :=
  if new_capacity_slots =? capacity_slots a then (a, Ok tt) else
  if new_capacity_slots <? capacity_slots a then
    (a, Err (ShrinkRequested (capacity_slots a) new_capacity_slots)) else
  let new_file_size := size_of_capacity new_capacity_slots in
  match sys_fallocate sys with
  | Err e => (a, Err (GrowFallocateFailed e))
  | Ok _ =>
    let contents := fallocate (Z.to_nat new_file_size) (file_bytes a) in
    match sys_mremap sys with
    | Err e =>
      let beyond := drop (HEADER_LEN + length (slots a) * SLOT_SIZE) contents in
      ({| header := header a; slots := slots a; tail := beyond; file_size := file_size a;
          capacity_slots := capacity_slots a; shard_uuid := shard_uuid a |},
       Err (MremapFailed e))
    | Ok _ =>
      let a := map_file contents new_file_size new_capacity_slots (shard_uuid a) in
      let h := header_with_growth new_capacity_slots (unix_nanos_now sys) (header a) in
      let a := with_header (header_with_crc (compute_header_crc h) h) a in
      match sys_msync sys with
      | Err e => (a, Err (MsyncFailed e))
      | Ok _ => (a, Ok tt)
      end
    end
  end.
End arena.

(** ** Header layout *)

Record HeaderRaw_wf (h : HeaderRaw) : Prop := {
  wf_magic : length (magic h) = 4%nat;
  wf_format_version : u32 (format_version h);
  wf_hdr_uuid : length (hdr_shard_uuid h) = 16%nat;
  wf_dim : u32 (vector_dim h);
  wf_slot_size : u32 (slot_size h);
  wf_capacity : u64 (slot_count_capacity h);
  wf_in_use : u64 (slot_count_in_use h);
  wf_fp_active : length (embedding_model_fp_active h) = 16%nat;
  wf_hdr_created : u64 (hdr_created_at_unix_nanos h);
  wf_last_grow : u64 (last_grow_at_unix_nanos h);
  wf_hdr_crc : u32 (header_crc32c h);
  wf_hdr_reserved : Z.of_nat (length (hdr_reserved h)) = 4012;
}.

Lemma HEADER_LEN_Z : Z.of_nat HEADER_LEN = 4096.
Proof. reflexivity. Qed.
Lemma SLOT_SIZE_Z : Z.of_nat SLOT_SIZE = 1600.
Proof. reflexivity. Qed.

Lemma length_header_bytes h : HeaderRaw_wf h -> length (header_bytes h) = HEADER_LEN.
Proof.
  intros [? ? ? ? ? ? ? ? ? ? ? ?]. apply Nat2Z.inj. rewrite HEADER_LEN_Z.
  unfold header_bytes. len.
Qed.

Lemma header_of_header_bytes h rest :
  HeaderRaw_wf h -> header_of_bytes (take HEADER_LEN (header_bytes h ++ rest)) = h.
Proof.
  intros Hh. rewrite take_app_length' by (by rewrite length_header_bytes).
  destruct Hh as [? ? ? ? ? ? ? ? ? ? ? Hr]. unfold header_of_bytes.
  assert (slice 84 HEADER_LEN (header_bytes h) = hdr_reserved h) as ->.
  { pose proof HEADER_LEN_Z. unfold header_bytes. do 11 (rewrite slice_skip by len).
    len. match goal with |- slice ?a _ _ = _ => replace a with 0%nat by lia end.
    rewrite slice_0. apply take_ge. lia. }
  unfold header_bytes. slices.
  by rewrite !(from_to_le 4), !(from_to_le 8) by done; destruct h.
Qed.

Lemma header_bytes_of_bytes b : length b = HEADER_LEN -> header_bytes (header_of_bytes b) = b.
Proof.
  intros Hb. pose proof HEADER_LEN_Z. unfold header_bytes, header_of_bytes; cbn [
    magic format_version hdr_shard_uuid vector_dim slot_size slot_count_capacity
    slot_count_in_use embedding_model_fp_active hdr_created_at_unix_nanos
    last_grow_at_unix_nanos header_crc32c hdr_reserved].
  rewrite !to_from_le by (rewrite length_slice; lia). rewrite !slice_app by lia.
  rewrite slice_0. apply take_ge. lia.
Qed.

Lemma header_of_bytes_wf b : length b = HEADER_LEN -> HeaderRaw_wf (header_of_bytes b).
Proof.
  intros Hb. pose proof HEADER_LEN_Z. split; cbn -[HEADER_LEN];
    try (rewrite length_slice; lia).
  all: first [ by apply (from_le_uint _ 4); rewrite length_slice; lia
             | by apply (from_le_uint _ 8); rewrite length_slice; lia ].
Qed.

Lemma length_slots_bytes l :
  Forall Slot_wf l -> length (slots_bytes l) = (length l * SLOT_SIZE)%nat.
Proof.
  induction 1 as [|s l Hs Hl IH]; [done|]. unfold slots_bytes in *. cbn [mbind list_bind length].
  rewrite length_app, IH, length_slot_bytes by done. lia.
Qed.

Lemma slots_of_slots_bytes l rest :
  Forall Slot_wf l -> slots_of_bytes (length l) (slots_bytes l ++ rest) = l.
Proof.
  induction 1 as [|s l Hs Hl IH]; [done|]. unfold slots_bytes in *.
  cbn [mbind list_bind length slots_of_bytes]. rewrite <- app_assoc.
  rewrite take_app_length', drop_app_length' by (by rewrite length_slot_bytes).
  by rewrite IH, slot_of_slot_bytes.
Qed.

Lemma slots_bytes_of_bytes n b :
  (n * SLOT_SIZE <= length b)%nat ->
  slots_bytes (slots_of_bytes n b) = take (n * SLOT_SIZE) b
  /\ Forall Slot_wf (slots_of_bytes n b) /\ length (slots_of_bytes n b) = n.
Proof.
  pose proof SLOT_SIZE_Z as HS. revert b. induction n as [|n IH]; intros b Hb.
  { by rewrite take_0. }
  destruct (IH (drop SLOT_SIZE b)) as (E & W & L); [rewrite length_drop; lia|].
  assert (length (take SLOT_SIZE b) = SLOT_SIZE) as El by (rewrite length_take; lia).
  cbn [slots_of_bytes]. split_and!; [|constructor; [by apply slot_of_bytes_wf|done]|cbn [length]; by rewrite L].
  unfold slots_bytes in *. cbn [mbind list_bind]. rewrite E, slot_bytes_of_bytes by done.
  replace (S n * SLOT_SIZE)%nat with (SLOT_SIZE + n * SLOT_SIZE)%nat by lia.
  apply take_take_drop.
Qed.

Lemma slots_of_zeros n m :
  (n * SLOT_SIZE <= m)%nat -> slots_of_bytes n (replicate m Byte.x00) = replicate n zeroed.
Proof.
  pose proof SLOT_SIZE_Z as HS. revert m. induction n as [|n IH]; intros m Hm; [done|].
  cbn [slots_of_bytes replicate].
  rewrite take_replicate, drop_replicate, IH by lia.
  by rewrite Nat.min_l, slot_of_zeros by lia.
Qed.

Lemma slots_of_bytes_app l n rest :
  Forall Slot_wf l ->
  slots_of_bytes (length l + n) (slots_bytes l ++ rest) = l ++ slots_of_bytes n rest.
Proof.
  induction 1 as [|s l Hs Hl IH]; [done|]. unfold slots_bytes in *.
  cbn [mbind list_bind length Nat.add slots_of_bytes app]. rewrite <- app_assoc.
  rewrite take_app_length', drop_app_length' by (by rewrite length_slot_bytes).
  by rewrite IH, slot_of_slot_bytes.
Qed.

(** ** The arena invariant *)

Section arena_facts.
Context `{CRC : Crc32c} `{!Crc32cLaws CRC}.

(** What an open arena satisfies: a valid header that agrees with the
    mapping, and a slot per unit of capacity.  [max_capacity] keeps the file
    size below [off_t]'s limit. *)
Definition max_capacity : Z := 2 ^ 52.

Record arena_wf (a : ArenaFile) : Prop := {
  wf_header : HeaderRaw_wf (header a);
  wf_header_magic : magic (header a) = HEADER_MAGIC;
  wf_header_version : format_version (header a) = FORMAT_VERSION_V1;
  wf_header_dim : vector_dim (header a) = VECTOR_DIM_V1;
  wf_header_slot_size : slot_size (header a) = SLOT_SIZE_V1;
  wf_header_crc : header_crc32c (header a) = compute_header_crc (header a);
  wf_uuid_agrees : hdr_shard_uuid (header a) = shard_uuid a;
  wf_capacity_agrees : slot_count_capacity (header a) = capacity_slots a;
  wf_capacity_range : 0 <= capacity_slots a <= max_capacity;
  wf_slots_len : Z.of_nat (length (slots a)) = capacity_slots a;
  wf_slots : Forall Slot_wf (slots a);
  wf_file_size : file_size a = 4096 + capacity_slots a * 1600;
}.

Lemma size_of_capacity_small n :
  0 <= n <= max_capacity -> size_of_capacity n = 4096 + n * 1600.
Proof.
  unfold max_capacity. intros Hn. unfold size_of_capacity.
  rewrite HEADER_LEN_Z, SLOT_SIZE_Z, (wrap_small 64 (n * 1600)), wrap_small;
    unfold uint; lia.
Qed.

Lemma length_file_bytes a :
  arena_wf a -> Z.of_nat (length (file_bytes a)) = file_size a + Z.of_nat (length (tail a)).
Proof.
  intros Ha. unfold file_bytes.
  rewrite !length_app, length_header_bytes, length_slots_bytes by apply Ha.
  rewrite wf_file_size by done. rewrite <- (wf_slots_len a) by done.
  pose proof HEADER_LEN_Z. pose proof SLOT_SIZE_Z. lia.
Qed.

Lemma header_crc_ignores_stored v h :
  HeaderRaw_wf h -> compute_header_crc (header_with_crc v h) = compute_header_crc h.
Proof.
  intros Hh. unfold compute_header_crc, header_bytes; cbn. f_equal. rewrite !slice_0.
  rewrite !(app_assoc (to_le_bytes 8 _) (to_le_bytes 4 _)), !app_assoc.
  rewrite <- !(app_assoc _ (to_le_bytes 4 _) (hdr_reserved _)).
  destruct Hh. by rewrite !take_app_length' by (unfold HEADER_CRC_COVERAGE_END; len).
Qed.

Lemma header_with_crc_wf h v : u32 v -> HeaderRaw_wf h -> HeaderRaw_wf (header_with_crc v h).
Proof. intros ? []. by split. Qed.

Lemma header_with_growth_wf h c now :
  u64 c -> u64 now -> HeaderRaw_wf h -> HeaderRaw_wf (header_with_growth c now h).
Proof. intros ? ? []. by split. Qed.

Lemma compute_header_crc_u32 h : u32 (compute_header_crc h).
Proof using Crc32cLaws0. apply crc32c_u32. Qed.

Lemma slot_count_of_size c :
  0 <= c -> ((Z.to_nat (4096 + c * 1600) - HEADER_LEN) / SLOT_SIZE)%nat = Z.to_nat c.
Proof.
  intros Hc. pose proof HEADER_LEN_Z. pose proof SLOT_SIZE_Z as HS.
  replace (Z.to_nat (4096 + c * 1600) - HEADER_LEN)%nat with (Z.to_nat c * SLOT_SIZE)%nat by lia.
  apply Nat.div_mul. lia.
Qed.

(** Mapping the file of an arena again gives the same view. *)
Lemma map_file_bytes a :
  arena_wf a -> map_file (file_bytes a) (file_size a) (capacity_slots a) (shard_uuid a) = a.
Proof.
  intros Ha. unfold map_file, file_bytes. rewrite header_of_header_bytes by apply Ha.
  rewrite (wf_file_size a), slot_count_of_size by (done || apply Ha).
  rewrite <- (wf_slots_len a), Nat2Z.id by done.
  rewrite drop_app_length' by (by rewrite length_header_bytes by apply Ha).
  rewrite slots_of_slots_bytes by apply Ha.
  rewrite app_assoc, drop_app_length'
    by (rewrite length_app, length_header_bytes, length_slots_bytes by apply Ha; done).
  rewrite (wf_slots_len a), <- (wf_file_size a) by done. by destruct a.
Qed.

Lemma open_existing_ok sys a :
  arena_wf a -> tail a = [] -> sys_mmap sys = Ok tt ->
  open_existing sys (file_bytes a) (shard_uuid a) = Ok a.
Proof.
  intros Ha Ht Hm. unfold open_existing.
  pose proof (length_file_bytes a Ha) as Hl. rewrite Ht, Z.add_0_r in Hl. rewrite Hl.
  pose proof (wf_file_size a Ha) as Hs. pose proof (wf_capacity_range a Ha) as Hr.
  rewrite HEADER_LEN_Z, (proj2 (Z.ltb_ge _ _)) by lia.
  rewrite Hm; cbn [map_err].
  replace (header_of_bytes (take HEADER_LEN (file_bytes a))) with (header a)
    by (symmetry; apply header_of_header_bytes, Ha).
  rewrite (wf_header_magic a), (wf_header_version a), (wf_header_dim a),
    (wf_header_slot_size a), (wf_uuid_agrees a), (wf_capacity_agrees a) by done.
  rewrite <- (wf_header_crc a) by done.
  rewrite !bool_decide_true, !Z.eqb_refl by done; cbn [negb].
  change (wrap 64 (4096 + _)) with (size_of_capacity (capacity_slots a)).
  rewrite size_of_capacity_small, <- Hs, Z.eqb_refl by done; cbn [negb].
  by rewrite map_file_bytes.
Qed.

Lemma map_fresh_file c uuid h :
  0 <= c ->
  with_header h (map_file (fallocate (Z.to_nat (4096 + c * 1600)) []) (4096 + c * 1600) c uuid)
  = {| header := h; slots := replicate (Z.to_nat c) zeroed; tail := [];
       file_size := 4096 + c * 1600; capacity_slots := c; shard_uuid := uuid |}.
Proof.
  intros Hc. pose proof HEADER_LEN_Z. pose proof SLOT_SIZE_Z.
  unfold map_file, with_header; cbn [header slots tail capacity_slots shard_uuid file_size].
  rewrite slot_count_of_size by lia. unfold fallocate; cbn [app length].
  rewrite Nat.sub_0_r, !drop_replicate, slots_of_zeros by lia. f_equal.
  apply length_zero_iff_nil. rewrite length_replicate. lia.
Qed.

Lemma create_new_ok sys uuid cap :
  length uuid = 16%nat -> u64 (unix_nanos_now sys) -> 0 <= cap <= max_capacity ->
  sys_fallocate sys = Ok tt -> sys_mmap sys = Ok tt -> sys_msync sys = Ok tt ->
  exists a, create_new sys [] uuid cap = (file_bytes a, Ok a) /\ arena_wf a /\ tail a = []
    /\ slots a = replicate (Z.to_nat cap) zeroed /\ capacity_slots a = cap /\ shard_uuid a = uuid.
Proof using Crc32cLaws0.
  intros Hu Hn Hc Hf Hm Hs. unfold create_new. rewrite Hf, Hm, Hs.
  set (h := Build_HeaderRaw _ _ _ _ _ _ _ _ _ _ _ _).
  assert (HeaderRaw_wf h) as Hh.
  { split; try done; cbn [h slot_count_capacity hdr_reserved].
    unfold max_capacity, uint in *. lia. }
  rewrite size_of_capacity_small, map_fresh_file by (done || lia).
  eexists. split_and!; [reflexivity| |done..].
  split; cbn [header slots tail capacity_slots shard_uuid file_size]; try done.
  - apply header_with_crc_wf; [apply compute_header_crc_u32|done].
  - by rewrite header_crc_ignores_stored.
  - rewrite length_replicate. lia.
  - apply Forall_replicate, zeroed_wf.
Qed.

(** Slot access: in bounds, update one slot and keep the others. *)
Lemma slot_lookup a idx :
  arena_wf a -> 0 <= idx < capacity_slots a ->
  exists s, slot a idx = Some s /\ slots a !! Z.to_nat idx = Some s /\ Slot_wf s.
Proof.
  intros Ha Hi. unfold slot. rewrite (proj2 (Z.ltb_lt _ _)) by lia.
  destruct (lookup_lt_is_Some_2 (slots a) (Z.to_nat idx)) as [s Es].
  { pose proof (wf_slots_len a Ha). lia. }
  exists s. split_and!; [done..|]. by eapply (Forall_lookup_1 Slot_wf), Es; apply Ha.
Qed.

Lemma slot_wf_of a idx s : arena_wf a -> slot a idx = Some s -> Slot_wf s.
Proof.
  intros Ha. unfold slot. destruct (_ <? _); [|done]. intros Es.
  by eapply (Forall_lookup_1 Slot_wf), Es; apply Ha.
Qed.

Lemma slot_mut_wf a idx f a' :
  arena_wf a -> (forall s, Slot_wf s -> Slot_wf (f s)) -> slot_mut a idx f = Some a' ->
  arena_wf a' /\ tail a' = tail a /\ capacity_slots a' = capacity_slots a
  /\ shard_uuid a' = shard_uuid a /\ header a' = header a.
Proof.
  intros Ha Hf. unfold slot_mut. destruct (slot a idx) as [s|] eqn:Es; [|done]. cbn.
  intros [= <-]. split; [|done]. pose proof (slot_wf_of a idx s Ha Es) as Hs.
  destruct Ha. split; cbn; try done.
  - by rewrite length_insert.
  - apply Forall_insert; [done|by apply Hf].
Qed.

Lemma slot_mut_slot a idx f a' :
  0 <= idx -> slot_mut a idx f = Some a' ->
  exists s, slot a idx = Some s /\ slot a' idx = Some (f s)
  /\ forall j, 0 <= j -> j <> idx -> slot a' j = slot a j.
Proof.
  intros Hi. unfold slot_mut. destruct (slot a idx) as [s|] eqn:Es; [|done]. cbn.
  intros [= <-]. exists s. split; [done|]. unfold slot, with_slots in *; cbn.
  destruct (_ <? _); [|done]. split.
  - apply list_lookup_insert_eq. by eapply lookup_lt_Some.
  - intros j Hj Hne. destruct (j <? _); [|done]. apply list_lookup_insert_ne. lia.
Qed.

(** Extending the file and mapping it again. *)
Lemma map_grown_file a k new :
  arena_wf a -> tail a = replicate k Byte.x00 ->
  capacity_slots a <= new -> file_size a + Z.of_nat k <= 4096 + new * 1600 ->
  map_file (fallocate (Z.to_nat (4096 + new * 1600)) (file_bytes a)) (4096 + new * 1600) new
    (shard_uuid a)
  = {| header := header a;
       slots := slots a ++ replicate (Z.to_nat (new - capacity_slots a)) zeroed;
       tail := []; file_size := 4096 + new * 1600; capacity_slots := new;
       shard_uuid := shard_uuid a |}.
Proof.
  intros Ha Ht Hn Hk. pose proof HEADER_LEN_Z. pose proof SLOT_SIZE_Z.
  pose proof (length_file_bytes a Ha) as Hl. pose proof (wf_file_size a Ha).
  pose proof (wf_slots_len a Ha). pose proof (wf_capacity_range a Ha).
  rewrite Ht, length_replicate in Hl.
  assert (fallocate (Z.to_nat (4096 + new * 1600)) (file_bytes a)
    = header_bytes (header a) ++ slots_bytes (slots a)
      ++ replicate (Z.to_nat (new - capacity_slots a) * SLOT_SIZE) Byte.x00) as ->.
  { unfold fallocate. unfold file_bytes at 1. rewrite Ht, <- !app_assoc, <- replicate_add.
    do 3 f_equal. lia. }
  unfold map_file. rewrite header_of_header_bytes by apply Ha.
  rewrite slot_count_of_size by lia.
  rewrite drop_app_length' by (by rewrite length_header_bytes by apply Ha).
  replace (Z.to_nat new) with (length (slots a) + Z.to_nat (new - capacity_slots a))%nat by lia.
  rewrite slots_of_bytes_app, slots_of_zeros by (apply Ha || done). f_equal.
  apply length_zero_iff_nil.
  rewrite length_drop, !length_app, length_header_bytes, length_slots_bytes, length_replicate
    by apply Ha. lia.
Qed.

Lemma grow_to_ok sys a k new :
  arena_wf a -> tail a = replicate k Byte.x00 ->
  capacity_slots a < new <= max_capacity -> file_size a + Z.of_nat k <= 4096 + new * 1600 ->
  u64 (unix_nanos_now sys) -> sys_fallocate sys = Ok tt -> sys_mremap sys = Ok tt ->
  exists a', grow_to sys a new = (a', map_err MsyncFailed (sys_msync sys))
    /\ arena_wf a' /\ tail a' = []
    /\ slots a' = slots a ++ replicate (Z.to_nat (new - capacity_slots a)) zeroed
    /\ capacity_slots a' = new /\ shard_uuid a' = shard_uuid a.
Proof using Crc32cLaws0.
  intros Ha Ht Hn Hk Hu Hf Hm. pose proof (wf_capacity_range a Ha) as Hr.
  unfold grow_to. rewrite (proj2 (Z.eqb_neq _ _)), (proj2 (Z.ltb_ge _ _)) by lia.
  rewrite Hf, Hm, size_of_capacity_small by lia. rewrite (map_grown_file a k) by (done || lia).
  eexists. split; [by destruct (sys_msync sys) as [[]|]|]. split; [|done].
  set (h := header_with_growth _ _ _).
  assert (HeaderRaw_wf h) as Hh.
  { apply header_with_growth_wf; [unfold max_capacity, uint in *; lia|done|apply Ha]. }
  pose proof (wf_slots_len a Ha).
  destruct Ha. split; cbn [header slots tail capacity_slots shard_uuid file_size with_header];
    try done; try lia.
  - apply header_with_crc_wf; [apply compute_header_crc_u32|done].
  - by rewrite header_crc_ignores_stored.
  - rewrite length_app, length_replicate. lia.
  - apply Forall_app. split; [done|]. apply Forall_replicate, zeroed_wf.
Qed.

Lemma open_existing_inv sys contents uuid a :
  open_existing sys contents uuid = Ok a ->
  capacity_slots a <= max_capacity ->
  arena_wf a /\ tail a = [] /\ file_bytes a = contents /\ shard_uuid a = uuid.
Proof.
  unfold open_existing. set (h := header_of_bytes _).
  destruct (Z.ltb_spec (Z.of_nat (length contents)) (Z.of_nat HEADER_LEN)) as [|Hl]; [done|].
  destruct (map_err _ _); [|done].
  case_bool_decide as Emagic; cbn [negb]; [|done].
  destruct (Z.eqb_spec (header_crc32c h) (compute_header_crc h)) as [Ecrc|]; [cbn [negb]|done].
  destruct (Z.eqb_spec (format_version h) FORMAT_VERSION_V1) as [Ever|]; [cbn [negb]|done].
  destruct (Z.eqb_spec (vector_dim h) VECTOR_DIM_V1) as [Edim|]; [cbn [negb]|done].
  destruct (Z.eqb_spec (slot_size h) SLOT_SIZE_V1) as [Esz|]; [cbn [negb]|done].
  case_bool_decide as Euuid; cbn [negb]; [|done].
  replace (wrap 64 (Z.of_nat HEADER_LEN + _)) with (size_of_capacity (slot_count_capacity h))
    by (unfold size_of_capacity; by rewrite SLOT_SIZE_Z).
  destruct (Z.eqb_spec (Z.of_nat (length contents)) (size_of_capacity (slot_count_capacity h)))
    as [Esize|]; [cbn [negb]|done].
  intros E. apply Ok_inj in E. subst a. cbn [capacity_slots map_file]. intros Hcap.
  pose proof HEADER_LEN_Z. pose proof SLOT_SIZE_Z.
  assert (length (take HEADER_LEN contents) = HEADER_LEN) as Eh by (rewrite length_take; lia).
  assert (HeaderRaw_wf h) as Hh by (by apply header_of_bytes_wf).
  assert (0 <= slot_count_capacity h <= max_capacity) as Hr
    by (pose proof (wf_capacity h Hh); unfold uint in *; lia).
  rewrite size_of_capacity_small in Esize by done.
  destruct (slots_bytes_of_bytes (Z.to_nat (slot_count_capacity h)) (drop HEADER_LEN contents))
    as (Eb & Wb & Lb); [rewrite length_drop; lia|].
  unfold map_file. rewrite Esize, slot_count_of_size by lia.
  assert (drop (HEADER_LEN + Z.to_nat (slot_count_capacity h) * SLOT_SIZE) contents = []) as Et
    by (apply length_zero_iff_nil; rewrite length_drop; lia).
  split_and!; [split|..]; cbn [header slots tail capacity_slots shard_uuid file_size];
    fold h; try done; try lia.
  unfold file_bytes; cbn [header slots tail]. rewrite Eb, Et.
  replace (header_bytes h) with (take HEADER_LEN contents)
    by (symmetry; by apply header_bytes_of_bytes).
  rewrite app_nil_r. etransitivity; [|apply (take_drop HEADER_LEN)]. f_equal.
  apply take_ge. rewrite length_drop. lia.
Qed.

(** The bytes of slot [i] in the file. *)
Definition slot_offset (idx : Z) : nat := (HEADER_LEN + Z.to_nat idx * SLOT_SIZE)%nat.

Lemma drop_slots_bytes l i s :
  Forall Slot_wf l -> l !! i = Some s ->
  drop (i * SLOT_SIZE) (slots_bytes l) = slot_bytes s ++ slots_bytes (drop (S i) l).
Proof.
  intros Hl. revert i. induction Hl as [|x l Hx Hl IH]; intros i Ei; [done|].
  unfold slots_bytes in *. destruct i as [|i]; cbn [lookup list_lookup mbind list_bind] in *.
  - injection Ei as ->. by rewrite Nat.mul_0_l, !drop_0.
  - replace (S i * SLOT_SIZE)%nat with (length (slot_bytes x) + i * SLOT_SIZE)%nat
      by (rewrite length_slot_bytes by done; lia).
    rewrite drop_app_add. by rewrite (IH i).
Qed.

Lemma slot_file_bytes a idx s :
  arena_wf a -> 0 <= idx -> slot a idx = Some s ->
  slice (slot_offset idx) (slot_offset idx + VECTOR_BYTES) (file_bytes a)
  = vector_bytes (vector s).
Proof.
  intros Ha Hi Es. pose proof (slot_wf_of a idx s Ha Es) as Hs.
  unfold slot in Es. destruct (_ <? _); [|done].
  unfold slice, slot_offset, file_bytes.
  rewrite <- (length_header_bytes (header a)) by apply Ha. rewrite drop_app_add.
  assert (Z.to_nat idx * SLOT_SIZE <= length (slots_bytes (slots a)))%nat as Hb.
  { rewrite length_slots_bytes by apply Ha. apply lookup_lt_Some in Es. nia. }
  rewrite drop_app_le, (drop_slots_bytes _ _ s) by (done || apply Ha).
  unfold slot_bytes. rewrite <- !app_assoc. apply take_app_length'.
  rewrite length_vector_bytes, (wf_vector_len s) by done. unfold VECTOR_BYTES. lia.
Qed.

Lemma vector_bytes_zeros n : vector_bytes (replicate n 0) = replicate (n * 4) Byte.x00.
Proof. induction n as [|n IH]; [done|]. unfold vector_bytes in *. cbn. by rewrite IH. Qed.

(** The update [hard_forget_slot] applies. *)
Definition erased (s : Slot) : Slot :=
  refresh_crc (set_flag (Z.lor flags.TOMBSTONED flags.HARD_FORGOTTEN) true
    (with_vector (replicate VECTOR_DIM 0) s)).

Lemma with_zero_vector_wf s : Slot_wf s -> Slot_wf (with_vector (replicate VECTOR_DIM 0) s).
Proof.
  intros [? ? ?]. split; [done| |done].
  apply Forall_replicate. unfold uint; lia.
Qed.

Lemma erased_wf s : Slot_wf s -> Slot_wf (erased s).
Proof using Crc32cLaws0. intros Hs. apply refresh_crc_wf, set_flag_on_wf, with_zero_vector_wf; auto. Qed.

Lemma erased_flags s :
  is_tombstoned (erased s) = true /\ is_hard_forgotten (erased s) = true.
Proof.
  split.
  - change (is_tombstoned (erased s)) with (has_flag flags.TOMBSTONED
      (set_flag (Z.lor flags.TOMBSTONED flags.HARD_FORGOTTEN) true s)).
    rewrite has_flag_lor. apply orb_true_r.
  - change (is_hard_forgotten (erased s)) with (has_flag flags.HARD_FORGOTTEN
      (set_flag (Z.lor flags.TOMBSTONED flags.HARD_FORGOTTEN) true s)).
    rewrite has_flag_lor. apply orb_true_r.
Qed.

(** The two outcomes of [hard_forget_slot]. *)
Lemma hard_forget_cases a idx ver :
  arena_wf a -> 0 <= idx ->
  hard_forget_slot a idx ver = Some (a, false)
    /\ (forall s, slot a idx = Some s -> is_occupied s = true -> slot_version (metadata s) <> ver)
  \/ exists s, slot a idx = Some s /\ is_occupied s = true /\ slot_version (metadata s) = ver
    /\ exists a', slot_mut a idx erased = Some a' /\ hard_forget_slot a idx ver = Some (a', true).
Proof.
  intros Ha Hi. unfold hard_forget_slot.
  destruct (Z.leb_spec (capacity_slots a) idx).
  { left. split; [done|]. intros s. unfold slot. by rewrite (proj2 (Z.ltb_ge _ _)) by lia. }
  destruct (slot_lookup a idx) as (s & Es & El & Hs); [done..|].
  rewrite Es; cbn [mbind option_bind].
  destruct (is_occupied s) eqn:Eo; cbn [negb orb].
  2: { left. split; [done|]. congruence. }
  destruct (Z.eqb_spec (slot_version (metadata s)) ver) as [Ev|Ev]; cbn [negb].
  2: { left. split; [done|]. congruence. }
  right. exists s. split_and!; [done..|].
  unfold slot_mut. rewrite Es; cbn [mbind option_bind]. eauto.
Qed.
End arena_facts.

(** ** Contract *)

Section arena_contract.
Context `{CRC : Crc32c} `{!Crc32cLaws CRC}.

(** Creating an arena in an empty file yields zeroed slots only, in a file
    that satisfies the arena invariant and that any later open (with
    whatever initial capacity it asks for) maps back to the same arena. *)
Theorem arena_create_reopen sys sys' uuid cap n :
  length uuid = 16%nat -> u64 (unix_nanos_now sys) -> 1 <= cap <= max_capacity -> n <> 0 ->
  sys_fallocate sys = Ok tt -> sys_mmap sys = Ok tt -> sys_msync sys = Ok tt ->
  sys_mmap sys' = Ok tt ->
  exists a, open sys [] uuid cap = (file_bytes a, Ok a) /\ arena_wf a
    /\ slots a = replicate (Z.to_nat cap) zeroed
    /\ open sys' (file_bytes a) uuid n = (file_bytes a, Ok a).
Proof using Crc32cLaws0.
  intros Hu Hn Hc Hn0 Hf Hm Hs Hm'.
  destruct (create_new_ok sys uuid cap) as (a & E & Ha & Ht & Es & Ec & Eu); [done||lia..|].
  exists a. unfold open. rewrite (proj2 (Z.eqb_neq cap 0)), (proj2 (Z.eqb_neq n 0)) by lia.
  split_and!; [done..|]. rewrite <- Eu, open_existing_ok by done.
  pose proof (length_file_bytes a Ha) as Hl. rewrite (wf_file_size a Ha) in Hl.
  by rewrite (proj2 (Nat.eqb_neq _ _)) by lia.
Qed.

(** An open that accepts an existing file under some shard uuid has checked
    everything the rest of the system relies on: the header's magic,
    checksum, version and dimensions are right, the shard is the requested
    one, the capacity is the number of slots in the file, and the mapped
    view denotes exactly the file's bytes. *)
Theorem arena_open_sound sys contents uuid n a :
  contents <> [] -> snd (open sys contents uuid n) = Ok a -> capacity_slots a <= max_capacity ->
  arena_wf a /\ tail a = [] /\ file_bytes a = contents /\ shard_uuid a = uuid.
Proof.
  intros Hc. unfold open. destruct (n =? 0); [done|].
  destruct contents; [done|]. apply open_existing_inv.
Qed.

(** Growing keeps every slot in place and appends zeroed ones; the arena
    stays well formed and the grown file opens again.  An [msync] failure
    is reported but the mapping is already the grown one. *)
Theorem arena_grow_preserves sys sys' a new n :
  arena_wf a -> tail a = [] -> capacity_slots a < new <= max_capacity ->
  u64 (unix_nanos_now sys) -> sys_fallocate sys = Ok tt -> sys_mremap sys = Ok tt ->
  sys_mmap sys' = Ok tt -> n <> 0 ->
  exists a', grow_to sys a new = (a', map_err MsyncFailed (sys_msync sys)) /\ arena_wf a'
    /\ capacity_slots a' = new
    /\ (forall j, 0 <= j < capacity_slots a -> slot a' j = slot a j)
    /\ (forall j, capacity_slots a <= j < new -> slot a' j = Some zeroed)
    /\ open sys' (file_bytes a') (shard_uuid a) n = (file_bytes a', Ok a').
Proof using Crc32cLaws0.
  intros Ha Ht Hn Hu Hf Hm Hm' Hn0.
  pose proof (wf_file_size a Ha). pose proof (wf_slots_len a Ha) as Hl.
  destruct (grow_to_ok sys a 0 new) as (a' & E & Ha' & Ht' & Es & Ec & Eu); [done||lia..|].
  exists a'. split_and!; [done..| | |].
  - intros j Hj. unfold slot. rewrite !(proj2 (Z.ltb_lt _ _)) by lia.
    rewrite Es. apply lookup_app_l. lia.
  - intros j Hj. unfold slot. rewrite (proj2 (Z.ltb_lt _ _)) by lia.
    rewrite Es, lookup_app_r by lia. apply lookup_replicate. split; [done|lia].
  - unfold open. rewrite (proj2 (Z.eqb_neq n 0)), <- Eu, open_existing_ok by done.
    pose proof (length_file_bytes a' Ha') as Hl'. rewrite (wf_file_size a' Ha') in Hl'.
    pose proof (wf_capacity_range a' Ha').
    by rewrite (proj2 (Nat.eqb_neq _ _)) by lia.
Qed.

(** Hard-forgetting a slot never panics and answers [true] exactly when the
    slot is occupied by the expected version.  Then the vector's bytes in
    the file are all zero, the slot is marked tombstoned and hard-forgotten
    under a fresh checksum with its version kept, and no other slot
    changes; otherwise nothing changes at all. *)
Theorem arena_hard_forget_erases a idx ver :
  arena_wf a -> 0 <= idx ->
  exists a' zeroed_now, hard_forget_slot a idx ver = Some (a', zeroed_now) /\ arena_wf a'
    /\ (zeroed_now = true <-> exists s, slot a idx = Some s /\ is_occupied s = true
                                       /\ slot_version (metadata s) = ver)
    /\ (zeroed_now = false -> a' = a)
    /\ (forall j, 0 <= j -> j <> idx -> slot a' j = slot a j)
    /\ (zeroed_now = true ->
        slice (slot_offset idx) (slot_offset idx + VECTOR_BYTES) (file_bytes a')
          = replicate VECTOR_BYTES Byte.x00
        /\ exists s', slot a' idx = Some s' /\ is_valid s' = true /\ is_tombstoned s' = true
           /\ is_hard_forgotten s' = true /\ slot_version (metadata s') = ver).
Proof using Crc32cLaws0.
  intros Ha Hi. destruct (hard_forget_cases a idx ver Ha Hi)
    as [[E Hno]|(s & Es & Eo & Ev & a' & Em & E)].
  { exists a, false. split_and!; try done. split; [done|]. intros (s & ? & ? & ?).
    by destruct (Hno s). }
  destruct (slot_mut_wf a idx erased a' Ha erased_wf Em) as (Ha' & _).
  destruct (slot_mut_slot a idx erased a' Hi Em) as (s0 & Es0 & Es' & Hj).
  assert (s0 = s) as -> by congruence.
  pose proof (slot_wf_of a idx s Ha Es) as Hs.
  exists a', true. split_and!; try done; [split; [eauto|done]|]. intros _. split.
  - rewrite (slot_file_bytes a' idx (erased s)) by done. apply vector_bytes_zeros.
  - exists (erased s). destruct (erased_flags s). split_and!; try done.
    apply refresh_crc_valid, set_flag_on_wf, with_zero_vector_wf; auto.
Qed.

(** A grow whose [mremap] fails after [fallocate] succeeded returns an
    error with the arena's slots and capacity unchanged, but the file has
    already been extended: every later open of it is refused with
    [FileSizeInconsistent]. *)
Theorem arena_grow_mremap_failure sys sys' a new e n :
  arena_wf a -> tail a = [] -> capacity_slots a < new <= max_capacity ->
  sys_fallocate sys = Ok tt -> sys_mremap sys = Err e -> sys_mmap sys' = Ok tt -> n <> 0 ->
  exists a', grow_to sys a new = (a', Err (MremapFailed e)) /\ slots a' = slots a
    /\ capacity_slots a' = capacity_slots a
    /\ open sys' (file_bytes a') (shard_uuid a) n
       = (file_bytes a', Err (FileSizeInconsistent (capacity_slots a) (4096 + new * 1600))).
Proof.
  intros Ha Ht Hn Hf Hm Hm' Hn0. pose proof (wf_capacity_range a Ha) as Hr.
  unfold grow_to. rewrite (proj2 (Z.eqb_neq _ _)), (proj2 (Z.ltb_ge _ _)) by lia.
  rewrite Hf, Hm, size_of_capacity_small by lia. eexists. split_and!; [reflexivity|done..|].
  set (a' := Build_ArenaFile _ _ _ _ _ _).
  pose proof (length_file_bytes a Ha) as Hl. rewrite Ht, Z.add_0_r, (wf_file_size a Ha) in Hl.
  assert (file_bytes a' = fallocate (Z.to_nat (4096 + new * 1600)) (file_bytes a)) as E.
  { unfold file_bytes at 1. cbn [a' header slots tail]. unfold fallocate.
    rewrite drop_app_length'.
    - unfold file_bytes. by rewrite Ht, app_nil_r, <- app_assoc.
    - unfold file_bytes. rewrite Ht, app_nil_r, length_app, length_header_bytes,
        length_slots_bytes by apply Ha. done. }
  assert (Z.of_nat (length (file_bytes a')) = 4096 + new * 1600) as El
    by (rewrite E; unfold fallocate; rewrite length_app, length_replicate; lia).
  unfold open. rewrite (proj2 (Z.eqb_neq n 0)), (proj2 (Nat.eqb_neq _ _)) by lia. f_equal.
  unfold open_existing. rewrite El, HEADER_LEN_Z, (proj2 (Z.ltb_ge _ _)) by lia.
  rewrite Hm'; cbn [map_err].
  replace (header_of_bytes (take HEADER_LEN (file_bytes a'))) with (header a)
    by (symmetry; apply header_of_header_bytes, Ha).
  rewrite (wf_header_magic a), (wf_header_version a), (wf_header_dim a),
    (wf_header_slot_size a), (wf_uuid_agrees a), (wf_capacity_agrees a) by done.
  rewrite <- (wf_header_crc a) by done.
  rewrite !bool_decide_true, !Z.eqb_refl by done; cbn [negb].
  replace (wrap 64 (4096 + _)) with (4096 + capacity_slots a * 1600)
    by (by rewrite <- size_of_capacity_small; unfold size_of_capacity;
        rewrite ?SLOT_SIZE_Z, ?HEADER_LEN_Z).
  by rewrite (proj2 (Z.eqb_neq _ _)) by lia.
Qed.
End arena_contract.

Module ArenaExample.
Import Castagnoli.
Definition sys : Syscalls :=
  {| sys_fallocate := Ok tt; sys_mmap := Ok tt; sys_mremap := Ok tt; sys_msync := Ok tt;
     unix_nanos_now := 1700 |}.
Definition sys_mremap_enomem : Syscalls :=
  {| sys_fallocate := Ok tt; sys_mmap := Ok tt; sys_mremap := Err 12; sys_msync := Ok tt;
     unix_nanos_now := 1700 |}.
Definition uuid : bytes := replicate 16 Byte.x11.

Lemma small_arena :
  exists a, open sys [] uuid 4 = (file_bytes a, Ok a) /\ arena_wf a /\ tail a = []
    /\ capacity_slots a = 4 /\ slots a = replicate 4 zeroed /\ shard_uuid a = uuid.
Proof.
  destruct (create_new_ok sys uuid 4) as (a & E & Ha & Ht & Es & Ec & Eu);
    [done|unfold uint; cbn; lia|unfold max_capacity; lia|done..|].
  exists a. by split_and!.
Qed.

Lemma arena_create_reopen_witness :
  exists a, open sys [] uuid 4 = (file_bytes a, Ok a) /\ arena_wf a
    /\ slots a = replicate 4 zeroed /\ open sys (file_bytes a) uuid 1 = (file_bytes a, Ok a).
Proof.
  apply (arena_create_reopen sys sys uuid 4 1);
    [done|unfold uint; cbn; lia|unfold max_capacity; lia|lia|done..].
Defined.

Lemma arena_open_sound_witness :
  exists contents a, snd (open sys contents uuid 1) = Ok a /\ arena_wf a
    /\ file_bytes a = contents.
Proof.
  destruct small_arena as (a & E & Ha & Ht & Ec & Es & Eu).
  assert (open_existing sys (file_bytes a) uuid = Ok a) as Eo
    by (rewrite <- Eu; by apply open_existing_ok).
  assert (file_bytes a <> []) as Hne.
  { intros Hn. pose proof (length_file_bytes a Ha) as Hl.
    rewrite Hn, (wf_file_size a Ha) in Hl. cbn in Hl. lia. }
  assert (snd (open sys (file_bytes a) uuid 1) = Ok a) as Eopen.
  { unfold open; cbn [Z.eqb]. destruct (length (file_bytes a) =? 0)%nat eqn:E0; [|done].
    by apply Nat.eqb_eq, nil_length_inv in E0. }
  exists (file_bytes a), a. split; [exact Eopen|].
  destruct (arena_open_sound sys (file_bytes a) uuid 1 a Hne Eopen) as (? & _ & ? & _).
  - rewrite Ec. unfold max_capacity. lia.
  - by split.
Defined.

Lemma arena_grow_preserves_witness :
  exists a a', open sys [] uuid 4 = (file_bytes a, Ok a) /\ grow_to sys a 8 = (a', Ok tt)
    /\ slot a' 5 = Some zeroed /\ arena_wf a'.
Proof.
  destruct small_arena as (a & E & Ha & Ht & Ec & Es & Eu).
  destruct (arena_grow_preserves sys sys a 8 1) as (a' & Eg & Ha' & _ & _ & Hz & _);
    [done|done|rewrite Ec; unfold max_capacity; lia|unfold uint; cbn; lia|done..|].
  exists a, a'. split_and!; [done..| |done]. apply Hz. rewrite Ec. lia.
Defined.

Definition occupy (s : Slot) : Slot := refresh_crc (set_flag flags.OCCUPIED true s).

Lemma arena_hard_forget_erases_witness :
  exists a a1 a', open sys [] uuid 4 = (file_bytes a, Ok a) /\ slot_mut a 2 occupy = Some a1
    /\ hard_forget_slot a1 2 0 = Some (a', true)
    /\ slice (slot_offset 2) (slot_offset 2 + VECTOR_BYTES) (file_bytes a')
       = replicate VECTOR_BYTES Byte.x00.
Proof.
  destruct small_arena as (a & E & Ha & Ht & Ec & Es & Eu).
  destruct (slot_mut a 2 occupy) as [a1|] eqn:Em.
  2: { exfalso. unfold slot_mut, slot in Em. by rewrite Ec, Es in Em. }
  destruct (slot_mut_wf a 2 occupy a1 Ha) as (Ha1 & _); [|exact Em|].
  { intros s Hs. apply refresh_crc_wf, set_flag_on_wf; [by vm_compute|done]. }
  destruct (slot_mut_slot a 2 occupy a1 ltac:(lia) Em) as (s & Es2 & Es1 & _).
  assert (s = zeroed) as -> by (unfold slot in Es2; rewrite Ec, Es in Es2; by injection Es2).
  destruct (arena_hard_forget_erases a1 2 0 Ha1 ltac:(lia)) as (a' & z & Ef & _ & Hz & _ & _ & Ht').
  assert (z = true) as -> by (apply Hz; by exists (occupy zeroed)).
  exists a, a1, a'. split; [exact E|]. split; [done|]. split; [exact Ef|].
  exact (proj1 (Ht' eq_refl)).
Defined.

Lemma arena_grow_mremap_failure_witness :
  exists a a', open sys [] uuid 4 = (file_bytes a, Ok a)
    /\ grow_to sys_mremap_enomem a 8 = (a', Err (MremapFailed 12))
    /\ open sys (file_bytes a') (shard_uuid a) 1
       = (file_bytes a', Err (FileSizeInconsistent (capacity_slots a) (4096 + 8 * 1600))).
Proof.
  destruct small_arena as (a & E & Ha & Ht & Ec & Es & Eu).
  destruct (arena_grow_mremap_failure sys_mremap_enomem sys a 8 12 1)
    as (a' & Eg & _ & _ & Eo); [done|done|rewrite Ec; unfold max_capacity; lia|done..|].
  exists a, a'. by split_and!.
Defined.
End ArenaExample.

End ArenaFile.
