(* ===== verification/Allocator.v ===== *)
(** The slot allocator ([brain-storage/src/arena/allocator.rs]): a LIFO free
    list and the lowest never-used slot, rebuilt from the arena on reopen.

    A panic (slot index out of range) is [None]; an operation returns the
    allocator and the arena it leaves behind next to its [Result]. *)

From S2P Require Import Prelude Crc32c Ids ArenaSlot ArenaFile.
Import ArenaFile.

Module Allocator.

Record SlotAllocator := {
  free_list : list Z;
  next_fresh : Z;
  capacity : Z;
}.

Inductive AllocError :=
| Exhausted (next_fresh capacity : Z)
| FreeListSlotOccupied (idx : Z)
| SlotRetired (idx : Z).

Inductive FreeError :=
| OutOfRange (idx capacity : Z)
| AlreadyRetired (idx : Z).

(** [Vec::pop]. *)
Definition pop {A} (l : list A) : option (A * list A) :=
  match rev l with [] => None | x :: l' => Some (x, rev l') end.

Definition empty (capacity : Z) : SlotAllocator :=
  {| free_list := []; next_fresh := 0; capacity := capacity |}.

Definition slot_used (s : Slot) : bool :=
  is_occupied s || is_pending_write s || (0 <? slot_version (metadata s)).

(** The two passes of [rebuild_from_arena]. *)
Definition find_boundary (arena : ArenaFile) (cap : Z) : option Z :=
  foldl (fun acc idx =>
    next_fresh ← acc;
    s ← slot arena idx;
    Some (if slot_used s then idx + 1 else next_fresh)) (Some 0) (seqZ 0 cap).

Definition collect_free (arena : ArenaFile) (next_fresh : Z) : option (list Z) :=
  foldl (fun acc idx =>
    free_list ← acc;
    s ← slot arena idx;
    Some (if negb (is_occupied s) then free_list ++ [idx] else free_list))
    (Some []) (seqZ 0 next_fresh).

Definition rebuild_from_arena (arena : ArenaFile) : option SlotAllocator :=
  let cap := capacity_slots arena in
  next_fresh ← find_boundary arena cap;
  free_list ← collect_free arena next_fresh;
  Some {| free_list := free_list; next_fresh := next_fresh; capacity := cap |}.

Definition free_count (al : SlotAllocator) : nat := length (free_list al).
Definition used_count (al : SlotAllocator) : Z :=
  wrap 64 (next_fresh al - Z.of_nat (length (free_list al))).

Section ops.
Context `{Crc32c}.

(** Step 1 of [alloc]: pick a slot, with the allocator it leaves. *)
Definition pick (al : SlotAllocator) (arena : ArenaFile)
  : option (SlotAllocator * result Z AllocError) :=
  match pop (free_list al) with
  | Some (idx, rest) =>
    let al := {| free_list := rest; next_fresh := next_fresh al; capacity := capacity al |} in
    s ← slot arena idx;
    Some (al, if is_occupied s then Err (FreeListSlotOccupied idx) else Ok idx)
  | None =>
    if next_fresh al <? capacity al then
      Some ({| free_list := free_list al; next_fresh := wrap 64 (next_fresh al + 1);
               capacity := capacity al |}, Ok (next_fresh al))
    else Some (al, Err (Exhausted (next_fresh al) (capacity al)))
  end.

Definition alloc (al : SlotAllocator) (arena : ArenaFile)
  : option (SlotAllocator * ArenaFile * result (Z * Z) AllocError) :=
  '(al, r) ← pick al arena;
  match r with
  | Err e => Some (al, arena, Err e)
  | Ok idx =>
    s ← slot arena idx;
    let current := slot_version (metadata s) in
    if current =? U32_MAX then Some (al, arena, Err (SlotRetired idx)) else
    let new_version := current + 1 in
    arena ← slot_mut arena idx (fun s => refresh_crc (set_flag flags.PENDING_WRITE true s));
    Some (al, arena, Ok (idx, new_version))
  end.

Definition free (al : SlotAllocator) (arena : ArenaFile) (idx : Z)
  : option (SlotAllocator * ArenaFile * result unit FreeError) :=
  if capacity al <=? idx then Some (al, arena, Err (OutOfRange idx (capacity al))) else
  s ← slot arena idx;
  if slot_version (metadata s) =? U32_MAX then Some (al, arena, Err (AlreadyRetired idx)) else
  arena ← slot_mut arena idx (fun s => refresh_crc (with_meta (meta_flags 0) s));
  Some ({| free_list := free_list al ++ [idx]; next_fresh := next_fresh al;
           capacity := capacity al |}, arena, Ok tt).
End ops.

Definition version_of (arena : ArenaFile) (idx : Z) : option Z :=
  s ← slot arena idx; Some (slot_version (metadata s)).

Definition on_capacity_grow (al : SlotAllocator) (new_capacity : Z) : option SlotAllocator :=
  if capacity al <=? new_capacity then
    Some {| free_list := free_list al; next_fresh := next_fresh al; capacity := new_capacity |}
  else None.

(** ** Invariant *)

(** Slot [i] exists and holds a live or tombstoned memory. *)
Definition occupied (arena : ArenaFile) (i : Z) : bool :=
  match slot arena i with Some s => is_occupied s | None => false end.

Record alloc_wf (al : SlotAllocator) (arena : ArenaFile) : Prop := {
  aw_capacity : capacity al = capacity_slots arena;
  aw_fresh : 0 <= next_fresh al <= capacity al;
  aw_nodup : NoDup (free_list al);
  aw_free : forall i, i ∈ free_list al -> 0 <= i < next_fresh al /\ occupied arena i = false;
  aw_unused : forall i s, next_fresh al <= i -> slot arena i = Some s -> slot_used s = false;
}.

(** Free slots and slots in use partition [0, next_fresh). *)
Lemma free_count_le al arena : alloc_wf al arena -> Z.of_nat (free_count al) <= next_fresh al.
Proof.
  intros [_ Hf Hn Hl _]. unfold free_count.
  assert (free_list al ⊆ seqZ 0 (next_fresh al)) as Hsub.
  { intros i Hi. apply elem_of_seqZ. apply Hl in Hi as [? _]. lia. }
  pose proof (NoDup_submseteq _ _ Hn Hsub) as Hs.
  apply submseteq_length in Hs. rewrite length_seqZ in Hs. lia.
Qed.

Lemma pop_snoc {A} (l : list A) x : pop (l ++ [x]) = Some (x, l).
Proof. unfold pop. rewrite rev_app_distr; cbn. by rewrite rev_involutive. Qed.

Lemma pop_inv {A} (l : list A) x l' : pop l = Some (x, l') -> l = l' ++ [x].
Proof.
  unfold pop. destruct (rev l) as [|y k] eqn:E; [done|]. intros [= -> <-].
  rewrite <- (rev_involutive l), E. done.
Qed.

Lemma pop_None {A} (l : list A) : pop l = None -> l = [].
Proof.
  unfold pop. destruct (rev l) as [|y k] eqn:E; [|done]. intros _.
  by rewrite <- (rev_involutive l), E.
Qed.
(** ** Rebuilding *)

Section rebuild.
Context `{CRC : Crc32c} (arena : ArenaFile) (Harena : arena_wf arena).

Lemma find_boundary_spec n :
  Z.of_nat n <= capacity_slots arena ->
  exists b, find_boundary arena (Z.of_nat n) = Some b /\ 0 <= b <= Z.of_nat n
    /\ (forall i s, b <= i < Z.of_nat n -> slot arena i = Some s -> slot_used s = false)
    /\ (0 < b -> exists s, slot arena (b - 1) = Some s /\ slot_used s = true).
Proof using Harena.
  induction n as [|n IH]; intros Hn.
  { exists 0. split_and!; [done|lia..|intros; lia|lia]. }
  destruct IH as (b & E & Hb & Hun & Hus); [lia|].
  destruct (slot_lookup arena (Z.of_nat n) Harena) as (s & Es & _); [lia|].
  unfold find_boundary in *. rewrite seqZ_S, Z.add_0_l, foldl_app, E.
  cbn [foldl mbind option_bind]. rewrite Es; cbn [mbind option_bind].
  destruct (slot_used s) eqn:Eu; eexists; (split; [reflexivity|]).
  - split_and!; [lia..|intros; lia|]. intros _.
    exists s. split; [|done]. rewrite <- Es. f_equal. lia.
  - split_and!; [lia..| |done]. intros i s' Hi Es'.
    destruct (decide (i = Z.of_nat n)) as [->|]; [congruence|]. apply (Hun i); [lia|done].
Qed.

Lemma collect_free_spec n :
  Z.of_nat n <= capacity_slots arena ->
  collect_free arena (Z.of_nat n)
  = Some (filter (fun i => occupied arena i = false) (seqZ 0 (Z.of_nat n))).
Proof using Harena.
  induction n as [|n IH]; intros Hn; [done|].
  destruct (slot_lookup arena (Z.of_nat n) Harena) as (s & Es & _); [lia|].
  unfold collect_free in *. rewrite seqZ_S, Z.add_0_l, foldl_app, IH, filter_app by lia.
  cbn [foldl mbind option_bind]. rewrite Es; cbn [mbind option_bind].
  rewrite filter_cons, filter_nil.
  assert (occupied arena (Z.of_nat n) = is_occupied s) as Eo
    by (unfold occupied; by rewrite Es).
  destruct (is_occupied s); cbn [negb]; case_decide; try congruence. by rewrite app_nil_r.
Qed.

Lemma rebuild_spec :
  exists al, rebuild_from_arena arena = Some al /\ alloc_wf al arena
    /\ free_list al = filter (fun i => occupied arena i = false) (seqZ 0 (next_fresh al))
    /\ (0 < next_fresh al ->
        exists s, slot arena (next_fresh al - 1) = Some s /\ slot_used s = true).
Proof using Harena.
  pose proof (wf_capacity_range arena Harena) as Hc. unfold rebuild_from_arena.
  destruct (find_boundary_spec (Z.to_nat (capacity_slots arena))) as (b & E & Hb & Hun & Hus);
    [lia|]. rewrite Z2Nat.id in E, Hb, Hun by lia. rewrite E; cbn [mbind option_bind].
  pose proof (collect_free_spec (Z.to_nat b)) as Ec. rewrite Z2Nat.id in Ec by lia.
  rewrite Ec by lia; cbn [mbind option_bind]. eexists. split; [reflexivity|].
  split_and!; [split; cbn|done|done]; try lia.
  - apply NoDup_filter, NoDup_seqZ.
  - intros i Hi. apply list_elem_of_filter in Hi as [? Hi]. apply elem_of_seqZ in Hi.
    split; [lia|done].
  - intros i s Hi Es. destruct (decide (i < capacity_slots arena)); [by apply (Hun i)|].
    unfold slot in Es. by rewrite (proj2 (Z.ltb_ge _ _)) in Es by lia.
Qed.
End rebuild.

(** ** Allocating and freeing *)

Section ops_facts.
Context `{CRC : Crc32c} `{!Crc32cLaws CRC}.

Definition pending (s : Slot) : Slot := refresh_crc (set_flag flags.PENDING_WRITE true s).
Definition freed (s : Slot) : Slot := refresh_crc (with_meta (meta_flags 0) s).

Lemma pending_wf s : Slot_wf s -> Slot_wf (pending s).
Proof using Crc32cLaws0. intros. apply refresh_crc_wf, set_flag_on_wf; [by vm_compute|done]. Qed.

Lemma meta_flags_wf f s : u32 f -> Slot_wf s -> Slot_wf (with_meta (meta_flags f) s).
Proof. intros ? [? ? [? ? ? ? ? ? ?]]. by split; [done..|]; split. Qed.

Lemma meta_version_wf v s : u32 v -> Slot_wf s -> Slot_wf (with_meta (meta_version v) s).
Proof. intros ? [? ? [? ? ? ? ? ? ?]]. by split; [done..|]; split. Qed.

Lemma freed_wf s : Slot_wf s -> Slot_wf (freed s).
Proof using Crc32cLaws0. intros. apply refresh_crc_wf, meta_flags_wf; [by vm_compute|done]. Qed.

Lemma pending_occupied s : is_occupied (pending s) = is_occupied s.
Proof.
  change (is_occupied (pending s)) with (has_flag flags.OCCUPIED
    (set_flag flags.PENDING_WRITE true s)).
  rewrite has_flag_lor. apply orb_false_r.
Qed.

(** A slot update that keeps [j] apart keeps its occupancy. *)
Lemma occupied_frame arena arena' j :
  slot arena' j = slot arena j -> occupied arena' j = occupied arena j.
Proof. unfold occupied. by intros ->. Qed.

Lemma alloc_wf_frame al arena arena' idx :
  alloc_wf al arena -> capacity_slots arena' = capacity_slots arena ->
  0 <= idx < next_fresh al ->
  (forall j, 0 <= j -> j <> idx -> slot arena' j = slot arena j) ->
  (idx ∈ free_list al -> occupied arena' idx = false) -> alloc_wf al arena'.
Proof.
  intros [Hc Hf Hn Hl Hu] Ec Hi Hj Ho. split; try done; [by rewrite Ec| |].
  - intros i Hin. destruct (Hl i Hin) as [? E]. split; [done|].
    destruct (decide (i = idx)) as [->|]; [by apply Ho|].
    rewrite <- E. apply occupied_frame, Hj; [lia|done].
  - intros i s Hge. rewrite Hj by lia. by apply Hu.
Qed.

(** What [pick] does. *)
Lemma pick_spec al arena :
  arena_wf arena -> alloc_wf al arena ->
  exists al' r, pick al arena = Some (al', r) /\ alloc_wf al' arena /\
    match r with
    | Ok idx => 0 <= idx < next_fresh al' /\ occupied arena idx = false
      /\ (idx ∉ free_list al') /\ (idx ∈ free_list al \/ idx = next_fresh al)
    | Err e => e = Exhausted (next_fresh al) (capacity al) /\ al' = al
      /\ free_list al = [] /\ next_fresh al = capacity al
    end.
Proof.
  intros Ha Hw. pose proof Hw as [Hc Hf Hn Hl Hu]. pose proof (wf_capacity_range _ Ha) as Hr.
  unfold pick. destruct (pop (free_list al)) as [[idx rest]|] eqn:Ep.
  - apply pop_inv in Ep. rewrite Ep in *.
    destruct (Hl idx) as [Hi Ho]; [apply elem_of_app; right; by left|].
    destruct (slot_lookup arena idx Ha) as (s & Es & _); [lia|].
    unfold occupied in Ho. rewrite Es in Ho. rewrite Es; cbn [mbind option_bind]. rewrite Ho.
    apply NoDup_app in Hn as (Hn1 & Hn2 & _). eexists _, _. split; [reflexivity|]. split.
    + split; cbn; try done. intros i Hin. apply Hl, elem_of_app. by left.
    + cbn. unfold occupied. rewrite Es. split; [lia|]. split; [done|]. split.
      * intros Hin. apply (Hn2 idx Hin). by left.
      * left. apply elem_of_app. right. by left.
  - apply pop_None in Ep. destruct (Z.ltb_spec (next_fresh al) (capacity al)).
    + rewrite wrap_small by (unfold uint, max_capacity in *; lia).
      destruct (slot_lookup arena (next_fresh al) Ha) as (s & Es & _); [lia|].
      assert (slot_used s = false) as Eu by (apply (Hu (next_fresh al)); [lia|done]).
      eexists _, _. split; [reflexivity|]. split; [split; cbn; try done; try lia|cbn].
      * intros i Hin. apply Hl in Hin as [? ?]. split; [lia|done].
      * intros i s' Hi. apply Hu. lia.
      * rewrite Ep. split; [lia|]. split; [|split; [apply not_elem_of_nil|by right]].
        unfold occupied. rewrite Es. unfold slot_used in Eu. by destruct (is_occupied s).
    + eexists _, _. split; [reflexivity|]. split; [done|]. split_and!; try done. lia.
Qed.

Lemma alloc_spec al arena :
  arena_wf arena -> alloc_wf al arena ->
  exists al' arena' r, alloc al arena = Some (al', arena', r)
    /\ arena_wf arena' /\ alloc_wf al' arena' /\ capacity_slots arena' = capacity_slots arena /\
    match r with
    | Ok (idx, v) =>
      0 <= idx < next_fresh al' /\ (idx ∉ free_list al') /\ occupied arena idx = false
      /\ (idx ∈ free_list al \/ idx = next_fresh al)
      /\ (exists s, slot arena idx = Some s /\ v = slot_version (metadata s) + 1
          /\ 1 <= v <= U32_MAX /\ slot arena' idx = Some (pending s))
      /\ (forall j, 0 <= j -> j <> idx -> slot arena' j = slot arena j)
    | Err (Exhausted n c) =>
      free_list al = [] /\ next_fresh al = capacity al /\ al' = al /\ arena' = arena
      /\ n = next_fresh al /\ c = capacity al
    | Err (FreeListSlotOccupied _) => False
    | Err (SlotRetired idx) =>
      arena' = arena /\ occupied arena idx = false /\ version_of arena idx = Some U32_MAX
    end.
Proof using Crc32cLaws0.
  intros Ha Hw. destruct (pick_spec al arena Ha Hw) as (al' & r & Ep & Hw' & Hr).
  unfold alloc. rewrite Ep; cbn [mbind option_bind].
  destruct r as [idx|e].
  2: { destruct Hr as (-> & -> & ? & ?). eexists _, _, _. split; [reflexivity|].
       by split_and!. }
  destruct Hr as (Hi & Ho & Hni & Hor).
  pose proof (aw_fresh _ _ Hw'). pose proof (aw_capacity _ _ Hw').
  destruct (slot_lookup arena idx Ha) as (s & Es & _ & Hs); [lia|].
  rewrite Es; cbn [mbind option_bind].
  destruct (Z.eqb_spec (slot_version (metadata s)) U32_MAX) as [Ev|Ev].
  { eexists _, _, _. split; [reflexivity|]. split_and!; try done.
    unfold version_of. rewrite Es; cbn. by rewrite Ev. }
  change (fun s => refresh_crc (set_flag flags.PENDING_WRITE true s)) with pending.
  destruct (slot_mut arena idx pending) as [arena'|] eqn:Em.
  2: { unfold slot_mut in Em. by rewrite Es in Em. }
  destruct (slot_mut_wf arena idx pending arena' Ha pending_wf Em) as (Ha' & _ & Ec & _).
  destruct (slot_mut_slot arena idx pending arena' ltac:(lia) Em) as (s0 & Es0 & Es' & Hj).
  assert (s0 = s) as -> by congruence.
  cbn [mbind option_bind].
  eexists _, _, _. split; [reflexivity|]. split_and!; try done; try lia.
  - apply (alloc_wf_frame al' arena arena' idx); try done.
  - exists s. split_and!; try done; destruct Hs as [_ _ [Hv _ _ _ _ _ _]];
      unfold uint, U32_MAX in *; lia.
Qed.

Lemma free_spec al arena idx :
  arena_wf arena -> alloc_wf al arena -> 0 <= idx < next_fresh al -> idx ∉ free_list al ->
  exists al' arena' r, free al arena idx = Some (al', arena', r)
    /\ arena_wf arena' /\ alloc_wf al' arena' /\ capacity_slots arena' = capacity_slots arena /\
    match r with
    | Ok _ => free_list al' = free_list al ++ [idx] /\ next_fresh al' = next_fresh al
      /\ (exists s, slot arena idx = Some s /\ slot arena' idx = Some (freed s))
      /\ (forall j, 0 <= j -> j <> idx -> slot arena' j = slot arena j)
    | Err e => e = AlreadyRetired idx /\ al' = al /\ arena' = arena
      /\ version_of arena idx = Some U32_MAX
    end.
Proof using Crc32cLaws0.
  intros Ha Hw Hi Hni. pose proof Hw as [Hc Hf Hn Hl Hu].
  unfold free. rewrite (proj2 (Z.leb_gt _ _)) by lia.
  destruct (slot_lookup arena idx Ha) as (s & Es & _ & Hs); [lia|].
  rewrite Es; cbn [mbind option_bind].
  destruct (Z.eqb_spec (slot_version (metadata s)) U32_MAX) as [Ev|Ev].
  { eexists _, _, _. split; [reflexivity|]. split_and!; try done.
    unfold version_of. rewrite Es; cbn. by rewrite Ev. }
  change (fun s => refresh_crc (with_meta (meta_flags 0) s)) with freed.
  destruct (slot_mut arena idx freed) as [arena'|] eqn:Em.
  2: { unfold slot_mut in Em. by rewrite Es in Em. }
  destruct (slot_mut_wf arena idx freed arena' Ha freed_wf Em) as (Ha' & _ & Ec & _).
  destruct (slot_mut_slot arena idx freed arena' ltac:(lia) Em) as (s0 & Es0 & Es' & Hj).
  assert (s0 = s) as -> by congruence.
  cbn [mbind option_bind].
  eexists _, _, _. split; [reflexivity|]. split_and!; try done; [|by exists s].
  assert (occupied arena' idx = false) as Ho by (unfold occupied; by rewrite Es').
  split; cbn; [by rewrite Ec|done| | |].
  - apply NoDup_app. split_and!; [done| |apply NoDup_singleton].
    intros i Hin ->%list_elem_of_singleton. done.
  - intros i [Hin| ->%list_elem_of_singleton]%elem_of_app; [|done].
    destruct (Hl i Hin) as [? E]. split; [done|]. rewrite <- E.
    apply occupied_frame, Hj; [lia|]. by intros ->.
  - intros i s' Hge. rewrite Hj by lia. by apply Hu.
Qed.
End ops_facts.

(** ** Histories: allocations, writes, frees, restarts and growth in any order *)

Section history.
Context `{CRC : Crc32c} `{!Crc32cLaws CRC}.

(** The allocator, the arena, and the slots that are handed out: granted by
    [alloc], or found occupied at a restart, and not freed. *)
Record State := { st_alloc : SlotAllocator; st_arena : ArenaFile; st_owned : list Z }.

Definition owned_after (r : result (Z * Z) AllocError) (owned : list Z) : list Z :=
  match r with Ok (idx, _) => idx :: owned | Err _ => owned end.

Definition occupied_slots (ar : ArenaFile) : list Z :=
  filter (fun i => occupied ar i = true) (seqZ 0 (capacity_slots ar)).

(** After a restart: the allocator is rebuilt, the occupied slots are in use. *)
Definition restarted (al : SlotAllocator) (ar : ArenaFile) : State :=
  {| st_alloc := al; st_arena := ar; st_owned := occupied_slots ar |}.

(** A caller writes only slots that are handed out (whatever it writes there:
    the doc of [alloc] leaves the version, the vector and the flags to it), and
    frees only such slots ("a previously-allocated slot", says the doc of
    [free], which does not check it). *)
Inductive step : State -> State -> Prop :=
| step_alloc al ar o al' ar' r :
    alloc al ar = Some (al', ar', r) ->
    step {| st_alloc := al; st_arena := ar; st_owned := o |}
         {| st_alloc := al'; st_arena := ar'; st_owned := owned_after r o |}
| step_write al ar o idx f ar' :
    idx ∈ o -> (forall s, Slot_wf s -> Slot_wf (f s)) -> slot_mut ar idx f = Some ar' ->
    step {| st_alloc := al; st_arena := ar; st_owned := o |}
         {| st_alloc := al; st_arena := ar'; st_owned := o |}
| step_free al ar o idx al' ar' r :
    idx ∈ o -> free al ar idx = Some (al', ar', r) ->
    step {| st_alloc := al; st_arena := ar; st_owned := o |}
         {| st_alloc := al'; st_arena := ar';
            st_owned := match r with Ok _ => filter (fun i => i <> idx) o | Err _ => o end |}
| step_restart al ar o al' :
    rebuild_from_arena ar = Some al' ->
    step {| st_alloc := al; st_arena := ar; st_owned := o |} (restarted al' ar)
| step_grow al ar o sys n ar' r al' :
    capacity_slots ar < n <= max_capacity -> u64 (unix_nanos_now sys) ->
    sys_fallocate sys = Ok tt -> sys_mremap sys = Ok tt ->
    grow_to sys ar n = (ar', r) -> on_capacity_grow al n = Some al' ->
    step {| st_alloc := al; st_arena := ar; st_owned := o |}
         {| st_alloc := al'; st_arena := ar'; st_owned := o |}.

(** No slot below the boundary is lost: it is handed out, free, or its versions
    are used up. *)
Record inv (st : State) : Prop := {
  inv_arena : arena_wf (st_arena st);
  inv_tail : tail (st_arena st) = [];
  inv_alloc : alloc_wf (st_alloc st) (st_arena st);
  inv_nodup : NoDup (st_owned st);
  inv_owned : forall i, i ∈ st_owned st -> 0 <= i < next_fresh (st_alloc st) /\ i ∉ free_list (st_alloc st);
  inv_cover : forall i, 0 <= i < next_fresh (st_alloc st) ->
    i ∈ st_owned st \/ i ∈ free_list (st_alloc st) \/ version_of (st_arena st) i = Some U32_MAX;
}.

Lemma version_frame ar ar' i : slot ar' i = slot ar i -> version_of ar' i = version_of ar i.
Proof. unfold version_of. by intros ->. Qed.

Lemma alloc_tail al ar al' ar' r :
  arena_wf ar -> alloc_wf al ar -> alloc al ar = Some (al', ar', r) -> tail ar' = tail ar.
Proof using Crc32cLaws0.
  intros Ha Hw. unfold alloc. destruct (pick al ar) as [[al1 [idx|e]]|]; cbn; [| |done].
  2: { by intros [= _ <- _]. }
  destruct (slot ar idx) as [s|]; cbn; [|done]. destruct (_ =? U32_MAX); [by intros [= _ <- _]|].
  destruct (slot_mut ar idx _) as [a1|] eqn:Em; cbn; [|done]. intros [= _ <- _].
  by eapply (slot_mut_wf ar idx pending a1 Ha pending_wf) in Em as (_ & ? & _).
Qed.

Lemma free_tail al ar idx al' ar' r :
  arena_wf ar -> free al ar idx = Some (al', ar', r) -> tail ar' = tail ar.
Proof using Crc32cLaws0.
  intros Ha. unfold free. destruct (_ <=? _); [by intros [= _ <- _]|].
  destruct (slot ar idx) as [s|]; cbn; [|done]. destruct (_ =? U32_MAX); [by intros [= _ <- _]|].
  destruct (slot_mut ar idx _) as [a1|] eqn:Em; cbn; [|done]. intros [= _ <- _].
  by eapply (slot_mut_wf ar idx freed a1 Ha freed_wf) in Em as (_ & ? & _).
Qed.

(** The slot that [alloc] takes, from the end of the free list or fresh. *)
Definition taken (al al' : SlotAllocator) (idx : Z) : Prop :=
  free_list al = free_list al' ++ [idx] /\ next_fresh al' = next_fresh al
  \/ free_list al' = free_list al /\ idx = next_fresh al /\ next_fresh al' = next_fresh al + 1.

Lemma alloc_takes al ar al' ar' r :
  arena_wf ar -> alloc_wf al ar -> alloc al ar = Some (al', ar', r) ->
  match r with Ok (idx, _) | Err (SlotRetired idx) => taken al al' idx | _ => True end.
Proof.
  intros Ha Hw. pose proof (wf_capacity_range _ Ha) as Hr. pose proof Hw as [Hc Hf _ _ _].
  assert (forall al1 idx, pick al ar = Some (al1, Ok idx) -> taken al al1 idx) as Hp.
  { intros al1 idx. unfold pick. destruct (pop (free_list al)) as [[i rest]|] eqn:Ep.
    - apply pop_inv in Ep. destruct (slot ar i) as [s|]; cbn; [|done]. destruct (is_occupied s); [done|].
      intros [= <- <-]. by left.
    - destruct (Z.ltb_spec (next_fresh al) (capacity al)); [|done]. intros [= <- <-]. right. cbn.
      rewrite wrap_small by (unfold uint, max_capacity in *; lia). done. }
  unfold alloc. destruct (pick al ar) as [[al1 [idx|e]]|] eqn:Ep; cbn; [| |done].
  - specialize (Hp _ _ eq_refl). destruct (slot ar idx) as [s|]; cbn; [|done].
    destruct (_ =? U32_MAX); [by intros [= <- _ <-]|].
    destruct (slot_mut ar idx _) as [a1|]; cbn; [|done]. by intros [= <- _ <-].
  - intros [= <- _ <-]. unfold pick in Ep. destruct (pop (free_list al)) as [[i rest]|].
    + destruct (slot ar i) as [s|]; cbn in Ep; [|done]. by destruct (is_occupied s); simplify_eq.
    + by destruct (_ <? _); simplify_eq.
Qed.

(** Who is handed out, free or used up when [idx] is taken. *)
Lemma taken_parts al ar al' o idx :
  inv {| st_alloc := al; st_arena := ar; st_owned := o |} -> taken al al' idx ->
  (idx ∉ o) /\ (forall i, i ∈ o -> 0 <= i < next_fresh al' /\ i ∉ free_list al')
  /\ forall i, 0 <= i < next_fresh al' -> i <> idx ->
       i ∈ o \/ i ∈ free_list al' \/ version_of ar i = Some U32_MAX.
Proof.
  intros [_ _ Hw _ Ho Hc] Ht. cbn in *. destruct Ht as [[El En]|(El & -> & En)]; rewrite En.
  - split_and!.
    + intros Hin. apply Ho in Hin as [_ Hin]. apply Hin. rewrite El. apply elem_of_app. right. by left.
    + intros i Hin. apply Ho in Hin as [? Hin]. split; [done|]. intros Hf. apply Hin. rewrite El.
      apply elem_of_app. by left.
    + intros i Hi Hne. destruct (Hc i Hi) as [?|[Hf|?]]; [by left| |by do 2 right].
      rewrite El in Hf. apply elem_of_app in Hf as [Hf|Hf%list_elem_of_singleton]; [auto|done].
  - rewrite El. split_and!.
    + intros Hin. apply Ho in Hin as [? _]. lia.
    + intros i Hin. apply Ho in Hin as [? ?]. split; [lia|done].
    + intros i Hi Hne. apply Hc. lia.
Qed.

Lemma inv_alloc_step al ar o al' ar' r :
  inv {| st_alloc := al; st_arena := ar; st_owned := o |} -> alloc al ar = Some (al', ar', r) ->
  inv {| st_alloc := al'; st_arena := ar'; st_owned := owned_after r o |}.
Proof using Crc32cLaws0.
  intros Hinv E. pose proof Hinv as [Ia It Iw In Io Ic]. cbn in *.
  pose proof (alloc_tail _ _ _ _ _ Ia Iw E) as Ht. pose proof (alloc_takes _ _ _ _ _ Ia Iw E) as Hk.
  destruct (alloc_spec al ar Ia Iw) as (al1 & ar1 & r1 & E1 & Ha' & Hw' & Ec & Hr).
  rewrite E in E1. simplify_eq. destruct r1 as [[idx v]|[n c|i|i]]; cbn [owned_after].
  - destruct Hr as (Hi & Hni & _ & _ & _ & Hj). destruct (taken_parts _ _ _ _ _ Hinv Hk) as (T1 & T2 & T3).
    split; cbn; try done; [congruence|by constructor| |].
    + intros i [->|Hin]%elem_of_cons; [done|by apply T2].
    + intros i Hin. destruct (decide (i = idx)) as [->|Hne]; [left; by left|].
      rewrite (version_frame ar ar1) by (apply Hj; [lia|done]). destruct (T3 i Hin Hne) as [?|?]; [left; by right|by right].
  - destruct Hr as (_ & _ & -> & -> & _). done.
  - done.
  - destruct Hr as (-> & _ & Hv). destruct (taken_parts _ _ _ _ _ Hinv Hk) as (T1 & T2 & T3).
    split; cbn; try done. intros j Hj. destruct (decide (j = i)) as [->|Hne]; [by do 2 right|by apply T3].
Qed.

Lemma inv_write_step al ar o idx f ar' :
  inv {| st_alloc := al; st_arena := ar; st_owned := o |} ->
  idx ∈ o -> (forall s, Slot_wf s -> Slot_wf (f s)) -> slot_mut ar idx f = Some ar' ->
  inv {| st_alloc := al; st_arena := ar'; st_owned := o |}.
Proof.
  intros [Ia It Iw In Io Ic] Ho Hf Em. cbn in *. destruct (Io idx Ho) as [Hi Hni].
  destruct (slot_mut_wf ar idx f ar' Ia Hf Em) as (Ha' & Et & Ec & _).
  destruct (slot_mut_slot ar idx f ar' ltac:(lia) Em) as (s & Es & Es' & Hj).
  split; cbn; try done; [congruence|by apply (alloc_wf_frame al ar ar' idx)|].
  intros i Hin. destruct (decide (i = idx)) as [->|Hne]; [by left|].
  rewrite (version_frame ar ar') by (apply Hj; [lia|done]). by apply Ic.
Qed.

Lemma inv_free_step al ar o idx al' ar' r :
  inv {| st_alloc := al; st_arena := ar; st_owned := o |} -> idx ∈ o -> free al ar idx = Some (al', ar', r) ->
  inv {| st_alloc := al'; st_arena := ar';
         st_owned := match r with Ok _ => filter (fun i => i <> idx) o | Err _ => o end |}.
Proof using Crc32cLaws0.
  intros [Ia It Iw In Io Ic] Ho E. cbn in *. destruct (Io idx Ho) as [Hi Hni].
  pose proof (free_tail _ _ _ _ _ _ Ia E) as Ht.
  destruct (free_spec al ar idx Ia Iw Hi Hni) as (al1 & ar1 & r1 & E1 & Ha' & Hw' & Ec & Hr).
  rewrite E in E1. simplify_eq. destruct r1 as [u|e].
  2: { destruct Hr as (_ & -> & -> & _). by split. }
  destruct Hr as (El & En & _ & Hj). split; cbn; rewrite ?El, ?En; try done; [congruence|by apply NoDup_filter| |].
  - intros i [Hne Hin]%list_elem_of_filter. destruct (Io i Hin) as [? Hnf]. split; [done|].
    by intros [?|?%list_elem_of_singleton]%elem_of_app.
  - intros i Hin. rewrite elem_of_app, list_elem_of_singleton, list_elem_of_filter.
    destruct (decide (i = idx)) as [->|Hne]; [by auto|].
    rewrite (version_frame ar ar1) by (apply Hj; [lia|done]). destruct (Ic i Hin) as [?|[?|?]]; auto.
Qed.

(** A rebuilt allocator: what is not occupied below the boundary is free. *)
Lemma inv_restarted ar al :
  arena_wf ar -> tail ar = [] -> rebuild_from_arena ar = Some al -> inv (restarted al ar).
Proof.
  intros Ha Ht E. destruct (rebuild_spec ar Ha) as (al1 & E1 & Hw & Ef & _). rewrite E in E1. simplify_eq.
  pose proof Hw as [Hc Hf _ _ Hu].
  split; cbn; try done; [apply NoDup_filter, NoDup_seqZ| |].
  - intros i [Ho Hi%elem_of_seqZ]%list_elem_of_filter.
    destruct (slot_lookup ar i Ha) as (s & Es & _); [lia|].
    assert (is_occupied s = true) as Eo by (unfold occupied in Ho; by rewrite Es in Ho).
    assert (i < next_fresh al1).
    { destruct (decide (i < next_fresh al1)); [done|]. pose proof (Hu i s ltac:(lia) Es) as Hus.
      unfold slot_used in Hus. by rewrite Eo in Hus. }
    split; [lia|]. rewrite Ef. intros [Hn _]%list_elem_of_filter. congruence.
  - intros i Hi. unfold occupied_slots. rewrite Ef, !list_elem_of_filter, !elem_of_seqZ.
    destruct (occupied ar i); [left; split; [done|lia]|right; left; split; [done|lia]].
Qed.

Lemma inv_grow_step al ar o sys n ar' r al' :
  inv {| st_alloc := al; st_arena := ar; st_owned := o |} ->
  capacity_slots ar < n <= max_capacity -> u64 (unix_nanos_now sys) ->
  sys_fallocate sys = Ok tt -> sys_mremap sys = Ok tt ->
  grow_to sys ar n = (ar', r) -> on_capacity_grow al n = Some al' ->
  inv {| st_alloc := al'; st_arena := ar'; st_owned := o |}.
Proof using Crc32cLaws0.
  intros [Ia It Iw In Io Ic] Hn Hu Hf Hm Eg Eo. cbn in *.
  pose proof (wf_file_size ar Ia). pose proof (wf_slots_len ar Ia) as Hlen.
  destruct (grow_to_ok sys ar 0 n) as (a1 & E1 & Ha' & Ht' & Es & Ec & _);
    [done||(unfold max_capacity in *; lia)..|].
  rewrite Eg in E1. injection E1 as -> _.
  unfold on_capacity_grow in Eo. destruct (Z.leb_spec (capacity al) n); [|done].
  injection Eo as <-. pose proof Iw as [Jc Jf Jn Jl Ju].
  assert (forall i, 0 <= i < capacity_slots ar -> slot a1 i = slot ar i) as Hold.
  { intros i Hi. unfold slot. rewrite !(proj2 (Z.ltb_lt _ _)) by lia. rewrite Es, lookup_app_l by lia. done. }
  assert (forall i s, capacity_slots ar <= i -> slot a1 i = Some s -> s = zeroed) as Hnew.
  { intros i s Hi. unfold slot. destruct (Z.ltb_spec i (capacity_slots a1)); [|done].
    rewrite Es. intros [E|[_ E]]%lookup_app_Some; [apply lookup_lt_Some in E; lia|].
    by apply lookup_replicate in E as [? _]. }
  split; cbn; try done; [split; cbn; try done; [lia| |]|].
  - intros i Hin. destruct (Jl i Hin) as [Hi Ho]. split; [done|]. rewrite <- Ho.
    apply occupied_frame, Hold. lia.
  - intros i s Hi E. destruct (decide (i < capacity_slots ar)).
    + rewrite Hold in E by lia. by eapply Ju.
    + by rewrite (Hnew i s) by (done || lia).
  - intros i Hi. rewrite (version_frame ar a1) by (apply Hold; lia). by apply Ic.
Qed.

Lemma inv_step st st' : inv st -> step st st' -> inv st'.
Proof using Crc32cLaws0.
  intros Hinv Hst.
  destruct Hst; eauto using inv_alloc_step, inv_write_step, inv_free_step, inv_grow_step.
  apply inv_restarted; [apply (inv_arena _ Hinv)|apply (inv_tail _ Hinv)|done].
Qed.

Lemma inv_steps st st' : rtc step st st' -> inv st -> inv st'.
Proof using Crc32cLaws0. induction 1; [done|]. intros. eauto using inv_step. Qed.

Lemma pending_used s : slot_used (pending s) = true.
Proof.
  unfold slot_used. change (is_pending_write (pending s)) with (has_flag flags.PENDING_WRITE
    (set_flag flags.PENDING_WRITE true s)). rewrite has_flag_lor.
  change (negb (Z.land flags.PENDING_WRITE flags.PENDING_WRITE =? 0)) with true.
  by rewrite !orb_true_r.
Qed.

Lemma pending_marked s : Slot_wf s -> is_pending_write (pending s) = true /\ is_valid (pending s) = true.
Proof using Crc32cLaws0.
  intros Hs. split.
  - change (is_pending_write (pending s)) with (has_flag flags.PENDING_WRITE
      (set_flag flags.PENDING_WRITE true s)). rewrite has_flag_lor. apply orb_true_r.
  - apply refresh_crc_valid, set_flag_on_wf; [by vm_compute|done].
Qed.

(** A granted allocation, from [alloc_spec]. *)
Lemma alloc_pending al ar al' ar' idx v :
  arena_wf ar -> alloc_wf al ar -> alloc al ar = Some (al', ar', Ok (idx, v)) ->
  arena_wf ar' /\ alloc_wf al' ar' /\ exists s, slot ar idx = Some s
    /\ slot ar' idx = Some (pending s) /\ v = slot_version (metadata s) + 1
    /\ 1 <= v <= U32_MAX /\ 0 <= idx < next_fresh al' /\ occupied ar idx = false
    /\ (forall j, 0 <= j -> j <> idx -> slot ar' j = slot ar j).
Proof using Crc32cLaws0.
  intros Ha Hw E. destruct (alloc_spec al ar Ha Hw) as (al1 & ar1 & r & E1 & Ha' & Hw' & _ & Hr).
  rewrite E in E1. simplify_eq. destruct Hr as (Hi & _ & Ho & _ & (s & ? & ? & ? & ?) & Hj).
  split; [done|]. split; [done|]. exists s. by do 6 (split; [done|]).
Qed.

(** C34: slots are handed out exclusively, and none is lost. After a restart
    over any well-formed arena, through any sequence of allocations, writes of
    the callers to slots that are handed out (whatever they write), frees of
    such slots, growth that succeeds and further restarts: the slots handed
    out are pairwise different and none of them is on the free list; [alloc]
    does not panic and does not find an occupied slot on the free list; a slot
    it grants is not handed out, gets the version after the stored one and is
    marked pending with a valid checksum while every other slot keeps its
    contents; and when it reports exhaustion, every slot of the arena is
    handed out or has used up its versions. (A slot granted and not marked
    occupied before a restart is granted again after it, possibly with the
    same version: [allocator_crash_keeps_version].) *)
Theorem allocator_exclusive ar al0 st :
  arena_wf ar -> tail ar = [] -> rebuild_from_arena ar = Some al0 -> rtc step (restarted al0 ar) st ->
  NoDup (st_owned st)
  /\ (forall i, i ∈ st_owned st -> 0 <= i < capacity_slots (st_arena st) /\ i ∉ free_list (st_alloc st))
  /\ exists al' arena' r, alloc (st_alloc st) (st_arena st) = Some (al', arena', r) /\
    match r with
    | Ok (idx, v) =>
      0 <= idx < capacity_slots (st_arena st) /\ (idx ∉ st_owned st)
      /\ version_of (st_arena st) idx = Some (v - 1) /\ v <= U32_MAX
      /\ (exists s, slot arena' idx = Some s /\ is_pending_write s = true /\ is_valid s = true)
      /\ (forall j, 0 <= j -> j <> idx -> slot arena' j = slot (st_arena st) j)
    | Err (Exhausted n c) =>
      forall i, 0 <= i < capacity_slots (st_arena st) ->
        i ∈ st_owned st \/ version_of (st_arena st) i = Some U32_MAX
    | Err (FreeListSlotOccupied _) => False
    | Err (SlotRetired idx) => (idx ∉ st_owned st) /\ version_of (st_arena st) idx = Some U32_MAX
    end.
Proof using Crc32cLaws0.
  intros Ha Ht E0 Hr. pose proof (inv_steps _ _ Hr (inv_restarted _ _ Ha Ht E0)) as Hi.
  destruct st as [al a o]. pose proof Hi as [Ia It Iw In Io Ic]. cbn in *.
  pose proof (aw_fresh _ _ Iw). pose proof (aw_capacity _ _ Iw).
  split_and!; [done|intros i [? ?]%Io; split; [lia|done]|].
  destruct (alloc_spec al a Ia Iw) as (al' & arena' & r & E & Ha' & Hw' & Ec & Hres).
  exists al', arena', r. split; [done|]. pose proof (alloc_takes _ _ _ _ _ Ia Iw E) as Hk.
  destruct r as [[idx v]|[n c|i|i]].
  - destruct Hres as (Hlt & _ & _ & _ & (s & Es & Ev & Hv & Es') & Hj).
    destruct (taken_parts _ _ _ _ _ Hi Hk) as (T1 & _ & _).
    pose proof (aw_fresh _ _ Hw'). pose proof (aw_capacity _ _ Hw').
    split_and!; try done; [lia..| | |].
    + unfold version_of. rewrite Es; cbn. f_equal. lia.
    + lia.
    + exists (pending s). split; [done|]. apply pending_marked. exact (slot_wf_of a idx s Ia Es).
  - destruct Hres as (El & En & _). intros i Hlt. destruct (Ic i) as [?|[Hf|?]]; [lia|by left| |by right].
    rewrite El in Hf. by apply not_elem_of_nil in Hf.
  - done.
  - destruct Hres as (_ & _ & Hv). by destruct (taken_parts _ _ _ _ _ Hi Hk) as (T1 & _ & _).
Qed.

(** A crash after [alloc] and before the slot is written does not skip a
    version: the restarted allocator has the slot on its free list with its
    version unchanged, and when the slot was a fresh one the very next
    [alloc] grants the same slot and version again. *)
Theorem allocator_crash_keeps_version al ar al' ar' idx v :
  arena_wf ar -> alloc_wf al ar -> alloc al ar = Some (al', ar', Ok (idx, v)) ->
  exists al2, rebuild_from_arena ar' = Some al2 /\ alloc_wf al2 ar'
    /\ idx ∈ free_list al2 /\ version_of ar' idx = Some (v - 1)
    /\ (idx = next_fresh al -> exists al3 ar3, alloc al2 ar' = Some (al3, ar3, Ok (idx, v))).
Proof using Crc32cLaws0.
  intros Ha Hw E. pose proof (alloc_pending al ar al' ar' idx v Ha Hw E)
    as (Ha' & Hw' & s & Es & Es' & Ev & Hv & Hlt & Ho & Hj).
  destruct (rebuild_spec ar' Ha') as (al2 & E2 & Hw2 & Ef & Hb). exists al2.
  assert (occupied ar' idx = false) as Ho'.
  { unfold occupied in *. rewrite Es'. rewrite Es in Ho. by rewrite pending_occupied. }
  assert (slot_used (pending s) = true) as Hus by apply pending_used.
  assert (idx < next_fresh al2) as Hi2.
  { destruct (decide (idx < next_fresh al2)); [done|].
    pose proof (aw_unused _ _ Hw2 idx (pending s) ltac:(lia) Es'). congruence. }
  assert (idx ∈ free_list al2) as Hin.
  { rewrite Ef. apply list_elem_of_filter. split; [done|]. apply elem_of_seqZ. lia. }
  split_and!; try done.
  { unfold version_of. rewrite Es'; cbn. f_equal. lia. }
  intros Hfresh.
  assert (next_fresh al2 = idx + 1) as En.
  { destruct (decide (next_fresh al2 = idx + 1)); [done|].
    destruct Hb as (s1 & Es1 & Hu1); [lia|].
    rewrite Hj in Es1 by lia. pose proof (aw_unused _ _ Hw (next_fresh al2 - 1) s1 ltac:(lia) Es1).
    congruence. }
  assert (free_list al2 = filter (fun i => occupied ar' i = false) (seqZ 0 idx) ++ [idx]) as Efl.
  { rewrite Ef, En. replace (idx + 1) with (Z.of_nat (S (Z.to_nat idx))) by lia.
    rewrite seqZ_S, filter_app, Z.add_0_l, Z2Nat.id by lia.
    by rewrite filter_cons_True, filter_nil. }
  unfold alloc, pick. rewrite Efl, pop_snoc, Es'; cbn [mbind option_bind].
  unfold occupied in Ho'. rewrite Es' in Ho'. rewrite Ho', Es'; cbn [mbind option_bind].
  assert (slot_version (metadata (pending s)) = v - 1) as Evs by (cbn; lia).
  rewrite Evs, (proj2 (Z.eqb_neq _ _)) by lia. unfold slot_mut. rewrite Es'. cbn.
  eexists _, _. do 4 f_equal. lia.
Qed.
End history.

(** ** A small shard *)

Module AllocExample.
Import Castagnoli ArenaExample.

Definition demo : ArenaFile :=
  match snd (open sys [] uuid 4) with Ok a => a | Err _ => map_file [] 0 0 [] end.

Lemma demo_spec :
  arena_wf demo /\ tail demo = [] /\ capacity_slots demo = 4
  /\ forall i s, slot demo i = Some s -> s = zeroed.
Proof.
  destruct small_arena as (a & E & Ha & Ht & Ec & Es & _). unfold demo. rewrite E; cbn [snd].
  split_and!; try done. intros i s. unfold slot. destruct (_ <? _); [|done].
  rewrite Es. by intros [-> _]%lookup_replicate.
Qed.

Lemma demo_wf : alloc_wf (empty 4) demo.
Proof.
  destruct demo_spec as (Ha & Ht & Ec & Hz). pose proof (wf_capacity_range _ Ha).
  split; cbn; [done|lia|apply NoDup_nil_2|by intros i ?%not_elem_of_nil|].
  intros i s _ Es. by rewrite (Hz i s Es).
Qed.

(** What an encoder writes to its slot: the version it was given, and that the
    slot is occupied. *)
Definition written (v : Z) (s : Slot) : Slot :=
  refresh_crc (with_meta (meta_flags flags.OCCUPIED) (with_meta (meta_version v) s)).
Lemma written_wf v s : u32 v -> Slot_wf s -> Slot_wf (written v s).
Proof.
  intros Hv Hs. apply refresh_crc_wf, meta_flags_wf; [by vm_compute|by apply meta_version_wf].
Qed.

(** A restart, an allocation, and the write of its slot. *)
Lemma demo_steps :
  exists al0 st, rebuild_from_arena demo = Some al0 /\ rtc step (restarted al0 demo) st /\ st_owned st = [0]
    /\ occupied (st_arena st) 0 = true.
Proof.
  destruct demo_spec as (Ha & Ht & Ec & Hz). destruct (rebuild_spec demo Ha) as (al0 & E0 & Hw & _).
  assert (occupied_slots demo = []) as Eo by (vm_compute; reflexivity).
  assert (option_map snd (rebuild_from_arena demo ≫= fun al => alloc al demo) = Some (Ok (0, 1))) as Er
    by (vm_compute; reflexivity).
  rewrite E0 in Er. cbn [mbind option_bind] in Er.
  destruct (alloc al0 demo) as [[[al ar] r]|] eqn:E; [|done]. injection Er as ->.
  destruct (alloc_pending al0 demo al ar 0 1 Ha Hw E) as (_ & _ & s & _ & Es' & _).
  destruct (slot_mut ar 0 (written 1)) as [ar'|] eqn:Em; [|unfold slot_mut in Em; by rewrite Es' in Em].
  destruct (slot_mut_slot ar 0 (written 1) ar' ltac:(lia) Em) as (s1 & _ & Es1 & _).
  exists al0, {| st_alloc := al; st_arena := ar'; st_owned := [0] |}. split_and!; [done| |done|].
  - eapply rtc_l; [unfold restarted; by apply step_alloc|]. rewrite Eo. cbn [owned_after].
    apply rtc_once. eapply (step_write _ _ _ 0 (written 1)); [by left| |done].
    intros s0. apply written_wf. unfold uint. lia.
  - cbn. unfold occupied. by rewrite Es1.
Qed.

Lemma allocator_exclusive_witness :
  exists st, st_owned st = [0] /\ NoDup (st_owned st)
    /\ exists al' arena' r, alloc (st_alloc st) (st_arena st) = Some (al', arena', r)
       /\ match r with Ok (idx, _) => idx ∉ [0] | Err _ => True end.
Proof.
  destruct demo_steps as (al0 & st & E0 & Hst & Eo & _). destruct demo_spec as (Ha & Ht & _ & _).
  destruct (allocator_exclusive demo al0 st Ha Ht E0 Hst) as (H1 & _ & al' & ar' & r & E & Hr).
  exists st. split; [exact Eo|]. split; [exact H1|]. exists al', ar', r. split; [exact E|].
  destruct r as [[idx v]|e]; [|done]. rewrite <- Eo. apply Hr.
Defined.

Lemma allocator_crash_keeps_version_witness :
  exists al' ar' al2, alloc (empty 4) demo = Some (al', ar', Ok (0, 1))
    /\ rebuild_from_arena ar' = Some al2
    /\ exists al3 ar3, alloc al2 ar' = Some (al3, ar3, Ok (0, 1)).
Proof.
  destruct demo_spec as (Ha & Ht & Ec & Hz).
  assert (option_map snd (alloc (empty 4) demo) = Some (Ok (0, 1))) as Er by (vm_compute; done).
  destruct (alloc (empty 4) demo) as [[[al ar] r]|] eqn:E; [|done].
  injection Er as ->.
  pose proof demo_wf as Hw.
  destruct (allocator_crash_keeps_version (empty 4) demo al ar 0 1 Ha Hw E)
    as (al2 & E2 & _ & _ & _ & H). exists al, ar, al2.
  split; [reflexivity|]. split; [exact E2|]. exact (H eq_refl).
Defined.

(** Encode three memories, free slots 2 and 0, allocate slot 0 again, crash:
    after the restart the next [alloc] grants slot 2 and not slot 0, since
    the rebuilt free list is in index order. *)
Definition reuse_then_crash : option (Z * Z) * option (Z * Z) :=
  let enc p :=
    '(al, ar) ← p; '(al', ar', r) ← alloc al ar;
    match r with
    | Ok (i, v) => ar'' ← slot_mut ar' i (written v); Some (al', ar'')
    | Err _ => None
    end in
  let rel i p := '(al, ar) ← p; '(al', ar', _) ← free al ar i; Some (al', ar') in
  match rel 0 (rel 2 (enc (enc (enc (Some (empty 4, demo)))))) with
  | Some (al, ar) =>
    match alloc al ar with
    | Some (_, ar', Ok p) =>
      (Some p, al2 ← rebuild_from_arena ar'; '(_, _, r) ← alloc al2 ar';
               match r with Ok q => Some q | Err _ => None end)
    | _ => (None, None)
    end
  | None => (None, None)
  end.

Lemma crash_after_reuse_grants_other_slot :
  reuse_then_crash = (Some (0, 2), Some (2, 2)).
Proof. vm_compute. reflexivity. Qed.
End AllocExample.

End Allocator.
