(* ===== verification/WalSegment.v ===== *)
(** WAL segment files ([brain-storage/src/wal/segment.rs]): a 4 KB header
    followed by framed records, appended through an in-memory buffer that
    [flush]/[flush_durable] drain with [write_at] and [fdatasync].

    A segment file is its page-cache contents and the contents on stable
    storage.  The outcomes of the I/O calls are arguments ([FlushIo]).  An
    operation returns the segment it leaves behind with its result. *)

From S2P Require Import Prelude Crc32c Ids WalKinds WalRecord.

Definition WAL_SEGMENT_HEADER_LEN : nat := 4096.
Definition WAL_SEGMENT_MAGIC : bytes := [Byte.x42; Byte.x57; Byte.x41; Byte.x4c].
Definition WAL_SEGMENT_FORMAT_VERSION_V1 : Z := 1.
Definition WAL_SEGMENT_HEADER_CRC_COVERAGE_END : nat := 48.
Definition WAL_SEGMENT_SIZE_BYTES : Z := 256 * 1024 * 1024.

Lemma WAL_SEGMENT_HEADER_LEN_Z : Z.of_nat WAL_SEGMENT_HEADER_LEN = 4096.
Proof. reflexivity. Qed.
#[global] Opaque WAL_SEGMENT_HEADER_LEN.

Record WalSegmentHeaderRaw := {
  sh_magic : bytes;
  sh_format_version : Z;
  sh_shard_uuid : bytes;
  sh_segment_seq : Z;
  sh_starting_lsn : Z;
  sh_created_at_unix_nanos : Z;
  sh_header_crc32c : Z;
  sh_reserved : bytes;
}.

Definition segment_header_bytes (h : WalSegmentHeaderRaw) : bytes :=
  sh_magic h
  ++ to_le_bytes 4 (sh_format_version h)
  ++ sh_shard_uuid h
  ++ to_le_bytes 8 (sh_segment_seq h)
  ++ to_le_bytes 8 (sh_starting_lsn h)
  ++ to_le_bytes 8 (sh_created_at_unix_nanos h)
  ++ to_le_bytes 4 (sh_header_crc32c h)
  ++ sh_reserved h.

Inductive WalSegmentError :=
| SegIo (errno : Z)
| SegAlreadyExists
| ShortWrite (wanted got : nat).

(** A file: what reads see, and what survives a crash. *)
Record SegFile := { sf_cache : bytes; sf_durable : bytes }.

(** [write_at(buf, offset)] in the page cache (a gap reads as zeros). *)
Definition pwrite (offset : nat) (buf cache : bytes) : bytes :=
  take offset cache ++ replicate (offset - length cache) Byte.x00
  ++ buf ++ drop (offset + length buf) cache.

(** [write_at] answers the number of bytes written, or an error after an
    unknown part of the buffer reached the file; then [fdatasync] answers. *)
Inductive WriteOutcome :=
| Wrote (n : nat)
| WriteFailed (errno : Z) (reached : nat).
Record FlushIo := { io_write : WriteOutcome; io_sync : result unit Z }.

Record WalSegment := {
  seg_file : SegFile;
  segment_seq : Z;
  starting_lsn : Z;
  seg_shard_uuid : bytes;
  write_buf : bytes;
  bytes_on_disk : nat;
}.

Definition with_file (f : SegFile) (buf : bytes) (on_disk : nat) (s : WalSegment) : WalSegment :=
  {| seg_file := f; segment_seq := segment_seq s; starting_lsn := starting_lsn s;
     seg_shard_uuid := seg_shard_uuid s; write_buf := buf; bytes_on_disk := on_disk |}.

Definition size_bytes (s : WalSegment) : Z :=
  Z.of_nat WAL_SEGMENT_HEADER_LEN + Z.of_nat (bytes_on_disk s) + Z.of_nat (length (write_buf s)).

Definition is_full (s : WalSegment) : bool := WAL_SEGMENT_SIZE_BYTES <=? size_bytes s.

Definition write_buf_len (s : WalSegment) : nat := length (write_buf s).

Section segment.
Context `{Crc32c}.

Definition compute_segment_header_crc (h : WalSegmentHeaderRaw) : Z :=
  crc32c (slice 0 WAL_SEGMENT_HEADER_CRC_COVERAGE_END (segment_header_bytes h)).

(** The header [create_new] writes. *)
Definition segment_header (seq lsn : Z) (uuid : bytes) (now : Z) : WalSegmentHeaderRaw :=
  let h crc := {| sh_magic := WAL_SEGMENT_MAGIC;
    sh_format_version := WAL_SEGMENT_FORMAT_VERSION_V1; sh_shard_uuid := uuid;
    sh_segment_seq := seq; sh_starting_lsn := lsn; sh_created_at_unix_nanos := now;
    sh_header_crc32c := crc; sh_reserved := replicate 4044 Byte.x00 |} in
  h (compute_segment_header_crc (h 0)).

(** [create_new] at a path where [existing] is the file already there. *)
Definition create_new (existing : option SegFile) (io : FlushIo) (now : Z)
    (seq lsn : Z) (uuid : bytes) : option SegFile * result WalSegment WalSegmentError :=
  match existing with
  | Some f => (Some f, Err SegAlreadyExists)
  | None =>
    let hb := segment_header_bytes (segment_header seq lsn uuid now) in
    let wanted := length hb in
    match io_write io with
    | WriteFailed e k =>
      (Some {| sf_cache := pwrite 0 (take k hb) []; sf_durable := [] |}, Err (SegIo e))
    | Wrote got =>
      let f := {| sf_cache := pwrite 0 (take got hb) []; sf_durable := [] |} in
      if negb (got =? wanted)%nat then (Some f, Err (ShortWrite wanted got)) else
      match io_sync io with
      | Err e => (Some f, Err (SegIo e))
      | Ok _ =>
        let f := {| sf_cache := sf_cache f; sf_durable := sf_cache f |} in
        (Some f, Ok {| seg_file := f; segment_seq := seq; starting_lsn := lsn;
                       seg_shard_uuid := uuid; write_buf := []; bytes_on_disk := 0 |})
      end
    end
  end.

(** [append_record]: [None] when [encode_into] panics. *)
Definition append_record (s : WalSegment) (r : WalRecord) : option (WalSegment * nat) :=
  let before := length (write_buf s) in
  buf ← encode_into r (write_buf s);
  Some (with_file (seg_file s) buf (bytes_on_disk s) s, (length buf - before)%nat).

(** The [write_at] both flushes start with: the buffer is taken whatever the outcome. *)
Definition drain (s : WalSegment) (w : WriteOutcome) : WalSegment * result nat WalSegmentError :=
  let offset := (WAL_SEGMENT_HEADER_LEN + bytes_on_disk s)%nat in
  let buf := write_buf s in
  let wanted := length buf in
  let wrote n := {| sf_cache := pwrite offset (take n buf) (sf_cache (seg_file s));
                    sf_durable := sf_durable (seg_file s) |} in
  match w with
  | WriteFailed e k => (with_file (wrote k) [] (bytes_on_disk s) s, Err (SegIo e))
  | Wrote got =>
    let s := with_file (wrote got) [] (bytes_on_disk s) s in
    if negb (got =? wanted)%nat then (s, Err (ShortWrite wanted got)) else (s, Ok got)
  end.

Definition flush (s : WalSegment) (w : WriteOutcome) : WalSegment * result unit WalSegmentError :=
  if (length (write_buf s) =? 0)%nat then (s, Ok tt) else
  match drain s w with
  | (s, Err e) => (s, Err e)
  | (s, Ok got) => (with_file (seg_file s) [] (bytes_on_disk s + got) s, Ok tt)
  end.

Definition flush_durable (s : WalSegment) (io : FlushIo)
  : WalSegment * result unit WalSegmentError :=
  if (length (write_buf s) =? 0)%nat then (s, Ok tt) else
  match drain s (io_write io) with
  | (s, Err e) => (s, Err e)
  | (s, Ok got) =>
    match io_sync io with
    | Err e => (s, Err (SegIo e))
    | Ok _ =>
      let cache := sf_cache (seg_file s) in
      (with_file {| sf_cache := cache; sf_durable := cache |} [] (bytes_on_disk s + got) s, Ok tt)
    end
  end.

Definition open_for_append (f : SegFile) (uuid : bytes) (seq lsn : Z) (on_disk : nat)
  : WalSegment :=
  {| seg_file := f; segment_seq := seq; starting_lsn := lsn; seg_shard_uuid := uuid;
     write_buf := []; bytes_on_disk := on_disk |}.
End segment.

(** ** The file of a segment that has been flushed *)

Section segment_facts.
Context `{CRC : Crc32c}.

(** Frames of consecutive records. *)
Definition frames (rs : list WalRecord) : bytes := rs ≫= frame.

Lemma frames_app a b : frames (a ++ b) = frames a ++ frames b.
Proof. apply bind_app. Qed.

Lemma frames_cons r rs : frames (r :: rs) = frame r ++ frames rs.
Proof. done. Qed.

Lemma pwrite_end offset buf cache :
  length cache = offset -> pwrite offset buf cache = cache ++ buf.
Proof.
  intros <-. unfold pwrite. rewrite Nat.sub_diag, (take_ge cache) by done.
  rewrite (drop_ge cache) by lia. cbn. by rewrite app_nil_r.
Qed.

(** A segment holding the durable records [rs] with the records [buffered]
    still in memory. *)
Record seg_holds (s : WalSegment) (hdr : bytes) (rs buffered : list WalRecord) : Prop := {
  sg_header : length hdr = WAL_SEGMENT_HEADER_LEN;
  sg_cache : sf_cache (seg_file s) = hdr ++ frames rs;
  sg_durable : sf_durable (seg_file s) = hdr ++ frames rs;
  sg_buf : write_buf s = frames buffered;
  sg_on_disk : bytes_on_disk s = length (frames rs);
}.

Lemma append_record_holds s hdr rs buffered r :
  seg_holds s hdr rs buffered -> Z.of_nat (length (wr_payload r)) <= MAX_PAYLOAD ->
  exists s', append_record s r = Some (s', encoded_len r)
    /\ seg_holds s' hdr rs (buffered ++ [r]) /\ segment_seq s' = segment_seq s.
Proof.
  intros [Hh Hc Hd Hb Ho] Hp. unfold append_record. rewrite encode_into_frame by done. cbn.
  exists (with_file (seg_file s) (write_buf s ++ frame r) (bytes_on_disk s) s). split.
  - rewrite length_app, length_frame.
    by rewrite (Nat.add_comm (length (write_buf s))), Nat.add_sub.
  - split; [|done]. split; cbn; try done. rewrite Hb, frames_app. unfold frames at 3. cbn.
    by rewrite app_nil_r.
Qed.

(** A successful durable flush moves the whole buffer to stable storage. *)
Lemma flush_durable_holds s hdr rs buffered io :
  seg_holds s hdr rs buffered ->
  io_write io = Wrote (length (write_buf s)) -> io_sync io = Ok tt ->
  exists s', flush_durable s io = (s', Ok tt) /\ seg_holds s' hdr (rs ++ buffered) []
    /\ segment_seq s' = segment_seq s.
Proof.
  intros [Hh Hc Hd Hb Ho] Hw Hs. unfold flush_durable.
  destruct (Nat.eqb_spec (length (write_buf s)) 0) as [E|E].
  { exists s. split; [done|]. split; [|done]. apply nil_length_inv in E. rewrite E in Hb.
    destruct buffered as [|r l].
    - by rewrite app_nil_r; split.
    - exfalso. assert (length (frames (r :: l)) = 0%nat) as El by (by rewrite <- Hb).
      rewrite frames_cons, length_app, length_frame in El. unfold encoded_len, HEADER_LEN in El. lia. }
  unfold drain. rewrite Hw, Hs, Nat.eqb_refl. cbn [negb].
  assert (pwrite (WAL_SEGMENT_HEADER_LEN + bytes_on_disk s)
    (take (length (write_buf s)) (write_buf s)) (sf_cache (seg_file s))
    = hdr ++ frames (rs ++ buffered)) as Ep.
  { rewrite take_ge by done.
    rewrite pwrite_end by (rewrite Hc, length_app, Hh, Ho; done).
    by rewrite Hc, Hb, frames_app, app_assoc. }
  eexists. split; [reflexivity|]. split; [|done].
  split; cbn [with_file seg_file write_buf bytes_on_disk sf_cache sf_durable]; try done.
  rewrite frames_app, length_app, Ho, Hb. done.
Qed.

(** Whatever the outcome, a flush never touches what is already durable. *)
Lemma flush_durable_keeps s hdr rs buffered io s' r :
  seg_holds s hdr rs buffered -> flush_durable s io = (s', r) ->
  exists rest, sf_cache (seg_file s') = hdr ++ frames rs ++ rest
    /\ exists rest', sf_durable (seg_file s') = hdr ++ frames rs ++ rest'.
Proof.
  intros [Hh Hc Hd Hb Ho]. unfold flush_durable.
  assert (forall n, pwrite (WAL_SEGMENT_HEADER_LEN + bytes_on_disk s)
    (take n (write_buf s)) (sf_cache (seg_file s))
    = hdr ++ frames rs ++ take n (write_buf s)) as Ep.
  { intros n. rewrite pwrite_end by (rewrite Hc, length_app, Hh, Ho; done).
    by rewrite Hc, <- app_assoc. }
  assert (hdr ++ frames rs = hdr ++ frames rs ++ []) as Enil by (by rewrite app_nil_r).
  destruct (length (write_buf s) =? 0)%nat.
  { intros E. apply (f_equal fst) in E; cbn [fst] in E. subst s'. rewrite Hc, Hd.
    exists []. split; [done|]. by exists []. }
  unfold drain. destruct (io_write io) as [n|e k].
  - destruct (negb (n =? length (write_buf s))%nat);
      [|destruct (io_sync io)]; intros E; apply (f_equal fst) in E; cbn [fst] in E; subst s';
      cbn [with_file seg_file sf_cache sf_durable]; rewrite ?Ep, ?Hd;
      exists (take n (write_buf s)); (split; [done|]); [by exists []|by eexists|by exists []].
  - intros E. apply (f_equal fst) in E; cbn [fst] in E; subst s'.
    cbn [with_file seg_file sf_cache sf_durable]. rewrite Ep, Hd.
    exists (take k (write_buf s)). split; [done|]. by exists [].
Qed.

(** A durable flush that reports success has moved the whole buffer. *)
Lemma flush_durable_ok s hdr rs buffered io s' u :
  seg_holds s hdr rs buffered -> flush_durable s io = (s', Ok u) ->
  seg_holds s' hdr (rs ++ buffered) [].
Proof.
  intros Hs E.
  destruct (Nat.eq_dec (length (write_buf s)) 0%nat) as [E0|E0].
  { destruct (flush_durable_holds s hdr rs buffered
      {| io_write := Wrote (length (write_buf s)); io_sync := Ok tt |} Hs eq_refl eq_refl)
      as (s1 & E1 & H1 & _).
    unfold flush_durable in E, E1. rewrite E0 in E, E1. cbn in E, E1.
    apply (f_equal fst) in E, E1. cbn [fst] in E, E1. by subst s1 s'. }
  destruct (io_write io) as [n|e k] eqn:Ew.
  - destruct (Nat.eq_dec n (length (write_buf s))) as [->|Hn].
    + destruct (io_sync io) as [[]|e] eqn:Es.
      * destruct (flush_durable_holds s hdr rs buffered io Hs Ew Es) as (s1 & E1 & H1 & _).
        rewrite E1 in E. apply (f_equal fst) in E. cbn [fst] in E. by subst s1.
      * exfalso. unfold flush_durable, drain in E. rewrite (proj2 (Nat.eqb_neq _ _) E0), Ew, Nat.eqb_refl, Es in E.
        apply (f_equal snd) in E. discriminate E.
    + exfalso. unfold flush_durable, drain in E.
      rewrite (proj2 (Nat.eqb_neq _ _) E0), Ew, (proj2 (Nat.eqb_neq _ _) Hn) in E.
      apply (f_equal snd) in E. discriminate E.
  - exfalso. unfold flush_durable, drain in E. rewrite (proj2 (Nat.eqb_neq _ _) E0), Ew in E.
    apply (f_equal snd) in E. discriminate E.
Qed.

(** Which segment it is. *)
Definition seg_ident (s : WalSegment) : Z * Z * bytes :=
  (segment_seq s, starting_lsn s, seg_shard_uuid s).

Lemma append_record_ident s r s' n : append_record s r = Some (s', n) -> seg_ident s' = seg_ident s.
Proof.
  unfold append_record. destruct (encode_into r (write_buf s)); cbn; [|done].
  intros E. apply (inj Some) in E. apply (f_equal fst) in E. cbn [fst] in E. by subst s'.
Qed.

Lemma flush_durable_ident s io : seg_ident (fst (flush_durable s io)) = seg_ident s.
Proof.
  unfold flush_durable, drain. destruct (length (write_buf s) =? 0)%nat; [done|].
  destruct (io_write io) as [n|]; [|done]. destruct (negb _); [done|]. by destruct (io_sync io).
Qed.
End segment_facts.
