(* ===== verification/WalReader.v ===== *)
(** The WAL reader ([brain-storage/src/wal/reader.rs]): opens every segment of
    a directory, checks their headers and numbering, and streams the records
    in LSN order, telling a torn tail from corruption.

    A directory is the list of its entries (file name, contents), in the
    order [read_dir] returns them.  [next] returns the reader it leaves and
    the item; its loop over segments has fuel, [None] when it runs out, which
    [next_spec] (in [WalReaderSpec]) excludes.  [read_all] drives [next] to the end. *)

From stdpp Require Import sorting.
From S2P Require Import Prelude Crc32c Ids WalKinds WalRecord WalSegment.

Abbreviation Dir := (list (bytes * bytes)).

(** [fs::read(path)]; [None] is [NotFound]. *)
Definition fs_read (dir : Dir) (name : bytes) : option bytes :=
  match list_find (fun e => e.1 = name) dir with Some (_, e) => Some e.2 | None => None end.

Record SegmentInfo := {
  si_path : bytes;
  si_segment_seq : Z;
  si_starting_lsn : Z;
  si_file_size : Z;
}.

Inductive WalReadError :=
| ReadIo
| SegmentTooSmall (path : bytes) (size : Z)
| InvalidSegmentMagic (path found : bytes)
| UnsupportedSegmentFormatVersion (path : bytes) (version : Z)
| SegmentHeaderCrcMismatch (path : bytes) (stored computed : Z)
| SegmentShardUuidMismatch (path expected found : bytes)
| FilenameSegmentSeqMismatch (path : bytes) (filename_seq header_seq : Z)
| InvalidSegmentFilename (filename : bytes)
| SegmentSequenceGap (after found : Z)
| LsnGapAtSegmentBoundary (segment_seq expected_lsn found_starting_lsn : Z)
| LsnGap (in_segment expected_lsn found_lsn : Z)
| MidSegmentCorruption (segment_seq : Z)
| RecordError (in_segment expected_lsn : Z) (source : WalRecordError).

(** ** Segment file names *)

Definition DOT_WAL : bytes := [Byte.x2e; Byte.x77; Byte.x61; Byte.x6c].
Definition DOT : Byte.byte := Byte.x2e.

(** [Path::extension]: after the last dot, unless the dot is the first byte or
    the name is [..]. *)
Definition extension (name : bytes) : option bytes :=
  if bool_decide (name = [DOT; DOT]) then None else
  match list_find (fun c => c = DOT) (rev name) with
  | None => None
  | Some (k, _) =>
    if (S k =? length name)%nat then None else Some (drop (length name - k) name)
  end.

Definition is_ascii_digit (b : Byte.byte) : bool := (48 <=? byte_val b) && (byte_val b <=? 57).

Definition parse_digits (stem : bytes) : Z :=
  foldl (fun acc b => acc * 10 + (byte_val b - 48)) 0 stem.

(** [parse_segment_seq_from_filename]; ten digits always fit a [u64]. *)
Definition parse_segment_seq_from_filename (name : bytes) : result Z WalReadError :=
  let n := (length name - 4)%nat in
  if negb (bool_decide (drop n name = DOT_WAL)) then Err (InvalidSegmentFilename name) else
  let stem := take n name in
  if negb (length stem =? 10)%nat || negb (forallb is_ascii_digit stem)
  then Err (InvalidSegmentFilename name)
  else Ok (parse_digits stem).

(** [format!("{:010}.wal", seq)] ([wal.rs], [segment_path]). *)
Fixpoint decimal (fuel : nat) (n : Z) (acc : bytes) : bytes :=
  match fuel with
  | O => acc
  | S fuel =>
    let acc := byte_of (48 + n mod 10) :: acc in
    if n / 10 =? 0 then acc else decimal fuel (n / 10) acc
  end.

Definition segment_path (seq : Z) : bytes :=
  let d := decimal 20 seq [] in
  replicate (10 - length d) (byte_of 48) ++ d ++ DOT_WAL.

(** ** Opening *)

Section reader.
Context `{Crc32c}.

(** [read_and_validate_segment_header] on the file [contents] at [path]. *)
Definition read_and_validate_segment_header (path contents : bytes)
    (expected_shard_uuid : bytes) (filename_seq : Z) : result SegmentInfo WalReadError :=
  let file_size := Z.of_nat (length contents) in
  if file_size <? Z.of_nat WAL_SEGMENT_HEADER_LEN then Err (SegmentTooSmall path file_size) else
  let header := take WAL_SEGMENT_HEADER_LEN contents in
  let magic := slice 0 4 header in
  if negb (bool_decide (magic = WAL_SEGMENT_MAGIC)) then Err (InvalidSegmentMagic path magic) else
  let format_version := from_le_bytes (slice 4 8 header) in
  if negb (format_version =? WAL_SEGMENT_FORMAT_VERSION_V1) then
    Err (UnsupportedSegmentFormatVersion path format_version) else
  let stored_crc := from_le_bytes (slice 48 52 header) in
  let computed := crc32c (slice 0 WAL_SEGMENT_HEADER_CRC_COVERAGE_END header) in
  if negb (stored_crc =? computed) then
    Err (SegmentHeaderCrcMismatch path stored_crc computed) else
  let header_shard_uuid := slice 8 24 header in
  if negb (bool_decide (header_shard_uuid = expected_shard_uuid)) then
    Err (SegmentShardUuidMismatch path expected_shard_uuid header_shard_uuid) else
  let header_segment_seq := from_le_bytes (slice 24 32 header) in
  if negb (header_segment_seq =? filename_seq) then
    Err (FilenameSegmentSeqMismatch path filename_seq header_segment_seq) else
  let starting_lsn := from_le_bytes (slice 32 40 header) in
  Ok {| si_path := path; si_segment_seq := header_segment_seq;
        si_starting_lsn := starting_lsn; si_file_size := file_size |}.

(** The [read_dir] loop. *)
Fixpoint scan_dir (entries : Dir) (shard_uuid : bytes) : result (list SegmentInfo) WalReadError :=
  match entries with
  | [] => Ok []
  | (path, contents) :: rest =>
    if negb (bool_decide (extension path = Some (drop 1 DOT_WAL))) then scan_dir rest shard_uuid else
    let? filename_seq := parse_segment_seq_from_filename path in
    let? info := read_and_validate_segment_header path contents shard_uuid filename_seq in
    let? infos := scan_dir rest shard_uuid in
    Ok (info :: infos)
  end.

Definition seq_le (a b : SegmentInfo) : Prop := si_segment_seq a <= si_segment_seq b.
#[global] Instance seq_le_dec a b : Decision (seq_le a b).
Proof. unfold seq_le. apply _. Defined.

Fixpoint check_contiguous (infos : list SegmentInfo) : result unit WalReadError :=
  match infos with
  | a :: ((b :: _) as rest) =>
    if negb (si_segment_seq b =? wrap 64 (si_segment_seq a + 1))
    then Err (SegmentSequenceGap (si_segment_seq a) (si_segment_seq b))
    else check_contiguous rest
  | _ => Ok tt
  end.

Record LoadedSegment := { ls_bytes : bytes; ls_cursor : nat }.

Record WalReader := {
  segments : list SegmentInfo;
  current_idx : nat;
  current : option LoadedSegment;
  expected_next_lsn : Z;
  last_decoded_lsn : option Z;
  last_record_end_offset : option nat;
  last_record_segment_seq : option Z;
  finished : bool;
}.

Definition open (dir : Dir) (shard_uuid : bytes) : result WalReader WalReadError :=
  let? infos := scan_dir dir shard_uuid in
  let infos := merge_sort seq_le infos in
  let? _ := check_contiguous infos in
  Ok {| segments := infos; current_idx := 0; current := None;
        expected_next_lsn := match infos with s :: _ => si_starting_lsn s | [] => 1 end;
        last_decoded_lsn := None; last_record_end_offset := None;
        last_record_segment_seq := None;
        finished := match infos with [] => true | _ => false end |}.

Definition active_segment_seq (r : WalReader) : option Z :=
  si_segment_seq <$> last (segments r).

(** ** The iterator *)

Definition set_finished (r : WalReader) : WalReader :=
  {| segments := segments r; current_idx := current_idx r; current := current r;
     expected_next_lsn := expected_next_lsn r; last_decoded_lsn := last_decoded_lsn r;
     last_record_end_offset := last_record_end_offset r;
     last_record_segment_seq := last_record_segment_seq r; finished := true |}.

Definition set_current (c : option LoadedSegment) (idx : nat) (r : WalReader) : WalReader :=
  {| segments := segments r; current_idx := idx; current := c;
     expected_next_lsn := expected_next_lsn r; last_decoded_lsn := last_decoded_lsn r;
     last_record_end_offset := last_record_end_offset r;
     last_record_segment_seq := last_record_segment_seq r; finished := finished r |}.

(** [valid_record_survives_after]: every offset is tried. *)
Fixpoint valid_record_survives_after (b : bytes) (expected_lsn : Z) : bool :=
  match b with
  | [] => false
  | _ :: rest =>
    match decode_one b with
    | Ok (DecRecord record _) =>
      if expected_lsn <=? wr_lsn record then true
      else valid_record_survives_after rest expected_lsn
    | _ => valid_record_survives_after rest expected_lsn
    end
  end.

Definition NextItem : Type := option (result WalRecord WalReadError).

(** (c): decode at the cursor of the loaded segment [seg]. *)
Definition decode_step (r : WalReader) (info : SegmentInfo) (seg : LoadedSegment)
  : WalReader * NextItem :=
  let rest := drop (ls_cursor seg) (ls_bytes seg) in
  let segment_seq := si_segment_seq info in
  match decode_one rest with
  | Ok (DecRecord record consumed) =>
    let lsn := wr_lsn record in
    if negb (lsn =? expected_next_lsn r) then
      (set_finished r, Some (Err (LsnGap segment_seq (expected_next_lsn r) lsn)))
    else
      let cursor := (ls_cursor seg + consumed)%nat in
      ({| segments := segments r; current_idx := current_idx r;
          current := Some {| ls_bytes := ls_bytes seg; ls_cursor := cursor |};
          expected_next_lsn := wrap 64 (lsn + 1); last_decoded_lsn := Some lsn;
          last_record_end_offset := Some cursor; last_record_segment_seq := Some segment_seq;
          finished := finished r |}, Some (Ok record))
  | outcome =>
    let is_last := (length (segments r) <=? current_idx r + 1)%nat in
    let expected_lsn := expected_next_lsn r in
    if is_last then
      if valid_record_survives_after rest expected_lsn
      then (set_finished r, Some (Err (MidSegmentCorruption segment_seq)))
      else (set_finished r, None)
    else
      (set_finished r, Some (Err
        match outcome with
        | Err (CrcMismatch _ _) => MidSegmentCorruption segment_seq
        | Err source => RecordError segment_seq expected_lsn source
        | Ok _ => MidSegmentCorruption segment_seq
        end))
  end.

(** [Iterator::next]'s loop. *)
Fixpoint next_loop (fuel : nat) (dir : Dir) (r : WalReader) : option (WalReader * NextItem) :=
  match fuel with
  | O => None
  | S fuel =>
    match segments r !! current_idx r with
    | None => Some (set_finished r, None)
    | Some info =>
      let process seg :=
        if (length (ls_bytes seg) <=? ls_cursor seg)%nat then
          next_loop fuel dir (set_current None (S (current_idx r)) r)
        else Some (decode_step (set_current (Some seg) (current_idx r) r) info seg) in
      match current r with
      | Some seg => process seg
      | None =>
        if negb (si_starting_lsn info =? expected_next_lsn r) then
          Some (set_finished r, Some (Err (LsnGapAtSegmentBoundary (si_segment_seq info)
                  (expected_next_lsn r) (si_starting_lsn info))))
        else
          match fs_read dir (si_path info) with
          | None => Some (set_finished r, Some (Err ReadIo))
          | Some b => process {| ls_bytes := b; ls_cursor := WAL_SEGMENT_HEADER_LEN |}
          end
      end
    end
  end.

Definition next (dir : Dir) (r : WalReader) : option (WalReader * NextItem) :=
  if finished r then Some (r, None) else next_loop (S (length (segments r))) dir r.

(** Drive the iterator: the records yielded, and the error that ended it, if any. *)
Fixpoint read_all (fuel : nat) (dir : Dir) (r : WalReader)
  : option (list WalRecord * option WalReadError * WalReader) :=
  match fuel with
  | O => None
  | S fuel =>
    '(r, item) ← next dir r;
    match item with
    | None => Some ([], None, r)
    | Some (Err e) => Some ([], Some e, r)
    | Some (Ok rec) =>
      '(recs, e, r) ← read_all fuel dir r;
      Some (rec :: recs, e, r)
    end
  end.

(** ** Reading from an LSN *)

Record IterFrom := { if_inner : WalReader; if_start_lsn : Z }.

(** [windows(2).take_while(..).count()]. *)
Fixpoint drop_count (segs : list SegmentInfo) (start_lsn : Z) : nat :=
  match segs with
  | _ :: ((b :: _) as rest) =>
    if si_starting_lsn b <=? start_lsn then S (drop_count rest start_lsn) else 0%nat
  | _ => 0%nat
  end.

Definition iter_from (dir : Dir) (shard_uuid : bytes) (start_lsn : Z)
  : result IterFrom WalReadError :=
  let? reader := open dir shard_uuid in
  let segs := drop (drop_count (segments reader) start_lsn) (segments reader) in
  Ok {| if_inner := {| segments := segs; current_idx := 0; current := None;
          expected_next_lsn := match segs with s :: _ => si_starting_lsn s | [] => start_lsn end;
          last_decoded_lsn := None; last_record_end_offset := None;
          last_record_segment_seq := None;
          finished := match segs with [] => true | _ => false end |};
        if_start_lsn := start_lsn |}.

(** [IterFrom::next]: skip what lies below the start. *)
Fixpoint iter_next (fuel : nat) (dir : Dir) (it : IterFrom) : option (IterFrom * NextItem) :=
  match fuel with
  | O => None
  | S fuel =>
    '(inner, item) ← next dir (if_inner it);
    let it := {| if_inner := inner; if_start_lsn := if_start_lsn it |} in
    match item with
    | Some (Ok rec) =>
      if wr_lsn rec <? if_start_lsn it then iter_next fuel dir it else Some (it, item)
    | other => Some (it, other)
    end
  end.

(** Drive it to the end. *)
Fixpoint iter_all (fuel : nat) (dir : Dir) (it : IterFrom)
  : option (list WalRecord * option WalReadError) :=
  match fuel with
  | O => None
  | S fuel' =>
    '(it, item) ← iter_next fuel dir it;
    match item with
    | None => Some ([], None)
    | Some (Err e) => Some ([], Some e)
    | Some (Ok rec) =>
      '(recs, e) ← iter_all fuel' dir it;
      Some (rec :: recs, e)
    end
  end.
End reader.
