(* ===== verification/WalReaderSpec.v ===== *)
(** Correctness of the WAL reader.

    [read_segments] is the reference: parse each segment's records in turn
    and classify where parsing stopped.  [read_all_spec] shows the iterator
    computes it (and terminates).  [log_shape] describes the directories of a
    healthy log; the reader accepts exactly those and returns their records. *)

From stdpp Require Import sorting.
From S2P Require Import Prelude Crc32c Ids WalKinds WalRecord WalSegment WalReader.

(** ** The reference reader *)

Inductive Stop :=
| AtEnd
| GapAt (found : Z)
| BadAt (rest : bytes) (o : result DecodeOutcome WalRecordError).

(** A record with its place: the segment and the offset where it ends. *)
Record Item := { it_rec : WalRecord; it_seq : Z; it_end : nat }.

Section spec.
Context `{CRC : Crc32c}.

(** Parse [b], which starts at offset [pos] of segment [seq], expecting [lsn]. *)
Fixpoint parse_records (fuel : nat) (seq lsn : Z) (pos : nat) (b : bytes)
  : list Item * Z * Stop :=
  match fuel with
  | O => ([], lsn, AtEnd)
  | S fuel =>
    if (length b =? 0)%nat then ([], lsn, AtEnd) else
    match decode_one b with
    | Ok (DecRecord r n) =>
      if negb (wr_lsn r =? lsn) then ([], lsn, GapAt (wr_lsn r)) else
      let '(its, lsn', stop) :=
        parse_records fuel seq (wrap 64 (lsn + 1)) (pos + n) (drop n b) in
      ({| it_rec := r; it_seq := seq; it_end := (pos + n)%nat |} :: its, lsn', stop)
    | o => ([], lsn, BadAt b o)
    end
  end.

Definition parse (seq lsn : Z) (pos : nat) (b : bytes) : list Item * Z * Stop :=
  parse_records (S (length b)) seq lsn pos b.

(** The error for a corruption in a segment that is not the last one. *)
Definition classify (seq lsn : Z) (o : result DecodeOutcome WalRecordError) : WalReadError :=
  match o with
  | Err (CrcMismatch _ _) => MidSegmentCorruption seq
  | Err source => RecordError seq lsn source
  | Ok _ => MidSegmentCorruption seq
  end.

(** The verdict when parsing stops inside segment [seq]; [more]: later ones exist. *)
Definition verdict (seq : Z) (more : bool) (lsn : Z) (stop : Stop) : option WalReadError :=
  match stop with
  | AtEnd => None
  | GapAt found => Some (LsnGap seq lsn found)
  | BadAt rest o =>
    if more then Some (classify seq lsn o)
    else if valid_record_survives_after rest lsn
    then Some (MidSegmentCorruption seq) else None
  end.

(** Continue after a parse: on to the next segments, or stop. *)
Definition continue_with (next : Z -> list Item * option WalReadError) (seq : Z) (more : bool)
    (p : list Item * Z * Stop) : list Item * option WalReadError :=
  let '(its, lsn, stop) := p in
  match stop with
  | AtEnd => let '(its', e) := next lsn in (its ++ its', e)
  | _ => (its, verdict seq more lsn stop)
  end.

Fixpoint read_segments (dir : Dir) (segs : list SegmentInfo) (lsn : Z)
  : list Item * option WalReadError :=
  match segs with
  | [] => ([], None)
  | info :: rest =>
    if negb (si_starting_lsn info =? lsn) then
      ([], Some (LsnGapAtSegmentBoundary (si_segment_seq info) lsn (si_starting_lsn info)))
    else
      match fs_read dir (si_path info) with
      | None => ([], Some ReadIo)
      | Some b =>
        continue_with (read_segments dir rest) (si_segment_seq info)
          (negb (length rest =? 0)%nat)
          (parse (si_segment_seq info) lsn WAL_SEGMENT_HEADER_LEN
             (drop WAL_SEGMENT_HEADER_LEN b))
      end
  end.

(** The same from the middle of a segment. *)
Definition read_rest (dir : Dir) (info : SegmentInfo) (rest : list SegmentInfo) (lsn : Z)
    (seg : LoadedSegment) : list Item * option WalReadError :=
  continue_with (read_segments dir rest) (si_segment_seq info) (negb (length rest =? 0)%nat)
    (parse (si_segment_seq info) lsn (ls_cursor seg) (drop (ls_cursor seg) (ls_bytes seg))).

(** What a reader has still to deliver. *)
Definition pending (dir : Dir) (r : WalReader) : list Item * option WalReadError :=
  match drop (current_idx r) (segments r), current r with
  | info :: rest, Some seg => read_rest dir info rest (expected_next_lsn r) seg
  | segs, None => read_segments dir segs (expected_next_lsn r)
  | [], Some _ => ([], None)
  end.

(** ** Parsing, one record at a time *)

Lemma decode_one_consumes b r n :
  decode_one b = Ok (DecRecord r n) -> (HEADER_LEN <= n <= length b)%nat.
Proof.
  intros E. apply decode_one_inv in E as (_ & -> & Hn & _). split; [|done].
  unfold encoded_len. lia.
Qed.

Lemma parse_fuel f f' seq lsn pos b :
  (length b < f)%nat -> (length b < f')%nat ->
  parse_records f seq lsn pos b = parse_records f' seq lsn pos b.
Proof.
  revert f' lsn pos b. induction f as [|f IH]; intros [|f'] lsn pos b Hf Hf'; try lia.
  cbn [parse_records]. destruct (Nat.eqb_spec (length b) 0); [done|].
  destruct (decode_one b) as [[r n0|]|e] eqn:E; [|done..].
  destruct (negb _); [done|]. apply decode_one_consumes in E. unfold HEADER_LEN in E.
  rewrite (IH f') by (rewrite length_drop; lia). done.
Qed.

Lemma parse_nil seq lsn pos : parse seq lsn pos [] = ([], lsn, AtEnd).
Proof. done. Qed.

Lemma parse_record seq lsn pos b r n :
  decode_one b = Ok (DecRecord r n) -> wr_lsn r = lsn ->
  parse seq lsn pos b =
    let '(its, lsn', stop) := parse seq (wrap 64 (lsn + 1)) (pos + n) (drop n b) in
    ({| it_rec := r; it_seq := seq; it_end := (pos + n)%nat |} :: its, lsn', stop).
Proof.
  intros E <-. pose proof (decode_one_consumes b r n E) as Hn. unfold HEADER_LEN in Hn.
  unfold parse. cbn [parse_records]. rewrite (proj2 (Nat.eqb_neq _ _)) by lia.
  rewrite E, Z.eqb_refl. cbn [negb].
  by rewrite (parse_fuel (length b) (S (length (drop n b)))) by (rewrite length_drop; lia).
Qed.

Lemma parse_gap seq lsn pos b r n :
  decode_one b = Ok (DecRecord r n) -> wr_lsn r <> lsn ->
  parse seq lsn pos b = ([], lsn, GapAt (wr_lsn r)).
Proof.
  intros E Hne. pose proof (decode_one_consumes b r n E) as Hn. unfold HEADER_LEN in Hn.
  unfold parse. cbn [parse_records]. rewrite (proj2 (Nat.eqb_neq _ _)) by lia.
  rewrite E, (proj2 (Z.eqb_neq _ _)) by done. done.
Qed.

Lemma parse_bad seq lsn pos b :
  b <> [] -> (forall r n, decode_one b <> Ok (DecRecord r n)) ->
  parse seq lsn pos b = ([], lsn, BadAt b (decode_one b)).
Proof.
  intros Hb Hno. unfold parse. cbn [parse_records].
  destruct (Nat.eqb_spec (length b) 0) as [E|_]; [by apply nil_length_inv in E|].
  destruct (decode_one b) as [[r n|]|e]; [by destruct (Hno r n)|done..].
Qed.

(** ** The iterator computes the reference *)

Record advanced (r r' : WalReader) (it : Item) : Prop := {
  adv_lsn : last_decoded_lsn r' = Some (wr_lsn (it_rec it));
  adv_end : last_record_end_offset r' = Some (it_end it);
  adv_seq : last_record_segment_seq r' = Some (it_seq it);
  adv_next : expected_next_lsn r' = wrap 64 (wr_lsn (it_rec it) + 1);
  adv_segments : segments r' = segments r;
  adv_running : finished r' = false;
  adv_ready : exists info, segments r' !! current_idx r' = Some info;
}.

(** The reader after the end of iteration. *)
Record ended (r r' : WalReader) : Prop := {
  end_lsn : last_decoded_lsn r' = last_decoded_lsn r;
  end_end : last_record_end_offset r' = last_record_end_offset r;
  end_seq : last_record_segment_seq r' = last_record_segment_seq r;
  end_next : expected_next_lsn r' = expected_next_lsn r;
  end_segments : segments r' = segments r;
  end_finished : finished r' = true;
}.

(** One answer of the iterator against what was pending. *)
Definition step_ok (dir : Dir) (r : WalReader) (p : list Item * option WalReadError)
    (out : WalReader * NextItem) : Prop :=
  match p with
  | (it :: its, e) =>
    out.2 = Some (Ok (it_rec it)) /\ pending dir out.1 = (its, e) /\ advanced r out.1 it
  | ([], e) => out.2 = (Err <$> e) /\ ended r out.1
  end.

Lemma decode_step_spec dir r info rest seg :
  drop (current_idx r) (segments r) = info :: rest -> current r = Some seg ->
  finished r = false -> (ls_cursor seg < length (ls_bytes seg))%nat ->
  step_ok dir r (read_rest dir info rest (expected_next_lsn r) seg) (decode_step r info seg).
Proof.
  intros Hd Hc Hf Hl. unfold decode_step, read_rest.
  set (b := drop (ls_cursor seg) (ls_bytes seg)).
  assert (exists info', segments r !! current_idx r = Some info') as Hready.
  { exists info. rewrite <- (Nat.add_0_r (current_idx r)), <- lookup_drop. by rewrite Hd. }
  assert (b <> []) as Hb.
  { intros E. apply (f_equal length) in E. unfold b in E. rewrite length_drop in E. cbn in E. lia. }
  assert ((length (segments r) <=? current_idx r + 1)%nat = (length rest =? 0)%nat) as Elast.
  { apply (f_equal length) in Hd. rewrite length_drop in Hd. cbn in Hd.
    destruct (Nat.leb_spec (length (segments r)) (current_idx r + 1)), (Nat.eqb_spec (length rest) 0);
      lia || done. }
  destruct (decode_one b) as [[rec n|]|e] eqn:E.
  - destruct (Z.eqb_spec (wr_lsn rec) (expected_next_lsn r)) as [El|El]; cbn [negb].
    + rewrite (parse_record _ _ _ _ _ _ E El). unfold continue_with.
      destruct (parse _ _ _ _) as [[its lsn'] stop] eqn:Ep.
      assert (pending dir {| segments := segments r; current_idx := current_idx r;
          current := Some {| ls_bytes := ls_bytes seg; ls_cursor := (ls_cursor seg + n)%nat |};
          expected_next_lsn := wrap 64 (wr_lsn rec + 1); last_decoded_lsn := Some (wr_lsn rec);
          last_record_end_offset := Some (ls_cursor seg + n)%nat;
          last_record_segment_seq := Some (si_segment_seq info); finished := finished r |}
        = continue_with (read_segments dir rest) (si_segment_seq info)
            (negb (length rest =? 0)%nat) (its, lsn', stop)) as Epend.
      { unfold pending, read_rest; cbn [current_idx segments current expected_next_lsn
          ls_cursor ls_bytes]. rewrite Hd. f_equal. rewrite <- Ep, El.
        unfold b. by rewrite drop_drop. }
      destruct stop; cbn [continue_with] in Epend.
      * destruct (read_segments dir rest lsn') as [its' e'] eqn:Er. cbn [app].
        split_and!; [done|exact Epend|split; done].
      * split_and!; [done|exact Epend|split; done].
      * split_and!; [done|exact Epend|split; done].
    + rewrite (parse_gap _ _ _ _ _ _ E El). cbn. by split; [|split].
  - rewrite (parse_bad _ _ _ b Hb) by congruence. cbn [continue_with verdict].
    rewrite E, Elast. destruct (length rest =? 0)%nat; cbn [negb].
    + by destruct (valid_record_survives_after _ _); split; try done; split.
    + by split; [|split].
  - rewrite (parse_bad _ _ _ b Hb) by congruence. cbn [continue_with verdict].
    rewrite E, Elast. destruct (length rest =? 0)%nat; cbn [negb].
    + by destruct (valid_record_survives_after _ _); split; try done; split.
    + by split; [|split].
Qed.

Lemma next_loop_spec fuel dir r :
  (length (drop (current_idx r) (segments r)) < fuel)%nat -> finished r = false ->
  (current r = None \/ exists info, segments r !! current_idx r = Some info) ->
  exists out, next_loop fuel dir r = Some out /\ step_ok dir r (pending dir r) out.
Proof.
  revert r. induction fuel as [|fuel IH]; intros r Hfuel Hf Hcur; [lia|].
  cbn [next_loop]. destruct (segments r !! current_idx r) as [info|] eqn:Ei.
  2: { assert (drop (current_idx r) (segments r) = []) as Hd.
       { apply length_zero_iff_nil. rewrite length_drop. apply lookup_ge_None in Ei. lia. }
       destruct Hcur as [Hcur|[? ?]]; [|done]. eexists. split; [done|].
       unfold pending. rewrite Hd, Hcur. by split; [|split]. }
  pose proof (drop_S _ _ _ Ei) as Hd. set (rest := drop (S (current_idx r)) (segments r)) in *.
  rewrite Hd in Hfuel. cbn in Hfuel.
  (* The common part: a loaded segment. *)
  assert (forall seg, exists out,
    (if (length (ls_bytes seg) <=? ls_cursor seg)%nat
     then next_loop fuel dir (set_current None (S (current_idx r)) r)
     else Some (decode_step (set_current (Some seg) (current_idx r) r) info seg)) = Some out
    /\ step_ok dir r (read_rest dir info rest (expected_next_lsn r) seg) out) as Hseg.
  { intros seg. destruct (Nat.leb_spec (length (ls_bytes seg)) (ls_cursor seg)) as [Hl|Hl].
    - destruct (IH (set_current None (S (current_idx r)) r)) as (out & E & Hok);
        [cbn [set_current current_idx segments]; fold rest; lia|done|by left|].
      exists out. split; [done|]. unfold read_rest. rewrite drop_ge by done.
      rewrite parse_nil. cbn [continue_with]. revert Hok.
      unfold pending at 1; cbn [set_current current_idx segments current expected_next_lsn].
      fold rest. destruct rest as [|i2 rest2] eqn:Er.
      + cbn [read_segments app]. intros [? []]. by split; [|split].
      + destruct (read_segments _ _ _) as [[|it its] e] eqn:Ers; cbn [app].
        * intros [? []]. by split; [|split].
        * intros (? & ? & []). split_and!; [done..|]. by split.
    - eexists. split; [done|].
      assert (drop (current_idx (set_current (Some seg) (current_idx r) r))
        (segments (set_current (Some seg) (current_idx r) r)) = info :: rest) as Hd' by done.
      pose proof (decode_step_spec dir _ info rest seg Hd' eq_refl Hf Hl) as Hok.
      cbn [set_current expected_next_lsn] in Hok. revert Hok.
      destruct (read_rest _ _ _ _ _) as [[|it its] e].
      + intros [? []]. by split; [|split].
      + intros (? & ? & []). split_and!; [done..|]. by split. }
  destruct (current r) as [seg|] eqn:Ec.
  { destruct (Hseg seg) as (out & E & Hok). exists out. split; [done|].
    unfold pending. by rewrite Hd, Ec. }
  unfold pending. rewrite Hd, Ec. cbn [read_segments].
  destruct (Z.eqb_spec (si_starting_lsn info) (expected_next_lsn r)) as [El|El]; cbn [negb].
  2: { eexists. split; [done|]. by split; [|split]. }
  destruct (fs_read dir (si_path info)) as [b|].
  2: { eexists. split; [done|]. by split; [|split]. }
  destruct (Hseg {| ls_bytes := b; ls_cursor := WAL_SEGMENT_HEADER_LEN |}) as (out & E & Hok).
  exists out. split; [done|]. exact Hok.
Qed.

Definition ready (r : WalReader) : Prop :=
  finished r = false /\ (current r = None \/ exists info, segments r !! current_idx r = Some info).

Lemma next_spec dir r :
  ready r -> exists out, next dir r = Some out /\ step_ok dir r (pending dir r) out.
Proof.
  intros [Hf Hc]. unfold next. rewrite Hf. apply next_loop_spec; [|done..].
  rewrite length_drop. lia.
Qed.

(** The reader after delivering [its]. *)
Definition last_place (r : WalReader) : option Z * option nat * option Z :=
  (last_decoded_lsn r, last_record_end_offset r, last_record_segment_seq r).

Definition place_after (p : option Z * option nat * option Z) (its : list Item)
  : option Z * option nat * option Z :=
  match last its with
  | Some it => (Some (wr_lsn (it_rec it)), Some (it_end it), Some (it_seq it))
  | None => p
  end.

Lemma place_after_cons p it its :
  place_after p (it :: its)
  = place_after (Some (wr_lsn (it_rec it)), Some (it_end it), Some (it_seq it)) its.
Proof. unfold place_after. by destruct its as [|i l] using rev_ind; rewrite ?app_comm_cons, ?last_snoc. Qed.

(** Driving the iterator with enough fuel delivers what was pending. *)
Lemma read_all_spec dir r its e fuel :
  ready r -> pending dir r = (its, e) -> (length its < fuel)%nat ->
  exists r', read_all fuel dir r = Some (map it_rec its, e, r') /\ finished r' = true
    /\ segments r' = segments r /\ last_place r' = place_after (last_place r) its.
Proof.
  revert r fuel. induction its as [|it its IH]; intros r [|fuel] Hr Hp Hfuel; cbn in Hfuel; try lia;
    cbn [read_all]; destruct (next_spec dir r Hr) as ([r1 item] & En & Hok);
    rewrite En; cbn [mbind option_bind]; rewrite Hp in Hok.
  - destruct Hok as [Ei [E1 E2 E3 E4 E5 E6]]. cbn in Ei, E1, E2, E3, E4, E5, E6. subst item.
    exists r1. unfold last_place. rewrite E1, E2, E3. by destruct e.
  - destruct Hok as (Ei & Hp1 & [E1 E2 E3 E4 E5 E6 E7]). cbn in *. subst item.
    destruct (IH r1 fuel) as (r' & Er & Hf & Hs & Hl); [split; [done|by right]|done|lia|].
    rewrite Er. cbn. exists r'. split_and!; [done..|congruence|].
    rewrite place_after_cons, Hl. unfold last_place. by rewrite E1, E2, E3.
Qed.

(** ** Healthy logs *)

(** Consecutive LSNs from [lsn], and the one after them. *)
Fixpoint lsns_ok (lsn : Z) (rs : list WalRecord) : Prop :=
  match rs with
  | [] => True
  | r :: rs => wr_lsn r = lsn /\ lsns_ok (wrap 64 (lsn + 1)) rs
  end.

Fixpoint lsn_after (lsn : Z) (rs : list WalRecord) : Z :=
  match rs with [] => lsn | _ :: rs => lsn_after (wrap 64 (lsn + 1)) rs end.

(** The records of a segment with their places, from offset [pos]. *)
Fixpoint places (seq : Z) (pos : nat) (rs : list WalRecord) : list Item :=
  match rs with
  | [] => []
  | r :: rs =>
    let pos := (pos + encoded_len r)%nat in
    {| it_rec := r; it_seq := seq; it_end := pos |} :: places seq pos rs
  end.

Lemma places_rec seq pos rs : map it_rec (places seq pos rs) = rs.
Proof. revert pos. induction rs; intros pos; cbn; [done|]. by f_equal. Qed.

Lemma lsns_ok_app lsn a b :
  lsns_ok lsn (a ++ b) <-> lsns_ok lsn a /\ lsns_ok (lsn_after lsn a) b.
Proof. revert lsn. induction a as [|r a IH]; intros lsn; cbn; [tauto|]. rewrite IH. tauto. Qed.

Lemma lsn_after_app lsn a b : lsn_after lsn (a ++ b) = lsn_after (lsn_after lsn a) b.
Proof. revert lsn. induction a; intros lsn; cbn; auto. Qed.

Lemma lsn_after_small lsn rs :
  0 <= lsn -> lsn + Z.of_nat (length rs) < 2 ^ 64 -> lsn_after lsn rs = lsn + Z.of_nat (length rs).
Proof.
  revert lsn. induction rs as [|r rs IH]; intros lsn H0 Hl; cbn in *; [lia|].
  rewrite wrap_small by (unfold uint; lia). rewrite IH by lia. lia.
Qed.

(** Frames are parsed back, then parsing goes on behind them. *)
Lemma parse_frames `{!Crc32cLaws CRC} seq lsn pos rs tl :
  Forall WalRecord_wf rs -> lsns_ok lsn rs ->
  parse seq lsn pos (frames rs ++ tl) =
    let '(its, lsn', stop) := parse seq (lsn_after lsn rs) (pos + length (frames rs)) tl in
    (places seq pos rs ++ its, lsn', stop).
Proof.
  revert lsn pos. induction rs as [|r rs IH]; intros lsn pos Hwf Hl; cbn [lsn_after].
  - cbn [frames mbind list_bind app length places]. rewrite Nat.add_0_r.
    by destruct (parse seq lsn pos tl) as [[? ?] ?].
  - apply Forall_cons in Hwf as [Hr Hwf]. destruct Hl as [El Hl].
    rewrite frames_cons, <- app_assoc.
    pose proof (decode_frame r (frames rs ++ tl) Hr) as E.
    rewrite (parse_record _ _ _ _ _ _ E El).
    rewrite drop_app_length' by (by rewrite length_frame). rewrite (IH _ _ Hwf Hl).
    replace (pos + length (frame r ++ frames rs))%nat
      with (pos + encoded_len r + length (frames rs))%nat
      by (rewrite length_app, length_frame; lia).
    by destruct (parse seq _ (pos + encoded_len r + length (frames rs)) tl) as [[? ?] ?].
Qed.

(** Conversely, what was parsed is what is there. *)
Lemma parse_inv seq lsn pos b its lsn' stop :
  parse seq lsn pos b = (its, lsn', stop) ->
  let rs := map it_rec its in
  exists rest, b = frames rs ++ rest /\ its = places seq pos rs /\ Forall WalRecord_wf rs
    /\ lsns_ok lsn rs /\ lsn' = lsn_after lsn rs
    /\ match stop with
       | AtEnd => rest = []
       | GapAt found => exists r n, decode_one rest = Ok (DecRecord r n) /\ wr_lsn r = found
                                    /\ found <> lsn'
       | BadAt b' o => b' = rest /\ rest <> [] /\ o = decode_one rest
                       /\ forall r n, decode_one rest <> Ok (DecRecord r n)
       end.
Proof.
  remember (length b) as m eqn:Em. revert lsn pos b its Em.
  induction m as [m IH] using lt_wf_ind. intros lsn pos b its Em E.
  destruct (decide (b = [])) as [->|Hb].
  { rewrite parse_nil in E. simplify_eq. by exists []. }
  destruct (decode_one b) as [[r n|]|e] eqn:Ed.
  - destruct (decide (wr_lsn r = lsn)) as [El|El].
    + rewrite (parse_record _ _ _ _ _ _ Ed El) in E.
      destruct (parse seq _ (pos + n) (drop n b)) as [[its1 l1] s1] eqn:E1. simplify_eq.
      pose proof (decode_one_consumes _ _ _ Ed) as Hn. unfold HEADER_LEN in Hn.
      apply decode_one_inv in Ed as (Hwf & -> & Hle & Et).
      destruct (IH (length (drop (encoded_len r) b)) ltac:(rewrite length_drop; lia)
        _ _ _ _ eq_refl E1) as (rest & Eb & Ei & Hw & Hl & -> & Hs).
      exists rest. cbn [map it_rec places lsns_ok lsn_after]. split_and!; try done.
      * rewrite frames_cons, <- app_assoc, <- Eb, <- Et. by rewrite take_drop.
      * by f_equal.
      * by constructor.
    + rewrite (parse_gap _ _ _ _ _ _ Ed El) in E. simplify_eq. exists b.
      split_and!; try done. by exists r, n.
  - rewrite (parse_bad _ _ _ _ Hb) in E by congruence. simplify_eq. exists b.
    split_and!; try done. congruence.
  - rewrite (parse_bad _ _ _ _ Hb) in E by congruence. simplify_eq. exists b.
    split_and!; try done. congruence.
Qed.

(** The bytes of a segment file behind its header. *)
Definition seg_body (dir : Dir) (info : SegmentInfo) : option bytes :=
  drop WAL_SEGMENT_HEADER_LEN <$> fs_read dir (si_path info).

(** A log: every segment starts at the LSN where its predecessor ended and
    holds exactly the frames of its records; behind the last one there may
    be a [tail] that is not a record. *)
Fixpoint log_shape (dir : Dir) (segs : list (SegmentInfo * list WalRecord)) (lsn : Z)
    (tail : bytes) : Prop :=
  match segs with
  | [] => tail = []
  | (info, rs) :: more =>
    si_starting_lsn info = lsn /\ Forall WalRecord_wf rs /\ lsns_ok lsn rs
    /\ match more with
       | [] => seg_body dir info = Some (frames rs ++ tail)
               /\ forall r n, decode_one tail <> Ok (DecRecord r n)
       | _ => seg_body dir info = Some (frames rs)
              /\ log_shape dir more (lsn_after lsn rs) tail
       end
  end.

Definition log_records (segs : list (SegmentInfo * list WalRecord)) : list WalRecord :=
  segs ≫= snd.

Definition log_items (segs : list (SegmentInfo * list WalRecord)) : list Item :=
  segs ≫= (fun p => places (si_segment_seq p.1) WAL_SEGMENT_HEADER_LEN p.2).

Lemma log_items_rec segs : map it_rec (log_items segs) = log_records segs.
Proof.
  unfold log_items, log_records. induction segs as [|[info rs] segs IH]; cbn; [done|].
  by rewrite map_app, places_rec, IH.
Qed.

(** How the reader judges a tail: acknowledged data behind it means corruption. *)
Definition tail_verdict (segs : list (SegmentInfo * list WalRecord)) (lsn : Z) (tail : bytes)
  : option WalReadError :=
  match last segs with
  | Some (info, _) =>
    if valid_record_survives_after tail (lsn_after lsn (log_records segs))
    then Some (MidSegmentCorruption (si_segment_seq info)) else None
  | None => None
  end.

Lemma read_segments_body dir info rest lsn b :
  si_starting_lsn info = lsn -> seg_body dir info = Some b ->
  read_segments dir (info :: rest) lsn
  = continue_with (read_segments dir rest) (si_segment_seq info) (negb (length rest =? 0)%nat)
      (parse (si_segment_seq info) lsn WAL_SEGMENT_HEADER_LEN b).
Proof.
  intros <-. unfold seg_body. cbn [read_segments]. rewrite Z.eqb_refl. cbn [negb].
  destruct (fs_read dir (si_path info)) as [c|]; [|done]. by intros [= <-].
Qed.

Lemma read_segments_shape `{!Crc32cLaws CRC} dir segs lsn tail :
  log_shape dir segs lsn tail ->
  read_segments dir (map fst segs) lsn = (log_items segs, tail_verdict segs lsn tail).
Proof.
  revert lsn. induction segs as [|[info rs] more IH]; intros lsn; [done|].
  cbn [log_shape]. intros (Hs & Hwf & Hl & Hm). cbn [map fst].
  destruct more as [|seg2 more].
  - destruct Hm as [Hb Ht]. rewrite (read_segments_body _ _ _ _ _ Hs Hb).
    rewrite parse_frames by done. unfold tail_verdict, log_items, log_records; cbn [last].
    cbn [mbind list_bind fst snd]. rewrite !app_nil_r.
    destruct (decide (tail = [])) as [->|Hne].
    + rewrite parse_nil. cbn. by rewrite !app_nil_r.
    + rewrite (parse_bad _ _ _ tail Hne Ht). cbn. by rewrite app_nil_r.
  - destruct Hm as [Hb Hm]. rewrite (read_segments_body _ _ _ _ _ Hs Hb).
    pose proof (parse_frames (si_segment_seq info) lsn WAL_SEGMENT_HEADER_LEN rs [] Hwf Hl) as Ep.
    rewrite app_nil_r, parse_nil, app_nil_r in Ep. rewrite Ep. cbn [continue_with].
    rewrite (IH _ Hm). unfold tail_verdict, log_records.
    change (last ((info, rs) :: seg2 :: more)) with (last (seg2 :: more)).
    cbn [mbind list_bind snd]. by rewrite !lsn_after_app.
Qed.

Lemma read_segments_clean dir infos lsn its :
  read_segments dir infos lsn = (its, None) ->
  exists segs tail, map fst segs = infos /\ log_shape dir segs lsn tail
    /\ its = log_items segs /\ tail_verdict segs lsn tail = None.
Proof.
  revert lsn its. induction infos as [|info rest IH]; intros lsn its E.
  { cbn in E. simplify_eq. by exists [], []. }
  destruct (decide (si_starting_lsn info = lsn)) as [Hs|Hs].
  2: { cbn [read_segments] in E. by rewrite (proj2 (Z.eqb_neq _ _)) in E. }
  destruct (seg_body dir info) as [b|] eqn:Hb.
  2: { cbn [read_segments] in E. rewrite Hs, Z.eqb_refl in E. cbn [negb] in E.
       unfold seg_body in Hb. by destruct (fs_read dir (si_path info)). }
  rewrite (read_segments_body _ _ _ _ _ Hs Hb) in E.
  destruct (parse _ _ _ b) as [[its1 lsn1] stop] eqn:Ep. apply parse_inv in Ep.
  destruct Ep as (tl & Eb & Ei & Hw & Hl & -> & Hst). set (rs := map it_rec its1) in *.
  destruct stop as [|found|b' o]; cbn [continue_with verdict] in E.
  - subst tl. rewrite app_nil_r in Eb. subst b.
    destruct (read_segments dir rest (lsn_after lsn rs)) as [its2 e2] eqn:Er. simplify_eq.
    destruct (IH _ _ Er) as (segs & tail & Em & Hsh & -> & Hv).
    destruct segs as [|seg2 segs].
    + cbn in Em. subst rest. cbn in Hsh. subst tail. exists [(info, rs)], [].
      split; [done|]. split; [|split].
      * cbn. rewrite app_nil_r. split_and!; try done.
      * unfold log_items; cbn. by rewrite Ei at 1.
      * done.
    + exists ((info, rs) :: seg2 :: segs), tail. split; [by rewrite map_cons, Em|].
      split; [|split].
      * cbn [log_shape] in *. by split_and!.
      * unfold log_items; cbn [mbind list_bind fst snd]. by rewrite Ei at 1.
      * unfold tail_verdict, log_records in *.
        change (last ((info, rs) :: seg2 :: segs)) with (last (seg2 :: segs)).
        cbn [mbind list_bind snd] in *. rewrite !lsn_after_app in *. done.
  - simplify_eq.
  - destruct Hst as (-> & Hne & -> & Hno).
    destruct (Nat.eqb_spec (length rest) 0) as [E0|]; cbn [negb] in E; [|done].
    apply nil_length_inv in E0 as ->.
    destruct (valid_record_survives_after tl (lsn_after lsn rs)) eqn:Ev; [done|]. simplify_eq.
    exists [(info, rs)], tl. split; [done|]. split; [|split].
    + cbn [log_shape]. split; [done|]. split; [done|]. split; [done|]. by split.
    + unfold log_items; cbn. rewrite app_nil_r. by rewrite Ei at 1.
    + unfold tail_verdict, log_records; cbn. by rewrite app_nil_r, Ev.
Qed.

(** Whatever happens, the records delivered are well formed and consecutive. *)
Lemma read_segments_lsns dir infos lsn its e :
  read_segments dir infos lsn = (its, e) ->
  lsns_ok lsn (map it_rec its) /\ Forall WalRecord_wf (map it_rec its).
Proof.
  revert lsn its e. induction infos as [|info rest IH]; intros lsn its e E.
  { cbn in E. by simplify_eq. }
  destruct (decide (si_starting_lsn info = lsn)) as [Hs|Hs].
  2: { cbn [read_segments] in E. rewrite (proj2 (Z.eqb_neq _ _)) in E by done.
       cbn [negb] in E. by simplify_eq. }
  destruct (seg_body dir info) as [b|] eqn:Hb.
  2: { cbn [read_segments] in E. rewrite Hs, Z.eqb_refl in E. cbn [negb] in E.
       unfold seg_body in Hb. destruct (fs_read dir (si_path info)); [done|]. by simplify_eq. }
  rewrite (read_segments_body _ _ _ _ _ Hs Hb) in E.
  destruct (parse _ _ _ b) as [[its1 lsn1] stop] eqn:Ep. apply parse_inv in Ep.
  destruct Ep as (tl & Eb & Ei & Hw & Hl & -> & Hst).
  destruct stop; cbn [continue_with] in E; [|by simplify_eq..].
  destruct (read_segments dir rest _) as [its2 e2] eqn:Er. simplify_eq.
  destruct (IH _ _ _ Er) as [Hl2 Hw2]. rewrite map_app. split.
  - by apply lsns_ok_app.
  - by apply Forall_app.
Qed.
End spec.
