(* ===== verification/WalReaderOpen.v ===== *)
(** Opening a WAL directory, and the reader's contract.

    File names and the numbers in them round trip; the segments a reader
    scans are the directory's [.wal] entries in consecutive order, whatever
    order the directory lists them in.  The contract theorems put this
    together with [WalReaderSpec]: a healthy log is delivered record for
    record, and a clean end means nothing was lost. *)

From stdpp Require Import sorting.
From S2P Require Import Prelude Crc32c Ids WalKinds WalRecord WalSegment WalReader WalReaderSpec.

(** ** File names *)

Lemma parse_digits_app a b :
  parse_digits (a ++ b) = parse_digits a * 10 ^ Z.of_nat (length b) + parse_digits b.
Proof.
  unfold parse_digits. rewrite foldl_app. generalize (foldl (fun acc c => acc * 10 + (byte_val c - 48)) 0 a).
  intros x. revert x. induction b as [|c b IH]; intros x; [cbn; lia|].
  cbn [foldl length]. rewrite (IH (x * 10 + _)), (IH (0 * 10 + _)).
  rewrite Nat2Z.inj_succ, Z.pow_succ_r by lia. lia.
Qed.

Lemma digit_val d : 0 <= d < 10 -> byte_val (byte_of (48 + d)) = 48 + d.
Proof. intros H. apply byte_val_of. unfold uint. lia. Qed.

(** The digits [decimal] writes in front of [acc]. *)
Lemma decimal_spec fuel n acc k :
  0 <= n < 10 ^ Z.of_nat k -> (1 <= k <= fuel)%nat ->
  exists ds, decimal fuel n acc = ds ++ acc /\ parse_digits ds = n
    /\ forallb is_ascii_digit ds = true /\ (1 <= length ds <= k)%nat.
Proof.
  revert n acc k. induction fuel as [|fuel IH]; intros n acc k Hn Hk; [lia|].
  cbn [decimal]. pose proof (Z.mod_pos_bound n 10 eq_refl) as Hm.
  pose proof (Z.div_mod n 10 ltac:(lia)) as Hdm.
  assert (is_ascii_digit (byte_of (48 + n mod 10)) = true) as Hd
    by (unfold is_ascii_digit; rewrite digit_val by done; lia).
  destruct (Z.eqb_spec (n / 10) 0) as [E|E].
  - exists [byte_of (48 + n mod 10)]. split; [done|]. split; [|cbn [forallb length]; rewrite Hd; split; [done|lia]].
    unfold parse_digits; cbn [foldl]. rewrite digit_val by done. lia.
  - destruct k as [|[|k]]; [lia|cbn in Hn; rewrite Z.div_small in E; lia|].
    destruct (IH (n / 10) (byte_of (48 + n mod 10) :: acc) (S k)) as (ds & E1 & E2 & E3 & E4).
    { rewrite (Nat2Z.inj_succ (S k)), Z.pow_succ_r in Hn by lia. lia. }
    { lia. }
    exists (ds ++ [byte_of (48 + n mod 10)]). rewrite E1, <- app_assoc. split; [done|].
    split; [|rewrite forallb_app, E3, length_app; cbn [forallb length]; rewrite Hd; split; [done|lia]].
    rewrite parse_digits_app, E2. unfold parse_digits; cbn [foldl length].
    rewrite digit_val by done. lia.
Qed.

Lemma parse_digits_zeros n : parse_digits (replicate n (byte_of 48)) = 0.
Proof.
  induction n as [|n IH]; [done|].
  change (replicate (S n) (byte_of 48)) with ([byte_of 48] ++ replicate n (byte_of 48)).
  rewrite parse_digits_app, IH. unfold parse_digits; cbn [foldl].
  change (byte_val (byte_of 48)) with 48. lia.
Qed.

Lemma parse_digits_bound ds :
  forallb is_ascii_digit ds = true -> 0 <= parse_digits ds < 10 ^ Z.of_nat (length ds).
Proof.
  induction ds as [|c ds IH] using rev_ind; intros H; [cbn; lia|].
  rewrite forallb_app in H. apply andb_prop in H as [H1 H2]. specialize (IH H1).
  cbn in H2. rewrite andb_true_r in H2. unfold is_ascii_digit in H2.
  rewrite parse_digits_app, length_app. unfold parse_digits at 2 4; cbn [foldl length].
  rewrite Nat2Z.inj_add, Z.pow_add_r by lia. change (10 ^ Z.of_nat 1) with 10. lia.
Qed.

(** The last dot of a [.wal] name is the one of its suffix. *)
Lemma extension_wal stem :
  (0 < length stem)%nat -> extension (stem ++ DOT_WAL) = Some (drop 1 DOT_WAL).
Proof.
  intros Hs. unfold extension. rewrite bool_decide_false.
  2: { intros E. apply (f_equal (fun l => length l)) in E. rewrite length_app in E. cbn in E. lia. }
  rewrite rev_app_distr. cbn [rev DOT_WAL app].
  change (list_find (fun c => c = DOT) (Byte.x6c :: Byte.x61 :: Byte.x77 :: Byte.x2e :: rev stem))
    with (Some (3%nat, Byte.x2e)).
  cbv iota beta. rewrite length_app. cbn [DOT_WAL length].
  rewrite (proj2 (Nat.eqb_neq _ _)) by lia. f_equal.
  replace (length stem + 4 - 3)%nat with (length stem + 1)%nat by lia. by rewrite drop_app_add.
Qed.

Lemma segment_path_spec seq :
  0 <= seq < 10 ^ 10 ->
  exists stem, segment_path seq = stem ++ DOT_WAL /\ length stem = 10%nat
    /\ forallb is_ascii_digit stem = true /\ parse_digits stem = seq.
Proof.
  intros Hs. unfold segment_path.
  destruct (decimal_spec 20 seq [] 10) as (ds & E1 & E2 & E3 & E4); [done|lia|].
  rewrite E1, app_nil_r. exists (replicate (10 - length ds) (byte_of 48) ++ ds).
  rewrite <- app_assoc. split_and!; [done| | |].
  - rewrite length_app, length_replicate. lia.
  - rewrite forallb_app, E3, andb_true_r. apply forallb_forall. intros x Hx.
    apply list_elem_of_In, elem_of_replicate in Hx as [-> _]. done.
  - by rewrite parse_digits_app, parse_digits_zeros, E2.
Qed.

Lemma parse_stem stem :
  length stem = 10%nat -> forallb is_ascii_digit stem = true ->
  parse_segment_seq_from_filename (stem ++ DOT_WAL) = Ok (parse_digits stem).
Proof.
  intros Hl Hd. unfold parse_segment_seq_from_filename. rewrite length_app, Hl. cbn [DOT_WAL length].
  change (10 + 4 - 4)%nat with 10%nat. rewrite drop_app_length', take_app_length' by done.
  rewrite bool_decide_true by done. cbn [negb]. by rewrite Hl, Hd.
Qed.

Lemma segment_path_parse seq :
  0 <= seq < 10 ^ 10 ->
  extension (segment_path seq) = Some (drop 1 DOT_WAL)
  /\ parse_segment_seq_from_filename (segment_path seq) = Ok seq.
Proof.
  intros Hs. destruct (segment_path_spec seq Hs) as (stem & -> & Hl & Hd & <-). split.
  - apply extension_wal. lia.
  - by apply parse_stem.
Qed.

(** The name the writer gives segment [seq] is one the reader
    takes as a segment file, and it reads [seq] back from it; this covers
    every sequence number of at most ten digits. *)
Lemma segment_filename_roundtrip seq :
  0 <= seq < 10 ^ 10 ->
  extension (segment_path seq) = Some (drop 1 DOT_WAL)
  /\ parse_segment_seq_from_filename (segment_path seq) = Ok seq.
Proof. apply segment_path_parse. Qed.

Lemma segment_filename_roundtrip_witness :
  parse_segment_seq_from_filename (segment_path 42) = Ok 42.
Proof. apply (segment_filename_roundtrip 42). lia. Defined.

(** ** Opening *)

Section open_facts.
Context `{CRC : Crc32c}.

Lemma header_info path contents uuid seq info :
  read_and_validate_segment_header path contents uuid seq = Ok info ->
  si_path info = path /\ si_segment_seq info = seq
  /\ (WAL_SEGMENT_HEADER_LEN <= length contents)%nat.
Proof.
  unfold read_and_validate_segment_header.
  destruct (Z.ltb_spec (Z.of_nat (length contents)) (Z.of_nat WAL_SEGMENT_HEADER_LEN)); [done|].
  destruct (negb (bool_decide _)); [done|]. destruct (negb (_ =? _)); [done|].
  destruct (negb (_ =? _)); [done|]. destruct (negb (bool_decide _)); [done|].
  destruct (Z.eqb_spec (from_le_bytes (slice 24 32 (take WAL_SEGMENT_HEADER_LEN contents))) seq);
    [|done]. cbn [negb]. intros E. apply Ok_inj in E. subst info. cbn. split_and!; [done..|lia].
Qed.

Lemma parse_seq_range name seq :
  parse_segment_seq_from_filename name = Ok seq -> 0 <= seq < 10 ^ 10.
Proof.
  unfold parse_segment_seq_from_filename. destruct (negb (bool_decide _)); [done|].
  destruct (negb (length _ =? 10)%nat) eqn:E1; [done|]. cbn [orb].
  destruct (forallb is_ascii_digit _) eqn:E2; [|done]. cbn [negb]. intros [= <-].
  apply negb_false_iff, Nat.eqb_eq in E1. apply parse_digits_bound in E2.
  by rewrite E1 in E2.
Qed.

(** The scan collects one info per [.wal] entry. *)
Lemma scan_dir_range dir uuid infos :
  scan_dir dir uuid = Ok infos -> Forall (fun i => 0 <= si_segment_seq i < 10 ^ 10) infos.
Proof.
  revert infos. induction dir as [|[path contents] dir IH]; intros infos; cbn [scan_dir].
  { by intros [= <-]. }
  destruct (negb _); [apply IH|].
  destruct (parse_segment_seq_from_filename path) as [seq|] eqn:Ep; [|done].
  destruct (read_and_validate_segment_header _ _ _ _) as [info|] eqn:Eh; [|done].
  destruct (scan_dir dir uuid) as [infos'|]; [|done]. intros [= <-].
  constructor; [|by apply IH]. apply header_info in Eh as (_ & -> & _). by eapply parse_seq_range.
Qed.

Lemma scan_dir_perm dir dir' uuid infos :
  dir ≡ₚ dir' -> scan_dir dir uuid = Ok infos ->
  exists infos', scan_dir dir' uuid = Ok infos' /\ infos ≡ₚ infos'.
Proof.
  intros Hp. revert infos.
  induction Hp as [|[p c] d d' Hp IH|[p c] [p' c'] d|d d1 d' Hp1 IH1 Hp2 IH2]; intros infos E.
  - eauto.
  - cbn [scan_dir] in *. destruct (negb _); [by apply IH|].
    destruct (parse_segment_seq_from_filename p); [|done].
    destruct (read_and_validate_segment_header _ _ _ _); [|done].
    destruct (scan_dir d uuid); [|done]. injection E as <-.
    destruct (IH _ eq_refl) as (l' & -> & Hl). eexists. split; [done|]. by constructor.
  - cbn [scan_dir] in *.
    destruct (negb (bool_decide (extension p = _))), (negb (bool_decide (extension p' = _)));
      destruct (parse_segment_seq_from_filename p) as [q|], (parse_segment_seq_from_filename p') as [q'|];
      try done;
      destruct (scan_dir d uuid) as [l|];
      repeat destruct (read_and_validate_segment_header _ _ _ _); try done;
      injection E as <-; eexists; (split; [done|]); try done; constructor.
  - destruct (IH1 _ E) as (l1 & E1 & Hl1). destruct (IH2 _ E1) as (l2 & E2 & Hl2).
    exists l2. split; [done|]. by etransitivity.
Qed.

#[export] Instance seq_le_trans : Transitive seq_le.
Proof. unfold seq_le. intros a b c. lia. Qed.
#[export] Instance seq_le_total : Total seq_le.
Proof. unfold seq_le. intros a b. lia. Qed.

(** Consecutive numbering. *)
Definition consecutive (infos : list SegmentInfo) : Prop :=
  forall i a b, infos !! i = Some a -> infos !! S i = Some b ->
    si_segment_seq b = si_segment_seq a + 1.

Lemma check_contiguous_spec infos :
  Forall (fun i => 0 <= si_segment_seq i < 10 ^ 10) infos ->
  check_contiguous infos = Ok tt <-> consecutive infos.
Proof.
  induction infos as [|a [|b infos] IH]; intros Hr.
  - split; [intros _ [|i] ? ?; done|done].
  - split; [intros _ [|i] ? ?; done|done].
  - apply Forall_cons in Hr as [Ha Hr]. cbn [check_contiguous].
    rewrite wrap_small by (unfold uint; lia).
    destruct (Z.eqb_spec (si_segment_seq b) (si_segment_seq a + 1)) as [E|E]; cbn [negb].
    + rewrite IH by done. split.
      * intros H [|i] x y Hx Hy; [cbn in *; by simplify_eq|]. by apply (H i).
      * intros H i x y Hx Hy. by apply (H (S i)).
    + split; [done|]. intros H. by specialize (H 0%nat a b eq_refl eq_refl).
Qed.

Lemma consecutive_lt infos :
  consecutive infos -> forall i j a b, infos !! i = Some a -> infos !! j = Some b ->
  si_segment_seq b - si_segment_seq a = Z.of_nat j - Z.of_nat i.
Proof.
  intros Hc.
  assert (forall n i a b, infos !! i = Some a -> infos !! (i + n)%nat = Some b ->
    si_segment_seq b = si_segment_seq a + Z.of_nat n) as H.
  { induction n as [|n IH]; intros i a b Ha Hb.
    - rewrite Nat.add_0_r in Hb. simplify_eq. lia.
    - destruct (lookup_lt_is_Some_2 infos (i + n)) as [c Ec].
      { apply lookup_lt_Some in Hb. lia. }
      rewrite Nat.add_succ_r in Hb. rewrite (Hc _ _ _ Ec Hb), (IH i a c Ha Ec). lia. }
  intros i j a b Ha Hb. destruct (decide (i <= j)%nat).
  - rewrite (H (j - i)%nat i a b Ha) by (by rewrite Nat.add_comm, Nat.sub_add). lia.
  - rewrite (H (i - j)%nat j b a Hb) by (by rewrite Nat.add_comm, Nat.sub_add by lia). lia.
Qed.

(** What [open] establishes. *)
Lemma open_spec dir uuid r :
  open dir uuid = Ok r ->
  exists infos, scan_dir dir uuid = Ok infos /\ segments r = merge_sort seq_le infos
    /\ consecutive (segments r)
    /\ r = {| segments := segments r; current_idx := 0; current := None;
              expected_next_lsn := match segments r with s :: _ => si_starting_lsn s | [] => 1 end;
              last_decoded_lsn := None; last_record_end_offset := None;
              last_record_segment_seq := None;
              finished := match segments r with [] => true | _ => false end |}.
Proof.
  unfold open. destruct (scan_dir dir uuid) as [infos|] eqn:Es; [|done].
  destruct (check_contiguous _) as [[]|] eqn:Ec; [|done]. intros E. apply Ok_inj in E. subst r.
  exists infos. cbn [segments]. split_and!; try done.
  apply check_contiguous_spec; [|done]. rewrite merge_sort_Permutation.
  by eapply scan_dir_range.
Qed.

Lemma open_ready dir uuid r :
  open dir uuid = Ok r ->
  pending dir r = read_segments dir (segments r) (expected_next_lsn r)
  /\ last_place r = (None, None, None) /\ (segments r <> [] -> ready r)
  /\ (segments r = [] -> finished r = true).
Proof.
  intros E. destruct (open_spec dir uuid r E) as (infos & _ & _ & _ & Er). rewrite Er.
  unfold pending, ready; cbn [current_idx segments current expected_next_lsn finished].
  rewrite drop_0. split_and!; [by destruct (segments r)|done| |by intros ->].
  intros Hs. split; [|by left]. by destruct (segments r).
Qed.
End open_facts.

(** ** Contract *)

Section reader_contract.
Context `{CRC : Crc32c}.

Lemma survives_spec b lsn :
  valid_record_survives_after b lsn = true <->
  exists k rec n, decode_one (drop k b) = Ok (DecRecord rec n) /\ lsn <= wr_lsn rec.
Proof.
  induction b as [|c b IH]; cbn [valid_record_survives_after].
  - split; [done|]. intros (k & rec & n & E & _). by rewrite drop_nil in E.
  - assert ((exists k rec n, decode_one (drop k (c :: b)) = Ok (DecRecord rec n) /\ lsn <= wr_lsn rec)
      <-> (exists rec n, decode_one (c :: b) = Ok (DecRecord rec n) /\ lsn <= wr_lsn rec)
          \/ exists k rec n, decode_one (drop k b) = Ok (DecRecord rec n) /\ lsn <= wr_lsn rec) as ->.
    { split.
      - intros ([|k] & rec & n & E & Hl); [left; by exists rec, n|right]. by exists k, rec, n.
      - intros [(rec & n & E & Hl)|(k & rec & n & E & Hl)]; [by exists 0%nat, rec, n|].
        by exists (S k), rec, n. }
    rewrite <- IH. destruct (decode_one (c :: b)) as [[rec n|]|e].
    + destruct (Z.leb_spec lsn (wr_lsn rec)).
      * split; [|done]. intros _. left. by exists rec, n.
      * split; [by right|]. intros [(rec' & n' & E & ?)|?]; [|done].
        injection E as <- _. lia.
    + split; [by right|]. by intros [(? & ? & ? & _)|?].
    + split; [by right|]. by intros [(? & ? & ? & _)|?].
Qed.

(** A run of the iterator that returned determines what was pending. *)
Lemma read_all_inv dir r its e fuel recs e' r' :
  ready r -> pending dir r = (its, e) -> read_all fuel dir r = Some (recs, e', r') ->
  recs = map it_rec its /\ e' = e.
Proof.
  revert r its recs. induction fuel as [|fuel IH]; intros r its recs Hr Hp E; [done|].
  cbn [read_all] in E. destruct (next_spec dir r Hr) as ([r1 item] & En & Hok).
  rewrite En in E; cbn [mbind option_bind] in E. rewrite Hp in Hok.
  destruct its as [|it its].
  - destruct Hok as [Ei _]. cbn in Ei. subst item. destruct e; cbn in E; by simplify_eq.
  - destruct Hok as (Ei & Hp1 & Ha). cbn in Ei, Hp1, Ha. subst item.
    destruct (read_all fuel dir r1) as [[[recs1 e1] r2]|] eqn:E1; [|done]. cbn in E. simplify_eq.
    destruct (IH r1 its recs1) as [-> ->]; [|done..].
    split; [apply Ha|right; apply Ha].
Qed.

(** The result does not depend on the fuel. *)
Lemma read_all_det dir r f1 f2 x y :
  read_all f1 dir r = Some x -> read_all f2 dir r = Some y -> x = y.
Proof.
  revert r f2 x y. induction f1 as [|f1 IH]; intros r [|f2] x y; try done. cbn [read_all].
  destruct (next dir r) as [[r1 [[rec|e]|]]|]; cbn; [|congruence..|done].
  destruct (read_all f1 dir r1) as [[[recs1 e1] r2]|] eqn:E1; [|done].
  destruct (read_all f2 dir r1) as [[[recs2 e2] r3]|] eqn:E2; [|done]. cbn.
  pose proof (IH _ _ _ _ E1 E2). congruence.
Qed.

(** A healthy log is delivered exactly: the records of all segments in
    order, then a clean end - or a corruption error when, behind the last
    record, a valid record with a later LSN can still be decoded.  The
    reader's position is then that of the last record. *)
Theorem reader_delivers_log `{!Crc32cLaws CRC} dir uuid r segs tail fuel :
  open dir uuid = Ok r -> segs <> [] -> map fst segs = segments r ->
  log_shape dir segs (expected_next_lsn r) tail -> (length (log_records segs) < fuel)%nat ->
  exists r', read_all fuel dir r
      = Some (log_records segs, tail_verdict segs (expected_next_lsn r) tail, r')
    /\ last_place r' = place_after (None, None, None) (log_items segs).
Proof.
  intros Eo Hne Em Hsh Hf. destruct (open_ready dir uuid r Eo) as (Hp & Hl & Hr & _).
  rewrite <- Em, (read_segments_shape dir segs _ tail Hsh) in Hp.
  assert (ready r) as Hready by (apply Hr; rewrite <- Em; by destruct segs).
  rewrite <- log_items_rec, length_map in Hf.
  destruct (read_all_spec dir r _ _ fuel Hready Hp Hf) as (r' & E & _ & _ & Hl').
  exists r'. rewrite E, log_items_rec, Hl', Hl. done.
Qed.

(** C29: no silent loss: if the reader ends without an error, the directory
    was a healthy log, everything in it was delivered, and no valid record
    with an LSN that is still due can be decoded at any offset behind the
    last delivered one. *)
Theorem reader_no_silent_loss dir uuid r fuel recs r' :
  open dir uuid = Ok r -> segments r <> [] -> read_all fuel dir r = Some (recs, None, r') ->
  exists segs tail, map fst segs = segments r /\ log_shape dir segs (expected_next_lsn r) tail
    /\ recs = log_records segs
    /\ forall k rec n, decode_one (drop k tail) = Ok (DecRecord rec n) ->
       wr_lsn rec < lsn_after (expected_next_lsn r) recs.
Proof.
  intros Eo Hne E. destruct (open_ready dir uuid r Eo) as (Hp & _ & Hr & _).
  destruct (read_segments dir (segments r) (expected_next_lsn r)) as [its e] eqn:Ers.
  destruct (read_all_inv dir r its e fuel recs None r' (Hr Hne) Hp E) as [-> <-].
  destruct (read_segments_clean _ _ _ _ Ers) as (segs & tail & Em & Hsh & -> & Hv).
  exists segs, tail. rewrite log_items_rec. split_and!; try done.
  intros k rec n Ed. destruct (Z.lt_ge_cases (wr_lsn rec)
    (lsn_after (expected_next_lsn r) (log_records segs))) as [|Hge]; [done|].
  unfold tail_verdict in Hv. destruct (last segs) as [[info rs]|] eqn:El.
  - assert (valid_record_survives_after tail (lsn_after (expected_next_lsn r) (log_records segs)) = true)
      as Hs by (apply survives_spec; eauto). by rewrite Hs in Hv.
  - apply last_None in El. subst segs. by rewrite <- Em in Hne.
Qed.

(** C39: The iterator always comes to an end, and every record it delivered,
    whether or not it ended in an error, is well formed, with consecutive
    LSNs from the starting LSN of the first segment. *)
Theorem reader_terminates_in_order dir uuid r :
  open dir uuid = Ok r ->
  exists n recs e r', (forall fuel, (n < fuel)%nat -> read_all fuel dir r = Some (recs, e, r'))
    /\ finished r' = true /\ lsns_ok (expected_next_lsn r) recs /\ Forall WalRecord_wf recs.
Proof.
  intros Eo. destruct (open_ready dir uuid r Eo) as (Hp & _ & Hr & Hf).
  destruct (decide (segments r = [])) as [Hs|Hs].
  { exists 0%nat, [], None, r. split; [|split_and!; try done; by apply Hf].
    intros [|fuel] Hfuel; [lia|]. cbn. unfold next. by rewrite Hf. }
  destruct (read_segments dir (segments r) (expected_next_lsn r)) as [its e] eqn:Ers.
  destruct (read_segments_lsns _ _ _ _ _ Ers) as [Hl Hw].
  destruct (read_all_spec dir r its e (S (length its)) (Hr Hs) Hp ltac:(lia)) as (r' & E & Hfin & _).
  exists (length its), (map it_rec its), e, r'. split_and!; try done.
  intros fuel Hfuel.
  destruct (read_all_spec dir r its e fuel (Hr Hs) Hp ltac:(lia)) as (r2 & E2 & _ & Hs2 & Hp2).
  rewrite E2. f_equal. eapply read_all_det; [exact E2|exact E].
Qed.

(** Sorting finds the consecutive numbering, if there is one. *)
Lemma merge_sort_consecutive infos infos' :
  consecutive infos -> infos ≡ₚ infos' -> merge_sort seq_le infos' = infos.
Proof.
  intros Hc Hp.
  assert (StronglySorted seq_le infos) as Hs.
  { clear Hp. induction infos as [|a infos IH]; constructor.
    - apply IH. intros i x y Hx Hy. by apply (Hc (S i)).
    - apply Forall_lookup. intros i b Hb.
      pose proof (consecutive_lt _ Hc 0 (S i) a b eq_refl Hb). unfold seq_le. lia. }
  apply (StronglySorted_unique_strong seq_le); [|apply StronglySorted_merge_sort; apply _|done|].
  - intros x1 x2 H1 H2 L1 L2. rewrite merge_sort_Permutation, <- Hp in H1.
    apply list_elem_of_lookup in H1 as [i Hi], H2 as [j Hj].
    pose proof (consecutive_lt _ Hc i j x1 x2 Hi Hj) as Hd. unfold seq_le in *.
    assert (i = j) as -> by lia. congruence.
  - by rewrite merge_sort_Permutation.
Qed.

(** Any order of the directory entries opens to the same reader. *)
Lemma open_perm dir dir' uuid r : dir ≡ₚ dir' -> open dir uuid = Ok r -> open dir' uuid = Ok r.
Proof.
  intros Hp Eo. destruct (open_spec dir uuid r Eo) as (infos & Es & Eseg & Hc & Er).
  destruct (scan_dir_perm dir dir' uuid infos Hp Es) as (infos' & Es' & Hperm).
  assert (merge_sort seq_le infos' = merge_sort seq_le infos) as Em.
  { apply merge_sort_consecutive; [by rewrite <- Eseg|]. by rewrite merge_sort_Permutation. }
  unfold open in *. rewrite Es in Eo. rewrite Es', Em. exact Eo.
Qed.

(** The order in which the directory lists its entries does not matter:
    any permutation of them opens to the same reader, whose segments are
    consecutively numbered. *)
Lemma reader_open_order_irrelevant dir dir' uuid r :
  dir ≡ₚ dir' -> open dir uuid = Ok r -> open dir' uuid = Ok r /\ consecutive (segments r).
Proof.
  intros Hp Eo. split; [by eapply open_perm|].
  by destruct (open_spec dir uuid r Eo) as (infos & _ & _ & Hc & _).
Qed.

(** ** Reading from an LSN *)

Definition at_least (start : Z) (rec : WalRecord) : Prop := start <= wr_lsn rec.
#[export] Instance at_least_dec start rec : Decision (at_least start rec).
Proof. unfold at_least. apply _. Defined.

(** Skipping: the first record at or above the start, with what follows it. *)
Lemma iter_next_spec dir it its e fuel :
  ready (if_inner it) -> pending dir (if_inner it) = (its, e) -> (length its < fuel)%nat ->
  exists it' out, iter_next fuel dir it = Some (it', out) /\ if_start_lsn it' = if_start_lsn it /\
    match filter (at_least (if_start_lsn it)) (map it_rec its) with
    | [] => out = (Err <$> e)
    | rec :: recs => out = Some (Ok rec) /\ ready (if_inner it')
      /\ exists its', pending dir (if_inner it') = (its', e) /\ (length its' < length its)%nat
         /\ recs = filter (at_least (if_start_lsn it)) (map it_rec its')
    end.
Proof.
  revert it fuel. induction its as [|i its IH]; intros it [|fuel] Hr Hp Hf; cbn in Hf; try lia;
    cbn [iter_next]; destruct (next_spec dir (if_inner it) Hr) as ([r1 item] & En & Hok);
    rewrite En; cbn [mbind option_bind]; rewrite Hp in Hok.
  - destruct Hok as [Ei _]. cbn in Ei. subst item. cbn [map]. rewrite filter_nil.
    destruct e; eexists _, _; by split_and!.
  - destruct Hok as (Ei & Hp1 & Ha). cbn [fst snd] in Ei, Hp1, Ha. subst item.
    assert (ready r1) as Hr1 by (split; [apply Ha|right; apply Ha]).
    cbn [map if_start_lsn]. rewrite filter_cons. unfold at_least at 1.
    destruct (Z.ltb_spec (wr_lsn (it_rec i)) (if_start_lsn it)) as [Hlt|Hge]; case_decide; try lia.
    + destruct (IH {| if_inner := r1; if_start_lsn := if_start_lsn it |} fuel Hr1 Hp1 ltac:(lia))
        as (it' & out & E & Es & Hm). exists it', out. split; [done|]. split; [done|].
      cbn [if_start_lsn] in Hm. destruct (filter _ _); [done|].
      destruct Hm as (? & ? & its' & ? & ? & ?). split_and!; try done. exists its'.
      split_and!; try done. cbn. lia.
    + eexists _, _. split; [done|]. split; [done|]. split_and!; try done. exists its.
      split_and!; try done. cbn. lia.
Qed.

Lemma iter_all_spec dir it its e fuel :
  ready (if_inner it) -> pending dir (if_inner it) = (its, e) -> (length its < fuel)%nat ->
  iter_all fuel dir it = Some (filter (at_least (if_start_lsn it)) (map it_rec its), e).
Proof.
  revert it its. induction fuel as [|fuel IH]; intros it its Hr Hp Hf; [lia|].
  cbn [iter_all]. destruct (iter_next_spec dir it its e (S fuel) Hr Hp Hf)
    as (it' & out & E & Es & Hm). rewrite E; cbn [mbind option_bind].
  destruct (filter _ (map it_rec its)) as [|rec recs].
  - subst out. by destruct e.
  - destruct Hm as (-> & Hr' & its' & Hp' & Hl & ->).
    rewrite (IH it' its' Hr' Hp') by lia. cbn. by rewrite Es.
Qed.

(** All LSNs of consecutive records lie between the first and the next one. *)
Lemma lsns_ok_below lsn rs :
  0 <= lsn -> lsn + Z.of_nat (length rs) < 2 ^ 64 -> lsns_ok lsn rs ->
  Forall (fun r => lsn <= wr_lsn r < lsn + Z.of_nat (length rs)) rs.
Proof.
  revert lsn. induction rs as [|r rs IH]; intros lsn H0 Hl; cbn [length lsns_ok] in *;
    [by constructor|].
  rewrite wrap_small by (unfold uint; lia). intros [El Hr]. constructor; [lia|].
  eapply Forall_impl; [apply (IH (lsn + 1)); [lia..|done]|]. cbn beta. intros x. lia.
Qed.

Lemma filter_below start rs :
  Forall (fun r => wr_lsn r < start) rs -> filter (at_least start) rs = [].
Proof.
  intros Hf. apply filter_none. eapply Forall_impl; [exact Hf|]. unfold at_least. intros r. lia.
Qed.

(** Dropping leading segments drops only records below the start. *)
Lemma drop_shape dir segs lsn tail start :
  log_shape dir segs lsn tail -> segs <> [] -> 0 <= lsn ->
  lsn + Z.of_nat (length (log_records segs)) < 2 ^ 64 ->
  exists segs' lsn', drop (drop_count (map fst segs) start) (map fst segs) = map fst segs'
    /\ segs' <> [] /\ log_shape dir segs' lsn' tail
    /\ match map fst segs' with s :: _ => si_starting_lsn s | [] => start end = lsn'
    /\ tail_verdict segs' lsn' tail = tail_verdict segs lsn tail
    /\ filter (at_least start) (log_records segs') = filter (at_least start) (log_records segs)
    /\ (length (log_records segs') <= length (log_records segs))%nat.
Proof.
  revert lsn. induction segs as [|[info rs] [|[info2 rs2] more] IH]; intros lsn Hsh Hne H0 Hl; [done|..].
  - exists [(info, rs)], lsn. split_and!; try done. apply Hsh.
  - cbn [map fst drop_count].
    destruct (Z.leb_spec (si_starting_lsn info2) start) as [Hle|Hgt].
    2: { exists ((info, rs) :: (info2, rs2) :: more), lsn. split_and!; try done. apply Hsh. }
    destruct Hsh as (Hs & Hwf & Hls & Hb & Hm).
    change (log_records ((info, rs) :: (info2, rs2) :: more))
      with (rs ++ log_records ((info2, rs2) :: more)) in *.
    rewrite length_app in Hl.
    assert (lsn_after lsn rs = lsn + Z.of_nat (length rs)) as Ea by (apply lsn_after_small; lia).
    destruct (IH _ Hm ltac:(done) ltac:(lia) ltac:(lia)) as (segs' & lsn' & Ed & Hne' & Hsh' & Ef & Ev & Efl & Hlen).
    exists segs', lsn'. rewrite skipn_cons. split_and!; try done.
    + rewrite Ev. unfold tail_verdict.
      change (last ((info, rs) :: (info2, rs2) :: more)) with (last ((info2, rs2) :: more)).
      change (log_records ((info, rs) :: (info2, rs2) :: more))
        with (rs ++ log_records ((info2, rs2) :: more)). by rewrite lsn_after_app.
    + rewrite Efl, filter_app, (filter_below start rs); [done|].
      eapply Forall_impl; [apply (lsns_ok_below lsn); [lia..|done]|]. cbn. intros x Hx.
      destruct Hm as (Hm & _). lia.
    + rewrite length_app. lia.
Qed.

(** Reading from [start_lsn] delivers exactly the log's records at or
    above it, in order, with the same verdict on the tail. *)
Theorem reader_iter_from `{!Crc32cLaws CRC} dir uuid r segs tail start it fuel :
  open dir uuid = Ok r -> segs <> [] -> map fst segs = segments r ->
  log_shape dir segs (expected_next_lsn r) tail -> 0 <= expected_next_lsn r ->
  expected_next_lsn r + Z.of_nat (length (log_records segs)) < 2 ^ 64 ->
  iter_from dir uuid start = Ok it -> (length (log_records segs) < fuel)%nat ->
  iter_all fuel dir it = Some (filter (at_least start) (log_records segs),
                               tail_verdict segs (expected_next_lsn r) tail).
Proof.
  intros Eo Hne Em Hsh H0 Hl Ei Hf. unfold iter_from in Ei. rewrite Eo in Ei.
  apply Ok_inj in Ei. subst it. rewrite <- Em.
  destruct (drop_shape dir segs _ tail start Hsh Hne H0 Hl)
    as (segs' & lsn' & -> & Hne' & Hsh' & -> & <- & <- & Hlen).
  pose proof (read_segments_shape dir segs' lsn' tail Hsh') as Hp.
  rewrite <- (log_items_rec segs'), length_map in Hlen.
  rewrite <- (log_items_rec segs'). apply iter_all_spec; cbn [if_inner]; [| |lia].
  - split; cbn; [by destruct segs'|by left].
  - rewrite <- Hp. unfold pending; cbn [current_idx segments current expected_next_lsn].
    rewrite drop_0. by destruct segs'.
Qed.
End reader_contract.

(** ** A two-segment log with a torn tail *)

Module ReaderExample.
Import Castagnoli.
Definition uuid : bytes := replicate 16 Byte.x11.
Definition rec (lsn : Z) : WalRecord :=
  {| wr_lsn := lsn; wr_kind := KForget; wr_flags := 0; wr_timestamp_ns := 1700;
     wr_space_id_lo64 := 42; wr_payload := [Byte.x01; Byte.x02] |}.
Definition torn : bytes := take 20 (frame (rec 4)).
Definition seg_file (seq lsn : Z) (body : bytes) : bytes * bytes :=
  (segment_path seq, segment_header_bytes (segment_header seq lsn uuid 1700) ++ body).
Definition dir : Dir :=
  [seg_file 1 3 (frames [rec 3] ++ torn); ([Byte.x78], [Byte.x00]);
   seg_file 0 1 (frames [rec 1; rec 2])].

Definition info (seq lsn size : Z) : SegmentInfo :=
  {| si_path := segment_path seq; si_segment_seq := seq; si_starting_lsn := lsn;
     si_file_size := size |}.
Definition reader : WalReader :=
  {| segments := [info 0 1 4180; info 1 3 4158]; current_idx := 0; current := None;
     expected_next_lsn := 1; last_decoded_lsn := None; last_record_end_offset := None;
     last_record_segment_seq := None; finished := false |}.
Definition segs : list (SegmentInfo * list WalRecord) :=
  [(info 0 1 4180, [rec 1; rec 2]); (info 1 3 4158, [rec 3])].

Lemma open_dir : open dir uuid = Ok reader.
Proof. vm_compute. reflexivity. Qed.

Lemma rec_wf lsn : u64 lsn -> WalRecord_wf (rec lsn).
Proof. intros H. split; try done; vm_compute; intuition congruence. Qed.

Lemma dir_shape : log_shape dir segs 1 torn.
Proof.
  assert (Forall WalRecord_wf [rec 1; rec 2; rec 3]) as Hw
    by (repeat constructor; vm_compute; intuition congruence).
  apply Forall_cons in Hw as [H1 Hw]. apply Forall_cons in Hw as [H2 Hw].
  cbn [log_shape segs]. split; [done|]. split; [by repeat constructor|]. split; [done|].
  split; [vm_compute; reflexivity|]. split; [done|]. split; [done|]. split; [done|].
  split; [vm_compute; reflexivity|]. intros r n E.
  assert (decode_one torn = Ok Truncated) as Et by (vm_compute; reflexivity). congruence.
Qed.

Lemma reader_delivers_log_witness :
  exists r', read_all 4 dir reader = Some ([rec 1; rec 2; rec 3], None, r')
    /\ last_place r' = (Some 3, Some 4138%nat, Some 1).
Proof.
  destruct (reader_delivers_log dir uuid reader segs torn 4 open_dir ltac:(done) eq_refl dir_shape
    ltac:(vm_compute; lia)) as (r' & E & Hl).
  exists r'. split; [rewrite E; vm_compute; reflexivity|rewrite Hl; vm_compute; reflexivity].
Defined.

Lemma read_dir :
  exists r', read_all 4 dir reader = Some ([rec 1; rec 2; rec 3], None, r').
Proof. eexists. vm_compute. reflexivity. Qed.

Lemma reader_no_silent_loss_witness :
  exists segs tail, map fst segs = segments reader /\ log_shape dir segs 1 tail
    /\ [rec 1; rec 2; rec 3] = log_records segs.
Proof.
  destruct read_dir as (r' & E).
  destruct (reader_no_silent_loss dir uuid reader 4 [rec 1; rec 2; rec 3] r' open_dir
    ltac:(done) E) as (segs & tail & H1 & H2 & H3 & _).
  exists segs, tail. split; [exact H1|]. split; [exact H2|exact H3].
Defined.

Lemma reader_terminates_in_order_witness :
  exists n recs e r', (forall fuel, (n < fuel)%nat -> read_all fuel dir reader = Some (recs, e, r'))
    /\ lsns_ok 1 recs.
Proof.
  destruct (reader_terminates_in_order dir uuid reader open_dir)
    as (n & recs & e & r' & H1 & _ & H2 & _). by exists n, recs, e, r'.
Defined.

Lemma reader_iter_from_witness :
  exists it, iter_from dir uuid 2 = Ok it
    /\ iter_all 4 dir it = Some (filter (at_least 2) [rec 1; rec 2; rec 3], None).
Proof.
  destruct (iter_from dir uuid 2) as [it|] eqn:E; [|vm_compute in E; discriminate].
  exists it. split; [reflexivity|].
  exact (reader_iter_from dir uuid reader segs torn 2 it 4 open_dir ltac:(discriminate)
    eq_refl dir_shape ltac:(cbn; lia) ltac:(vm_compute; reflexivity) E ltac:(vm_compute; lia)).
Defined.

Lemma reader_open_order_irrelevant_witness :
  open (rev dir) uuid = Ok reader /\ consecutive (segments reader).
Proof.
  exact (reader_open_order_irrelevant dir (rev dir) uuid reader
    (Permutation_rev dir) open_dir).
Defined.
End ReaderExample.
