(* ===== verification/Recovery.v ===== *)
(** WAL recovery ([brain-storage/src/recovery.rs]): replay the log onto the
    arena and the metadata sink, with transactions buffered until their
    commit, then rebuild the slot allocator.

    The metadata sink is the trait of the source as a class ([MetadataSink]);
    [InMemoryMetadataSink] is the instance the crate ships.  [None] is a
    panic; an error is returned next to the state it leaves, since the arena
    and the sink have been written by then.  [sys lsn] is what the kernel
    answers to the arena growth while the record at [lsn] is replayed. *)

From stdpp Require Import gmap.
From S2P Require Import Prelude Crc32c Ids WalKinds WalRecord Utf8 WalPayload WalPayloadCodec.
From S2P Require Import ArenaSlot ArenaFile Allocator WalSegment WalReader.

(** ** The metadata sink *)

Inductive MetadataSinkError := Transient (msg : bytes) | Corruption (msg : bytes).

Class MetadataSink (S : Type) := {
  durable_lsn : S -> Z;
  sink_apply : S -> Z -> Z -> WalPayload -> S * result unit MetadataSinkError;
}.

Record InMemoryMetadataSink := { by_lsn : gmap Z WalPayload; im_durable_lsn : Z }.

Module InMemory.
Definition new : InMemoryMetadataSink := {| by_lsn := ∅; im_durable_lsn := 0 |}.
Definition with_durable_lsn (lsn : Z) : InMemoryMetadataSink :=
  {| by_lsn := ∅; im_durable_lsn := lsn |}.
Definition set_durable_lsn (s : InMemoryMetadataSink) (lsn : Z) : InMemoryMetadataSink :=
  {| by_lsn := by_lsn s; im_durable_lsn := lsn |}.
Definition apply (s : InMemoryMetadataSink) (lsn timestamp_ns : Z) (payload : WalPayload)
  : InMemoryMetadataSink * result unit MetadataSinkError :=
  let m := <[lsn := payload]> (by_lsn s) in
  let d := match payload with
           | CheckpointEnd p => Z.max (im_durable_lsn s) (ce_durable_lsn p)
           | _ => im_durable_lsn s
           end in
  ({| by_lsn := m; im_durable_lsn := d |}, Ok tt).
#[export] Instance sink : MetadataSink InMemoryMetadataSink :=
  {| durable_lsn := im_durable_lsn; sink_apply := apply |}.
End InMemory.

(** ** Errors and report *)

Inductive RecoveryError :=
| WalRead (e : WalReadError)
| PayloadDecodeError (lsn : Z) (source : WalPayloadError)
| ArenaGrow (idx lsn : Z) (source : ArenaFile.ArenaGrowError)
| VectorDimMismatch (lsn : Z) (expected found : nat)
| SinkError (lsn : Z) (source : MetadataSinkError)
| TxnBufferOverflow (txn_id : bytes) (buffered : nat) (expected : Z).

Record RecoveryReport := {
  records_replayed : Z;
  records_skipped : Z;
  records_discarded : Z;
  next_lsn : Z;
  active_tail_offset : Z;
  report_active_segment_seq : option Z;
}.

(** ** Applying one record *)

Section apply.
Context `{Crc32c}.

(** The growth target of [ensure_slot_capacity]; the fuel covers any [u64]. *)
Fixpoint double_until (fuel : nat) (target needed : Z) : option Z :=
  match fuel with
  | O => None
  | S fuel =>
    if target <? needed then double_until fuel (sat_mul64 target 2) needed else Some target
  end.

Definition ensure_slot_capacity (sys : Z -> ArenaFile.Syscalls) (arena : ArenaFile.ArenaFile)
    (slot_idx lsn : Z) : option (ArenaFile.ArenaFile * result unit RecoveryError) :=
  let needed := sat_add64 slot_idx 1 in
  if needed <=? ArenaFile.capacity_slots arena then Some (arena, Ok tt) else
  target ← double_until 66 (Z.max (ArenaFile.capacity_slots arena) 1) needed;
  let '(arena, r) := ArenaFile.grow_to (sys lsn) arena target in
  Some (arena, map_err (ArenaGrow slot_idx lsn) r).

Definition check_vector_dim (vector : list Z) (lsn : Z) : result unit RecoveryError :=
  if negb (length vector =? 0)%nat && negb (length vector =? VECTOR_DIM)%nat
  then Err (VectorDimMismatch lsn VECTOR_DIM (length vector)) else Ok tt.

(** The shape the five arena writers share: grow, check, update one slot. *)
Definition update_slot (sys : Z -> ArenaFile.Syscalls) (arena : ArenaFile.ArenaFile)
    (slot_idx lsn : Z) (check : result unit RecoveryError) (f : Slot -> Slot)
  : option (ArenaFile.ArenaFile * result unit RecoveryError) :=
  '(arena, r) ← ensure_slot_capacity sys arena slot_idx lsn;
  match r with
  | Err e => Some (arena, Err e)
  | Ok _ =>
    match check with
    | Err e => Some (arena, Err e)
    | Ok _ => arena ← ArenaFile.slot_mut arena slot_idx f; Some (arena, Ok tt)
    end
  end.

(** [if !v.is_empty() { slot.vector.copy_from_slice(v) }]. *)
Definition copy_vector (v : list Z) (s : Slot) : Slot :=
  if (length v =? 0)%nat then s else with_vector v s.

(** The slot after an ENCODE or CONSOLIDATE. *)
Definition encoded_slot (version : Z) (v : list Z) (fp : bytes) (ts : Z) (s : Slot) : Slot :=
  let s := copy_vector v s in
  let s := with_meta (meta_version version) s in
  let s := with_meta (meta_flags flags.OCCUPIED) s in
  let s := with_meta (meta_fp fp) s in
  let s := with_meta (meta_created ts) s in
  let s := with_meta (meta_modified ts) s in
  refresh_crc s.

Definition write_encoded_slot sys arena (record : WalRecord) (p : EncodePayload) :=
  let lsn := wr_lsn record in
  update_slot sys arena (MemoryId.slot (ep_memory_id p)) lsn (check_vector_dim (ep_vector p) lsn)
    (encoded_slot (MemoryId.version (ep_memory_id p)) (ep_vector p) (ep_embedding_model_fp p)
       (wr_timestamp_ns record)).

Definition tombstoned_slot (hard : bool) (ts : Z) (s : Slot) : Slot :=
  let s := set_flag flags.TOMBSTONED true s in
  let s := with_meta (meta_modified ts) s in
  let s := if hard then set_flag flags.HARD_FORGOTTEN true (with_vector (replicate VECTOR_DIM 0) s)
           else s in
  refresh_crc s.

Definition mark_slot_tombstoned sys arena (record : WalRecord) (p : ForgetPayload) :=
  update_slot sys arena (MemoryId.slot (fp_memory_id p)) (wr_lsn record) (Ok tt)
    (tombstoned_slot (match fp_mode p with Hard => true | Soft => false end)
       (wr_timestamp_ns record)).

Definition reclaimed_slot (version ts : Z) (s : Slot) : Slot :=
  let s := with_meta (meta_version version) s in
  let s := with_meta (meta_flags 0) s in
  let s := with_meta (meta_modified ts) s in
  refresh_crc s.

Definition reclaim_slot sys arena (record : WalRecord) (p : ReclaimPayload) :=
  update_slot sys arena (rc_slot_id p) (wr_lsn record) (Ok tt)
    (reclaimed_slot (rc_new_version p) (wr_timestamp_ns record)).

Definition write_consolidated_slot sys arena (record : WalRecord) (p : ConsolidatePayload) :=
  let lsn := wr_lsn record in
  update_slot sys arena (MemoryId.slot (cp_new_memory_id p)) lsn (check_vector_dim (cp_vector p) lsn)
    (encoded_slot (MemoryId.version (cp_new_memory_id p)) (cp_vector p) (cp_embedding_model_fp p)
       (wr_timestamp_ns record)).

Definition migrated_slot (v : list Z) (fp : bytes) (ts : Z) (s : Slot) : Slot :=
  let s := copy_vector v s in
  let s := with_meta (meta_fp fp) s in
  let s := with_meta (meta_modified ts) s in
  refresh_crc s.

Definition migrate_slot_vector sys arena (record : WalRecord) (p : MigrateEmbeddingPayload) :=
  let lsn := wr_lsn record in
  update_slot sys arena (MemoryId.slot (me_memory_id p)) lsn (check_vector_dim (me_new_vector p) lsn)
    (migrated_slot (me_new_vector p) (me_new_fingerprint p) (wr_timestamp_ns record)).

Definition apply_to_arena (sys : Z -> ArenaFile.Syscalls) (arena : ArenaFile.ArenaFile)
    (record : WalRecord) (payload : WalPayload)
  : option (ArenaFile.ArenaFile * result unit RecoveryError) :=
  match payload with
  | Encode p => write_encoded_slot sys arena record p
  | Forget p => mark_slot_tombstoned sys arena record p
  | Reclaim p => reclaim_slot sys arena record p
  | Consolidate p => write_consolidated_slot sys arena record p
  | MigrateEmbedding p => migrate_slot_vector sys arena record p
  | Link _ | Unlink _ | UpdateSalience _ | UpdateKind _ | UpdateSession _
  | CheckpointBegin _ | CheckpointEnd _ | TxnBegin _ | TxnCommit _ | TxnAbort _
  | RelationLink _ | RelationSupersede _ | RelationTombstone _ | RestoreMemory _
  | PhaseBody _ => Some (arena, Ok tt)
  end.

Context {S : Type} `{MetadataSink S}.

Definition apply (sys : Z -> ArenaFile.Syscalls) (arena : ArenaFile.ArenaFile) (sink : S)
    (record : WalRecord) (payload : WalPayload)
  : option (ArenaFile.ArenaFile * S * result unit RecoveryError) :=
  '(arena, r) ← apply_to_arena sys arena record payload;
  match r with
  | Err e => Some (arena, sink, Err e)
  | Ok _ =>
    let '(sink, r) := sink_apply sink (wr_lsn record) (wr_timestamp_ns record) payload in
    Some (arena, sink, map_err (SinkError (wr_lsn record)) r)
  end.

(** [for (b_record, b_payload) in &buffered { apply(..)? }]. *)
Fixpoint apply_all (sys : Z -> ArenaFile.Syscalls) (arena : ArenaFile.ArenaFile) (sink : S)
    (batch : list (WalRecord * WalPayload))
  : option (ArenaFile.ArenaFile * S * result unit RecoveryError) :=
  match batch with
  | [] => Some (arena, sink, Ok tt)
  | (record, payload) :: batch =>
    '(arena, sink, r) ← apply sys arena sink record payload;
    match r with
    | Err e => Some (arena, sink, Err e)
    | Ok _ => apply_all sys arena sink batch
    end
  end.

(** ** The driver *)

Record RecState := {
  st_arena : ArenaFile.ArenaFile;
  st_sink : S;
  st_replayed : Z;
  st_skipped : Z;
  st_discarded : Z;
  last_good_lsn : Z;
  good_tail_offset : option nat;
  good_tail_segment_seq : option Z;
  active_txn : option bytes;
  active_txn_expected : Z;
  txn_buffer : list (WalRecord * WalPayload);
}.

Definition advance_tail (reader : WalReader) (lsn : Z) (st : RecState) : RecState :=
  {| st_arena := st_arena st; st_sink := st_sink st; st_replayed := st_replayed st;
     st_skipped := st_skipped st; st_discarded := st_discarded st;
     last_good_lsn := lsn; good_tail_offset := last_record_end_offset reader;
     good_tail_segment_seq := last_record_segment_seq reader; active_txn := active_txn st;
     active_txn_expected := active_txn_expected st; txn_buffer := txn_buffer st |}.

Definition count_skipped (st : RecState) : RecState :=
  {| st_arena := st_arena st; st_sink := st_sink st; st_replayed := st_replayed st;
     st_skipped := st_skipped st + 1; st_discarded := st_discarded st;
     last_good_lsn := last_good_lsn st; good_tail_offset := good_tail_offset st;
     good_tail_segment_seq := good_tail_segment_seq st; active_txn := active_txn st;
     active_txn_expected := active_txn_expected st; txn_buffer := txn_buffer st |}.

(** The transaction fields, and what was dropped from the buffer. *)
Definition set_txn (txn : option bytes) (expected : Z) (buffer : list (WalRecord * WalPayload))
    (discarded : Z) (st : RecState) : RecState :=
  {| st_arena := st_arena st; st_sink := st_sink st; st_replayed := st_replayed st;
     st_skipped := st_skipped st; st_discarded := st_discarded st + discarded;
     last_good_lsn := last_good_lsn st; good_tail_offset := good_tail_offset st;
     good_tail_segment_seq := good_tail_segment_seq st; active_txn := txn;
     active_txn_expected := expected; txn_buffer := buffer |}.

Definition set_applied (arena : ArenaFile.ArenaFile) (sink : S) (replayed : Z) (st : RecState)
  : RecState :=
  {| st_arena := arena; st_sink := sink; st_replayed := st_replayed st + replayed;
     st_skipped := st_skipped st; st_discarded := st_discarded st;
     last_good_lsn := last_good_lsn st; good_tail_offset := good_tail_offset st;
     good_tail_segment_seq := good_tail_segment_seq st; active_txn := active_txn st;
     active_txn_expected := active_txn_expected st; txn_buffer := txn_buffer st |}.

(** The loop body for a payload inside the transaction [current_txn]. *)
Definition step_in_txn (sys : Z -> ArenaFile.Syscalls) (reader : WalReader) (st : RecState)
    (current_txn : bytes) (record : WalRecord) (payload : WalPayload)
  : option (RecState * result unit RecoveryError) :=
  let lsn := wr_lsn record in
  let buffer_member :=
    if active_txn_expected st <? Z.of_nat (length (txn_buffer st)) then
      Some (st, Err (TxnBufferOverflow current_txn (length (txn_buffer st))
                       (active_txn_expected st)))
    else
      Some (set_txn (active_txn st) (active_txn_expected st)
              (txn_buffer st ++ [(record, payload)]) 0 st, Ok tt) in
  match payload with
  | TxnCommit p =>
    if bool_decide (tc_txn_id p = current_txn) then
      let buffered := txn_buffer st ++ [(record, payload)] in
      let st := set_txn None 0 [] 0 st in
      '(arena, sink, r) ← apply_all sys (st_arena st) (st_sink st) buffered;
      match r with
      | Err e => Some (set_applied arena sink 0 st, Err e)
      | Ok _ =>
        let st := set_applied arena sink (Z.of_nat (length buffered)) st in
        Some (advance_tail reader lsn st, Ok tt)
      end
    else buffer_member
  | TxnAbort p =>
    if bool_decide (ta_txn_id p = current_txn) then
      let st := set_txn None 0 [] (Z.of_nat (length (txn_buffer st))) st in
      Some (advance_tail reader lsn st, Ok tt)
    else buffer_member
  | TxnBegin p =>
    Some (set_txn (Some (tb_txn_id p)) (tb_expected_record_count p) [(record, payload)]
            (Z.of_nat (length (txn_buffer st))) st, Ok tt)
  | _ => buffer_member
  end.

(** The loop body outside a transaction. *)
Definition step_idle (sys : Z -> ArenaFile.Syscalls) (reader : WalReader) (st : RecState)
    (record : WalRecord) (payload : WalPayload)
  : option (RecState * result unit RecoveryError) :=
  match payload with
  | TxnBegin p =>
    Some (set_txn (Some (tb_txn_id p)) (tb_expected_record_count p)
            (txn_buffer st ++ [(record, payload)]) 0 st, Ok tt)
  | _ =>
    '(arena, sink, r) ← apply sys (st_arena st) (st_sink st) record payload;
    match r with
    | Err e => Some (set_applied arena sink 0 st, Err e)
    | Ok _ => Some (advance_tail reader (wr_lsn record) (set_applied arena sink 1 st), Ok tt)
    end
  end.

(** The body of the [while let Some(item) = reader.next()] loop. *)
Definition recover_step (sys : Z -> ArenaFile.Syscalls) (durable : Z) (reader : WalReader)
    (st : RecState) (record : WalRecord) : option (RecState * result unit RecoveryError) :=
  let lsn := wr_lsn record in
  if lsn <=? durable then Some (advance_tail reader lsn (count_skipped st), Ok tt) else
  if negb (Z.land (wr_flags record) FLAG_SUBSCRIBE_EVENT =? 0) then
    let st := count_skipped st in
    Some (match active_txn st with None => advance_tail reader lsn st | Some _ => st end, Ok tt)
  else
    match typed_payload record with
    | Err source => Some (st, Err (PayloadDecodeError lsn source))
    | Ok payload =>
      match active_txn st with
      | Some current_txn => step_in_txn sys reader st current_txn record payload
      | None => step_idle sys reader st record payload
      end
    end.

Fixpoint recover_loop (fuel : nat) (sys : Z -> ArenaFile.Syscalls) (dir : Dir) (durable : Z)
    (reader : WalReader) (st : RecState) : option (RecState * result unit RecoveryError) :=
  match fuel with
  | O => None
  | Datatypes.S fuel =>
    '(reader, item) ← next dir reader;
    match item with
    | None => Some (st, Ok tt)
    | Some (Err e) => Some (st, Err (WalRead e))
    | Some (Ok record) =>
      '(st, r) ← recover_step sys durable reader st record;
      match r with
      | Err e => Some (st, Err e)
      | Ok _ => recover_loop fuel sys dir durable reader st
      end
    end
  end.

Definition initial_state (arena : ArenaFile.ArenaFile) (sink : S) : RecState :=
  {| st_arena := arena; st_sink := sink; st_replayed := 0; st_skipped := 0; st_discarded := 0;
     last_good_lsn := durable_lsn sink; good_tail_offset := None; good_tail_segment_seq := None;
     active_txn := None; active_txn_expected := 0; txn_buffer := [] |}.

Definition report_of (st : RecState) (active_segment_seq : option Z) : RecoveryReport :=
  {| records_replayed := st_replayed st;
     records_skipped := st_skipped st;
     records_discarded := st_discarded st
       + match active_txn st with Some _ => Z.of_nat (length (txn_buffer st)) | None => 0 end;
     next_lsn := wrap 64 (last_good_lsn st + 1);
     active_tail_offset :=
       match good_tail_segment_seq st, active_segment_seq with
       | Some good_seq, Some active_seq =>
         if good_seq =? active_seq
         then Z.of_nat (default WAL_SEGMENT_HEADER_LEN (good_tail_offset st))
         else Z.of_nat WAL_SEGMENT_HEADER_LEN
       | _, _ => Z.of_nat WAL_SEGMENT_HEADER_LEN
       end;
     report_active_segment_seq := active_segment_seq |}.

(** [recover], with the arena and the sink it leaves. *)
Definition recover (fuel : nat) (sys : Z -> ArenaFile.Syscalls) (arena : ArenaFile.ArenaFile)
    (dir : Dir) (shard_uuid : bytes) (sink : S)
  : option (ArenaFile.ArenaFile * S
            * result (RecoveryReport * Allocator.SlotAllocator) RecoveryError) :=
  let durable := durable_lsn sink in
  match open dir shard_uuid with
  | Err e => Some (arena, sink, Err (WalRead e))
  | Ok reader =>
    '(st, r) ← recover_loop fuel sys dir durable reader (initial_state arena sink);
    match r with
    | Err e => Some (st_arena st, st_sink st, Err e)
    | Ok _ =>
      allocator ← Allocator.rebuild_from_arena (st_arena st);
      Some (st_arena st, st_sink st, Ok (report_of st (active_segment_seq reader), allocator))
    end
  end.
End apply.
