(* ===== verification/RecoveryReplay.v ===== *)
(** Recovery as a fold over the log.

    The driver pulls records from the reader; [replay] folds its loop body
    over the records with their places, and [recover_loop_replay] shows
    that recovery is that fold.  [effects] is the specification of the
    transaction rules: the records to apply, in order; [replay_effects] shows
    the driver applies exactly those. *)

From S2P Require Import Prelude Crc32c Ids WalKinds WalRecord Utf8 WalPayload WalPayloadCodec.
From S2P Require Import ArenaSlot ArenaFile Allocator WalSegment WalReader WalReaderSpec.
From S2P Require Import WalReaderOpen Recovery.

Section replay.
Context `{CRC : Crc32c} {S : Type} `{Snk : MetadataSink S}.
Context (sys : Z -> ArenaFile.Syscalls).
Implicit Types st : RecState (S := S).

(** A reader whose last delivered record was [it]. *)
Definition reader_at (it : Item) : WalReader :=
  {| segments := []; current_idx := 0; current := None; expected_next_lsn := 0;
     last_decoded_lsn := Some (wr_lsn (it_rec it)); last_record_end_offset := Some (it_end it);
     last_record_segment_seq := Some (it_seq it); finished := false |}.

Fixpoint replay (durable : Z) st (items : list Item) : option (RecState * result unit RecoveryError) :=
  match items with
  | [] => Some (st, Ok tt)
  | it :: items =>
    '(st, r) ← recover_step sys durable (reader_at it) st (it_rec it);
    match r with
    | Err e => Some (st, Err e)
    | Ok _ => replay durable st items
    end
  end.

(** The loop body reads only the reader's position. *)
Lemma recover_step_place durable r r' st rec :
  last_record_end_offset r = last_record_end_offset r' ->
  last_record_segment_seq r = last_record_segment_seq r' ->
  recover_step sys durable r st rec = recover_step sys durable r' st rec.
Proof.
  intros E1 E2. unfold recover_step, step_in_txn, step_idle, advance_tail. by rewrite E1, E2.
Qed.

Lemma recover_loop_replay fuel dir durable r st its e :
  ready r -> pending dir r = (its, e) -> (length its < fuel)%nat ->
  recover_loop fuel sys dir durable r st =
    '(st', res) ← replay durable st its;
    Some (st', match res with
               | Ok _ => match e with None => Ok tt | Some e => Err (WalRead e) end
               | Err e => Err e
               end).
Proof.
  revert r st fuel. induction its as [|it its IH]; intros r st [|fuel] Hr Hp Hf; cbn in Hf; try lia;
    cbn [recover_loop replay]; destruct (next_spec dir r Hr) as ([r1 item] & En & Hok);
    rewrite En; cbn [mbind option_bind]; rewrite Hp in Hok.
  - destruct Hok as [Ei _]. cbn in Ei. subst item. by destruct e.
  - destruct Hok as (Ei & Hp1 & Ha). cbn [fst snd] in Ei, Hp1, Ha. subst item.
    rewrite (recover_step_place durable r1 (reader_at it))
      by (cbn; by rewrite ?(adv_end _ _ _ Ha), ?(adv_seq _ _ _ Ha)).
    destruct (recover_step sys durable (reader_at it) st (it_rec it)) as [[st1 [u|e1]]|];
      cbn [mbind option_bind]; try done.
    apply IH; [split; [apply Ha|right; apply Ha]|done|lia].
Qed.

(** ** The transaction rules, abstractly *)

Abbreviation Entry := (WalRecord * WalPayload)%type.

(** The records the driver looks at: not durable yet and not change-feed events. *)
Definition relevant (durable : Z) (rec : WalRecord) : bool :=
  (durable <? wr_lsn rec) && (Z.land (wr_flags rec) FLAG_SUBSCRIBE_EVENT =? 0).

(** What a log asks to apply, in order: records outside transactions, and
    whole committed transactions (their brackets included). *)
Fixpoint effects (txn : option (bytes * list Entry)) (log : list Entry) : list Entry :=
  match log with
  | [] => []
  | (rec, p) :: log =>
    match txn with
    | None =>
      match p with
      | TxnBegin b => effects (Some (tb_txn_id b, [(rec, p)])) log
      | _ => (rec, p) :: effects None log
      end
    | Some (id, buf) =>
      let member := effects (Some (id, buf ++ [(rec, p)])) log in
      match p with
      | TxnBegin b => effects (Some (tb_txn_id b, [(rec, p)])) log
      | TxnCommit c =>
        if bool_decide (tc_txn_id c = id) then (buf ++ [(rec, p)]) ++ effects None log else member
      | TxnAbort c => if bool_decide (ta_txn_id c = id) then effects None log else member
      | _ => member
      end
    end
  end.

(** No transaction exceeds the member count it declared. *)
Fixpoint bounded (txn : option (bytes * Z * nat)) (log : list Entry) : bool :=
  match log with
  | [] => true
  | (rec, p) :: log =>
    match txn with
    | None =>
      match p with
      | TxnBegin b => bounded (Some (tb_txn_id b, tb_expected_record_count b, 1%nat)) log
      | _ => bounded None log
      end
    | Some (id, n, k) =>
      let member := (Z.of_nat k <=? n) && bounded (Some (id, n, Datatypes.S k)) log in
      match p with
      | TxnBegin b => bounded (Some (tb_txn_id b, tb_expected_record_count b, 1%nat)) log
      | TxnCommit c => if bool_decide (tc_txn_id c = id) then bounded None log else member
      | TxnAbort c => if bool_decide (ta_txn_id c = id) then bounded None log else member
      | _ => member
      end
    end
  end.

(** The decoded log. *)
Definition decoded (durable : Z) (its : list Item) (log : list Entry) : Prop :=
  Forall2 (fun it e => it_rec it = fst e /\ typed_payload (it_rec it) = Ok (snd e))
    (filter (fun it => relevant durable (it_rec it) = true) its) log.

(** The transaction a state is in. *)
Definition txn_view st : option (bytes * list Entry) :=
  match active_txn st with Some id => Some (id, txn_buffer st) | None => None end.
Definition txn_bound st : option (bytes * Z * nat) :=
  match active_txn st with
  | Some id => Some (id, active_txn_expected st, length (txn_buffer st))
  | None => None
  end.
Definition idle_empty st : Prop := active_txn st = None -> txn_buffer st = [].

Lemma apply_all_app arena sink a b :
  apply_all (S := S) sys arena sink (a ++ b) =
    '(arena', sink', r) ← apply_all sys arena sink a;
    match r with Err e => Some (arena', sink', Err e) | Ok _ => apply_all sys arena' sink' b end.
Proof.
  revert arena sink. induction a as [|[rec p] a IH]; intros arena sink; cbn [app apply_all]; [done|].
  destruct (apply sys arena sink rec p) as [[[ar sk] [u|e]]|]; cbn [mbind option_bind]; auto.
Qed.

(** One relevant record. *)
Lemma step_irrelevant durable it st :
  relevant durable (it_rec it) = false ->
  exists st', recover_step sys durable (reader_at it) st (it_rec it) = Some (st', Ok tt)
    /\ st_arena st' = st_arena st /\ st_sink st' = st_sink st
    /\ active_txn st' = active_txn st /\ txn_buffer st' = txn_buffer st
    /\ active_txn_expected st' = active_txn_expected st.
Proof.
  unfold relevant, recover_step. destruct (Z.leb_spec (wr_lsn (it_rec it)) durable).
  { intros _. eexists. by split. }
  rewrite (proj2 (Z.ltb_lt _ _)) by lia. cbn [andb]. intros ->. cbn [negb].
  eexists. split; [done|]. by destruct (active_txn (count_skipped st)).
Qed.

Lemma step_relevant durable it st p :
  relevant durable (it_rec it) = true -> typed_payload (it_rec it) = Ok p ->
  recover_step sys durable (reader_at it) st (it_rec it) =
    match active_txn st with
    | Some id => step_in_txn sys (reader_at it) st id (it_rec it) p
    | None => step_idle sys (reader_at it) st (it_rec it) p
    end.
Proof.
  unfold relevant, recover_step. intros [H1 H2]%andb_prop E. apply Z.ltb_lt in H1.
  rewrite (proj2 (Z.leb_gt _ _)) by done. rewrite H2, E. cbn [negb]. done.
Qed.

(** The outcome of a replay, as far as the arena, the sink and the error go. *)
Definition outcome (o : option (RecState (S := S) * result unit RecoveryError)) :=
  '(st, r) ← o; Some (st_arena st, st_sink st, r).

(** The driver applies the effects of the rest of the log. *)
Definition rest_applied (durable : Z) (its : list Item) : Prop :=
  forall log st, decoded durable its log -> idle_empty st -> bounded (txn_bound st) log = true ->
  outcome (replay durable st its) = apply_all sys (st_arena st) (st_sink st) (effects (txn_view st) log).

(** What follows a step. *)
Definition then_replay (durable : Z) (its : list Item) (o : option (RecState (S := S) * result unit RecoveryError)) :=
  '(st, r) ← o; match r with Err e => Some (st, Err e) | Ok _ => replay durable st its end.

Lemma in_txn_applied durable it its p log st id :
  rest_applied durable its -> decoded durable its log -> active_txn st = Some id ->
  bounded (Some (id, active_txn_expected st, length (txn_buffer st))) ((it_rec it, p) :: log) = true ->
  outcome (then_replay durable its (step_in_txn sys (reader_at it) st id (it_rec it) p))
  = apply_all sys (st_arena st) (st_sink st) (effects (Some (id, txn_buffer st)) ((it_rec it, p) :: log)).
Proof.
  intros IH Hd Et Hb. unfold rest_applied, txn_view, txn_bound, idle_empty in IH.
  assert (forall st1, active_txn st1 = Some id -> active_txn_expected st1 = active_txn_expected st ->
    txn_buffer st1 = txn_buffer st ++ [(it_rec it, p)] -> st_arena st1 = st_arena st -> st_sink st1 = st_sink st ->
    bounded (Some (id, active_txn_expected st, Datatypes.S (length (txn_buffer st)))) log = true ->
    outcome (replay durable st1 its)
    = apply_all sys (st_arena st) (st_sink st) (effects (Some (id, txn_buffer st ++ [(it_rec it, p)])) log)) as Hmember.
  { intros st1 E1 E2 E3 E4 E5 Hb1. rewrite (IH log st1 Hd); rewrite ?E1, ?E2, ?E3, ?E4, ?E5; try done.
    by rewrite length_app, Nat.add_1_r. }
  assert (forall b1, (Z.of_nat (length (txn_buffer st)) <=? active_txn_expected st) && b1 = true ->
    (active_txn_expected st <? Z.of_nat (length (txn_buffer st))) = false /\ b1 = true) as Hno.
  { intros b1 [H1 H2]%andb_prop. apply Z.leb_le in H1. split; [apply Z.ltb_ge; lia|done]. }
  unfold then_replay. destruct p; cbn [bounded] in Hb; cbn [step_in_txn effects];
    try (apply Hno in Hb as [-> Hb]; cbn [mbind option_bind]; by apply Hmember).
  - (* a new begin *) cbn [mbind option_bind]. by rewrite (IH log _ Hd).
  - (* commit *) case_bool_decide as Eid.
    2: { apply Hno in Hb as [-> Hb]. cbn [mbind option_bind]. by apply Hmember. }
    set (buf := txn_buffer st ++ [(it_rec it, TxnCommit p)]).
    rewrite (apply_all_app _ _ buf). cbn [set_txn st_arena st_sink].
    destruct (apply_all sys (st_arena st) (st_sink st) buf) as [[[ar sk] [u|e]]|];
      cbn [mbind option_bind]; try done. by rewrite (IH log _ Hd).
  - (* abort *) case_bool_decide as Eid.
    2: { apply Hno in Hb as [-> Hb]. cbn [mbind option_bind]. by apply Hmember. }
    cbn [mbind option_bind]. by rewrite (IH log _ Hd).
Qed.

Lemma idle_applied durable it its p log st :
  rest_applied durable its -> decoded durable its log -> active_txn st = None -> txn_buffer st = [] ->
  bounded None ((it_rec it, p) :: log) = true ->
  outcome (then_replay durable its (step_idle sys (reader_at it) st (it_rec it) p))
  = apply_all sys (st_arena st) (st_sink st) (effects None ((it_rec it, p) :: log)).
Proof.
  intros IH Hd Et Hie Hb. unfold rest_applied, txn_view, txn_bound, idle_empty in IH.
  assert (forall st1, active_txn st1 = None -> txn_buffer st1 = [] -> bounded None log = true ->
    outcome (replay durable st1 its) = apply_all sys (st_arena st1) (st_sink st1) (effects None log)) as Hidle.
  { intros st1 E1 E2 Hb1. rewrite (IH log st1 Hd); rewrite ?E1; done. }
  unfold then_replay. destruct p; cbn [bounded] in Hb; cbn [step_idle effects apply_all];
    try (destruct (apply sys (st_arena st) (st_sink st) _ _) as [[[ar sk] [u|e]]|];
         cbn [mbind option_bind]; try done; rewrite Hidle; by cbn; auto).
  cbn [mbind option_bind]. rewrite (IH log _ Hd); cbn; rewrite ?Hie; done.
Qed.

(** The driver applies the effects of the log: it fails, panics or succeeds
    exactly as applying them one after the other does. *)
Lemma replay_effects durable its log st :
  decoded durable its log -> idle_empty st -> bounded (txn_bound st) log = true ->
  outcome (replay durable st its)
  = apply_all sys (st_arena st) (st_sink st) (effects (txn_view st) log).
Proof.
  revert log st. induction its as [|it its IH]; intros log st Hd Hie Hb.
  { apply Forall2_nil_inv_l in Hd as ->. done. }
  unfold decoded in Hd. rewrite filter_cons in Hd. cbn [replay]. case_decide as Hrel.
  2: { apply not_true_is_false in Hrel.
       destruct (step_irrelevant durable it st Hrel) as (st' & -> & E1 & E2 & E3 & E4 & E5).
       cbn [mbind option_bind].
       rewrite (IH log st' Hd); unfold txn_view, txn_bound, idle_empty in *;
         rewrite ?E1, ?E2, ?E3, ?E4, ?E5; done. }
  apply Forall2_cons_inv_l in Hd as ([rec p] & log' & (Er & Ep) & Hd & ->). cbn [fst snd] in *.
  subst rec. rewrite (step_relevant durable it st p Hrel Ep).
  unfold txn_view, txn_bound, idle_empty in *. destruct (active_txn st) as [id|] eqn:Et.
  - by apply (in_txn_applied durable it its p log' st id IH Hd Et).
  - by apply (idle_applied durable it its p log' st IH Hd Et (Hie eq_refl)).
Qed.
End replay.
