(* ===== verification/RecoveryArena.v ===== *)
(** The arena side of recovery, slot by slot.

    Every record that touches the arena changes one slot by overwriting some
    fields and setting or clearing flag bits.  [Upd] are such changes as
    data; they compose, and a change absorbs any earlier part of itself
    ([compose_absorb]).  [arena_batch] computes what replaying a batch does
    to every slot, from which the crash-restart and hard-forget theorems
    follow. *)

From S2P Require Import Prelude Crc32c Ids WalKinds WalRecord Utf8 WalPayload WalPayloadCodec.
From S2P Require Import ArenaSlot ArenaFile Allocator WalSegment WalReader Recovery.
Import ArenaFile.

(** ** Slot changes *)

Record Upd := {
  u_vec : option (list Z);
  u_ver : option Z;
  u_keep : bool;           (* keep the old flags, or start from none *)
  u_mask : Z;              (* then set these *)
  u_fp : option bytes;
  u_created : option Z;
  u_mod : option Z;
  u_touched : bool;        (* the CRC was refreshed *)
}.

Definition no_upd : Upd :=
  {| u_vec := None; u_ver := None; u_keep := true; u_mask := 0; u_fp := None;
     u_created := None; u_mod := None; u_touched := false |}.

(** The fields after a change, the stored CRC apart. *)
Definition raw (u : Upd) (s : Slot) : Slot :=
  let m := metadata s in
  {| vector := default (vector s) (u_vec u);
     metadata :=
       {| slot_version := default (slot_version m) (u_ver u);
          slot_flags := if u_keep u then Z.lor (slot_flags m) (u_mask u) else u_mask u;
          embedding_model_fp_short := default (embedding_model_fp_short m) (u_fp u);
          created_at_unix_nanos := default (created_at_unix_nanos m) (u_created u);
          last_modified_at_unix_nanos := default (last_modified_at_unix_nanos m) (u_mod u);
          metadata_crc32c := metadata_crc32c m;
          meta_reserved := meta_reserved m |} |}.

Definition or_else {A} (a b : option A) : option A := match a with Some _ => a | None => b end.

(** [u1] first, then [u2]. *)
Definition compose (u2 u1 : Upd) : Upd :=
  {| u_vec := or_else (u_vec u2) (u_vec u1); u_ver := or_else (u_ver u2) (u_ver u1);
     u_keep := u_keep u2 && u_keep u1;
     u_mask := if u_keep u2 then Z.lor (u_mask u1) (u_mask u2) else u_mask u2;
     u_fp := or_else (u_fp u2) (u_fp u1); u_created := or_else (u_created u2) (u_created u1);
     u_mod := or_else (u_mod u2) (u_mod u1); u_touched := u_touched u2 || u_touched u1 |}.

(** Record equality, field by field. *)
Lemma Upd_eq a b :
  u_vec a = u_vec b -> u_ver a = u_ver b -> u_keep a = u_keep b -> u_mask a = u_mask b ->
  u_fp a = u_fp b -> u_created a = u_created b -> u_mod a = u_mod b ->
  u_touched a = u_touched b -> a = b.
Proof. destruct a, b; cbn. congruence. Qed.

Lemma or_else_assoc {A} (a b c : option A) : or_else (or_else a b) c = or_else a (or_else b c).
Proof. by destruct a. Qed.
Lemma or_else_absorb {A} (a b : option A) : or_else (or_else a b) b = or_else a b.
Proof. by destruct a, b. Qed.
Lemma or_else_None {A} (a : option A) : or_else a None = a.
Proof. by destruct a. Qed.

(** A change absorbs an earlier part of itself. *)
Lemma compose_absorb s p : compose (compose s p) p = compose s p.
Proof.
  apply Upd_eq; cbn; try apply or_else_absorb.
  - by destruct (u_keep s), (u_keep p).
  - destruct (u_keep s), (u_keep p); cbn; try done. by rewrite Z.lor_assoc, Z.lor_diag.
  - by destruct (u_touched s), (u_touched p).
Qed.

Lemma compose_assoc a b c : compose (compose a b) c = compose a (compose b c).
Proof.
  apply Upd_eq; cbn; try apply or_else_assoc.
  - by rewrite andb_assoc.
  - destruct (u_keep a), (u_keep b); cbn; try done. by rewrite Z.lor_assoc.
  - by rewrite orb_assoc.
Qed.

Lemma compose_no_upd u : compose u no_upd = u.
Proof.
  apply Upd_eq; cbn; try apply or_else_None.
  - apply andb_true_r.
  - by destruct (u_keep u).
  - apply orb_false_r.
Qed.

Lemma no_upd_compose u : compose no_upd u = u.
Proof. by apply Upd_eq; cbn; try done; apply Z.lor_0_r. Qed.

(** Well-formed changes: the values fit the fields. *)
Record Upd_wf (u : Upd) : Prop := {
  uw_vec : forall v, u_vec u = Some v -> length v = VECTOR_DIM /\ Forall (uint 32) v;
  uw_ver : forall v, u_ver u = Some v -> u32 v;
  uw_mask : u32 (u_mask u);
  uw_fp : forall v, u_fp u = Some v -> length v = 16%nat;
  uw_created : forall v, u_created u = Some v -> u64 v;
  uw_mod : forall v, u_mod u = Some v -> u64 v;
}.

Section upd.
Context `{CRC : Crc32c} `{!Crc32cLaws CRC}.

Definition denote (u : Upd) (s : Slot) : Slot :=
  if u_touched u then refresh_crc (raw u s) else s.

Lemma default_wf {A} (P : A -> Prop) x o :
  P x -> (forall v, o = Some v -> P v) -> P (default x o).
Proof. destruct o; cbn; auto. Qed.

Lemma raw_wf u s : Upd_wf u -> Slot_wf s -> Slot_wf (raw u s).
Proof.
  intros [H1 H2 H3 H4 H5 H6] [Sl Sv [M1 M2 M3 M4 M5 M6 M7]].
  assert (length (default (vector s) (u_vec u)) = VECTOR_DIM
    /\ Forall (uint 32) (default (vector s) (u_vec u))) as [Hl Hv]
    by (apply (default_wf (fun v => length v = VECTOR_DIM /\ Forall (uint 32) v)); auto).
  split; [done..|]. split; cbn; try done.
  - by apply (default_wf (uint 32)).
  - destruct (u_keep u); [by apply uint_lor|done].
  - by apply (default_wf (fun v => length v = 16%nat)).
  - by apply (default_wf (uint 64)).
  - by apply (default_wf (uint 64)).
Qed.

Lemma denote_wf u s : Upd_wf u -> Slot_wf s -> Slot_wf (denote u s).
Proof using Crc32cLaws0.
  intros Hu Hs. unfold denote. destruct (u_touched u); [|done].
  by apply refresh_crc_wf, raw_wf.
Qed.

Lemma compose_wf u v : Upd_wf u -> Upd_wf v -> Upd_wf (compose u v).
Proof.
  intros [H1 H2 H3 H4 H5 H6] [K1 K2 K3 K4 K5 K6]. split; cbn.
  - intros w. destruct (u_vec u); cbn; intros [= <-] || intros E; auto.
  - intros w. destruct (u_ver u); cbn; intros [= <-] || intros E; auto.
  - destruct (u_keep u); [by apply uint_lor|done].
  - intros w. destruct (u_fp u); cbn; intros [= <-] || intros E; auto.
  - intros w. destruct (u_created u); cbn; intros [= <-] || intros E; auto.
  - intros w. destruct (u_mod u); cbn; intros [= <-] || intros E; auto.
Qed.

Lemma no_upd_wf : Upd_wf no_upd.
Proof. split; cbn; try done. Qed.

Lemma refresh_crc_idem c s : Slot_wf s -> refresh_crc (with_meta (meta_crc c) s) = refresh_crc s.
Proof.
  intros Hs. unfold refresh_crc at 1. rewrite compute_crc_ignores_stored by done. done.
Qed.

Lemma raw_compose u2 u1 s : raw u2 (raw u1 s) = raw (compose u2 u1) s.
Proof.
  unfold raw, compose, or_else; cbn. f_equal; [by destruct (u_vec u2)|]. f_equal.
  - by destruct (u_ver u2).
  - destruct (u_keep u2), (u_keep u1); cbn; try done. by rewrite Z.lor_assoc.
  - by destruct (u_fp u2).
  - by destruct (u_created u2).
  - by destruct (u_mod u2).
Qed.

(** An untouched change changes nothing. *)
Definition coherent (u : Upd) : Prop := u_touched u = false -> u = no_upd.

Lemma compose_coherent u2 u1 : coherent u2 -> coherent u1 -> coherent (compose u2 u1).
Proof.
  unfold coherent. intros H2 H1. cbn. intros [E2 E1]%orb_false_iff.
  by rewrite (H2 E2), (H1 E1).
Qed.

Lemma denote_compose u2 u1 s :
  Upd_wf u1 -> Upd_wf u2 -> coherent u1 -> coherent u2 -> Slot_wf s ->
  denote u2 (denote u1 s) = denote (compose u2 u1) s.
Proof.
  intros W1 W2 C1 C2 Hs. unfold denote at 2.
  destruct (u_touched u1) eqn:T1; [|rewrite (C1 T1), compose_no_upd; done].
  unfold denote at 1. destruct (u_touched u2) eqn:T2.
  - unfold denote. cbn [compose u_touched]. rewrite T2, T1. cbn [orb].
    rewrite <- raw_compose.
    change (raw u2 (refresh_crc (raw u1 s)))
      with (with_meta (meta_crc (compute_crc (raw u1 s))) (raw u2 (raw u1 s))).
    apply refresh_crc_idem. by apply raw_wf, raw_wf.
  - rewrite (C2 T2), no_upd_compose. unfold denote. by rewrite T1.
Qed.
End upd.

(** ** The changes of the records *)

Definition vec_opt (v : list Z) : option (list Z) := if (length v =? 0)%nat then None else Some v.

Definition encode_upd (id : Z) (v : list Z) (fp : bytes) (ts : Z) : Upd :=
  {| u_vec := vec_opt v; u_ver := Some (MemoryId.version id); u_keep := false;
     u_mask := flags.OCCUPIED; u_fp := Some fp; u_created := Some ts; u_mod := Some ts;
     u_touched := true |}.

Definition forget_upd (m : ForgetMode) (ts : Z) : Upd :=
  {| u_vec := match m with Hard => Some (replicate VECTOR_DIM 0) | Soft => None end;
     u_ver := None; u_keep := true;
     u_mask := match m with Hard => Z.lor flags.TOMBSTONED flags.HARD_FORGOTTEN
                          | Soft => flags.TOMBSTONED end;
     u_fp := None; u_created := None; u_mod := Some ts; u_touched := true |}.

Definition reclaim_upd (version ts : Z) : Upd :=
  {| u_vec := None; u_ver := Some version; u_keep := false; u_mask := 0; u_fp := None;
     u_created := None; u_mod := Some ts; u_touched := true |}.

Definition migrate_upd (v : list Z) (fp : bytes) (ts : Z) : Upd :=
  {| u_vec := vec_opt v; u_ver := None; u_keep := true; u_mask := 0; u_fp := Some fp;
     u_created := None; u_mod := Some ts; u_touched := true |}.

(** The slot a record changes, and how. *)
Definition upd_of (e : WalRecord * WalPayload) : option (Z * Upd) :=
  let ts := wr_timestamp_ns e.1 in
  match e.2 with
  | Encode p => Some (MemoryId.slot (ep_memory_id p),
      encode_upd (ep_memory_id p) (ep_vector p) (ep_embedding_model_fp p) ts)
  | Forget p => Some (MemoryId.slot (fp_memory_id p), forget_upd (fp_mode p) ts)
  | Reclaim p => Some (rc_slot_id p, reclaim_upd (rc_new_version p) ts)
  | Consolidate p => Some (MemoryId.slot (cp_new_memory_id p),
      encode_upd (cp_new_memory_id p) (cp_vector p) (cp_embedding_model_fp p) ts)
  | MigrateEmbedding p => Some (MemoryId.slot (me_memory_id p),
      migrate_upd (me_new_vector p) (me_new_fingerprint p) ts)
  | _ => None
  end.

(** Vectors the arena accepts: none, or one component per dimension. *)
Definition dim_ok (v : list Z) : Prop := length v = 0%nat \/ length v = VECTOR_DIM.

(** What the arena asks of a payload: a vector of its dimension, and a slot
    within the 48-bit index space (only RECLAIM carries a wider index). *)
Definition arena_fit (p : WalPayload) : Prop :=
  match p with
  | Encode p => dim_ok (ep_vector p)
  | Consolidate p => dim_ok (cp_vector p)
  | MigrateEmbedding p => dim_ok (me_new_vector p)
  | Reclaim p => rc_slot_id p < 2 ^ 48
  | _ => True
  end.

(** A record that replays onto the arena without an error of its own. *)
Definition entry_ok (e : WalRecord * WalPayload) : Prop :=
  WalRecord_wf e.1 /\ payload_wf e.2 /\ arena_fit e.2.

Section entries.
Context `{CRC : Crc32c} `{!Crc32cLaws CRC}.

Lemma vec_opt_wf v w :
  dim_ok v -> vector_wf v -> vec_opt v = Some w -> length w = VECTOR_DIM /\ Forall (uint 32) w.
Proof.
  unfold vec_opt. intros [E|E] [Hv _]; rewrite E; [done|]. cbn. by intros [= <-].
Qed.

Lemma MemoryId_slot_range m : 0 <= MemoryId.slot m < 2 ^ 48.
Proof.
  unfold MemoryId.slot, MAX_SLOT_INDEX. rewrite land_mask by lia. apply Z.mod_pos_bound. lia.
Qed.

Lemma version_u32 m : u32 (MemoryId.version m).
Proof. by apply wrap_uint. Qed.

Lemma encode_upd_wf id v fp ts :
  dim_ok v -> vector_wf v -> length fp = 16%nat -> u64 ts -> Upd_wf (encode_upd id v fp ts).
Proof.
  intros Hd Hv Hf Ht. split; cbn; [by intros w; apply vec_opt_wf|..]; try done; intros w [= <-];
    try done. apply version_u32.
Qed.

Lemma forget_upd_wf m ts : u64 ts -> Upd_wf (forget_upd m ts).
Proof.
  intros Ht. split; cbn [forget_upd u_vec u_ver u_mask u_fp u_created u_mod]; try done.
  - destruct m; [done|]. intros w E. apply (inj Some) in E. subst w.
    split; [done|]. apply Forall_replicate. unfold uint. lia.
  - by destruct m.
  - by intros w [= <-].
Qed.

Lemma reclaim_upd_wf v ts : u32 v -> u64 ts -> Upd_wf (reclaim_upd v ts).
Proof. intros Hv Ht. by split; cbn; try done; intros w [= <-]. Qed.

Lemma migrate_upd_wf v fp ts :
  dim_ok v -> vector_wf v -> length fp = 16%nat -> u64 ts -> Upd_wf (migrate_upd v fp ts).
Proof.
  intros Hd Hv Hf Ht. by split; cbn; [by intros w; apply vec_opt_wf|..]; try done; intros w [= <-].
Qed.

Lemma upd_of_wf e j u :
  entry_ok e -> upd_of e = Some (j, u) ->
  Upd_wf u /\ u_touched u = true /\ 0 <= j < 2 ^ 48.
Proof.
  intros (Hr & Hp & Hd). destruct e as [rec p]; cbn [fst snd] in *.
  pose proof (wf_timestamp rec Hr) as Hts. unfold upd_of; cbn [fst snd].
  destruct p; intros [= <- <-]; cbn in Hp, Hd; unfold encode_wf in *; destruct_and?;
    (split; [|split; [done|first [apply MemoryId_slot_range|unfold uint in *; lia]]]).
  - by apply encode_upd_wf.
  - by apply forget_upd_wf.
  - by apply reclaim_upd_wf.
  - by apply encode_upd_wf.
  - by apply migrate_upd_wf.
Qed.

(** The closures of the arena writers are these changes. *)
Lemma copy_vector_opt v s : copy_vector v s = with_vector (default (vector s) (vec_opt v)) s.
Proof. unfold copy_vector, vec_opt. destruct (length v =? 0)%nat; [by destruct s|done]. Qed.

Lemma encoded_slot_denote id v fp ts s :
  encoded_slot (MemoryId.version id) v fp ts s = denote (encode_upd id v fp ts) s.
Proof. unfold encoded_slot, denote. rewrite copy_vector_opt. done. Qed.

Lemma tombstoned_slot_denote m ts s :
  tombstoned_slot (match m with Hard => true | Soft => false end) ts s
  = denote (forget_upd m ts) s.
Proof.
  unfold tombstoned_slot, denote, set_flag. cbn [forget_upd u_touched]. destruct m; [done|].
  f_equal. unfold raw, with_meta, with_vector, meta_flags, meta_modified.
  cbn [forget_upd u_vec u_ver u_keep u_mask u_fp u_created u_mod vector metadata slot_version
    slot_flags embedding_model_fp_short created_at_unix_nanos last_modified_at_unix_nanos
    metadata_crc32c meta_reserved default].
  by rewrite <- Z.lor_assoc.
Qed.

Lemma reclaimed_slot_denote v ts s : reclaimed_slot v ts s = denote (reclaim_upd v ts) s.
Proof. done. Qed.

Lemma migrated_slot_denote v fp ts s : migrated_slot v fp ts s = denote (migrate_upd v fp ts) s.
Proof.
  unfold migrated_slot, denote, raw. rewrite copy_vector_opt. cbn. rewrite Z.lor_0_r. done.
Qed.
End entries.

(** ** Growth *)

(** Doubling reaches any [u64]; the fuel of [ensure_slot_capacity] is enough. *)
Lemma double_until_total fuel t needed n :
  1 <= t <= U64_MAX -> needed <= U64_MAX -> needed <= t * 2 ^ Z.of_nat n -> (n < fuel)%nat ->
  exists r, double_until fuel t needed = Some r /\ t <= r <= U64_MAX /\ needed <= r
    /\ (r = t \/ r < 2 * needed).
Proof.
  revert t n. induction fuel as [|fuel IH]; intros t n Ht Hn Hp Hf; [lia|].
  cbn [double_until]. destruct (Z.ltb_spec t needed) as [Hlt|Hge].
  2: { exists t. split_and!; [done|lia..|by left]. }
  destruct n as [|n]; [cbn in Hp; lia|].
  rewrite Nat2Z.inj_succ, Z.pow_succ_r in Hp by lia. unfold sat_mul64.
  destruct (IH (Z.min (t * 2) U64_MAX) n) as (r & E & Hr & Hle & Hor); [lia..| |lia|].
  { destruct (Z.min_spec (t * 2) U64_MAX) as [[_ ->]|[_ ->]]; [lia|].
    assert (1 <= 2 ^ Z.of_nat n) by (apply (Z.pow_le_mono_r 2 0); lia). nia. }
  exists r. split_and!; [done|lia..|]. right. destruct Hor as [->|]; lia.
Qed.

(** The capacity after making slot [j] addressable. *)
Definition cap_step (c j : Z) : Z :=
  if j + 1 <=? c then c else default c (double_until 66 (Z.max c 1) (j + 1)).

Lemma cap_step_grow c j :
  0 <= c <= max_capacity -> 0 <= j < 2 ^ 48 -> c < j + 1 ->
  exists t, double_until 66 (Z.max c 1) (j + 1) = Some t /\ cap_step c j = t
    /\ j + 1 <= t /\ c < t <= max_capacity.
Proof.
  unfold max_capacity. intros Hc Hj Hlt. unfold cap_step. rewrite (proj2 (Z.leb_gt _ _)) by lia.
  destruct (double_until_total 66 (Z.max c 1) (j + 1) 48) as (t & E & Ht & Hle & Hor);
    [unfold U64_MAX; lia|unfold U64_MAX; lia| |lia|].
  { change (2 ^ Z.of_nat 48) with (2 ^ 48). nia. }
  exists t. rewrite E. cbn. split_and!; [done..|lia|lia|lia].
Qed.

Lemma cap_step_bound c j :
  0 <= c <= max_capacity -> 0 <= j < 2 ^ 48 ->
  c <= cap_step c j <= max_capacity /\ j < cap_step c j.
Proof.
  intros Hc Hj. destruct (Z.le_gt_cases (j + 1) c).
  - unfold cap_step. rewrite (proj2 (Z.leb_le _ _)) by done. lia.
  - destruct (cap_step_grow c j Hc Hj) as (t & _ & -> & ? & ?); lia.
Qed.

Definition sys_ok (sys : Z -> Syscalls) : Prop :=
  forall lsn, sys_fallocate (sys lsn) = Ok tt /\ sys_mremap (sys lsn) = Ok tt
    /\ sys_msync (sys lsn) = Ok tt /\ u64 (unix_nanos_now (sys lsn)).

(** What an arena holds at index [i]; growth adds zeroed slots. *)
Definition slot_or_zero (a : ArenaFile) (i : Z) : Slot := default zeroed (slot a i).

Section batch.
Context `{CRC : Crc32c} `{!Crc32cLaws CRC}.
Context (sys : Z -> Syscalls) (Hsys : sys_ok sys).

Record arena_ok (a : ArenaFile) : Prop := { ok_wf : arena_wf a; ok_tail : tail a = [] }.

Lemma ensure_ok a j lsn :
  arena_ok a -> 0 <= j < 2 ^ 48 ->
  exists a', ensure_slot_capacity sys a j lsn = Some (a', Ok tt) /\ arena_ok a'
    /\ capacity_slots a' = cap_step (capacity_slots a) j
    /\ forall i, 0 <= i < capacity_slots a' -> slot a' i = Some (slot_or_zero a i).
Proof using Hsys Crc32cLaws0.
  intros [Ha Ht] Hj. pose proof (wf_capacity_range a Ha) as Hc. unfold ensure_slot_capacity.
  assert (sat_add64 j 1 = j + 1) as -> by (unfold sat_add64, U64_MAX; lia).
  destruct (Z.leb_spec (j + 1) (capacity_slots a)) as [Hle|Hgt].
  { exists a. split_and!; try done.
    - unfold cap_step. by rewrite (proj2 (Z.leb_le _ _)).
    - intros i Hi. unfold slot_or_zero. by destruct (slot_lookup a i Ha Hi) as (s & -> & _). }
  destruct (cap_step_grow (capacity_slots a) j Hc Hj) as (t & Et & Es & Hjt & Hct); [lia|].
  rewrite Et; cbn [mbind option_bind]. destruct (Hsys lsn) as (Hf & Hm & Hms & Hu).
  pose proof (wf_file_size a Ha). pose proof (wf_slots_len a Ha) as Hl.
  destruct (grow_to_ok (sys lsn) a 0 t) as (a' & E & Ha' & Ht' & Esl & Ec & _); [done||lia..|].
  rewrite E, Hms. cbn [map_err]. exists a'. split_and!; try done; [congruence|].
  intros i Hi. destruct (slot_lookup a' i Ha' Hi) as (s & Es' & El & _). rewrite Es'. f_equal.
  rewrite Esl in El. unfold slot_or_zero, slot.
  destruct (Z.ltb_spec i (capacity_slots a)) as [Hlt|Hge].
  - rewrite lookup_app_l in El by lia. by rewrite El.
  - rewrite lookup_app_r in El by lia. by apply lookup_replicate in El as [-> _].
Qed.

Lemma update_slot_ok a j lsn f u :
  arena_ok a -> 0 <= j < 2 ^ 48 -> Upd_wf u -> (forall s, f s = denote u s) ->
  exists a', update_slot sys a j lsn (Ok tt) f = Some (a', Ok tt) /\ arena_ok a'
    /\ capacity_slots a' = cap_step (capacity_slots a) j
    /\ forall i, 0 <= i < capacity_slots a' ->
       slot a' i = Some (if i =? j then denote u (slot_or_zero a i) else slot_or_zero a i).
Proof using Hsys Crc32cLaws0.
  intros Ha Hj Hu Hf. destruct (ensure_ok a j lsn Ha Hj) as (a1 & E1 & [Ha1 Ht1] & Ec & Hs).
  unfold update_slot. rewrite E1; cbn [mbind option_bind].
  pose proof (wf_capacity_range a (ok_wf a Ha)) as Hr.
  pose proof (cap_step_bound (capacity_slots a) j Hr Hj) as [_ Hlt].
  assert (slot a1 j = Some (slot_or_zero a j)) as Ej by (apply Hs; lia).
  destruct (slot_mut a1 j f) as [a2|] eqn:Em.
  2: { unfold slot_mut in Em. by rewrite Ej in Em. }
  destruct (slot_mut_wf a1 j f a2 Ha1) as (Ha2 & Ht2 & Ec2 & _); [|done|].
  { intros s Hsw. rewrite Hf. by apply denote_wf. }
  destruct (slot_mut_slot a1 j f a2 ltac:(lia) Em) as (s0 & Es0 & Es2 & Hne).
  exists a2. split_and!; [done|split; [done|congruence]|congruence|].
  intros i Hi. destruct (Z.eqb_spec i j) as [->|Hij].
  - rewrite Es2. assert (s0 = slot_or_zero a j) as -> by congruence. by rewrite Hf.
  - rewrite Hne by (done || lia). apply Hs. lia.
Qed.

Lemma check_dim_ok v lsn : dim_ok v -> check_vector_dim v lsn = Ok tt.
Proof.
  unfold check_vector_dim. intros [-> | ->]; [done|].
  by rewrite Nat.eqb_refl, andb_false_r.
Qed.

(** One record. *)
Definition entry_cap (c : Z) (e : WalRecord * WalPayload) : Z :=
  match upd_of e with Some (j, _) => cap_step c j | None => c end.
Definition entry_upd (i : Z) (e : WalRecord * WalPayload) : Upd :=
  match upd_of e with Some (j, u) => if i =? j then u else no_upd | None => no_upd end.

Lemma apply_to_arena_upd a rec p j u :
  upd_of (rec, p) = Some (j, u) -> entry_ok (rec, p) ->
  exists f, apply_to_arena sys a rec p = update_slot sys a j (wr_lsn rec) (Ok tt) f
    /\ forall s, f s = denote u s.
Proof.
  intros E (_ & _ & Hd). cbn [fst snd] in Hd.
  destruct p; cbn in E; simplify_eq; cbn [apply_to_arena];
    unfold write_encoded_slot, write_consolidated_slot, migrate_slot_vector, reclaim_slot,
      mark_slot_tombstoned; rewrite ?check_dim_ok by done; eexists; (split; [reflexivity|]).
  - intros s. apply encoded_slot_denote.
  - intros s. apply tombstoned_slot_denote.
  - intros s. apply reclaimed_slot_denote.
  - intros s. apply encoded_slot_denote.
  - intros s. apply migrated_slot_denote.
Qed.

Lemma apply_to_arena_ok a e :
  arena_ok a -> entry_ok e ->
  exists a', apply_to_arena sys a e.1 e.2 = Some (a', Ok tt) /\ arena_ok a'
    /\ capacity_slots a' = entry_cap (capacity_slots a) e
    /\ forall i, 0 <= i < capacity_slots a' ->
       slot a' i = Some (denote (entry_upd i e) (slot_or_zero a i)).
Proof using Hsys Crc32cLaws0.
  intros Ha He. destruct e as [rec p]. unfold entry_cap, entry_upd. cbn [fst snd].
  destruct (upd_of (rec, p)) as [[j u]|] eqn:Eu.
  - destruct (upd_of_wf _ _ _ He Eu) as (Hu & Ht & Hj).
    destruct (apply_to_arena_upd a rec p j u Eu He) as (f & -> & Hf).
    destruct (update_slot_ok a j (wr_lsn rec) f u Ha Hj Hu Hf) as (a' & E & Ha' & Ec & Hs).
    exists a'. split_and!; try done. intros i Hi. rewrite (Hs i Hi).
    by destruct (i =? j).
  - exists a. split_and!; try done.
    + by destruct p.
    + intros i Hi. unfold slot_or_zero.
      by destruct (slot_lookup a i (ok_wf a Ha) Hi) as (s & -> & _).
Qed.

(** ** Batches *)

Definition cap_after (c : Z) (l : list (WalRecord * WalPayload)) : Z := foldl entry_cap c l.
Definition slot_upd (i : Z) (l : list (WalRecord * WalPayload)) : Upd :=
  foldl (fun u e => compose (entry_upd i e) u) no_upd l.

Lemma slot_upd_snoc i l e : slot_upd i (l ++ [e]) = compose (entry_upd i e) (slot_upd i l).
Proof. unfold slot_upd. by rewrite foldl_app. Qed.

Lemma slot_upd_app i a b : slot_upd i (a ++ b) = compose (slot_upd i b) (slot_upd i a).
Proof.
  induction b as [|e b IH] using rev_ind; [by rewrite app_nil_r, no_upd_compose|].
  by rewrite app_assoc, !slot_upd_snoc, IH, compose_assoc.
Qed.

Lemma entry_upd_ok i e :
  entry_ok e -> Upd_wf (entry_upd i e) /\ coherent (entry_upd i e).
Proof.
  intros He. unfold entry_upd. destruct (upd_of e) as [[j u]|] eqn:E.
  2: { split; [apply no_upd_wf|done]. }
  destruct (upd_of_wf _ _ _ He E) as (Hu & Ht & _).
  destruct (i =? j); [|split; [apply no_upd_wf|done]]. split; [done|].
  unfold coherent. by rewrite Ht.
Qed.

Lemma slot_upd_ok i l :
  Forall entry_ok l -> Upd_wf (slot_upd i l) /\ coherent (slot_upd i l).
Proof.
  induction l as [|e l IH] using rev_ind; intros Hl; [split; [apply no_upd_wf|done]|].
  apply Forall_app in Hl as [Hl He]. apply Forall_cons in He as [He _].
  destruct (IH Hl), (entry_upd_ok i e He). rewrite slot_upd_snoc.
  split; [by apply compose_wf|by apply compose_coherent].
Qed.

Lemma cap_after_mono c l :
  0 <= c <= max_capacity -> Forall entry_ok l -> c <= cap_after c l <= max_capacity.
Proof.
  intros Hc. induction l as [|e l IH] using rev_ind; intros Hl; [cbn; lia|].
  apply Forall_app in Hl as [Hl He]. apply Forall_cons in He as [He _]. specialize (IH Hl).
  unfold cap_after in *. rewrite foldl_app. cbn. unfold entry_cap at 1 3.
  destruct (upd_of e) as [[j u]|] eqn:E; [|lia].
  destruct (upd_of_wf _ _ _ He E) as (_ & _ & Hj).
  pose proof (cap_step_bound (foldl entry_cap c l) j ltac:(lia) Hj). lia.
Qed.

(** The slots a batch touches are addressable after it. *)
Lemma cap_after_needed c l e j u :
  0 <= c <= max_capacity -> Forall entry_ok l -> e ∈ l -> upd_of e = Some (j, u) ->
  j < cap_after c l.
Proof.
  intros Hc. induction l as [|e' l IH] using rev_ind; intros Hl Hin E; [by apply elem_of_nil in Hin|].
  apply Forall_app in Hl as [Hl He]. apply Forall_cons in He as [He _].
  pose proof (cap_after_mono c l Hc Hl) as Hm. unfold cap_after in *. rewrite foldl_app. cbn.
  apply elem_of_app in Hin as [Hin|Hin].
  - specialize (IH Hl Hin E). unfold entry_cap at 1. destruct (upd_of e') as [[j' u']|] eqn:E'; [|done].
    destruct (upd_of_wf _ _ _ He E') as (_ & _ & Hj).
    pose proof (cap_step_bound (foldl entry_cap c l) j' ltac:(lia) Hj). lia.
  - apply list_elem_of_singleton in Hin as ->. unfold entry_cap at 1. rewrite E.
    destruct (upd_of_wf _ _ _ He E) as (_ & _ & Hj).
    by apply cap_step_bound; [lia|].
Qed.

Lemma slot_upd_outside i c l :
  0 <= c <= max_capacity -> Forall entry_ok l -> cap_after c l <= i -> slot_upd i l = no_upd.
Proof.
  intros Hc Hl Hi. assert (forall e, e ∈ l -> entry_upd i e = no_upd) as H.
  { intros e Hin. unfold entry_upd. destruct (upd_of e) as [[j u]|] eqn:E; [|done].
    pose proof (cap_after_needed c l e j u Hc Hl Hin E).
    by rewrite (proj2 (Z.eqb_neq _ _)) by lia. }
  clear Hl Hi. induction l as [|e l IH] using rev_ind; [done|].
  rewrite slot_upd_snoc, IH.
  - rewrite H; [apply compose_no_upd|]. apply elem_of_app. right. by left.
  - intros e' Hin. apply H, elem_of_app. by left.
Qed.

(** Once everything is addressable, a batch grows nothing. *)
Lemma cap_after_stable c l :
  (forall e j u, e ∈ l -> upd_of e = Some (j, u) -> j < c) -> cap_after c l = c.
Proof.
  induction l as [|e l IH] using rev_ind; intros H; [done|].
  unfold cap_after in *. rewrite foldl_app, IH.
  - cbn. unfold entry_cap. destruct (upd_of e) as [[j u]|] eqn:E; [|done]. unfold cap_step.
    rewrite (proj2 (Z.leb_le _ _)); [done|].
    assert (j < c); [|lia]. eapply H; [|done]. apply elem_of_app. right. by left.
  - intros e' j u Hin. apply H, elem_of_app. by left.
Qed.

(** Replaying a batch onto the arena. *)
Fixpoint arena_replay (a : ArenaFile) (l : list (WalRecord * WalPayload))
  : option (ArenaFile * result unit RecoveryError) :=
  match l with
  | [] => Some (a, Ok tt)
  | e :: l =>
    '(a, r) ← apply_to_arena sys a e.1 e.2;
    match r with Err x => Some (a, Err x) | Ok _ => arena_replay a l end
  end.

Lemma arena_replay_app a l1 l2 :
  arena_replay a (l1 ++ l2) =
    '(a', r) ← arena_replay a l1;
    match r with Err x => Some (a', Err x) | Ok _ => arena_replay a' l2 end.
Proof.
  revert a. induction l1 as [|e l1 IH]; intros a; cbn [app arena_replay]; [done|].
  destruct (apply_to_arena sys a e.1 e.2) as [[a' [u|x]]|]; cbn [mbind option_bind]; auto.
Qed.

Lemma slot_or_zero_wf a i : arena_wf a -> Slot_wf (slot_or_zero a i).
Proof.
  intros Ha. unfold slot_or_zero. destruct (slot a i) as [s|] eqn:E; cbn; [|apply zeroed_wf].
  by eapply slot_wf_of.
Qed.

Lemma arena_batch a l :
  arena_ok a -> Forall entry_ok l ->
  exists a', arena_replay a l = Some (a', Ok tt) /\ arena_ok a'
    /\ capacity_slots a' = cap_after (capacity_slots a) l
    /\ forall i, 0 <= i < capacity_slots a' ->
       slot a' i = Some (denote (slot_upd i l) (slot_or_zero a i)).
Proof using Hsys Crc32cLaws0.
  intros Ha. induction l as [|e l IH] using rev_ind; intros Hl.
  { exists a. split_and!; try done. intros i Hi. unfold slot_or_zero.
    by destruct (slot_lookup a i (ok_wf a Ha) Hi) as (s & -> & _). }
  apply Forall_app in Hl as [Hl He]. apply Forall_cons in He as [He _].
  destruct (IH Hl) as (a1 & E1 & Ha1 & Ec1 & Hs1).
  destruct (apply_to_arena_ok a1 e Ha1 He) as (a2 & E2 & Ha2 & Ec2 & Hs2).
  exists a2. rewrite arena_replay_app, E1; cbn [mbind option_bind arena_replay].
  rewrite E2; cbn [mbind option_bind arena_replay]. split_and!; try done.
  { rewrite Ec2, Ec1. unfold cap_after. by rewrite foldl_app. }
  intros i Hi. rewrite (Hs2 i Hi), slot_upd_snoc. f_equal.
  destruct (slot_upd_ok i l Hl), (entry_upd_ok i e He).
  pose proof (slot_or_zero_wf a i (ok_wf a Ha)).
  rewrite <- denote_compose by done. f_equal. unfold slot_or_zero at 1.
  destruct (Z.lt_ge_cases i (capacity_slots a1)) as [Hlt|Hge].
  - by rewrite (Hs1 i) by lia.
  - (* a slot [e] added: nothing touched it before *)
    assert (slot a1 i = None) as -> by (unfold slot; by rewrite (proj2 (Z.ltb_ge _ _))).
    assert (slot_upd i l = no_upd) as ->.
    { apply slot_upd_outside with (c := capacity_slots a); try done.
      - pose proof (wf_capacity_range a (ok_wf a Ha)). lia.
      - lia. }
    pose proof (cap_after_mono (capacity_slots a) l (wf_capacity_range a (ok_wf a Ha)) Hl).
    unfold slot_or_zero, slot. by rewrite (proj2 (Z.ltb_ge _ _)) by lia.
Qed.

(** ** Restarting a replay *)

(** A crash image: the arena file as a crash may leave it while [l] was being
    replayed onto [a].  Slots reach the disk independently of each other, so
    each may have seen a different prefix of the batch. *)
Record crash_image (a : ArenaFile) (l : list (WalRecord * WalPayload)) (a1 : ArenaFile) : Prop := {
  ci_ok : arena_ok a1;
  ci_cap : exists k, capacity_slots a1 = cap_after (capacity_slots a) (take k l);
  ci_slot : forall i, 0 <= i < capacity_slots a1 ->
    exists k, slot a1 i = Some (denote (slot_upd i (take k l)) (slot_or_zero a i));
}.

(** In particular an interrupted replay whose writes all reached the disk. *)
Lemma crash_image_prefix a l k :
  arena_ok a -> Forall entry_ok l ->
  exists a1, arena_replay a (take k l) = Some (a1, Ok tt) /\ crash_image a l a1.
Proof using Hsys Crc32cLaws0.
  intros Ha Hl. destruct (arena_batch a (take k l) Ha) as (a1 & E & Ha1 & Ec & Hs);
    [by apply Forall_take|].
  exists a1. split; [done|]. split; [done|by exists k|]. intros i Hi. exists k. by apply Hs.
Qed.

Lemma slot_upd_restart i k l s :
  Forall entry_ok l -> Slot_wf s ->
  denote (slot_upd i l) (denote (slot_upd i (take k l)) s) = denote (slot_upd i l) s.
Proof.
  intros Hl Hs. assert (Forall entry_ok (take k l)) as Hk by (by apply Forall_take).
  destruct (slot_upd_ok i l Hl), (slot_upd_ok i _ Hk). rewrite denote_compose by done. f_equal.
  rewrite <- (take_drop k l) at 1 3. by rewrite slot_upd_app, compose_absorb.
Qed.

Lemma cap_after_restart c k l :
  0 <= c <= max_capacity -> Forall entry_ok l ->
  cap_after (cap_after c (take k l)) l = cap_after c l.
Proof.
  intros Hc Hl. assert (Forall entry_ok (take k l)) as Hk by (by apply Forall_take).
  rewrite <- (take_drop k l) at 2 3. unfold cap_after at 1 3. rewrite !foldl_app.
  fold (cap_after c (take k l)). fold (cap_after (cap_after c (take k l)) (take k l)).
  rewrite (cap_after_stable (cap_after c (take k l))); [done|].
  intros e j u Hin E. by eapply cap_after_needed.
Qed.

(** Two arenas with the same capacity and slots. *)
Definition same_slots (a b : ArenaFile) : Prop :=
  capacity_slots a = capacity_slots b /\ slots a = slots b.

Lemma same_slots_ext a b :
  arena_wf a -> arena_wf b -> capacity_slots a = capacity_slots b ->
  (forall i, 0 <= i < capacity_slots a -> slot a i = slot b i) -> same_slots a b.
Proof.
  intros Ha Hb Ec Hs. split; [done|]. pose proof (wf_slots_len a Ha). pose proof (wf_slots_len b Hb).
  apply list_eq_same_length with (length (slots b)); [done|lia|].
  intros i x y Hi Hx Hy. specialize (Hs (Z.of_nat i) ltac:(lia)). unfold slot in Hs.
  rewrite !(proj2 (Z.ltb_lt _ _)), Nat2Z.id in Hs by lia. congruence.
Qed.

Lemma replay_crash_image a l a1 :
  arena_ok a -> Forall entry_ok l -> crash_image a l a1 ->
  exists a2 a3, arena_replay a1 l = Some (a2, Ok tt) /\ arena_replay a l = Some (a3, Ok tt)
    /\ same_slots a2 a3 /\ arena_ok a2.
Proof using Hsys Crc32cLaws0.
  intros Ha Hl [Ha1 [k Ek] Hci]. pose proof (wf_capacity_range a (ok_wf a Ha)) as Hc.
  destruct (arena_batch a1 l Ha1 Hl) as (a2 & E2 & Ha2 & Ec2 & Hs2).
  destruct (arena_batch a l Ha Hl) as (a3 & E3 & Ha3 & Ec3 & Hs3).
  exists a2, a3. split_and!; try done.
  assert (capacity_slots a2 = capacity_slots a3) as Ec
    by (rewrite Ec2, Ek, Ec3; by apply cap_after_restart).
  apply same_slots_ext; try apply Ha2; try apply Ha3; [done|].
  intros i Hi. rewrite (Hs2 i Hi), (Hs3 i) by lia. f_equal.
  unfold slot_or_zero at 1. destruct (Z.lt_ge_cases i (capacity_slots a1)) as [Hlt|Hge].
  - destruct (Hci i ltac:(lia)) as [k' ->]. cbn.
    apply slot_upd_restart; [done|]. apply slot_or_zero_wf, Ha.
  - assert (Forall entry_ok (take k l)) as Hk by (by apply Forall_take).
    pose proof (cap_after_mono (capacity_slots a) (take k l) Hc Hk).
    unfold slot_or_zero, slot. by rewrite !(proj2 (Z.ltb_ge _ _)) by lia.
Qed.

(** ** Hard forget *)

(** [e] writes a vector into slot [j]; [e] clears the flags of slot [j]. *)
Definition writes_vector (j : Z) (e : WalRecord * WalPayload) : bool :=
  match u_vec (entry_upd j e) with Some _ => true | None => false end.
Definition clears_flags (j : Z) (e : WalRecord * WalPayload) : bool := negb (u_keep (entry_upd j e)).

Lemma slot_upd_no_vector j l :
  forallb (fun e => negb (writes_vector j e)) l = true -> u_vec (slot_upd j l) = None.
Proof.
  induction l as [|e l IH] using rev_ind; intros H; [done|].
  rewrite forallb_app in H. apply andb_prop in H as [H1 H2]. cbn in H2. rewrite andb_true_r in H2.
  rewrite slot_upd_snoc. unfold writes_vector in H2. cbn [compose u_vec or_else].
  destruct (u_vec (entry_upd j e)); [done|]. cbn. by apply IH.
Qed.

Lemma slot_upd_keeps j l :
  forallb (fun e => negb (clears_flags j e)) l = true -> u_keep (slot_upd j l) = true.
Proof.
  induction l as [|e l IH] using rev_ind; intros H; [done|].
  rewrite forallb_app in H. apply andb_prop in H as [H1 H2]. cbn in H2. rewrite andb_true_r in H2.
  rewrite slot_upd_snoc. unfold clears_flags in H2. rewrite negb_involutive in H2.
  cbn [compose u_keep]. by rewrite H2, IH.
Qed.

(** A flag set in one operand is set in the union. *)
Lemma land_lor_l x y m : Z.land x m <> 0 -> Z.land (Z.lor x y) m <> 0.
Proof. rewrite Z.land_lor_distr_l. intros H [? _]%Z.lor_eq_0_iff. done. Qed.
Lemma land_lor_r x y m : Z.land y m <> 0 -> Z.land (Z.lor x y) m <> 0.
Proof. rewrite Z.lor_comm. apply land_lor_l. Qed.
End batch.

(** ** Contract *)

Section arena_contract.
Context `{CRC : Crc32c} `{!Crc32cLaws CRC}.

(** C31: replay is restartable: from any crash image of a replay - every slot
    possibly at a different point of it - replaying the whole batch again
    succeeds and ends with exactly the slots an uninterrupted replay gives. *)
Theorem replay_restartable sys a l a1 :
  sys_ok sys -> arena_ok a -> Forall entry_ok l -> crash_image a l a1 ->
  exists a2 a3, arena_replay sys a1 l = Some (a2, Ok tt) /\ arena_replay sys a l = Some (a3, Ok tt)
    /\ same_slots a2 a3 /\ arena_ok a2.
Proof using Crc32cLaws0. intros Hsys. by apply replay_crash_image. Qed.

(** Hard forget holds across recovery: after replaying a log in which a
    hard FORGET of a slot is followed by nothing that writes a vector into
    that slot, the vector's bytes in the arena file are all zero, whatever
    the slot held before; the slot stays marked hard-forgotten as long as
    nothing after it resets the slot's flags. *)
Theorem replay_hard_forget sys a pre rec p post :
  sys_ok sys -> arena_ok a -> Forall entry_ok (pre ++ (rec, Forget p) :: post) ->
  fp_mode p = Hard ->
  let j := MemoryId.slot (fp_memory_id p) in
  forallb (fun e => negb (writes_vector j e)) post = true ->
  exists a' s, arena_replay sys a (pre ++ (rec, Forget p) :: post) = Some (a', Ok tt)
    /\ slot a' j = Some s /\ is_valid s = true
    /\ slice (slot_offset j) (slot_offset j + VECTOR_BYTES) (file_bytes a')
       = replicate VECTOR_BYTES Byte.x00
    /\ (forallb (fun e => negb (clears_flags j e)) post = true -> is_hard_forgotten s = true).
Proof using Crc32cLaws0.
  intros Hsys Ha Hl Hm j Hno. set (l := pre ++ (rec, Forget p) :: post) in *.
  destruct (arena_batch sys Hsys a l Ha Hl) as (a' & E & Ha' & Ec & Hs).
  pose proof (wf_capacity_range a (ok_wf a Ha)) as Hc.
  assert (upd_of (rec, Forget p) = Some (j, forget_upd Hard (wr_timestamp_ns rec))) as Eu
    by (unfold upd_of; cbn; by rewrite Hm).
  assert (j < capacity_slots a') as Hj.
  { rewrite Ec. eapply cap_after_needed; [done..| |exact Eu]. apply elem_of_app. right. by left. }
  pose proof (MemoryId_slot_range (fp_memory_id p)) as Hj0. fold j in Hj0.
  exists a', (denote (slot_upd j l) (slot_or_zero a j)).
  assert (slot a' j = Some (denote (slot_upd j l) (slot_or_zero a j))) as Ej by (apply Hs; lia).
  assert (slot_upd j l = compose (slot_upd j post)
    (compose (forget_upd Hard (wr_timestamp_ns rec)) (slot_upd j pre))) as Esu.
  { unfold l. rewrite cons_middle, app_assoc, slot_upd_app, slot_upd_snoc. do 2 f_equal.
    unfold entry_upd. by rewrite Eu, Z.eqb_refl. }
  destruct (slot_upd_ok j l Hl) as [Hw Hcoh].
  assert (u_touched (slot_upd j l) = true) as Ht by (rewrite Esu; cbn; apply orb_true_r).
  assert (vector (denote (slot_upd j l) (slot_or_zero a j)) = replicate VECTOR_DIM 0) as Hv.
  { unfold denote. rewrite Ht. unfold refresh_crc, with_meta, raw. cbn [vector].
    rewrite Esu. cbn [compose u_vec]. by rewrite (slot_upd_no_vector j post Hno). }
  split_and!; try done.
  - unfold denote. rewrite Ht. apply refresh_crc_valid, raw_wf; [done|]. apply slot_or_zero_wf, Ha.
  - rewrite (slot_file_bytes a' j _ (ok_wf a' Ha')) by (done || lia). rewrite Hv.
    apply vector_bytes_zeros.
  - intros Hk. unfold is_hard_forgotten, has_flag. apply negb_true_iff, Z.eqb_neq.
    unfold denote. rewrite Ht. unfold refresh_crc, with_meta, raw.
    cbn [metadata meta_crc slot_flags]. rewrite Esu. cbn [compose u_keep u_mask forget_upd].
    rewrite (slot_upd_keeps j post Hk). cbn [andb].
    assert (Z.land (u_mask (forget_upd Hard 0)) flags.HARD_FORGOTTEN <> 0) as Hb by done.
    cbn [forget_upd u_mask] in Hb.
    destruct (u_keep (slot_upd j pre)); [apply land_lor_r|]; by apply land_lor_l, land_lor_r.
Qed.
End arena_contract.

(** ** An encode and a hard forget beyond the arena's capacity *)

Module ReplayExample.
Import Castagnoli Allocator.AllocExample.

Definition rec_at (lsn : Z) (kind : WalRecordKind) : WalRecord :=
  {| wr_lsn := lsn; wr_kind := kind; wr_flags := 0; wr_timestamp_ns := 1700;
     wr_space_id_lo64 := 42; wr_payload := [] |}.
Definition id16 : bytes := replicate 16 Byte.x07.
Definition reclaim : ReclaimPayload :=
  {| rc_slot_id := 6; rc_old_version := 1; rc_new_version := 2; rc_memory_id := MemoryId.pack 1 6 1 |}.
Definition forget : ForgetPayload :=
  {| fp_memory_id := MemoryId.pack 1 6 1; fp_request_id := id16; fp_space_id := id16;
     fp_mode := Hard; fp_reason := ClientRequest |}.
Definition batch : list (WalRecord * WalPayload) :=
  [(rec_at 1 KReclaim, Reclaim reclaim); (rec_at 2 KForget, Forget forget)].

Lemma demo_ok : arena_ok demo.
Proof. destruct demo_spec as (Ha & Ht & _). by split. Qed.

Lemma sys_demo_ok : sys_ok (fun _ => ArenaExample.sys).
Proof. intros lsn. by split_and!. Qed.

Lemma batch_ok : Forall entry_ok batch.
Proof.
  repeat constructor; try done; try (vm_compute; intuition congruence).
Qed.

Lemma replay_restartable_witness :
  exists a1 a2 a3, crash_image demo batch a1
    /\ arena_replay (fun _ => ArenaExample.sys) a1 batch = Some (a2, Ok tt)
    /\ arena_replay (fun _ => ArenaExample.sys) demo batch = Some (a3, Ok tt)
    /\ same_slots a2 a3.
Proof.
  destruct (crash_image_prefix _ sys_demo_ok demo batch 1 demo_ok batch_ok) as (a1 & _ & Hc).
  destruct (replay_restartable _ demo batch a1 sys_demo_ok demo_ok batch_ok Hc)
    as (a2 & a3 & E2 & E3 & Hs & _). exists a1, a2, a3. by split_and!.
Defined.

Lemma replay_hard_forget_witness :
  exists a' s, arena_replay (fun _ => ArenaExample.sys) demo batch = Some (a', Ok tt)
    /\ slot a' 6 = Some s /\ is_hard_forgotten s = true.
Proof.
  destruct (replay_hard_forget (fun _ => ArenaExample.sys) demo [(rec_at 1 KReclaim, Reclaim reclaim)]
    (rec_at 2 KForget) forget [] sys_demo_ok demo_ok batch_ok eq_refl eq_refl)
    as (a' & s & E & Es & _ & _ & Hf).
  exists a', s. split; [exact E|]. split; [exact Es|exact (Hf eq_refl)].
Defined.
End ReplayExample.
