(* ===== verification/RecoveryContract.v ===== *)
(** What recovery promises.

    A log is a sequence of units: records outside transactions, and
    transactions with their brackets.  [recover_committed_prefix] is the
    atomicity of recovery for a crash at any record; [recover_report] says
    where the log resumes and accounts for every record; [recover_sound] is
    the converse: a recovery that succeeds read a healthy log and applied all
    of it. *)

From S2P Require Import Prelude Crc32c Ids WalKinds WalRecord Utf8 WalPayload WalPayloadCodec.
From S2P Require Import ArenaSlot ArenaFile Allocator WalSegment WalReader WalReaderSpec.
From S2P Require Import WalReaderOpen Recovery RecoveryReplay RecoveryArena.

Abbreviation Entry := (WalRecord * WalPayload)%type.

(** ** Logs as sequences of units *)

Inductive Unit_ :=
| Single (e : Entry)
| Transaction (begin : Entry) (members : list Entry) (close : Entry) (committed : bool).

Definition flatten (u : Unit_) : list Entry :=
  match u with Single e => [e] | Transaction b ms c _ => b :: ms ++ [c] end.

(** What a complete unit asks to apply. *)
Definition unit_effects (u : Unit_) : list Entry :=
  match u with Transaction _ _ _ false => [] | u => flatten u end.

(** The transaction open after a payload, given the one open before. *)
Definition next_txn (txn : option bytes) (p : WalPayload) : option bytes :=
  match p, txn with
  | TxnBegin b, _ => Some (tb_txn_id b)
  | TxnCommit c, Some id => if bool_decide (tc_txn_id c = id) then None else Some id
  | TxnAbort c, Some id => if bool_decide (ta_txn_id c = id) then None else Some id
  | _, _ => txn
  end.

Definition open_txn (txn : option bytes) (log : list Entry) : option bytes :=
  foldl (fun t e => next_txn t (snd e)) txn log.

(** A payload that neither opens a transaction nor closes transaction [id]. *)
Definition inside (id : bytes) (p : WalPayload) : Prop :=
  match p with
  | TxnBegin _ => False
  | TxnCommit c => tc_txn_id c <> id
  | TxnAbort c => ta_txn_id c <> id
  | _ => True
  end.

Definition is_begin (p : WalPayload) : bool := match p with TxnBegin _ => true | _ => false end.

(** An opened transaction with members, within its declared count. *)
Definition opened (b : Entry) (ms : list Entry) (id : bytes) : Prop :=
  exists p, b.2 = TxnBegin p /\ tb_txn_id p = id /\ Forall (fun e => inside id e.2) ms
    /\ Z.of_nat (length ms) <= tb_expected_record_count p.

Definition unit_ok (u : Unit_) : Prop :=
  match u with
  | Single e => is_begin e.2 = false
  | Transaction b ms c committed =>
    exists id, opened b ms id /\
      if committed then exists p, c.2 = TxnCommit p /\ tc_txn_id p = id
      else exists p, c.2 = TxnAbort p /\ ta_txn_id p = id
  end.

(** The units whose records all lie within the first [k]. *)
Fixpoint complete (k : nat) (us : list Unit_) : list Unit_ :=
  match us with
  | [] => []
  | u :: us =>
    if (length (flatten u) <=? k)%nat then u :: complete (k - length (flatten u)) us else []
  end.

(** What is left of the unit the cut falls into. *)
Fixpoint cut (k : nat) (us : list Unit_) : list Entry :=
  match us with
  | [] => []
  | u :: us =>
    if (length (flatten u) <=? k)%nat then cut (k - length (flatten u)) us else take k (flatten u)
  end.

Section units.
Lemma take_units k us : take k (us ≫= flatten) = (complete k us ≫= flatten) ++ cut k us.
Proof.
  revert k. induction us as [|u us IH]; intros k; cbn [complete cut].
  { cbn. by destruct k. }
  rewrite bind_cons. destruct (Nat.leb_spec (length (flatten u)) k).
  - by rewrite take_app_ge, IH, bind_cons, <- app_assoc by done.
  - by rewrite take_app_le by lia.
Qed.

Lemma complete_ok k us : Forall unit_ok us -> Forall unit_ok (complete k us).
Proof.
  intros H. revert k. induction H as [|u us Hu _ IH]; intros k; cbn [complete]; [done|].
  destruct (_ <=? _)%nat; [|done]. constructor; [done|apply IH].
Qed.

(** A cut transaction has begun and is not closed. *)
Lemma cut_spec k us :
  Forall unit_ok us -> cut k us = [] \/ exists b ms id, cut k us = b :: ms /\ opened b ms id.
Proof.
  intros H. revert k. induction H as [|u us Hu _ IH]; intros k; cbn [cut]; [by left|].
  destruct (Nat.leb_spec (length (flatten u)) k) as [|Hlt]; [apply IH|].
  destruct u as [e|b ms c cm]; cbn [flatten length] in *.
  - assert (k = 0%nat) as -> by lia. by left.
  - destruct k as [|k]; [by left|]. right. destruct Hu as (id & (p & E1 & E2 & Hf & Hl) & _).
    exists b, (take k ms), id. rewrite firstn_cons. rewrite length_app in Hlt. cbn [length] in Hlt.
    rewrite take_app_le by lia. split; [done|]. exists p. split_and!; try done.
    + by apply Forall_take.
    + rewrite length_take. lia.
Qed.

(** Members leave the transaction open and within bounds. *)
Lemma effects_members id buf ms log :
  Forall (fun e => inside id e.2) ms ->
  effects (Some (id, buf)) (ms ++ log) = effects (Some (id, buf ++ ms)) log.
Proof.
  revert buf. induction ms as [|[r p] ms IH]; intros buf; [by rewrite app_nil_r|].
  intros [Hi Hm]%Forall_cons. cbn [app effects]. cbn in Hi.
  rewrite (cons_middle _ buf ms), app_assoc, <- (IH _ Hm).
  destruct p; try done; by rewrite bool_decide_eq_false_2.
Qed.

Lemma bounded_members id n k ms log :
  Forall (fun e => inside id e.2) ms -> Z.of_nat k + Z.of_nat (length ms) <= n + 1 ->
  bounded (Some (id, n, k)) (ms ++ log) = bounded (Some (id, n, (k + length ms)%nat)) log.
Proof.
  revert k. induction ms as [|[r p] ms IH]; intros k; cbn [length]; [by rewrite Nat.add_0_r|].
  intros [Hi Hm]%Forall_cons Hk. cbn [app bounded]. cbn in Hi.
  assert ((Z.of_nat k <=? n) = true) as Hle by (apply Z.leb_le; lia).
  rewrite Nat.add_succ_r, <- Nat.add_succ_l, <- (IH (S k)) by (done || lia).
  destruct p; try done; rewrite ?bool_decide_eq_false_2 by done; by rewrite Hle.
Qed.

Lemma open_members id ms : Forall (fun e => inside id e.2) ms -> open_txn (Some id) ms = Some id.
Proof.
  unfold open_txn. induction ms as [|[r p] ms IH]; [done|]. intros [Hi Hm]%Forall_cons.
  cbn [foldl snd]. cbn in Hi. rewrite <- (IH Hm) at 2. f_equal.
  destruct p; try done; cbn; by rewrite bool_decide_eq_false_2.
Qed.

(** A whole unit from the idle state. *)
Lemma effects_unit u log :
  unit_ok u -> effects None (flatten u ++ log) = unit_effects u ++ effects None log.
Proof.
  destruct u as [[r p]|[rb pb] ms [rc pc] cm]; cbn [unit_ok flatten unit_effects snd].
  - intros Hb. cbn [app effects]. by destruct p.
  - intros (id & (p & Eb & E2 & Hf & _) & Hc). cbn in Eb. subst pb. cbn [app effects]. rewrite <- app_assoc, E2.
    rewrite effects_members by done. cbn [app effects].
    destruct cm; destruct Hc as (q & Eq & Ei); cbn in Eq; subst pc; rewrite bool_decide_eq_true_2 by done.
    + cbn [unit_effects flatten app]. by rewrite <- !app_assoc.
    + done.
Qed.

Lemma bounded_unit u log :
  unit_ok u -> bounded None (flatten u ++ log) = bounded None log.
Proof.
  destruct u as [[r p]|[rb pb] ms [rc pc] cm]; cbn [unit_ok flatten snd].
  - intros Hb. cbn [app bounded]. by destruct p.
  - intros (id & (p & Eb & E2 & Hf & Hl) & Hc). cbn in Eb. subst pb. cbn [app bounded]. rewrite <- app_assoc, E2.
    rewrite bounded_members by (done || lia). cbn [app bounded].
    destruct cm; destruct Hc as (q & Eq & Ei); cbn in Eq; subst pc;
      by rewrite bool_decide_eq_true_2 by done.
Qed.

Lemma open_unit u : unit_ok u -> open_txn None (flatten u) = None.
Proof.
  destruct u as [[r p]|[rb pb] ms [rc pc] cm]; cbn [unit_ok flatten snd].
  - intros Hb. by destruct p.
  - intros (id & (p & Eb & E2 & Hf & Hl) & Hc). cbn in Eb. subst pb. unfold open_txn. cbn [foldl snd next_txn].
    rewrite foldl_app, E2. fold (open_txn (Some id) ms). rewrite open_members by done.
    destruct cm; destruct Hc as (q & Eq & Ei); cbn in Eq; subst pc; cbn;
      by rewrite bool_decide_eq_true_2 by done.
Qed.

Lemma effects_units us log :
  Forall unit_ok us ->
  effects None ((us ≫= flatten) ++ log) = (us ≫= unit_effects) ++ effects None log.
Proof.
  induction 1 as [|u us Hu _ IH]; [done|]. rewrite ?bind_cons.
  by rewrite <- !app_assoc, effects_unit, IH.
Qed.

Lemma bounded_units us log :
  Forall unit_ok us -> bounded None ((us ≫= flatten) ++ log) = bounded None log.
Proof.
  induction 1 as [|u us Hu _ IH]; [done|]. rewrite ?bind_cons.
  by rewrite <- app_assoc, bounded_unit, IH.
Qed.

Lemma open_units us : Forall unit_ok us -> open_txn None (us ≫= flatten) = None.
Proof.
  induction 1 as [|u us Hu _ IH]; [done|]. rewrite ?bind_cons.
  unfold open_txn in *. rewrite foldl_app. fold (open_txn None (flatten u)).
  by rewrite open_unit.
Qed.

Lemma opened_spec b ms id :
  opened b ms id ->
  effects None (b :: ms) = [] /\ bounded None (b :: ms) = true /\ open_txn None (b :: ms) = Some id.
Proof.
  destruct b as [r q]. intros (p & E & Ei & Hf & Hl). cbn in E. subst q. cbn [effects bounded].
  rewrite Ei. rewrite <- (app_nil_r ms), effects_members, bounded_members by (done || lia).
  split_and!; [done..|]. rewrite app_nil_r. unfold open_txn. cbn [foldl snd next_txn].
  rewrite Ei. by apply open_members.
Qed.

(** Cutting a log anywhere leaves the effects of its complete units. *)
Lemma effects_prefix k us :
  Forall unit_ok us ->
  effects None (take k (us ≫= flatten)) = complete k us ≫= unit_effects
  /\ bounded None (take k (us ≫= flatten)) = true.
Proof.
  intros H. rewrite take_units. pose proof (complete_ok k us H) as Hc.
  rewrite effects_units, bounded_units by done.
  destruct (cut_spec k us H) as [->|(b & ms & id & -> & Ho)]; [by rewrite app_nil_r|].
  destruct (opened_spec b ms id Ho) as (-> & -> & _). by rewrite app_nil_r.
Qed.
End units.

(** ** Decoding a log *)

Fixpoint decode_log `{Crc32c} (durable : Z) (its : list Item) : option (list Entry) :=
  match its with
  | [] => Some []
  | it :: its =>
    if relevant durable (it_rec it) then
      match typed_payload (it_rec it) with
      | Ok p => log ← decode_log durable its; Some ((it_rec it, p) :: log)
      | Err _ => None
      end
    else decode_log durable its
  end.

Lemma decode_log_spec `{Crc32c} durable its log :
  decode_log durable its = Some log -> decoded durable its log.
Proof.
  unfold decoded. revert log. induction its as [|it its IH]; intros log E; cbn [decode_log] in E.
  { simplify_eq. constructor. }
  rewrite filter_cons. destruct (relevant durable (it_rec it)).
  - rewrite decide_True by done. destruct (typed_payload (it_rec it)) as [p|] eqn:Ep; [|done].
    destruct (decode_log durable its) as [l|]; [|done]. cbn in E. simplify_eq. constructor; auto.
  - rewrite decide_False by done. auto.
Qed.

(** ** The driver's bookkeeping *)

Section bookkeeping.
Context `{CRC : Crc32c} {S : Type} `{Snk : MetadataSink S}.
Context (sys : Z -> ArenaFile.Syscalls).
Implicit Types st : RecState (S := S).

(** Where the driver would resume the log. *)
Definition tail_of st := (last_good_lsn st, good_tail_offset st, good_tail_segment_seq st).
Definition place (it : Item) := (wr_lsn (it_rec it), Some (it_end it), Some (it_seq it)).

(** Every record is counted once, the closing abort of a transaction apart. *)
Definition counted st : Z :=
  st_replayed st + st_skipped st + st_discarded st + Z.of_nat (length (txn_buffer st)).
Definition closes_abort (txn : option bytes) (p : WalPayload) : Z :=
  match p, txn with
  | TxnAbort a, Some id => if bool_decide (ta_txn_id a = id) then 1 else 0
  | _, _ => 0
  end.

(** [st'] has applied [app] on top of [st], and is left with what remains of the effects. *)
Definition applies (entry : list Entry) (st st' : RecState (S := S)) : Prop :=
  exists app, (forall log, effects (txn_view st) (entry ++ log) = app ++ effects (txn_view st') log)
    /\ apply_all sys (st_arena st) (st_sink st) app = Some (st_arena st', st_sink st', Ok tt)
    /\ st_replayed st' = st_replayed st + Z.of_nat (length app).

Lemma applies_nil entry st st' :
  (forall log, effects (txn_view st) (entry ++ log) = effects (txn_view st') log) ->
  st_arena st' = st_arena st -> st_sink st' = st_sink st -> st_replayed st' = st_replayed st ->
  applies entry st st'.
Proof. intros H E1 E2 E. exists []. split_and!; [done|cbn; by rewrite E1, E2|cbn; lia]. Qed.

Lemma applies_trans e1 e2 st st1 st2 :
  applies e1 st st1 -> applies e2 st1 st2 -> applies (e1 ++ e2) st st2.
Proof.
  intros (a1 & H1 & A1 & R1) (a2 & H2 & A2 & R2). exists (a1 ++ a2). split_and!.
  - intros log. by rewrite <- !app_assoc, H1, H2.
  - rewrite apply_all_app, A1. cbn [mbind option_bind]. done.
  - rewrite length_app. lia.
Qed.

(** What one successful iteration does to the bookkeeping. *)
Record step_books (durable : Z) (it : Item) (st st' : RecState (S := S)) : Prop := {
  sb_idle : idle_empty st';
  sb_tail : tail_of st' = if (wr_lsn (it_rec it) <=? durable)
                             || negb (bool_decide (is_Some (active_txn st')))
                          then place it else tail_of st;
  sb_txn : if relevant durable (it_rec it)
           then exists p, typed_payload (it_rec it) = Ok p
             /\ active_txn st' = next_txn (active_txn st) p
             /\ counted st' + closes_abort (active_txn st) p = counted st + 1
             /\ st_skipped st' = st_skipped st /\ applies [(it_rec it, p)] st st'
           else active_txn st' = active_txn st /\ counted st' = counted st + 1
             /\ st_skipped st' = st_skipped st + 1 /\ applies [] st st';
}.

(** The same for the branches of a relevant record. *)
Record branch_books (it : Item) (p : WalPayload) (st st' : RecState (S := S)) : Prop := {
  bb_idle : idle_empty st';
  bb_tail : tail_of st' = if bool_decide (is_Some (active_txn st')) then tail_of st else place it;
  bb_txn : active_txn st' = next_txn (active_txn st) p;
  bb_counted : counted st' + closes_abort (active_txn st) p = counted st + 1;
  bb_skipped : st_skipped st' = st_skipped st;
  bb_applies : applies [(it_rec it, p)] st st';
}.

Lemma step_in_txn_books it st id p st' :
  active_txn st = Some id ->
  step_in_txn sys (reader_at it) st id (it_rec it) p = Some (st', Ok tt) ->
  branch_books it p st st'.
Proof.
  intros Et E.
  assert (forall st1, st1 = set_txn (active_txn st) (active_txn_expected st)
      (txn_buffer st ++ [(it_rec it, p)]) 0 st ->
    next_txn (Some id) p = Some id -> closes_abort (Some id) p = 0 ->
    (forall log, effects (Some (id, txn_buffer st)) ((it_rec it, p) :: log)
      = effects (Some (id, txn_buffer st ++ [(it_rec it, p)])) log) ->
    branch_books it p st st1) as Hmember.
  { intros st1 -> Hn Ha He. split; unfold idle_empty, tail_of, counted; cbn; rewrite ?Et; try done.
    - rewrite Ha, length_app. cbn. lia.
    - apply applies_nil; try done. unfold txn_view; cbn. by rewrite Et. }
  unfold step_in_txn in E. cbn zeta in E.
  destruct p; cbn [next_txn closes_abort] in *;
    try (destruct (active_txn_expected st <? _); [discriminate E|]; by simplify_eq; apply Hmember).
  - (* begin *) simplify_eq. split; unfold idle_empty, tail_of, counted; cbn; rewrite ?Et; try done; [lia|].
    apply applies_nil; try done. unfold txn_view; cbn. by rewrite Et.
  - (* commit *) case_bool_decide as Hid.
    2: { destruct (active_txn_expected st <? _); [discriminate E|]. simplify_eq; apply Hmember; try done.
         intros log. cbn. by rewrite bool_decide_eq_false_2. }
    destruct (apply_all _ _ _ _) as [[[ar sk] [[]|e]]|] eqn:Ea; cbn in E; simplify_eq.
    split; unfold idle_empty, tail_of, counted; cbn; rewrite ?Et; cbn; try done.
    + by rewrite bool_decide_eq_true_2.
    + rewrite length_app. cbn. lia.
    + exists (txn_buffer st ++ [(it_rec it, TxnCommit p)]). split_and!; [|exact Ea|done].
      intros log. unfold txn_view; rewrite Et; cbn. by rewrite bool_decide_eq_true_2.
  - (* abort *) case_bool_decide as Hid.
    2: { destruct (active_txn_expected st <? _); [discriminate E|]. simplify_eq; apply Hmember; try done.
         intros log. cbn. by rewrite bool_decide_eq_false_2. }
    simplify_eq. split; unfold idle_empty, tail_of, counted; cbn; rewrite ?Et; cbn; try done.
    + by rewrite bool_decide_eq_true_2.
    + rewrite bool_decide_eq_true_2 by done. lia.
    + apply applies_nil; try (cbn; lia || done). intros log. unfold txn_view; rewrite Et; cbn.
      by rewrite bool_decide_eq_true_2.
Qed.

Lemma step_idle_books it st p st' :
  active_txn st = None -> txn_buffer st = [] ->
  step_idle sys (reader_at it) st (it_rec it) p = Some (st', Ok tt) -> branch_books it p st st'.
Proof.
  intros Et Eb E. unfold step_idle in E.
  assert (forall ar sk, next_txn None p = None -> closes_abort None p = 0 ->
    (forall log, effects None ((it_rec it, p) :: log) = (it_rec it, p) :: effects None log) ->
    apply sys (st_arena st) (st_sink st) (it_rec it) p = Some (ar, sk, Ok tt) ->
    branch_books it p st (advance_tail (reader_at it) (wr_lsn (it_rec it)) (set_applied ar sk 1 st)))
    as Happly.
  { intros ar sk Hn Ha He Eap. split; unfold idle_empty, tail_of, counted; cbn; rewrite ?Et; try done.
    - rewrite Ha. lia.
    - exists [(it_rec it, p)]. split_and!; [|cbn; by rewrite Eap|done].
      intros log. unfold txn_view; cbn [app set_applied advance_tail active_txn]. rewrite Et.
      apply He. }
  destruct p; cbn [next_txn closes_abort] in *;
    try (destruct (apply _ _ _ _ _) as [[[ar sk] [[]|e]]|] eqn:Eap; cbn in E; simplify_eq;
         by apply Happly).
  simplify_eq. split; unfold idle_empty, tail_of, counted; cbn; rewrite ?Et; try done.
  - rewrite length_app. cbn. lia.
  - apply applies_nil; try done. unfold txn_view; cbn. by rewrite Et, Eb.
Qed.

Lemma recover_step_books durable it st st' :
  idle_empty st -> recover_step sys durable (reader_at it) st (it_rec it) = Some (st', Ok tt) ->
  step_books durable it st st'.
Proof.
  intros Hie E. unfold recover_step in E.
  destruct (Z.leb_spec (wr_lsn (it_rec it)) durable) as [Hd|Hd].
  { simplify_eq. split; [done|by rewrite (proj2 (Z.leb_le _ _))|].
    unfold relevant. rewrite (proj2 (Z.ltb_ge _ _)) by done. cbn.
    unfold counted; cbn. split_and!; [done|lia|lia|by apply applies_nil]. }
  assert ((wr_lsn (it_rec it) <=? durable) = false) as Hd' by (by apply Z.leb_gt).
  assert ((durable <? wr_lsn (it_rec it)) = true) as Hd'' by (by apply Z.ltb_lt).
  destruct (Z.land (wr_flags (it_rec it)) FLAG_SUBSCRIBE_EVENT =? 0) eqn:Hfl; cbn [negb] in E.
  2: { simplify_eq. change (active_txn (count_skipped st)) with (active_txn st).
       unfold idle_empty in Hie. split; unfold relevant; rewrite ?Hd', ?Hd'', ?Hfl; cbn [andb orb];
         destruct (active_txn st) eqn:Et; unfold idle_empty, tail_of, counted; cbn; rewrite ?Et;
         cbn; auto; (split_and!; [done|lia|lia|]); apply applies_nil; try done; intros log;
         unfold txn_view; cbn; by rewrite Et. }
  destruct (typed_payload (it_rec it)) as [p|e] eqn:Ep; [|done].
  assert (relevant durable (it_rec it) = true) as Hrel by (unfold relevant; by rewrite Hd'', Hfl).
  assert (branch_books it p st st') as [B1 B2 B3 B4 B5 B6].
  { destruct (active_txn st) as [id|] eqn:Et; [by eapply step_in_txn_books|].
    apply step_idle_books; auto. }
  split; rewrite ?Hd', ?Hrel; cbn [orb]; [done| |by exists p].
  rewrite B2. by destruct (bool_decide _).
Qed.

(** ** The whole replay *)

Fixpoint aborts (txn : option bytes) (log : list Entry) : Z :=
  match log with
  | [] => 0
  | e :: log => closes_abort txn e.2 + aborts (next_txn txn e.2) log
  end.

(** A replay that succeeds decoded every relevant record, and its books add up. *)
Lemma replay_books durable its st st' :
  idle_empty st -> replay sys durable st its = Some (st', Ok tt) ->
  exists log, decoded durable its log /\ idle_empty st'
    /\ active_txn st' = open_txn (active_txn st) log
    /\ applies log st st'
    /\ counted st' + aborts (active_txn st) log = counted st + Z.of_nat (length its)
    /\ st_skipped st' + Z.of_nat (length log) = st_skipped st + Z.of_nat (length its).
Proof.
  revert st. induction its as [|it its IH]; intros st Hie E.
  { cbn in E. simplify_eq. exists []. split_and!; try done; cbn; try lia; [by constructor|].
    by apply applies_nil. }
  cbn [replay] in E.
  destruct (recover_step _ _ _ st _) as [[st1 [[]|e]]|] eqn:Es; cbn [mbind option_bind] in E; try done.
  destruct (recover_step_books durable it st st1 Hie Es) as [B1 _ B3].
  destruct (IH st1 B1 E) as (log & Hd & Hie' & Ht & Hap & Hc & Hs). unfold decoded in *.
  rewrite filter_cons. cbn [length]. destruct (relevant durable (it_rec it)) eqn:Hrel.
  - destruct B3 as (p & Ep & Ea & Ec & Ek & Eap). exists ((it_rec it, p) :: log).
    rewrite decide_True by done. split; [by constructor|]. split; [done|].
    unfold open_txn. cbn [foldl aborts snd length]. rewrite <- Ea.
    split_and!; [done|exact (applies_trans [_] log _ _ _ Eap Hap)|lia|lia].
  - destruct B3 as (Ea & Ec & Ek & Eap). exists log. rewrite decide_False by done.
    rewrite <- Ea.
    split_and!; [done..|exact (applies_trans [] log _ _ _ Eap Hap)|lia|lia].
Qed.

Lemma replay_app durable st a b :
  replay sys durable st (a ++ b) =
    '(st', r) ← replay sys durable st a;
    match r with Err e => Some (st', Err e) | Ok _ => replay sys durable st' b end.
Proof.
  revert st. induction a as [|it a IH]; intros st; [done|]. cbn [app replay].
  destruct (recover_step _ _ _ _ _) as [[st1 [u|e]]|]; cbn [mbind option_bind]; auto.
Qed.
End bookkeeping.

(** ** Recovery as a replay of the directory *)

(** A directory that holds the segments [segs] with their records, then [tail],
    behind which nothing acknowledged can be found. *)
Record healthy `{Crc32c} (dir : Dir) (uuid : bytes) (r : WalReader)
    (segs : list (SegmentInfo * list WalRecord)) (tail : bytes) : Prop := {
  h_open : open dir uuid = Ok r;
  h_segs : map fst segs = segments r;
  h_shape : log_shape dir segs (expected_next_lsn r) tail;
  h_tail : tail_verdict segs (expected_next_lsn r) tail = None;
}.

Section directory.
Context `{CRC : Crc32c} {S : Type} `{Snk : MetadataSink S}.
Context (sys : Z -> ArenaFile.Syscalls).
Implicit Types st : RecState (S := S).

Lemma recover_loop_mono fuel fuel' dir durable r st x :
  (fuel <= fuel')%nat -> recover_loop fuel sys dir durable r st = Some x ->
  recover_loop fuel' sys dir durable r st = Some x.
Proof.
  revert fuel' r st. induction fuel as [|fuel IH]; intros [|fuel'] r st Hf E; try done; [lia|].
  cbn [recover_loop] in *. destruct (next dir r) as [[r1 [[rec|e]|]]|]; cbn [mbind option_bind] in *;
    try done.
  destruct (recover_step _ _ _ _ _) as [[st1 [u|e]]|]; cbn [mbind option_bind] in *; try done.
  apply IH; [lia|done].
Qed.

(** What the reader delivers decides the loop. *)
Lemma recover_loop_open dir uuid r durable st its e fuel :
  open dir uuid = Ok r -> read_segments dir (segments r) (expected_next_lsn r) = (its, e) ->
  (length its < fuel)%nat ->
  recover_loop fuel sys dir durable r st =
    '(st', res) ← replay sys durable st its;
    Some (st', match res with
               | Ok _ => match e with None => Ok tt | Some e => Err (WalRead e) end
               | Err e => Err e
               end).
Proof.
  intros Eo Er Hf. destruct (open_ready dir uuid r Eo) as (Hp & _ & Hr & Hfin).
  destruct (decide (segments r = [])) as [Hs|Hs].
  - rewrite Hs in Er. cbn in Er. simplify_eq. destruct fuel as [|fuel]; [cbn in Hf; lia|].
    cbn [recover_loop]. unfold next. rewrite (Hfin Hs). done.
  - apply recover_loop_replay; [by apply Hr|congruence|done].
Qed.

Lemma recover_healthy `{!Crc32cLaws CRC} dir uuid r segs tail a sink fuel :
  healthy dir uuid r segs tail -> (length (log_records segs) < fuel)%nat ->
  recover fuel sys a dir uuid sink =
    '(st, res) ← replay sys (durable_lsn sink) (initial_state a sink) (log_items segs);
    match res with
    | Err e => Some (st_arena st, st_sink st, Err e)
    | Ok _ =>
      allocator ← Allocator.rebuild_from_arena (st_arena st);
      Some (st_arena st, st_sink st, Ok (report_of st (active_segment_seq r), allocator))
    end.
Proof.
  intros [Ho Hs Hsh Hv] Hf. unfold recover. rewrite Ho.
  pose proof (read_segments_shape dir segs _ tail Hsh) as Er. rewrite Hs, Hv in Er.
  rewrite <- log_items_rec, length_map in Hf.
  rewrite (recover_loop_open dir uuid r _ _ _ _ fuel Ho Er Hf).
  by destruct (replay _ _ _ _) as [[st [u|e]]|].
Qed.

Lemma recover_ok_inv dir uuid a sink fuel a' sink' report al :
  recover fuel sys a dir uuid sink = Some (a', sink', Ok (report, al)) ->
  exists r segs tail st, healthy dir uuid r segs tail
    /\ replay sys (durable_lsn sink) (initial_state a sink) (log_items segs) = Some (st, Ok tt)
    /\ st_arena st = a' /\ st_sink st = sink' /\ report = report_of st (active_segment_seq r)
    /\ Allocator.rebuild_from_arena a' = Some al.
Proof.
  unfold recover. intros E. destruct (open dir uuid) as [r|] eqn:Eo; [|done].
  destruct (read_segments dir (segments r) (expected_next_lsn r)) as [its e] eqn:Er.
  destruct (recover_loop fuel _ _ _ _ _) as [[st res]|] eqn:El; cbn [mbind option_bind] in E; [|done].
  apply (recover_loop_mono fuel (fuel + Datatypes.S (length its))) in El; [|lia].
  rewrite (recover_loop_open dir uuid r _ _ _ _ _ Eo Er) in El by lia.
  destruct (replay _ _ _ _) as [[st1 [[]|e1]]|] eqn:Erp; cbn [mbind option_bind] in El; simplify_eq; try done.
  destruct e; [done|]. destruct (Allocator.rebuild_from_arena _) as [al1|] eqn:Ea; [|done].
  cbn in E. simplify_eq.
  destruct (read_segments_clean _ _ _ _ Er) as (segs & tail & Em & Hsh & -> & Hv).
  exists r, segs, tail, st. by split_and!.
Qed.
End directory.

(** ** Contract *)

(** A sink that accepts every record. *)
Class SinkAccepts (S : Type) `{MetadataSink S} : Prop :=
  sink_accepts : forall (s : S) lsn ts p, snd (sink_apply s lsn ts p) = Ok tt.

#[export] Existing Instance InMemory.sink.

#[export] Instance InMemory_accepts : SinkAccepts InMemoryMetadataSink.
Proof. done. Qed.

Definition sink_after {S} `{MetadataSink S} (s : S) (l : list Entry) : S :=
  foldl (fun s e => fst (sink_apply s (wr_lsn e.1) (wr_timestamp_ns e.1) e.2)) s l.

Definition is_aborted (u : Unit_) : bool :=
  match u with Transaction _ _ _ false => true | _ => false end.

Section contract.
Context `{CRC : Crc32c} `{!Crc32cLaws CRC} {S : Type} `{Snk : MetadataSink S}.

Lemma apply_all_accepting `{!SinkAccepts S} sys a (s : S) l a' :
  arena_replay sys a l = Some (a', Ok tt) ->
  apply_all sys a s l = Some (a', sink_after s l, Ok tt).
Proof.
  revert a s. induction l as [|[rec p] l IH]; intros a s; cbn [arena_replay apply_all]; [by intros [= <-]|].
  unfold apply. cbn [fst snd].
  destruct (apply_to_arena sys a rec p) as [[a1 [u|e]]|]; cbn [mbind option_bind]; try done.
  intros E. pose proof (sink_accepts s (wr_lsn rec) (wr_timestamp_ns rec) p) as Ha.
  unfold sink_after. cbn [foldl fst snd].
  destruct (sink_apply s _ _ p) as [s1 r]. cbn in Ha. subst r. cbn [map_err mbind option_bind fst].
  by apply IH.
Qed.

Lemma effects_Forall (P : Entry -> Prop) txn log :
  Forall P log -> match txn with Some (_, buf) => Forall P buf | None => True end ->
  Forall P (effects txn log).
Proof.
  intros H. revert txn. induction H as [|[r p] log Hp _ IH]; intros txn Ht; [by destruct txn as [[]|]|].
  cbn [effects]. destruct txn as [[id buf]|].
  - assert (Forall P (buf ++ [(r, p)])) by (apply Forall_app; auto).
    destruct p; try (case_bool_decide); try apply Forall_app_2; try apply IH; auto.
  - destruct p; try constructor; try apply IH; auto.
Qed.

(** The records of a healthy log, decoded, are well formed. *)
Lemma log_shape_wf dir segs lsn tail :
  log_shape dir segs lsn tail -> Forall WalRecord_wf (log_records segs).
Proof.
  revert lsn. induction segs as [|[info rs] more IH]; intros lsn; [by constructor|].
  cbn [log_shape]. intros (_ & Hw & _ & Hm). unfold log_records. rewrite bind_cons. cbn [snd].
  apply Forall_app_2; [done|]. destruct more; [by constructor|]. by eapply IH, Hm.
Qed.

Lemma initial_idle a (sink : S) : idle_empty (initial_state a sink).
Proof. done. Qed.

Lemma decoded_unique durable its log log' :
  decoded durable its log -> decoded durable its log' -> log = log'.
Proof.
  unfold decoded. intros Hd. revert log'.
  induction Hd as [|it [r1 p1] its' log [E1 E2] _ IH]; intros l Hl.
  - by apply Forall2_nil_inv_l in Hl as ->.
  - apply Forall2_cons_inv_l in Hl as ([r2 p2] & l' & [E3 E4] & Hl & ->).
    cbn in *. rewrite (IH _ Hl). repeat f_equal; congruence.
Qed.

Lemma decoded_wf durable its log :
  Forall WalRecord_wf (map it_rec its) -> decoded durable its log ->
  Forall (fun e => WalRecord_wf e.1 /\ payload_wf e.2) log.
Proof.
  unfold decoded. intros Hw Hd. rewrite Forall_map in Hw.
  assert (Forall (fun it => WalRecord_wf (it_rec it))
    (filter (fun it => relevant durable (it_rec it) = true) its)) as Hf.
  { apply Forall_forall. intros it [_ Hin]%list_elem_of_filter.
    rewrite Forall_forall in Hw. by apply Hw. }
  clear Hw. induction Hd as [|it [rec p] its' log [E1 E2] _ IH]; [by constructor|].
  apply Forall_cons in Hf as [H1 Hf]. constructor; [|by apply IH]. cbn in *. subst rec.
  split; [done|]. by apply payload_decode_sound_aux in E2 as [? _].
Qed.

(** Recovery of a prefix of a log of units. *)
Lemma recover_units `{!SinkAccepts S} sys a (sink : S) dir uuid r segs tail us k fuel :
  sys_ok sys -> arena_ok a -> healthy dir uuid r segs tail ->
  Forall unit_ok us -> decoded (durable_lsn sink) (log_items segs) (take k (us ≫= flatten)) ->
  let eff := complete k us ≫= unit_effects in
  Forall (fun e => arena_fit e.2) eff -> (length (log_records segs) < fuel)%nat ->
  exists a' report al,
    recover fuel sys a dir uuid sink = Some (a', sink_after sink eff, Ok (report, al))
    /\ arena_replay sys a eff = Some (a', Ok tt) /\ arena_ok a'
    /\ Allocator.alloc_wf al a' /\ records_replayed report = Z.of_nat (length eff).
Proof using Crc32cLaws0.
  intros Hsys Ha Hh Hu Hd eff Hfit Hf. destruct (effects_prefix k us Hu) as [Ee Hb].
  assert (Forall entry_ok eff) as Heff.
  { pose proof (decoded_wf _ _ _ ltac:(rewrite log_items_rec; by eapply log_shape_wf, Hh) Hd) as Hw.
    apply (effects_Forall _ None) in Hw; [|done]. rewrite Ee in Hw. fold eff in Hw.
    eapply Forall_impl; [apply Forall_and; exact (conj Hw Hfit)|]. by intros e [[? ?] ?]. }
  destruct (arena_batch sys Hsys a eff Ha Heff) as (a' & Er & Ha' & _).
  pose proof (replay_effects sys (durable_lsn sink) (log_items segs) _ (initial_state a sink) Hd
    (initial_idle a sink) Hb) as Ho.
  cbn [txn_view initial_state active_txn st_arena st_sink] in Ho. rewrite Ee in Ho. fold eff in Ho.
  rewrite (apply_all_accepting _ _ _ _ _ Er) in Ho. rewrite (recover_healthy _ _ _ _ _ _ _ _ _ Hh Hf).
  destruct (replay _ _ _ _) as [[st [[]|e]]|] eqn:Erp; cbn in Ho; simplify_eq.
  cbn [mbind option_bind]. destruct (Allocator.rebuild_spec (st_arena st)) as (al & -> & Hal & _);
    [apply Ha'|].
  exists (st_arena st), (report_of st (active_segment_seq r)), al. cbn [mbind option_bind].
  split_and!; try done; [congruence|]. cbn [report_of records_replayed].
  destruct (replay_books sys _ _ _ _ (initial_idle a sink) Erp) as (log & Hd' & _ & _ & (app & Happ & _ & Ec) & _).
  specialize (Happ []). rewrite app_nil_r in Happ.
  rewrite (decoded_unique _ _ _ _ Hd' Hd) in Happ.
  cbn [txn_view initial_state active_txn] in Happ. rewrite Ee in Happ. fold eff in Happ.
  assert (effects (txn_view st) [] = []) as En by (destruct (txn_view st) as [[]|]; done).
  rewrite En, app_nil_r in Happ. rewrite Ec, Happ. done.
Qed.

(** C1: atomic recovery: whichever prefix of the records of a log of whole
    transactions and single records survives a crash, recovery succeeds and
    leaves the arena and the sink as if exactly the complete units among
    them - committed transactions whole, aborted and unfinished ones not at
    all - had been applied in order, with an allocator that agrees with the
    arena. *)
Theorem recover_committed_prefix `{!SinkAccepts S} sys a (sink : S) dir uuid r segs tail us k fuel :
  sys_ok sys -> arena_ok a -> healthy dir uuid r segs tail ->
  Forall unit_ok us -> decoded (durable_lsn sink) (log_items segs) (take k (us ≫= flatten)) ->
  let eff := complete k us ≫= unit_effects in
  Forall (fun e => arena_fit e.2) eff -> (length (log_records segs) < fuel)%nat ->
  exists a' report al,
    recover fuel sys a dir uuid sink = Some (a', sink_after sink eff, Ok (report, al))
    /\ arena_replay sys a eff = Some (a', Ok tt) /\ arena_ok a'
    /\ Allocator.alloc_wf al a' /\ records_replayed report = Z.of_nat (length eff).
Proof using Crc32cLaws0. apply recover_units. Qed.

(** Recovery does not succeed by overlooking something: if it returns a
    report, the directory was a healthy log, every record that is newer than
    the sink's durable LSN and not a change-feed event was decoded, exactly
    the effects of those records were applied, the allocator was rebuilt from
    the resulting arena, and the report accounts for every record (only the
    closing abort records are in none of its three counts). *)
Theorem recover_sound sys a (sink : S) dir uuid fuel a' sink' report al :
  recover fuel sys a dir uuid sink = Some (a', sink', Ok (report, al)) ->
  exists r segs tail log, healthy dir uuid r segs tail
    /\ decoded (durable_lsn sink) (log_items segs) log
    /\ apply_all sys a sink (effects None log) = Some (a', sink', Ok tt)
    /\ Allocator.rebuild_from_arena a' = Some al
    /\ records_replayed report = Z.of_nat (length (effects None log))
    /\ records_skipped report + Z.of_nat (length log) = Z.of_nat (length (log_records segs))
    /\ records_replayed report + records_skipped report + records_discarded report + aborts None log
       = Z.of_nat (length (log_records segs)).
Proof.
  intros E. destruct (recover_ok_inv _ _ _ _ _ _ _ _ _ _ E)
    as (r & segs & tail & st & Hh & Er & <- & <- & -> & Ea).
  destruct (replay_books sys _ _ _ _ (initial_idle a sink) Er)
    as (log & Hd & Hie & _ & (app & Happ & Hall & Hrep) & Hc & Hs).
  exists r, segs, tail, log. rewrite <- (log_items_rec segs), length_map.
  specialize (Happ []). rewrite app_nil_r in Happ.
  assert (effects (txn_view st) [] = []) as En by (destruct (txn_view st) as [[]|]; done).
  rewrite En, app_nil_r in Happ. change (txn_view (initial_state a sink)) with (@None (bytes * list Entry)) in Happ.
  rewrite Happ. unfold counted in Hc. cbn in Hc, Hs, Hrep. cbn [report_of records_replayed records_skipped
    records_discarded]. unfold idle_empty in Hie.
  split_and!; try done; try lia.
  destruct (active_txn st); [lia|]. rewrite (Hie eq_refl) in Hc. cbn in Hc. lia.
Qed.

(** ** Where the log resumes *)

(** Records of an open transaction do not move the tail. *)
Lemma replay_inside sys durable its log id (st st' : RecState (S := S)) :
  active_txn st = Some id -> idle_empty st -> Forall (fun it => durable < wr_lsn (it_rec it)) its ->
  decoded durable its log -> Forall (fun e => inside id e.2) log ->
  replay sys durable st its = Some (st', Ok tt) ->
  tail_of st' = tail_of st /\ active_txn st' = Some id.
Proof.
  revert log st. induction its as [|it its IH]; intros log st Ha Hie Hl Hd Hi E.
  { cbn in E. by simplify_eq. }
  cbn [replay] in E. apply Forall_cons in Hl as [Hlt Hl].
  destruct (recover_step _ _ _ st _) as [[st1 [[]|e]]|] eqn:Es; cbn [mbind option_bind] in E; try done.
  destruct (recover_step_books sys durable it st st1 Hie Es) as [B1 B2 B3].
  rewrite (proj2 (Z.leb_gt _ _)) in B2 by done. cbn [orb] in B2.
  assert (active_txn st1 = Some id /\ exists log', decoded durable its log'
    /\ Forall (fun e => inside id e.2) log') as (Ha1 & log' & Hd' & Hi').
  { unfold decoded in *. rewrite filter_cons in Hd. destruct (relevant durable (it_rec it)).
    - rewrite decide_True in Hd by done. apply Forall2_cons_inv_l in Hd as ([rec p] & log' & [_ Ep] & Hd & ->).
      apply Forall_cons in Hi as [Hin Hi]. destruct B3 as (p' & Ep' & Ea & _).
      split; [|by exists log']. rewrite Ea, Ha. cbn [snd] in *. assert (p' = p) as -> by congruence.
      apply (open_members id [(rec, p)]). by constructor.
    - rewrite decide_False in Hd by done. split; [|by exists log]. destruct B3 as [-> _]. done. }
  destruct (IH log' st1 Ha1 B1 Hl Hd' Hi' E) as [-> Ha']. split; [|done].
  rewrite B2, Ha1. by rewrite bool_decide_eq_true_2.
Qed.

(** After a log that ends idle the tail is behind its last record. *)
Lemma replay_tail sys durable its log (st st' : RecState (S := S)) :
  idle_empty st -> decoded durable its log -> open_txn (active_txn st) log = None ->
  replay sys durable st its = Some (st', Ok tt) ->
  active_txn st' = None /\ idle_empty st'
  /\ tail_of st' = match last its with Some it => place it | None => tail_of st end.
Proof.
  intros Hie Hd Ho E. destruct (replay_books sys _ _ _ _ Hie E) as (log' & Hd' & Hie' & Ha & _).
  rewrite (decoded_unique _ _ _ _ Hd' Hd), Ho in Ha. split; [done|]. split; [done|].
  destruct its as [|it its _] using rev_ind; [cbn in E; by simplify_eq|].
  rewrite last_snoc. rewrite replay_app in E.
  destruct (replay sys durable st its) as [[st1 [[]|e]]|] eqn:E1; cbn [mbind option_bind replay] in E; try done.
  destruct (replay_books sys _ _ _ _ Hie E1) as (_ & _ & Hie1 & _).
  destruct (recover_step _ _ _ st1 _) as [[st2 [[]|e]]|] eqn:Es; cbn [mbind option_bind] in E; simplify_eq.
  destruct (recover_step_books sys durable it st1 st' Hie1 Es) as [_ B2 _].
  rewrite B2, Ha. cbn. by rewrite orb_true_r.
Qed.

(** A log of units, up to a transaction that never ended. *)
Definition dangling_txn (durable : Z) (its : list Item) (log : list Entry) : Prop :=
  match its with
  | [] => log = []
  | it :: _ => relevant durable (it_rec it) = true
      /\ exists b ms id, log = b :: ms /\ opened b ms id
  end.

(** The position the report gives. *)
Lemma report_resumes sys a (sink : S) dir uuid fuel a' sink' report al r segs tail
    good dangling us log :
  recover fuel sys a dir uuid sink = Some (a', sink', Ok (report, al)) ->
  open dir uuid = Ok r -> map fst segs = segments r ->
  log_shape dir segs (expected_next_lsn r) tail -> log_items segs = good ++ dangling ->
  Forall unit_ok us -> decoded (durable_lsn sink) good (us ≫= flatten) ->
  decoded (durable_lsn sink) dangling log -> dangling_txn (durable_lsn sink) dangling log ->
  Forall (fun it => durable_lsn sink < wr_lsn (it_rec it)) dangling ->
  report_active_segment_seq report = active_segment_seq r
  /\ match last good with
     | Some it => next_lsn report = wrap 64 (wr_lsn (it_rec it) + 1)
         /\ active_tail_offset report =
              if bool_decide (active_segment_seq r = Some (it_seq it)) then Z.of_nat (it_end it)
              else Z.of_nat WAL_SEGMENT_HEADER_LEN
     | None => next_lsn report = wrap 64 (durable_lsn sink + 1)
         /\ active_tail_offset report = Z.of_nat WAL_SEGMENT_HEADER_LEN
     end.
Proof using Crc32cLaws0.
  intros E Eo Em Hsh Hits Hu Hg Hd Hdg Hlt.
  destruct (recover_ok_inv _ _ _ _ _ _ _ _ _ _ E)
    as (r1 & segs1 & tail1 & st & [Ho1 Hs1 Hsh1 Hv1] & Er & _ & _ & -> & _).
  assert (r1 = r) as -> by congruence.
  pose proof (read_segments_shape _ _ _ _ Hsh1) as R1. pose proof (read_segments_shape _ _ _ _ Hsh) as R2.
  assert (log_items segs1 = good ++ dangling) as Ei by congruence. rewrite Ei in Er.
  rewrite replay_app in Er.
  destruct (replay _ _ _ good) as [[st1 [[]|e]]|] eqn:E1; cbn [mbind option_bind] in Er; try done.
  destruct (replay_tail sys _ good _ _ _ (initial_idle a sink) Hg (open_units us Hu) E1)
    as (Ha1 & Hie1 & Ht1).
  assert (tail_of st = tail_of st1) as Ht.
  { destruct dangling as [|it dl]; [cbn in Er; by simplify_eq|].
    destruct Hdg as (Hrel & b & ms & id & -> & Hop). destruct Hop as (p & Ep & Eid & Hin & _).
    cbn [replay] in Er. apply Forall_cons in Hlt as [Hl Hlt].
    destruct (recover_step _ _ _ st1 _) as [[st2 [[]|e]]|] eqn:Es; cbn [mbind option_bind] in Er; try done.
    destruct (recover_step_books sys _ it st1 st2 Hie1 Es) as [B1 B2 B3].
    rewrite (proj2 (Z.leb_gt _ _)) in B2 by done. cbn [orb] in B2.
    unfold decoded in Hd. rewrite filter_cons, decide_True in Hd by done.
    apply Forall2_cons_inv_l in Hd as (b' & ms' & [_ Ep'] & Hd & Eq). simplify_eq.
    rewrite Hrel in B3. destruct B3 as (p' & Ep2 & Ea & _).
    assert (p' = TxnBegin p) as -> by congruence.
    assert (active_txn st2 = Some (tb_txn_id p)) as Ha2 by (rewrite Ea; done).
    destruct (replay_inside sys _ dl _ _ _ _ Ha2 B1 Hlt Hd Hin Er) as [-> _].
    rewrite B2, Ha2. by rewrite bool_decide_eq_true_2. }
  split; [done|]. rewrite Ht1 in Ht. cbn [report_of next_lsn active_tail_offset].
  destruct (last good) as [it|]; unfold tail_of, place in Ht; injection Ht as -> -> ->; cbn.
  - split; [done|]. destruct (active_segment_seq r) as [q|]; [|done].
    destruct (Z.eqb_spec (it_seq it) q) as [->|Hne]; [by rewrite bool_decide_eq_true_2|].
    rewrite bool_decide_eq_false_2; [done|congruence].
  - done.
Qed.

(** Where the log resumes: if the records on disk are complete units
    followed by an unfinished transaction (or nothing), the report's next LSN
    is the one after the last record of the complete part (after the durable
    LSN when that part is empty), and its tail offset is the end of that
    record when it lies in the active segment, and the end of the segment
    header otherwise: every record of the unfinished transaction is behind it. *)
Theorem recover_report sys a (sink : S) dir uuid fuel a' sink' report al r segs tail
    good dangling us log :
  recover fuel sys a dir uuid sink = Some (a', sink', Ok (report, al)) ->
  open dir uuid = Ok r -> map fst segs = segments r ->
  log_shape dir segs (expected_next_lsn r) tail -> log_items segs = good ++ dangling ->
  Forall unit_ok us -> decoded (durable_lsn sink) good (us ≫= flatten) ->
  decoded (durable_lsn sink) dangling log -> dangling_txn (durable_lsn sink) dangling log ->
  Forall (fun it => durable_lsn sink < wr_lsn (it_rec it)) dangling ->
  report_active_segment_seq report = active_segment_seq r
  /\ match last good with
     | Some it => next_lsn report = wrap 64 (wr_lsn (it_rec it) + 1)
         /\ active_tail_offset report =
              if bool_decide (active_segment_seq r = Some (it_seq it)) then Z.of_nat (it_end it)
              else Z.of_nat WAL_SEGMENT_HEADER_LEN
     | None => next_lsn report = wrap 64 (durable_lsn sink + 1)
         /\ active_tail_offset report = Z.of_nat WAL_SEGMENT_HEADER_LEN
     end.
Proof using Crc32cLaws0. apply report_resumes. Qed.
End contract.

(** ** A log with a committed transaction, a single record and an unfinished transaction *)

Module RecoveryExample.
Import Castagnoli Allocator.AllocExample ReplayExample.

Definition demo_sys : Z -> ArenaFile.Syscalls := fun _ => ArenaFile.ArenaExample.sys.
Definition mk (lsn : Z) (p : WalPayload) : Entry :=
  (default (rec_at lsn KForget) (from_typed lsn 0 1700 42 p), p).
Definition txn_id (b : Byte.byte) : bytes := replicate 16 b.
Definition begin_ (b : Byte.byte) : WalPayload :=
  TxnBegin {| tb_txn_id := txn_id b; tb_expected_record_count := 1 |}.
Definition commit_ (b : Byte.byte) : WalPayload := TxnCommit {| tc_txn_id := txn_id b |}.

Definition us : list Unit_ :=
  [Transaction (mk 1 (begin_ Byte.x0a)) [mk 2 (Reclaim reclaim)] (mk 3 (commit_ Byte.x0a)) true;
   Single (mk 4 (Forget forget));
   Transaction (mk 5 (begin_ Byte.x0b)) [mk 6 (Reclaim reclaim)] (mk 7 (commit_ Byte.x0b)) true].
Definition log : list Entry := take 6 (us ≫= flatten).
Definition recs : list WalRecord := Eval vm_compute in map fst log.

Definition dir : Dir := [ReaderExample.seg_file 0 1 (frames recs)].
Definition info : SegmentInfo :=
  {| si_path := segment_path 0; si_segment_seq := 0; si_starting_lsn := 1;
     si_file_size := Z.of_nat (WAL_SEGMENT_HEADER_LEN + length (frames recs)) |}.
Definition reader : WalReader :=
  {| segments := [info]; current_idx := 0; current := None; expected_next_lsn := 1;
     last_decoded_lsn := None; last_record_end_offset := None;
     last_record_segment_seq := None; finished := false |}.
Definition segs : list (SegmentInfo * list WalRecord) := [(info, recs)].

Lemma recovery_dir_open : open dir ReaderExample.uuid = Ok reader.
Proof. vm_compute. reflexivity. Qed.

Lemma recovery_dir_shape : log_shape dir segs 1 [].
Proof.
  cbn [log_shape segs]. split; [done|]. split.
  { unfold recs. repeat apply Forall_cons_2; try apply Forall_nil_2;
      split; vm_compute; intuition congruence. }
  split; [vm_compute; intuition congruence|]. split; [vm_compute; reflexivity|].
  intros r n E. vm_compute in E. discriminate.
Qed.

Lemma dir_healthy : healthy dir ReaderExample.uuid reader segs [].
Proof. split; [exact recovery_dir_open|done|exact recovery_dir_shape|vm_compute; reflexivity]. Qed.

Lemma txn_ok l1 l2 l3 b :
  unit_ok (Transaction (mk l1 (begin_ b)) [mk l2 (Reclaim reclaim)] (mk l3 (commit_ b)) true).
Proof.
  exists (txn_id b). split; [|by eexists].
  eexists. split; [reflexivity|]. split; [reflexivity|]. split; [by repeat constructor|cbn; lia].
Qed.

Lemma us_ok : Forall unit_ok us.
Proof.
  apply Forall_cons_2; [apply txn_ok|]. apply Forall_cons_2; [done|].
  apply Forall_cons_2; [apply txn_ok|apply Forall_nil_2].
Qed.

Lemma log_decoded : decoded (durable_lsn InMemory.new) (log_items segs) (take 6 (us ≫= flatten)).
Proof. apply decode_log_spec. vm_compute. reflexivity. Qed.
Lemma good_decoded : decoded (durable_lsn InMemory.new) (take 4 (log_items segs)) (take 2 us ≫= flatten).
Proof. apply decode_log_spec. vm_compute. reflexivity. Qed.
Lemma dangling_decoded : decoded (durable_lsn InMemory.new) (drop 4 (log_items segs)) (drop 4 log).
Proof. apply decode_log_spec. vm_compute. reflexivity. Qed.

Lemma recover_committed_prefix_witness :
  exists a' report al,
    recover 7 demo_sys demo dir ReaderExample.uuid InMemory.new
      = Some (a', sink_after InMemory.new (complete 6 us ≫= unit_effects), Ok (report, al))
    /\ records_replayed report = 4.
Proof.
  destruct (recover_committed_prefix demo_sys demo InMemory.new dir
    ReaderExample.uuid reader segs [] us 6 7 sys_demo_ok demo_ok dir_healthy us_ok log_decoded)
    as (a' & report & al & E & _ & _ & _ & Er).
  - repeat apply Forall_cons_2; try apply Forall_nil_2; vm_compute; intuition congruence.
  - vm_compute. lia.
  - exists a', report, al. split; [exact E|rewrite Er; vm_compute; reflexivity].
Defined.

Lemma recovered :
  exists a' sink' report al,
    recover 7 demo_sys demo dir ReaderExample.uuid InMemory.new = Some (a', sink', Ok (report, al)).
Proof.
  assert (match recover 7 demo_sys demo dir ReaderExample.uuid InMemory.new with
          | Some (_, _, Ok _) => true | _ => false end = true) as H by (vm_compute; reflexivity).
  destruct (recover 7 demo_sys demo dir ReaderExample.uuid InMemory.new)
    as [[[a' sink'] [[report al]|e]]|]; try discriminate H. by exists a', sink', report, al.
Qed.

Lemma recover_sound_witness :
  exists a' sink' report al segs' log',
    recover 7 demo_sys demo dir ReaderExample.uuid InMemory.new = Some (a', sink', Ok (report, al))
    /\ decoded (durable_lsn InMemory.new) (log_items segs') log'
    /\ apply_all demo_sys demo InMemory.new (effects None log') = Some (a', sink', Ok tt).
Proof.
  destruct recovered as (a' & sink' & report & al & E).
  destruct (recover_sound demo_sys demo InMemory.new dir ReaderExample.uuid 7 a' _ report al E)
    as (r & segs' & tail & log' & _ & Hd & Ha & _).
  exists a', sink', report, al, segs', log'. split; [exact E|]. split; [exact Hd|exact Ha].
Defined.

Lemma recover_report_witness :
  exists a' sink' report al,
    recover 7 demo_sys demo dir ReaderExample.uuid InMemory.new = Some (a', sink', Ok (report, al))
    /\ next_lsn report = 5 /\ active_tail_offset report = 4374.
Proof.
  destruct recovered as (a' & sink' & report & al & E).
  destruct (recover_report demo_sys demo InMemory.new dir ReaderExample.uuid 7 a' _ report al
    reader segs [] (take 4 (log_items segs)) (drop 4 (log_items segs)) (take 2 us) (drop 4 log) E recovery_dir_open
    eq_refl recovery_dir_shape (eq_sym (take_drop 4 _)) (Forall_take _ 2 _ us_ok) good_decoded dangling_decoded)
    as [_ H].
  - split; [vm_compute; reflexivity|]. eexists _, _, (txn_id Byte.x0b).
    split; [reflexivity|]. eexists. split; [reflexivity|]. split; [reflexivity|].
    split; [by repeat constructor|cbn; lia].
  - repeat apply Forall_cons_2; try apply Forall_nil_2; vm_compute; reflexivity.
  - exists a', sink', report, al. split; [exact E|].
    destruct H as [H1 H2]. split; [rewrite H1; vm_compute; reflexivity|].
    rewrite H2; vm_compute; reflexivity.
Defined.
End RecoveryExample.
