(* ===== verification/GroupCommit.v ===== *)
(** Group commit ([brain-storage/src/wal/group_commit.rs]): one task owns the
    active segment, gathers submitted records into a batch, flushes the batch
    durably and acknowledges every record of it.

    The committer is a state machine.  Its channels are queues in the state
    (submissions, and the acknowledgements sent so far); the task's control
    point is [cm_phase].  [committer_event] is one stretch of the task between
    two points where it waits; which stretch runs, and what the I/O answers,
    is the event.  [append] and [close] are what the owner does meanwhile. *)

From S2P Require Import Prelude Crc32c Ids WalKinds WalRecord WalSegment.

Record GroupCommitConfig := { commit_window_ns : Z; max_batch_bytes : nat }.
Definition GroupCommitConfig_default : GroupCommitConfig :=
  {| commit_window_ns := 100000; max_batch_bytes := (60 * 1024)%nat |}.

(** [WalBroken] carries a message in the source; here, what it reports. *)
Inductive BrokenReason := FlushFailed (e : WalSegmentError) | RolloverFailed | NoCompletion.
Inductive CommitError := WalBroken (reason : BrokenReason) | ShutDown | AckChannelClosed.

Abbreviation AckId := nat (only parsing).
Definition AckMessage : Type := result Z CommitError.

Inductive Phase := Receiving | Gathering | Flushing | Finished | Panicked.

Record Committer := {
  cm_segment : WalSegment;
  cm_config : GroupCommitConfig;
  cm_queue : list (WalRecord * AckId);   (* the submission channel *)
  cm_pending : list (AckId * Z);         (* [Vec<PendingAck>] *)
  cm_broken : option BrokenReason;
  cm_closed : bool;                      (* [submission_tx] dropped, shutdown signalled *)
  cm_shutdown : bool;                    (* [shutdown_requested] *)
  cm_phase : Phase;
  cm_submitted : list WalRecord;         (* every submission; its ack is its index *)
  cm_acks : list (AckId * AckMessage);   (* acknowledgements, in the order sent *)
}.

(** What the task changes between two waits. *)
Definition set_task (seg : WalSegment) (queue : list (WalRecord * AckId)) (pending : list (AckId * Z))
    (broken : option BrokenReason) (shutdown : bool) (phase : Phase)
    (acks : list (AckId * AckMessage)) (c : Committer) : Committer :=
  {| cm_segment := seg; cm_config := cm_config c; cm_queue := queue; cm_pending := pending;
     cm_broken := broken; cm_closed := cm_closed c; cm_shutdown := shutdown; cm_phase := phase;
     cm_submitted := cm_submitted c; cm_acks := acks |}.

Definition set_phase (phase : Phase) (c : Committer) : Committer :=
  set_task (cm_segment c) (cm_queue c) (cm_pending c) (cm_broken c) (cm_shutdown c) phase (cm_acks c) c.

(** Projections of an updated state. *)
Ltac cm_simpl :=
  cbn [set_phase set_task cm_segment cm_config cm_queue cm_pending cm_broken cm_closed cm_shutdown
       cm_phase cm_submitted cm_acks].

Section committer.
Context `{Crc32c}.

(** [GroupCommitter::start]. *)
Definition start (segment : WalSegment) (config : GroupCommitConfig) : Committer :=
  {| cm_segment := segment; cm_config := config; cm_queue := []; cm_pending := [];
     cm_broken := None; cm_closed := false; cm_shutdown := false; cm_phase := Receiving;
     cm_submitted := []; cm_acks := [] |}.

(** The receiving end lives as long as the task. *)
Definition task_alive (c : Committer) : bool :=
  match cm_phase c with Finished | Panicked => false | _ => true end.

(** [GroupCommitter::append]: the handle is the index of the submission. *)
Definition append (c : Committer) (record : WalRecord) : result (Committer * AckId) CommitError :=
  if cm_closed c || negb (task_alive c) then Err ShutDown else
  let id := length (cm_submitted c) in
  Ok ({| cm_segment := cm_segment c; cm_config := cm_config c;
         cm_queue := cm_queue c ++ [(record, id)]; cm_pending := cm_pending c;
         cm_broken := cm_broken c; cm_closed := cm_closed c; cm_shutdown := cm_shutdown c;
         cm_phase := cm_phase c; cm_submitted := cm_submitted c ++ [record];
         cm_acks := cm_acks c |}, id).

(** [AppendHandle::wait]: [None] while it would still be waiting. *)
Definition wait (c : Committer) (id : AckId) : option AckMessage :=
  match list_find (fun a => fst a = id) (cm_acks c) with
  | Some (_, (_, m)) => Some m
  | None => if task_alive c then None else Some (Err AckChannelClosed)
  end.

(** The first half of [shutdown]: drop the sender, signal the task. *)
Definition close (c : Committer) : Committer :=
  {| cm_segment := cm_segment c; cm_config := cm_config c; cm_queue := cm_queue c;
     cm_pending := cm_pending c; cm_broken := cm_broken c; cm_closed := true;
     cm_shutdown := cm_shutdown c; cm_phase := cm_phase c; cm_submitted := cm_submitted c;
     cm_acks := cm_acks c |}.

(** [handle_submission] on the task's state; an encoding panic ends the task. *)
Definition handle_submission (sub : WalRecord * AckId) (c : Committer) : Committer :=
  let '(record, ack) := sub in
  match cm_broken c with
  | Some reason =>
    set_task (cm_segment c) (cm_queue c) (cm_pending c) (cm_broken c) (cm_shutdown c) (cm_phase c)
      (cm_acks c ++ [(ack, Err (WalBroken reason))]) c
  | None =>
    match append_record (cm_segment c) record with
    | Some (seg, _) =>
      set_task seg (cm_queue c) (cm_pending c ++ [(ack, wr_lsn record)]) (cm_broken c)
        (cm_shutdown c) (cm_phase c) (cm_acks c) c
    | None => set_phase Panicked c
    end
  end.

Definition set_queue (q : list (WalRecord * AckId)) (c : Committer) : Committer :=
  set_task (cm_segment c) q (cm_pending c) (cm_broken c) (cm_shutdown c) (cm_phase c) (cm_acks c) c.

(** Take the next submission off the channel and handle it; then go on at [phase]. *)
Definition take_one (phase : Phase) (c : Committer) : option Committer :=
  match cm_queue c with
  | [] => None
  | sub :: q =>
    Some (handle_submission sub (set_queue q (set_phase phase c)))
  end.

(** [while let Ok(sub) = submission_rx.try_recv()], over the queue's contents. *)
Fixpoint drain_queue (q : list (WalRecord * AckId)) (c : Committer) : Committer :=
  match q with
  | [] => c
  | sub :: q =>
    let c := handle_submission sub (set_queue q c) in
    match cm_phase c with Panicked => c | _ => drain_queue q c end
  end.

(** Step 4: flush the batch and acknowledge it. *)
Definition flush_and_ack (io : FlushIo) (c : Committer) : Committer :=
  match cm_pending c with
  | [] => c
  | pending =>
    match cm_broken c with
    | Some reason =>
      set_task (cm_segment c) (cm_queue c) [] (cm_broken c) (cm_shutdown c) (cm_phase c)
        (cm_acks c ++ map (fun p => (fst p, Err (WalBroken reason))) pending) c
    | None =>
      match flush_durable (cm_segment c) io with
      | (seg, Ok _) =>
        set_task seg (cm_queue c) [] None (cm_shutdown c) (cm_phase c)
          (cm_acks c ++ map (fun p => (fst p, Ok (snd p))) pending) c
      | (seg, Err e) =>
        let reason := FlushFailed e in
        set_task seg (cm_queue c) [] (Some reason) (cm_shutdown c) (cm_phase c)
          (cm_acks c ++ map (fun p => (fst p, Err (WalBroken reason))) pending) c
      end
    end
  end.

Inductive CommitEvent := EvReceive | EvShutdown | EvGather | EvGatherEnd | EvFlush (io : FlushIo).

(** One stretch of [committer_loop]; [None]: the event cannot happen now.  A
    queued submission wins over the shutdown signal and over the timer. *)
Definition committer_event (ev : CommitEvent) (c : Committer) : option Committer :=
  match ev, cm_phase c with
  | EvReceive, Receiving =>
    if cm_shutdown c then
      Some (match take_one Flushing c with Some c => c | None => set_phase Flushing c end)
    else take_one (match cm_broken c with None => Gathering | Some _ => Flushing end) c
  | EvShutdown, Receiving =>
    if negb (cm_shutdown c) && cm_closed c && (length (cm_queue c) =? 0)%nat then
      Some (set_task (cm_segment c) (cm_queue c) (cm_pending c) (cm_broken c) true Flushing
              (cm_acks c) c)
    else None
  | EvGather, Gathering =>
    if (max_batch_bytes (cm_config c) <=? write_buf_len (cm_segment c))%nat then None
    else take_one Gathering c
  | EvGatherEnd, Gathering =>
    if (max_batch_bytes (cm_config c) <=? write_buf_len (cm_segment c))%nat
       || (length (cm_queue c) =? 0)%nat
    then Some (set_phase Flushing c) else None
  | EvFlush io, Flushing =>
    let c := if cm_shutdown c then drain_queue (cm_queue c) c else c in
    match cm_phase c with
    | Panicked => Some c
    | _ =>
      let c := flush_and_ack io c in
      Some (if cm_shutdown c && (length (cm_queue c) =? 0)%nat
            then set_phase Finished c else set_phase Receiving c)
    end
  | _, _ => None
  end.

Inductive cm_step : Committer -> Committer -> Prop :=
| cm_append c record c' id : append c record = Ok (c', id) -> cm_step c c'
| cm_close c : cm_step c (close c)
| cm_event ev c c' : committer_event ev c = Some c' -> cm_step c c'.

(** After [close] only the I/O is left open: the task's next event. *)
Definition next_event (io : FlushIo) (c : Committer) : CommitEvent :=
  match cm_phase c with
  | Receiving => if negb (cm_shutdown c) && (length (cm_queue c) =? 0)%nat then EvShutdown else EvReceive
  | Gathering =>
    if (max_batch_bytes (cm_config c) <=? write_buf_len (cm_segment c))%nat
       || (length (cm_queue c) =? 0)%nat then EvGatherEnd else EvGather
  | _ => EvFlush io
  end.

(** Run the task until it ends; [ios n] answers the I/O of the [n]-th event. *)
Fixpoint run_task (fuel : nat) (ios : nat -> FlushIo) (c : Committer) : option Committer :=
  if task_alive c then
    match fuel with
    | O => None
    | S fuel =>
      c ← committer_event (next_event (ios 0%nat) c) c;
      run_task fuel (fun n => ios (S n)) c
    end
  else Some c.

(** [GroupCommitter::shutdown] with the committer it leaves (its acknowledgements remain readable). *)
Definition shutdown (fuel : nat) (ios : nat -> FlushIo) (c : Committer)
  : option (Committer * result WalSegment CommitError) :=
  c ← run_task fuel ios (close c);
  Some (c, match cm_phase c with
           | Finished => Ok (cm_segment c)
           | _ => Err (WalBroken NoCompletion)
           end).
End committer.

(** ** The invariant *)

(** Records with their acknowledgement numbers, from [n] on. *)
Fixpoint numbered (n : nat) (rs : list WalRecord) : list (WalRecord * AckId) :=
  match rs with [] => [] | r :: rs => (r, n) :: numbered (S n) rs end.

Lemma numbered_app n a b : numbered n (a ++ b) = numbered n a ++ numbered (n + length a) b.
Proof.
  revert n. induction a as [|r a IH]; intros n; cbn; [by rewrite Nat.add_0_r|].
  by rewrite IH, Nat.add_succ_r.
Qed.

Lemma numbered_fst n rs : map fst (numbered n rs) = rs.
Proof. revert n. induction rs as [|r rs IH]; intros n; cbn; [done|]. by rewrite IH. Qed.

Definition pending_acks (n : nat) (rs : list WalRecord) : list (AckId * Z) :=
  map (fun p => (snd p, wr_lsn (fst p))) (numbered n rs).
Definition ok_acks (n : nat) (rs : list WalRecord) : list (AckId * AckMessage) :=
  map (fun p => (snd p, Ok (wr_lsn (fst p)))) (numbered n rs).
Definition err_acks (reason : BrokenReason) (n : nat) (rs : list WalRecord) : list (AckId * AckMessage) :=
  map (fun p => (snd p, Err (WalBroken reason))) (numbered n rs).

Section invariant.
Context `{CRC : Crc32c}.
(** The segment at the start: its identity, its header and the records in it. *)
Context (ident : Z * Z * bytes) (hdr : bytes) (rs0 : list WalRecord).

(** The durable contents begin with [rs]. *)
Definition durable_prefix (s : WalSegment) (rs : list WalRecord) : Prop :=
  exists rest, sf_durable (seg_file s) = hdr ++ frames rs ++ rest
    /\ exists rest', sf_cache (seg_file s) = hdr ++ frames rs ++ rest'.

Lemma seg_holds_prefix s rs buffered : seg_holds s hdr rs buffered -> durable_prefix s rs.
Proof.
  intros [_ Hc Hd _ _]. unfold durable_prefix. rewrite Hc, Hd.
  exists []. rewrite app_nil_r. split; [done|]. exists []. by rewrite app_nil_r.
Qed.

(** [done]: acknowledged, durable; [mid]: taken off the queue since. *)
Record cm_inv_at (c : Committer) (done mid : list WalRecord) : Prop := {
  ci_ident : seg_ident (cm_segment c) = ident;
  ci_submitted : cm_submitted c = done ++ mid ++ map fst (cm_queue c);
  ci_queue : cm_queue c = numbered (length done + length mid) (map fst (cm_queue c));
  ci_state : match cm_broken c with
    | None =>
      cm_acks c = ok_acks 0 done /\
      match cm_phase c with
      | Panicked => exists buffered, seg_holds (cm_segment c) hdr (rs0 ++ done) buffered
      | _ => cm_pending c = pending_acks (length done) mid
             /\ seg_holds (cm_segment c) hdr (rs0 ++ done) mid
      end
    | Some reason =>
      cm_acks c = ok_acks 0 done ++ err_acks reason (length done) mid
      /\ cm_pending c = [] /\ durable_prefix (cm_segment c) (rs0 ++ done)
    end;
  ci_shutdown : cm_shutdown c = true -> cm_closed c = true;
  ci_finished : cm_phase c = Finished ->
    cm_queue c = [] /\ cm_pending c = [] /\ cm_shutdown c = true;
  ci_receiving : cm_phase c = Receiving -> cm_pending c = [];
}.

Arguments ci_ident {_ _ _} _.
Arguments ci_submitted {_ _ _} _.
Arguments ci_queue {_ _ _} _.
Arguments ci_state {_ _ _} _.
Arguments ci_shutdown {_ _ _} _.
Arguments ci_finished {_ _ _} _.
Arguments ci_receiving {_ _ _} _.

Definition cm_inv (c : Committer) : Prop := exists done mid, cm_inv_at c done mid.

Lemma start_inv s cfg :
  seg_holds s hdr rs0 [] -> seg_ident s = ident -> cm_inv (start s cfg).
Proof. intros Hs Hi. exists [], []. split; cbn; try done. rewrite app_nil_r. done. Qed.

Lemma append_inv c r c' id : cm_inv c -> append c r = Ok (c', id) -> cm_inv c'.
Proof.
  intros (done & mid & [H1 H2 H3 H4 H5 H6 H7]) E. unfold append in E.
  destruct (cm_closed c || negb (task_alive c)) eqn:Ed; [done|]. apply Ok_inj in E. simplify_eq.
  apply orb_false_iff in Ed as [_ Ha]. apply negb_false_iff in Ha. unfold task_alive in Ha.
  exists done, mid. split; cbn; try done.
  - rewrite map_app, H2. cbn. by rewrite <- !app_assoc.
  - rewrite map_app, numbered_app, <- H3. cbn. do 3 f_equal. rewrite H2, !length_app. lia.
  - intros E. by rewrite E in Ha.
Qed.

Lemma close_inv c : cm_inv c -> cm_inv (close c).
Proof. intros (done & mid & [H1 H2 H3 H4 H5 H6 H7]). by exists done, mid. Qed.

(** Taking the head of the queue. *)
Lemma handle_inv c done mid r id q :
  cm_inv_at c done mid -> cm_phase c <> Panicked -> cm_phase c <> Finished ->
  cm_phase c <> Receiving -> cm_queue c = (r, id) :: q ->
  cm_inv_at (handle_submission (r, id) (set_queue q c)) done (mid ++ [r])
  /\ (cm_phase (handle_submission (r, id) (set_queue q c)) = cm_phase c
      \/ cm_phase (handle_submission (r, id) (set_queue q c)) = Panicked)
  /\ cm_queue (handle_submission (r, id) (set_queue q c)) = q
  /\ cm_shutdown (handle_submission (r, id) (set_queue q c)) = cm_shutdown c
  /\ cm_broken (handle_submission (r, id) (set_queue q c)) = cm_broken c
  /\ cm_config (handle_submission (r, id) (set_queue q c)) = cm_config c.
Proof.
  intros [H1 H2 H3 H4 H5 H6 H7] Hp Hf Hrc Eq.
  assert (id = (length done + length mid)%nat /\ q = numbered (S (length done + length mid)) (map fst q))
    as [-> Hq].
  { rewrite Eq in H3. cbn in H3. by injection H3. }
  assert (cm_submitted c = done ++ (mid ++ [r]) ++ map fst q) as Hsub
    by (rewrite H2, Eq; cbn; by rewrite <- app_assoc).
  assert (q = numbered (length done + length (mid ++ [r])) (map fst q)) as Hq'
    by (rewrite length_app, Nat.add_assoc; cbn; by rewrite Nat.add_1_r).
  unfold handle_submission. cbn [set_queue set_task cm_broken cm_segment].
  destruct (cm_broken c) as [reason|] eqn:Eb.
  - destruct H4 as (Ha & Hpe & Hd). split.
    { split; cbn; rewrite ?Eb; try done.
      split_and!; try done. rewrite Ha. unfold err_acks. rewrite numbered_app, map_app. cbn.
      by rewrite <- app_assoc. }
    split; [by left|]. cbn. by rewrite ?Eb.
  - destruct H4 as (Ha & Hpd). assert (cm_pending c = pending_acks (length done) mid
      /\ seg_holds (cm_segment c) hdr (rs0 ++ done) mid) as [Hpe Hs]
      by (destruct (cm_phase c); try exact Hpd; done).
    destruct (append_record (cm_segment c) r) as [[seg n]|] eqn:Ear.
    + assert (seg_holds seg hdr (rs0 ++ done) (mid ++ [r])) as Hs'.
      { assert (Z.of_nat (length (wr_payload r)) <= MAX_PAYLOAD) as Hm.
        { destruct (Z.le_gt_cases (Z.of_nat (length (wr_payload r))) MAX_PAYLOAD); [done|].
          unfold append_record in Ear. rewrite encode_into_None in Ear by lia. done. }
        destruct (append_record_holds _ _ _ _ r Hs Hm) as (s' & E' & Hs' & _). congruence. }
      split.
      { split; cbn; rewrite ?Eb; try done.
        - rewrite (append_record_ident _ _ _ _ Ear). done.
        - split; [done|]. assert (cm_pending c ++ [((length done + length mid)%nat, wr_lsn r)]
            = pending_acks (length done) (mid ++ [r])) as ->.
          { rewrite Hpe. unfold pending_acks. by rewrite numbered_app, map_app. }
          by destruct (cm_phase c). }
      split; [by left|]. cbn. by rewrite ?Eb.
    + split.
      { split; cbn; rewrite ?Eb; try done. split; [done|]. by eexists. }
      split; [by right|]. cbn. by rewrite ?Eb.
Qed.

(** Moving to a waiting point keeps the invariant. *)
Lemma set_phase_inv c done mid ph :
  cm_inv_at c done mid -> cm_phase c <> Panicked -> (ph = Gathering \/ ph = Flushing) ->
  cm_inv_at (set_phase ph c) done mid.
Proof.
  intros [H1 H2 H3 H4 H5 H6 H7] Hp Hph. split; cbn; try done; try (by destruct Hph as [-> | ->]).
  destruct (cm_broken c); [done|]. destruct H4 as [Ha Hpd]. split; [done|].
  destruct Hph as [-> | ->]; by destruct (cm_phase c).
Qed.

Lemma take_one_inv c ph c' :
  cm_inv c -> cm_phase c <> Panicked -> (ph = Gathering \/ ph = Flushing) ->
  take_one ph c = Some c' -> cm_inv c'.
Proof.
  intros (done & mid & Hi) Hp Hph E. unfold take_one in E.
  destruct (cm_queue c) as [|[r id] q] eqn:Eq; [done|]. apply (inj Some) in E. subst c'.
  pose proof (set_phase_inv c done mid ph Hi Hp Hph) as Hi'.
  exists done, (mid ++ [r]).
  apply (handle_inv (set_phase ph c) done mid r id q Hi'); try done; cbn; by destruct Hph as [-> | ->].
Qed.

Lemma drain_queue_inv q c done mid :
  cm_inv_at c done mid -> cm_phase c = Flushing -> cm_queue c = q ->
  exists mid', cm_inv_at (drain_queue q c) done mid'
    /\ (cm_phase (drain_queue q c) = Panicked
        \/ cm_phase (drain_queue q c) = Flushing /\ cm_queue (drain_queue q c) = [])
    /\ cm_shutdown (drain_queue q c) = cm_shutdown c.
Proof.
  revert c mid. induction q as [|[r id] q IH]; intros c mid Hi Hp Eq; cbn [drain_queue].
  { exists mid. split; [done|]. split; [by right|done]. }
  destruct (handle_inv c done mid r id q Hi) as (Hi' & Hph & Hq & Hs & _); [by rewrite Hp..|done|].
  set (c1 := handle_submission (r, id) (set_queue q c)) in *.
  destruct Hph as [Hph|Hph]; rewrite Hph.
  - rewrite Hp. rewrite Hp in Hph. destruct (IH c1 (mid ++ [r]) Hi' Hph Hq) as (mid' & A & B & C).
    exists mid'. split; [done|]. split; [done|congruence].
  - exists (mid ++ [r]). split; [done|]. split; [by left|done].
Qed.

(** Flushing and acknowledging, up to the next waiting point. *)
Lemma flush_and_ack_inv c done mid io ph :
  cm_inv_at c done mid -> cm_phase c = Flushing ->
  (ph = Receiving \/ ph = Finished /\ cm_shutdown c = true /\ cm_queue c = []) ->
  cm_inv (set_phase ph (flush_and_ack io c)).
Proof.
  intros [H1 H2 H3 H4 H5 H6 H7] Hp Hph. unfold flush_and_ack.
  destruct (cm_pending c) as [|p0 ps] eqn:Epe.
  { exists done, mid. split; cbn; rewrite ?Epe; try done.
    - destruct (cm_broken c); [done|]. rewrite Hp in H4.
      by destruct Hph as [-> | [-> _]].
    - intros ->. by destruct Hph as [|(_ & ? & ?)]. }
  destruct (cm_broken c) as [reason|] eqn:Eb; [by destruct H4 as (_ & ? & _)|].
  rewrite Hp in H4. destruct H4 as (Ha & Hpe & Hs).
  pose proof (flush_durable_ident (cm_segment c) io) as Hid.
  destruct (flush_durable (cm_segment c) io) as [seg [u|e]] eqn:Ef; cbn [fst] in Hid.
  - exists (done ++ mid), []. split; cm_simpl; try done.
    + congruence.
    + by rewrite H2, <- app_assoc.
    + by rewrite length_app, Nat.add_0_r.
    + split.
      * rewrite Ha, Hpe. unfold ok_acks, pending_acks. rewrite numbered_app, map_app, !map_map. done.
      * pose proof (flush_durable_ok _ _ _ _ _ _ _ Hs Ef) as Hs'. rewrite <- app_assoc in Hs'.
        by destruct Hph as [-> | [-> _]].
    + intros ->. by destruct Hph as [|(_ & ? & ?)].
  - exists done, mid. split; cm_simpl; try done.
    + congruence.
    + split_and!; try done.
      * rewrite Ha, Hpe. unfold err_acks, pending_acks. by rewrite map_map.
      * destruct (flush_durable_keeps _ _ _ _ _ _ _ Hs Ef) as (rest & Hc & rest' & Hd).
        exists rest'. split; [done|]. by exists rest.
    + intros ->. by destruct Hph as [|(_ & ? & ?)].
Qed.

Lemma event_inv ev c c' : cm_inv c -> committer_event ev c = Some c' -> cm_inv c'.
Proof.
  intros Hi E. destruct ev, (cm_phase c) eqn:Hp; cbn [committer_event] in E; rewrite Hp in E; try done.
  - (* receive *) destruct (cm_shutdown c).
    + destruct (take_one Flushing c) as [c1|] eqn:Et; simplify_eq.
      * apply (take_one_inv c Flushing c'); [done|by rewrite Hp|by right|exact Et].
      * destruct Hi as (done & mid & Hi). exists done, mid.
        apply set_phase_inv; [done|by rewrite Hp|by right].
    + eapply take_one_inv; [done|by rewrite Hp| |exact E]. destruct (cm_broken c); auto.
  - (* shutdown *) destruct (cm_closed c) eqn:Ec; [|by rewrite andb_false_r in E].
    destruct (negb (cm_shutdown c) && true && (length (cm_queue c) =? 0)%nat); simplify_eq.
    destruct Hi as (done & mid & [H1 H2 H3 H4 H5 H6 H7]). exists done, mid. split; cbn; try done.
    destruct (cm_broken c); [done|]. by rewrite Hp in H4.
  - (* gather *) destruct (_ <=? _)%nat; [done|].
    apply (take_one_inv c Gathering c'); [done|by rewrite Hp|by left|exact E].
  - (* gather end *) destruct (_ || _); [|done]. simplify_eq. destruct Hi as (done & mid & Hi).
    exists done, mid. apply set_phase_inv; [done|by rewrite Hp|by right].
  - (* flush *) destruct Hi as (done & mid & Hi).
    assert (exists mid' c1, c1 = (if cm_shutdown c then drain_queue (cm_queue c) c else c)
      /\ cm_inv_at c1 done mid' /\ (cm_phase c1 = Panicked \/ cm_phase c1 = Flushing)) as (mid' & c1 & E1 & Hi1 & Hp1).
    { destruct (cm_shutdown c).
      - destruct (drain_queue_inv (cm_queue c) c done mid Hi Hp eq_refl) as (mid' & A & B & _).
        exists mid', (drain_queue (cm_queue c) c). split_and!; try done. destruct B as [|[? _]]; auto.
      - exists mid, c. split_and!; auto. }
    rewrite <- E1 in E. destruct Hp1 as [Hp1|Hp1]; rewrite Hp1 in E.
    { simplify_eq. by exists done, mid'. }
    assert (cm_shutdown (flush_and_ack io c1) = cm_shutdown c1 /\ cm_queue (flush_and_ack io c1) = cm_queue c1)
      as [Es Eq].
    { unfold flush_and_ack. destruct (cm_pending c1), (cm_broken c1); try done;
        destruct (flush_durable (cm_segment c1) io) as [? []]; done. }
    rewrite Es, Eq in E. destruct (cm_shutdown c1 && (length (cm_queue c1) =? 0)%nat) eqn:Ex; simplify_eq.
    + apply andb_prop in Ex as [Ex1 Ex2]. apply Nat.eqb_eq, nil_length_inv in Ex2.
      eapply flush_and_ack_inv; [exact Hi1|done|]. by right.
    + eapply flush_and_ack_inv; [exact Hi1|done|]. by left.
Qed.

Lemma step_inv c c' : cm_inv c -> cm_step c c' -> cm_inv c'.
Proof.
  intros Hi Hs. destruct Hs as [c r c' id E|c|ev c c' E];
    [by eapply append_inv|by apply close_inv|by eapply event_inv].
Qed.

Lemma reach_inv c c' : cm_inv c -> rtc cm_step c c' -> cm_inv c'.
Proof. intros Hi Hr. induction Hr; eauto using step_inv. Qed.
End invariant.

#[global] Arguments ci_ident {_ _ _ _ _ _ _} _.
#[global] Arguments ci_submitted {_ _ _ _ _ _ _} _.
#[global] Arguments ci_queue {_ _ _ _ _ _ _} _.
#[global] Arguments ci_state {_ _ _ _ _ _ _} _.
#[global] Arguments ci_shutdown {_ _ _ _ _ _ _} _.
#[global] Arguments ci_finished {_ _ _ _ _ _ _} _.
#[global] Arguments ci_receiving {_ _ _ _ _ _ _} _.

(** ** Progress *)

Section progress.
Context `{CRC : Crc32c}.

Definition small (r : WalRecord) : Prop := Z.of_nat (length (wr_payload r)) <= MAX_PAYLOAD.
Definition queue_small (c : Committer) : Prop := Forall small (map fst (cm_queue c)).

(** What is left to do once the channel is closed. *)
Definition todo (c : Committer) : nat :=
  (4 * length (cm_queue c)
   + match cm_phase c with
     | Gathering => 4
     | Flushing => if cm_shutdown c then 1 else 3
     | Receiving => 2
     | Finished | Panicked => 0
     end)%nat.

(** The rest of a closed task: the same flags, fewer submissions. *)
Record shrinks (c c' : Committer) : Prop := {
  sh_closed : cm_closed c' = cm_closed c;
  sh_small : queue_small c';
  sh_less : (todo c' < todo c)%nat;
  sh_panic : cm_phase c' <> Panicked;
}.

Lemma handle_small r id c :
  small r -> cm_phase c <> Panicked ->
  cm_phase (handle_submission (r, id) c) = cm_phase c
  /\ cm_queue (handle_submission (r, id) c) = cm_queue c
  /\ cm_closed (handle_submission (r, id) c) = cm_closed c
  /\ cm_shutdown (handle_submission (r, id) c) = cm_shutdown c.
Proof.
  intros Hs Hp. unfold handle_submission. destruct (cm_broken c); [done|].
  unfold append_record. by rewrite encode_into_frame.
Qed.

Lemma take_one_small ph c :
  queue_small c -> ph <> Panicked -> cm_queue c <> [] ->
  exists r id q, cm_queue c = (r, id) :: q
    /\ take_one ph c = Some (handle_submission (r, id) (set_queue q (set_phase ph c)))
    /\ cm_phase (handle_submission (r, id) (set_queue q (set_phase ph c))) = ph
    /\ cm_queue (handle_submission (r, id) (set_queue q (set_phase ph c))) = q
    /\ cm_closed (handle_submission (r, id) (set_queue q (set_phase ph c))) = cm_closed c
    /\ cm_shutdown (handle_submission (r, id) (set_queue q (set_phase ph c))) = cm_shutdown c
    /\ Forall small (map fst q).
Proof.
  intros Hs Hph Hne. unfold take_one, queue_small in *.
  destruct (cm_queue c) as [|[r id] q]; [done|]. cbn in Hs. apply Forall_cons in Hs as [Hr Hq].
  exists r, id, q. destruct (handle_small r id (set_queue q (set_phase ph c)) Hr) as (A & B & C & D);
    [done|]. by split_and!.
Qed.

Lemma drain_small q c :
  Forall small (map fst q) -> cm_phase c = Flushing -> cm_queue c = q ->
  cm_phase (drain_queue q c) = Flushing /\ cm_queue (drain_queue q c) = []
  /\ cm_closed (drain_queue q c) = cm_closed c /\ cm_shutdown (drain_queue q c) = cm_shutdown c.
Proof.
  revert c. induction q as [|[r id] q IH]; intros c Hs Hp Eq; cbn [drain_queue]; [done|].
  cbn in Hs. apply Forall_cons in Hs as [Hr Hq].
  destruct (handle_small r id (set_queue q c) Hr) as (A & B & C & D); [cbn; by rewrite Hp|].
  rewrite A. cbn [set_queue set_task cm_phase cm_queue cm_closed cm_shutdown] in *. rewrite Hp in *.
  destruct (IH _ Hq A B) as (E & F & G & I). split_and!; congruence.
Qed.

Lemma flush_and_ack_frame io c :
  cm_phase (flush_and_ack io c) = cm_phase c /\ cm_queue (flush_and_ack io c) = cm_queue c
  /\ cm_closed (flush_and_ack io c) = cm_closed c /\ cm_shutdown (flush_and_ack io c) = cm_shutdown c.
Proof.
  unfold flush_and_ack. destruct (cm_pending c), (cm_broken c); try done;
    destruct (flush_durable (cm_segment c) io) as [? []]; done.
Qed.

(** Taking a submission makes progress. *)
Lemma take_one_progress ph c :
  queue_small c -> cm_queue c <> [] -> (ph = Gathering \/ ph = Flushing) ->
  (cm_phase c = Receiving \/ cm_phase c = Gathering) ->
  exists c', take_one ph c = Some c' /\ shrinks c c'.
Proof.
  intros Hs Hne Hph Hp.
  destruct (take_one_small ph c Hs) as (r & id & q & E1 & E2 & E3 & E4 & E5 & E6 & E7);
    [by destruct Hph as [-> | ->]|done|].
  eexists. split; [exact E2|]. split; try done.
  - unfold queue_small. by rewrite E4.
  - unfold todo. rewrite E3, E4, E6, E1. cbn [length].
    destruct Hph as [-> | ->], Hp as [-> | ->], (cm_shutdown c); lia.
  - rewrite E3. by destruct Hph as [-> | ->].
Qed.

(** So does moving on to the flush. *)
Lemma to_flush_progress c sh :
  queue_small c -> (sh = true \/ cm_phase c = Gathering) ->
  (cm_phase c = Receiving \/ cm_phase c = Gathering) ->
  shrinks c (set_task (cm_segment c) (cm_queue c) (cm_pending c) (cm_broken c) sh Flushing (cm_acks c) c).
Proof.
  intros Hs Hsh Hp. split; cm_simpl; try done. unfold todo; cm_simpl.
  destruct Hsh as [-> | Hg], Hp as [Hp|Hp]; rewrite Hp; try destruct sh; lia || congruence.
Qed.

Lemma progress_receiving io c :
  cm_phase c = Receiving -> cm_closed c = true -> queue_small c ->
  exists c', committer_event (next_event io c) c = Some c' /\ shrinks c c'.
Proof.
  intros Hp Hc Hs. unfold next_event. rewrite Hp.
  destruct (Nat.eqb_spec (length (cm_queue c)) 0) as [Hq|Hq].
  - destruct (cm_shutdown c) eqn:Esh; cbn [negb andb committer_event]; rewrite Hp, Esh.
    + apply nil_length_inv in Hq. unfold take_one. rewrite Hq. eexists. split; [done|].
      unfold set_phase. rewrite Esh. apply to_flush_progress; auto.
    + rewrite Hc, Hq. cbn. eexists. split; [done|]. apply to_flush_progress; auto.
  - rewrite andb_false_r. cbn [committer_event]. rewrite Hp.
    assert (cm_queue c <> []) as Hne by (intros E; by rewrite E in Hq).
    destruct (cm_shutdown c).
    + destruct (take_one_progress Flushing c Hs Hne) as (c' & -> & ?); eauto.
    + apply take_one_progress; auto. destruct (cm_broken c); auto.
Qed.

Lemma progress_gathering io c :
  cm_phase c = Gathering -> queue_small c ->
  exists c', committer_event (next_event io c) c = Some c' /\ shrinks c c'.
Proof.
  intros Hp Hs. unfold next_event. rewrite Hp.
  destruct (max_batch_bytes (cm_config c) <=? write_buf_len (cm_segment c))%nat eqn:Em;
    [|destruct (Nat.eqb_spec (length (cm_queue c)) 0) as [Hq|Hq]]; cbn [orb committer_event]; rewrite Hp, Em.
  - eexists. split; [done|]. apply to_flush_progress; auto.
  - rewrite Hq. cbn. eexists. split; [done|]. apply to_flush_progress; auto.
  - apply take_one_progress; auto. intros E. by rewrite E in Hq.
Qed.

Lemma progress_flushing io c :
  cm_phase c = Flushing -> queue_small c ->
  exists c', committer_event (EvFlush io) c = Some c' /\ shrinks c c'.
Proof.
  intros Hp Hs. cbn [committer_event]. rewrite Hp. destruct (cm_shutdown c) eqn:Esh.
  - destruct (drain_small (cm_queue c) c Hs Hp eq_refl) as (A & B & C & D). rewrite A.
    destruct (flush_and_ack_frame io (drain_queue (cm_queue c) c)) as (F1 & F2 & F3 & F4).
    rewrite F2, F4, D, Esh, B. cbn. eexists. split; [done|]. unfold queue_small, todo.
    split; unfold queue_small, todo; cm_simpl; rewrite ?F2, ?B, ?Hp, ?Esh; cbn; try done; [congruence|lia].
  - rewrite Hp. destruct (flush_and_ack_frame io c) as (F1 & F2 & F3 & F4). rewrite F4, Esh. cbn.
    eexists. split; [done|].
    split; unfold queue_small, todo; cm_simpl; rewrite ?F2, ?F4, ?Hp, ?Esh; cbn; try done. lia.
Qed.

(** A closed task always has a next event, and that event makes progress. *)
Lemma next_event_progress io c :
  cm_closed c = true -> queue_small c -> task_alive c = true ->
  exists c', committer_event (next_event io c) c = Some c' /\ shrinks c c'.
Proof.
  intros Hc Hs Ha. unfold task_alive in Ha. destruct (cm_phase c) eqn:Hp; try done.
  - by apply progress_receiving.
  - by apply progress_gathering.
  - replace (next_event io c) with (EvFlush io) by (unfold next_event; by rewrite Hp).
    by apply progress_flushing.
Qed.

Lemma run_task_finishes fuel ios c :
  cm_closed c = true -> queue_small c -> cm_phase c <> Panicked -> (todo c <= fuel)%nat ->
  exists c', run_task fuel ios c = Some c' /\ cm_phase c' = Finished /\ rtc cm_step c c'.
Proof.
  revert ios c. induction fuel as [|fuel IH]; intros ios c Hc Hs Hp Hf.
  - assert (cm_phase c = Finished) as Hfin.
    { unfold todo in Hf. destruct (cm_phase c); try done; try lia. destruct (cm_shutdown c); lia. }
    exists c. cbn [run_task]. unfold task_alive. rewrite Hfin. by split_and!.
  - cbn [run_task]. destruct (task_alive c) eqn:Ha.
    + destruct (next_event_progress (ios 0%nat) c Hc Hs Ha) as (c1 & E & [S1 S2 S3 S4]).
      rewrite E; cbn [mbind option_bind].
      destruct (IH (fun n => ios (S n)) c1) as (c' & E' & Hfin & Hr); [congruence|done|done|lia|].
      exists c'. split_and!; try done. eapply rtc_l; [|exact Hr]. by eapply cm_event.
    + exists c. unfold task_alive in Ha. split_and!; try done. by destruct (cm_phase c).
Qed.

(** The task never submits. *)
Lemma handle_submitted sub c : cm_submitted (handle_submission sub c) = cm_submitted c.
Proof.
  destruct sub as [r id]. unfold handle_submission. destruct (cm_broken c); [done|].
  by destruct (append_record (cm_segment c) r) as [[]|].
Qed.

Lemma take_one_submitted ph c c' : take_one ph c = Some c' -> cm_submitted c' = cm_submitted c.
Proof.
  unfold take_one. destruct (cm_queue c); [done|]. intros E. apply (inj Some) in E. subst c'.
  by rewrite handle_submitted.
Qed.

Lemma drain_submitted q c : cm_submitted (drain_queue q c) = cm_submitted c.
Proof.
  revert c. induction q as [|sub q IH]; intros c; cbn [drain_queue]; [done|].
  pose proof (handle_submitted sub (set_queue q c)) as H. cbn in H.
  destruct (cm_phase (handle_submission sub (set_queue q c))); try rewrite IH; done.
Qed.

Lemma event_submitted ev c c' : committer_event ev c = Some c' -> cm_submitted c' = cm_submitted c.
Proof.
  unfold committer_event. destruct ev, (cm_phase c); try done.
  - destruct (cm_shutdown c); [|apply take_one_submitted].
    destruct (take_one Flushing c) eqn:E; intros [= <-]; [by eapply take_one_submitted|done].
  - destruct (_ && _); [|done]. by intros [= <-].
  - destruct (_ <=? _)%nat; [done|]. apply take_one_submitted.
  - destruct (_ || _); [|done]. by intros [= <-].
  - set (c1 := if cm_shutdown c then drain_queue (cm_queue c) c else c).
    assert (cm_submitted c1 = cm_submitted c) as H1
      by (unfold c1; destruct (cm_shutdown c); [apply drain_submitted|done]).
    assert (cm_submitted (flush_and_ack io c1) = cm_submitted c1) as H2.
    { unfold flush_and_ack. destruct (cm_pending c1), (cm_broken c1); try done;
        destruct (flush_durable (cm_segment c1) io) as [? []]; done. }
    destruct (cm_phase c1); intros [= <-]; try done; destruct (_ && _); cbn; congruence.
Qed.

(** Nor does it take an acknowledgement back. *)
Lemma handle_acks sub c : cm_acks c `prefix_of` cm_acks (handle_submission sub c).
Proof.
  destruct sub as [r id]. unfold handle_submission. destruct (cm_broken c); [by eexists|].
  by destruct (append_record (cm_segment c) r) as [[]|].
Qed.

Lemma take_one_acks ph c c' : take_one ph c = Some c' -> cm_acks c `prefix_of` cm_acks c'.
Proof.
  unfold take_one. destruct (cm_queue c); [done|]. intros E. apply (inj Some) in E. subst c'.
  match goal with |- _ `prefix_of` cm_acks (handle_submission ?s ?c1) => exact (handle_acks s c1) end.
Qed.

Lemma drain_acks q c : cm_acks c `prefix_of` cm_acks (drain_queue q c).
Proof.
  revert c. induction q as [|sub q IH]; intros c; cbn [drain_queue]; [done|].
  pose proof (handle_acks sub (set_queue q c)) as H. cbn in H.
  destruct (cm_phase (handle_submission sub (set_queue q c))); try done;
    (etrans; [exact H|apply IH]).
Qed.

Lemma flush_acks io c : cm_acks c `prefix_of` cm_acks (flush_and_ack io c).
Proof.
  unfold flush_and_ack. destruct (cm_pending c); [done|]. destruct (cm_broken c); [by eexists|].
  destruct (flush_durable (cm_segment c) io) as [? []]; by eexists.
Qed.

Lemma event_acks ev c c' : committer_event ev c = Some c' -> cm_acks c `prefix_of` cm_acks c'.
Proof.
  unfold committer_event. destruct ev, (cm_phase c); try done.
  - destruct (cm_shutdown c); [|apply take_one_acks].
    destruct (take_one Flushing c) eqn:E; intros [= <-]; [by eapply take_one_acks|done].
  - destruct (_ && _); [|done]. by intros [= <-].
  - destruct (_ <=? _)%nat; [done|]. apply take_one_acks.
  - destruct (_ || _); [|done]. by intros [= <-].
  - set (c1 := if cm_shutdown c then drain_queue (cm_queue c) c else c).
    assert (cm_acks c `prefix_of` cm_acks c1) as H1
      by (unfold c1; destruct (cm_shutdown c); [apply drain_acks|done]).
    pose proof (flush_acks io c1) as H2.
    destruct (cm_phase c1); intros [= <-]; try done;
      destruct (_ && _); cbn; by etrans.
Qed.

Lemma run_task_submitted fuel ios c c' :
  run_task fuel ios c = Some c' -> cm_submitted c' = cm_submitted c.
Proof.
  revert ios c. induction fuel as [|fuel IH]; intros ios c; cbn [run_task];
    destruct (task_alive c); try (by intros [= <-]).
  destruct (committer_event _ c) as [c1|] eqn:E; cbn [mbind option_bind]; [|done].
  intros Hr. rewrite (IH _ _ Hr). by eapply event_submitted.
Qed.

Lemma run_task_mono fuel fuel' ios c c' :
  (fuel <= fuel')%nat -> run_task fuel ios c = Some c' -> run_task fuel' ios c = Some c'.
Proof.
  revert fuel' ios c. induction fuel as [|fuel IH]; intros [|fuel'] ios c Hf; cbn [run_task];
    destruct (task_alive c); try done; [lia|].
  destruct (committer_event _ c) as [c1|]; cbn [mbind option_bind]; [|done].
  apply IH. lia.
Qed.
End progress.

(** ** Contract *)

Section commit_contract.
Context `{CRC : Crc32c}.

Lemma ok_acks_spec n rs id lsn :
  (id, Ok lsn) ∈ ok_acks n rs -> exists r, (n <= id)%nat /\ rs !! (id - n)%nat = Some r /\ wr_lsn r = lsn.
Proof.
  unfold ok_acks. revert n. induction rs as [|r rs IH]; intros n; cbn; [by intros ?%elem_of_nil|].
  intros [E|Hin]%elem_of_cons.
  - simplify_eq. exists r. by rewrite Nat.sub_diag.
  - destruct (IH _ Hin) as (r' & Hle & Hl & El). exists r'. split_and!; [lia| |done].
    by replace (id - n)%nat with (S (id - S n)) by lia.
Qed.

Lemma length_numbered n rs : length (numbered n rs) = length rs.
Proof. by rewrite <- (length_map fst), numbered_fst. Qed.

Lemma numbered_snd n rs : map snd (numbered n rs) = seq n (length rs).
Proof. revert n. induction rs as [|r rs IH]; intros n; cbn; [done|]. by rewrite IH. Qed.

Lemma err_acks_no_ok reason n rs id lsn : (id, Ok lsn) ∉ err_acks reason n rs.
Proof. intros (p & E & _)%list_elem_of_fmap. done. Qed.

(** The acknowledged records are durable and in submission order. *)
Lemma inv_acks {ident hdr rs0 c done mid} :
  cm_inv_at ident hdr rs0 c done mid ->
  durable_prefix hdr (cm_segment c) (rs0 ++ done)
  /\ (forall id lsn, (id, Ok lsn) ∈ cm_acks c -> exists r, done !! id = Some r /\ wr_lsn r = lsn)
  /\ map fst (cm_acks c) = seq 0 (length (cm_acks c)).
Proof.
  intros [_ _ _ Hs _ _ _]. destruct (cm_broken c) as [reason|].
  - destruct Hs as (Ha & _ & Hd). split; [done|]. split.
    + intros id lsn. rewrite Ha. intros [Hin|Hin]%elem_of_app.
      * destruct (ok_acks_spec _ _ _ _ Hin) as (r & _ & Hr & El). rewrite Nat.sub_0_r in Hr. eauto.
      * by apply err_acks_no_ok in Hin.
    + rewrite Ha. unfold ok_acks, err_acks. rewrite map_app, !map_map, length_app, !length_map.
      cbn [fst]. by rewrite !numbered_snd, !length_numbered, seq_app.
  - destruct Hs as (Ha & Hd). split.
    { destruct (cm_phase c); try (destruct Hd as [_ Hd]; by eapply seg_holds_prefix).
      destruct Hd as [b Hd]. by eapply seg_holds_prefix. }
    split.
    + intros id lsn. rewrite Ha. intros Hin. destruct (ok_acks_spec _ _ _ _ Hin) as (r & _ & Hr & El).
      rewrite Nat.sub_0_r in Hr. eauto.
    + rewrite Ha. unfold ok_acks. rewrite map_map, length_map. cbn [fst].
      by rewrite numbered_snd, length_numbered.
Qed.

(** Durability of acknowledgements: in every reachable state of the
    committer, whatever the interleaving of appends, batching, flushes and
    I/O failures, the records acknowledged with [Ok] are a prefix of the
    submissions and lie, in submission order and behind what the segment held
    before, in the part of the segment file that is on stable storage; and
    acknowledgements are sent in submission order, one per submission at
    most. *)
Theorem commit_acks_durable s0 cfg hdr rs0 c :
  seg_holds s0 hdr rs0 [] -> rtc cm_step (start s0 cfg) c ->
  exists done rest, cm_submitted c = done ++ rest
    /\ (forall id lsn, (id, Ok lsn) ∈ cm_acks c -> exists r, done !! id = Some r /\ wr_lsn r = lsn)
    /\ (exists junk, sf_durable (seg_file (cm_segment c)) = hdr ++ frames (rs0 ++ done) ++ junk)
    /\ map fst (cm_acks c) = seq 0 (length (cm_acks c)).
Proof.
  intros Hs Hr. destruct (reach_inv _ hdr rs0 _ c (start_inv _ hdr rs0 s0 cfg Hs eq_refl) Hr)
    as (done & mid & Hi).
  destruct (inv_acks Hi) as ((rest & Hd & _) & Ha & Hn).
  exists done, (mid ++ map fst (cm_queue c)). split_and!; [apply Hi|done|by exists rest|done].
Qed.

(** A task that has ended has answered every submission. *)
Lemma finished_acks ident hdr rs0 c :
  cm_inv ident hdr rs0 c -> cm_phase c = Finished ->
  map fst (cm_acks c) = seq 0 (length (cm_submitted c)).
Proof.
  intros (done & mid & Hi) Hfin. destruct (ci_finished Hi Hfin) as (Hq & Hp & _).
  destruct (inv_acks Hi) as (_ & _ & ->). f_equal.
  rewrite (ci_submitted Hi), Hq. cbn. rewrite app_nil_r.
  pose proof (ci_state Hi) as Hs. rewrite Hfin, Hp in Hs. unfold ok_acks, err_acks in Hs.
  destruct (cm_broken c).
  - destruct Hs as (-> & _). by rewrite !length_app, !length_map, !length_numbered.
  - destruct Hs as (-> & Hm & _). destruct mid; [|by unfold pending_acks in Hm].
    by rewrite app_nil_r, length_map, length_numbered.
Qed.

(** If no flush failed, the answer was [Ok] and the segment holds the record. *)
Lemma finished_holds ident hdr rs0 c :
  cm_inv ident hdr rs0 c -> cm_phase c = Finished -> cm_broken c = None ->
  cm_acks c = ok_acks 0 (cm_submitted c) /\ seg_holds (cm_segment c) hdr (rs0 ++ cm_submitted c) [].
Proof.
  intros (done & mid & Hi) Hfin Eb. destruct (ci_finished Hi Hfin) as (Hq & Hp & _).
  rewrite (ci_submitted Hi), Hq. cbn. rewrite app_nil_r.
  pose proof (ci_state Hi) as Hs. rewrite Eb, Hfin, Hp in Hs.
  destruct Hs as (Ha & Hm & Hsg). destruct mid; [|by unfold pending_acks in Hm].
  by rewrite app_nil_r.
Qed.

(** C38: shutdown drains: closing a reachable committer always brings its task
    to an end (within a number of events bounded by the queue), whatever the
    I/O answers; then every submission has been acknowledged exactly once and
    in order, and if no flush failed the segment durably holds all of them. *)
Theorem commit_shutdown_drains s0 cfg hdr rs0 c ios :
  seg_holds s0 hdr rs0 [] -> rtc cm_step (start s0 cfg) c ->
  Forall small (cm_submitted c) -> cm_phase c <> Panicked ->
  exists c' seg, (forall fuel, (4 * length (cm_queue c) + 4 <= fuel)%nat ->
      shutdown fuel ios c = Some (c', Ok seg))
    /\ cm_submitted c' = cm_submitted c
    /\ map fst (cm_acks c') = seq 0 (length (cm_submitted c))
    /\ (cm_broken c' = None ->
        cm_acks c' = ok_acks 0 (cm_submitted c) /\ seg_holds seg hdr (rs0 ++ cm_submitted c) []).
Proof.
  intros Hs Hr Hsm Hp.
  pose proof (reach_inv _ hdr rs0 _ c (start_inv _ hdr rs0 s0 cfg Hs eq_refl) Hr) as Hi.
  assert (queue_small (close c)) as Hq.
  { destruct Hi as (d & m & Hi). rewrite (ci_submitted Hi) in Hsm.
    apply Forall_app in Hsm as [_ Hsm]. by apply Forall_app in Hsm as [_ Hsm]. }
  destruct (run_task_finishes (todo (close c)) ios (close c) eq_refl Hq Hp (le_n _))
    as (c' & E & Hfin & Hr').
  assert (cm_submitted c' = cm_submitted c) as Hsub by (by apply run_task_submitted in E).
  pose proof (reach_inv _ _ _ _ _ (close_inv _ _ _ _ Hi) Hr') as Hi'.
  exists c', (cm_segment c'). split.
  { intros fuel Hf. unfold shutdown. rewrite (run_task_mono (todo (close c)) fuel ios (close c) c');
      [|unfold todo; cbn; destruct (cm_phase c), (cm_shutdown c); lia|done].
    cbn. by rewrite Hfin. }
  split; [done|]. rewrite <- Hsub. split; [by eapply finished_acks|].
  intros Eb. eapply finished_holds; eauto.
Qed.

(** What a broken committer may still do: refuse. *)
Record refuses (reason : BrokenReason) (c c' : Committer) : Prop := {
  rf_broken : cm_broken c' = Some reason;
  rf_segment : cm_segment c' = cm_segment c;
  rf_acks : exists extra, cm_acks c' = cm_acks c ++ extra
    /\ Forall (fun a => snd a = Err (WalBroken reason)) extra;
}.

Lemma refuses_same reason c c' :
  cm_broken c' = Some reason -> cm_segment c' = cm_segment c -> cm_acks c' = cm_acks c ->
  refuses reason c c'.
Proof. intros E1 E2 E3. split; [done..|]. exists []. by rewrite app_nil_r. Qed.

Lemma refuses_trans reason c1 c2 c3 : refuses reason c1 c2 -> refuses reason c2 c3 -> refuses reason c1 c3.
Proof.
  intros [_ S1 (e1 & A1 & F1)] [B2 S2 (e2 & A2 & F2)]. split; [done|congruence|].
  exists (e1 ++ e2). rewrite A2, A1, app_assoc. split; [done|]. by apply Forall_app.
Qed.

Lemma refuses_handle reason sub c :
  cm_broken c = Some reason -> refuses reason c (handle_submission sub c).
Proof.
  intros E. destruct sub as [r id]. unfold handle_submission. rewrite E. split; cm_simpl; [done..|].
  eexists. split; [done|]. by constructor.
Qed.

Lemma refuses_take_one reason ph c c' :
  cm_broken c = Some reason -> take_one ph c = Some c' -> refuses reason c c'.
Proof.
  intros Eb. unfold take_one. destruct (cm_queue c) as [|sub q]; [done|].
  intros E. apply (inj Some) in E. subst c'.
  apply (refuses_trans _ c (set_queue q (set_phase ph c))); [by apply refuses_same|].
  by apply refuses_handle.
Qed.

Lemma refuses_drain reason q c :
  cm_broken c = Some reason -> refuses reason c (drain_queue q c).
Proof.
  revert c. induction q as [|sub q IH]; intros c Eb; cbn [drain_queue]; [by apply refuses_same|].
  assert (refuses reason c (handle_submission sub (set_queue q c))) as H'.
  { apply (refuses_trans _ c (set_queue q c)); [by apply refuses_same|by apply refuses_handle]. }
  destruct (cm_phase (handle_submission sub (set_queue q c))); try done;
    (eapply refuses_trans; [exact H'|apply IH, H']).
Qed.

Lemma refuses_flush reason io c :
  cm_broken c = Some reason -> refuses reason c (flush_and_ack io c).
Proof.
  intros Eb. unfold flush_and_ack. destruct (cm_pending c) as [|p ps]; [by apply refuses_same|].
  rewrite Eb. split; cm_simpl; [done..|]. eexists. split; [done|].
  apply Forall_forall. intros a (x & -> & _)%list_elem_of_fmap. done.
Qed.

Lemma refuses_event reason ev c c' :
  cm_broken c = Some reason -> committer_event ev c = Some c' -> refuses reason c c'.
Proof.
  intros Eb. unfold committer_event. destruct ev, (cm_phase c); try done.
  - destruct (cm_shutdown c); [|by apply refuses_take_one].
    destruct (take_one Flushing c) eqn:E; intros [= <-]; [by eapply refuses_take_one|].
    by apply refuses_same.
  - destruct (_ && _); [|done]. intros [= <-]. by apply refuses_same.
  - destruct (_ <=? _)%nat; [done|]. by apply refuses_take_one.
  - destruct (_ || _); [|done]. intros [= <-]. by apply refuses_same.
  - assert (refuses reason c (if cm_shutdown c then drain_queue (cm_queue c) c else c)) as H1
      by (destruct (cm_shutdown c); [by apply refuses_drain|by apply refuses_same]).
    set (c1 := if cm_shutdown c then drain_queue (cm_queue c) c else c) in *.
    pose proof (refuses_trans _ _ _ _ H1 (refuses_flush reason io c1 (rf_broken _ _ _ H1))) as H2.
    destruct (cm_phase c1); intros [= <-]; try done;
      (eapply refuses_trans; [exact H2|]; destruct (_ && _); apply refuses_same; try done; apply H2).
Qed.

(** Errors are sticky: once a flush has failed, whatever happens next, the
    committer stays broken for the same reason, never writes to the segment
    again, and answers every later acknowledgement with that error. *)
Theorem commit_broken_sticky reason c c' :
  cm_broken c = Some reason -> rtc cm_step c c' ->
  cm_broken c' = Some reason /\ cm_segment c' = cm_segment c
  /\ exists extra, cm_acks c' = cm_acks c ++ extra
     /\ Forall (fun a => snd a = Err (WalBroken reason)) extra.
Proof.
  intros Eb Hr. assert (refuses reason c c') as [H1 H2 H3]; [|done].
  induction Hr as [c|c c1 c' Hs _ IH]; [by apply refuses_same|].
  assert (refuses reason c c1) as H1.
  { destruct Hs as [c r c1 id E|c|ev c c1 E].
    - unfold append in E. destruct (_ || _); [done|]. apply Ok_inj in E. simplify_eq.
      by apply refuses_same.
    - by apply refuses_same.
    - by eapply refuses_event. }
  eapply refuses_trans; [exact H1|apply IH, H1].
Qed.
End commit_contract.

(** ** Two appends, one batch, then a failing disk *)

Module CommitExample.
Import Castagnoli.
Definition uuid : bytes := replicate 16 Byte.x11.
Definition rec (lsn : Z) : WalRecord :=
  {| wr_lsn := lsn; wr_kind := KForget; wr_flags := 0; wr_timestamp_ns := 1700;
     wr_space_id_lo64 := 42; wr_payload := [Byte.x01; Byte.x02] |}.
Definition hdr : bytes := segment_header_bytes (segment_header 0 1 uuid 1700).
Definition seg0 : WalSegment :=
  open_for_append {| sf_cache := hdr; sf_durable := hdr |} uuid 0 1 0.
(** Two frames are 84 bytes. *)
Definition io_ok : FlushIo := {| io_write := Wrote 84; io_sync := Ok tt |}.
Definition io_bad : FlushIo := {| io_write := Wrote 84; io_sync := Err 5 |}.

Lemma seg0_holds : seg_holds seg0 hdr [] [].
Proof. split; vm_compute; reflexivity. Qed.

Definition submit (r : WalRecord) (c : Committer) : Committer :=
  match GroupCommit.append c r with Ok (c, _) => c | Err _ => c end.
Definition event (ev : CommitEvent) (c : Committer) : Committer :=
  match committer_event ev c with Some c => c | None => c end.

Lemma submit_steps r c : rtc cm_step c (submit r c).
Proof.
  unfold submit. destruct (GroupCommit.append c r) as [[c' id]|] eqn:E; [|apply rtc_refl].
  apply rtc_once. by eapply cm_append.
Qed.
Lemma event_steps ev c : rtc cm_step c (event ev c).
Proof.
  unfold event. destruct (committer_event ev c) eqn:E; [|apply rtc_refl].
  apply rtc_once. by eapply cm_event.
Qed.

Definition queued : Committer := submit (rec 2) (submit (rec 1) (start seg0 GroupCommitConfig_default)).
Definition batch (io : FlushIo) : Committer :=
  event (EvFlush io) (event EvGatherEnd (event EvGather (event EvReceive queued))).

Lemma queued_reachable : rtc cm_step (start seg0 GroupCommitConfig_default) queued.
Proof. etrans; apply submit_steps. Qed.

Lemma batch_reachable io : rtc cm_step (start seg0 GroupCommitConfig_default) (batch io).
Proof.
  etrans; [apply queued_reachable|]. unfold batch.
  etrans; [apply event_steps|]. etrans; [apply event_steps|].
  etrans; apply event_steps.
Qed.

Lemma commit_acks_durable_witness :
  cm_acks (batch io_ok) = [(0%nat, Ok 1); (1%nat, Ok 2)]
  /\ exists done rest, cm_submitted (batch io_ok) = done ++ rest /\ done !! 1%nat = Some (rec 2).
Proof.
  split; [vm_compute; reflexivity|].
  destruct (commit_acks_durable seg0 GroupCommitConfig_default hdr [] (batch io_ok) seg0_holds
    (batch_reachable io_ok)) as (done & rest & E & Ha & _).
  exists done, rest. split; [exact E|].
  destruct (Ha 1%nat 2) as (r & Hr & _).
  - vm_compute. right. left.
  - assert (cm_submitted (batch io_ok) = [rec 1; rec 2]) as E2 by (vm_compute; reflexivity).
    rewrite E2 in E. pose proof (lookup_app_l_Some done rest 1 r Hr) as Hl. rewrite <- E in Hl.
    by rewrite Hr, <- Hl.
Defined.

Lemma commit_shutdown_drains_witness :
  exists c' seg, shutdown 12 (fun _ => io_ok) queued = Some (c', Ok seg)
    /\ map fst (cm_acks c') = [0%nat; 1%nat].
Proof.
  destruct (commit_shutdown_drains seg0 GroupCommitConfig_default hdr [] queued (fun _ => io_ok)
    seg0_holds queued_reachable) as (c' & seg & E & _ & Ha & _).
  - repeat constructor; vm_compute; discriminate.
  - vm_compute. discriminate.
  - exists c', seg. split; [apply E; vm_compute; lia|exact Ha].
Defined.

Lemma commit_broken_sticky_witness :
  cm_acks (batch io_bad) = [(0%nat, Err (WalBroken (FlushFailed (SegIo 5))));
                            (1%nat, Err (WalBroken (FlushFailed (SegIo 5))))]
  /\ cm_broken (submit (rec 3) (batch io_bad)) = Some (FlushFailed (SegIo 5)).
Proof.
  split; [vm_compute; reflexivity|].
  refine (proj1 (commit_broken_sticky _ (batch io_bad) _ _ (submit_steps (rec 3) _))).
  vm_compute; reflexivity.
Defined.
End CommitExample.
