(* ===== verification/Wal.v ===== *)
(** The per-shard WAL handle ([brain-storage/src/wal/wal.rs]): assigns LSNs,
    owns the active segment through its committer, and rolls over to a new
    segment when the active one is full.

    [files] is the log directory apart from the file of the active segment,
    which a committer owns; [disk] is the whole directory.  An operation that
    waits is split at its waits: [try_append] is the critical section of
    [append], [enqueue_batch] the one of [append_many]; [rollover_begin] runs
    under the permit up to the shutdown of the old committer, which then sits
    in [draining], and [rollover_finish] from there on.  [Call] is one caller
    of [append] or [append_many] between two waits, [call_step] its next
    stretch.  [CreateIo] and [TruncateIo] are what the system calls answer. *)

From S2P Require Import Prelude Crc32c Ids WalKinds WalRecord WalSegment WalReader GroupCommit.

Module Wal.

Record WalConfig := { group_commit : GroupCommitConfig; max_segment_bytes : nat }.

Inductive SegmentState :=
| Open (committer : Committer) (bytes_in_segment : nat)
| RollingOver.

Abbreviation Files := (list (bytes * SegFile)).

(** Who waits for the committer that was taken out of the slot. *)
Inductive DrainFor := ForRollover (new_starting_lsn : Z) | ForShutdown.

Record Wal := {
  files : Files;
  shard_uuid : bytes;
  next_lsn : Z;
  active_seq : Z;
  segment : SegmentState;
  config : WalConfig;
  draining : option (DrainFor * Committer);
  retired : list (Z * Committer);   (* ended tasks: their acknowledgements stay readable *)
}.

Inductive WalError :=
| DirectoryNotEmpty
| NoSegmentsFound
| RecoveredOffsetOutOfRange (offset header file_size : Z)
| RecordExceedsSegmentLimit (record_bytes segment_max : nat)
| Segment (e : WalSegmentError)
| Commit (e : CommitError)
| Read (e : WalReadError)
| Io (errno : Z).

(** What the kernel answers while a segment is closed, the next one created
    and the directory synced. *)
Record CreateIo := { cr_close : result unit Z; cr_io : FlushIo; cr_now : Z; cr_fsync_dir : result unit Z }.

(** The same while a segment is cut to length and reopened. *)
Record TruncateIo := { tr_set_len : result unit Z; tr_sync : result unit Z; tr_open : result unit Z }.

Definition file_at (name : bytes) (fs : Files) : option SegFile :=
  match list_find (fun e => e.1 = name) fs with Some (_, e) => Some e.2 | None => None end.

(** Every committer, by the number of its segment. *)
Definition committers (w : Wal) : list (Z * Committer) :=
  match segment w with Open c _ => [(active_seq w, c)] | RollingOver => [] end
  ++ match draining w with Some (_, c) => [(active_seq w, c)] | None => [] end
  ++ retired w.

(** The directory, the active segment included. *)
Definition disk (w : Wal) : Files :=
  files w
  ++ match segment w with
     | Open c _ => [(segment_path (active_seq w), seg_file (cm_segment c))] | RollingOver => [] end
  ++ match draining w with
     | Some (_, c) => [(segment_path (active_seq w), seg_file (cm_segment c))] | None => [] end.

(** An [AppendHandle]: the acknowledgement channel of one submission. *)
Abbreviation Handle := (Z * AckId)%type (only parsing).

Definition committer_at (w : Wal) (seq : Z) : option Committer :=
  (fun e => e.2.2) <$> list_find (fun e => e.1 = seq) (committers w).

Definition wait_handle (w : Wal) (h : Handle) : option AckMessage :=
  c ← committer_at w h.1; wait c h.2.

(** Replace what a rollover or a shutdown changes. *)
Definition set_slot (fs : Files) (seq : Z) (s : SegmentState) (d : option (DrainFor * Committer))
    (ret : list (Z * Committer)) (w : Wal) : Wal :=
  {| files := fs; shard_uuid := shard_uuid w; next_lsn := next_lsn w; active_seq := seq;
     segment := s; config := config w; draining := d; retired := ret |}.

Section wal.
Context `{Crc32c}.

(** [create_with_config] in the directory [fs]. *)
Definition create_with_config (fs : Files) (uuid : bytes) (cfg : WalConfig) (cr : CreateIo)
  : Files * result Wal WalError :=
  if existsb (fun e => bool_decide (extension e.1 = Some (drop 1 DOT_WAL))) fs
  then (fs, Err DirectoryNotEmpty) else
  let path := segment_path 0 in
  match create_new (file_at path fs) (cr_io cr) (cr_now cr) 0 1 uuid with
  | (f, Err e) => (fs ++ from_option (fun f => [(path, f)]) [] f, Err (Segment e))
  | (_, Ok seg) =>
    match cr_fsync_dir cr with
    | Err e => (fs ++ [(path, seg_file seg)], Err (Io e))
    | Ok _ =>
      (fs, Ok {| files := fs; shard_uuid := uuid; next_lsn := 1; active_seq := 0;
                 segment := Open (start seg (group_commit cfg)) 0; config := cfg;
                 draining := None; retired := [] |})
    end
  end.

Definition current_tail_lsn (w : Wal) : Z := next_lsn w.

Inductive Action := Enqueued (lsn : Z) (handle : Handle) | Rollover (observed_seq : Z).

(** The critical section of [append]: check the size, then assign the LSN and
    enqueue, or ask for a rollover. *)
Definition try_append (w : Wal) (record : WalRecord) : result (Wal * Action) WalError :=
  let record_bytes := encoded_len record in
  let max := max_segment_bytes (config w) in
  let capacity := (max - WAL_SEGMENT_HEADER_LEN)%nat in
  if (capacity <? record_bytes)%nat then Err (RecordExceedsSegmentLimit record_bytes max) else
  match segment w with
  | RollingOver => Ok (w, Rollover (active_seq w))
  | Open committer n =>
    let projected := (WAL_SEGMENT_HEADER_LEN + n + record_bytes)%nat in
    if (max <? projected)%nat then Ok (w, Rollover (active_seq w)) else
    let lsn := next_lsn w in
    match append committer (set_lsn lsn record) with
    | Err e => Err (Commit e)
    | Ok (committer, id) =>
      Ok ({| files := files w; shard_uuid := shard_uuid w; next_lsn := wrap 64 (lsn + 1);
             active_seq := active_seq w; segment := Open committer (n + record_bytes);
             config := config w; draining := draining w; retired := retired w |},
          Enqueued lsn (active_seq w, id))
    end
  end.

(** The two critical sections of [append_many] for every record that still
    fits, with no wait between them. *)
Inductive BatchStop := BatchDone | BatchRollover (observed_seq : Z) | BatchFailed (e : WalError).

Fixpoint enqueue_batch (w : Wal) (todo : list WalRecord) (handles : list Handle) (assigned : list Z)
  : Wal * list WalRecord * list Handle * list Z * BatchStop :=
  match todo with
  | [] => (w, [], handles, assigned, BatchDone)
  | record :: rest =>
    match try_append w record with
    | Err e => (w, todo, handles, assigned, BatchFailed e)
    | Ok (w, Rollover observed_seq) => (w, todo, handles, assigned, BatchRollover observed_seq)
    | Ok (w, Enqueued lsn h) => enqueue_batch w rest (handles ++ [h]) (assigned ++ [lsn])
    end
  end.

(** [rollover] from the acquisition of the permit (steps 1, 2, 3a): [None]
    while another task holds the permit; [Ok false] when that one has rolled
    the segment already. *)
Definition rollover_begin (w : Wal) (observed_seq : Z) : option (Wal * result bool WalError) :=
  match draining w with
  | Some (ForRollover _, _) => None
  | _ =>
    if negb (active_seq w =? observed_seq) then Some (w, Ok false) else
    match segment w with
    | RollingOver => Some (w, Err (Commit (WalBroken RolloverFailed)))
    | Open old_committer _ =>
      Some (set_slot (files w) (active_seq w) RollingOver
              (Some (ForRollover (next_lsn w), close old_committer)) (retired w) w, Ok true)
    end
  end.

(** [rollover] from the end of the old committer (steps 3b, 3c, 3d); [None]
    while its task runs. *)
Definition rollover_finish (cr : CreateIo) (w : Wal) : option (Wal * result unit WalError) :=
  match draining w with
  | Some (ForRollover new_starting_lsn, c) =>
    if task_alive c then None else
    let new_seq := wrap 64 (active_seq w + 1) in
    let fs := files w ++ [(segment_path (active_seq w), seg_file (cm_segment c))] in
    let ret := (active_seq w, c) :: retired w in
    let failed fs e := Some (set_slot fs (active_seq w) RollingOver None ret w, Err e) in
    match cm_phase c with
    | Finished =>
      match cr_close cr with
      | Err e => failed fs (Segment (SegIo e))
      | Ok _ =>
        let path := segment_path new_seq in
        match create_new (file_at path fs) (cr_io cr) (cr_now cr) new_seq new_starting_lsn
                (shard_uuid w) with
        | (f, Err e) =>
          failed (match file_at path fs with
                  | Some _ => fs
                  | None => fs ++ from_option (fun f => [(path, f)]) [] f
                  end) (Segment e)
        | (_, Ok seg) =>
          match cr_fsync_dir cr with
          | Err e => failed (fs ++ [(path, seg_file seg)]) (Io e)
          | Ok _ =>
            Some (set_slot fs new_seq (Open (start seg (group_commit (config w))) 0) None ret w, Ok tt)
          end
        end
      end
    | _ => failed fs (Commit (WalBroken NoCompletion))
    end
  | _ => None
  end.

(** [shutdown_in_place], up to its wait and from there on. *)
Definition shutdown_begin (w : Wal) : Wal :=
  match segment w with
  | RollingOver => w
  | Open committer _ =>
    set_slot (files w) (active_seq w) RollingOver (Some (ForShutdown, close committer)) (retired w) w
  end.

Definition shutdown_finish (close_io : result unit Z) (w : Wal) : option (Wal * result unit WalError) :=
  match draining w with
  | Some (ForShutdown, c) =>
    if task_alive c then None else
    Some (set_slot (files w ++ [(segment_path (active_seq w), seg_file (cm_segment c))])
            (active_seq w) RollingOver None ((active_seq w, c) :: retired w) w,
          match cm_phase c, close_io with
          | Finished, Ok _ => Ok tt
          | Finished, Err e => Err (Segment (SegIo e))
          | _, _ => Err (Commit (WalBroken NoCompletion))
          end)
  | _ => None
  end.

(** A committer task runs. *)
Definition task_event (ev : CommitEvent) (w : Wal) : option Wal :=
  match segment w, draining w with
  | Open c n, _ =>
    c ← committer_event ev c;
    Some (set_slot (files w) (active_seq w) (Open c n) (draining w) (retired w) w)
  | RollingOver, Some (why, c) =>
    c ← committer_event ev c;
    Some (set_slot (files w) (active_seq w) RollingOver (Some (why, c)) (retired w) w)
  | RollingOver, None => None
  end.

(** ** A caller *)

Inductive Pc :=
| PcEnqueue
| PcDrain (observed_seq : Z)     (* wait for the handles of the full segment *)
| PcPermit (observed_seq : Z)    (* [acquire_permit] *)
| PcRolling                      (* holding it, [old_committer.shutdown().await] *)
| PcAwait                        (* wait for the remaining handles *)
| PcReturned (r : result (list Z) WalError).

Record Call := {
  ca_todo : list WalRecord;
  ca_handles : list Handle;
  ca_assigned : list Z;
  ca_pc : Pc;
}.

(** [append_many(records)]; [append(record)] is the call with one record. *)
Definition append_many (records : list WalRecord) : Call :=
  {| ca_todo := records; ca_handles := []; ca_assigned := []; ca_pc := PcEnqueue |}.

Definition at_pc (pc : Pc) (k : Call) : Call :=
  {| ca_todo := ca_todo k; ca_handles := ca_handles k; ca_assigned := ca_assigned k; ca_pc := pc |}.

(** Wait for the first handle, then go on; past the last one, at [pc]. *)
Definition await_handle (w : Wal) (pc : Pc) (k : Call) : option Call :=
  match ca_handles k with
  | [] => Some (at_pc pc k)
  | h :: hs =>
    m ← wait_handle w h;
    Some (match m with
          | Ok _ => {| ca_todo := ca_todo k; ca_handles := hs; ca_assigned := ca_assigned k;
                       ca_pc := ca_pc k |}
          | Err e => at_pc (PcReturned (Err (Commit e))) k
          end)
  end.

(** The next stretch of a call; [None] while it waits or has returned. *)
Definition call_step (cr : CreateIo) (w : Wal) (k : Call) : option (Wal * Call) :=
  match ca_pc k with
  | PcEnqueue =>
    let '(w, todo, handles, assigned, stop) :=
      enqueue_batch w (ca_todo k) (ca_handles k) (ca_assigned k) in
    Some (w, {| ca_todo := todo; ca_handles := handles; ca_assigned := assigned;
                ca_pc := match stop with
                         | BatchDone => PcAwait
                         | BatchRollover observed_seq => PcDrain observed_seq
                         | BatchFailed e => PcReturned (Err e)
                         end |})
  | PcDrain observed_seq => k ← await_handle w (PcPermit observed_seq) k; Some (w, k)
  | PcPermit observed_seq =>
    '(w, r) ← rollover_begin w observed_seq;
    Some (w, at_pc (match r with
                    | Ok true => PcRolling
                    | Ok false => PcEnqueue
                    | Err e => PcReturned (Err e)
                    end) k)
  | PcRolling =>
    '(w, r) ← rollover_finish cr w;
    Some (w, at_pc (match r with Ok _ => PcEnqueue | Err e => PcReturned (Err e) end) k)
  | PcAwait => k ← await_handle w (PcReturned (Ok (ca_assigned k))) k; Some (w, k)
  | PcReturned _ => None
  end.

(** What a reader sees. *)
Definition visible (fs : Files) : Dir := map (fun e => (e.1, sf_cache e.2)) fs.

Definition oldest_available_lsn (w : Wal) : result Z WalError :=
  let? r := map_err Read (open (visible (disk w)) (shard_uuid w)) in
  Ok (match segments r with s :: _ => si_starting_lsn s | [] => next_lsn w end).

(** Update the file at [name]. *)
Definition alter_file (name : bytes) (f : SegFile -> SegFile) (fs : Files) : Files :=
  map (fun e => if bool_decide (e.1 = name) then (e.1, f e.2) else e) fs.
Definition remove_file (name : bytes) (fs : Files) : Files :=
  filter (fun e => e.1 <> name) fs.

(** [set_len] to a shorter length, and with a [sync_all] after it. *)
Definition cut (n : nat) (f : SegFile) : SegFile :=
  {| sf_cache := take n (sf_cache f); sf_durable := sf_durable f |}.
Definition truncate (n : nat) (f : SegFile) : SegFile :=
  {| sf_cache := take n (sf_cache f); sf_durable := take n (sf_cache f) |}.

(** [open_existing] in the directory [fs]. *)
Definition open_existing (fs : Files) (uuid : bytes) (resume_lsn : Z) (recovered_tail_offset : nat)
    (cfg : WalConfig) (tr : TruncateIo) : Files * result Wal WalError :=
  match open (visible fs) uuid with
  | Err e => (fs, Err (Read e))
  | Ok reader =>
    match last (segments reader) with
    | None => (fs, Err NoSegmentsFound)
    | Some info =>
      let path := segment_path (si_segment_seq info) in
      let file_size := si_file_size info in
      if (recovered_tail_offset <? WAL_SEGMENT_HEADER_LEN)%nat
         || (file_size <? Z.of_nat recovered_tail_offset)
      then (fs, Err (RecoveredOffsetOutOfRange (Z.of_nat recovered_tail_offset)
                       (Z.of_nat WAL_SEGMENT_HEADER_LEN) file_size))
      else
        let shorter := Z.of_nat recovered_tail_offset <? file_size in
        match (if shorter then tr_set_len tr else Ok tt) with
        | Err e => (fs, Err (Io e))
        | Ok _ =>
          match (if shorter then tr_sync tr else Ok tt) with
          | Err e => (alter_file path (cut recovered_tail_offset) fs, Err (Io e))
          | Ok _ =>
            let fs := if shorter then alter_file path (truncate recovered_tail_offset) fs else fs in
            match tr_open tr, file_at path fs with
            | Err e, _ => (fs, Err (Segment (SegIo e)))
            | Ok _, None => (fs, Err (Segment (SegIo 2)))
            | Ok _, Some f =>
              let on_disk := (recovered_tail_offset - WAL_SEGMENT_HEADER_LEN)%nat in
              let seg := open_for_append f uuid (si_segment_seq info) (si_starting_lsn info) on_disk in
              (fs, Ok {| files := remove_file path fs; shard_uuid := uuid; next_lsn := resume_lsn;
                         active_seq := si_segment_seq info;
                         segment := Open (start seg (group_commit cfg)) on_disk; config := cfg;
                         draining := None; retired := [] |})
            end
          end
        end
    end
  end.
End wal.

End Wal.
