(* ===== verification/WalDisk.v ===== *)
(** What the writer's segments look like to the reader.

    [SegDesc] describes a segment file, and [layout] a directory of
    consecutively numbered ones.  [open_layout] opens such a directory and
    [read_layout] reads the records in them: the two facts that connect the
    writer ([WalSegment], [Wal]) with the reader ([WalReader]). *)

From stdpp Require Import sorting.
From S2P Require Import Prelude Crc32c Ids WalKinds WalRecord WalSegment WalReader WalReaderSpec.
From S2P Require Import WalReaderOpen.

(** A segment file: its numbers, the records in it and what follows them. *)
Record SegDesc := {
  sd_seq : Z; sd_lsn : Z; sd_now : Z; sd_recs : list WalRecord; sd_tail : bytes
}.

Section disk.
Context `{CRC : Crc32c} `{!Crc32cLaws CRC}.
Context (uuid : bytes).

Definition header_of (seq lsn now : Z) : bytes :=
  segment_header_bytes (segment_header seq lsn uuid now).

Definition sd_bytes (d : SegDesc) : bytes := header_of (sd_seq d) (sd_lsn d) (sd_now d) ++ frames (sd_recs d) ++ sd_tail d.
Definition sd_entry (d : SegDesc) : bytes * bytes := (segment_path (sd_seq d), sd_bytes d).
Definition sd_info (d : SegDesc) : SegmentInfo :=
  {| si_path := segment_path (sd_seq d); si_segment_seq := sd_seq d; si_starting_lsn := sd_lsn d;
     si_file_size := Z.of_nat (length (sd_bytes d)) |}.

Record sd_ok (d : SegDesc) : Prop := {
  so_seq : 0 <= sd_seq d < 10 ^ 10;
  so_lsn : u64 (sd_lsn d);
  so_now : u64 (sd_now d);
  so_wf : Forall WalRecord_wf (sd_recs d);
  so_lsns : lsns_ok (sd_lsn d) (sd_recs d);
}.

Lemma length_segment_header_bytes seq lsn now c :
  length uuid = 16%nat ->
  length (segment_header_bytes {| sh_magic := WAL_SEGMENT_MAGIC;
    sh_format_version := WAL_SEGMENT_FORMAT_VERSION_V1; sh_shard_uuid := uuid;
    sh_segment_seq := seq; sh_starting_lsn := lsn; sh_created_at_unix_nanos := now;
    sh_header_crc32c := c; sh_reserved := replicate 4044 Byte.x00 |}) = WAL_SEGMENT_HEADER_LEN.
Proof.
  intros Hu. apply Nat2Z.inj. rewrite WAL_SEGMENT_HEADER_LEN_Z. unfold segment_header_bytes.
  cbn [sh_magic sh_format_version sh_shard_uuid sh_segment_seq sh_starting_lsn
       sh_created_at_unix_nanos sh_header_crc32c sh_reserved].
  rewrite !length_app, !length_le_split, length_replicate, Hu. reflexivity.
Qed.

Lemma length_header_of seq lsn now :
  length uuid = 16%nat -> length (header_of seq lsn now) = WAL_SEGMENT_HEADER_LEN.
Proof. apply length_segment_header_bytes. Qed.

(** The header as its covered part, its CRC and its padding. *)
Definition covered (seq lsn now : Z) : bytes :=
  WAL_SEGMENT_MAGIC ++ to_le_bytes 4 WAL_SEGMENT_FORMAT_VERSION_V1 ++ uuid
  ++ to_le_bytes 8 seq ++ to_le_bytes 8 lsn ++ to_le_bytes 8 now.

Lemma covered_crc seq lsn now :
  length uuid = 16%nat ->
  header_of seq lsn now
  = covered seq lsn now ++ to_le_bytes 4 (crc32c (covered seq lsn now)) ++ replicate 4044 Byte.x00.
Proof.
  intros Hu. unfold header_of, segment_header, compute_segment_header_crc, segment_header_bytes,
    WAL_SEGMENT_HEADER_CRC_COVERAGE_END.
  cbn [sh_magic sh_format_version sh_shard_uuid sh_segment_seq sh_starting_lsn
       sh_created_at_unix_nanos sh_header_crc32c sh_reserved].
  generalize (replicate 4044 Byte.x00). intros zeros.
  assert (forall rest, slice 0 48 (covered seq lsn now ++ rest) = covered seq lsn now) as Hs.
  { intros rest. apply slice_head; [done|]. unfold covered.
    rewrite !length_app, !length_le_split, Hu. reflexivity. }
  specialize (Hs (to_le_bytes 4 0 ++ zeros)). unfold covered in *. rewrite <- !app_assoc in *.
  by rewrite Hs.
Qed.

(** The reader accepts the writer's header. *)
Lemma header_accepted d :
  length uuid = 16%nat -> sd_ok d ->
  read_and_validate_segment_header (segment_path (sd_seq d)) (sd_bytes d) uuid (sd_seq d)
  = Ok (sd_info d).
Proof using Crc32cLaws0.
  intros Hu [Hs Hl Hn _ _]. pose proof (length_header_of (sd_seq d) (sd_lsn d) (sd_now d) Hu) as Hlen.
  unfold read_and_validate_segment_header. rewrite (proj2 (Z.ltb_ge _ _)).
  2: { unfold sd_bytes. rewrite length_app, Hlen. lia. }
  assert (take WAL_SEGMENT_HEADER_LEN (sd_bytes d) = header_of (sd_seq d) (sd_lsn d) (sd_now d)) as ->
    by (unfold sd_bytes; by rewrite take_app_length').
  clear Hlen. rewrite covered_crc by done. generalize (replicate 4044 Byte.x00). intros zeros.
  assert (u64 (sd_seq d)) as Hs64 by (unfold uint; lia).
  unfold sd_info. generalize (Z.of_nat (length (sd_bytes d))). intros size.
  assert (slice 0 WAL_SEGMENT_HEADER_CRC_COVERAGE_END
    (covered (sd_seq d) (sd_lsn d) (sd_now d)
     ++ to_le_bytes 4 (crc32c (covered (sd_seq d) (sd_lsn d) (sd_now d))) ++ zeros)
    = covered (sd_seq d) (sd_lsn d) (sd_now d)) as ->.
  { apply slice_head; [done|]. unfold covered. rewrite !length_app, !length_le_split, Hu. reflexivity. }
  pose proof (crc32c_u32 (covered (sd_seq d) (sd_lsn d) (sd_now d))) as Hc.
  revert Hc. generalize (crc32c (covered (sd_seq d) (sd_lsn d) (sd_now d))). intros crc Hc.
  unfold covered. rewrite <- !app_assoc.
  assert (length WAL_SEGMENT_MAGIC = 4%nat) as Hm by reflexivity.
  revert Hm. generalize WAL_SEGMENT_MAGIC. intros magic Hm. slices.
  rewrite (bool_decide_eq_true_2 _ eq_refl), !(from_to_le 4), !(from_to_le 8) by (done || unfold uint; lia).
  cbn [negb]. rewrite !Z.eqb_refl. cbn [negb]. by rewrite (bool_decide_eq_true_2 _ eq_refl).
Qed.

(** Consecutive segments from number [seq] and LSN [lsn]. *)
Fixpoint layout (seq lsn : Z) (ds : list SegDesc) : Prop :=
  match ds with
  | [] => True
  | d :: ds => sd_ok d /\ sd_seq d = seq /\ sd_lsn d = lsn
               /\ layout (seq + 1) (lsn_after lsn (sd_recs d)) ds
  end.

Definition layout_recs (ds : list SegDesc) : list WalRecord := ds ≫= sd_recs.
Definition clean (d : SegDesc) : Prop := sd_tail d = [].

Lemma layout_recs_app a b : layout_recs (a ++ b) = layout_recs a ++ layout_recs b.
Proof. apply bind_app. Qed.

Lemma layout_app seq lsn a b :
  layout seq lsn (a ++ b)
  <-> layout seq lsn a /\ layout (seq + Z.of_nat (length a)) (lsn_after lsn (layout_recs a)) b.
Proof.
  revert seq lsn. induction a as [|d a IH]; intros seq lsn; cbn [app layout length].
  - cbn. rewrite Z.add_0_r. tauto.
  - rewrite IH. unfold layout_recs at 2. cbn [mbind list_bind]. rewrite lsn_after_app.
    replace (seq + 1 + Z.of_nat (length a)) with (seq + Z.of_nat (S (length a))) by lia.
    unfold layout_recs. tauto.
Qed.

Lemma layout_ok seq lsn ds : layout seq lsn ds -> Forall sd_ok ds.
Proof. revert seq lsn. induction ds; intros seq lsn; [done|]. intros (H & _ & _ & Hl). eauto. Qed.

Lemma layout_seq seq lsn ds i d :
  layout seq lsn ds -> ds !! i = Some d -> sd_seq d = seq + Z.of_nat i.
Proof.
  revert seq lsn i. induction ds as [|d0 ds IH]; intros seq lsn [|i]; cbn [layout lookup list_lookup]; [done..| |].
  - intros (_ & <- & _) [= ->]. lia.
  - intros (_ & _ & _ & Hl) Hi. rewrite (IH _ _ _ Hl Hi). lia.
Qed.

Lemma layout_lsns seq lsn ds :
  layout seq lsn ds -> lsns_ok lsn (layout_recs ds) /\ Forall WalRecord_wf (layout_recs ds).
Proof.
  revert seq lsn. induction ds as [|d ds IH]; intros seq lsn; [done|].
  cbn [layout]. intros (Hd & _ & <- & Hl). destruct (IH _ _ Hl) as [H1 H2].
  unfold layout_recs; cbn [mbind list_bind]. rewrite lsns_ok_app, Forall_app.
  split; split; try apply Hd; done.
Qed.

(** ** Opening a layout *)

Definition not_wal (e : bytes * bytes) : Prop := extension e.1 <> Some (drop 1 DOT_WAL).

(** The directories that hold the segments [ds], and other files. *)
Record holds (dir : Dir) (ds : list SegDesc) : Prop := {
  ho_entries : exists others, Forall not_wal others /\ dir ≡ₚ map sd_entry ds ++ others;
  ho_names : NoDup (map fst dir);
}.

Definition reader_of (ds : list SegDesc) : WalReader :=
  {| segments := map sd_info ds; current_idx := 0; current := None;
     expected_next_lsn := match ds with d :: _ => sd_lsn d | [] => 1 end;
     last_decoded_lsn := None; last_record_end_offset := None; last_record_segment_seq := None;
     finished := match ds with [] => true | _ => false end |}.

Lemma scan_layout ds others :
  length uuid = 16%nat -> Forall sd_ok ds -> Forall not_wal others ->
  scan_dir (map sd_entry ds ++ others) uuid = Ok (map sd_info ds).
Proof using Crc32cLaws0.
  intros Hu Hok Ho. induction Hok as [|d ds Hd Hok IH]; cbn [map app scan_dir].
  - induction Ho as [|[name c] others Hn Ho IH]; [done|]. cbn [scan_dir].
    by rewrite bool_decide_false.
  - unfold sd_entry at 1. destruct (segment_path_parse (sd_seq d) (so_seq d Hd)) as [-> ->].
    rewrite bool_decide_true by done. cbn [negb]. by rewrite (header_accepted d Hu Hd), IH.
Qed.

Lemma layout_consecutive seq lsn ds : layout seq lsn ds -> consecutive (map sd_info ds).
Proof.
  intros Hl i a b. rewrite !list_lookup_fmap.
  destruct (ds !! i) as [x|] eqn:Ex; [|done]. destruct (ds !! S i) as [y|] eqn:Ey; [|done].
  intros [= <-] [= <-]. cbn.
  rewrite (layout_seq _ _ _ _ _ Hl Ex), (layout_seq _ _ _ _ _ Hl Ey). lia.
Qed.

Lemma open_layout seq lsn ds dir :
  length uuid = 16%nat -> layout seq lsn ds -> holds dir ds -> open dir uuid = Ok (reader_of ds).
Proof using Crc32cLaws0.
  intros Hu Hl [(others & Ho & Hp) _]. symmetry in Hp. apply (open_perm _ _ _ _ Hp).
  pose proof (layout_consecutive _ _ _ Hl) as Hc.
  unfold open. rewrite (scan_layout ds others Hu (layout_ok _ _ _ Hl) Ho).
  rewrite (merge_sort_consecutive (map sd_info ds) _ Hc) by done.
  assert (Forall (fun i => 0 <= si_segment_seq i < 10 ^ 10) (map sd_info ds)) as Hr.
  { apply Forall_fmap, (Forall_impl sd_ok); [by eapply layout_ok|]. intros d Hd. apply Hd. }
  rewrite (proj2 (check_contiguous_spec _ Hr) Hc). by destruct ds.
Qed.

(** ** Reading a layout *)

Lemma find_unique {A} (l : list (bytes * A)) name x :
  NoDup (map fst l) -> (name, x) ∈ l ->
  exists i, list_find (fun e => e.1 = name) l = Some (i, (name, x)).
Proof.
  intros Hn Hin.
  destruct (list_find_elem_of (fun e => e.1 = name) l (name, x) Hin eq_refl) as [[i e] E].
  rewrite E. apply list_find_Some in E as (Hi & He & _). destruct e as [name' x']. cbn in He. subst name'.
  apply list_elem_of_lookup in Hin as [j Hj].
  assert (i = j) as -> by (apply (NoDup_lookup (map fst l) i j name Hn);
    rewrite list_lookup_fmap, ?Hi, ?Hj; done).
  rewrite Hi in Hj. simplify_eq. by exists j.
Qed.

Lemma fs_read_unique dir name c :
  NoDup (map fst dir) -> (name, c) ∈ dir -> fs_read dir name = Some c.
Proof. intros Hn Hin. unfold fs_read. by destruct (find_unique dir name c Hn Hin) as [i ->]. Qed.

Lemma holds_body dir ds d :
  length uuid = 16%nat -> holds dir ds -> d ∈ ds ->
  seg_body dir (sd_info d) = Some (frames (sd_recs d) ++ sd_tail d).
Proof using Crc32cLaws0.
  intros Hu [(others & _ & Hp) Hn] Hd. unfold seg_body. cbn [sd_info si_path].
  rewrite (fs_read_unique dir _ (sd_bytes d) Hn).
  - cbn [fmap option_fmap option_map]. unfold sd_bytes. by rewrite drop_app_length' by (by rewrite length_header_of).
  - rewrite Hp. apply elem_of_app. left. by apply (list_elem_of_fmap_2 sd_entry).
Qed.

(** The reader delivers the records of the segments, then whatever it makes
    of the bytes behind the last of them. *)
Lemma read_layout seq lsn ds d dir :
  length uuid = 16%nat -> layout seq lsn (ds ++ [d]) -> Forall clean ds ->
  (forall x, x ∈ ds ++ [d] -> seg_body dir (sd_info x) = Some (frames (sd_recs x) ++ sd_tail x)) ->
  exists more e, read_segments dir (map sd_info (ds ++ [d])) lsn
      = (log_items (map (fun d => (sd_info d, sd_recs d)) (ds ++ [d])) ++ more, e)
    /\ (sd_tail d = [] -> more = [] /\ e = None).
Proof using Crc32cLaws0.
  intros Hu. revert seq lsn. induction ds as [|d0 ds IH]; intros seq lsn Hl Hc Hb.
  - cbn [app] in *. destruct Hl as (Hok & _ & El & _). subst lsn. cbn [map].
    rewrite (read_segments_body _ (sd_info d) _ (sd_lsn d) _ eq_refl (Hb d (list_elem_of_here d []))).
    rewrite parse_frames by apply Hok. cbn [length].
    change (log_items [(sd_info d, sd_recs d)])
      with (places (si_segment_seq (sd_info d)) WAL_SEGMENT_HEADER_LEN (sd_recs d) ++ []).
    rewrite app_nil_r.
    destruct (sd_tail d) as [|c tl] eqn:Et.
    + exists [], None. split; [|done]. rewrite parse_nil. cbn. by rewrite !app_nil_r.
    + destruct (parse _ _ _ (c :: tl)) as [[its l'] stop]. cbn [continue_with].
      destruct stop; cbn [read_segments]; eexists _, _; split; try done. by rewrite app_nil_r.
  - cbn [app] in Hl. destruct Hl as (Hok & _ & El & Hl). subst lsn.
    apply Forall_cons in Hc as [Hc0 Hc].
    destruct (IH _ _ Hl Hc) as (more & e & Er & Ht).
    { intros x Hx. apply Hb. by right. }
    exists more, e. split; [|done]. cbn [app map].
    rewrite (read_segments_body _ (sd_info d0) _ (sd_lsn d0) _ eq_refl (Hb d0 (list_elem_of_here d0 _))), Hc0.
    rewrite parse_frames by apply Hok. rewrite parse_nil, app_nil_r. cbn [continue_with].
    rewrite Er. unfold log_items; cbn [mbind list_bind fst snd]. by rewrite app_assoc.
Qed.

Lemma layout_items ds :
  map it_rec (log_items (map (fun d => (sd_info d, sd_recs d)) ds)) = layout_recs ds.
Proof.
  rewrite log_items_rec. unfold log_records, layout_recs. induction ds as [|d ds IH]; cbn; [done|].
  by rewrite IH.
Qed.

(** Reading a directory to the end. *)
Lemma read_layout_all seq lsn ds d dir :
  length uuid = 16%nat -> layout seq lsn (ds ++ [d]) -> Forall clean ds -> holds dir (ds ++ [d]) ->
  exists more e r' n,
    (forall fuel, (n < fuel)%nat ->
       read_all fuel dir (reader_of (ds ++ [d])) = Some (layout_recs (ds ++ [d]) ++ more, e, r'))
    /\ (sd_tail d = [] -> more = [] /\ e = None).
Proof using Crc32cLaws0.
  intros Hu Hl Hc Hh. pose proof (open_layout _ _ _ _ Hu Hl Hh) as Eo.
  destruct (read_layout seq lsn ds d dir Hu Hl Hc) as (more & e & Er & Ht).
  { intros x Hx. by eapply holds_body. }
  destruct (open_ready dir uuid _ Eo) as (Hp & _ & Hr & _).
  assert (ready (reader_of (ds ++ [d]))) as Hready
    by (apply Hr; cbn; intros E; by destruct ds).
  assert (expected_next_lsn (reader_of (ds ++ [d])) = lsn) as El.
  { destruct ds; cbn in Hl |- *; apply Hl. }
  rewrite El in Hp. cbn [segments reader_of] in Hp. rewrite Er in Hp.
  set (its := log_items (map (fun d => (sd_info d, sd_recs d)) (ds ++ [d])) ++ more) in *.
  destruct (read_all_spec dir _ its e (S (length its)) Hready Hp ltac:(lia)) as (r' & E & _).
  exists (map it_rec more), e, r', (length its). split.
  - intros fuel Hf. destruct (read_all_spec dir _ its e fuel Hready Hp Hf) as (r2 & E2 & _).
    rewrite <- layout_items, <- map_app. fold its. rewrite E2. f_equal.
    eapply read_all_det; [exact E2|exact E].
  - intros Etl. destruct (Ht Etl) as [-> ->]. done.
Qed.
End disk.
