(* ===== verification/WalSpec.v ===== *)
(** The guarantee of the WAL: what [append] has answered survives a crash.

    [Sys] is a WAL handle with the calls in flight on it; [sys_step]
    interleaves the stretches of the calls with the committer tasks, in any
    order and with any I/O failure, each step labelled with what happens.
    [sound_step] are the steps without a rollover that hides a failure: the
    guarantee needs it, and the code does not see to it ([Wal::rollover]
    replaces a committer whose flush failed, and leaves the file of a segment
    whose creation failed).  [wal_inv] is the invariant:
    closed segments in order, the active segment under its committer's
    invariant, and the assigned LSNs in one unbroken chain.  [crash] is what a
    crash leaves of the directory: everything synced, and anything behind the
    end of the active segment. *)

From S2P Require Import Prelude Crc32c Ids WalKinds WalRecord WalSegment WalReader WalReaderSpec.
From S2P Require Import WalReaderOpen GroupCommit Wal WalDisk.
Import Wal.

(** The submission of [r] was acknowledged with [Ok]. *)
Definition acked (w : Wal) (r : WalRecord) : Prop :=
  exists seq c id lsn, (seq, c) ∈ committers w /\ cm_submitted c !! id = Some r
    /\ (id, Ok lsn) ∈ cm_acks c.

(** Every record that was given an LSN, in that order. *)
Definition log (w : Wal) : list WalRecord := rev (committers w) ≫= (fun e => cm_submitted e.2).

(** The handle, and the calls of [append_many] with their arguments. *)
Record Sys := { sy_wal : Wal; sy_calls : list (list WalRecord * Call) }.

(** What a crash leaves: the synced bytes of every file, and [junk] behind
    those of the active segment. *)
Definition crash (junk : bytes) (w : Wal) : Dir :=
  map (fun e => (e.1, sf_durable e.2
                      ++ (if bool_decide (e.1 = segment_path (active_seq w)) then junk else [])))
      (disk w).

(** The system calls that create a segment all succeed. *)
Record create_succeeds (cr : CreateIo) : Prop := {
  cs_write : io_write (cr_io cr) = Wrote WAL_SEGMENT_HEADER_LEN;
  cs_sync : io_sync (cr_io cr) = Ok tt;
  cs_dir : cr_fsync_dir cr = Ok tt;
  cs_now : u64 (cr_now cr);
}.

(** A rollover that does not hide a failure: no flush of the old segment has
    failed and the new segment is created. *)
Definition rollover_sound (cr : CreateIo) (w : Wal) : Prop :=
  create_succeeds cr /\ active_seq w + 1 < 10 ^ 10
  /\ forall why c, draining w = Some (why, c) -> cm_broken c = None.

(** What happens in a step: a call of [append_many] starts, call [i] runs to
    its next await (with the outcome of creating a segment, if it does), the
    committer task of the segment runs, the shutdown starts, it ends. *)
Inductive Act :=
| ACall (records : list WalRecord) | ARun (i : nat) (cr : CreateIo) | ATask (ev : CommitEvent)
| AShutdown | ADown (io : result unit Z).

Section steps.
Context `{CRC : Crc32c}.

Inductive sys_step : Act -> Sys -> Sys -> Prop :=
| sys_call records s : Forall WalRecord_wf records ->
    sys_step (ACall records) s
      {| sy_wal := sy_wal s; sy_calls := sy_calls s ++ [(records, append_many records)] |}
| sys_run i args k cr w' k' s : sy_calls s !! i = Some (args, k) ->
    call_step cr (sy_wal s) k = Some (w', k') ->
    sys_step (ARun i cr) s {| sy_wal := w'; sy_calls := <[i := (args, k')]> (sy_calls s) |}
| sys_task ev w' s : task_event ev (sy_wal s) = Some w' ->
    sys_step (ATask ev) s {| sy_wal := w'; sy_calls := sy_calls s |}
| sys_shutdown s :
    sys_step AShutdown s {| sy_wal := shutdown_begin (sy_wal s); sy_calls := sy_calls s |}
| sys_down io w' r s : shutdown_finish io (sy_wal s) = Some (w', r) ->
    sys_step (ADown io) s {| sy_wal := w'; sy_calls := sy_calls s |}.

(** The step is not a rollover, or a sound one. *)
Definition sound_act (a : Act) (s : Sys) : Prop :=
  match a with
  | ARun i cr => forall args k, sy_calls s !! i = Some (args, k) -> ca_pc k = PcRolling ->
      rollover_sound cr (sy_wal s)
  | _ => True
  end.

Definition sound_step (s s' : Sys) : Prop := exists a, sys_step a s s' /\ sound_act a s.
End steps.

(** ** The invariant *)

(** The committer in the slot, or taken out of it and still running. *)
Definition live (w : Wal) (c : Committer) : Prop :=
  (exists n, segment w = Open c n /\ draining w = None)
  \/ segment w = RollingOver
     /\ exists why, draining w = Some (why, c)
        /\ match why with ForRollover lsn => lsn = next_lsn w | ForShutdown => True end.

Definition down (w : Wal) : Prop := segment w = RollingOver /\ draining w = None.

Definition synced (b : bytes) : SegFile := {| sf_cache := b; sf_durable := b |}.

Section invariant.
Context `{CRC : Crc32c} `{!Crc32cLaws CRC}.

Definition closed_entry (uuid : bytes) (d : SegDesc) : bytes * SegFile :=
  (segment_path (sd_seq d), synced (sd_bytes uuid d)).
Definition active_entry (w : Wal) (c : Committer) : bytes * SegFile :=
  (segment_path (active_seq w), seg_file (cm_segment c)).

Definition not_wal_file (e : bytes * SegFile) : Prop := extension e.1 <> Some (drop 1 DOT_WAL).

(** [Ok] is answered with the LSN of the record submitted. *)
Definition acks_faithful (c : Committer) : Prop :=
  forall id n, (id, Ok n) ∈ cm_acks c -> exists r, cm_submitted c !! id = Some r /\ wr_lsn r = n.

(** An earlier committer: what it acknowledged is among [recs]. *)
Definition retired_ok (seq : Z) (recs : list WalRecord) (e : Z * Committer) : Prop :=
  e.1 < seq /\ acks_faithful e.2
  /\ forall id n r, (id, Ok n) ∈ cm_acks e.2 -> cm_submitted e.2 !! id = Some r -> r ∈ recs.

Lemma cm_inv_faithful ident hdr rs0 c : cm_inv ident hdr rs0 c -> acks_faithful c.
Proof.
  intros (done & mid & Hi) id n Hin. destruct (inv_acks Hi) as (_ & Ha & _).
  destruct (Ha _ _ Hin) as (r & Hr & El). exists r. split; [|done].
  rewrite (ci_submitted Hi). by apply lookup_app_l_Some.
Qed.

(** [seq], [lsn]: where the log on disk starts; [closed]: the closed segments;
    [rs0], [now]: the records of the active segment when it was opened, and
    its creation time; [c]: its committer; [ret]: the ones before. *)
Record wal_inv_at (w : Wal) (base : list WalRecord) (seq lsn : Z) (closed : list SegDesc)
    (others : Files) (rs0 : list WalRecord) (now : Z) (c : Committer) (ret : list (Z * Committer))
  : Prop := {
  wi_uuid : length (shard_uuid w) = 16%nat;
  wi_view : live w c /\ retired w = ret /\ files w ≡ₚ map (closed_entry (shard_uuid w)) closed ++ others
    \/ down w /\ retired w = (active_seq w, c) :: ret
       /\ files w ≡ₚ active_entry w c :: map (closed_entry (shard_uuid w)) closed ++ others;
  wi_others : Forall not_wal_file others /\ NoDup (map fst others);
  wi_closed : layout seq lsn closed /\ Forall clean closed;
  wi_seq : 0 <= seq /\ active_seq w = seq + Z.of_nat (length closed) /\ active_seq w < 10 ^ 10;
  wi_nums : u64 lsn /\ u64 now;
  wi_committer : let active_lsn := lsn_after lsn (layout_recs closed) in
    cm_inv (active_seq w, active_lsn, shard_uuid w)
      (header_of (shard_uuid w) (active_seq w) active_lsn now) rs0 c;
  wi_log : layout_recs closed ++ rs0 ++ cm_submitted c = base ++ log w;
  wi_wf : Forall WalRecord_wf (layout_recs closed ++ rs0 ++ cm_submitted c);
  wi_lsns : lsns_ok lsn (layout_recs closed ++ rs0 ++ cm_submitted c);
  wi_next : next_lsn w = lsn_after lsn (layout_recs closed ++ rs0 ++ cm_submitted c);
  wi_retired : Forall (retired_ok (active_seq w) (layout_recs closed)) ret;
}.


Arguments wi_uuid {_ _ _ _ _ _ _ _ _ _} _.
Arguments wi_view {_ _ _ _ _ _ _ _ _ _} _.
Arguments wi_others {_ _ _ _ _ _ _ _ _ _} _.
Arguments wi_closed {_ _ _ _ _ _ _ _ _ _} _.
Arguments wi_seq {_ _ _ _ _ _ _ _ _ _} _.
Arguments wi_nums {_ _ _ _ _ _ _ _ _ _} _.
Arguments wi_committer {_ _ _ _ _ _ _ _ _ _} _.
Arguments wi_log {_ _ _ _ _ _ _ _ _ _} _.
Arguments wi_wf {_ _ _ _ _ _ _ _ _ _} _.
Arguments wi_lsns {_ _ _ _ _ _ _ _ _ _} _.
Arguments wi_next {_ _ _ _ _ _ _ _ _ _} _.
Arguments wi_retired {_ _ _ _ _ _ _ _ _ _} _.

Definition wal_inv (base : list WalRecord) (w : Wal) : Prop :=
  exists seq lsn closed others rs0 now c ret, wal_inv_at w base seq lsn closed others rs0 now c ret.

Lemma inv_committers {w base seq lsn closed others rs0 now c ret} :
  wal_inv_at w base seq lsn closed others rs0 now c ret -> committers w = (active_seq w, c) :: ret.
Proof.
  intros Hi. unfold committers. destruct (wi_view Hi)
    as [([(n & -> & ->)|(-> & why & -> & _)] & -> & _)|((-> & ->) & -> & _)]; done.
Qed.

Lemma inv_disk {w base seq lsn closed others rs0 now c ret} :
  wal_inv_at w base seq lsn closed others rs0 now c ret ->
  disk w ≡ₚ active_entry w c :: map (closed_entry (shard_uuid w)) closed ++ others.
Proof.
  intros Hi. unfold disk. destruct (wi_view Hi)
    as [([(n & -> & ->)|(-> & why & -> & _)] & _ & Hf)|((-> & ->) & _ & Hf)];
    cbn [app]; rewrite ?app_nil_r; [..|done]; rewrite Hf; symmetry; apply Permutation_cons_append.
Qed.

Lemma inv_log_split {w base seq lsn closed others rs0 now c ret} :
  wal_inv_at w base seq lsn closed others rs0 now c ret ->
  log w = (rev ret ≫= (fun e => cm_submitted e.2)) ++ cm_submitted c.
Proof.
  intros Hi. unfold log. rewrite (inv_committers Hi). cbn [rev].
  rewrite bind_app. cbn. by rewrite app_nil_r.
Qed.

Lemma live_not_down w c : live w c -> ~ down w.
Proof. intros [(n & E & _)|(_ & why & E & _)] [E1 E2]; congruence. Qed.

(** The committer that is live moves on: [extra] was submitted. *)
Lemma inv_live_step w w' base seq lsn closed others rs0 now c ret c' extra :
  wal_inv_at w base seq lsn closed others rs0 now c ret -> live w c ->
  live w' c' -> files w' = files w -> retired w' = retired w -> shard_uuid w' = shard_uuid w ->
  active_seq w' = active_seq w ->
  (forall ident hdr, cm_inv ident hdr rs0 c -> cm_inv ident hdr rs0 c') ->
  cm_submitted c' = cm_submitted c ++ extra -> Forall WalRecord_wf extra ->
  lsns_ok (next_lsn w) extra -> next_lsn w' = lsn_after (next_lsn w) extra ->
  wal_inv_at w' base seq lsn closed others rs0 now c' ret.
Proof.
  intros Hi Hl Hl' Ef Er Eu Es Hc Esub Hw Hls En.
  pose proof (inv_log_split Hi) as Elog.
  destruct Hi as [H1 H2 H3 H4 H5 H6 H7 H8 H9 H10 H11 H12].
  destruct H2 as [(_ & H2r & H2f)|(Hd & _)]; [|by apply live_not_down in Hl].
  assert (layout_recs closed ++ rs0 ++ cm_submitted c ++ extra
    = (layout_recs closed ++ rs0 ++ cm_submitted c) ++ extra) as Ea by (by rewrite !app_assoc).
  split; rewrite ?Eu, ?Es, ?Esub, ?Ea; try done.
  - left. rewrite Ef, Er. done.
  - by apply Hc.
  - rewrite H8, Elog, <- !app_assoc. do 2 f_equal. unfold log, committers.
    destruct Hl' as [(n & -> & ->)|(-> & why & -> & _)]; cbn [app];
      rewrite Er, H2r; cbn [rev]; rewrite bind_app; cbn; by rewrite app_nil_r, Esub.
  - by apply Forall_app.
  - rewrite lsns_ok_app, <- H11. done.
  - by rewrite En, lsn_after_app, <- H11.
Qed.

Lemma inv_live {w base seq lsn closed others rs0 now c ret c'} :
  wal_inv_at w base seq lsn closed others rs0 now c ret -> live w c' -> c' = c.
Proof.
  intros Hi Hl. destruct (wi_view Hi) as [(Hl' & _)|(Hd & _)];
    [|by apply live_not_down in Hl].
  destruct Hl as [(n & E1 & E2)|(E1 & why & E2 & _)], Hl' as [(n' & E1' & E2')|(E1' & why' & E2' & _)];
    congruence.
Qed.

(** The live committer's task has ended and its file is closed. *)
Lemma inv_retire w base seq lsn closed others rs0 now c ret :
  wal_inv_at w base seq lsn closed others rs0 now c ret -> live w c ->
  wal_inv_at (set_slot (files w ++ [active_entry w c]) (active_seq w) RollingOver None
                ((active_seq w, c) :: retired w) w)
    base seq lsn closed others rs0 now c ret.
Proof.
  intros Hi Hl. pose proof (inv_log_split Hi) as Elog.
  destruct Hi as [H1 H2 H3 H4 H5 H6 H7 H8 H9 H10 H11 H12].
  destruct H2 as [(_ & H2r & H2f)|(Hd & _)]; [|by apply live_not_down in Hl].
  split; cbn [shard_uuid active_seq next_lsn set_slot]; try done.
  - right. cbn [retired files set_slot]. rewrite H2r. split_and!; [done..|].
    etrans; [apply Permutation_app_tail, H2f|]. symmetry. apply Permutation_cons_append.
  - rewrite H8, Elog. f_equal. unfold log, committers; cbn [segment draining retired set_slot app].
    rewrite H2r. cbn [rev]. rewrite bind_app. cbn. by rewrite app_nil_r.
Qed.

(** ** Names *)

Lemma segment_path_inj a b :
  0 <= a < 10 ^ 10 -> 0 <= b < 10 ^ 10 -> segment_path a = segment_path b -> a = b.
Proof.
  intros Ha Hb E. apply segment_path_parse in Ha as [_ Ha], Hb as [_ Hb]. rewrite E in Ha. congruence.
Qed.

Lemma closed_below seq lsn closed d :
  layout seq lsn closed -> d ∈ closed -> seq <= sd_seq d < seq + Z.of_nat (length closed).
Proof.
  intros Hl [i Hi]%list_elem_of_lookup. rewrite (layout_seq _ _ _ _ _ Hl Hi).
  apply lookup_lt_Some in Hi. lia.
Qed.

Lemma inv_fresh_name w base seq lsn closed others rs0 now c ret q :
  wal_inv_at w base seq lsn closed others rs0 now c ret -> active_seq w < q < 10 ^ 10 ->
  segment_path q ∉ map fst (disk w).
Proof.
  intros Hi Hq. rewrite (inv_disk Hi). cbn [map active_entry fst].
  destruct (wi_seq Hi) as (H0 & Ha & Hlt).
  rewrite map_app, map_map. intros [E|[Hin|Hin]%elem_of_app]%elem_of_cons.
  - apply segment_path_inj in E; lia.
  - apply list_elem_of_fmap in Hin as (d & E & Hd). cbn in E.
    pose proof (closed_below _ _ _ _ (proj1 (wi_closed Hi)) Hd).
    apply segment_path_inj in E; lia.
  - apply list_elem_of_fmap in Hin as (e & E & He).
    pose proof (proj1 (Forall_forall _ _) (proj1 (wi_others Hi)) e He) as Hn.
    unfold not_wal_file in Hn. rewrite <- E in Hn. apply Hn, segment_path_parse. lia.
Qed.

Lemma file_at_None name fs : name ∉ map fst fs -> file_at name fs = None.
Proof.
  intros Hn. unfold file_at. destruct (list_find _ fs) as [[i e]|] eqn:E; [|done].
  apply list_find_Some in E as (Hi & <- & _). exfalso. apply Hn.
  apply list_elem_of_fmap_2, list_elem_of_lookup. by exists i.
Qed.

Lemma live_disk w c : live w c -> files w ++ [active_entry w c] = disk w.
Proof.
  unfold disk. by intros [(n & -> & ->)|(-> & why & -> & _)]; cbn [app].
Qed.

(** ** A new segment *)

Definition new_segment (seq lsn : Z) (uuid : bytes) (now : Z) : WalSegment :=
  {| seg_file := synced (header_of uuid seq lsn now); segment_seq := seq; starting_lsn := lsn;
     seg_shard_uuid := uuid; write_buf := []; bytes_on_disk := 0 |}.

Lemma seg_create_ok cr seq lsn uuid :
  create_succeeds cr -> length uuid = 16%nat ->
  create_new None (cr_io cr) (cr_now cr) seq lsn uuid
  = (Some (synced (header_of uuid seq lsn (cr_now cr))), Ok (new_segment seq lsn uuid (cr_now cr))).
Proof.
  intros [Hw Hs _ _] Hu. unfold create_new. fold (header_of uuid seq lsn (cr_now cr)).
  pose proof (length_header_of uuid seq lsn (cr_now cr) Hu) as Hl.
  rewrite Hw, Hs, Hl, Nat.eqb_refl. cbn [negb sf_cache].
  rewrite take_ge by lia. by rewrite pwrite_end.
Qed.

(** Only so does it succeed. *)
Lemma create_new_inv io now seq lsn uuid f seg :
  length uuid = 16%nat -> create_new None io now seq lsn uuid = (f, Ok seg) ->
  seg = new_segment seq lsn uuid now.
Proof.
  intros Hu. unfold create_new. fold (header_of uuid seq lsn now).
  destruct (io_write io) as [n|]; [|intros E; apply (f_equal snd) in E; discriminate E].
  destruct (Nat.eqb_spec n (length (header_of uuid seq lsn now))) as [->|]; cbn [negb];
    [|intros E; apply (f_equal snd) in E; discriminate E].
  destruct (io_sync io); intros E; apply (f_equal snd) in E; cbn [snd] in E; [|discriminate E].
  apply Ok_inj in E. subst seg. cbn [sf_cache]. rewrite take_ge by lia. by rewrite pwrite_end.
Qed.

Lemma new_segment_holds seq lsn uuid now :
  length uuid = 16%nat -> seg_holds (new_segment seq lsn uuid now) (header_of uuid seq lsn now) [] [].
Proof.
  intros Hu. split; cbn [new_segment seg_file synced sf_cache sf_durable write_buf bytes_on_disk];
    rewrite ?app_nil_r; try done. by apply length_header_of.
Qed.

Lemma lsn_after_u64 lsn rs : u64 lsn -> u64 (lsn_after lsn rs).
Proof. revert lsn. induction rs; intros lsn Hl; cbn; [done|]. apply IHrs, wrap_uint. lia. Qed.

(** The next segment takes over from a drained one. *)
Lemma inv_roll w base seq lsn closed others rs0 now c ret cr :
  wal_inv_at w base seq lsn closed others rs0 now c ret -> live w c ->
  cm_phase c = Finished -> cm_broken c = None -> create_succeeds cr -> active_seq w + 1 < 10 ^ 10 ->
  wal_inv base (set_slot (files w ++ [active_entry w c]) (active_seq w + 1)
    (Open (start (new_segment (active_seq w + 1) (next_lsn w) (shard_uuid w) (cr_now cr))
             (group_commit (config w))) 0) None ((active_seq w, c) :: retired w) w).
Proof.
  intros Hi Hl Hfin Hb Hcr Hq. pose proof (inv_log_split Hi) as Elog.
  destruct Hi as [H1 H2 H3 [H4 H4c] H5 [H6 H6n] H7 H8 H9 H10 H11 H12].
  destruct H2 as [(_ & H2r & H2f)|(Hd & _)]; [|by apply live_not_down in Hl].
  destruct (finished_holds _ _ _ _ H7 Hfin Hb) as [Hacks Hholds].
  set (d := {| sd_seq := active_seq w; sd_lsn := lsn_after lsn (layout_recs closed); sd_now := now;
               sd_recs := rs0 ++ cm_submitted c; sd_tail := [] |}).
  assert (layout_recs (closed ++ [d]) = layout_recs closed ++ rs0 ++ cm_submitted c) as Erecs.
  { rewrite layout_recs_app. f_equal. unfold layout_recs; cbn. by rewrite app_nil_r. }
  assert (synced (sd_bytes (shard_uuid w) d) = seg_file (cm_segment c)) as Ef.
  { destruct Hholds as [_ Hc Hdu _ _]. unfold sd_bytes, synced; cbn. rewrite app_nil_r.
    destruct (seg_file (cm_segment c)) as [ca du]; cbn in Hc, Hdu. by subst ca du. }
  exists seq, lsn, (closed ++ [d]), others, [], (cr_now cr),
    (start (new_segment (active_seq w + 1) (next_lsn w) (shard_uuid w) (cr_now cr)) (group_commit (config w))),
    ((active_seq w, c) :: ret).
  split; cbn [shard_uuid active_seq next_lsn set_slot]; rewrite ?Erecs; try done.
  - left. split; [left; by exists 0%nat|]. cbn [retired files set_slot]. rewrite H2r. split; [done|].
    rewrite map_app. cbn [map]. unfold closed_entry at 2. rewrite Ef. cbn [sd_seq d].
    etrans; [apply Permutation_app_tail, H2f|]. rewrite <- !app_assoc. apply Permutation_app_head.
    apply Permutation_app_comm.
  - split.
    + apply layout_app. split; [done|]. cbn [layout]. destruct H5 as (? & ? & ?).
      rewrite !lsns_ok_app in H10. rewrite !Forall_app in H9.
      split; [|split; [done|split; [done|done]]]. split; cbn [d sd_seq sd_lsn sd_now sd_recs].
      * lia.
      * by apply lsn_after_u64.
      * done.
      * apply Forall_app. tauto.
      * rewrite lsns_ok_app. tauto.
    + apply Forall_app. split; [done|]. by constructor.
  - rewrite length_app. cbn [length]. lia.
  - split; [done|apply Hcr].
  - rewrite <- H11. apply start_inv; [by apply new_segment_holds|done].
  - cbn. rewrite app_nil_r, H8, Elog. unfold log, committers; cbn [segment draining retired set_slot].
    rewrite H2r. cbn [app rev]. rewrite !bind_app. cbn. by rewrite !app_nil_r.
  - cbn. by rewrite app_nil_r.
  - cbn. by rewrite app_nil_r.
  - cbn. by rewrite app_nil_r.
  - constructor.
    + split; [cbn; lia|]. split; [by eapply cm_inv_faithful|]. cbn [snd]. intros id n r _ Hr.
      rewrite !elem_of_app. right; right. by eapply list_elem_of_lookup_2.
    + eapply Forall_impl; [exact H12|]. intros e (He & Hf & Ha). split; [lia|]. split; [done|].
      intros id n r Hin Hr. rewrite elem_of_app. eauto.
Qed.

(** ** Steps of the handle *)

(** What callers rely on: acknowledgements and submissions are kept. *)
Record cm_le (c c' : Committer) : Prop := {
  le_acks : cm_acks c `prefix_of` cm_acks c';
  le_submitted : cm_submitted c `prefix_of` cm_submitted c';
}.

#[local] Instance cm_le_refl : Reflexive cm_le.
Proof. done. Qed.

(** The records [extra] were given LSNs and submitted. *)
Record assigned (w w' : Wal) (c c' : Committer) (new : list (Z * Committer)) (extra : list WalRecord) : Prop := {
  as_submitted : cm_submitted c' = cm_submitted c ++ extra;
  as_lsns : lsns_ok (next_lsn w) extra;
  as_next : next_lsn w' = lsn_after (next_lsn w) extra;
  as_new : Forall (fun e => cm_submitted e.2 = []) new;
}.

Definition grows (w w' : Wal) : Prop :=
  exists q c c' ret new, committers w = (q, c) :: ret /\ committers w' = new ++ (q, c') :: ret
    /\ cm_le c c' /\ Forall (fun e => Forall (fun e' => e'.1 < e.1) ((q, c) :: ret)) new
    /\ (length new <= 1)%nat /\ exists extra, assigned w w' c c' new extra.

(** A step that keeps the invariant and what callers rely on. *)
Definition good_step (base : list WalRecord) (w w' : Wal) : Prop := wal_inv base w' /\ grows w w'.

Lemma grows_refl base w : wal_inv base w -> grows w w.
Proof.
  intros (seq & lsn & closed & others & rs0 & now & c & ret & Hi).
  exists (active_seq w), c, c, ret, []. pose proof (inv_committers Hi).
  split_and!; try done; [cbn; lia|]. exists []. by split; rewrite ?app_nil_r.
Qed.

Lemma live_committers w c : live w c -> committers w = (active_seq w, c) :: retired w.
Proof. unfold committers. by intros [(n & -> & ->)|(-> & why & -> & _)]. Qed.

(** [extra] was appended to the log, with the next LSNs. *)
Definition logged (extra : list WalRecord) (w w' : Wal) : Prop :=
  log w' = log w ++ extra /\ lsns_ok (next_lsn w) extra /\ next_lsn w' = lsn_after (next_lsn w) extra.

Lemma logged_nil w : logged [] w w.
Proof. split; [by rewrite app_nil_r|done]. Qed.

Lemma logged_app a b w1 w2 w3 : logged a w1 w2 -> logged b w2 w3 -> logged (a ++ b) w1 w3.
Proof.
  intros (E1 & L1 & N1) (E2 & L2 & N2). split; [by rewrite E2, E1, app_assoc|].
  rewrite lsns_ok_app, lsn_after_app, <- N1. done.
Qed.

Lemma live_logged w w' c c' extra :
  live w c -> live w' c' -> retired w' = retired w -> cm_submitted c' = cm_submitted c ++ extra ->
  lsns_ok (next_lsn w) extra -> next_lsn w' = lsn_after (next_lsn w) extra -> logged extra w w'.
Proof.
  intros Hl Hl' Er Es Hls En. split; [|done]. unfold log.
  rewrite (live_committers _ _ Hl), (live_committers _ _ Hl'), Er. cbn [rev].
  rewrite !bind_app. cbn. by rewrite !app_nil_r, Es, app_assoc.
Qed.

(** The live committer does something. *)
Lemma good_live_step w w' base c c' extra :
  wal_inv base w -> live w c ->
  live w' c' -> files w' = files w -> retired w' = retired w -> shard_uuid w' = shard_uuid w ->
  active_seq w' = active_seq w ->
  (forall ident hdr rs0, cm_inv ident hdr rs0 c -> cm_inv ident hdr rs0 c') ->
  cm_le c c' -> cm_submitted c' = cm_submitted c ++ extra -> Forall WalRecord_wf extra ->
  lsns_ok (next_lsn w) extra -> next_lsn w' = lsn_after (next_lsn w) extra ->
  good_step base w w'.
Proof.
  intros (seq & lsn & closed & others & rs0 & now & c0 & ret & Hi) Hl Hl' Ef Er Eu Es Hc Hle Esub Hw Hls En.
  pose proof (inv_live Hi Hl) as E. subst c0. split.
  - exists seq, lsn, closed, others, rs0, now, c', ret.
    eapply (inv_live_step w w' base seq lsn closed others rs0 now c ret c' extra); eauto.
  - exists (active_seq w), c, c', (retired w), [].
    rewrite (live_committers _ _ Hl), (live_committers _ _ Hl'), Er, Es. split_and!; try done; [cbn; lia|].
    by exists extra.
Qed.

Lemma good_task_event ev w w' base :
  wal_inv base w -> task_event ev w = Some w' -> good_step base w w'.
Proof.
  intros Hi E. assert (exists c, live w c) as [c0 Hl].
  { destruct Hi as (seq & lsn & closed & others & rs0 & now & c & ret & Hi).
    destruct (wi_view Hi) as [(? & _)|((E1 & E2) & _)]; [by eexists|].
    unfold task_event in E. by rewrite E1, E2 in E. }
  unfold task_event in E.
  destruct Hl as [(n & E1 & E2)|(E1 & why & E2 & Hwhy)]; rewrite E1, ?E2 in E;
    destruct (committer_event ev c0) as [c1|] eqn:Ev; cbn in E; simplify_eq;
    (eapply (good_live_step w _ base c0 c1 []); try done;
      [first [by left; exists n | by right; split; [|exists why]]
      |first [by left; exists n | by right; split; [|exists why]]
      |intros ident hdr rs0 Hc; by eapply event_inv
      |split; [by eapply event_acks|by rewrite (event_submitted _ _ _ Ev)]
      |by rewrite app_nil_r, (event_submitted _ _ _ Ev)]).
Qed.

Lemma good_try_append w r w' a base :
  wal_inv base w -> WalRecord_wf r -> try_append w r = Ok (w', a) ->
  good_step base w w'
  /\ match a with
     | Enqueued n h => (exists c, committer_at w' h.1 = Some c /\ cm_submitted c !! h.2 = Some (set_lsn n r))
                      /\ logged [set_lsn n r] w w'
     | Rollover _ => w' = w
     end.
Proof.
  intros Hi Hr E. unfold try_append in E. destruct (_ <? _)%nat; [done|].
  destruct (segment w) as [c n|] eqn:Es;
    [|apply Ok_inj in E; simplify_eq; split; [split; [done|by eapply grows_refl]|done]].
  destruct (_ <? _)%nat; [apply Ok_inj in E; simplify_eq; split; [split; [done|by eapply grows_refl]|done]|].
  destruct (append c (set_lsn (next_lsn w) r)) as [[c1 id]|] eqn:Ea; [|done].
  apply Ok_inj in E. simplify_eq.
  assert (draining w = None) as Ed.
  { destruct Hi as (seq & lsn & closed & others & rs0 & now & c0 & ret & Hi).
    destruct (wi_view Hi) as [([(? & ? & ?)|(? & ?)] & _)|((? & ?) & _)]; congruence. }
  assert (u64 (next_lsn w)) as Hn.
  { destruct Hi as (seq & lsn & closed & others & rs0 & now & c0 & ret & Hi).
    rewrite (wi_next Hi). apply lsn_after_u64, (wi_nums Hi). }
  assert (cm_submitted c1 = cm_submitted c ++ [set_lsn (next_lsn w) r] /\ cm_acks c1 = cm_acks c
    /\ id = length (cm_submitted c)) as (Esub & Eack & ->).
  { unfold append in Ea. destruct (_ || _); [done|]. apply Ok_inj in Ea. by simplify_eq. }
  assert (live w c) as Hl by (left; by exists n).
  split; [|split].
  - eapply (good_live_step w _ base c c1 [set_lsn (next_lsn w) r]); try done.
    + left. cbn. by eexists.
    + intros ident hdr rs0 Hc. by eapply append_inv.
    + split; [by rewrite Eack|]. rewrite Esub. by eexists.
    + constructor; [|done]. destruct Hr. by split.
  - exists c1. unfold committer_at, committers; cbn [segment active_seq]. cbn.
    rewrite decide_True by done. split; [done|].
    rewrite Esub. by rewrite lookup_app_r, Nat.sub_diag by lia.
  - eapply (live_logged _ _ c c1); try done. left. cbn. by eexists.
Qed.

Lemma open_live base w c n : wal_inv base w -> segment w = Open c n -> live w c.
Proof.
  intros (seq & lsn & closed & others & rs0 & now & c0 & ret & Hi) E.
  destruct (wi_view Hi) as [([(? & ? & ?)|(? & ?)] & _)|((? & ?) & _)]; try congruence.
  left. by exists n.
Qed.

Lemma draining_live base w why c : wal_inv base w -> draining w = Some (why, c) -> live w c.
Proof.
  intros (seq & lsn & closed & others & rs0 & now & c0 & ret & Hi) E.
  destruct (wi_view Hi) as [([(? & ? & ?)|(? & why' & ? & ?)] & _)|((? & ?) & _)];
    try congruence.
  right. split; [done|]. exists why. split; [done|]. by simplify_eq.
Qed.

(** Closing the channel of the committer in the slot. *)
Lemma good_close base w c n why :
  wal_inv base w -> segment w = Open c n ->
  match why with ForRollover lsn => lsn = next_lsn w | ForShutdown => True end ->
  good_step base w (set_slot (files w) (active_seq w) RollingOver (Some (why, close c)) (retired w) w).
Proof.
  intros Hi E Hwhy. eapply (good_live_step w _ base c (close c) []); try done.
  - by eapply open_live.
  - right. split; [done|]. by exists why.
  - intros ident hdr rs0. apply close_inv.
  - cbn. by rewrite app_nil_r.
Qed.

Lemma good_retire base w c :
  wal_inv base w -> live w c ->
  good_step base w (set_slot (files w ++ [active_entry w c]) (active_seq w) RollingOver None
                      ((active_seq w, c) :: retired w) w).
Proof.
  intros Hi Hl. destruct Hi as (seq & lsn & closed & others & rs0 & now & c0 & ret & Hi).
  pose proof (inv_live Hi Hl) as E. subst c0. split.
  - exists seq, lsn, closed, others, rs0, now, c, ret. by apply inv_retire.
  - exists (active_seq w), c, c, (retired w), []. rewrite (live_committers _ _ Hl).
    split_and!; try done; [cbn; lia|]. exists []. by split; rewrite ?app_nil_r.
Qed.

Lemma good_rollover_begin base w q w' r :
  wal_inv base w -> rollover_begin w q = Some (w', r) -> good_step base w w'.
Proof.
  intros Hi E. unfold rollover_begin in E.
  assert (good_step base w w) as Hsame by (split; [done|by eapply grows_refl]).
  destruct (draining w) as [[[l|] c]|] eqn:Ed; [done| |];
    (destruct (negb _); [by simplify_eq|]); destruct (segment w) as [c1 n|] eqn:Es; simplify_eq;
    try done; by eapply good_close.
Qed.

Lemma good_rollover_finish base w cr w' r :
  wal_inv base w -> rollover_sound cr w -> rollover_finish cr w = Some (w', r) -> good_step base w w'.
Proof.
  intros Hi (Hcr & Hq & Hb) E. unfold rollover_finish in E.
  destruct (draining w) as [[[l|] c]|] eqn:Ed; [|done..].
  pose proof (draining_live _ _ _ _ Hi Ed) as Hl. specialize (Hb _ _ eq_refl).
  destruct (task_alive c) eqn:Ea; [done|].
  destruct (cm_phase c) eqn:Ep; try (simplify_eq; by apply good_retire).
  destruct (cr_close cr); [|simplify_eq; by apply good_retire].
  assert (exists seq lsn closed others rs0 now ret, wal_inv_at w base seq lsn closed others rs0 now c ret)
    as (seq & lsn & closed & others & rs0 & now & ret & Hia).
  { destruct Hi as (seq & lsn & closed & others & rs0 & now & c0 & ret & Hia).
    pose proof (inv_live Hia Hl) as <-. by do 7 eexists. }
  pose proof (wi_seq Hia) as (H0 & Hact & _).
  assert (wrap 64 (active_seq w + 1) = active_seq w + 1) as Ew by (apply wrap_small; unfold uint; lia).
  rewrite Ew in E. fold (active_entry w c) in E. rewrite file_at_None in E.
  2: { rewrite (live_disk _ _ Hl). eapply inv_fresh_name; [done|lia]. }
  rewrite (seg_create_ok cr _ _ _ Hcr (wi_uuid Hia)), (cs_dir _ Hcr) in E.
  assert (l = next_lsn w) as ->.
  { destruct Hl as [(? & ? & ?)|(_ & why & E2 & Hw)]; [congruence|]. rewrite Ed in E2. by simplify_eq. }
  simplify_eq. split; [by eapply inv_roll|].
  exists (active_seq w), c, c, (retired w),
    [(active_seq w + 1, start (new_segment (active_seq w + 1) (next_lsn w) (shard_uuid w) (cr_now cr))
                          (group_commit (config w)))].
  rewrite (live_committers _ _ Hl). split_and!; try done.
  - constructor; [|done]. constructor; [cbn; lia|].
    destruct (wi_view Hia) as [(_ & -> & _)|(Hd & _)]; [|by apply live_not_down in Hl].
    eapply Forall_impl; [apply (wi_retired Hia)|]. intros e [He _]. cbn. lia.
  - exists []. split; rewrite ?app_nil_r; try done. by constructor.
Qed.

Lemma good_shutdown_begin base w : wal_inv base w -> good_step base w (shutdown_begin w).
Proof.
  intros Hi. unfold shutdown_begin. destruct (segment w) as [c n|] eqn:Es.
  - by eapply good_close.
  - split; [done|by eapply grows_refl].
Qed.

Lemma good_shutdown_finish base w io w' r :
  wal_inv base w -> shutdown_finish io w = Some (w', r) -> good_step base w w'.
Proof.
  intros Hi E. unfold shutdown_finish in E. destruct (draining w) as [[[l|] c]|] eqn:Ed; [done| |done].
  destruct (task_alive c); [done|]. simplify_eq. apply good_retire; [done|by eapply draining_live].
Qed.

(** ** What callers rely on *)

Lemma grows_acked w w' r : grows w w' -> acked w r -> acked w' r.
Proof.
  intros (q & c & c' & ret & new & E & E' & [[ka Ha] Hs] & _) (q1 & c1 & id & lsn & Hin & Hr & Hid).
  rewrite E in Hin. apply elem_of_cons in Hin as [[= -> ->]|Hin].
  - exists q, c', id, lsn. rewrite E', elem_of_app, elem_of_cons. split; [auto|].
    split; [by eapply prefix_lookup_Some|]. rewrite Ha, elem_of_app. auto.
  - exists q1, c1, id, lsn. rewrite E', elem_of_app, elem_of_cons. auto.
Qed.

(** The handle belongs to the submission of [r]. *)
Definition promised (w : Wal) (r : WalRecord) (h : Z * nat) : Prop :=
  exists c, committer_at w h.1 = Some c /\ cm_submitted c !! h.2 = Some r.

Lemma find_cons (q k : Z) (c : Committer) l :
  (fun e => e.2.2) <$> list_find (fun e : Z * Committer => e.1 = k) ((q, c) :: l)
  = if decide (q = k) then Some c else (fun e => e.2.2) <$> list_find (fun e => e.1 = k) l.
Proof. cbn. destruct (decide (q = k)); [done|]. by destruct (list_find _ l) as [[? ?]|]. Qed.

Lemma grows_promised w w' r h : grows w w' -> promised w r h -> promised w' r h.
Proof.
  intros (q & c & c' & ret & new & E & E' & [_ Hs] & Hnew & Hlen & _) (c1 & Hc & Hr).
  unfold committer_at in Hc. rewrite E in Hc.
  assert (exists c2, committer_at w' h.1 = Some c2 /\ cm_submitted c1 `prefix_of` cm_submitted c2)
    as (c2 & Hc2 & Hp).
  { unfold committer_at. rewrite E'. destruct new as [|[q0 c0] [|? ?]]; [| |cbn in Hlen; lia].
    - cbn [app]. rewrite find_cons in *. destruct (decide (q = h.1)); [simplify_eq; by exists c'|by exists c1].
    - cbn [app]. apply Forall_cons in Hnew as [Hnew _]. rewrite find_cons.
      destruct (decide (q0 = h.1)) as [->|Hne].
      + exfalso. destruct (list_find _ _) as [[i e]|] eqn:Ef in Hc; [|done].
        apply list_find_Some in Ef as (Hi & He & _). cbn in He.
        pose proof (Forall_lookup_1 _ _ _ _ Hnew Hi) as Hlt. cbn in Hlt. lia.
      + rewrite find_cons in *. destruct (decide (q = h.1)); [simplify_eq; by exists c'|by exists c1]. }
  exists c2. split; [done|]. by eapply prefix_lookup_Some.
Qed.

(** What a handle answers with [Ok] was acknowledged. *)
Lemma wait_promised w h r n : promised w r h -> wait_handle w h = Some (Ok n) -> acked w r.
Proof.
  intros (c & Hc & Hr) Hw. unfold wait_handle in Hw. rewrite Hc in Hw. cbn in Hw. unfold wait in Hw.
  destruct (list_find _ (cm_acks c)) as [[i [id m]]|] eqn:Ef;
    [|destruct (task_alive c); simplify_eq].
  simplify_eq. apply list_find_Some in Ef as (Hi & He & _). cbn in He. subst id.
  unfold committer_at in Hc. destruct (list_find _ (committers w)) as [[j e]|] eqn:Ec; [|done].
  cbn in Hc. simplify_eq. apply list_find_Some in Ec as (Hj & _ & _).
  apply list_elem_of_lookup_2 in Hi, Hj. destruct e as [q c]. by exists q, c, h.2, n.
Qed.

Lemma grows_logged w w' : grows w w' -> exists extra, logged extra w w'.
Proof.
  intros (q & c & c' & ret & new & E & E' & _ & _ & Hlen & extra & [Hs Hl Hn Hnew]).
  exists extra. split; [|done]. unfold log. rewrite E, E'.
  rewrite rev_app_distr. cbn [rev]. rewrite !bind_app. cbn. rewrite Hs, !app_nil_r.
  destruct new as [|e [|]]; cbn in *; [by rewrite app_nil_r, app_assoc| |lia].
  apply Forall_cons in Hnew as [-> _]. by rewrite !app_nil_r, app_assoc.
Qed.

(** A stretch of several steps. *)
Record keeps (base : list WalRecord) (w w' : Wal) : Prop := {
  ke_inv : wal_inv base w';
  ke_acked : forall r, acked w r -> acked w' r;
  ke_promised : forall r h, promised w r h -> promised w' r h;
  ke_logged : exists extra, logged extra w w';
}.

Lemma good_keeps base w w' : good_step base w w' -> keeps base w w'.
Proof.
  intros [Hi Hg]. split; [done|eauto using grows_acked|eauto using grows_promised|by apply grows_logged].
Qed.

Lemma keeps_refl base w : wal_inv base w -> keeps base w w.
Proof. split; try done. exists []. apply logged_nil. Qed.

Lemma keeps_trans base w1 w2 w3 : keeps base w1 w2 -> keeps base w2 w3 -> keeps base w1 w3.
Proof.
  intros [_ A1 P1 [x1 L1]] [I2 A2 P2 [x2 L2]]. split; eauto. exists (x1 ++ x2). by eapply logged_app.
Qed.

(** ** Calls *)

(** Every record sent so far is acknowledged or has its handle. *)
Definition settled (w : Wal) (handles : list (Z * nat)) (sent : list WalRecord) : Prop :=
  Forall (fun r => acked w r \/ Exists (promised w r) handles) sent.

Lemma settled_keeps base w w' hs sent : keeps base w w' -> settled w hs sent -> settled w' hs sent.
Proof.
  intros Hk Hs. eapply Forall_impl; [exact Hs|]. intros r [Ha|Hp]; [left; by apply Hk|right].
  eapply Exists_impl; [exact Hp|]. intros h. apply Hk.
Qed.

Definition stamped (lsns : list Z) (records : list WalRecord) : list WalRecord :=
  zip_with set_lsn lsns records.

(** A call on [args]: what it has sent, in order, is [stamped] with its LSNs. *)
Definition call_ok (w : Wal) (e : list WalRecord * Call) : Prop :=
  let '(args, k) := e in
  Forall WalRecord_wf args /\
  match ca_pc k with
  | PcReturned (Ok lsns) => length lsns = length args /\ Forall (acked w) (stamped lsns args)
  | PcReturned (Err _) => True
  | pc => exists done, args = done ++ ca_todo k /\ length (ca_assigned k) = length done
          /\ settled w (ca_handles k) (stamped (ca_assigned k) done)
          /\ match pc with PcAwait => ca_todo k = [] | _ => True end
  end.

Lemma call_ok_keeps base w w' e : keeps base w w' -> call_ok w e -> call_ok w' e.
Proof.
  intros Hk. destruct e as [args k]. intros [Hw Hc]. split; [done|].
  destruct (ca_pc k) as [| | | | |[lsns|]]; try done;
    try (destruct Hc as (dn & E & El & Hs & Ht); exists dn; split_and!; eauto using settled_keeps).
  destruct Hc as [El Ha]. split; [done|]. eapply Forall_impl; [exact Ha|]. apply Hk.
Qed.

Lemma batch_keeps base todo w hs ls done w' todo' hs' ls' stop :
  wal_inv base w -> Forall WalRecord_wf todo -> length ls = length done -> settled w hs (stamped ls done) ->
  enqueue_batch w todo hs ls = (w', todo', hs', ls', stop) ->
  keeps base w w' /\ exists done', done ++ todo = done' ++ todo' /\ length ls' = length done'
    /\ settled w' hs' (stamped ls' done') /\ match stop with BatchDone => todo' = [] | _ => True end.
Proof.
  revert w hs ls done. induction todo as [|r todo IH]; intros w hs ls dn Hi Hw El Hs E;
    cbn [enqueue_batch] in E.
  { simplify_eq. split; [by apply keeps_refl|]. by exists dn. }
  apply Forall_cons in Hw as [Hr Hw].
  destruct (try_append w r) as [[w1 [lsn h|q]]|e] eqn:Et.
  - destruct (good_try_append _ _ _ _ _ Hi Hr Et) as [Hg [(c & Hc & Hsub) _]].
    apply good_keeps in Hg as Hk. destruct (IH w1 (hs ++ [h]) (ls ++ [lsn]) (dn ++ [r])) as (Hk' & dn' & Hd & Hrest);
      try done; [by apply Hg|by rewrite !length_app, El| |].
    + unfold stamped. rewrite zip_with_app by done. apply Forall_app. split.
      * eapply Forall_impl; [by eapply settled_keeps|]. intros r0 [|Hp]; [by left|right].
        apply Exists_app. by left.
      * constructor; [|done]. right. apply Exists_app. right. constructor. by exists c.
    + split; [|exists dn'; by rewrite <- Hd, <- app_assoc].
      by eapply keeps_trans.
  - destruct (good_try_append _ _ _ _ _ Hi Hr Et) as [Hg ->]. simplify_eq.
    split; [by apply keeps_refl|]. by exists dn.
  - simplify_eq. split; [by apply keeps_refl|]. by exists dn.
Qed.

(** Popping a handle that answered [Ok]. *)
Lemma settled_pop w h hs sent n :
  settled w (h :: hs) sent -> wait_handle w h = Some (Ok n) -> settled w hs sent.
Proof.
  intros Hs Hw. eapply Forall_impl; [exact Hs|]. intros r [Ha|Hp]; [by left|].
  apply Exists_cons in Hp as [Hp|Hp]; [left; by eapply wait_promised|by right].
Qed.

Lemma await_ok w pc args k k' :
  call_ok w (args, k) -> await_handle w pc k = Some k' ->
  (ca_pc k = PcAwait /\ pc = PcReturned (Ok (ca_assigned k))
   \/ exists q, ca_pc k = PcDrain q /\ pc = PcPermit q) ->
  call_ok w (args, k').
Proof.
  intros [Hw Hc] E Hpc. unfold await_handle in E. split; [done|].
  assert (exists dn, args = dn ++ ca_todo k /\ length (ca_assigned k) = length dn
    /\ settled w (ca_handles k) (stamped (ca_assigned k) dn)
    /\ match ca_pc k with PcAwait => ca_todo k = [] | _ => True end) as (dn & Ea & El & Hs & Ht)
    by (destruct Hpc as [[Hp _]|(q & Hp & _)]; rewrite Hp in Hc |- *; exact Hc).
  destruct (ca_handles k) as [|h hs] eqn:Eh.
  - simplify_eq. cbn [ca_pc at_pc]. destruct Hpc as [[Hp ->]|(q & Hp & ->)].
    + rewrite Hp in Ht. rewrite Ht, app_nil_r. split; [done|]. eapply Forall_impl; [exact Hs|].
      intros r [Ha|Hx]; [done|]. by apply Exists_nil in Hx.
    + exists dn. cbn. by rewrite Eh.
  - destruct (wait_handle w h) as [[n|e]|] eqn:Ew; cbn in E; simplify_eq; [|done].
    cbn [ca_pc ca_todo ca_assigned ca_handles]. pose proof (settled_pop _ _ _ _ _ Hs Ew) as Hs'.
    destruct Hpc as [[Hp _]|(q & Hp & _)]; rewrite Hp in Ht |- *; by exists dn.
Qed.

Lemma call_step_ok base cr w args k w' k' :
  wal_inv base w -> call_ok w (args, k) -> (ca_pc k = PcRolling -> rollover_sound cr w) ->
  call_step cr w k = Some (w', k') -> keeps base w w' /\ call_ok w' (args, k').
Proof.
  intros Hi Hc Hr E. unfold call_step in E. destruct (ca_pc k) as [|q|q| | |r] eqn:Ep.
  - destruct Hc as [Hw Hc]. rewrite Ep in Hc. destruct Hc as (dn & -> & El & Hs & _).
    apply Forall_app in Hw as Hw'. destruct Hw' as [_ Hw'].
    destruct (enqueue_batch w (ca_todo k) (ca_handles k) (ca_assigned k)) as [[[[w1 todo] hs] ls] stop] eqn:Eb.
    simplify_eq. destruct (batch_keeps _ _ _ _ _ _ _ _ _ _ _ Hi Hw' El Hs Eb) as (Hk & dn' & Ed & El' & Hs' & Ht).
    split; [done|]. split; [done|]. cbn [ca_pc]. rewrite Ed.
    destruct stop; cbn [ca_todo ca_handles ca_assigned]; try done; exists dn'; done.
  - destruct (await_handle w (PcPermit q) k) as [k1|] eqn:Ea; cbn in E; simplify_eq.
    split; [by apply keeps_refl|]. eapply await_ok; [done..|]. right. by exists q.
  - destruct (rollover_begin w q) as [[w1 r]|] eqn:Eb; cbn in E; simplify_eq.
    pose proof (good_keeps _ _ _ (good_rollover_begin _ _ _ _ _ Hi Eb)) as Hk. split; [done|].
    eapply call_ok_keeps in Hc; [|exact Hk]. destruct Hc as [Hw Hc]. rewrite Ep in Hc.
    split; [done|]. destruct r as [[]|]; cbn; done.
  - destruct (rollover_finish cr w) as [[w1 r]|] eqn:Eb; cbn in E; simplify_eq.
    pose proof (good_keeps _ _ _ (good_rollover_finish _ _ _ _ _ Hi (Hr eq_refl) Eb)) as Hk. split; [done|].
    eapply call_ok_keeps in Hc; [|exact Hk]. destruct Hc as [Hw Hc]. rewrite Ep in Hc.
    split; [done|]. destruct r; cbn; done.
  - destruct (await_handle w _ k) as [k1|] eqn:Ea; cbn in E; simplify_eq.
    split; [by apply keeps_refl|]. eapply await_ok; [done..|]. by left.
  - done.
Qed.

(** ** The system *)

Definition sys_inv (base : list WalRecord) (s : Sys) : Prop :=
  wal_inv base (sy_wal s) /\ Forall (call_ok (sy_wal s)) (sy_calls s).

Lemma calls_keep base w w' calls : keeps base w w' -> Forall (call_ok w) calls -> Forall (call_ok w') calls.
Proof. intros Hk Hc. eapply Forall_impl; [exact Hc|]. intros e. by eapply call_ok_keeps. Qed.

Lemma sys_step_keeps base s s' :
  sys_inv base s -> sound_step s s' -> sys_inv base s' /\ keeps base (sy_wal s) (sy_wal s').
Proof.
  intros [Hi Hc] (a & Hs & Hr).
  destruct Hs as [records s Hw|i args k cr w' k' s Hk E|ev w' s E|s|io w' r s E];
    unfold sys_inv; cbn [sy_wal sy_calls].
  - split; [|by apply keeps_refl]. split; [done|]. apply Forall_app. split; [done|].
    constructor; [|done]. split; [done|]. cbn. exists []. split_and!; try done. apply Forall_nil_2.
  - pose proof (Forall_lookup_1 _ _ _ _ Hc Hk) as Hck.
    destruct (call_step_ok _ _ _ _ _ _ _ Hi Hck (Hr _ _ Hk) E) as [Hkeep Hok].
    split; [|done]. split; [apply Hkeep|]. apply Forall_insert; [by eapply calls_keep|done].
  - pose proof (good_keeps _ _ _ (good_task_event _ _ _ _ Hi E)) as Hk.
    split; [|done]. split; [apply Hk|by eapply calls_keep].
  - pose proof (good_keeps _ _ _ (good_shutdown_begin _ _ Hi)) as Hk.
    split; [|done]. split; [apply Hk|by eapply calls_keep].
  - pose proof (good_keeps _ _ _ (good_shutdown_finish _ _ _ _ _ Hi E)) as Hk.
    split; [|done]. split; [apply Hk|by eapply calls_keep].
Qed.

Lemma sys_start base w : wal_inv base w -> sys_inv base {| sy_wal := w; sy_calls := [] |}.
Proof. split; [done|apply Forall_nil_2]. Qed.

Lemma sys_reach_inv base s s' : sys_inv base s -> rtc sound_step s s' -> sys_inv base s'.
Proof. intros Hi Hr. induction Hr as [|s1 s2 s3 Hs _ IH]; [done|]. apply IH. by eapply sys_step_keeps. Qed.
End invariant.

#[global] Arguments wi_uuid {_ _ _ _ _ _ _ _ _ _ _} _.
#[global] Arguments wi_view {_ _ _ _ _ _ _ _ _ _ _} _.
#[global] Arguments wi_others {_ _ _ _ _ _ _ _ _ _ _} _.
#[global] Arguments wi_closed {_ _ _ _ _ _ _ _ _ _ _} _.
#[global] Arguments wi_seq {_ _ _ _ _ _ _ _ _ _ _} _.
#[global] Arguments wi_nums {_ _ _ _ _ _ _ _ _ _ _} _.
#[global] Arguments wi_committer {_ _ _ _ _ _ _ _ _ _ _} _.
#[global] Arguments wi_log {_ _ _ _ _ _ _ _ _ _ _} _.
#[global] Arguments wi_wf {_ _ _ _ _ _ _ _ _ _ _} _.
#[global] Arguments wi_lsns {_ _ _ _ _ _ _ _ _ _ _} _.
#[global] Arguments wi_next {_ _ _ _ _ _ _ _ _ _ _} _.
#[global] Arguments wi_retired {_ _ _ _ _ _ _ _ _ _ _} _.
