(* ===== verification/WalDurability.v ===== *)
(** Durability and resumption of the WAL: the theorems about [Sys].

    [crash_layout]: whatever the moment of a crash, the directory it leaves
    is a layout whose records begin with everything acknowledged.
    [wal_append_durable] is the guarantee of [append]; [wal_create_ready]
    establishes the invariant for a new directory ([WalResume] does it for one
    that a crash has left).  [exec] runs a list of steps. *)

From S2P Require Import Prelude Crc32c Ids WalKinds WalRecord WalSegment WalReader WalReaderSpec.
From S2P Require Import WalReaderOpen GroupCommit Wal WalDisk WalSpec.
Import Wal.

Section durability.
Context `{CRC : Crc32c} `{!Crc32cLaws CRC}.

(** The description of the active segment after a crash. *)
Definition crashed_desc (seq lsn now : Z) (recs : list WalRecord) (tail : bytes) : SegDesc :=
  {| sd_seq := seq; sd_lsn := lsn; sd_now := now; sd_recs := recs; sd_tail := tail |}.

Lemma crash_entries w base seq lsn closed others rs0 now c ret junk :
  wal_inv_at w base seq lsn closed others rs0 now c ret ->
  crash junk w ≡ₚ (segment_path (active_seq w), sf_durable (seg_file (cm_segment c)) ++ junk)
    :: map (sd_entry (shard_uuid w)) closed ++ map (fun e => (e.1, sf_durable e.2)) others.
Proof.
  intros Hi. unfold crash. rewrite (inv_disk Hi).
  cbn [map active_entry fst snd]. rewrite bool_decide_true by done. apply perm_skip.
  destruct (wi_seq Hi) as (H0 & Ha & Hlt).
  rewrite map_app, map_map. apply reflexive_eq. f_equal.
  - apply map_ext_in. intros d Hd%list_elem_of_In. cbn [closed_entry fst snd synced sf_durable].
    pose proof (closed_below _ _ _ _ (proj1 (wi_closed Hi)) Hd).
    rewrite bool_decide_false, app_nil_r; [done|]. intros E. apply segment_path_inj in E; lia.
  - apply map_ext_in. intros e He%list_elem_of_In.
    pose proof (proj1 (Forall_forall _ _) (proj1 (wi_others Hi)) e He) as Hn.
    rewrite bool_decide_false, app_nil_r; [done|]. intros E. apply Hn. rewrite E.
    apply segment_path_parse. lia.
Qed.

Lemma layout_names_NoDup seq lsn ds :
  layout seq lsn ds -> NoDup (map (fun d => segment_path (sd_seq d)) ds).
Proof.
  intros Hl. apply NoDup_alt. intros i j x. rewrite !list_lookup_fmap.
  destruct (ds !! i) as [a|] eqn:Ea; [|done]. destruct (ds !! j) as [b|] eqn:Eb; [|done].
  intros [= <-] [= E]. pose proof (layout_ok _ _ _ Hl) as Hok.
  apply segment_path_inj in E; [|eapply Forall_lookup_1 in Hok as []; eauto..].
  rewrite (layout_seq _ _ _ _ _ Hl Ea), (layout_seq _ _ _ _ _ Hl Eb) in E. lia.
Qed.

(** A directory with the entries of a layout and other files. *)
Lemma holds_intro uuid seq lsn ds others dir :
  layout seq lsn ds -> Forall not_wal others -> NoDup (map fst others) ->
  dir ≡ₚ map (sd_entry uuid) ds ++ others -> holds uuid dir ds.
Proof.
  intros Hl Ho Hn Hp. split; [by exists others|]. rewrite Hp, map_app, map_map. cbn [sd_entry fst].
  apply NoDup_app. split; [by eapply layout_names_NoDup|]. split; [|done].
  intros x (d & -> & Hd)%list_elem_of_fmap (e & E & He)%list_elem_of_fmap.
  pose proof (proj1 (Forall_forall _ _) Ho e He) as Hx. apply Hx. rewrite <- E.
  apply segment_path_parse. pose proof (layout_ok _ _ _ Hl) as Hok.
  by apply (proj1 (Forall_forall _ _) Hok d) in Hd as [].
Qed.

(** What a crash leaves is a layout; its records are everything that was
    acknowledged and perhaps more of what was submitted, then a tail. *)
Lemma crash_layout base w junk dir :
  wal_inv base w -> dir ≡ₚ crash junk w ->
  exists seq lsn closed d, let ds := closed ++ [d] in
    layout seq lsn ds /\ Forall clean closed /\ holds (shard_uuid w) dir ds
    /\ base `prefix_of` layout_recs ds /\ layout_recs ds `prefix_of` base ++ log w
    /\ (forall r, acked w r -> r ∈ layout_recs ds)
    /\ sd_seq d = active_seq w /\ exists rest, sd_tail d = rest ++ junk.
Proof.
  intros (seq & lsn & closed & others & rs0 & now & c & ret & Hi) Hd.
  pose proof (wi_committer Hi) as (dn & mid & Hci).
  destruct (inv_acks Hci) as ((rest & Hdur & _) & Hacks & _).
  set (l1 := lsn_after lsn (layout_recs closed)) in *.
  pose proof (ci_submitted Hci) as Hsub.
  exists seq, lsn, closed, (crashed_desc (active_seq w) l1 now (rs0 ++ dn) (rest ++ junk)).
  cbv zeta. set (d := crashed_desc _ _ _ _ _).
  pose proof (wi_log Hi) as Hlog.
  assert (layout_recs (closed ++ [d]) = layout_recs closed ++ rs0 ++ dn) as Erecs.
  { rewrite layout_recs_app. f_equal. unfold layout_recs; cbn. by rewrite app_nil_r. }
  assert (layout seq lsn (closed ++ [d])) as Hlay.
  { apply layout_app. split; [apply Hi|]. destruct (wi_seq Hi) as (? & ? & ?).
    pose proof (wi_lsns Hi) as Hls. pose proof (wi_wf Hi) as Hwf.
    rewrite Hsub, !lsns_ok_app in Hls. rewrite Hsub, !Forall_app in Hwf.
    destruct (wi_nums Hi) as [Hl Hn].
    split; [|done]. split; cbn [d crashed_desc sd_seq sd_lsn sd_now sd_recs];
      [lia|by apply lsn_after_u64|done|apply Forall_app; tauto|rewrite lsns_ok_app; tauto]. }
  destruct (wi_others Hi) as [Ho Hon].
  split_and!; [done|apply Hi| | | | |done|by exists rest].
  - eapply (holds_intro _ _ _ _ (map (fun e => (e.1, sf_durable e.2)) others)); [exact Hlay| | |].
    + apply Forall_fmap. eapply Forall_impl; [exact Ho|]. done.
    + rewrite map_map. exact Hon.
    + rewrite Hd, (crash_entries _ _ _ _ _ _ _ _ _ _ _ Hi), map_app, <- app_assoc. cbn [map app].
      assert (sd_entry (shard_uuid w) d
        = (segment_path (active_seq w), sf_durable (seg_file (cm_segment c)) ++ junk)) as ->.
      { unfold sd_entry, sd_bytes. cbn [d crashed_desc sd_seq sd_lsn sd_now sd_recs sd_tail].
        by rewrite Hdur, <- !app_assoc. }
      apply Permutation_middle.
  - rewrite Erecs. rewrite (inv_log_split Hi), !app_assoc in Hlog.
    apply (inj (.++ cm_submitted c)) in Hlog. rewrite app_assoc, Hlog.
    rewrite <- app_assoc. by eexists.
  - rewrite Erecs, <- Hlog, Hsub. exists (mid ++ map fst (cm_queue c)). by rewrite <- !app_assoc.
  - intros r (q & c1 & id & n & Hin & Hr & Hid). rewrite Erecs.
    rewrite (inv_committers Hi) in Hin.
    apply elem_of_cons in Hin as [E|Hin].
    + apply (f_equal snd) in E; cbn in E; subst c1. destruct (Hacks _ _ Hid) as (r' & Hr' & _).
      rewrite Hsub, (lookup_app_l_Some _ _ _ _ Hr') in Hr. simplify_eq.
      rewrite !elem_of_app. right; right. by eapply list_elem_of_lookup_2.
    + pose proof (proj1 (Forall_forall _ _) (wi_retired Hi) _ Hin) as (_ & _ & Hret).
      rewrite elem_of_app. left. eauto.
Qed.

(** What the reader makes of the directory a crash leaves. *)
Lemma crash_delivers base w junk dir :
  wal_inv base w -> dir ≡ₚ crash junk w ->
  exists r durable more e r' n, open dir (shard_uuid w) = Ok r
    /\ (forall fuel, (n < fuel)%nat -> read_all fuel dir r = Some (durable ++ more, e, r'))
    /\ (forall rec, acked w rec -> rec ∈ durable)
    /\ base `prefix_of` durable /\ durable `prefix_of` base ++ log w.
Proof.
  intros Hw Hd.
  destruct (crash_layout _ _ _ _ Hw Hd) as (seq & lsn & closed & d & Hl & Hcl & Hh & Hb & Hp & Hack & _).
  assert (length (shard_uuid w) = 16%nat) as Hu
    by (destruct Hw as (? & ? & ? & ? & ? & ? & ? & ? & Hw); apply Hw).
  destruct (read_layout_all (shard_uuid w) seq lsn closed d dir Hu Hl Hcl Hh) as (more & e & r' & n & Er & _).
  exists (reader_of (shard_uuid w) (closed ++ [d])), (layout_recs (closed ++ [d])), more, e, r', n.
  split_and!; try done. by eapply open_layout.
Qed.

(** C2: durability of append: in a run with any number of concurrent calls,
    rollovers, a shutdown, and flushes that fail at any point, provided that
    no rollover follows a failed flush of the segment it closes and that every
    new segment is created without an error ([sound_step]; the code does not
    see to it, and [wal_rollover_revives_broken] and
    [wal_torn_creation_blocks_open] show what happens otherwise): if a call of [append_many] (or [append], the call with one
    record) has returned [Ok], then whatever a crash at that moment leaves
    behind the end of the active segment, the directory opens and the reader
    delivers every record of the call, stamped with the LSN the call
    returned.  What it delivers first is exactly a part of the log as it was
    submitted, from its beginning, with nothing missing in between. *)
Theorem wal_append_durable base w0 s args k lsns junk dir :
  wal_inv base w0 -> rtc sound_step {| sy_wal := w0; sy_calls := [] |} s ->
  (args, k) ∈ sy_calls s -> ca_pc k = PcReturned (Ok lsns) -> dir ≡ₚ crash junk (sy_wal s) ->
  exists r durable more e r' n, open dir (shard_uuid (sy_wal s)) = Ok r
    /\ (forall fuel, (n < fuel)%nat -> read_all fuel dir r = Some (durable ++ more, e, r'))
    /\ length lsns = length args
    /\ Forall (fun rec => rec ∈ durable) (stamped lsns args)
    /\ base `prefix_of` durable /\ durable `prefix_of` base ++ log (sy_wal s).
Proof.
  intros Hi Hr Hk Hpc Hd.
  destruct (sys_reach_inv base _ _ (sys_start _ _ Hi) Hr) as [Hw Hc].
  apply (proj1 (Forall_forall _ _) Hc) in Hk as [_ Hk]. rewrite Hpc in Hk. destruct Hk as [El Ha].
  destruct (crash_delivers _ _ _ _ Hw Hd) as (r & durable & more & e & r' & n & Ho & Er & Hack & Hb & Hp).
  exists r, durable, more, e, r', n. split_and!; try done. eapply Forall_impl; [exact Ha|]. exact Hack.
Qed.

(** ** A new directory *)

Lemma create_inv fs uuid cfg cr fs' w :
  length uuid = 16%nat -> NoDup (map fst fs) -> u64 (cr_now cr) ->
  create_with_config fs uuid cfg cr = (fs', Ok w) ->
  wal_inv [] w /\ log w = [] /\ next_lsn w = 1 /\ active_seq w = 0 /\ shard_uuid w = uuid
  /\ disk w = fs ++ [(segment_path 0, synced (header_of uuid 0 1 (cr_now cr)))].
Proof.
  intros Hu Hn Hnow E. unfold create_with_config in E.
  destruct (existsb _ fs) eqn:Ex; [done|].
  assert (Forall not_wal_file fs) as Hfs.
  { apply Forall_forall. intros e He Hw. apply not_true_iff_false in Ex. apply Ex, existsb_exists.
    exists e. rewrite <- list_elem_of_In. split; [done|]. by apply bool_decide_eq_true_2. }
  rewrite file_at_None in E.
  2: { intros (e & E' & He)%list_elem_of_fmap. apply (proj1 (Forall_forall _ _) Hfs e He).
       rewrite <- E'. apply segment_path_parse. lia. }
  destruct (create_new None (cr_io cr) (cr_now cr) 0 1 uuid) as [f [seg|e]] eqn:Ec; [|done].
  destruct (cr_fsync_dir cr) as [[]|] eqn:Ed; [|done].
  apply (f_equal snd) in E. cbn [snd] in E. apply Ok_inj in E. subst w.
  apply create_new_inv in Ec as ->; [|done].
  split; [|split_and!; try done; unfold disk; cbn; by rewrite app_nil_r].
  exists 0, 1, [], fs, [], (cr_now cr), (start (new_segment 0 1 uuid (cr_now cr)) (group_commit cfg)), [].
  split; cbn [shard_uuid active_seq next_lsn retired files]; try done.
  - left. split; [left; by eexists|]. done.
  - apply start_inv; [by apply new_segment_holds|done].
Qed.

(** Creation: a WAL created in a directory without segments is ready: it
    satisfies the invariant with an empty log, starts at LSN 1 in segment 0,
    and leaves every other file alone. *)
Lemma wal_create_ready fs uuid cfg cr fs' w :
  length uuid = 16%nat -> NoDup (map fst fs) -> u64 (cr_now cr) ->
  create_with_config fs uuid cfg cr = (fs', Ok w) ->
  wal_inv [] w /\ log w = [] /\ next_lsn w = 1 /\ active_seq w = 0 /\ shard_uuid w = uuid
  /\ disk w = fs ++ [(segment_path 0, synced (header_of uuid 0 1 (cr_now cr)))].
Proof. apply create_inv. Qed.
End durability.

(** ** Executing steps *)

#[global] Instance result_eq_dec {A E} `{EqDecision A} `{EqDecision E} : EqDecision (result A E).
Proof. solve_decision. Defined.
#[global] Instance WriteOutcome_eq_dec : EqDecision WriteOutcome.
Proof. solve_decision. Defined.

#[global] Instance WalRecord_wf_dec r : Decision (WalRecord_wf r).
Proof.
  refine (cast_if (decide (u64 (wr_lsn r) /\ u8 (wr_flags r) /\ u64 (wr_timestamp_ns r)
    /\ u64 (wr_space_id_lo64 r) /\ Z.of_nat (length (wr_payload r)) <= MAX_PAYLOAD)));
    [by split; tauto|by intros []; tauto].
Defined.

Definition rollover_soundb (cr : CreateIo) (w : Wal) : bool :=
  bool_decide (io_write (cr_io cr) = Wrote WAL_SEGMENT_HEADER_LEN)
  && bool_decide (io_sync (cr_io cr) = Ok tt) && bool_decide (cr_fsync_dir cr = Ok tt)
  && bool_decide (u64 (cr_now cr)) && (active_seq w + 1 <? 10 ^ 10)
  && match draining w with Some (_, c) => match cm_broken c with None => true | Some _ => false end | None => true end.

Section exec.
Context `{CRC : Crc32c}.

Definition act (a : Act) (s : Sys) : option Sys :=
  match a with
  | ACall records =>
    if forallb (fun r => bool_decide (WalRecord_wf r)) records
    then Some {| sy_wal := sy_wal s; sy_calls := sy_calls s ++ [(records, append_many records)] |} else None
  | ARun i cr =>
    '(args, k) ← sy_calls s !! i;
    '(w, k) ← call_step cr (sy_wal s) k;
    Some {| sy_wal := w; sy_calls := <[i := (args, k)]> (sy_calls s) |}
  | ATask ev => w ← task_event ev (sy_wal s); Some {| sy_wal := w; sy_calls := sy_calls s |}
  | AShutdown => Some {| sy_wal := shutdown_begin (sy_wal s); sy_calls := sy_calls s |}
  | ADown io => '(w, _) ← shutdown_finish io (sy_wal s); Some {| sy_wal := w; sy_calls := sy_calls s |}
  end.

Definition sound_actb (a : Act) (s : Sys) : bool :=
  match a with
  | ARun i cr =>
    match sy_calls s !! i with
    | Some (_, k) => match ca_pc k with PcRolling => rollover_soundb cr (sy_wal s) | _ => true end
    | None => true
    end
  | _ => true
  end.

(** A run of sound steps. *)
Fixpoint exec (acts : list Act) (s : Sys) : option Sys :=
  match acts with
  | [] => Some s
  | a :: acts => if sound_actb a s then s ← act a s; exec acts s else None
  end.

Lemma rollover_soundb_true cr w : rollover_soundb cr w = true -> rollover_sound cr w.
Proof.
  unfold rollover_soundb. rewrite !andb_true_iff, !bool_decide_eq_true, Z.ltb_lt.
  intros (((((H1 & H2) & H3) & H4) & H5) & H6). split; [by split|]. split; [done|].
  intros why c E. rewrite E in H6. by destruct (cm_broken c).
Qed.

Lemma sound_actb_true a s : sound_actb a s = true -> sound_act a s.
Proof.
  destruct a as [|i cr| | |]; try done. cbn. intros E args k Hk Hp. rewrite Hk, Hp in E.
  by apply rollover_soundb_true.
Qed.

Lemma act_step a s s' : act a s = Some s' -> sys_step a s s'.
Proof.
  destruct a as [records|i cr|ev| |io]; cbn [act].
  - destruct (forallb _ records) eqn:Ef; [|done]. intros [= <-]. apply sys_call, Forall_forall.
    intros r Hr%list_elem_of_In. rewrite forallb_forall in Ef. by apply (bool_decide_eq_true_1 _), Ef.
  - destruct (sy_calls s !! i) as [[args k]|] eqn:El; cbn [mbind option_bind]; [|done].
    destruct (call_step cr (sy_wal s) k) as [[w1 k1]|] eqn:Ec; cbn [mbind option_bind]; [|done].
    intros [= <-]. by eapply sys_run.
  - destruct (task_event ev (sy_wal s)) as [w1|] eqn:Et; cbn; [|done]. intros [= <-]. by eapply sys_task.
  - intros [= <-]. apply sys_shutdown.
  - destruct (shutdown_finish io (sy_wal s)) as [[w1 r]|] eqn:Et; cbn; [|done]. intros [= <-].
    by eapply sys_down.
Qed.

Lemma exec_steps acts s s' : exec acts s = Some s' -> rtc sound_step s s'.
Proof.
  revert s. induction acts as [|a acts IH]; intros s; cbn [exec]; [by intros [= <-]|].
  destruct (sound_actb a s) eqn:Hs; [|done].
  destruct (act a s) as [s1|] eqn:Ea; cbn [mbind option_bind]; [|done]. intros E.
  eapply rtc_l; [|by apply IH]. exists a. split; [by apply act_step|by apply sound_actb_true].
Qed.
End exec.

(** ** Two records, a rollover between them, and a crash with a torn write *)

Module WalExample.
Import Castagnoli.

Definition uuid : bytes := replicate 16 Byte.x11.
Definition cfg : WalConfig :=
  {| group_commit := GroupCommitConfig_default; max_segment_bytes := WAL_SEGMENT_HEADER_LEN + 60 |}.
Definition rec (b : Byte.byte) : WalRecord :=
  {| wr_lsn := 0; wr_kind := KForget; wr_flags := 0; wr_timestamp_ns := 7; wr_space_id_lo64 := 3;
     wr_payload := [b; b; b] |}.
Definition io_ok (n : nat) : FlushIo := {| io_write := Wrote n; io_sync := Ok tt |}.
Definition cr : CreateIo :=
  {| cr_close := Ok tt; cr_io := io_ok WAL_SEGMENT_HEADER_LEN; cr_now := 5; cr_fsync_dir := Ok tt |}.

Definition created : Wal :=
  match snd (create_with_config [] uuid cfg cr) with
  | Ok w => w
  | Err _ => {| files := []; shard_uuid := []; next_lsn := 0; active_seq := 0; segment := RollingOver;
                config := cfg; draining := None; retired := [] |}
  end.

Lemma created_ok : create_with_config [] uuid cfg cr = ([], Ok created).
Proof.
  assert (fst (create_with_config [] uuid cfg cr) = []) as E1 by (vm_compute; reflexivity).
  assert (is_ok (snd (create_with_config [] uuid cfg cr)) = true) as E2 by (vm_compute; reflexivity).
  unfold created. destruct (create_with_config [] uuid cfg cr) as [fs [w|e]]; cbn [fst snd is_ok] in *.
  - by rewrite E1.
  - discriminate E2.
Qed.

Lemma wal_create_ready_witness : wal_inv [] created /\ next_lsn created = 1.
Proof.
  destruct (wal_create_ready [] uuid cfg cr [] created) as (H & _ & H' & _);
    [reflexivity|apply NoDup_nil_2|unfold uint; cbn; lia|exact created_ok|done].
Defined.

Definition flush_one : list Act := [ATask EvReceive; ATask EvGatherEnd; ATask (EvFlush (io_ok 43))].
Definition run : Act := ARun 0 cr.
Definition acts : list Act :=
  [ACall [rec Byte.x61; rec Byte.x62]; run] ++ flush_one ++ [run; run; run; ATask EvShutdown;
   ATask (EvFlush (io_ok 0)); run; run] ++ flush_one ++ [run; run].

Definition started : Sys := {| sy_wal := created; sy_calls := [] |}.
Definition final : Sys := default started (exec acts started).

Lemma created_inv : wal_inv [] created.
Proof.
  eapply (create_inv [] uuid cfg cr [] created);
    [reflexivity|apply NoDup_nil_2|unfold uint; cbn; lia|exact created_ok].
Qed.

Lemma final_reached : exec acts started = Some final.
Proof.
  assert (match exec acts started with Some _ => true | None => false end = true) as E
    by (vm_compute; reflexivity).
  unfold final. destruct (exec acts started); [done|discriminate E].
Qed.

(** The call has returned the LSNs 1 and 2. *)
Definition returned (e : list WalRecord * Call) : bool :=
  bool_decide (e.1 = [rec Byte.x61; rec Byte.x62])
  && match ca_pc e.2 with PcReturned (Ok lsns) => bool_decide (lsns = [1; 2]) | _ => false end.

Lemma final_returned :
  exists k, ([rec Byte.x61; rec Byte.x62], k) ∈ sy_calls final /\ ca_pc k = PcReturned (Ok [1; 2]).
Proof.
  assert (existsb returned (sy_calls final) = true) as E by (vm_compute; reflexivity).
  apply existsb_exists in E as ([args k] & Hin & Hk). unfold returned in Hk. cbn [fst snd] in Hk.
  apply andb_prop in Hk as [->%bool_decide_eq_true_1 Hk]. exists k.
  rewrite list_elem_of_In. split; [done|].
  destruct (ca_pc k) as [| | | | |[lsns|]]; try discriminate Hk. by apply bool_decide_eq_true_1 in Hk as ->.
Qed.

Lemma wal_append_durable_witness :
  let torn := take 20 (frame (rec Byte.x63)) in
  exists r durable more e r' n, open (crash torn (sy_wal final)) (shard_uuid (sy_wal final)) = Ok r
    /\ (forall fuel, (n < fuel)%nat ->
          read_all fuel (crash torn (sy_wal final)) r = Some (durable ++ more, e, r'))
    /\ set_lsn 1 (rec Byte.x61) ∈ durable /\ set_lsn 2 (rec Byte.x62) ∈ durable.
Proof.
  intros torn. destruct final_returned as (k & Hin & Hk).
  destruct (wal_append_durable [] created final [rec Byte.x61; rec Byte.x62] k [1; 2] torn
    (crash torn (sy_wal final)) created_inv (exec_steps _ _ _ final_reached) Hin Hk (Permutation_refl _))
    as (r & durable & more & e & r' & n & Ho & Hr & _ & Hs & _).
  exists r, durable, more, e, r', n. split; [exact Ho|]. split; [exact Hr|].
  apply Forall_cons in Hs as [H1 Hs]. apply Forall_cons in Hs as [H2 _]. split; [exact H1|exact H2].
Defined.
End WalExample.
