(* ===== verification/WalOrder.v ===== *)
(** The order of LSNs.

    Calls of [append] and [append_many] run concurrently; the LSNs they are
    given respect their order in real time ([wal_lsn_order]): a call that
    starts after another one has returned gets larger LSNs, and the LSNs of
    one call increase.  [room] excludes the overflow of the 64-bit counter. *)

From stdpp Require Import sorting.
From S2P Require Import Prelude Crc32c Ids WalKinds WalRecord WalSegment WalReader WalReaderSpec.
From S2P Require Import WalReaderOpen GroupCommit Wal WalDisk WalSpec WalDurability.
Import Wal.

Section order.
Context `{CRC : Crc32c} `{!Crc32cLaws CRC}.

(** ** LSNs a step assigns *)

Lemma batch_logged base todo w hs ls w' todo' hs' ls' stop :
  wal_inv base w -> Forall WalRecord_wf todo ->
  enqueue_batch w todo hs ls = (w', todo', hs', ls', stop) ->
  exists recs, logged recs w w' /\ ls' = ls ++ map wr_lsn recs.
Proof.
  revert w hs ls. induction todo as [|r todo IH]; intros w hs ls Hi Hw E; cbn [enqueue_batch] in E.
  { simplify_eq. exists []. split; [apply logged_nil|by rewrite app_nil_r]. }
  apply Forall_cons in Hw as [Hr Hw].
  destruct (try_append w r) as [[w1 [lsn h|q]]|e] eqn:Et.
  - destruct (good_try_append _ _ _ _ _ Hi Hr Et) as [[Hi1 _] [_ Hl]].
    destruct (IH _ _ _ Hi1 Hw E) as (recs & Hl' & ->). exists (set_lsn lsn r :: recs).
    split; [by apply (logged_app [_] recs w w1 w')|]. by rewrite <- app_assoc.
  - destruct (good_try_append _ _ _ _ _ Hi Hr Et) as [_ ->]. simplify_eq.
    exists []. split; [apply logged_nil|by rewrite app_nil_r].
  - simplify_eq. exists []. split; [apply logged_nil|by rewrite app_nil_r].
Qed.

(** What a call has answered is what it was given. *)
Definition faithful (k : Call) : Prop :=
  match ca_pc k with PcReturned (Ok lsns) => lsns = ca_assigned k | _ => True end.

Lemma await_assigned w pc k k' :
  await_handle w pc k = Some k' -> match pc with PcReturned (Ok lsns) => lsns = ca_assigned k | _ => True end ->
  faithful k -> ca_assigned k' = ca_assigned k /\ faithful k'.
Proof.
  unfold await_handle. destruct (ca_handles k) as [|h hs]; intros E Hpc Hf; [by simplify_eq|].
  destruct (wait_handle w h) as [[n|e]|]; cbn in E; by simplify_eq.
Qed.

Lemma call_step_assigned base cr w args k w' k' :
  wal_inv base w -> call_ok w (args, k) -> faithful k -> call_step cr w k = Some (w', k') ->
  faithful k' /\ (ca_assigned k' = ca_assigned k
                  \/ exists recs, logged recs w w' /\ ca_assigned k' = ca_assigned k ++ map wr_lsn recs).
Proof.
  intros Hi Hc Hf E. unfold call_step in E. destruct (ca_pc k) as [|q|q| | |r] eqn:Ep.
  - destruct Hc as [Hw Hc]. rewrite Ep in Hc. destruct Hc as (dn & -> & _).
    apply Forall_app in Hw as [_ Hw].
    destruct (enqueue_batch _ _ _ _) as [[[[w1 todo] hs] ls] stop] eqn:Eb. simplify_eq.
    destruct (batch_logged _ _ _ _ _ _ _ _ _ _ Hi Hw Eb) as (recs & Hl & ->).
    split; [by destruct stop|]. right. by exists recs.
  - destruct (await_handle w (PcPermit q) k) as [k1|] eqn:Ea; cbn in E; simplify_eq.
    destruct (await_assigned _ _ _ _ Ea I Hf) as [-> ?]. auto.
  - destruct (rollover_begin w q) as [[w1 r]|]; cbn in E; simplify_eq.
    split; [by destruct r as [[]|]|by left].
  - destruct (rollover_finish cr w) as [[w1 r]|]; cbn in E; simplify_eq.
    split; [by destruct r|by left].
  - destruct (await_handle w _ k) as [k1|] eqn:Ea; cbn in E; simplify_eq.
    destruct (await_assigned _ _ _ _ Ea eq_refl Hf) as [-> ?]. auto.
  - done.
Qed.

(** ** Runs *)

(** The counter does not overflow. *)
Definition room (w0 : Wal) (s : Sys) : Prop :=
  0 <= next_lsn w0 /\ next_lsn w0 + Z.of_nat (length (log (sy_wal s))) < 2 ^ 64.

Lemma logged_next x w w' :
  logged x w w' -> 0 <= next_lsn w -> next_lsn w + Z.of_nat (length x) < 2 ^ 64 ->
  next_lsn w' = next_lsn w + Z.of_nat (length x)
  /\ Forall (fun r => next_lsn w <= wr_lsn r < next_lsn w') x.
Proof.
  intros (_ & Hl & En) H0 Hb. rewrite lsn_after_small in En by done. rewrite En.
  split; [done|]. by apply lsns_ok_below.
Qed.

Lemma lsns_sorted lsn rs :
  0 <= lsn -> lsn + Z.of_nat (length rs) < 2 ^ 64 -> lsns_ok lsn rs -> StronglySorted Z.lt (map wr_lsn rs).
Proof.
  revert lsn. induction rs as [|r rs IH]; intros lsn H0 Hb Hl; [constructor|].
  cbn [lsns_ok length] in Hl, Hb. rewrite wrap_small in Hl by (unfold uint; lia). destruct Hl as [El Hl].
  cbn [map]. constructor; [apply (IH (lsn + 1)); [lia..|done]|].
  apply Forall_map. eapply Forall_impl; [apply (lsns_ok_below (lsn + 1)); [lia..|done]|]. cbn. lia.
Qed.

(** The LSNs of a call increase and are below [next]. *)
Record call_below (next : Z) (k : Call) : Prop := {
  cb_faithful : faithful k;
  cb_below : Forall (fun l => l < next) (ca_assigned k);
  cb_sorted : StronglySorted Z.lt (ca_assigned k);
}.

Lemma call_below_le next next' k : next <= next' -> call_below next k -> call_below next' k.
Proof. intros Hle [H1 H2 H3]. split; [done| |done]. eapply Forall_impl; [exact H2|]. cbn. lia. Qed.

Lemma call_step_below base cr w args k w' k' x :
  wal_inv base w -> call_ok w (args, k) -> call_below (next_lsn w) k -> call_step cr w k = Some (w', k') ->
  logged x w w' -> 0 <= next_lsn w -> next_lsn w + Z.of_nat (length x) < 2 ^ 64 ->
  call_below (next_lsn w') k' /\ Forall (fun l => next_lsn w <= l \/ l ∈ ca_assigned k) (ca_assigned k').
Proof.
  intros Hi Hc [Hf Hb Hs] E Hx H0 Hroom.
  destruct (call_step_assigned _ _ _ _ _ _ _ Hi Hc Hf E) as [Hf' Ha].
  destruct (logged_next _ _ _ Hx H0 Hroom) as [En Hr].
  destruct Ha as [Ea|(recs & Hrec & Ea)].
  { split; [split; [done|rewrite Ea..]|rewrite Ea].
    - eapply Forall_impl; [exact Hb|]. cbn. lia.
    - done.
    - apply Forall_forall. auto. }
  assert (recs = x) as ->.
  { destruct Hrec as [E1 _], Hx as [E2 _]. rewrite E1 in E2. by apply (inj (app _)) in E2. }
  apply (Forall_map wr_lsn (fun l => next_lsn w <= l < next_lsn w')) in Hr.
  split; [split; [done|rewrite Ea..]|rewrite Ea].
  - apply Forall_app. split; (eapply Forall_impl; [eassumption|]; cbn; lia).
  - apply StronglySorted_app. split_and!; [|done|eapply lsns_sorted; [exact H0|exact Hroom|apply Hx]].
    intros l1 l2 H1 H2. rewrite Forall_forall in Hb, Hr. specialize (Hb _ H1). specialize (Hr _ H2).
    cbn in Hb, Hr. lia.
  - apply Forall_app. split; [apply Forall_forall; auto|]. eapply Forall_impl; [exact Hr|]. cbn. lia.
Qed.

(** In a run from [w0], with [lo] the next LSN when there were [n] calls:
    the counter counts the log, every LSN given out is below it, and the
    calls from the [n]-th on were given LSNs from [lo] on. *)
Record run_inv (w0 : Wal) (n : nat) (lo : Z) (s : Sys) : Prop := {
  ri_next : next_lsn (sy_wal s) + Z.of_nat (length (log w0))
            = next_lsn w0 + Z.of_nat (length (log (sy_wal s)));
  ri_log : exists x, logged x w0 (sy_wal s);
  ri_lo : lo <= next_lsn (sy_wal s);
  ri_below : Forall (fun e => call_below (next_lsn (sy_wal s)) e.2) (sy_calls s);
  ri_above : Forall (fun e => Forall (fun l => lo <= l) (ca_assigned e.2)) (drop n (sy_calls s));
}.

Lemma run_start w0 : run_inv w0 0 (next_lsn w0) {| sy_wal := w0; sy_calls := [] |}.
Proof. split; cbn; try done; try lia; [exists []; apply logged_nil|apply Forall_nil_2..]. Qed.

Lemma run_restart w0 n lo s : run_inv w0 n lo s -> run_inv w0 (length (sy_calls s)) (next_lsn (sy_wal s)) s.
Proof. intros [H1 H2 H3 H4 _]. split; try done. rewrite drop_ge by lia. apply Forall_nil_2. Qed.

Lemma drop_insert_Forall {A} (P : A -> Prop) n i (x : A) (l : list A) :
  Forall P (drop n l) -> ((n <= i)%nat -> P x) -> Forall P (drop n (<[i:=x]> l)).
Proof.
  intros Hf Hx. destruct (decide (i < n)%nat) as [Hlt|Hge].
  - by rewrite drop_insert_lt by lia.
  - rewrite drop_insert_ge by lia. apply Forall_insert; [done|]. apply Hx. lia.
Qed.

Lemma run_step base w0 n lo s s' :
  (n <= length (sy_calls s))%nat ->
  sys_inv base s -> run_inv w0 n lo s -> room w0 s' -> sound_step s s' ->
  run_inv w0 n lo s' /\ (length (sy_calls s) <= length (sy_calls s'))%nat.
Proof.
  intros Hn Hi [H1 [x0 H2] H3 H4 H5] [R0 R1] Hs.
  destruct (sys_step_keeps _ _ _ Hi Hs) as [_ [_ _ _ [x Hx]]].
  pose proof Hx as (El & _). rewrite El, length_app in R1.
  assert (0 <= next_lsn (sy_wal s)) as Hs0.
  { destruct H2 as (Elog & _). rewrite Elog, length_app in H1. lia. }
  destruct (logged_next _ _ _ Hx Hs0) as [En Hr]; [lia|].
  assert (Forall (fun e => call_below (next_lsn (sy_wal s')) e.2) (sy_calls s)) as H4'.
  { eapply Forall_impl; [exact H4|]. intros e. apply call_below_le. lia. }
  assert (forall calls, sy_calls s' = calls ->
    Forall (fun e => call_below (next_lsn (sy_wal s')) e.2) calls ->
    Forall (fun e => Forall (fun l => lo <= l) (ca_assigned e.2)) (drop n calls) -> run_inv w0 n lo s') as Hdone.
  { intros calls <- Hb Ha. split; [rewrite El, length_app; lia| |lia|done|done].
    exists (x0 ++ x). by eapply logged_app. }
  destruct Hs as (a & Hs & _).
  destruct Hs as [records s Hw|i args k cr w' k' s Hk E|ev w' s E|s|io w' r s E]; cbn [sy_calls sy_wal] in *;
    try (split; [by eapply Hdone|done]).
  - split; [|rewrite length_app; lia]. apply (Hdone _ eq_refl).
    + apply Forall_app. split; [done|]. constructor; [|done]. split; cbn; [done|apply Forall_nil_2|constructor].
    + rewrite drop_app_le by done. apply Forall_app. split; [done|]. constructor; [|done]. apply Forall_nil_2.
  - split; [|by rewrite length_insert]. destruct Hi as [Hi Hc].
    pose proof (Forall_lookup_1 _ _ _ _ Hc Hk) as Hck.
    destruct (call_step_below _ _ _ _ _ _ _ x Hi Hck (Forall_lookup_1 _ _ _ _ H4 Hk) E Hx Hs0) as [Hb Hnew]; [lia|].
    apply (Hdone _ eq_refl); [by apply Forall_insert|].
    apply drop_insert_Forall; [done|]. intros Hni. cbn.
    assert ((args, k) ∈ drop n (sy_calls s)) as Hin.
    { apply (list_elem_of_lookup_2 _ (i - n)). by rewrite lookup_drop, Nat.add_comm, Nat.sub_add. }
    rewrite Forall_forall in H5. specialize (H5 _ Hin). cbn in H5. rewrite Forall_forall in H5.
    eapply Forall_impl; [exact Hnew|]. cbn. intros l [?|?]; [lia|by apply H5].
Qed.

Lemma room_before base w0 s s' : sys_inv base s -> rtc sound_step s s' -> room w0 s' -> room w0 s.
Proof.
  intros Hi Hs. induction Hs as [|s1 s2 s3 Hs _ IH]; [done|]. intros Hroom.
  destruct (sys_step_keeps _ _ _ Hi Hs) as [Hi2 [_ _ _ [x (El & _)]]].
  destruct (IH Hi2 Hroom) as [? Hr]. split; [done|]. rewrite El, length_app in Hr. lia.
Qed.

Lemma run_reach base w0 n lo s s' :
  (n <= length (sy_calls s))%nat ->
  sys_inv base s -> run_inv w0 n lo s -> room w0 s' -> rtc sound_step s s' ->
  run_inv w0 n lo s' /\ (length (sy_calls s) <= length (sy_calls s'))%nat.
Proof.
  intros Hn Hi Hr Hroom Hs. revert s' Hs Hroom.
  refine (rtc_ind_r (fun s' => room w0 s' -> _) s (fun _ => conj Hr (le_n _)) _).
  intros s1 s2 Hs Hst IH Hroom. pose proof (sys_reach_inv _ _ _ Hi Hs) as Hi1.
  destruct (sys_step_keeps _ _ _ Hi1 Hst) as [_ [_ _ _ [x (El & _)]]].
  destruct IH as [Hr1 Hlen].
  { destruct Hroom as [? Hroom]. split; [done|]. rewrite El, length_app in Hroom. lia. }
  assert (n <= length (sy_calls s1))%nat as Hn1 by lia.
  destruct (run_step _ _ _ _ _ _ Hn1 Hi1 Hr1 Hroom Hst). split; [done|lia].
Qed.

(** C28: The LSNs respect real time: of two calls that returned [Ok], the second
    started after the first had returned, the second was given the larger
    LSNs; and the LSNs a call returns increase in the order of its records.
    The runs are those of [sound_step] in which the LSNs do not overflow. *)
Theorem wal_lsn_order base w0 s1 s2 args1 k1 lsns1 j args2 k2 lsns2 :
  wal_inv base w0 -> rtc sound_step {| sy_wal := w0; sy_calls := [] |} s1 -> rtc sound_step s1 s2 -> room w0 s2 ->
  (args1, k1) ∈ sy_calls s1 -> ca_pc k1 = PcReturned (Ok lsns1) ->
  sy_calls s2 !! j = Some (args2, k2) -> (length (sy_calls s1) <= j)%nat -> ca_pc k2 = PcReturned (Ok lsns2) ->
  StronglySorted Z.lt (lsns1 ++ lsns2).
Proof.
  intros Hi H1 H2 Hroom Hk1 Hp1 Hk2 Hj Hp2.
  pose proof (sys_reach_inv _ _ _ (sys_start _ _ Hi) H1) as Hi1.
  destruct (run_reach base w0 0 _ _ s1 ltac:(cbn; lia) (sys_start _ _ Hi) (run_start w0)) as [R1 _]; [|done|].
  { by eapply room_before. }
  destruct (run_reach base w0 _ _ s1 s2 (le_n _) Hi1 (run_restart _ _ _ _ R1) Hroom H2) as [R2 _].
  pose proof (proj1 (Forall_forall _ _) (ri_below _ _ _ _ R1) _ Hk1) as [F1 B1 S1].
  pose proof (Forall_lookup_1 _ _ _ _ (ri_below _ _ _ _ R2) Hk2) as [F2 _ S2].
  pose proof (ri_above _ _ _ _ R2) as Ha. rewrite Forall_forall in Ha.
  specialize (Ha (args2, k2)). unfold faithful in F1, F2. cbn [snd] in *. rewrite Hp1 in F1. rewrite Hp2 in F2.
  subst lsns1 lsns2. apply StronglySorted_app. split_and!; [|done..]. intros l1 l2 Hl1 Hl2.
  rewrite Forall_forall in B1. specialize (B1 _ Hl1). cbn in B1.
  assert (next_lsn (sy_wal s1) <= l2); [|lia].
  eapply (proj1 (Forall_forall _ _)); [|exact Hl2]. apply Ha.
  apply (list_elem_of_lookup_2 _ (j - length (sy_calls s1))). by rewrite lookup_drop, Nat.add_comm, Nat.sub_add.
Qed.
End order.

(** ** A second call after the first has returned *)

Module OrderExample.
Import Castagnoli WalExample.

Definition next_acts : list Act :=
  let run := ARun 1 cr in
  [ACall [rec Byte.x63]; run; run; run; ATask EvShutdown; ATask (EvFlush (io_ok 0)); run; run]
  ++ flush_one ++ [run; run].
Definition final2 : Sys := default final (exec next_acts final).

Definition order_checks : bool :=
  match exec next_acts final with
  | Some s =>
    (length (sy_calls final) =? 1)%nat && (length (log (sy_wal s)) <? 10)%nat
    && match sy_calls s !! 1%nat with
       | Some (_, k) => match ca_pc k with PcReturned (Ok lsns) => bool_decide (lsns = [3]) | _ => false end
       | None => false
       end
  | None => false
  end.

Lemma order_run :
  exec next_acts final = Some final2 /\ length (sy_calls final) = 1%nat /\ room created final2
  /\ exists args k, sy_calls final2 !! 1%nat = Some (args, k) /\ ca_pc k = PcReturned (Ok [3]).
Proof.
  assert (order_checks = true) as E by (vm_compute; reflexivity). unfold order_checks in E. unfold final2, room.
  destruct (exec next_acts final) as [s|]; [|discriminate E]. change (default final (Some s)) with s.
  destruct (create_inv [] uuid cfg cr [] created) as (_ & _ & -> & _);
    [reflexivity|apply NoDup_nil_2|unfold uint; cbn; lia|exact created_ok|].
  apply andb_prop in E as [E E3]. apply andb_prop in E as [E1%Nat.eqb_eq E2%Nat.ltb_lt].
  split_and!; [done|done|lia|apply Z.lt_trans with 20; [lia|reflexivity]|].
  destruct (sy_calls s !! 1%nat) as [[args k]|]; [|discriminate E3]. exists args, k. split; [done|].
  destruct (ca_pc k) as [| | | | |[lsns|]]; try discriminate E3. by apply bool_decide_eq_true_1 in E3 as ->.
Qed.

Lemma wal_lsn_order_witness : StronglySorted Z.lt ([1; 2] ++ [3]).
Proof.
  destruct final_returned as (k1 & Hin & Hk1).
  destruct order_run as (He & Hl & Hroom & args2 & k2 & Hk2 & Hp2).
  apply (wal_lsn_order [] created final final2 _ k1 [1; 2] 1 args2 k2 [3] created_inv
    (exec_steps _ _ _ final_reached) (exec_steps _ _ _ He) Hroom Hin Hk1 Hk2); [rewrite Hl; lia|exact Hp2].
Defined.
End OrderExample.
