(* ===== verification/WalResume.v ===== *)
(** Resumption after a crash: recovery reads the directory, [open_existing]
    cuts the active segment at the reported tail, and the WAL goes on with an
    unbroken log ([wal_resume]). *)

From S2P Require Import Prelude Crc32c Ids WalKinds WalRecord Utf8 WalPayload WalPayloadCodec.
From S2P Require Import ArenaSlot ArenaFile Allocator WalSegment WalReader WalReaderSpec.
From S2P Require Import WalReaderOpen Recovery RecoveryReplay RecoveryArena RecoveryContract.
From S2P Require Import GroupCommit Wal WalDisk WalSpec WalDurability.
Import Wal.

(** The directory after a reboot: nothing is cached that is not on disk. *)
Definition rebooted (dir : Dir) : Files := map (fun e => (e.1, synced e.2)) dir.

Record truncate_succeeds (tr : TruncateIo) : Prop := {
  ts_set_len : tr_set_len tr = Ok tt;
  ts_sync : tr_sync tr = Ok tt;
  ts_open : tr_open tr = Ok tt;
}.

Section resume.
Context `{CRC : Crc32c} `{!Crc32cLaws CRC}.

Lemma visible_rebooted dir : visible (rebooted dir) = dir.
Proof. unfold visible, rebooted. rewrite map_map. cbn. rewrite <- (map_id dir) at 2. by apply map_ext; intros []. Qed.

Lemma rebooted_names dir : map fst (rebooted dir) = map fst dir.
Proof. unfold rebooted. by rewrite map_map. Qed.

Lemma file_at_unique fs name f : NoDup (map fst fs) -> (name, f) ∈ fs -> file_at name fs = Some f.
Proof. intros Hn Hin. unfold file_at. by destruct (find_unique fs name f Hn Hin) as [i ->]. Qed.

Lemma alter_file_other name g fs : Forall (fun e => e.1 <> name) fs -> alter_file name g fs = fs.
Proof.
  intros Hf. unfold alter_file. rewrite <- (map_id fs) at 2. apply map_ext_in.
  intros e He%list_elem_of_In. rewrite bool_decide_false; [done|]. by apply (proj1 (Forall_forall _ _) Hf).
Qed.

Lemma remove_file_other name fs : Forall (fun e => e.1 <> name) fs -> remove_file name fs = fs.
Proof. apply filter_all. Qed.

#[local] Instance alter_file_proper name g : Proper ((≡ₚ) ==> (≡ₚ)) (alter_file name g).
Proof. intros fs fs' Hp. unfold alter_file. by rewrite Hp. Qed.
#[local] Instance remove_file_proper name : Proper ((≡ₚ) ==> (≡ₚ)) (remove_file name).
Proof. intros fs fs' Hp. unfold remove_file. by rewrite Hp. Qed.

Lemma alter_file_names name g fs : map fst (alter_file name g fs) = map fst fs.
Proof.
  unfold alter_file. rewrite map_map. apply map_ext. intros e. by destruct (bool_decide _).
Qed.

(** One file in front of others with other names. *)
Lemma alter_file_head name g f fs :
  Forall (fun e => e.1 <> name) fs -> alter_file name g ((name, f) :: fs) = (name, g f) :: fs.
Proof.
  intros Hf. unfold alter_file. cbn [map fst]. rewrite bool_decide_true by done.
  f_equal. by apply alter_file_other.
Qed.
Lemma remove_file_head name f fs :
  Forall (fun e => e.1 <> name) fs -> remove_file name ((name, f) :: fs) = fs.
Proof.
  intros Hf. unfold remove_file. rewrite filter_cons, decide_False by (intros H; by apply H).
  by apply remove_file_other.
Qed.

(** Cutting the file at [path]. *)
Lemma open_existing_cut fs path f rest off (shorter : bool) :
  NoDup (map fst fs) -> fs ≡ₚ (path, synced f) :: rest ->
  (shorter = false -> off = length f) ->
  let fs' := if shorter then alter_file path (truncate off) fs else fs in
  file_at path fs' = Some (synced (take off f)) /\ remove_file path fs' ≡ₚ rest.
Proof.
  intros Hn Hp Hs fs'.
  assert (Forall (fun e => e.1 <> path) rest) as Hr.
  { rewrite Hp in Hn. cbn in Hn. apply NoDup_cons in Hn as [Hni _]. apply Forall_forall.
    intros e He E. apply Hni. rewrite <- E. by apply list_elem_of_fmap_2. }
  assert (fs' ≡ₚ (path, synced (take off f)) :: rest) as Hp'.
  { unfold fs'. destruct shorter.
    - rewrite Hp, alter_file_head by done. done.
    - rewrite (Hs eq_refl), take_ge by lia. done. }
  assert (NoDup (map fst fs')) as Hn'.
  { unfold fs'. destruct shorter; [by rewrite alter_file_names|done]. }
  split.
  - apply file_at_unique; [done|]. rewrite Hp'. left.
  - rewrite Hp'. by rewrite remove_file_head.
Qed.

(** A segment cut behind the records [keep]. *)
Lemma desc_cut uuid d keep dropped :
  length uuid = 16%nat -> sd_recs d = keep ++ dropped ->
  let off := (WAL_SEGMENT_HEADER_LEN + length (frames keep))%nat in
  length (sd_bytes uuid d) = (off + length (frames dropped ++ sd_tail d))%nat
  /\ take off (sd_bytes uuid d) = header_of uuid (sd_seq d) (sd_lsn d) (sd_now d) ++ frames keep.
Proof.
  intros Hu Hk off. pose proof (length_header_of uuid (sd_seq d) (sd_lsn d) (sd_now d) Hu) as Hlen.
  unfold sd_bytes, off. split.
  - rewrite Hk, frames_app, !length_app, Hlen. lia.
  - rewrite Hk, frames_app, <- app_assoc, app_assoc. rewrite take_app_length'; [done|].
    by rewrite length_app, Hlen.
Qed.

Lemma rebooted_entries uuid dir closed d others :
  dir ≡ₚ map (sd_entry uuid) (closed ++ [d]) ++ others ->
  rebooted dir ≡ₚ (segment_path (sd_seq d), synced (sd_bytes uuid d))
    :: map (closed_entry uuid) closed ++ rebooted others.
Proof.
  intros Hp. unfold rebooted. rewrite Hp, !map_app, map_map, <- app_assoc. cbn [map app sd_entry fst snd].
  symmetry. apply Permutation_middle.
Qed.

Lemma reopen_ready uuid seq lsn closed d keep dropped dir cfg tr :
  length uuid = 16%nat -> layout seq lsn (closed ++ [d]) -> Forall clean closed ->
  holds uuid dir (closed ++ [d]) -> sd_recs d = keep ++ dropped -> truncate_succeeds tr -> 0 <= seq ->
  u64 lsn ->
  exists fs' w,
    open_existing (rebooted dir) uuid (lsn_after lsn (layout_recs closed ++ keep))
      (WAL_SEGMENT_HEADER_LEN + length (frames keep)) cfg tr = (fs', Ok w)
    /\ wal_inv (layout_recs closed ++ keep) w /\ log w = [] /\ shard_uuid w = uuid.
Proof.
  intros Hu Hl Hc Hh Hk [Ht1 Ht2 Ht3] H0 Hlsn.
  pose proof (open_layout uuid _ _ _ _ Hu Hl Hh) as Eo.
  pose proof (length_header_of uuid (sd_seq d) (sd_lsn d) (sd_now d) Hu) as Hlen.
  apply layout_app in Hl as Hl'. destruct Hl' as (Hlc & Hd & Hds & Hdl & _).
  set (off := (WAL_SEGMENT_HEADER_LEN + length (frames keep))%nat) in *.
  destruct (desc_cut uuid d keep dropped Hu Hk) as [Elen Etake]. fold off in Elen, Etake.
  destruct Hh as [(others & Ho & Hp) Hn]. pose proof (rebooted_entries uuid _ _ _ _ Hp) as Hfs.
  destruct (open_existing_cut (rebooted dir) _ _ _ off (Z.of_nat off <? Z.of_nat (length (sd_bytes uuid d)))
    ltac:(by rewrite rebooted_names) Hfs) as [Ef Er].
  { intros E%Z.ltb_ge. rewrite Elen in *. lia. }
  unfold open_existing. rewrite visible_rebooted, Eo. cbn [reader_of segments].
  rewrite map_app. cbn [map]. rewrite last_snoc.
  cbn [sd_info si_segment_seq si_file_size si_starting_lsn].
  rewrite (proj2 (Nat.ltb_ge _ _)) by (unfold off; lia).
  rewrite (proj2 (Z.ltb_ge _ _)) by (rewrite Elen; lia). cbn [orb].
  set (shorter := Z.of_nat off <? Z.of_nat (length (sd_bytes uuid d))) in *.
  rewrite Ht1, Ht2, Ht3.
  assert ((if shorter then @Ok unit Z tt else Ok tt) = Ok tt) as -> by (by destruct shorter).
  rewrite Etake in Ef. rewrite Ef. eexists _, _. split; [reflexivity|].
  set (w := Build_Wal _ _ _ _ _ _ _ _).
  assert (seg_holds (open_for_append (synced (header_of uuid (sd_seq d) (sd_lsn d) (sd_now d) ++ frames keep))
    uuid (sd_seq d) (sd_lsn d) (off - WAL_SEGMENT_HEADER_LEN)) (header_of uuid (sd_seq d) (sd_lsn d) (sd_now d))
    keep []) as Hs.
  { split; try done. cbn [bytes_on_disk open_for_append]. unfold off. lia. }
  split; [|split; [done|done]].
  exists seq, lsn, closed, (rebooted others), keep, (sd_now d).
  eexists _, []. destruct Hd as [Hd1 Hd2 Hd3 Hd4 Hd5].
  rewrite Hk in Hd4, Hd5. apply Forall_app in Hd4 as [Hd4 _]. apply lsns_ok_app in Hd5 as [Hd5 _].
  destruct (layout_lsns _ _ _ Hlc) as [Hrl Hrw].
  split; cbn [w shard_uuid active_seq next_lsn retired files]; try done.
  - left. split; [left; by eexists|]. done.
  - unfold rebooted. rewrite map_map. cbn [fst]. split.
    + apply Forall_fmap. eapply Forall_impl; [exact Ho|]. done.
    + rewrite Hp, map_app in Hn. by apply NoDup_app in Hn as (_ & _ & Hn).
  - lia.
  - rewrite <- Hdl. apply start_inv; [exact Hs|done].
  - cbn. by rewrite !app_nil_r.
  - cbn. rewrite app_nil_r. by apply Forall_app.
  - cbn. rewrite app_nil_r, lsns_ok_app, <- Hdl. done.
  - cbn. by rewrite app_nil_r.
Qed.

(** ** What the reader found, as a layout *)

Definition read_as (uuid : bytes) (d : SegDesc) : SegmentInfo * list WalRecord := (sd_info uuid d, sd_recs d).
Definition with_body (d : SegDesc) (rs : list WalRecord) (tail : bytes) : SegDesc :=
  {| sd_seq := sd_seq d; sd_lsn := sd_lsn d; sd_now := sd_now d; sd_recs := rs; sd_tail := tail |}.

Lemma with_body_entry uuid d rs tail :
  frames rs ++ tail = frames (sd_recs d) ++ sd_tail d ->
  sd_entry uuid (with_body d rs tail) = sd_entry uuid d /\ sd_info uuid (with_body d rs tail) = sd_info uuid d.
Proof.
  intros E. assert (sd_bytes uuid (with_body d rs tail) = sd_bytes uuid d) as Eb
    by (unfold sd_bytes; cbn [with_body sd_seq sd_lsn sd_now sd_recs sd_tail]; by rewrite E).
  unfold sd_entry, sd_info. by rewrite Eb.
Qed.

(** A healthy log read from the files of a layout is itself a layout of them. *)
Lemma shape_layout uuid dir ds seq lsn segs tail :
  layout seq lsn ds -> ds <> [] ->
  (forall x, x ∈ ds -> seg_body dir (sd_info uuid x) = Some (frames (sd_recs x) ++ sd_tail x)) ->
  map fst segs = map (sd_info uuid) ds -> log_shape dir segs lsn tail ->
  exists closed d, layout seq lsn (closed ++ [d]) /\ Forall clean closed
    /\ map (sd_entry uuid) (closed ++ [d]) = map (sd_entry uuid) ds
    /\ map (read_as uuid) (closed ++ [d]) = segs /\ sd_tail d = tail.
Proof.
  revert seq lsn segs. induction ds as [|d0 ds IH]; intros seq lsn segs Hl Hne Hb Em Hsh; [done|].
  destruct segs as [|[info rs] segs]; [done|]. cbn [map fst] in Em. injection Em as -> Em.
  destruct Hl as (Hok & Es & El & Hl). cbn [log_shape] in Hsh. destruct Hsh as (_ & Hwf & Hls & Hm).
  pose proof (Hb d0 (list_elem_of_here d0 ds)) as Hb0.
  assert (forall tl, sd_ok (with_body d0 rs tl)) as Hok'.
  { intros tl. destruct Hok. split; cbn; try done. by rewrite El. }
  destruct segs as [|seg2 segs].
  - destruct ds; [|done]. destruct Hm as [Hm _]. rewrite Hb0 in Hm. injection Hm as Hm.
    destruct (with_body_entry uuid d0 rs tail) as [Ee Ei]; [done|].
    exists [], (with_body d0 rs tail). cbn [app map]. rewrite Ee. unfold read_as. rewrite Ei. by split_and!.
  - destruct ds as [|d1 ds]; [done|]. destruct Hm as [Hm Hsh]. rewrite Hb0 in Hm. injection Hm as Hm.
    destruct (with_body_entry uuid d0 rs []) as [Ee Ei]; [by rewrite app_nil_r|].
    assert (layout (seq + 1) (lsn_after lsn rs) (d1 :: ds)) as Hl'.
    { replace (lsn_after lsn rs) with (lsn_after lsn (sd_recs d0)); [done|].
      destruct seg2 as [info2 rs2]. cbn [map fst] in Em. injection Em as -> _.
      destruct Hsh as [<- _]. destruct Hl as (_ & _ & El2 & _). by rewrite <- El2. }
    destruct (IH _ _ _ Hl' ltac:(done) ltac:(intros x Hx; apply Hb; by right) Em Hsh)
      as (closed & d & L1 & L2 & L3 & L4 & L5).
    exists (with_body d0 rs [] :: closed), d. cbn [app map]. rewrite Ee. unfold read_as at 1. rewrite Ei.
    split_and!; try done; [|by f_equal..]. by constructor.
Qed.

(** ** Places *)

Lemma places_app seq pos a b :
  places seq pos (a ++ b) = places seq pos a ++ places seq (pos + length (frames a)) b.
Proof.
  revert pos. induction a as [|r a IH]; intros pos; cbn [app places frames mbind list_bind].
  - cbn. by rewrite Nat.add_0_r.
  - rewrite IH. do 2 f_equal. fold (frames a). rewrite length_app, length_frame. by rewrite Nat.add_assoc.
Qed.

Lemma places_split seq pos rs k l :
  places seq pos rs = k ++ l ->
  exists a b, rs = a ++ b /\ k = places seq pos a /\ l = places seq (pos + length (frames a)) b.
Proof.
  intros E. exists (take (length k) rs), (drop (length k) rs). rewrite take_drop.
  rewrite <- (take_drop (length k) rs), places_app in E at 1.
  assert (length (places seq pos (take (length k) rs)) = length k) as Hl.
  { rewrite <- (length_map it_rec), places_rec, length_take.
    apply (f_equal length) in E. rewrite <- places_app, take_drop in E.
    rewrite <- (length_map it_rec), places_rec, length_app in E. lia. }
  apply app_inj_1 in E as [E1 E2]; [by split_and!|done].
Qed.

Lemma places_seq seq pos rs : Forall (fun it => it_seq it = seq) (places seq pos rs).
Proof. revert pos. induction rs; intros pos; cbn; by constructor. Qed.

Lemma last_places seq pos rs :
  last (places seq pos rs) = (fun r => {| it_rec := r; it_seq := seq; it_end := (pos + length (frames rs))%nat |})
                               <$> last rs.
Proof.
  destruct rs as [|r rs _] using rev_ind; [done|]. rewrite places_app. cbn [places].
  rewrite !last_snoc. cbn [fmap option_fmap option_map].
  assert (length (frames (rs ++ [r])) = length (frames rs) + encoded_len r)%nat as ->.
  { rewrite frames_app, length_app. unfold frames at 2. cbn [mbind list_bind].
    by rewrite app_nil_r, length_frame. }
  by rewrite Nat.add_assoc.
Qed.

Lemma lsn_after_last lsn rs :
  lsns_ok lsn rs -> lsn_after lsn rs = match last rs with Some r => wrap 64 (wr_lsn r + 1) | None => lsn end.
Proof.
  destruct rs as [|r rs _] using rev_ind; [done|]. rewrite last_snoc, lsns_ok_app, lsn_after_app.
  cbn. by intros (_ & -> & _).
Qed.

Lemma log_items_app a b : log_items (a ++ b) = log_items a ++ log_items b.
Proof. apply bind_app. Qed.

(** An unfinished part that lies in the last segment. *)
Lemma split_active closed d uuid good dangling seq lsn :
  layout seq lsn (closed ++ [d]) ->
  log_items (map (read_as uuid) (closed ++ [d])) = good ++ dangling ->
  Forall (fun it => it_seq it = sd_seq d) dangling ->
  exists keep dropped, sd_recs d = keep ++ dropped
    /\ good = log_items (map (read_as uuid) closed) ++ places (sd_seq d) WAL_SEGMENT_HEADER_LEN keep
    /\ Forall (fun it => it_seq it <> sd_seq d) (log_items (map (read_as uuid) closed)).
Proof.
  intros Hl Hi Hd.
  assert (Forall (fun it => it_seq it <> sd_seq d) (log_items (map (read_as uuid) closed))) as Hne.
  { apply layout_app in Hl as (Hl & _ & Es & _). apply Forall_forall.
    intros it (p & Hit & Hp)%list_elem_of_bind. apply list_elem_of_fmap in Hp as (x & -> & Hx).
    cbn [read_as fst snd sd_info si_segment_seq] in Hit.
    rewrite (proj1 (Forall_forall _ _) (places_seq _ _ _) it Hit).
    pose proof (closed_below _ _ _ _ Hl Hx). lia. }
  rewrite map_app, log_items_app in Hi.
  assert (log_items (map (read_as uuid) [d]) = places (sd_seq d) WAL_SEGMENT_HEADER_LEN (sd_recs d)) as Ed
    by (unfold log_items; cbn; by rewrite app_nil_r).
  rewrite Ed in Hi. apply app_eq_inv in Hi as [(k & E1 & E2)|(k & E1 & E2)].
  - destruct k as [|it k].
    + exists [], (sd_recs d). rewrite app_nil_r in E1. cbn. by rewrite app_nil_r.
    + exfalso. rewrite E2 in Hd. apply Forall_app in Hd as [Hd _]. apply Forall_cons in Hd as [Hd _].
      rewrite E1 in Hne. apply Forall_app in Hne as [_ Hne]. by apply Forall_cons in Hne as [Hne _].
  - destruct (places_split _ _ _ _ _ E2) as (a & b & Er & -> & _). by exists a, b.
Qed.

Lemma layout_first seq lsn ds d : layout seq lsn (ds ++ [d]) -> 0 <= seq /\ u64 lsn.
Proof.
  assert (forall x l, layout seq lsn (x :: l) -> 0 <= seq /\ u64 lsn) as H.
  { intros x l ([Hs Hl _ _ _] & <- & <- & _). split; [lia|done]. }
  destruct ds; apply H.
Qed.

Lemma recs_of_items uuid ds : map it_rec (log_items (map (read_as uuid) ds)) = layout_recs ds.
Proof. apply layout_items. Qed.

(** The position in the report is the end of the complete part. *)
Lemma good_position uuid seq lsn closed d keep dropped good durable next offset :
  layout seq lsn (closed ++ [d]) -> sd_recs d = keep ++ dropped ->
  good = log_items (map (read_as uuid) closed) ++ places (sd_seq d) WAL_SEGMENT_HEADER_LEN keep ->
  Forall (fun it => it_seq it <> sd_seq d) (log_items (map (read_as uuid) closed)) ->
  (good = [] -> lsn = wrap 64 (durable + 1)) ->
  match last good with
  | Some it => next = wrap 64 (wr_lsn (it_rec it) + 1)
      /\ offset = if bool_decide (Some (sd_seq d) = Some (it_seq it)) then Z.of_nat (it_end it)
                  else Z.of_nat WAL_SEGMENT_HEADER_LEN
  | None => next = wrap 64 (durable + 1) /\ offset = Z.of_nat WAL_SEGMENT_HEADER_LEN
  end ->
  map it_rec good = layout_recs closed ++ keep
  /\ next = lsn_after lsn (layout_recs closed ++ keep)
  /\ offset = Z.of_nat (WAL_SEGMENT_HEADER_LEN + length (frames keep)).
Proof.
  intros Hl Hk Hg Hne H0 Hm.
  assert (map it_rec good = layout_recs closed ++ keep) as Eg
    by (by rewrite Hg, map_app, recs_of_items, places_rec).
  assert (lsns_ok lsn (layout_recs closed ++ keep)) as Hls.
  { pose proof (proj1 (layout_lsns _ _ _ Hl)) as H. rewrite layout_recs_app in H.
    unfold layout_recs at 2 in H. cbn [mbind list_bind] in H.
    rewrite Hk, app_nil_r, app_assoc, lsns_ok_app in H. apply H. }
  split; [done|]. rewrite (lsn_after_last _ _ Hls), <- Eg. change (map it_rec good) with (it_rec <$> good).
  rewrite fmap_last. destruct (last good) as [it|] eqn:Elast; cbn [fmap option_fmap option_map].
  - destruct Hm as [-> ->]. split; [done|]. rewrite Hg in Elast.
    destruct keep as [|r0 keep].
    + rewrite app_nil_r in Elast. apply last_Some_elem_of in Elast.
      pose proof (proj1 (Forall_forall _ _) Hne it Elast) as Hx.
      rewrite bool_decide_eq_false_2 by congruence. cbn. by rewrite Nat.add_0_r.
    + rewrite last_app in Elast. rewrite last_places in Elast.
      destruct (last (r0 :: keep)) as [r1|] eqn:El1; [|by apply last_None in El1].
      cbn in Elast. simplify_eq. by rewrite bool_decide_eq_true_2.
  - apply last_None in Elast. destruct Hm as [-> ->]. rewrite <- (H0 Elast). split; [done|].
    rewrite Elast in Eg. symmetry in Eg. apply app_nil in Eg as [_ ->]. cbn. by rewrite Nat.add_0_r.
Qed.

(** The layout a healthy read of a crash directory gives. *)
Lemma crash_read base w junk dir r segs tail :
  wal_inv base w -> dir ≡ₚ crash junk w -> open dir (shard_uuid w) = Ok r -> map fst segs = segments r ->
  log_shape dir segs (expected_next_lsn r) tail ->
  exists seq closed d, layout seq (expected_next_lsn r) (closed ++ [d]) /\ Forall clean closed
    /\ holds (shard_uuid w) dir (closed ++ [d])
    /\ segs = map (read_as (shard_uuid w)) (closed ++ [d])
    /\ sd_seq d = active_seq w /\ active_segment_seq r = Some (sd_seq d)
    /\ forall rec, acked w rec -> rec ∈ layout_recs (closed ++ [d]).
Proof.
  intros Hw Hdir Eo Em Hsh.
  assert (length (shard_uuid w) = 16%nat) as Hu
    by (destruct Hw as (? & ? & ? & ? & ? & ? & ? & ? & Hw); apply Hw).
  destruct (crash_layout _ _ _ _ Hw Hdir) as (seq & lsn & closed0 & d0 & Hl0 & Hc0 & Hh0 & _ & _ & Hack & Hseq & _).
  pose proof (open_layout _ _ _ _ _ Hu Hl0 Hh0) as Eo'. rewrite Eo in Eo'. apply Ok_inj in Eo'. subst r.
  assert (expected_next_lsn (reader_of (shard_uuid w) (closed0 ++ [d0])) = lsn) as El
    by (destruct closed0; cbn in Hl0 |- *; apply Hl0).
  rewrite El in *. cbn [reader_of segments] in Em.
  assert (forall x, x ∈ closed0 ++ [d0] ->
    seg_body dir (sd_info (shard_uuid w) x) = Some (frames (sd_recs x) ++ sd_tail x)) as Hb
    by (intros x Hx; by eapply holds_body).
  destruct (shape_layout (shard_uuid w) dir (closed0 ++ [d0]) seq lsn segs tail Hl0) as (closed & d & L1 & L2 & L3 & L4 & _);
    [by destruct closed0|done..|].
  assert (length closed = length closed0) as Elen.
  { apply (f_equal length) in L3. rewrite !length_map, !length_app in L3. cbn in L3. lia. }
  assert (sd_seq d = sd_seq d0) as Es.
  { apply layout_app in L1 as (_ & _ & -> & _), Hl0 as (_ & _ & -> & _). by rewrite Elen. }
  exists seq, closed, d. split_and!; try done.
  - destruct Hh0 as [(others & Ho & Hp) Hn]. split; [|done]. exists others. by rewrite L3.
  - congruence.
  - unfold active_segment_seq. cbn [reader_of segments]. rewrite map_app. cbn [map].
    rewrite last_snoc. cbn. by rewrite Es.
  - intros rec Hrec. apply Hack in Hrec.
    destruct (read_layout (shard_uuid w) seq lsn closed0 d0 dir Hu Hl0 Hc0 Hb) as (more & e & Er & _).
    pose proof (read_segments_shape _ _ _ _ Hsh) as Er'. rewrite Em, Er in Er'.
    apply (f_equal fst) in Er'. cbn [fst] in Er'. apply (f_equal (map it_rec)) in Er'.
    rewrite map_app, layout_items, <- L4, recs_of_items in Er'. rewrite <- Er', elem_of_app. by left.
Qed.

(** C3: resumption: let a crash leave a directory of a reachable WAL (any
    bytes behind the active segment), let recovery of it succeed, and let the
    records it read be complete units followed by an unfinished transaction
    (or nothing) that begins in the active segment, behind the watermark of
    the sink; without complete units the log begins right after the watermark.
    (If it begins in an earlier one, the WAL resumes at an LSN that is in use:
    [wal_straddling_txn_reuses_lsn].) Let the system calls that truncate the
    active segment succeed. Then [open_existing] with the LSN and the offset
    of the report succeeds and the WAL is ready again: its log is exactly the
    complete part, without gap, the next LSN follows it, and every record
    acknowledged before the crash is in it, or in the unfinished transaction.
    *)
Theorem wal_resume {S} `{Snk : MetadataSink S} base w junk dir sys a (sink : S) fuel a' sink' report al
    r segs tail good dangling us units_log cfg tr :
  wal_inv base w -> dir ≡ₚ crash junk w ->
  recover fuel sys a dir (shard_uuid w) sink = Some (a', sink', Ok (report, al)) ->
  open dir (shard_uuid w) = Ok r -> map fst segs = segments r ->
  log_shape dir segs (expected_next_lsn r) tail -> log_items segs = good ++ dangling ->
  Forall unit_ok us -> decoded (durable_lsn sink) good (us ≫= flatten) ->
  decoded (durable_lsn sink) dangling units_log -> dangling_txn (durable_lsn sink) dangling units_log ->
  Forall (fun it => durable_lsn sink < wr_lsn (it_rec it)) dangling ->
  Forall (fun it => it_seq it = active_seq w) dangling ->
  (good = [] -> expected_next_lsn r = wrap 64 (durable_lsn sink + 1)) ->
  truncate_succeeds tr ->
  exists fs' w',
    open_existing (rebooted dir) (shard_uuid w) (Recovery.next_lsn report)
      (Z.to_nat (active_tail_offset report)) cfg tr = (fs', Ok w')
    /\ wal_inv (map it_rec good) w' /\ log w' = []
    /\ forall rec, acked w rec -> rec ∈ map it_rec good \/ rec ∈ map it_rec dangling.
Proof.
  intros Hw Hdir Er Eo Em Hsh Hits Hu Hg Hd Hdg Hlt Hact H0 Ht.
  destruct (report_resumes sys a sink dir _ fuel _ _ _ _ _ _ _ _ _ _ _ Er Eo Em Hsh Hits Hu Hg Hd Hdg Hlt)
    as [_ Hrep].
  assert (length (shard_uuid w) = 16%nat) as Hu16
    by (destruct Hw as (? & ? & ? & ? & ? & ? & ? & ? & Hw); apply Hw).
  destruct (crash_read _ _ _ _ _ _ _ Hw Hdir Eo Em Hsh)
    as (seq & closed & d & Hl & Hc & Hh & -> & Eseq & Eact & Hack).
  rewrite <- Eseq in Hact. destruct (split_active _ _ _ _ _ _ _ Hl Hits Hact) as (keep & dropped & Ek & Eg & Hne).
  rewrite Eact in Hrep.
  destruct (good_position _ _ _ _ _ _ _ _ _ _ _ Hl Ek Eg Hne H0 Hrep) as (Erecs & -> & ->).
  rewrite Nat2Z.id, Erecs. destruct (layout_first _ _ _ _ Hl) as [Hs Hlsn].
  destruct (reopen_ready _ _ _ _ _ _ _ _ cfg tr Hu16 Hl Hc Hh Ek Ht Hs Hlsn) as (fs' & w' & E & Hi & Hlog & _).
  exists fs', w'. split_and!; try done. intros rec Hrec. apply Hack in Hrec.
  rewrite <- Erecs, <- elem_of_app, <- map_app, <- Hits, recs_of_items. done.
Qed.
End resume.

(** ** A WAL that crashes inside a transaction, recovers and goes on *)

Module ResumeExample.
Import Castagnoli Allocator.AllocExample RecoveryExample WalExample.

Definition cfg' : WalConfig :=
  {| group_commit := GroupCommitConfig_default; max_segment_bytes := WAL_SEGMENT_HEADER_LEN + 1000 |}.
Definition cr' : CreateIo :=
  {| cr_close := Ok tt; cr_io := WalExample.io_ok WAL_SEGMENT_HEADER_LEN; cr_now := 1700;
     cr_fsync_dir := Ok tt |}.
Definition opened : option Sys :=
  match create_with_config [] ReaderExample.uuid cfg' cr' with
  | ([], Ok w) => Some {| sy_wal := w; sy_calls := [] |}
  | _ => None
  end.
Definition batch_acts : list Act :=
  [ACall recs; ARun 0 cr'; ATask EvReceive; ATask EvGather; ATask EvGather; ATask EvGather;
   ATask EvGather; ATask EvGather; ATask EvGatherEnd; ATask (EvFlush (WalExample.io_ok (length (frames recs))))].
Definition before_crash : option Sys := s ← opened; exec batch_acts s.

Lemma before_crash_spec :
  exists s, wal_inv [] (sy_wal s) /\ shard_uuid (sy_wal s) = ReaderExample.uuid
    /\ active_seq (sy_wal s) = 0 /\ dir ≡ₚ crash [] (sy_wal s).
Proof.
  assert (match before_crash with
          | Some s => bool_decide (shard_uuid (sy_wal s) = ReaderExample.uuid)
                      && bool_decide (active_seq (sy_wal s) = 0) && bool_decide (dir = crash [] (sy_wal s))
          | None => false
          end = true) as E by (vm_compute; reflexivity).
  unfold before_crash in E. destruct opened as [s0|] eqn:E0; [|discriminate E].
  cbn [mbind option_bind] in E.
  destruct (exec batch_acts s0) as [s|] eqn:Es; [|discriminate E].
  apply andb_prop in E as [E E3]. apply andb_prop in E as [E1 E2].
  apply bool_decide_eq_true_1 in E1, E2, E3. exists s. rewrite <- E3. split; [|done].
  unfold opened in E0. destruct (create_with_config [] ReaderExample.uuid cfg' cr') as [[|] [w|]] eqn:Ec; try done.
  injection E0 as <-. destruct (create_inv [] ReaderExample.uuid cfg' cr' [] w) as (Hi & _);
    [reflexivity|apply NoDup_nil_2|unfold uint; cbn; lia|exact Ec|].
  apply (sys_reach_inv [] _ _ (sys_start _ _ Hi) (exec_steps _ _ _ Es)).
Qed.

Definition tr : TruncateIo := {| tr_set_len := Ok tt; tr_sync := Ok tt; tr_open := Ok tt |}.

Lemma wal_resume_witness :
  exists report fs' w', open_existing (rebooted dir) ReaderExample.uuid (Recovery.next_lsn report)
      (Z.to_nat (active_tail_offset report)) cfg' tr = (fs', Ok w')
    /\ wal_inv (take 4 recs) w'.
Proof.
  destruct before_crash_spec as (s & Hi & Eu & Ea & Hd).
  destruct recovered as (a' & sink' & report & al & E). rewrite <- Eu in E.
  pose proof recovery_dir_open as Eo. rewrite <- Eu in Eo.
  destruct (wal_resume [] (sy_wal s) [] dir demo_sys demo InMemory.new 7 a' sink' report al reader segs []
    (take 4 (log_items segs)) (drop 4 (log_items segs)) (take 2 us) (drop 4 RecoveryExample.log) cfg' tr
    Hi Hd E Eo eq_refl recovery_dir_shape (eq_sym (take_drop 4 _)) (Forall_take _ 2 _ us_ok)
    good_decoded dangling_decoded) as (fs' & w' & Ew & Hw & _).
  - split; [vm_compute; reflexivity|]. eexists _, _, (txn_id Byte.x0b).
    split; [reflexivity|]. eexists. split; [reflexivity|]. split; [reflexivity|].
    split; [by repeat constructor|cbn; lia].
  - repeat apply Forall_cons_2; try apply Forall_nil_2; vm_compute; reflexivity.
  - rewrite Ea. repeat apply Forall_cons_2; try apply Forall_nil_2; vm_compute; reflexivity.
  - intros E0. vm_compute in E0. discriminate E0.
  - split; reflexivity.
  - exists report, fs', w'. rewrite <- Eu. split; [exact Ew|]. exact Hw.
Defined.
End ResumeExample.
