(* ===== verification/WalFaults.v ===== *)
(** What can go wrong: runs of the code, evaluated, in which recovery does not
    find what was acknowledged or refuses a directory that lost nothing.
    They mark the limits of [wal_append_durable] and [wal_resume]: each breaks
    one hypothesis of those theorems that the code does not check. *)

From S2P Require Import Prelude Crc32c Ids WalKinds WalRecord Utf8 WalPayload WalPayloadCodec.
From S2P Require Import ArenaSlot ArenaFile Allocator WalSegment WalReader WalReaderSpec.
From S2P Require Import WalReaderOpen Recovery RecoveryReplay RecoveryArena RecoveryContract.
From S2P Require Import GroupCommit Wal WalDisk WalSpec WalDurability WalResume.
Import Wal Castagnoli WalExample.

(** A run of any steps, sound or not. *)
Fixpoint exec_any (acts : list Act) (s : Sys) : option Sys :=
  match acts with [] => Some s | a :: acts => s ← act a s; exec_any acts s end.

(** What the calls have returned. *)
Definition outcomes (s : Sys) : list (option (result (list Z) WalError)) :=
  map (fun e => match ca_pc e.2 with PcReturned r => Some r | _ => None end) (sy_calls s).

(** What reading the directory gives: the LSNs delivered and the error. *)
Definition read_back (dir : Dir) (uuid : bytes) : option (list Z * option WalReadError) :=
  match open dir uuid with
  | Err e => Some ([], Some e)
  | Ok r => '(recs, e, _) ← read_all 100 dir r; Some (map wr_lsn recs, e)
  end.

(** ** A rollover after a failed flush *)

Definition flush_with (io : FlushIo) : list Act := [ATask EvReceive; ATask EvGatherEnd; ATask (EvFlush io)].
Definition io_bad : FlushIo := {| io_write := WriteFailed 5 0; io_sync := Ok tt |}.

(** The first append fails; the second does not fit, rolls over and succeeds. *)
Definition revived : option Sys :=
  exec_any ([ACall [rec Byte.x61]; ARun 0 cr] ++ flush_with io_bad ++ [ARun 0 cr;
             ACall [rec Byte.x62]; ARun 1 cr; ARun 1 cr; ARun 1 cr; ATask EvShutdown; ATask (EvFlush (io_ok 0));
             ARun 1 cr; ARun 1 cr] ++ flush_with (io_ok 43) ++ [ARun 1 cr; ARun 1 cr]) started.

(** A failed flush breaks the committer, but the next rollover replaces it
    by a working one: in this run the first append fails, the second one is
    then acknowledged with LSN 2, and no recovery will ever find that record:
    the reader stops at the LSN gap between the two segments. *)
Theorem wal_rollover_revives_broken :
  match revived with
  | Some s => outcomes s = [Some (Err (Commit (WalBroken (FlushFailed (SegIo 5))))); Some (Ok [2])]
      /\ read_back (crash [] (sy_wal s)) uuid = Some ([], Some (LsnGapAtSegmentBoundary 1 1 2))
  | None => False
  end.
Proof. vm_compute. split; reflexivity. Qed.

(** ** A crash while the next segment is created *)

Definition cr_crash : CreateIo :=
  {| cr_close := Ok tt; cr_io := io_bad; cr_now := 5; cr_fsync_dir := Ok tt |}.
Definition half_rolled : option Sys :=
  exec_any ([ACall [rec Byte.x61]; ARun 0 cr] ++ flush_with (io_ok 43) ++ [ARun 0 cr; ARun 0 cr;
             ACall [rec Byte.x62]; ARun 1 cr; ARun 1 cr; ARun 1 cr; ATask EvShutdown; ATask (EvFlush (io_ok 0));
             ARun 1 cr_crash]) started.

(** When the header of a new segment does not reach the disk (a failed
    write, or a crash between creating the file and writing it), the
    acknowledged record in the old segment is intact, but the reader refuses
    the whole directory because of the empty file next to it. *)
Theorem wal_torn_creation_blocks_open :
  match half_rolled with
  | Some s => outcomes s = [Some (Ok [1]); Some (Err (Segment (SegIo 5)))]
      /\ read_back (crash [] (sy_wal s)) uuid = Some ([], Some (SegmentTooSmall (segment_path 1) 0))
      /\ read_back (take 1 (crash [] (sy_wal s))) uuid = Some ([1], None)
  | None => False
  end.
Proof. vm_compute. split_and!; reflexivity. Qed.

(** ** A transaction that straddles a rollover *)

Import RecoveryExample.

Definition seg_cfg : WalConfig :=
  {| group_commit := GroupCommitConfig_default; max_segment_bytes := WAL_SEGMENT_HEADER_LEN + 80 |}.
Definition txn_records : list WalRecord :=
  map fst [mk 0 (begin_ Byte.x0a); mk 0 (Reclaim ReplayExample.reclaim); mk 0 (commit_ Byte.x0a)].

Definition started_small : option Sys :=
  match create_with_config [] uuid seg_cfg cr with
  | (_, Ok w) => Some {| sy_wal := w; sy_calls := [] |}
  | _ => None
  end.

(** TXN_BEGIN goes to segment 0, its member to segment 1; then the crash. *)
Definition straddled : option Sys :=
  s ← started_small;
  exec_any ([ACall txn_records; ARun 0 cr] ++ flush_with (io_ok 60) ++ [ARun 0 cr; ARun 0 cr; ARun 0 cr;
            ATask EvShutdown; ATask (EvFlush (io_ok 0)); ARun 0 cr; ARun 0 cr] ++ flush_with (io_ok 72)) s.

(** Recovery, then [open_existing] with its report, then one more append. *)
Definition resumed (dir : Dir) : option Sys :=
  '(_, _, r) ← recover 100 demo_sys Allocator.AllocExample.demo dir uuid InMemory.new;
  match r with
  | Ok (report, _) =>
    match open_existing (rebooted dir) uuid (Recovery.next_lsn report)
            (Z.to_nat (active_tail_offset report)) seg_cfg ResumeExample.tr with
    | (_, Ok w) =>
      exec_any ([ACall [rec Byte.x61]; ARun 0 cr] ++ flush_with (io_ok 43) ++ [ARun 0 cr; ARun 0 cr])
        {| sy_wal := w; sy_calls := [] |}
    | _ => None
    end
  | Err _ => None
  end.

(** If a transaction begins in one segment and the crash comes after the
    rollover to the next one, recovery succeeds and the WAL reopens, but it
    resumes at the LSN of the TXN_BEGIN in the segment behind it: the next
    append is acknowledged with an LSN that is in use, and the recovery after
    that fails at it. *)
Theorem wal_straddling_txn_reuses_lsn :
  match straddled ≫= (fun s => resumed (crash [] (sy_wal s))) with
  | Some s => outcomes s = [Some (Ok [1])]
      /\ read_back (crash [] (sy_wal s)) uuid = Some ([1], Some (LsnGap 1 2 1))
  | None => False
  end.
Proof. vm_compute. split; reflexivity. Qed.

(** ** Two calls, one of them in the middle of a transaction *)

Definition wide_cfg : WalConfig :=
  {| group_commit := GroupCommitConfig_default; max_segment_bytes := WAL_SEGMENT_HEADER_LEN + 130 |}.
Definition checkpoint_begin : WalRecord :=
  fst (mk 0 (CheckpointBegin {| cb_checkpoint_id := 1; cb_started_at := 7 |})).
Definition flush_two (n : nat) : list Act :=
  [ATask EvReceive; ATask EvGather; ATask EvGatherEnd; ATask (EvFlush (io_ok n))].

(** The second record of the transaction does not fit; while its call waits
    to roll over, a CHECKPOINT_BEGIN is appended that still fits. *)
Definition interleaved : option Sys :=
  match create_with_config [] uuid wide_cfg cr with
  | (_, Ok w) =>
    exec ([ACall txn_records; ARun 0 cr; ACall [checkpoint_begin]; ARun 1 cr] ++ flush_two 116
          ++ [ARun 0 cr; ARun 0 cr; ARun 0 cr; ATask EvShutdown; ATask (EvFlush (io_ok 0)); ARun 0 cr; ARun 0 cr]
          ++ flush_two 128 ++ [ARun 0 cr; ARun 0 cr; ARun 0 cr; ARun 1 cr; ARun 1 cr])
      {| sy_wal := w; sy_calls := [] |}
  | _ => None
  end.

(** [append_many] lets other records in when its batch straddles a
    rollover: here a checkpoint record lands between a TXN_BEGIN and the
    members of its transaction, both calls are acknowledged and the log is
    read back without error, but recovery counts the checkpoint record as a
    member, exceeds the declared count and fails. *)
Theorem wal_interleaved_txn_blocks_recovery :
  match interleaved with
  | Some s => outcomes s = [Some (Ok [1; 3; 4]); Some (Ok [2])]
      /\ read_back (crash [] (sy_wal s)) uuid = Some ([1; 2; 3; 4], None)
      /\ snd <$> recover 100 demo_sys Allocator.AllocExample.demo (crash [] (sy_wal s)) uuid InMemory.new
         = Some (Err (TxnBufferOverflow (txn_id Byte.x0a) 2 1))
  | None => False
  end.
Proof. vm_compute. split_and!; reflexivity. Qed.

(** ** A payload that contains a frame *)

(** The record whose payload is itself a framed record with a later LSN. *)
Definition nested : WalRecord :=
  {| wr_lsn := 2; wr_kind := KForget; wr_flags := 0; wr_timestamp_ns := 7; wr_space_id_lo64 := 3;
     wr_payload := frame (set_lsn 9 (rec Byte.x62)) |}.

(** A torn write can be taken for corruption: the write of a record whose
    payload contains a framed record with a later LSN is torn one byte before
    its end; nothing acknowledged is missing, but the reader ends with a
    corruption error where any other torn write is a clean end. *)
Theorem reader_nested_frame_blocks :
  let dir tail := [ReaderExample.seg_file 0 1 (frames [set_lsn 1 (rec Byte.x61)] ++ tail)] in
  let torn r := take (encoded_len r - 1) (frame r) in
  read_back (dir (torn (set_lsn 2 (rec Byte.x62)))) ReaderExample.uuid = Some ([1], None)
  /\ read_back (dir (torn nested)) ReaderExample.uuid = Some ([1], Some (MidSegmentCorruption 0)).
Proof. vm_compute. split; reflexivity. Qed.


(** ** A power loss after a recovery *)

Definition occupied (a : ArenaFile.ArenaFile) (idx : Z) : option bool := is_occupied <$> ArenaFile.slot a idx.
Definition encode_slot (idx : Z) : WalPayload :=
  Encode {| ep_memory_id := MemoryId.pack 1 idx 1; ep_request_id := ReplayExample.id16;
    ep_space_id := ReplayExample.id16; ep_namespace_id := 1; ep_session_id := 9; ep_kind := Episodic;
    ep_salience_initial := 0; ep_embedding_model_fp := ReplayExample.id16; ep_text := [];
    ep_vector := replicate VECTOR_DIM 0x3f800000; ep_edges := []; ep_request_hash := replicate 32 Byte.x00;
    ep_response_payload := []; ep_deduplicate := false; ep_occurred_at := None |}.

(** A memory, then a checkpoint whose durable LSN covers it. *)
Definition covered_log : list WalRecord :=
  map fst [mk 1 (encode_slot 2); mk 2 (CheckpointBegin {| cb_checkpoint_id := 1; cb_started_at := 7 |});
           mk 3 (CheckpointEnd {| ce_checkpoint_id := 1; ce_durable_lsn := 1; ce_arena_capacity := 4 |})].
Definition covered_dir : Dir := [ReaderExample.seg_file 0 1 (frames covered_log)].

(** A recovery moves the durable LSN of the sink past records whose slots
    it has only written to the mapped arena: here the first recovery writes
    the slot of the memory at LSN 1 and learns from CHECKPOINT_END that LSN 1
    is durable; if the power fails before the arena is written back, the
    second recovery finds the old arena and the new durable LSN, skips the
    record and succeeds, and the slot stays empty. *)
Theorem recovery_durable_lsn_outruns_arena :
  match recover 100 demo_sys Allocator.AllocExample.demo covered_dir ReaderExample.uuid InMemory.new with
  | Some (arena1, sink1, Ok _) =>
    occupied Allocator.AllocExample.demo 2 = Some false /\ occupied arena1 2 = Some true /\ durable_lsn sink1 = 1
    /\ match recover 100 demo_sys Allocator.AllocExample.demo covered_dir ReaderExample.uuid sink1 with
       | Some (arena2, _, Ok (report, _)) => records_skipped report = 1 /\ occupied arena2 2 = Some false
       | _ => False
       end
  | _ => False
  end.
Proof. vm_compute. split_and!; reflexivity. Qed.
