(* ===== verification/WalRetention.v ===== *)
(** WAL retention ([brain-workers/src/workers/wal_retention.rs] and its
    source over the log directory, [brain-server/src/shard/adapters.rs]):
    delete the segments whose records a checkpoint covers.

    The worker talks to its source through the trait [WalRetentionSource], a
    class here; [WalDir] is the source over a directory.  [stop n] says that
    the time is up or a shutdown was requested before the [n]-th deletion;
    [unlink] answers [remove_file].  [retention_preserves_recovery]: after a
    cycle recovery does what it would have done before it. *)

From stdpp Require Import sorting.
From S2P Require Import Prelude Crc32c Ids WalKinds WalRecord Utf8 WalPayload WalPayloadCodec.
From S2P Require Import ArenaSlot ArenaFile Allocator WalSegment WalReader WalReaderSpec.
From S2P Require Import WalReaderOpen Recovery RecoveryReplay RecoveryArena RecoveryContract WalDisk.

Record SegmentDesc := {
  rd_segment_id : Z;
  rd_first_lsn : Z;
  rd_last_lsn : Z;
  rd_size_bytes : Z;
}.
Record CheckpointDesc := { cd_durable_lsn : Z }.

(** [Iterator::max] over the ids. *)
Definition max_segment_id (segments : list SegmentDesc) : option Z :=
  match segments with
  | [] => None
  | s :: rest => Some (foldl Z.max (rd_segment_id s) (map rd_segment_id rest))
  end.

Definition decide_deletions (segments : list SegmentDesc) (checkpoint : CheckpointDesc)
    (retention_extra_lsns : Z) : list Z :=
  let safe_cutoff := sat_sub (cd_durable_lsn checkpoint) retention_extra_lsns in
  let active_segment_id := max_segment_id segments in
  map rd_segment_id
    (filter (fun s => rd_last_lsn s < safe_cutoff)
       (filter (fun s => Some (rd_segment_id s) <> active_segment_id) segments)).

Inductive WalRetentionSourceError := Disabled | Rejected | SourceFailed.

(** An operation that changes the source returns it. *)
Class WalRetentionSource (S : Type) := {
  current_checkpoint : S -> result CheckpointDesc WalRetentionSourceError;
  list_segments : S -> result (list SegmentDesc) WalRetentionSourceError;
  delete_segment : S -> Z -> S * result unit WalRetentionSourceError;
}.

Inductive WorkerError := CheckpointOps | ListOps | DeleteOps.

Record RetentionConfig := { batch_size : nat; retention_extra_lsns : Z }.

Section worker.
Context {S : Type} `{WalRetentionSource S}.

(** Step 4: the deletions, from the [n]-th candidate on. *)
Fixpoint delete_all (stop : nat -> bool) (n : nat) (ids : list Z) (s : S) (deleted : nat)
  : S * result nat WorkerError :=
  match ids with
  | [] => (s, Ok deleted)
  | id :: ids =>
    if stop n then (s, Ok deleted) else
    match delete_segment s id with
    | (s, Ok _) => delete_all stop (Datatypes.S n) ids s (Datatypes.S deleted)
    | (s, Err Rejected) => delete_all stop (Datatypes.S n) ids s deleted
    | (s, Err Disabled) => (s, Ok deleted)
    | (s, Err SourceFailed) => (s, Err DeleteOps)
    end
  end.

Definition do_retention_cycle (cfg : RetentionConfig) (stop : nat -> bool) (s : S)
  : S * result nat WorkerError :=
  if (batch_size cfg =? 0)%nat then (s, Ok 0%nat) else
  match current_checkpoint s with
  | Err Disabled | Err Rejected => (s, Ok 0%nat)
  | Err SourceFailed => (s, Err CheckpointOps)
  | Ok checkpoint =>
    match list_segments s with
    | Err Disabled | Err Rejected => (s, Ok 0%nat)
    | Err SourceFailed => (s, Err ListOps)
    | Ok segments =>
      let candidates := decide_deletions segments checkpoint (retention_extra_lsns cfg) in
      if (length candidates =? 0)%nat then (s, Ok 0%nat) else
      delete_all stop 0 (take (batch_size cfg) candidates) s 0
    end
  end.
End worker.

(** ** The source over the log directory *)

Record WalDir := {
  wd_dir : Dir;
  wd_uuid : bytes;
  wd_durable_lsn : Z;                (* [MetadataSink::durable_lsn] of the metadata store *)
  wd_unlink : bytes -> option Z;     (* an error of [remove_file] on an existing file *)
}.

(** The loop of [list_segments]: a completed segment ends where the next begins. *)
Fixpoint describe (durable_lsn : Z) (infos : list SegmentInfo) : list SegmentDesc :=
  match infos with
  | [] => []
  | s :: rest =>
    let last_lsn := match rest with
                    | next :: _ => sat_sub (si_starting_lsn next) 1
                    | [] => durable_lsn
                    end in
    {| rd_segment_id := si_segment_seq s; rd_first_lsn := si_starting_lsn s;
       rd_last_lsn := Z.max last_lsn (si_starting_lsn s); rd_size_bytes := si_file_size s |}
    :: describe durable_lsn rest
  end.

Definition remove_entry (name : bytes) (dir : Dir) : Dir := filter (fun e => e.1 <> name) dir.

Definition wd_delete_segment (s : WalDir) (segment_id : Z) : WalDir * result unit WalRetentionSourceError :=
  let path := segment_path segment_id in
  match fs_read (wd_dir s) path with
  | None => (s, Ok tt)                                   (* [NotFound] *)
  | Some _ =>
    match wd_unlink s path with
    | Some _ => (s, Err SourceFailed)
    | None => ({| wd_dir := remove_entry path (wd_dir s); wd_uuid := wd_uuid s;
                  wd_durable_lsn := wd_durable_lsn s; wd_unlink := wd_unlink s |}, Ok tt)
    end
  end.

#[export] Instance WalDirRetentionSource `{Crc32c} : WalRetentionSource WalDir := {
  current_checkpoint s := Ok {| cd_durable_lsn := wd_durable_lsn s |};
  list_segments s :=
    match open (wd_dir s) (wd_uuid s) with
    | Err _ => Err SourceFailed
    | Ok reader => Ok (describe (wd_durable_lsn s) (segments reader))
    end;
  delete_segment := wd_delete_segment;
}.

(** ** Which segments go *)

Section choice.
Context `{CRC : Crc32c}.

(** The starts of a layout without overflow. *)
Definition fits (lsn : Z) (ds : list SegDesc) : Prop :=
  0 <= lsn /\ lsn + Z.of_nat (length (layout_recs ds)) < 2 ^ 64.

Lemma fits_cons lsn d ds :
  fits lsn (d :: ds) ->
  lsn_after lsn (sd_recs d) = lsn + Z.of_nat (length (sd_recs d)) /\ fits (lsn_after lsn (sd_recs d)) ds.
Proof.
  unfold fits, layout_recs. cbn [mbind list_bind]. rewrite length_app. intros [H0 Hl].
  assert (lsn_after lsn (sd_recs d) = lsn + Z.of_nat (length (sd_recs d))) as -> by (apply lsn_after_small; lia).
  split; [done|lia].
Qed.

Lemma fits_app lsn a b : fits lsn (a ++ b) -> fits (lsn_after lsn (layout_recs a)) b.
Proof.
  intros [H0 Hn]. rewrite layout_recs_app, length_app in Hn. rewrite lsn_after_small by lia. split; lia.
Qed.

Lemma describe_ge uuid durable seq lsn ds :
  layout seq lsn ds -> fits lsn ds ->
  Forall (fun s => lsn <= rd_last_lsn s) (describe durable (map (sd_info uuid) ds)).
Proof.
  revert seq lsn. induction ds as [|d ds IH]; intros seq lsn Hl Hf; [by constructor|].
  destruct Hl as (_ & _ & El & Hl). destruct (fits_cons _ _ _ Hf) as [Ea Hf'].
  cbn [map describe]. constructor; [cbn; lia|].
  eapply Forall_impl; [by apply (IH _ _ Hl Hf')|]. cbn. intros s. lia.
Qed.

(** The segments are described in the order of their last LSNs. *)
Lemma describe_sorted uuid durable seq lsn ds :
  layout seq lsn ds -> fits lsn ds ->
  StronglySorted (fun a b => rd_last_lsn a <= rd_last_lsn b) (describe durable (map (sd_info uuid) ds)).
Proof.
  revert seq lsn. induction ds as [|d ds IH]; intros seq lsn Hl Hf; [constructor|].
  destruct Hl as (_ & _ & El & Hl). destruct (fits_cons _ _ _ Hf) as [Ea Hf'].
  cbn [map describe]. constructor; [by eapply IH|].
  pose proof (describe_ge uuid durable _ _ _ Hl Hf') as Hge.
  destruct ds as [|d1 ds]; [constructor|].
  eapply Forall_impl; [exact Hge|]. cbn. intros s Hs.
  destruct Hl as (_ & _ & El1 & _), Hf as [H0 _]. unfold sat_sub. lia.
Qed.

Lemma filter_take {A} (f : A -> Z) (c : Z) (l : list A) :
  StronglySorted (fun a b => f a <= f b) l ->
  exists k, filter (fun x => f x < c) l = take k l /\ Forall (fun x => f x < c) (take k l).
Proof.
  induction 1 as [|x l Hs (k & E & Hk) Hx]; [by exists 0%nat|].
  destruct (decide (f x < c)) as [Hlt|Hge].
  - exists (S k). rewrite filter_cons, decide_True by done. rewrite E. split; [done|]. by constructor.
  - exists 0%nat. split; [|constructor]. rewrite filter_cons, decide_False by done.
    apply filter_none. eapply Forall_impl; [exact Hx|]. cbn. intros y Hy. lia.
Qed.

Lemma foldl_max (l : list Z) (m x : Z) : Forall (fun y => y < x) (m :: l) -> foldl Z.max m (l ++ [x]) = x.
Proof.
  revert m. induction l as [|y l IH]; intros m Hf; cbn.
  - apply Forall_cons in Hf as [Hm _]. lia.
  - apply Forall_cons in Hf as [Hm Hf]. apply Forall_cons in Hf as [Hy Hf]. apply IH.
    constructor; [lia|done].
Qed.

Lemma describe_ids uuid durable ds :
  map rd_segment_id (describe durable (map (sd_info uuid) ds)) = map sd_seq ds.
Proof. induction ds as [|d ds IH]; cbn; [done|]. by rewrite IH. Qed.

Lemma layout_seq_bound seq lsn ds d :
  layout seq lsn (ds ++ [d]) -> Forall (fun q => q < sd_seq d) (map sd_seq ds).
Proof.
  intros Hl. apply Forall_fmap, Forall_forall. intros x Hx.
  apply list_elem_of_lookup in Hx as [i Hi]. cbn.
  rewrite (layout_seq _ _ _ i x Hl) by (by apply lookup_app_l_Some).
  assert ((ds ++ [d]) !! length ds = Some d) as Hd by (apply lookup_snoc_Some; by right).
  rewrite (layout_seq _ _ _ _ d Hl Hd). apply lookup_lt_Some in Hi. lia.
Qed.

(** The active segment is the one with the largest number. *)
Lemma max_id_last uuid durable seq lsn ds d :
  layout seq lsn (ds ++ [d]) ->
  max_segment_id (describe durable (map (sd_info uuid) (ds ++ [d]))) = Some (sd_seq d).
Proof.
  intros Hl. pose proof (layout_seq_bound _ _ _ _ Hl) as Hb.
  pose proof (describe_ids uuid durable (ds ++ [d])) as Ei. rewrite (map_app sd_seq) in Ei. cbn [map] in Ei.
  destruct (describe durable (map (sd_info uuid) (ds ++ [d]))) as [|s rest]; [by apply app_cons_not_nil in Ei|].
  cbn [map] in Ei. cbn [max_segment_id]. f_equal. destruct ds as [|d0 ds]; cbn [map app] in Ei.
  - injection Ei as -> ->. done.
  - injection Ei as -> ->. by apply foldl_max.
Qed.

Lemma describe_app_take uuid durable ds d :
  filter (fun s => Some (rd_segment_id s) <> Some (sd_seq d)) (describe durable (map (sd_info uuid) (ds ++ [d])))
  = filter (fun s => Some (rd_segment_id s) <> Some (sd_seq d))
      (take (length ds) (describe durable (map (sd_info uuid) (ds ++ [d])))).
Proof.
  rewrite <- (take_drop (length ds) (describe _ _)) at 1. rewrite filter_app.
  assert (drop (length ds) (describe durable (map (sd_info uuid) (ds ++ [d])))
    = describe durable [sd_info uuid d]) as ->.
  { induction ds as [|x ds IH]; [done|]. cbn [app map length describe]. by rewrite skipn_cons. }
  cbn [describe filter list_filter]. rewrite decide_False by (intros H; by apply H). apply app_nil_r.
Qed.

Lemma length_describe uuid durable ds : length (describe durable (map (sd_info uuid) ds)) = length ds.
Proof. rewrite <- (length_map rd_segment_id), describe_ids. apply length_map. Qed.

(** A closed segment's records are not above the last LSN it is described with. *)
Lemma describe_covers uuid durable seq lsn ds d :
  layout seq lsn (ds ++ [d]) -> fits lsn (ds ++ [d]) ->
  Forall2 (fun s x => rd_segment_id s = sd_seq x /\ Forall (fun r => wr_lsn r <= rd_last_lsn s) (sd_recs x))
    (take (length ds) (describe durable (map (sd_info uuid) (ds ++ [d])))) ds.
Proof.
  revert seq lsn. induction ds as [|x ds IH]; intros seq lsn Hl Hf; [by rewrite take_0|].
  cbn [app] in Hl, Hf. destruct Hl as (Hok & _ & El & Hl). destruct (fits_cons _ _ _ Hf) as [Ea Hf'].
  cbn [app map describe length]. rewrite firstn_cons. constructor; [|by eapply IH].
  split; [done|]. cbn [rd_last_lsn].
  assert (exists nxt rest, map (sd_info uuid) (ds ++ [d]) = nxt :: rest
    /\ si_starting_lsn nxt = lsn_after lsn (sd_recs x)) as (nxt & rest & -> & En).
  { destruct ds as [|y ds]; eexists _, _; (split; [reflexivity|]); apply Hl. }
  rewrite En, Ea. pose proof (so_lsns _ Hok) as Hls. rewrite El in Hls.
  destruct Hf as [H0 _], Hf' as [_ Hb].
  eapply Forall_impl; [apply (lsns_ok_below lsn); [done|lia|done]|].
  cbn. intros r Hr. unfold sat_sub. lia.
Qed.

(** The worker picks a prefix of the closed segments, all of whose records
    are below the durable LSN. *)
Lemma decide_prefix uuid durable extra seq lsn ds d :
  layout seq lsn (ds ++ [d]) -> fits lsn (ds ++ [d]) -> 0 <= extra -> 0 <= durable ->
  exists k, (k <= length ds)%nat
    /\ decide_deletions (describe durable (map (sd_info uuid) (ds ++ [d]))) {| cd_durable_lsn := durable |} extra
       = map sd_seq (take k ds)
    /\ Forall (fun r => wr_lsn r < durable) (layout_recs (take k ds)).
Proof.
  intros Hl Hf He Hd. unfold decide_deletions. cbn [cd_durable_lsn].
  rewrite (max_id_last _ _ _ _ _ _ Hl), describe_app_take.
  pose proof (describe_covers uuid durable _ _ _ _ Hl Hf) as Hc.
  pose proof (describe_sorted uuid durable _ _ _ Hl Hf) as Hs.
  rewrite <- (take_drop (length ds) (describe _ _)) in Hs. apply StronglySorted_app_1_l in Hs.
  set (closed := take (length ds) _) in *.
  assert (filter (fun s => Some (rd_segment_id s) <> Some (sd_seq d)) closed = closed) as ->.
  { apply filter_all. pose proof (layout_seq_bound _ _ _ _ Hl) as Hb.
    clear -Hc Hb. induction Hc as [|s x closed ds [E _] Hc IH]; [constructor|].
    apply Forall_cons in Hb as [Hx Hb]. constructor; [|by apply IH]. intros [= E']. lia. }
  destruct (filter_take rd_last_lsn (sat_sub durable extra) closed Hs) as (k & -> & Hk).
  exists (min k (length ds)). split; [lia|].
  assert (take (min k (length ds)) ds = take k ds) as ->
    by (by rewrite <- take_take, (take_ge ds (length ds))).
  pose proof (Forall2_take _ _ _ k Hc) as Hc'. clear Hc Hs. revert Hk Hc'.
  generalize (take k closed) (take k ds). intros cs xs Hk Hc'. clearbody closed.
  induction Hc' as [|s x cs xs [E Hr] Hc' IH]; [by split; [|constructor]|].
  apply Forall_cons in Hk as [Hs Hk]. destruct (IH Hk) as [E2 Hr2]. split.
  - cbn [map]. by rewrite E, E2.
  - unfold layout_recs. cbn [mbind list_bind]. apply Forall_app. split; [|done].
    eapply Forall_impl; [exact Hr|]. cbn. intros r Hle. unfold sat_sub in Hs. lia.
Qed.
End choice.

(** ** The deletions *)

Section deletions.
Context `{CRC : Crc32c} `{!Crc32cLaws CRC}.

#[local] Instance remove_entry_proper name : Proper ((≡ₚ) ==> (≡ₚ)) (remove_entry name).
Proof. intros fs fs' Hp. unfold remove_entry. by rewrite Hp. Qed.

(** The directory without its first segment. *)
Lemma holds_tail dir uuid x ds :
  holds uuid dir (x :: ds) ->
  (exists c, fs_read dir (segment_path (sd_seq x)) = Some c)
  /\ holds uuid (remove_entry (segment_path (sd_seq x)) dir) ds.
Proof.
  intros [(others & Ho & Hp) Hn]. cbn [map app] in Hp. split.
  { exists (sd_bytes uuid x). apply fs_read_unique; [done|]. rewrite Hp. left. }
  assert (NoDup (map fst dir)) as Hn' by done. rewrite Hp in Hn'. cbn [map] in Hn'.
  apply NoDup_cons in Hn' as [Hx Hn'].
  assert (remove_entry (segment_path (sd_seq x)) dir ≡ₚ map (sd_entry uuid) ds ++ others) as Hr.
  { rewrite Hp. unfold remove_entry. rewrite filter_cons, decide_False by (intros H; by apply H).
    rewrite filter_all; [done|]. apply Forall_forall. intros e He E. apply Hx. cbn [sd_entry fst] in *. rewrite <- E.
    by apply list_elem_of_fmap_2. }
  split; [by exists others|]. by rewrite Hr.
Qed.

(** However the loop ends, it has deleted a prefix of its candidates. *)
Lemma delete_all_prefix stop n deleted (s : WalDir) s' r k ds :
  holds (wd_uuid s) (wd_dir s) ds -> (k <= length ds)%nat ->
  delete_all stop n (map sd_seq (take k ds)) s deleted = (s', r) ->
  exists j, (j <= k)%nat /\ holds (wd_uuid s) (wd_dir s') (drop j ds)
    /\ match r with Ok m => m = (deleted + j)%nat | Err _ => True end.
Proof.
  revert s n deleted ds. induction k as [|k IH]; intros s n deleted ds Hh Hk E.
  { rewrite take_0 in E. cbn in E. simplify_eq. exists 0%nat. rewrite drop_0. split_and!; [done..|lia]. }
  destruct ds as [|x ds]; [cbn in Hk; lia|]. rewrite firstn_cons in E. cbn [map delete_all] in E.
  destruct (stop n).
  { simplify_eq. exists 0%nat. rewrite drop_0. split_and!; [lia|done|lia]. }
  destruct (holds_tail _ _ _ _ Hh) as [[c Ec] Ht]. cbn [delete_segment WalDirRetentionSource] in E.
  unfold wd_delete_segment in E. rewrite Ec in E. destruct (wd_unlink s _) as [e|].
  { simplify_eq. exists 0%nat. rewrite drop_0. split_and!; [lia|done..]. }
  apply IH in E as (j & Hj & Hd & Hr); [|exact Ht|cbn in Hk; lia]. exists (S j).
  split_and!; [lia|done|]. destruct r; [lia|done].
Qed.
End deletions.

(** ** Recovery after a cycle *)

Section after.
Context `{CRC : Crc32c} `{!Crc32cLaws CRC} (uuid : bytes).

(** Reading a log, then reading it without its first segments. *)
Lemma read_layout_prefix dir seq lsn a b :
  layout seq lsn (a ++ b) -> Forall clean a ->
  (forall x, x ∈ a -> seg_body dir (sd_info uuid x) = Some (frames (sd_recs x) ++ sd_tail x)) ->
  exists its, map it_rec its = layout_recs a
    /\ forall its' e, read_segments dir (map (sd_info uuid) b) (lsn_after lsn (layout_recs a)) = (its', e) ->
       read_segments dir (map (sd_info uuid) (a ++ b)) lsn = (its ++ its', e).
Proof using Crc32cLaws0.
  revert seq lsn. induction a as [|x a IH]; intros seq lsn Hl Hc Hb.
  { exists []. by split. }
  cbn [app] in Hl. destruct Hl as (Hok & _ & El & Hl). subst lsn. apply Forall_cons in Hc as [Hx Hc].
  destruct (IH _ _ Hl Hc) as (its & Em & Er). { intros y Hy. apply Hb. by right. }
  exists (places (sd_seq x) WAL_SEGMENT_HEADER_LEN (sd_recs x) ++ its). split.
  { unfold layout_recs. cbn [mbind list_bind]. by rewrite map_app, places_rec, Em. }
  unfold layout_recs. cbn [mbind list_bind]. rewrite lsn_after_app. intros its' e E'.
  cbn [app map]. rewrite (read_segments_body _ (sd_info uuid x) _ (sd_lsn x) _ eq_refl (Hb x (list_elem_of_here x a))), Hx.
  rewrite parse_frames by apply Hok. rewrite parse_nil, app_nil_r. cbn [continue_with sd_info si_segment_seq].
  rewrite (Er its' e) by done. by rewrite app_assoc.
Qed.

Lemma read_segments_ext dir dir' infos lsn :
  (forall i, i ∈ infos -> fs_read dir (si_path i) = fs_read dir' (si_path i)) ->
  read_segments dir infos lsn = read_segments dir' infos lsn.
Proof.
  revert lsn. induction infos as [|i infos IH]; intros lsn Hf; [done|]. cbn [read_segments].
  rewrite <- (Hf i) by left. destruct (negb _); [done|]. destruct (fs_read dir (si_path i)); [|done].
  destruct (parse _ _ _ _) as [[its lsn'] stop]. cbn [continue_with]. destruct stop; [|done..].
  rewrite IH; [done|]. intros y Hy. apply Hf. by right.
Qed.

Lemma holds_read dir dir' ds ds' x :
  holds uuid dir ds -> holds uuid dir' ds' -> x ∈ ds -> x ∈ ds' ->
  fs_read dir (si_path (sd_info uuid x)) = fs_read dir' (si_path (sd_info uuid x)).
Proof.
  intros [(o & _ & Hp) Hn] [(o' & _ & Hp') Hn'] Hx Hx'. cbn [sd_info si_path].
  rewrite (fs_read_unique dir _ (sd_bytes uuid x)), (fs_read_unique dir' _ (sd_bytes uuid x)); try done.
  - rewrite Hp'. apply elem_of_app. left. by apply (list_elem_of_fmap_2 (sd_entry uuid)).
  - rewrite Hp. apply elem_of_app. left. by apply (list_elem_of_fmap_2 (sd_entry uuid)).
Qed.

Context {S : Type} `{Snk : MetadataSink S} (sys : Z -> ArenaFile.Syscalls).
Implicit Types st : RecState (S := S).

(** A state that has skipped [n] more records. *)
Definition add_skipped (n : Z) st : RecState :=
  {| st_arena := st_arena st; st_sink := st_sink st; st_replayed := st_replayed st;
     st_skipped := st_skipped st + n; st_discarded := st_discarded st;
     last_good_lsn := last_good_lsn st; good_tail_offset := good_tail_offset st;
     good_tail_segment_seq := good_tail_segment_seq st; active_txn := active_txn st;
     active_txn_expected := active_txn_expected st; txn_buffer := txn_buffer st |}.

Lemma advance_skipped n r lsn st :
  advance_tail r lsn (add_skipped n st) = add_skipped n (advance_tail r lsn st).
Proof. done. Qed.
Lemma count_add_skipped n st : count_skipped (add_skipped n st) = add_skipped n (count_skipped st).
Proof. unfold count_skipped, add_skipped. cbn. f_equal. lia. Qed.

Definition shift_skipped (n : Z) (o : option (RecState (S := S) * result unit RecoveryError)) :=
  '(st, r) ← o; Some (add_skipped n st, r).

(** The count of skipped records is only a count. *)
Lemma recover_step_skipped n durable r st rec :
  recover_step sys durable r (add_skipped n st) rec = shift_skipped n (recover_step sys durable r st rec).
Proof.
  unfold recover_step. rewrite count_add_skipped.
  destruct (wr_lsn rec <=? durable); [done|].
  destruct (negb _). { cbn. by destruct (active_txn st). }
  destruct (typed_payload rec) as [p|e]; [|done]. cbn [active_txn add_skipped].
  destruct (active_txn st) as [id|] eqn:Et.
  - unfold step_in_txn. cbn [active_txn active_txn_expected txn_buffer add_skipped].
    destruct p; try done; try (by case_match); case_bool_decide; try (by case_match); [|done].
    cbn [set_txn st_arena st_sink].
    destruct (apply_all _ _ _ _) as [[[ar sk] [u|e]]|]; done.
  - unfold step_idle. cbn [st_arena st_sink add_skipped].
    destruct p; try (destruct (apply _ _ _ _ _) as [[[ar sk] [u|e]]|]; done). done.
Qed.

Lemma replay_add_skipped n durable its st :
  replay sys durable (add_skipped n st) its = shift_skipped n (replay sys durable st its).
Proof.
  revert st. induction its as [|it its IH]; intros st; [done|]. cbn [replay].
  rewrite recover_step_skipped.
  destruct (recover_step _ _ _ _ _) as [[st1 [u|e]]|]; cbn [shift_skipped mbind option_bind]; [|done..].
  apply IH.
Qed.

(** Durable records are skipped; the tail is where the last of them ends. *)
Lemma replay_durable durable its it st :
  Forall (fun it => wr_lsn (it_rec it) <= durable) (its ++ [it]) ->
  replay sys durable st (its ++ [it])
  = Some (add_skipped (Z.of_nat (length its)) (advance_tail (reader_at it) (wr_lsn (it_rec it)) (count_skipped st)), Ok tt).
Proof.
  revert st. induction its as [|x its IH]; intros st [Hx Hf]%Forall_cons; cbn [app replay] in *;
    unfold recover_step at 1; rewrite (proj2 (Z.leb_le _ _) Hx); cbn [mbind option_bind].
  - cbn. unfold add_skipped, advance_tail, count_skipped. cbn. by rewrite Z.add_0_r.
  - rewrite (IH _ Hf). unfold add_skipped, advance_tail, count_skipped. cbn. do 3 f_equal. lia.
Qed.

(** A log whose first segments hold only durable records, and the rest of it. *)
Lemma replay_drop durable its it rest st :
  Forall (fun it => wr_lsn (it_rec it) <= durable) (its ++ [it]) ->
  replay sys durable st (its ++ it :: rest)
  = shift_skipped (Z.of_nat (length its)) (replay sys durable st (it :: rest)).
Proof.
  intros Hf. pose proof Hf as [_ H1]%Forall_app.
  rewrite (cons_middle it its), app_assoc, replay_app, (replay_durable durable its it st Hf).
  change (it :: rest) with (([] ++ [it]) ++ rest). rewrite replay_app, (replay_durable durable [] it st H1).
  cbn [mbind option_bind length]. rewrite <- replay_add_skipped. f_equal.
  unfold add_skipped, advance_tail, count_skipped; cbn. f_equal. lia.
Qed.

(** The first record of a log is the lowest. *)
Lemma layout_head seq lsn ds rec :
  layout seq lsn ds -> fits lsn ds -> rec ∈ layout_recs ds ->
  exists r0 rest, layout_recs ds = r0 :: rest /\ wr_lsn r0 <= wr_lsn rec.
Proof.
  intros Hl [H0 Hf] Hin. destruct (layout_lsns _ _ _ Hl) as [Hls _].
  pose proof (lsns_ok_below lsn _ H0 Hf Hls) as Hb. rewrite Forall_forall in Hb.
  destruct (layout_recs ds) as [|r0 rest]; [by apply not_elem_of_nil in Hin|].
  exists r0, rest. split; [done|]. destruct Hls as [-> _]. apply (Hb rec Hin).
Qed.

(** The outcome of a recovery that skips [n] more records. *)
Definition more_skipped (n : nat)
    (o : option (ArenaFile.ArenaFile * S * result (RecoveryReport * Allocator.SlotAllocator) RecoveryError)) :=
  '(a, s, r) ← o;
  Some (a, s, match r with
              | Ok (rp, al) =>
                Ok ({| records_replayed := records_replayed rp;
                       records_skipped := records_skipped rp + Z.of_nat n;
                       records_discarded := records_discarded rp; next_lsn := next_lsn rp;
                       active_tail_offset := active_tail_offset rp;
                       report_active_segment_seq := report_active_segment_seq rp |}, al)
              | Err e => Err e
              end).

(** Recovery of a layout, from what the reader makes of it. *)
Lemma recover_layout dir a sink seq lsn ds d its e fuel :
  length uuid = 16%nat -> layout seq lsn (ds ++ [d]) -> holds uuid dir (ds ++ [d]) ->
  read_segments dir (map (sd_info uuid) (ds ++ [d])) lsn = (its, e) -> (length its < fuel)%nat ->
  recover fuel sys a dir uuid sink =
    '(st, res) ← replay sys (durable_lsn sink) (initial_state a sink) its;
    match res, e with
    | Err e, _ => Some (st_arena st, st_sink st, Err e)
    | Ok _, Some e => Some (st_arena st, st_sink st, Err (WalRead e))
    | Ok _, None =>
      allocator ← Allocator.rebuild_from_arena (st_arena st);
      Some (st_arena st, st_sink st, Ok (report_of st (Some (sd_seq d)), allocator))
    end.
Proof using Crc32cLaws0.
  intros Hu Hl Hh Er Hf. pose proof (open_layout uuid _ _ _ _ Hu Hl Hh) as Ho.
  assert (expected_next_lsn (reader_of uuid (ds ++ [d])) = lsn) as El
    by (destruct ds; cbn in Hl |- *; apply Hl).
  unfold recover. rewrite Ho, (recover_loop_open _ dir uuid _ _ _ its e fuel Ho);
    [|by rewrite El|done].
  assert (active_segment_seq (reader_of uuid (ds ++ [d])) = Some (sd_seq d)) as ->.
  { unfold active_segment_seq. cbn [segments reader_of]. rewrite map_app. cbn [map]. by rewrite last_snoc. }
  destruct (replay _ _ _ _) as [[st [u|e1]]|]; [|done..]. by destruct e.
Qed.

(** Without leading segments of durable records, recovery does the same. *)
Lemma recover_dropped ar sink dir dir' seq lsn a b d rec :
  length uuid = 16%nat -> layout seq lsn (a ++ b ++ [d]) -> Forall clean (a ++ b) ->
  fits lsn (a ++ b ++ [d]) -> holds uuid dir (a ++ b ++ [d]) -> holds uuid dir' (b ++ [d]) ->
  Forall (fun r => wr_lsn r <= durable_lsn sink) (layout_recs a) ->
  rec ∈ layout_recs (b ++ [d]) -> wr_lsn rec = durable_lsn sink ->
  exists f, forall fuel, (f < fuel)%nat ->
    recover fuel sys ar dir uuid sink
    = more_skipped (length (layout_recs a)) (recover fuel sys ar dir' uuid sink).
Proof using Crc32cLaws0.
  intros Hu Hl [Ha Hb]%Forall_app Hfit Hh Hh' Hdur Hrec Elsn.
  pose proof Hl as [_ Hlb]%layout_app. pose proof (fits_app _ _ _ Hfit) as Hfb.
  destruct (layout_head _ _ _ rec Hlb Hfb Hrec) as (r0 & rest & Er0 & Hle).
  destruct (read_layout uuid _ _ b d dir' Hu Hlb Hb) as (more & e & Erd & _).
  { intros x Hx. by eapply holds_body. }
  destruct (read_layout_prefix dir seq lsn a (b ++ [d]) Hl Ha) as (its & Em & Hread).
  { intros x Hx. eapply holds_body; [done..|]. apply elem_of_app. by left. }
  pose proof (layout_items uuid (b ++ [d])) as Ei. rewrite Er0 in Ei.
  destruct (log_items _) as [|it0 its0]; [done|]. cbn [map] in Ei. injection Ei as Ei0 _.
  cbn [app] in Erd. pose proof Erd as Erd'. rewrite (read_segments_ext dir' dir) in Erd.
  2: { intros i (x & -> & Hx)%list_elem_of_fmap. eapply holds_read; [done..|].
       apply elem_of_app. by right. }
  specialize (Hread _ _ Erd). rewrite (app_assoc a b) in Hl, Hh, Hread.
  exists (length (its ++ it0 :: its0 ++ more)). intros fuel Hf.
  rewrite (recover_layout dir ar sink _ _ _ _ _ e fuel Hu Hl Hh Hread Hf).
  rewrite length_app in Hf. rewrite (recover_layout dir' ar sink _ _ _ _ _ e fuel Hu Hlb Hh' Erd') by lia.
  rewrite <- Em, length_map, replay_drop.
  2: { apply Forall_app. split; [|apply Forall_singleton; rewrite Ei0; lia].
       rewrite <- Em in Hdur. exact (proj1 (Forall_map _ _ _) Hdur). }
  destruct (replay _ _ _ _) as [[st [u|e1]]|]; cbn [shift_skipped mbind option_bind]; [|done..].
  destruct e; [done|]. cbn [st_arena add_skipped].
  by destruct (Allocator.rebuild_from_arena _).
Qed.
End after.

(** A cycle deletes some of the oldest segments, all of them below the checkpoint. *)
Lemma retention_cycle_prefix `{CRC : Crc32c} `{!Crc32cLaws CRC} durable dir uuid unlink seq lsn ds d cfg stop s' r :
  length uuid = 16%nat -> layout seq lsn (ds ++ [d]) -> fits lsn (ds ++ [d]) ->
  holds uuid dir (ds ++ [d]) -> 0 <= retention_extra_lsns cfg -> 0 <= durable ->
  do_retention_cycle cfg stop {| wd_dir := dir; wd_uuid := uuid; wd_durable_lsn := durable;
                                 wd_unlink := unlink |} = (s', r) ->
  exists j, (j <= length ds)%nat /\ holds uuid (wd_dir s') (drop j ds ++ [d])
    /\ Forall (fun x => wr_lsn x < durable) (layout_recs (take j ds))
    /\ match r with Ok deleted => deleted = j | Err _ => True end.
Proof.
  intros Hu Hl Hf Hh He Hd E. unfold do_retention_cycle in E.
  destruct (batch_size cfg =? 0)%nat.
  { simplify_eq. exists 0%nat. rewrite take_0, drop_0. split_and!; [lia|done|constructor|done]. }
  cbn [current_checkpoint list_segments WalDirRetentionSource wd_dir wd_uuid wd_durable_lsn] in E.
  rewrite (open_layout uuid _ _ _ _ Hu Hl Hh) in E. cbn [segments reader_of] in E.
  destruct (decide_prefix uuid durable _ _ _ _ _ Hl Hf He Hd) as (k & Hk & Ek & Hlt).
  rewrite Ek in E. destruct (_ =? 0)%nat.
  { simplify_eq. exists 0%nat. rewrite take_0, drop_0. split_and!; [lia|done|constructor|done]. }
  rewrite firstn_map, take_take, <- (take_app_le ds [d]) in E by lia.
  apply delete_all_prefix in E as (j & Hj & Hh' & Hr); [|exact Hh|rewrite length_app; lia].
  exists j. cbn [wd_uuid] in Hh'. rewrite drop_app_le in Hh' by lia. split_and!; [lia|exact Hh'| |done].
  replace (take j ds) with (take j (take k ds)) by (rewrite take_take; f_equal; lia).
  rewrite <- (take_drop j (take k ds)), layout_recs_app in Hlt. apply Forall_app in Hlt as [Hlt _]. exact Hlt.
Qed.

(** C13: A retention cycle, whatever happens to it (the time is up, a shutdown, a
    failing deletion), does not change what recovery does: on the directory
    it leaves, recovery applies the same records with the same outcome and
    resumes the log at the same place, and only skips the deleted records
    less.  The checkpoint's LSN is that of a record of the log. *)
Theorem retention_preserves_recovery `{CRC : Crc32c} `{!Crc32cLaws CRC} {S : Type} `{Snk : MetadataSink S}
    sys ar (sink : S) dir uuid unlink seq lsn ds d rec cfg stop s' r :
  length uuid = 16%nat -> layout seq lsn (ds ++ [d]) -> Forall clean ds -> fits lsn (ds ++ [d]) ->
  holds uuid dir (ds ++ [d]) -> 0 <= retention_extra_lsns cfg ->
  rec ∈ layout_recs (ds ++ [d]) -> wr_lsn rec = durable_lsn sink ->
  do_retention_cycle cfg stop {| wd_dir := dir; wd_uuid := uuid; wd_durable_lsn := durable_lsn sink;
                                 wd_unlink := unlink |} = (s', r) ->
  exists j f, holds uuid (wd_dir s') (drop j ds ++ [d])
    /\ match r with Ok deleted => deleted = j | Err _ => True end
    /\ forall fuel, (f < fuel)%nat ->
         recover fuel sys ar dir uuid sink
         = more_skipped (length (layout_recs (take j ds))) (recover fuel sys ar (wd_dir s') uuid sink).
Proof.
  intros Hu Hl Hc Hf Hh He Hrec Elsn E.
  assert (0 <= durable_lsn sink) as Hd.
  { rewrite <- Elsn. destruct (layout_lsns _ _ _ Hl) as [Hls _], Hf as [H0 Hb].
    pose proof (lsns_ok_below _ _ H0 Hb Hls) as Hall. rewrite Forall_forall in Hall.
    specialize (Hall rec Hrec). cbn in Hall. lia. }
  destruct (retention_cycle_prefix _ _ _ _ _ _ _ _ _ _ _ _ Hu Hl Hf Hh He Hd E) as (j & Hj & Hh' & Hlt & Hr).
  exists j. rewrite <- (take_drop j ds), <- app_assoc in Hl, Hf, Hh, Hrec.
  rewrite layout_recs_app in Hrec. apply elem_of_app in Hrec as [Hin|Hrec].
  { rewrite Forall_forall in Hlt. specialize (Hlt rec Hin). cbn in Hlt. lia. }
  destruct (recover_dropped uuid sys ar sink dir (wd_dir s') _ _ _ _ _ rec Hu Hl) as (f & Hrecover);
    try done; [by rewrite take_drop| |by exists f].
  eapply Forall_impl; [exact Hlt|]. cbn. lia.
Qed.

(** ** A concrete cycle: three segments, a checkpoint at LSN 3, one deletion *)

Module RetentionExample.
Import Castagnoli Allocator.AllocExample ReaderExample.

Definition seg (seq lsn : Z) (lsns : list Z) (tail : bytes) : SegDesc :=
  {| sd_seq := seq; sd_lsn := lsn; sd_now := 1700; sd_recs := map rec lsns; sd_tail := tail |}.
Definition closed : list SegDesc := [seg 0 1 [1; 2] []; seg 1 3 [3; 4] []].
Definition active : SegDesc := seg 2 5 [5] (take 20 (frame (rec 6))).
Definition entries : Dir := map (sd_entry uuid) (closed ++ [active]).
Definition config : RetentionConfig := {| batch_size := 16; retention_extra_lsns := 0 |}.
Definition source : WalDir :=
  {| wd_dir := entries; wd_uuid := uuid; wd_durable_lsn := 3; wd_unlink := fun _ => None |}.

Lemma example_layout : layout 0 1 (closed ++ [active]).
Proof.
  assert (forall seq lsn lsns tail, 0 <= seq < 10 ^ 10 -> u64 lsn -> Forall (uint 64) lsns ->
    lsns_ok lsn (map rec lsns) -> sd_ok (seg seq lsn lsns tail)) as Hok.
  { intros seq lsn lsns tail Hs Hl Hu Hls. split; [done|done|unfold uint; cbn; lia| |done].
    cbn [sd_recs seg]. clear -Hu. induction Hu; constructor; auto using rec_wf. }
  cbn [closed app layout]. split_and!; try done; apply Hok;
    try (repeat constructor; unfold uint; cbn; lia); vm_compute; auto.
Qed.

Lemma example_holds : holds uuid entries (closed ++ [active]).
Proof.
  split.
  - exists []. split; [constructor|]. by rewrite app_nil_r.
  - apply (bool_decide_eq_true_1 _). vm_compute. reflexivity.
Qed.

Lemma retention_preserves_recovery_witness :
  exists s' f, do_retention_cycle config (fun _ => false) source = (s', Ok 1%nat)
    /\ forall fuel, (f < fuel)%nat ->
         recover fuel RecoveryExample.demo_sys demo entries uuid (InMemory.with_durable_lsn 3)
         = more_skipped 2 (recover fuel RecoveryExample.demo_sys demo (wd_dir s') uuid (InMemory.with_durable_lsn 3)).
Proof.
  assert (snd (do_retention_cycle config (fun _ => false) source) = Ok 1%nat) as Er
    by (vm_compute; reflexivity).
  destruct (do_retention_cycle config (fun _ => false) source) as [s' r] eqn:E. cbn [snd] in Er. subst r.
  destruct (retention_preserves_recovery RecoveryExample.demo_sys demo (InMemory.with_durable_lsn 3) entries uuid
    (fun _ => None) 0 1 closed active (rec 3) config (fun _ => false) s' (Ok 1%nat)) as (j & f & _ & <- & H).
  - reflexivity.
  - exact example_layout.
  - repeat constructor.
  - split; vm_compute; congruence.
  - exact example_holds.
  - cbn. lia.
  - apply (bool_decide_eq_true_1 _). vm_compute. reflexivity.
  - reflexivity.
  - exact E.
  - exists s', f. split; [reflexivity|exact H].
Defined.
End RetentionExample.
