(* ===== verification/Checkpoint.v ===== *)
(** Checkpoints ([brain-storage/src/wal/checkpoint.rs] and steps 1 to 6 of
    [take_snapshot] in [brain-server/src/shard/adapters.rs]).

    A checkpoint is a caller of the WAL: it appends CHECKPOINT_BEGIN, syncs
    the arena and appends CHECKPOINT_END, which promises that the records up
    to its LSN are durable elsewhere.  [CkSys] runs one checkpoint next to the
    calls of [Sys]; [checkpoint_resume] is the stretch of it between two
    waits.  [checkpoint_report_durable] is what the report of a completed
    checkpoint means.  The arena of a running shard has two images: the one in
    memory and the one a power loss leaves ([ArenaDisk]). *)

From S2P Require Import Prelude Crc32c Ids WalKinds WalRecord Utf8 WalPayload WalPayloadCodec.
From S2P Require Import ArenaSlot ArenaFile Allocator WalSegment WalReader WalReaderSpec WalReaderOpen GroupCommit.
From S2P Require Import Wal WalDisk WalSpec WalDurability WalOrder.
Import Wal.

Record CheckpointPlan := { checkpoint_id : Z; target_lsn : option Z }.

Record CheckpointReport := {
  cr_checkpoint_id : Z;
  cr_durable_lsn : Z;
  cr_lsn_begin : Z;
  cr_lsn_end : Z;
  cr_arena_capacity : Z;
  cr_started_at : Z;
  cr_completed_at : Z;
}.

#[export] Instance CheckpointReport_eq_dec : EqDecision CheckpointReport.
Proof. solve_decision. Defined.

Inductive CheckpointError := CkWal (e : WalError) | Msync (source : Z).

(** The mapped arena, and the bytes of it that a power loss leaves. *)
Record ArenaDisk := { ad_mapped : ArenaFile.ArenaFile; ad_stable : bytes }.

Definition msync_all (io : result unit Z) (a : ArenaDisk) : ArenaDisk * result unit Z :=
  match io with
  | Err e => (a, Err e)
  | Ok _ => ({| ad_mapped := ad_mapped a; ad_stable := ArenaFile.file_bytes (ad_mapped a) |}, Ok tt)
  end.

(** [RedbCommittedWatermark]: the LSN up to which the metadata store has committed. *)
Definition advance_to (watermark lsn : Z) : Z := Z.max watermark lsn.

(** Where a checkpoint waits: for the append of CHECKPOINT_BEGIN, then for
    that of CHECKPOINT_END, numbered among the calls. *)
Inductive CkPc :=
| CkBegin (call : nat)
| CkEnd (call : nat) (lsn_begin durable_lsn arena_capacity : Z)
| CkReturned (r : result CheckpointReport CheckpointError).

(** [ck_fixed]: the target and the capacity [write_checkpoint] reads when it
    starts; [take_snapshot] reads them after the arena is synced. *)
Record Checkpoint := {
  ck_id : Z;
  ck_started : Z;
  ck_fixed : option (Z * Z);
  ck_pc : CkPc;
}.

Record CkSys := { cs_sys : Sys; cs_arena : ArenaDisk; cs_watermark : Z; cs_ck : Checkpoint }.
Abbreviation wal_of s := (sy_wal (cs_sys s)).

Definition submit (record : WalRecord) (s : Sys) : Sys :=
  {| sy_wal := sy_wal s; sy_calls := sy_calls s ++ [([record], append_many [record])] |}.

Definition begin_payload (id started : Z) : WalPayload :=
  CheckpointBegin {| cb_checkpoint_id := id; cb_started_at := started |}.
Definition end_payload (id durable_lsn capacity : Z) : WalPayload :=
  CheckpointEnd {| ce_checkpoint_id := id; ce_durable_lsn := durable_lsn; ce_arena_capacity := capacity |}.

(** Step 1 of both: append CHECKPOINT_BEGIN. *)
Definition checkpoint_start (id started : Z) (fixed : option (Z * Z)) (watermark : Z) (arena : ArenaDisk) (s : Sys)
  : option CkSys :=
  begin_record ← from_typed 0 0 started 0 (begin_payload id started);
  Some {| cs_sys := submit begin_record s; cs_arena := arena; cs_watermark := watermark;
          cs_ck := {| ck_id := id; ck_started := started; ck_fixed := fixed;
                      ck_pc := CkBegin (length (sy_calls s)) |} |}.

Definition write_checkpoint (plan : CheckpointPlan) (now watermark : Z) (arena : ArenaDisk) (s : Sys) : option CkSys :=
  let target := default (sat_sub (next_lsn (sy_wal s)) 1) (target_lsn plan) in
  checkpoint_start (checkpoint_id plan) now (Some (target, ArenaFile.capacity_slots (ad_mapped arena)))
    watermark arena s.

Definition take_snapshot (ckpt_id now watermark : Z) (arena : ArenaDisk) (s : Sys) : option CkSys :=
  checkpoint_start ckpt_id now None watermark arena s.

Definition ck_at (pc : CkPc) (s : CkSys) : CkSys :=
  {| cs_sys := cs_sys s; cs_arena := cs_arena s; cs_watermark := cs_watermark s;
     cs_ck := {| ck_id := ck_id (cs_ck s); ck_started := ck_started (cs_ck s); ck_fixed := ck_fixed (cs_ck s);
                 ck_pc := pc |} |}.

(** What the call [i] has answered. *)
Definition answer (i : nat) (s : Sys) : option (result (list Z) WalError) :=
  '(_, k) ← sy_calls s !! i;
  match ca_pc k with PcReturned r => Some r | _ => None end.

(** The durable LSN and the capacity for CHECKPOINT_END. *)
Definition chosen (fixed : option (Z * Z)) (watermark target_lsn_hint : Z) (arena : ArenaDisk) : Z * Z :=
  default (Z.min watermark target_lsn_hint, ArenaFile.capacity_slots (ad_mapped arena)) fixed.

(** The rest, up to the next wait; [None] while the append has not returned. *)
Definition checkpoint_resume (io : result unit Z) (now : Z) (s : CkSys) : option CkSys :=
  match ck_pc (cs_ck s) with
  | CkBegin i =>
    r ← answer i (cs_sys s);
    match r with
    | Err e => Some (ck_at (CkReturned (Err (CkWal e))) s)
    | Ok [] => None
    | Ok (lsn_begin :: _) =>
      let target_lsn_hint := sat_sub (next_lsn (sy_wal (cs_sys s))) 1 in
      match msync_all io (cs_arena s) with
      | (_, Err e) => Some (ck_at (CkReturned (Err (Msync e))) s)
      | (arena, Ok _) =>
        let '(durable_lsn, capacity) := chosen (ck_fixed (cs_ck s)) (cs_watermark s) target_lsn_hint arena in
        end_record ← from_typed 0 0 now 0 (end_payload (ck_id (cs_ck s)) durable_lsn capacity);
        Some {| cs_sys := submit end_record (cs_sys s); cs_arena := arena; cs_watermark := cs_watermark s;
                cs_ck := {| ck_id := ck_id (cs_ck s); ck_started := ck_started (cs_ck s);
                            ck_fixed := ck_fixed (cs_ck s);
                            ck_pc := CkEnd (length (sy_calls (cs_sys s))) lsn_begin durable_lsn capacity |} |}
      end
    end
  | CkEnd i lsn_begin durable_lsn capacity =>
    r ← answer i (cs_sys s);
    match r with
    | Err e => Some (ck_at (CkReturned (Err (CkWal e))) s)
    | Ok [] => None
    | Ok (lsn_end :: _) =>
      Some (ck_at (CkReturned (Ok {| cr_checkpoint_id := ck_id (cs_ck s); cr_durable_lsn := durable_lsn;
                                     cr_lsn_begin := lsn_begin; cr_lsn_end := lsn_end;
                                     cr_arena_capacity := capacity; cr_started_at := ck_started (cs_ck s);
                                     cr_completed_at := now |})) s)
    end
  | CkReturned _ => None
  end.

Section steps.
Context `{CRC : Crc32c}.

(** The checkpoint runs next to other calls (the steps of the WAL that
    [wal_step] allows), to writes of the arena and to commits of the metadata
    store; numbers are in the range of their types. *)
Inductive ck_step (wal_step : Sys -> Sys -> Prop) : CkSys -> CkSys -> Prop :=
| ck_sys s y : wal_step (cs_sys s) y ->
    ck_step wal_step s {| cs_sys := y; cs_arena := cs_arena s; cs_watermark := cs_watermark s; cs_ck := cs_ck s |}
| ck_run io now s s' : u64 now -> checkpoint_resume io now s = Some s' -> ck_step wal_step s s'
| ck_write a s : u64 (ArenaFile.capacity_slots a) ->
    ck_step wal_step s {| cs_sys := cs_sys s; cs_arena := {| ad_mapped := a; ad_stable := ad_stable (cs_arena s) |};
                          cs_watermark := cs_watermark s; cs_ck := cs_ck s |}
| ck_commit lsn s : u64 lsn ->
    ck_step wal_step s {| cs_sys := cs_sys s; cs_arena := cs_arena s;
                          cs_watermark := advance_to (cs_watermark s) lsn; cs_ck := cs_ck s |}.
End steps.

Section contract.
Context `{CRC : Crc32c} `{!Crc32cLaws CRC}.

(** The records of a checkpoint are well formed and decode to their payloads. *)
Lemma checkpoint_record now p r :
  u64 now -> payload_wf p -> length (wr_payload r) = 16%nat \/ length (wr_payload r) = 24%nat ->
  from_typed 0 0 now 0 p = Some r -> WalRecord_wf r /\ typed_payload r = Ok p.
Proof.
  intros Hn Hp Hl E. destruct (from_typed_payload 0 0 now 0 p Hp) as (r' & E' & Ht & H1 & H2 & H3 & H4 & H5).
  rewrite E in E'. simplify_eq. split; [|done].
  split; rewrite ?H1, ?H3, ?H4, ?H5; try (unfold uint; lia); [done|]. unfold MAX_PAYLOAD. lia.
Qed.

Lemma begin_record_ok id started r :
  u64 id -> u64 started -> from_typed 0 0 started 0 (begin_payload id started) = Some r ->
  WalRecord_wf r /\ typed_payload r = Ok (begin_payload id started).
Proof.
  intros Hi Hs E. eapply checkpoint_record; [exact Hs| | |exact E]; [done|].
  left. cbn in E. simplify_eq. cbn [wr_payload]. rewrite length_app, !length_le_split. done.
Qed.

Lemma end_record_ok id durable capacity now r :
  u64 id -> u64 durable -> u64 capacity -> u64 now ->
  from_typed 0 0 now 0 (end_payload id durable capacity) = Some r ->
  WalRecord_wf r /\ typed_payload r = Ok (end_payload id durable capacity).
Proof.
  intros Hi Hd Hc Hn E. eapply checkpoint_record; [exact Hn| | |exact E]; [done|].
  right. cbn in E. simplify_eq. cbn [wr_payload]. rewrite !length_app, !length_le_split. done.
Qed.

(** Submitting is a step of the system. *)
Lemma submit_step r s : WalRecord_wf r -> sound_step s (submit r s).
Proof. intros Hr. exists (ACall [r]). split; [apply sys_call; by constructor|done]. Qed.

(** ** A record under way *)

(** A record with payload [p] was acknowledged under [lsn]. *)
Definition acked_as (w : Wal) (lsn : Z) (p : WalPayload) : Prop :=
  exists r, acked w r /\ wr_lsn r = lsn /\ typed_payload r = Ok p.

Lemma acked_as_keeps base w w' lsn p : keeps base w w' -> acked_as w lsn p -> acked_as w' lsn p.
Proof. intros Hk (r & Ha & Hr). exists r. split; [by apply Hk|done]. Qed.

(** Call [i] appends one record with payload [p], with an LSN from [lo] on. *)
Definition waiting (w0 : Wal) (i : nat) (lo : Z) (p : WalPayload) (s : Sys) : Prop :=
  run_inv w0 i lo s /\ exists rec k, sy_calls s !! i = Some ([rec], k) /\ typed_payload rec = Ok p.

Lemma sys_step_args s s' i args k :
  sound_step s s' -> sy_calls s !! i = Some (args, k) -> exists k', sy_calls s' !! i = Some (args, k').
Proof.
  intros (a & Hs & _) Hi. destruct Hs as [records s Hw|j args' kj cr w' kj' s Hj E|ev w' s E|s|io w' r s E];
    cbn [sy_calls]; try (by eexists).
  - exists k. by apply lookup_app_l_Some.
  - destruct (decide (i = j)) as [->|Hne].
    + rewrite Hi in Hj. simplify_eq. exists kj'. apply list_lookup_insert_eq. by eapply lookup_lt_Some.
    + exists k. by rewrite list_lookup_insert_ne.
Qed.

Lemma waiting_step base w0 i lo p s s' :
  sys_inv base s -> room w0 s' -> waiting w0 i lo p s -> sound_step s s' -> waiting w0 i lo p s'.
Proof.
  intros Hi Hroom (Hr & rec & k & Hk & Ht) Hs. split.
  - eapply run_step; [|done..]. apply Nat.lt_le_incl. by eapply lookup_lt_Some.
  - destruct (sys_step_args _ _ _ _ _ Hs Hk) as [k' Hk']. by exists rec, k'.
Qed.

Lemma waiting_answer base w0 i lo p s l ls :
  sys_inv base s -> waiting w0 i lo p s -> answer i s = Some (Ok (l :: ls)) ->
  acked_as (sy_wal s) l p /\ lo <= l < next_lsn (sy_wal s).
Proof.
  intros [_ Hc] (Hr & rec & k & Hk & Ht) E. unfold answer in E. rewrite Hk in E. cbn in E.
  destruct (ca_pc k) as [| | | | |r] eqn:Ep; simplify_eq.
  pose proof (Forall_lookup_1 _ _ _ _ Hc Hk) as [_ Hok]. rewrite Ep in Hok. destruct Hok as [_ Ha].
  apply Forall_cons in Ha as [Ha _].
  pose proof (Forall_lookup_1 _ _ _ _ (ri_below _ _ _ _ Hr) Hk) as [Hf Hb _].
  unfold faithful in Hf. cbn [snd] in Hf, Hb. rewrite Ep in Hf.
  pose proof (ri_above _ _ _ _ Hr) as Hab. rewrite (drop_S _ _ _ Hk) in Hab.
  apply Forall_cons in Hab as [Hab _]. cbn [snd] in Hab. rewrite <- Hf in Hab, Hb.
  apply Forall_cons in Hab as [Hab _], Hb as [Hb _]. split; [|lia].
  exists (set_lsn l rec). split; [exact Ha|]. by split.
Qed.

Lemma waiting_submit base w0 n lo s rec p :
  sys_inv base s -> run_inv w0 n lo s -> room w0 s -> WalRecord_wf rec -> typed_payload rec = Ok p ->
  waiting w0 (length (sy_calls s)) (next_lsn (sy_wal s)) p (submit rec s).
Proof.
  intros Hi Hr Hroom Hw Ht. split.
  - eapply (run_step base w0 _ _ s); [done..|by eapply run_restart|done|by apply submit_step].
  - exists rec, (append_many [rec]). split; [|done]. cbn [submit sy_calls].
    apply lookup_snoc_Some. by right.
Qed.

(** ** A checkpoint under way *)

(** The numbers are in the range of their types. *)
Record ranges (s : CkSys) : Prop := {
  ra_id : u64 (ck_id (cs_ck s));
  ra_fixed : match ck_fixed (cs_ck s) with Some (d, c) => u64 d /\ u64 c | None => True end;
  ra_capacity : u64 (ArenaFile.capacity_slots (ad_mapped (cs_arena s)));
  ra_watermark : u64 (cs_watermark s);
}.

Definition begun (s : CkSys) (lsn : Z) : Prop :=
  acked_as (wal_of s) lsn (begin_payload (ck_id (cs_ck s)) (ck_started (cs_ck s))).

(** The arena was synced in between: the stable image is the arena as it was
    at a moment after CHECKPOINT_BEGIN was acknowledged. *)
Definition arena_synced (s0 s : CkSys) (lsn_begin : Z) : Prop :=
  exists m, rtc (ck_step sound_step) s0 m /\ rtc (ck_step sound_step) m s /\ begun m lsn_begin
    /\ ad_stable (cs_arena s) = ArenaFile.file_bytes (ad_mapped (cs_arena m)).

(** [own]: the durable LSN is the code's choice and not the caller's. *)
Definition stage_inv (w0 : Wal) (own : bool) (s0 s : CkSys) : Prop :=
  let ck := cs_ck s in
  match ck_pc ck with
  | CkBegin i => exists lo, waiting w0 i lo (begin_payload (ck_id ck) (ck_started ck)) (cs_sys s)
      /\ next_lsn w0 <= lo /\ (own = true -> match ck_fixed ck with Some (d, _) => d < lo | None => True end)
  | CkEnd i lb d c => exists lo, waiting w0 i lo (end_payload (ck_id ck) d c) (cs_sys s)
      /\ begun s lb /\ next_lsn w0 <= lb < lo /\ (own = true -> d < lo) /\ arena_synced s0 s lb
  | CkReturned (Ok rp) => cr_checkpoint_id rp = ck_id ck /\ cr_started_at rp = ck_started ck
      /\ begun s (cr_lsn_begin rp)
      /\ acked_as (wal_of s) (cr_lsn_end rp) (end_payload (ck_id ck) (cr_durable_lsn rp) (cr_arena_capacity rp))
      /\ next_lsn w0 <= cr_lsn_begin rp < cr_lsn_end rp /\ (own = true -> cr_durable_lsn rp < cr_lsn_end rp)
      /\ arena_synced s0 s (cr_lsn_begin rp)
  | CkReturned (Err _) => True
  end.

Record ck_inv (base : list WalRecord) (w0 : Wal) (own : bool) (s0 s : CkSys) : Prop := {
  ki_sys : sys_inv base (cs_sys s);
  ki_ranges : ranges s;
  ki_run : run_inv w0 0 (next_lsn w0) (cs_sys s);
  ki_reach : rtc (ck_step sound_step) s0 s;
  ki_stage : stage_inv w0 own s0 s;
}.

Lemma arena_synced_step s0 s s' lb :
  ck_step sound_step s s' -> ad_stable (cs_arena s') = ad_stable (cs_arena s) -> arena_synced s0 s lb -> arena_synced s0 s' lb.
Proof.
  intros Hs Ea (m & H1 & H2 & H3 & H4). exists m. rewrite Ea. split_and!; try done. by eapply rtc_r.
Qed.

(** A step that leaves the checkpoint and the stable image alone. *)
Lemma stage_env base w0 own s0 s s' :
  ck_step sound_step s s' -> cs_ck s' = cs_ck s -> ad_stable (cs_arena s') = ad_stable (cs_arena s) ->
  sys_inv base (cs_sys s) -> room w0 (cs_sys s') ->
  cs_sys s' = cs_sys s \/ sound_step (cs_sys s) (cs_sys s') ->
  stage_inv w0 own s0 s -> stage_inv w0 own s0 s'.
Proof.
  intros Hs Ec Ea Hi Hroom Hsys.
  assert (forall i lo p, waiting w0 i lo p (cs_sys s) -> waiting w0 i lo p (cs_sys s')) as Hwait.
  { intros i lo p Hw. destruct Hsys as [->|Hsys]; [done|by eapply waiting_step]. }
  assert (forall l p, acked_as (wal_of s) l p -> acked_as (wal_of s') l p) as Hack.
  { intros l p. destruct Hsys as [->|Hsys]; [done|].
    apply (acked_as_keeps base). by destruct (sys_step_keeps _ _ _ Hi Hsys). }
  unfold stage_inv, begun. rewrite Ec.
  destruct (ck_pc (cs_ck s)) as [i|i lb d c|[rp|]]; [| | |done].
  - intros (lo & Hw & Hl & Ho). exists lo. auto.
  - intros (lo & Hw & Hb & Hl & Ho & Hy). exists lo. split_and!; try apply Hl; eauto using arena_synced_step.
  - intros (H1 & H2 & H3 & H4 & H5 & H6 & H7). split_and!; try apply H5; eauto using arena_synced_step.
Qed.

Lemma wal_next_u64 base w : wal_inv base w -> u64 (next_lsn w).
Proof.
  intros (? & ? & ? & ? & ? & ? & ? & ? & Hi). rewrite (wi_next Hi). apply lsn_after_u64, (wi_nums Hi).
Qed.

Lemma chosen_range base s st :
  sys_inv base (cs_sys s) -> ranges s ->
  let arena := {| ad_mapped := ad_mapped (cs_arena s); ad_stable := st |} in
  let hint := sat_sub (next_lsn (wal_of s)) 1 in
  let '(d, c) := chosen (ck_fixed (cs_ck s)) (cs_watermark s) hint arena in u64 d /\ u64 c.
Proof.
  intros [Hi _] [_ Rfix Rcap Rmark] arena hint. apply wal_next_u64 in Hi. unfold chosen.
  destruct (ck_fixed (cs_ck s)) as [[d c]|]; [done|]. cbn. unfold hint, sat_sub, uint in *. split; lia.
Qed.

(** What the checkpoint does to the system: nothing, or a call. *)
Lemma resume_sys base io now s s' :
  sys_inv base (cs_sys s) -> ranges s -> u64 now -> checkpoint_resume io now s = Some s' ->
  (cs_sys s' = cs_sys s \/ sound_step (cs_sys s) (cs_sys s')) /\ ranges s'.
Proof.
  intros Hi Hra Hn E. pose proof (fun st => chosen_range base s st Hi Hra) as Hch.
  destruct Hra as [Rid Rfix Rcap Rmark]. unfold checkpoint_resume in E.
  destruct (ck_pc (cs_ck s)) as [i|i lb d c|r]; [| |done];
    (destruct (answer i (cs_sys s)) as [[[|l ls]|e]|]; cbn [mbind option_bind] in E; simplify_eq);
    try (split; [by left|by split]).
  destruct io; cbn [msync_all] in E; [|simplify_eq; split; [by left|by split]].
  specialize (Hch (ArenaFile.file_bytes (ad_mapped (cs_arena s)))). cbn zeta in Hch.
  destruct (chosen _ _ _ _) as [d c]. destruct Hch as [Hd Hc].
  destruct (from_typed 0 0 now 0 (end_payload _ d c)) as [rec|] eqn:Ef;
    cbn [mbind option_bind] in E; [|discriminate E]. injection E as <-.
  destruct (end_record_ok _ _ _ _ _ Rid Hd Hc Hn Ef) as [Hwf _].
  split; [right; by apply submit_step|by split].
Qed.

Lemma ck_step_sys base s s' :
  sys_inv base (cs_sys s) -> ranges s -> ck_step sound_step s s' ->
  (cs_sys s' = cs_sys s \/ sound_step (cs_sys s) (cs_sys s')) /\ sys_inv base (cs_sys s') /\ ranges s'.
Proof.
  intros Hi Hra Hs.
  assert ((cs_sys s' = cs_sys s \/ sound_step (cs_sys s) (cs_sys s')) /\ ranges s') as [Hy Hra'].
  { destruct Hs as [s y Hy|io now s s' Hn E|a s Ha|lsn s Hl].
    - split; [by right|]. destruct Hra. by split.
    - by eapply resume_sys.
    - split; [by left|]. destruct Hra. by split.
    - split; [by left|]. destruct Hra. split; try done. cbn. unfold advance_to, uint in *. lia. }
  split_and!; [done| |done]. destruct Hy as [->|Hy]; [done|by eapply sys_step_keeps].
Qed.

Lemma ck_room_before base w0 s s' :
  sys_inv base (cs_sys s) -> ranges s -> ck_step sound_step s s' -> room w0 (cs_sys s') -> room w0 (cs_sys s).
Proof.
  intros Hi Hra Hs. destruct (ck_step_sys _ _ _ Hi Hra Hs) as [[->|Hy] _]; [done|].
  eapply room_before; [exact Hi|by apply rtc_once].
Qed.

(** The checkpoint goes on. *)
Lemma resume_begin base w0 own s0 s s' io now i :
  0 < next_lsn w0 -> room w0 (cs_sys s) -> ck_inv base w0 own s0 s -> u64 now ->
  ck_pc (cs_ck s) = CkBegin i -> checkpoint_resume io now s = Some s' -> stage_inv w0 own s0 s'.
Proof.
  intros Hpos Hroom [Hi Hra Hrun Hreach Hst] Hn Ep E.
  assert (ck_step sound_step s s') as Hstep by (by eapply ck_run).
  pose proof (fun st => chosen_range base s st Hi Hra) as Hch.
  unfold stage_inv in Hst. rewrite Ep in Hst. destruct Hst as (lo & Hw & Hlo0 & Hown).
  unfold checkpoint_resume in E. rewrite Ep in E.
  destruct (answer i (cs_sys s)) as [[[|lb ls]|e]|] eqn:Ea; cbn [mbind option_bind] in E; simplify_eq; [|done].
  destruct (waiting_answer _ _ _ _ _ _ _ _ Hi Hw Ea) as [Hb [Hlo Hlt]].
  destruct io as [u|e]; cbn [msync_all] in E; [|by simplify_eq].
  specialize (Hch (ArenaFile.file_bytes (ad_mapped (cs_arena s)))). cbn zeta in Hch.
  destruct (chosen _ _ _ _) as [d c] eqn:Edc. destruct Hch as [Hd Hc].
  assert (own = true -> d < next_lsn (wal_of s)) as Hdl.
  { intros Ho. specialize (Hown Ho). unfold chosen in Edc. pose proof (ri_lo _ _ _ _ Hrun).
    destruct (ck_fixed (cs_ck s)) as [[d' c']|]; cbn in Edc; simplify_eq; [lia|]. unfold sat_sub. lia. }
  destruct (from_typed 0 0 now 0 (end_payload _ d c)) as [rec|] eqn:Ef;
    cbn [mbind option_bind] in E; [|discriminate E]. injection E as <-.
  destruct (end_record_ok _ _ _ _ _ (ra_id _ Hra) Hd Hc Hn Ef) as [Hwf Ht].
  unfold stage_inv. cbn [cs_ck cs_sys ck_pc ck_id ck_started].
  exists (next_lsn (wal_of s)). split; [exact (waiting_submit base w0 _ _ _ _ _ Hi Hrun Hroom Hwf Ht)|].
  split_and!; [exact Hb|lia|lia|done|].
  exists s. split_and!; [done|by apply rtc_once|exact Hb|done].
Qed.

Lemma resume_end base w0 own s0 s s' io now i lb d c :
  ck_inv base w0 own s0 s -> u64 now ->
  ck_pc (cs_ck s) = CkEnd i lb d c -> checkpoint_resume io now s = Some s' -> stage_inv w0 own s0 s'.
Proof.
  intros [Hi _ _ _ Hst] Hn Ep E. assert (ck_step sound_step s s') as Hstep by (by eapply ck_run).
  unfold stage_inv in Hst. rewrite Ep in Hst. destruct Hst as (lo & Hw & Hb & Hl & Hown & Hy).
  unfold checkpoint_resume in E. rewrite Ep in E.
  destruct (answer i (cs_sys s)) as [[[|le ls]|e]|] eqn:Ea; cbn in E; simplify_eq; [|done].
  destruct (waiting_answer _ _ _ _ _ _ _ _ Hi Hw Ea) as [He [Hlo Hlt]].
  unfold stage_inv, begun in *. cbn. split_and!; try done; [lia..|intros Ho; specialize (Hown Ho); lia|].
  by eapply arena_synced_step.
Qed.

Lemma ck_step_inv base w0 own s0 s s' :
  0 < next_lsn w0 -> room w0 (cs_sys s') -> ck_inv base w0 own s0 s -> ck_step sound_step s s' -> ck_inv base w0 own s0 s'.
Proof.
  intros Hpos Hroom Hk Hs. pose proof Hk as [Hi Hra Hrun Hreach Hst].
  destruct (ck_step_sys _ _ _ Hi Hra Hs) as (Hsys & Hi' & Hra').
  pose proof (ck_room_before _ _ _ _ Hi Hra Hs Hroom) as Hroom0.
  split; [done|done| |by eapply rtc_r|].
  { destruct Hsys as [->|Hy]; [done|]. exact (proj1 (run_step base w0 0 _ _ _ (Nat.le_0_l _) Hi Hrun Hroom Hy)). }
  pose proof Hs as Hs'. destruct Hs as [s y Hy|io now s s' Hn E|a s Ha|lsn s Hl];
    try (by eapply stage_env).
  destruct (ck_pc (cs_ck s)) as [i|i lb d c|r] eqn:Ep.
  - exact (resume_begin _ _ _ _ _ _ _ _ _ Hpos Hroom0 Hk Hn Ep E).
  - exact (resume_end _ _ _ _ _ _ _ _ _ _ _ _ Hk Hn Ep E).
  - unfold checkpoint_resume in E. by rewrite Ep in E.
Qed.

Lemma checkpoint_start_inv base w0 own id started fixed mark arena y s0 :
  sys_inv base y -> u64 id -> u64 started -> u64 mark ->
  u64 (ArenaFile.capacity_slots (ad_mapped arena)) ->
  match fixed with Some (d, c) => u64 d /\ u64 c /\ (own = true -> 0 < next_lsn (sy_wal y) -> d < next_lsn (sy_wal y))
                 | None => True end ->
  checkpoint_start id started fixed mark arena y = Some s0 ->
  sys_inv base (cs_sys s0) /\ ranges s0 /\ sy_wal (cs_sys s0) = sy_wal y
  /\ (0 < next_lsn w0 -> run_inv w0 0 (next_lsn w0) y -> room w0 y -> ck_inv base w0 own s0 s0).
Proof.
  intros Hi Hid Hst Hm Hc Hf E. unfold checkpoint_start in E.
  destruct (from_typed 0 0 started 0 (begin_payload id started)) as [rec|] eqn:Ef;
    cbn [mbind option_bind] in E; [|discriminate E]. injection E as <-.
  destruct (begin_record_ok _ _ _ Hid Hst Ef) as [Hwf Ht]. pose proof (submit_step rec y Hwf) as Hy.
  destruct (sys_step_keeps _ _ _ Hi Hy) as [Hi' _].
  match goal with |- _ /\ ranges ?s0 /\ _ => assert (ranges s0) as Hra end.
  { split; try done. cbn. destruct fixed as [[d c]|]; [by split; apply Hf|done]. }
  split_and!; [done..|]. intros Hpos Hrun Hroom. pose proof (ri_lo _ _ _ _ Hrun) as Hlo.
  split; [done|done| |done|].
  - exact (proj1 (run_step base w0 0 _ y (submit rec y) (Nat.le_0_l _) Hi Hrun Hroom Hy)).
  - exists (next_lsn (sy_wal y)). split; [exact (waiting_submit base w0 _ _ _ _ _ Hi Hrun Hroom Hwf Ht)|].
    split; [done|]. intros Ho. cbn. destruct fixed as [[d c]|]; [|done]. apply Hf; [done|lia].
Qed.

(** A checkpoint starts in the state [y]; [own] says that the durable LSN is
    left to the code. *)
Definition starts (own : bool) (now mark : Z) (arena : ArenaDisk) (y : Sys) (s0 : CkSys) : Prop :=
  (exists plan, u64 (checkpoint_id plan)
     /\ match target_lsn plan with Some t => u64 t /\ own = false | None => own = true end
     /\ write_checkpoint plan now mark arena y = Some s0)
  \/ own = true /\ exists id, u64 id /\ take_snapshot id now mark arena y = Some s0.

Lemma starts_inv base w0 own now mark arena y s0 :
  sys_inv base y -> u64 now -> u64 mark -> u64 (ArenaFile.capacity_slots (ad_mapped arena)) ->
  starts own now mark arena y s0 ->
  sys_inv base (cs_sys s0) /\ ranges s0 /\ sy_wal (cs_sys s0) = sy_wal y
  /\ (0 < next_lsn w0 -> run_inv w0 0 (next_lsn w0) y -> room w0 y -> ck_inv base w0 own s0 s0).
Proof.
  intros Hi Hn Hm Hc [(plan & Hid & Ht & E)|(-> & id & Hid & E)].
  - refine (checkpoint_start_inv base w0 own _ _ _ _ _ _ _ Hi Hid Hn Hm Hc _ E).
    destruct (target_lsn plan) as [t|]; cbn [default].
    + destruct Ht as [Ht ->]. by split_and!.
    + destruct Hi as [Hi _]. apply wal_next_u64 in Hi. unfold sat_sub, uint in *. cbn. split_and!; try done; lia.
  - exact (checkpoint_start_inv base w0 true _ _ None _ _ _ _ Hi Hid Hn Hm Hc I E).
Qed.

Lemma ck_reach_inv base w0 y own now mark arena s0 s :
  wal_inv base w0 -> 0 < next_lsn w0 -> rtc sound_step {| sy_wal := w0; sy_calls := [] |} y ->
  u64 now -> u64 mark -> u64 (ArenaFile.capacity_slots (ad_mapped arena)) ->
  starts own now mark arena y s0 -> rtc (ck_step sound_step) s0 s -> room w0 (cs_sys s) -> ck_inv base w0 own s0 s.
Proof.
  intros Hi Hpos Hy Hn Hm Hc Hst Hs Hroom.
  pose proof (sys_reach_inv _ _ _ (sys_start _ _ Hi) Hy) as Hiy.
  destruct (starts_inv base w0 own now mark arena y s0 Hiy Hn Hm Hc Hst) as (Hi0 & Hra0 & Ew & Hk0).
  assert (forall s, rtc (ck_step sound_step) s0 s -> sys_inv base (cs_sys s) /\ ranges s
    /\ (room w0 (cs_sys s) -> ck_inv base w0 own s0 s)) as Hall; [|by apply Hall].
  clear s Hs Hroom. refine (rtc_ind_r _ s0 _ _).
  - split_and!; [done..|]. unfold room. rewrite Ew. intros Hroom.
    destruct (run_reach base w0 0 _ _ y (Nat.le_0_l _) (sys_start _ _ Hi) (run_start w0) Hroom Hy) as [Hrun _].
    by apply Hk0.
  - intros s1 s2 _ Hst2 (Hi1 & Hra1 & IH). destruct (ck_step_sys _ _ _ Hi1 Hra1 Hst2) as (_ & Hi2 & Hra2).
    split_and!; [done..|]. intros Hroom. eapply ck_step_inv; [done..| |exact Hst2].
    apply IH. by eapply ck_room_before.
Qed.

(** Everything of the log up to a record that survived has survived. *)
Lemma survives_below base l durable lo r x :
  base `prefix_of` durable -> durable `prefix_of` base ++ l -> Forall (fun b => wr_lsn b < lo) base ->
  0 <= lo -> lo + Z.of_nat (length l) < 2 ^ 64 -> lsns_ok lo l ->
  r ∈ durable -> lo <= wr_lsn r -> x ∈ base ++ l -> wr_lsn x <= wr_lsn r -> x ∈ durable.
Proof.
  intros [p ->] [rest E] Hb H0 Hl Hls Hr Hlo Hx Hle. rewrite <- app_assoc in E. apply (inj (app _)) in E as ->.
  rewrite length_app in Hl. apply lsns_ok_app in Hls as [Hp Hrest].
  rewrite lsn_after_small in Hrest by lia.
  rewrite Forall_forall in Hb. apply elem_of_app in Hr as [Hr|Hr]; [specialize (Hb r Hr); cbn in Hb; lia|].
  pose proof (lsns_ok_below lo p H0 ltac:(lia) Hp) as Bp. rewrite Forall_forall in Bp. specialize (Bp r Hr).
  rewrite app_assoc in Hx. apply elem_of_app in Hx as [Hx|Hx]; [done|].
  pose proof (lsns_ok_below (lo + Z.of_nat (length p)) rest ltac:(lia) ltac:(lia) Hrest) as Br. rewrite Forall_forall in Br.
  specialize (Br x Hx). cbn in Bp, Br. lia.
Qed.

(** C27: what the report of a completed checkpoint means, whether it is taken
    by [write_checkpoint] or by [take_snapshot], next to any other calls,
    arena writes and commits on a WAL that was just opened, as long as its
    LSNs do not overflow and provided that no rollover of it follows a failed
    flush and that every new segment is created without an error
    ([sound_step]; see [wal_rollover_revives_broken]): after a crash at any
    later moment the reader delivers its CHECKPOINT_BEGIN and its
    CHECKPOINT_END with the LSNs of the report, and every record of the log up
    to the latter; the durable LSN it promises, if the code chose it, lies
    before CHECKPOINT_END; and the stable image of the arena is the arena at a
    moment after CHECKPOINT_BEGIN was durable. *)
Theorem checkpoint_report_durable base w0 y own now mark arena s0 s rp junk dir :
  wal_inv base w0 -> log w0 = [] -> 0 < next_lsn w0 -> Forall (fun b => wr_lsn b < next_lsn w0) base ->
  rtc sound_step {| sy_wal := w0; sy_calls := [] |} y ->
  u64 now -> u64 mark -> u64 (ArenaFile.capacity_slots (ad_mapped arena)) ->
  starts own now mark arena y s0 -> rtc (ck_step sound_step) s0 s -> room w0 (cs_sys s) ->
  ck_pc (cs_ck s) = CkReturned (Ok rp) -> dir ≡ₚ crash junk (wal_of s) ->
  (exists r durable more e r' n, open dir (shard_uuid (wal_of s)) = Ok r
    /\ (forall fuel, (n < fuel)%nat -> read_all fuel dir r = Some (durable ++ more, e, r'))
    /\ (exists b, b ∈ durable /\ wr_lsn b = cr_lsn_begin rp
          /\ typed_payload b = Ok (begin_payload (cr_checkpoint_id rp) (cr_started_at rp)))
    /\ (exists b, b ∈ durable /\ wr_lsn b = cr_lsn_end rp
          /\ typed_payload b = Ok (end_payload (cr_checkpoint_id rp) (cr_durable_lsn rp) (cr_arena_capacity rp)))
    /\ (forall x, x ∈ base ++ log (wal_of s) -> wr_lsn x <= cr_lsn_end rp -> x ∈ durable))
  /\ cr_lsn_begin rp < cr_lsn_end rp /\ (own = true -> cr_durable_lsn rp < cr_lsn_end rp)
  /\ arena_synced s0 s (cr_lsn_begin rp).
Proof.
  intros Hi Hlog Hpos Hbase Hy Hn Hm Hc Hst Hs Hroom Hpc Hd.
  destruct (ck_reach_inv _ _ _ _ _ _ _ _ _ Hi Hpos Hy Hn Hm Hc Hst Hs Hroom) as [[Hw _] _ Hrun _ Hstage].
  unfold stage_inv in Hstage. rewrite Hpc in Hstage.
  destruct Hstage as (Eid & Est & (rb & Ab & Lb & Tb) & (re & Ae & Le & Te) & [Hlo Hlt] & Hown & Hsync).
  split; [|done]. destruct (ri_log _ _ _ _ Hrun) as (x & El & Hls & _). rewrite Hlog in El. cbn [app] in El.
  destruct Hroom as [_ Hroom]. rewrite El in Hroom.
  destruct (crash_delivers _ _ _ _ Hw Hd) as (r & durable & more & e & r' & n & Ho & Er & Hack & Hb & Hp).
  exists r, durable, more, e, r', n. split; [done|]. split; [done|]. rewrite Eid, Est. split_and!.
  - exists rb. by split; [apply Hack|].
  - exists re. by split; [apply Hack|].
  - intros z Hz Hle. rewrite El in Hz, Hp.
    eapply (survives_below base x durable (next_lsn w0) re z); try done; [lia|by apply Hack|lia..].
Qed.
End contract.

(** ** A snapshot's checkpoint, with a commit while it runs *)

Inductive CkAct := KSys (a : Act) | KRun (io : result unit Z) (now : Z) | KCommit (lsn : Z).

Section exec.
Context `{CRC : Crc32c}.

Definition ck_act (a : CkAct) (s : CkSys) : option CkSys :=
  match a with
  | KSys a => y ← exec [a] (cs_sys s);
    Some {| cs_sys := y; cs_arena := cs_arena s; cs_watermark := cs_watermark s; cs_ck := cs_ck s |}
  | KRun io now => if bool_decide (u64 now) then checkpoint_resume io now s else None
  | KCommit lsn => if bool_decide (u64 lsn) then
      Some {| cs_sys := cs_sys s; cs_arena := cs_arena s;
              cs_watermark := advance_to (cs_watermark s) lsn; cs_ck := cs_ck s |} else None
  end.

Fixpoint ck_exec (acts : list CkAct) (s : CkSys) : option CkSys :=
  match acts with [] => Some s | a :: acts => s ← ck_act a s; ck_exec acts s end.

Lemma ck_exec_steps acts s s' : ck_exec acts s = Some s' -> rtc (ck_step sound_step) s s'.
Proof.
  revert s. induction acts as [|a acts IH]; intros s; cbn [ck_exec]; [by intros [= <-]|].
  destruct (ck_act a s) as [s1|] eqn:Ea; cbn [mbind option_bind]; [|done]. intros E.
  eapply rtc_l; [|by apply IH]. destruct a as [a|io now|lsn]; cbn [ck_act] in Ea.
  - cbn [exec] in Ea. destruct (sound_actb a (cs_sys s)) eqn:Hs; [|done].
    destruct (act a (cs_sys s)) as [y|] eqn:Ey; cbn in Ea; simplify_eq. apply ck_sys.
    exists a. split; [by apply act_step|by apply sound_actb_true].
  - case_bool_decide; [|done]. by eapply ck_run.
  - case_bool_decide; [|done]. simplify_eq. by apply ck_commit.
Qed.
End exec.

Module CheckpointExample.
Import Castagnoli WalExample.

Definition wide : WalConfig :=
  {| group_commit := GroupCommitConfig_default; max_segment_bytes := WAL_SEGMENT_HEADER_LEN + 1000 |}.
Definition fresh : Wal :=
  match snd (create_with_config [] uuid wide cr) with Ok w => w | Err _ => created end.
Definition arena : ArenaDisk := {| ad_mapped := Allocator.Allocator.AllocExample.demo; ad_stable := [] |}.
Definition idle : Sys := {| sy_wal := fresh; sy_calls := [] |}.
Definition append_flush (i n : nat) : list CkAct :=
  map KSys [ARun i cr; ATask EvReceive; ATask EvGatherEnd; ATask (EvFlush (io_ok n)); ARun i cr; ARun i cr].
Definition ck_acts : list CkAct :=
  append_flush 0 56 ++ [KCommit 7; KRun (Ok tt) 1701] ++ append_flush 1 64 ++ [KRun (Ok tt) 1702].

Definition report : CheckpointReport :=
  {| cr_checkpoint_id := 1; cr_durable_lsn := 1; cr_lsn_begin := 1; cr_lsn_end := 2; cr_arena_capacity := 4;
     cr_started_at := 1700; cr_completed_at := 1702 |}.

Definition ck_checks : bool :=
  match s0 ← take_snapshot 1 1700 0 arena idle; ck_exec ck_acts s0 with
  | Some s =>
    match ck_pc (cs_ck s) with CkReturned (Ok rp) => bool_decide (rp = report) | _ => false end
    && (length (log (wal_of s)) <? 10)%nat
  | None => false
  end.

Lemma ck_run_ok :
  exists s0 s, take_snapshot 1 1700 0 arena idle = Some s0 /\ ck_exec ck_acts s0 = Some s
    /\ ck_pc (cs_ck s) = CkReturned (Ok report) /\ (length (log (wal_of s)) < 10)%nat.
Proof.
  assert (ck_checks = true) as E by (vm_compute; reflexivity). unfold ck_checks in E.
  destruct (take_snapshot 1 1700 0 arena idle) as [s0|]; cbn [mbind option_bind] in E; [|discriminate E].
  destruct (ck_exec ck_acts s0) as [s|] eqn:Es; [|discriminate E].
  apply andb_prop in E as [E1 E2%Nat.ltb_lt]. exists s0, s. split_and!; try done.
  destruct (ck_pc (cs_ck s)) as [| |[rp|]]; try discriminate E1. by apply bool_decide_eq_true_1 in E1 as ->.
Qed.

Lemma fresh_ok : wal_inv [] fresh /\ log fresh = [] /\ next_lsn fresh = 1.
Proof.
  assert (create_with_config [] uuid wide cr = ([], Ok fresh)) as E.
  { assert (fst (create_with_config [] uuid wide cr) = []) as E1 by (vm_compute; reflexivity).
    assert (is_ok (snd (create_with_config [] uuid wide cr)) = true) as E2 by (vm_compute; reflexivity).
    unfold fresh. destruct (create_with_config [] uuid wide cr) as [fs [w|e]]; cbn [fst snd is_ok] in *;
      [by rewrite E1|discriminate E2]. }
  destruct (create_inv [] uuid wide cr [] fresh) as (H1 & H2 & H3 & _);
    [reflexivity|apply NoDup_nil_2|unfold uint; cbn; lia|exact E|]. split; [exact H1|split; [exact H2|exact H3]].
Qed.

Lemma checkpoint_report_durable_witness :
  exists s r durable more e r' n, open (crash [] (wal_of s)) (shard_uuid (wal_of s)) = Ok r
    /\ (forall fuel, (n < fuel)%nat -> read_all fuel (crash [] (wal_of s)) r = Some (durable ++ more, e, r'))
    /\ exists b, b ∈ durable /\ wr_lsn b = 2 /\ typed_payload b = Ok (end_payload 1 1 4).
Proof.
  destruct ck_run_ok as (s0 & s & E0 & Es & Hpc & Hlen). destruct fresh_ok as (Hi & Hl & Hn).
  destruct (checkpoint_report_durable [] fresh idle true 1700 0 arena s0 s report [] (crash [] (wal_of s)))
    as [(r & durable & more & e & r' & n & Ho & Hr & _ & He & _) _].
  - exact Hi.
  - exact Hl.
  - rewrite Hn. lia.
  - constructor.
  - apply rtc_refl.
  - unfold uint. cbn. lia.
  - unfold uint. cbn. lia.
  - unfold uint. cbn. lia.
  - right. split; [reflexivity|]. exists 1. split; [unfold uint; cbn; lia|exact E0].
  - exact (ck_exec_steps _ _ _ Es).
  - split; rewrite Hn; [lia|]. apply Z.lt_trans with 20; [lia|reflexivity].
  - exact Hpc.
  - reflexivity.
  - exists s, r, durable, more, e, r', n. split; [exact Ho|]. split; [exact Hr|exact He].
Defined.
End CheckpointExample.
