(* ===== verification/Writer.v ===== *)
(** The writer's side of the log ([wal_append_for_write] in
    [brain-ops/src/writer/submit.rs]): the records of one write.

    A write whose phases map to several payloads is framed as a transaction
    named by its write id.  [write_atomic_recovery] composes that framing with
    recovery: whatever prefix of such a log survives, recovery applies whole
    writes.  [Write] is a write after the mapping of its phases to payloads;
    the phases themselves are not modelled. *)

From S2P Require Import Prelude Crc32c Ids WalKinds WalRecord Utf8 WalPayload WalPayloadCodec.
From S2P Require Import ArenaSlot ArenaFile Allocator WalSegment WalReader WalReaderSpec.
From S2P Require Import WalReaderOpen Recovery RecoveryReplay RecoveryArena RecoveryContract.

Record Write := {
  write_id : bytes;
  space_id : bytes;
  started_at_unix_nanos : Z;
  mapped : list WalPayload;
}.

Definition space_id_lo64 (w : Write) : Z := from_be_bytes (slice 8 16 (space_id w)).

(** One payload as it is; more of them between TXN_BEGIN and TXN_COMMIT. *)
Definition wal_payloads (w : Write) : list WalPayload :=
  match mapped w with
  | [] => []
  | [p] => [p]
  | ps =>
    TxnBegin {| tb_txn_id := write_id w; tb_expected_record_count := wrap 32 (Z.of_nat (length ps)) |}
    :: ps ++ [TxnCommit {| tc_txn_id := write_id w |}]
  end.

Fixpoint map_records (w : Write) (ps : list WalPayload) : option (list WalRecord) :=
  match ps with
  | [] => Some []
  | p :: ps =>
    r ← from_typed 0 0 (started_at_unix_nanos w) (space_id_lo64 w) p;
    rs ← map_records w ps;
    Some (r :: rs)
  end.

(** The records [append_many] is called with; [None] is a panic of the encoder. *)
Definition wal_records (w : Write) : option (list WalRecord) := map_records w (wal_payloads w).

(** What the mapping of a phase yields: a payload that is no bracket. *)
Definition plain (p : WalPayload) : Prop :=
  match p with TxnBegin _ | TxnCommit _ | TxnAbort _ => False | _ => True end.

Record write_ok (w : Write) : Prop := {
  wo_id : uuid_ok (write_id w);
  wo_mapped : mapped w <> [];
  wo_count : Z.of_nat (length (mapped w)) < 2 ^ 32;
  wo_payloads : Forall (fun p => plain p /\ payload_wf p /\ arena_fit p) (mapped w);
}.

(** ** One write is one unit *)

Lemma plain_inside id p : plain p -> inside id p.
Proof. by destruct p. Qed.

Lemma wal_payloads_ok w :
  write_ok w -> Forall (fun p => payload_wf p /\ arena_fit p) (wal_payloads w).
Proof.
  intros [Hid Hne Hc Hp]. unfold wal_payloads.
  assert (Forall (fun p => payload_wf p /\ arena_fit p) (mapped w)) as Hm
    by (eapply Forall_impl; [exact Hp|]; cbn; tauto).
  destruct (mapped w) as [|p [|q ps]]; [done..|]. constructor.
  - cbn [payload_wf arena_fit]. split; [split; [done|]|done]. apply wrap_uint. lia.
  - apply Forall_app. split; [exact Hm|]. by constructor.
Qed.

Lemma map_records_spec w ps rs :
  Forall payload_wf ps -> map_records w ps = Some rs ->
  Forall2 (fun r p => typed_payload r = Ok p /\ wr_flags r = 0 /\ set_lsn 0 r = r) rs ps.
Proof.
  intros Hp. revert rs. induction Hp as [|p ps Hp Hps IH]; intros rs E; cbn [map_records] in E.
  { simplify_eq. constructor. }
  destruct (from_typed_payload 0 0 (started_at_unix_nanos w) (space_id_lo64 w) p Hp)
    as (r & Er & Ht & El & _ & Ef & _).
  rewrite Er in E. cbn [mbind option_bind] in E.
  destruct (map_records w ps) as [rs'|]; cbn [mbind option_bind] in E; [|discriminate E].
  injection E as <-. constructor; [|by apply IH]. split_and!; try done. destruct r. cbn in *. by subst.
Qed.

Lemma map_records_total w ps : Forall payload_wf ps -> exists rs, map_records w ps = Some rs.
Proof.
  induction 1 as [|p ps Hp Hps [rs E]]; cbn [map_records]; [by eexists|].
  destruct (from_typed_payload 0 0 (started_at_unix_nanos w) (space_id_lo64 w) p Hp) as (r & -> & _).
  rewrite E. cbn. by eexists.
Qed.

(** The records of a write, with any LSNs, as a unit of the log. *)
Lemma write_unit w rs :
  write_ok w -> length rs = length (wal_payloads w) ->
  exists u, unit_ok u /\ flatten u = zip rs (wal_payloads w) /\ unit_effects u = flatten u.
Proof.
  intros Hw Hl. pose proof (wo_payloads _ Hw) as Hp. pose proof (wo_count _ Hw) as Hc. revert Hl. unfold wal_payloads.
  destruct (mapped w) as [|p [|q ps]] eqn:Em; [by destruct (wo_mapped _ Hw)|..].
  - destruct rs as [|r [|]]; cbn; try done. intros _. exists (Single (r, p)). split; [|done].
    apply Forall_cons in Hp as [[Hp _] _]. by destruct p.
  - remember (p :: q :: ps) as members eqn:Ems. clear Ems Em p q ps. intros Hl.
    cbn [length] in Hl. rewrite length_app in Hl. cbn [length] in Hl.
    destruct rs as [|rb rs]; [done|]. cbn [length] in Hl.
    destruct rs as [|rc ms _] using rev_ind; [cbn in Hl; lia|]. rewrite length_app in Hl. cbn [length] in Hl.
    exists (Transaction (rb, TxnBegin {| tb_txn_id := write_id w;
              tb_expected_record_count := wrap 32 (Z.of_nat (length members)) |})
              (zip ms members) (rc, TxnCommit {| tc_txn_id := write_id w |}) true).
    split; [|split; [cbn [flatten zip_with]; rewrite zip_with_app by lia; done|done]].
    exists (write_id w). split; [|by eexists]. eexists. split; [reflexivity|]. split; [done|]. split.
    + apply Forall_forall. intros [r p] Hin%elem_of_zip_r. cbn. apply plain_inside.
      rewrite Forall_forall in Hp. by apply Hp.
    + cbn [tb_expected_record_count]. rewrite length_zip_with, wrap_small by (unfold uint; lia). lia.
Qed.

(** ** A log of writes *)

(** Records that differ from [rs] in their LSNs only. *)
Definition stamped_as (log rs : list WalRecord) : Prop := map (set_lsn 0) log = rs.

Lemma set_lsn_same r r' : set_lsn 0 r = r' -> typed_payload r = typed_payload r' /\ wr_flags r = wr_flags r'.
Proof. by intros <-. Qed.

(** A log of writes is a log of units, one per write. *)
Lemma writes_units ws recs full :
  Forall write_ok ws -> Forall2 (fun w rs => wal_records w = Some rs) ws recs -> stamped_as full (mjoin recs) ->
  exists us, Forall unit_ok us /\ map fst (us ≫= flatten) = full
    /\ Forall (fun e => typed_payload e.1 = Ok e.2 /\ wr_flags e.1 = 0) (us ≫= flatten)
    /\ Forall2 (fun u w => unit_effects u = flatten u /\ map snd (flatten u) = wal_payloads w) us ws.
Proof.
  intros Hw Hr. revert full. induction Hr as [|w rs ws recs Er Hr IH]; intros full Hs.
  { exists []. unfold stamped_as in Hs. cbn in Hs. apply map_eq_nil in Hs as ->. by repeat constructor. }
  apply Forall_cons in Hw as [Hw Hws]. cbn [mjoin list_join] in Hs.
  apply map_eq_app in Hs as (f1 & f2 & -> & H1 & H2).
  destruct (IH Hws f2 H2) as (us & Hu & Hf & Ht & He).
  pose proof (wal_payloads_ok w Hw) as Hp.
  pose proof (map_records_spec w _ _ ltac:(eapply Forall_impl; [exact Hp|]; cbn; tauto) Er) as Hspec.
  assert (Forall2 (fun r p => typed_payload r = Ok p /\ wr_flags r = 0) f1 (wal_payloads w)) as Hf1.
  { clear -H1 Hspec. rewrite <- H1 in Hspec. apply Forall2_fmap_l in Hspec.
    eapply Forall2_impl; [exact Hspec|]. cbn. intros r p (Hr & Hfl & _). by split. }
  destruct (write_unit w f1 Hw (Forall2_length _ _ _ Hf1)) as (u & Huo & Hfl & Heff).
  assert (map fst (zip f1 (wal_payloads w)) = f1 /\ map snd (zip f1 (wal_payloads w)) = wal_payloads w) as [Z1 Z2].
  { apply Forall2_length in Hf1. split; [apply fst_zip|apply snd_zip]; lia. }
  exists (u :: us). rewrite bind_cons, map_app, Hf, Hfl, Z1. split_and!; [by constructor|done| |].
  - apply Forall_app. split; [|done]. clear -Hf1. induction Hf1; constructor; auto.
  - constructor; [|done]. split; [done|]. by rewrite Hfl.
Qed.

(** The units within the first [k] records are the first few. *)
Lemma complete_take k us :
  exists m, (m <= length us)%nat /\ complete k us = take m us /\ (length (take m us ≫= flatten) <= k)%nat
    /\ ((m < length us)%nat -> (k < length (take (S m) us ≫= flatten))%nat).
Proof.
  revert k. induction us as [|u us IH]; intros k.
  { exists 0%nat. split_and!; [done|done|apply Nat.le_0_l|intros H; inversion H]. }
  cbn [complete]. destruct (Nat.leb_spec (length (flatten u)) k) as [Hle|Hgt].
  - destruct (IH (k - length (flatten u))%nat) as (m & Hm & -> & Hl & Hn). exists (S m).
    rewrite !firstn_cons, !bind_cons, !length_app. cbn [length]. split_and!; [lia|done|lia|].
    intros H. specialize (Hn ltac:(lia)). lia.
  - exists 0%nat. rewrite take_0, firstn_cons, take_0. cbn [mbind list_bind]. rewrite app_nil_r.
    split_and!; [lia|done|apply Nat.le_0_l|done].
Qed.

(** Units and writes of the same length. *)
Lemma units_lengths us ws :
  Forall2 (fun u w => unit_effects u = flatten u /\ map snd (flatten u) = wal_payloads w) us ws ->
  us ≫= unit_effects = us ≫= flatten /\ map snd (us ≫= flatten) = ws ≫= wal_payloads.
Proof.
  induction 1 as [|u w us ws [E1 E2] _ [IH1 IH2]]; [done|]. rewrite !bind_cons, map_app. by rewrite E1, E2, IH1, IH2.
Qed.

Lemma units_fit us ws :
  Forall write_ok ws ->
  Forall2 (fun u w => unit_effects u = flatten u /\ map snd (flatten u) = wal_payloads w) us ws ->
  Forall (fun e => arena_fit e.2) (us ≫= flatten).
Proof.
  intros Hw He. destruct (units_lengths us ws He) as [_ E2].
  apply (Forall_map snd arena_fit). rewrite E2. clear -Hw. induction Hw as [|w ws Hw Hws IH]; [constructor|].
  rewrite bind_cons. apply Forall_app. split; [|done].
  eapply Forall_impl; [by apply wal_payloads_ok|]. cbn. tauto.
Qed.

Lemma records_facts ws recs :
  Forall write_ok ws -> Forall2 (fun w rs => wal_records w = Some rs) ws recs ->
  length (mjoin recs) = length (ws ≫= wal_payloads) /\ stamped_as (mjoin recs) (mjoin recs).
Proof.
  intros Hw Hr. induction Hr as [|w rs ws recs Er Hr IH]; [done|]. apply Forall_cons in Hw as [Hw Hws].
  destruct (IH Hws) as [IH1 IH2]. pose proof (wal_payloads_ok w Hw) as Hp.
  pose proof (map_records_spec w _ _ ltac:(eapply Forall_impl; [exact Hp|]; cbn; tauto) Er) as Hspec.
  unfold stamped_as in *. change (mjoin (rs :: recs)) with (rs ++ mjoin recs). rewrite bind_cons, !length_app, IH1, map_app, IH2.
  split; [by rewrite (Forall2_length _ _ _ Hspec)|]. f_equal. clear -Hspec.
  induction Hspec as [|r p rs ps (_ & _ & E) _ IH]; [done|]. cbn [map]. by rewrite E, IH.
Qed.

Section contract.
Context `{CRC : Crc32c} `{!Crc32cLaws CRC} {S : Type} `{Snk : MetadataSink S} `{!SinkAccepts S}.

(** A decoded log of new records without flags. *)
Lemma decoded_entries durable its entries :
  map it_rec its = map fst entries -> Forall (fun r => durable < wr_lsn r) (map it_rec its) ->
  Forall (fun e => typed_payload e.1 = Ok e.2 /\ wr_flags e.1 = 0) entries -> decoded durable its entries.
Proof.
  unfold decoded. revert entries. induction its as [|it its IH]; intros [|e entries] E Hd Ht; try done.
  cbn [map] in E, Hd. injection E as E1 E2. apply Forall_cons in Hd as [Hd1 Hd], Ht as [[Ht1 Hf] Ht].
  rewrite filter_cons, decide_True.
  - constructor; [|by apply IH]. by rewrite E1.
  - unfold relevant. rewrite (proj2 (Z.ltb_lt _ _) Hd1), E1, Hf. done.
Qed.

(** C12: writes are atomic across a crash: for a log of the records of writes,
    one after the other, of which the first [k] records survive, recovery
    succeeds and applies exactly the writes all of whose records survived,
    each of them whole, in order, and nothing of the next one. *)
Theorem write_atomic_recovery sys a (sink : S) dir uuid r segs tail ws recs k fuel :
  sys_ok sys -> arena_ok a -> healthy dir uuid r segs tail ->
  Forall write_ok ws -> Forall2 (fun w rs => wal_records w = Some rs) ws recs ->
  stamped_as (log_records segs) (take k (mjoin recs)) ->
  Forall (fun rec => durable_lsn sink < wr_lsn rec) (log_records segs) -> (length (log_records segs) < fuel)%nat ->
  exists m eff a' report al,
    (m <= length ws)%nat /\ (length (mjoin (take m recs)) <= k)%nat
    /\ ((m < length ws)%nat -> (k < length (mjoin (take (Datatypes.S m) recs)))%nat)
    /\ map snd eff = take m ws ≫= wal_payloads /\ map fst eff = take (length eff) (log_records segs)
    /\ recover fuel sys a dir uuid sink = Some (a', sink_after sink eff, Ok (report, al))
    /\ arena_replay sys a eff = Some (a', Ok tt) /\ records_replayed report = Z.of_nat (length eff).
Proof using Crc32cLaws0 SinkAccepts0.
  intros Hsys Ha Hh Hw Hr Hs Hd Hf. destruct (records_facts ws recs Hw Hr) as [Hlen Hz].
  destruct (writes_units ws recs (log_records segs ++ drop k (mjoin recs)) Hw Hr) as (us & Hu & Hfst & Ht & He).
  { unfold stamped_as in *. rewrite map_app, Hs, <- skipn_map, Hz. apply take_drop. }
  assert (take k (map fst (us ≫= flatten)) = log_records segs) as Htake.
  { rewrite Hfst. apply (f_equal length) in Hs. rewrite length_map, length_take in Hs.
    destruct (decide (k <= length (mjoin recs))%nat).
    - by rewrite take_app_length' by lia.
    - rewrite (drop_ge (mjoin recs)), app_nil_r, take_ge by lia. done. }
  destruct (complete_take k us) as (m & Hm & Ec & Hle & Hlt).
  assert (forall n, length (take n us ≫= flatten) = length (mjoin (take n recs))) as Hn.
  { intros n. destruct (units_lengths _ _ (Forall2_take _ _ _ n He)) as [_ E2].
    rewrite (proj1 (records_facts _ _ (Forall_take _ n _ Hw) (Forall2_take _ _ _ n Hr))), <- E2, length_map. done. }
  destruct (units_lengths _ _ (Forall2_take _ _ _ m He)) as [E1 E2].
  pose proof (Forall2_length _ _ _ He) as Hlu.
  destruct (recover_units sys a sink dir uuid r segs tail us k fuel Hsys Ha Hh Hu) as (a' & report & al & Erec & Erep & _ & _ & Ecount).
  - apply decoded_entries; rewrite ?log_items_rec; [by rewrite <- firstn_map|done|by apply Forall_take].
  - rewrite Ec, E1. eapply units_fit; [by apply Forall_take|by apply Forall2_take].
  - done.
  - rewrite Ec, E1 in *. exists m, (take m us ≫= flatten), a', report, al.
    rewrite <- !Hn, <- Hlu. split_and!; try done.
    assert (take m us ≫= flatten = take (length (take m us ≫= flatten)) (us ≫= flatten)) as Epre.
    { rewrite <- (take_drop m us) at 3. by rewrite bind_app, take_app_length. }
    rewrite Epre at 1. rewrite <- Htake, take_take, Nat.min_l, firstn_map by done. done.
Qed.
End contract.

(** ** Three writes, the third one torn *)

Module WriterExample.
Import Castagnoli Allocator.AllocExample ReplayExample RecoveryExample.

Definition write_of (b : Byte.byte) (ps : list WalPayload) : Write :=
  {| write_id := txn_id b; space_id := replicate 16 Byte.x01; started_at_unix_nanos := 1700; mapped := ps |}.
Definition ws : list Write :=
  [write_of Byte.x0a [Reclaim reclaim; Forget forget]; write_of Byte.x0b [Forget forget];
   write_of Byte.x0c [Reclaim reclaim; Forget forget]].
Definition batches : list (list WalRecord) := Eval vm_compute in map (fun w => default [] (wal_records w)) ws.
Definition survived : list WalRecord :=
  Eval vm_compute in zip_with set_lsn (map Z.of_nat (seq 1 7)) (take 7 (mjoin batches)).

Definition wdir : Dir := [ReaderExample.seg_file 0 1 (frames survived)].
Definition winfo : SegmentInfo :=
  {| si_path := segment_path 0; si_segment_seq := 0; si_starting_lsn := 1;
     si_file_size := Z.of_nat (WAL_SEGMENT_HEADER_LEN + length (frames survived)) |}.
Definition wreader : WalReader :=
  {| segments := [winfo]; current_idx := 0; current := None; expected_next_lsn := 1;
     last_decoded_lsn := None; last_record_end_offset := None;
     last_record_segment_seq := None; finished := false |}.
Definition wsegs : list (SegmentInfo * list WalRecord) := [(winfo, survived)].

Lemma wdir_healthy : healthy wdir ReaderExample.uuid wreader wsegs [].
Proof.
  split; [vm_compute; reflexivity|done| |vm_compute; reflexivity].
  cbn [log_shape wsegs expected_next_lsn wreader]. split; [done|]. split.
  { unfold survived. repeat apply Forall_cons_2; try apply Forall_nil_2; split; vm_compute; intuition congruence. }
  split; [vm_compute; intuition congruence|]. split; [vm_compute; reflexivity|].
  intros r n E. vm_compute in E. discriminate.
Qed.

Lemma ws_ok : Forall write_ok ws.
Proof.
  repeat apply Forall_cons_2; try apply Forall_nil_2; split; try done; try (cbn; lia);
    cbn [mapped write_of]; repeat apply Forall_cons_2; try apply Forall_nil_2; vm_compute; intuition congruence.
Qed.

Lemma write_atomic_recovery_witness :
  exists m eff a' report al, (length (mjoin (take m batches)) <= 7)%nat
    /\ map snd eff = take m ws ≫= wal_payloads
    /\ recover 8 demo_sys demo wdir ReaderExample.uuid InMemory.new
       = Some (a', sink_after InMemory.new eff, Ok (report, al)).
Proof.
  destruct (write_atomic_recovery demo_sys demo InMemory.new wdir ReaderExample.uuid wreader wsegs [] ws batches 7 8
    sys_demo_ok demo_ok wdir_healthy ws_ok) as (m & eff & a' & report & al & _ & H2 & _ & H4 & _ & H6 & _).
  - repeat apply Forall2_cons_2; try apply Forall2_nil_2; vm_compute; reflexivity.
  - vm_compute. reflexivity.
  - repeat apply Forall_cons_2; try apply Forall_nil_2; vm_compute; reflexivity.
  - vm_compute. lia.
  - exists m, eff, a', report, al. split; [exact H2|]. split; [exact H4|exact H6].
Defined.
End WriterExample.
