(* ===== verification/Wire.v ===== *)
(** The frames of the wire protocol ([brain-protocol]: [error.rs],
    [codec/header.rs], [codec/frame.rs], [codec/crc.rs]): a fixed 32-byte
    header, big-endian, with a CRC32C of its own, and the raw payload.

    A header keeps its multi-byte fields as the byte arrays the packed struct
    has, so a cast between the struct and 32 bytes is concatenation and
    slicing.  [Frame.new] returns [None] where the code panics. *)

From S2P Require Import Prelude Crc32c.

(** ** Error taxonomy *)

Module ErrorCategory.
Inductive ErrorCategory :=
| Protocol | Authentication | Authorization | Validation | NotFound | Conflict
| ResourceExhausted | Internal | Unavailable.

Definition is_retryable (c : ErrorCategory) : bool :=
  match c with ResourceExhausted | Internal | Unavailable => true | _ => false end.
End ErrorCategory.

Module ErrorCode.
Inductive ErrorCode :=
| BadMagic | BadHeaderCrc | BadPayloadCrc | BadOpcode | BadVersion
| BadFrame | OversizePayload | ReservedFieldNonZero | BadFlagCombination | MalformedPayload
| MalformedVector | VersionNotSupported | NoSuchAuthMethod | Unauthenticated | NotAuthenticated
| AuthBackendUnavailable | SessionExpired | PermissionDenied | AdminPermissionRequired
| WrongShard | ActAsDenied | InvalidArgument | MissingRequiredField | TextTooLarge | TextEmpty
| BadSessionId | BadMemoryKind | BadEdgeKind | BadStrategyHint | TopKOutOfRange
| BudgetTooLarge | BadModelFingerprint | PredicateNotInSchema | RelationTypeNotInSchema
| MemoryNotFound | ContextNotFound | SubscriptionNotFound | SnapshotNotFound | TxnNotFound
| IdempotencyConflict | TransactionConflict | TransactionTimeout | StreamIdInUse
| SubscriptionLsnTooOld | CardinalityViolation | LlmCredentialMissing | OutOfSlots | OutOfDisk
| OutOfMemory | RateLimited | StreamLimitExceeded | ConnectionLimitExceeded
| TransactionLimitExceeded | TransactionTooLarge | Internal | StorageError | IndexError
| EmbeddingError | MetadataError | Cancelled | ShardUnavailable | Overloaded | Restarting
| Maintenance | RetrieverDegraded | LlmCredentialUnavailable | SchemaInvalid
| SchemaMigrationRequired | EntityNotFound | EntityTypeMismatch | EntityAmbiguous
| EntityMergeConflict | StatementNotFound | StatementObjectTypeMismatch
| StatementContradictsExisting | QueryTimeout | QueryOverBudget | ExtractorDisabled
| ExtractorBudgetExceeded | ExtractionFailed.

Definition category (c : ErrorCode) : ErrorCategory.ErrorCategory :=
  match c with
  | BadMagic | BadHeaderCrc | BadPayloadCrc | BadOpcode | BadVersion | BadFrame
  | OversizePayload | ReservedFieldNonZero | BadFlagCombination | MalformedPayload
  | MalformedVector
    => ErrorCategory.Protocol
  | VersionNotSupported | NoSuchAuthMethod
    => ErrorCategory.Protocol
  | Unauthenticated | NotAuthenticated | AuthBackendUnavailable | SessionExpired
    => ErrorCategory.Authentication
  | PermissionDenied | AdminPermissionRequired | WrongShard | ActAsDenied
    => ErrorCategory.Authorization
  | InvalidArgument | MissingRequiredField | TextTooLarge | TextEmpty | BadSessionId
  | BadMemoryKind | BadEdgeKind | BadStrategyHint | TopKOutOfRange | BudgetTooLarge
  | BadModelFingerprint | PredicateNotInSchema | RelationTypeNotInSchema
    => ErrorCategory.Validation
  | MemoryNotFound | ContextNotFound | SubscriptionNotFound | SnapshotNotFound | TxnNotFound
    => ErrorCategory.NotFound
  | IdempotencyConflict | TransactionConflict | TransactionTimeout | StreamIdInUse
  | SubscriptionLsnTooOld | CardinalityViolation | LlmCredentialMissing
    => ErrorCategory.Conflict
  | OutOfSlots | OutOfDisk | OutOfMemory | RateLimited | StreamLimitExceeded
  | ConnectionLimitExceeded | TransactionLimitExceeded | TransactionTooLarge
    => ErrorCategory.ResourceExhausted
  | Internal | StorageError | IndexError | EmbeddingError | MetadataError | Cancelled
  | ExtractionFailed
    => ErrorCategory.Internal
  | ShardUnavailable | Overloaded | Restarting | Maintenance | RetrieverDegraded
  | LlmCredentialUnavailable | QueryTimeout
    => ErrorCategory.Unavailable
  | SchemaInvalid | EntityTypeMismatch | StatementObjectTypeMismatch
    => ErrorCategory.Validation
  | EntityNotFound | StatementNotFound
    => ErrorCategory.NotFound
  | SchemaMigrationRequired | EntityAmbiguous | EntityMergeConflict
  | StatementContradictsExisting | ExtractorDisabled
    => ErrorCategory.Conflict
  | QueryOverBudget | ExtractorBudgetExceeded
    => ErrorCategory.ResourceExhausted
  end.

#[global] Instance ErrorCode_eq_dec : EqDecision ErrorCode.
Proof. solve_decision. Defined.
End ErrorCode.

Module ProtocolError.
Inductive ProtocolError :=
| BadMagic
| BadVersion (got expected : Z)
| BadHeaderCrc
| BadPayloadCrc
| OversizePayload (len max : Z)
| ReservedFieldNonZero
| UnknownOpcode (v : Z)
| Truncated (have need : nat)
| BadFrame (s : string)
| BadFlagCombination (s : string)
| MalformedPayload (s : string).

Definition code (e : ProtocolError) : ErrorCode.ErrorCode :=
  match e with
  | BadMagic => ErrorCode.BadMagic
  | BadVersion _ _ => ErrorCode.BadVersion
  | BadHeaderCrc => ErrorCode.BadHeaderCrc
  | BadPayloadCrc => ErrorCode.BadPayloadCrc
  | OversizePayload _ _ => ErrorCode.OversizePayload
  | ReservedFieldNonZero => ErrorCode.ReservedFieldNonZero
  | UnknownOpcode _ => ErrorCode.BadOpcode
  | Truncated _ _ => ErrorCode.BadFrame
  | BadFrame _ => ErrorCode.BadFrame
  | BadFlagCombination _ => ErrorCode.BadFlagCombination
  | MalformedPayload _ => ErrorCode.MalformedPayload
  end.

Definition category (e : ProtocolError) : ErrorCategory.ErrorCategory :=
  ErrorCode.category (code e).
End ProtocolError.

(** ** Header *)

Definition MAGIC : bytes := [byte_of 66; byte_of 82; byte_of 78; byte_of 48].
Definition HEADER_SIZE : nat := 32.
Definition MAX_PAYLOAD_BYTES : Z := 2 ^ 24 - 1.
Definition VERSION : Z := 1.
Definition FLAGS_RESERVED_MASK : Z := 31.

Section crc.
Context `{Crc32c}.

Definition header_crc (header_bytes_excl_crc : bytes) : Z := crc32c header_bytes_excl_crc.
Definition payload_crc (payload : bytes) : Z := crc32c payload.
End crc.

Module Header.
Record Header := {
  magic : bytes;
  version : Z;
  opcode : bytes;
  flags : Z;
  header_crc32c : bytes;
  stream_id : bytes;
  payload_len : bytes;
  reserved_a : Z;
  payload_crc32c : bytes;
  reserved_b : bytes;
}.

(** The sizes of the arrays and the range of the [u8] fields. *)
Record Header_wf (h : Header) : Prop := {
  wf_magic : length (magic h) = 4%nat;
  wf_version : u8 (version h);
  wf_opcode : length (opcode h) = 2%nat;
  wf_flags : u8 (flags h);
  wf_header_crc : length (header_crc32c h) = 4%nat;
  wf_stream_id : length (stream_id h) = 4%nat;
  wf_payload_len : length (payload_len h) = 3%nat;
  wf_reserved_a : u8 (reserved_a h);
  wf_payload_crc : length (payload_crc32c h) = 4%nat;
  wf_reserved_b : length (reserved_b h) = 8%nat;
}.

(** [bytemuck::bytes_of]: the fields in the order of the packed struct. *)
Definition bytes_of (h : Header) : bytes :=
  magic h ++ [byte_of (version h)] ++ opcode h ++ [byte_of (flags h)]
  ++ header_crc32c h ++ stream_id h ++ payload_len h ++ [byte_of (reserved_a h)]
  ++ payload_crc32c h ++ reserved_b h.

(** [bytemuck::cast] of 32 bytes. *)
Definition cast_header (b : bytes) : Header :=
  {| magic := slice 0 4 b; version := byte_val (byte_at 4 b); opcode := slice 5 7 b;
     flags := byte_val (byte_at 7 b); header_crc32c := slice 8 12 b;
     stream_id := slice 12 16 b; payload_len := slice 16 19 b;
     reserved_a := byte_val (byte_at 19 b); payload_crc32c := slice 20 24 b;
     reserved_b := slice 24 32 b |}.

Definition set_header_crc32c (v : bytes) (h : Header) : Header :=
  {| magic := magic h; version := version h; opcode := opcode h; flags := flags h;
     header_crc32c := v; stream_id := stream_id h; payload_len := payload_len h;
     reserved_a := reserved_a h; payload_crc32c := payload_crc32c h;
     reserved_b := reserved_b h |}.

Definition set_payload_crc32c (v : bytes) (h : Header) : Header :=
  {| magic := magic h; version := version h; opcode := opcode h; flags := flags h;
     header_crc32c := header_crc32c h; stream_id := stream_id h;
     payload_len := payload_len h; reserved_a := reserved_a h; payload_crc32c := v;
     reserved_b := reserved_b h |}.

Definition set_payload_len (v : bytes) (h : Header) : Header :=
  {| magic := magic h; version := version h; opcode := opcode h; flags := flags h;
     header_crc32c := header_crc32c h; stream_id := stream_id h; payload_len := v;
     reserved_a := reserved_a h; payload_crc32c := payload_crc32c h;
     reserved_b := reserved_b h |}.

Definition payload_len_u32 (h : Header) : Z := from_be_bytes ([Byte.x00] ++ payload_len h).
Definition stream_id_u32 (h : Header) : Z := from_be_bytes (stream_id h).
Definition opcode_u16 (h : Header) : Z := from_be_bytes (opcode h).
Definition flags_u8 (h : Header) : Z := flags h.

Section header.
Context `{Crc32c}.

(** Bytes 0-7 followed by bytes 12-31. *)
Definition compute_header_crc (h : Header) : Z :=
  let b := bytes_of h in header_crc (slice 0 8 b ++ slice 12 32 b).

Definition seal (h : Header) : Header :=
  let h := set_header_crc32c (replicate 4 Byte.x00) h in
  set_header_crc32c (to_be_bytes 4 (compute_header_crc h)) h.

(** The low three bytes of a big-endian [u32]. *)
Definition len_be (n : Z) : bytes := slice 1 4 (to_be_bytes 4 n).

Definition new (op fl sid plen : Z) : option Header :=
  if plen <=? MAX_PAYLOAD_BYTES then
    Some (seal {| magic := MAGIC; version := VERSION; opcode := to_be_bytes 2 op; flags := fl;
                  header_crc32c := replicate 4 Byte.x00; stream_id := to_be_bytes 4 sid;
                  payload_len := len_be plen; reserved_a := 0;
                  payload_crc32c := replicate 4 Byte.x00;
                  reserved_b := replicate 8 Byte.x00 |})
  else None.

Definition validate (h : Header) : result unit ProtocolError.ProtocolError :=
  if negb (bool_decide (magic h = MAGIC)) then Err ProtocolError.BadMagic else
  if negb (version h =? VERSION) then Err (ProtocolError.BadVersion (version h) VERSION) else
  if negb (reserved_a h =? 0) || negb (bool_decide (reserved_b h = replicate 8 Byte.x00))
  then Err ProtocolError.ReservedFieldNonZero else
  if negb (Z.land (flags h) FLAGS_RESERVED_MASK =? 0)
  then Err ProtocolError.ReservedFieldNonZero else
  let len := payload_len_u32 h in
  if MAX_PAYLOAD_BYTES <? len then Err (ProtocolError.OversizePayload len MAX_PAYLOAD_BYTES) else
  if negb (from_be_bytes (header_crc32c h) =? compute_header_crc h)
  then Err ProtocolError.BadHeaderCrc else
  Ok tt.
End header.
End Header.
Import Header.

(** ** Frame *)

Module Frame.
Record Frame := { header : Header; payload : bytes }.

Section frame.
Context `{Crc32c}.

Definition new (op fl sid : Z) (p : bytes) : option Frame :=
  if Z.of_nat (length p) <=? MAX_PAYLOAD_BYTES then
    match Header.new op fl sid (Z.of_nat (length p)) with
    | Some h => Some {| header := seal (set_payload_crc32c (to_be_bytes 4 (payload_crc p)) h);
                        payload := p |}
    | None => None
    end
  else None.

Definition encode (f : Frame) : bytes :=
  let h := set_payload_len (len_be (wrap 32 (Z.of_nat (length (payload f))))) (header f) in
  let h := set_payload_crc32c (to_be_bytes 4 (payload_crc (payload f))) h in
  bytes_of (seal h) ++ payload f.

Definition decode_with_max (b : bytes) (max_payload_bytes : Z)
  : result (Frame * bytes) ProtocolError.ProtocolError :=
  if (length b <? HEADER_SIZE)%nat
  then Err (ProtocolError.Truncated (length b) HEADER_SIZE) else
  let h := cast_header (take HEADER_SIZE b) in
  let? _ := validate h in
  let plen := payload_len_u32 h in
  if max_payload_bytes <? plen
  then Err (ProtocolError.OversizePayload plen max_payload_bytes) else
  let need := (HEADER_SIZE + Z.to_nat plen)%nat in
  if (length b <? need)%nat then Err (ProtocolError.Truncated (length b) need) else
  let payload_slice := slice HEADER_SIZE need b in
  let stored := from_be_bytes (payload_crc32c h) in
  let actual := payload_crc payload_slice in
  if negb (stored =? actual) then Err ProtocolError.BadPayloadCrc else
  Ok ({| header := h; payload := payload_slice |}, drop need b).

Definition decode (b : bytes) : result (Frame * bytes) ProtocolError.ProtocolError :=
  decode_with_max b MAX_PAYLOAD_BYTES.
End frame.
End Frame.
Import Frame.

(** ** Facts about headers and frames *)

Lemma len_be_cons n : 0 <= n <= MAX_PAYLOAD_BYTES -> to_be_bytes 4 n = [Byte.x00] ++ len_be n.
Proof.
  intros Hn. unfold len_be. rewrite !(to_be_snoc _ n), !to_be_snoc.
  rewrite !Z.shiftr_shiftr by lia.
  assert (Z.shiftr n (8 + (8 + 8)) = 0) as ->; [|reflexivity].
  rewrite Z.shiftr_div_pow2 by lia. apply Z.div_small. unfold MAX_PAYLOAD_BYTES in Hn. lia.
Qed.

Lemma length_len_be n : length (len_be n) = 3%nat.
Proof. unfold len_be. apply length_slice. by rewrite length_to_be. Qed.

Lemma from_len_be n : 0 <= n <= MAX_PAYLOAD_BYTES -> from_be_bytes ([Byte.x00] ++ len_be n) = n.
Proof.
  intros Hn. rewrite <- len_be_cons by done. apply from_to_be.
  unfold uint, MAX_PAYLOAD_BYTES in *. lia.
Qed.

Lemma from_be3_bound b : length b = 3%nat -> 0 <= from_be_bytes ([Byte.x00] ++ b) <= MAX_PAYLOAD_BYTES.
Proof.
  intros Hb. unfold from_be_bytes. rewrite rev_app_distr. cbn [rev app].
  rewrite le_combine_app. change (le_combine [Byte.x00]) with 0. rewrite Z.shiftl_0_l, Z.lor_0_r.
  pose proof (from_le_uint (rev b) 3) as H. rewrite length_rev in H. specialize (H Hb).
  unfold uint, MAX_PAYLOAD_BYTES in *. lia.
Qed.

Lemma len_be_from b : length b = 3%nat -> len_be (from_be_bytes ([Byte.x00] ++ b)) = b.
Proof.
  intros Hb. pose proof (from_be3_bound b Hb) as Hn.
  apply (app_inv_head [Byte.x00]). rewrite <- len_be_cons by done.
  apply to_from_be. len.
Qed.

#[export] Hint Rewrite length_len_be : len.

Lemma length_bytes_of h : Header_wf h -> length (bytes_of h) = HEADER_SIZE.
Proof. intros []. unfold bytes_of, HEADER_SIZE. len. Qed.

Lemma cast_bytes_of h rest : Header_wf h -> cast_header (bytes_of h ++ rest) = h.
Proof.
  intros []. unfold bytes_of, cast_header. rewrite <- ?app_assoc. slices.
  rewrite !byte_val_of by done. by destruct h.
Qed.

Lemma cast_take h rest : Header_wf h -> cast_header (take HEADER_SIZE (bytes_of h ++ rest)) = h.
Proof.
  intros Hh. rewrite <- (length_bytes_of h Hh), take_app_length, <- (app_nil_r (bytes_of h)).
  by apply cast_bytes_of.
Qed.

Lemma cast_header_wf b : length b = HEADER_SIZE -> Header_wf (cast_header b).
Proof.
  unfold HEADER_SIZE. intros Hb.
  split; cbn [cast_header magic version opcode flags header_crc32c stream_id payload_len
    reserved_a payload_crc32c reserved_b]; solve [apply byte_val_u8 | rewrite length_slice; lia].
Qed.

Lemma bytes_of_cast b : length b = HEADER_SIZE -> bytes_of (cast_header b) = b.
Proof.
  unfold HEADER_SIZE. intros Hb. unfold bytes_of, cast_header. cbn [magic version opcode flags
    header_crc32c stream_id payload_len reserved_a payload_crc32c reserved_b].
  rewrite !byte.of_Z_unsigned, <- !slice_byte_at by lia. rewrite !slice_app by lia.
  rewrite slice_0. apply take_ge. lia.
Qed.

(** The parts of the header in front of the stored checksum and behind it. *)
Definition before_crc (h : Header) : bytes :=
  magic h ++ [byte_of (version h)] ++ opcode h ++ [byte_of (flags h)].
Definition after_crc (h : Header) : bytes :=
  stream_id h ++ payload_len h ++ [byte_of (reserved_a h)] ++ payload_crc32c h ++ reserved_b h.

Lemma bytes_of_parts h : bytes_of h = before_crc h ++ header_crc32c h ++ after_crc h.
Proof. unfold bytes_of, before_crc, after_crc. by rewrite <- !app_assoc. Qed.

Section facts.
Context `{CRC : Crc32c}.

Lemma compute_header_crc_parts h :
  Header_wf h -> compute_header_crc h = crc32c (before_crc h ++ after_crc h).
Proof.
  intros []. unfold compute_header_crc, header_crc. rewrite bytes_of_parts. f_equal.
  assert (length (before_crc h) = 8%nat) by (unfold before_crc; len).
  assert (length (after_crc h) = 20%nat) by (unfold after_crc; len).
  rewrite (slice_head (before_crc h)) by lia. rewrite !slice_skip by lia.
  f_equal. rewrite <- (app_nil_r (after_crc h)) at 1. by apply slice_head; lia.
Qed.

(** A frame as the encoder leaves it: every field checked by the decoder is
    the one the payload determines. *)
Record sealed (f : Frame) : Prop := {
  sealed_wf : Header_wf (header f);
  sealed_magic : magic (header f) = MAGIC;
  sealed_version : version (header f) = VERSION;
  sealed_reserved_a : reserved_a (header f) = 0;
  sealed_reserved_b : reserved_b (header f) = replicate 8 Byte.x00;
  sealed_flags : Z.land (flags (header f)) FLAGS_RESERVED_MASK = 0;
  sealed_bound : Z.of_nat (length (payload f)) <= MAX_PAYLOAD_BYTES;
  sealed_len : payload_len (header f) = len_be (Z.of_nat (length (payload f)));
  sealed_payload_crc : payload_crc32c (header f) = to_be_bytes 4 (crc32c (payload f));
  sealed_header_crc : header_crc32c (header f) = to_be_bytes 4 (compute_header_crc (header f));
}.

Context `{!Crc32cLaws CRC}.

Lemma sealed_payload_len f : sealed f -> payload_len_u32 (header f) = Z.of_nat (length (payload f)).
Proof. intros []. unfold payload_len_u32. rewrite sealed_len0. apply from_len_be. lia. Qed.

Lemma validate_sealed f : sealed f -> validate (header f) = Ok tt.
Proof.
  intros Hs. pose proof (sealed_payload_len f Hs) as Hlen. destruct Hs. unfold validate.
  rewrite (bool_decide_eq_true_2 (magic _ = _)) by done. rewrite sealed_version0, Z.eqb_refl.
  rewrite sealed_reserved_a0, (bool_decide_eq_true_2 (reserved_b _ = _)) by done.
  cbn [negb orb Z.eqb]. rewrite sealed_flags0. cbn [negb Z.eqb]. rewrite Hlen.
  rewrite (proj2 (Z.ltb_ge _ _)) by done.
  rewrite sealed_header_crc0, from_to_be by apply crc32c_u32. by rewrite Z.eqb_refl.
Qed.

Lemma decode_sealed f rest max :
  sealed f -> Z.of_nat (length (payload f)) <= max ->
  decode_with_max (bytes_of (header f) ++ payload f ++ rest) max = Ok (f, rest).
Proof.
  intros Hs Hmax. pose proof (sealed_payload_len f Hs) as Hlen.
  pose proof (length_bytes_of _ (sealed_wf _ Hs)) as Hh. unfold decode_with_max.
  assert (length (bytes_of (header f) ++ payload f ++ rest)
          = HEADER_SIZE + length (payload f) + length rest)%nat as -> by (len).
  rewrite (proj2 (Nat.ltb_ge _ HEADER_SIZE)) by lia.
  rewrite cast_take by apply Hs. rewrite validate_sealed by done.
  rewrite Hlen, Nat2Z.id. rewrite (proj2 (Z.ltb_ge max _)) by done.
  rewrite (proj2 (Nat.ltb_ge _ _)) by lia.
  rewrite slice_skip by lia. rewrite slice_head by lia.
  destruct Hs. rewrite sealed_payload_crc0, from_to_be by apply crc32c_u32.
  unfold payload_crc. rewrite Z.eqb_refl. cbn [negb].
  rewrite app_assoc, drop_app_ge by (len; lia). replace (_ - _)%nat with 0%nat by (len; lia).
  rewrite drop_0. by destruct f.
Qed.

Lemma validate_Ok h :
  Header_wf h -> validate h = Ok tt ->
  magic h = MAGIC /\ version h = VERSION /\ reserved_a h = 0
  /\ reserved_b h = replicate 8 Byte.x00 /\ Z.land (flags h) FLAGS_RESERVED_MASK = 0
  /\ header_crc32c h = to_be_bytes 4 (compute_header_crc h).
Proof.
  intros Hwf. unfold validate. destruct (bool_decide (magic h = MAGIC)) eqn:E1; [|done].
  destruct (Z.eqb_spec (version h) VERSION) as [E2|]; [|done].
  destruct (Z.eqb_spec (reserved_a h) 0) as [E3|]; [|done].
  destruct (bool_decide (reserved_b h = replicate 8 Byte.x00)) eqn:E4; [|done].
  destruct (Z.eqb_spec (Z.land (flags h) FLAGS_RESERVED_MASK) 0) as [E5|]; [|done].
  cbn [negb orb]. destruct (MAX_PAYLOAD_BYTES <? payload_len_u32 h); [done|].
  destruct (Z.eqb_spec (from_be_bytes (header_crc32c h)) (compute_header_crc h)) as [E6|]; [|done].
  intros _. apply bool_decide_eq_true in E1, E4. split_and!; [done..|].
  rewrite <- E6. symmetry. apply to_from_be, Hwf.
Qed.

(** Whatever the decoder accepts is a sealed frame in front of the tail. *)
Lemma decode_inv b max f rest :
  decode_with_max b max = Ok (f, rest) ->
  sealed f /\ b = bytes_of (header f) ++ payload f ++ rest
  /\ Z.of_nat (length (payload f)) <= max.
Proof.
  unfold decode_with_max. destruct (Nat.ltb_spec (length b) HEADER_SIZE) as [|Hb]; [done|].
  set (h := cast_header _).
  assert (length (take HEADER_SIZE b) = HEADER_SIZE) as Ht by (rewrite length_take; lia).
  assert (Header_wf h) as Hwf by (by apply cast_header_wf).
  destruct (validate h) as [[]|] eqn:Ev; [|done].
  apply validate_Ok in Ev as (E1 & E2 & E3 & E4 & E5 & E6); [|done].
  assert (0 <= payload_len_u32 h <= MAX_PAYLOAD_BYTES) as Hlen by apply from_be3_bound, Hwf.
  destruct (Z.ltb_spec max (payload_len_u32 h)) as [|Hm]; [done|].
  set (n := Z.to_nat (payload_len_u32 h)).
  destruct (Nat.ltb_spec (length b) (HEADER_SIZE + n)) as [|Hn]; [done|].
  destruct (Z.eqb_spec (from_be_bytes (payload_crc32c h))
              (payload_crc (slice HEADER_SIZE (HEADER_SIZE + n) b))) as [Ec|]; [|done].
  cbn [negb]. intros Heq. apply Ok_inj in Heq. apply pair_eq in Heq as [<- <-].
  cbn [header payload].
  assert (length (slice HEADER_SIZE (HEADER_SIZE + n) b) = n) as Hls
    by (rewrite length_slice; lia).
  split_and!; [|..].
  - split; cbn [header payload]; try done; rewrite ?Hls.
    + subst n. lia.
    + subst n. rewrite Z2Nat.id by lia. symmetry. apply len_be_from, Hwf.
    + unfold payload_crc in Ec. rewrite <- Ec. symmetry. apply to_from_be, Hwf.
  - subst h. rewrite bytes_of_cast by done. rewrite <- (take_drop HEADER_SIZE b) at 1. f_equal.
    unfold slice. replace (HEADER_SIZE + n - HEADER_SIZE)%nat with n by lia.
    replace (drop (HEADER_SIZE + n) b) with (drop n (drop HEADER_SIZE b))
      by (rewrite drop_drop; f_equal; lia).
    by rewrite take_drop.
  - rewrite Hls. subst n. lia.
Qed.

Lemma seal_wf h : Header_wf h -> Header_wf (seal h).
Proof. intros []. by split. Qed.

Lemma seal_crc h :
  Header_wf h -> header_crc32c (seal h) = to_be_bytes 4 (compute_header_crc (seal h)).
Proof.
  intros Hwf. rewrite (compute_header_crc_parts (seal h)) by (by apply seal_wf).
  unfold seal at 1. cbn [header_crc32c set_header_crc32c].
  rewrite compute_header_crc_parts by (destruct Hwf; by split). done.
Qed.

Definition refresh (f : Frame) : Frame :=
  {| header := seal (set_payload_crc32c (to_be_bytes 4 (crc32c (payload f)))
       (set_payload_len (len_be (Z.of_nat (length (payload f)))) (header f)));
     payload := payload f |}.

(** The encoder seals whatever the caller left in length and checksums. *)
Lemma encode_refresh f :
  Z.of_nat (length (payload f)) <= MAX_PAYLOAD_BYTES ->
  encode f = bytes_of (header (refresh f)) ++ payload f.
Proof.
  intros Hb. unfold encode, refresh, payload_crc. cbn [header].
  rewrite wrap_small; [done|]. unfold uint, MAX_PAYLOAD_BYTES in *. lia.
Qed.

Lemma refresh_sealed f :
  Header_wf (header f) -> magic (header f) = MAGIC -> version (header f) = VERSION ->
  reserved_a (header f) = 0 -> reserved_b (header f) = replicate 8 Byte.x00 ->
  Z.land (flags (header f)) FLAGS_RESERVED_MASK = 0 ->
  Z.of_nat (length (payload f)) <= MAX_PAYLOAD_BYTES ->
  sealed (refresh f).
Proof.
  intros Hwf ? ? ? ? ? ?.
  set (h := set_payload_crc32c (to_be_bytes 4 (crc32c (payload f)))
       (set_payload_len (len_be (Z.of_nat (length (payload f)))) (header f))).
  assert (Header_wf h) as Hh
    by (destruct Hwf; split; cbn; done || apply length_to_be || apply length_len_be).
  split; solve [done | by apply seal_wf | by apply seal_crc].
Qed.

Lemma refresh_id f : sealed f -> refresh f = f.
Proof.
  intros Hs. destruct f as [h p]. unfold refresh. cbn [header payload] in *.
  assert (set_payload_crc32c (to_be_bytes 4 (crc32c p))
    (set_payload_len (len_be (Z.of_nat (length p))) h) = h) as ->.
  { destruct Hs. cbn [header payload] in *.
    rewrite <- sealed_len0, <- sealed_payload_crc0. by destruct h. }
  f_equal. unfold seal. rewrite compute_header_crc_parts
    by (destruct Hs as [[]]; cbn [header] in *; by split).
  transitivity (set_header_crc32c (to_be_bytes 4 (compute_header_crc h)) h).
  - by rewrite compute_header_crc_parts by apply (sealed_wf _ Hs).
  - pose proof (sealed_header_crc _ Hs) as Hc. cbn [header] in Hc. rewrite <- Hc. by destruct h.
Qed.

(** The frames [new] builds are sealed and carry what they were given. *)
Lemma new_sealed op fl sid p :
  u16 op -> u8 fl -> u32 sid -> Z.land fl FLAGS_RESERVED_MASK = 0 ->
  Z.of_nat (length p) <= MAX_PAYLOAD_BYTES ->
  exists f, Frame.new op fl sid p = Some f /\ sealed f /\ payload f = p
    /\ opcode_u16 (header f) = op /\ flags_u8 (header f) = fl /\ stream_id_u32 (header f) = sid.
Proof.
  intros Hop Hfl Hsid Hmask Hlen. unfold Frame.new, Header.new.
  rewrite (proj2 (Z.leb_le _ _)) by done. eexists. split; [done|].
  match goal with |- sealed {| header := seal (set_payload_crc32c _ (seal ?h)) |} /\ _ =>
    set (h0 := h) end.
  assert (Header_wf h0) as Hwf by
    (split; cbn; try done; solve [apply length_to_be | apply length_len_be | by vm_compute]).
  split.
  - assert (Header_wf (set_payload_crc32c (to_be_bytes 4 (payload_crc p)) (seal h0))) as Hw
      by (destruct (seal_wf _ Hwf); split; cbn; done || apply length_to_be).
    split; solve [done | by apply seal_wf | by apply seal_crc].
  - split_and!; [done|..]; [apply (from_to_be 2)|done|apply (from_to_be 4)]; done.
Qed.

Lemma new_None op fl sid p :
  MAX_PAYLOAD_BYTES < Z.of_nat (length p) -> Frame.new op fl sid p = None.
Proof. intros H. unfold Frame.new. by rewrite (proj2 (Z.leb_gt _ _)). Qed.

Lemma encode_sealed f : sealed f -> encode f = bytes_of (header f) ++ payload f.
Proof.
  intros Hs. rewrite encode_refresh by apply Hs. by rewrite refresh_id.
Qed.

Lemma length_wire f : sealed f -> length (encode f) = (HEADER_SIZE + length (payload f))%nat.
Proof.
  intros Hs. rewrite encode_sealed, length_app by done. by rewrite length_bytes_of by apply Hs.
Qed.

Lemma decode_wire f rest max :
  sealed f -> Z.of_nat (length (payload f)) <= max ->
  decode_with_max (encode f ++ rest) max = Ok (f, rest).
Proof. intros Hs Hm. rewrite encode_sealed, <- app_assoc by done. by apply decode_sealed. Qed.

Lemma cast_prefix f k :
  sealed f -> (HEADER_SIZE <= k)%nat ->
  cast_header (take HEADER_SIZE (take k (encode f))) = header f.
Proof.
  intros Hs Hk. rewrite take_take, Nat.min_l, encode_sealed by done. apply cast_take, Hs.
Qed.

(** What the decoder answers to the first [k] bytes of a frame. *)
Lemma decode_prefix f k max :
  sealed f -> Z.of_nat (length (payload f)) <= max -> (k < length (encode f))%nat ->
  decode_with_max (take k (encode f)) max = Err (ProtocolError.Truncated k
    (if (k <? HEADER_SIZE)%nat then HEADER_SIZE else length (encode f))).
Proof.
  intros Hs Hm Hk. pose proof (length_wire f Hs) as Hl.
  assert (length (take k (encode f)) = k) as Htk by (rewrite length_take; lia).
  unfold decode_with_max. rewrite Htk. destruct (Nat.ltb_spec k HEADER_SIZE) as [|Hk']; [done|].
  rewrite cast_prefix, validate_sealed, sealed_payload_len by done.
  rewrite (proj2 (Z.ltb_ge _ _)), Nat2Z.id by done.
  rewrite (proj2 (Nat.ltb_lt _ _)) by lia. by rewrite Hl.
Qed.

(** A payload above the negotiated maximum is refused from the header alone. *)
Lemma decode_oversize f k max :
  sealed f -> max < Z.of_nat (length (payload f)) -> (HEADER_SIZE <= k)%nat ->
  decode_with_max (take k (encode f)) max
  = Err (ProtocolError.OversizePayload (Z.of_nat (length (payload f))) max).
Proof.
  intros Hs Hm Hk. pose proof (length_wire f Hs) as Hl. unfold decode_with_max.
  rewrite length_take, (proj2 (Nat.ltb_ge _ HEADER_SIZE)) by lia.
  rewrite cast_prefix, validate_sealed, sealed_payload_len by done.
  by rewrite (proj2 (Z.ltb_lt _ _)).
Qed.
End facts.

(** ** The contract of the frame codec *)

Section contract.
Context `{CRC : Crc32c} `{!Crc32cLaws CRC}.

(** A frame built from an opcode, flags without reserved bits, a stream
    id and a payload of at most 2^24 - 1 bytes encodes to bytes that decode,
    whatever follows them, to the same frame with the same four values; a
    strict prefix is reported as truncated with the number of bytes needed;
    under a negotiated maximum below its length the payload is refused from
    the header alone; a longer payload makes the constructor panic. *)
Theorem frame_roundtrip op fl sid p rest max :
  u16 op -> u8 fl -> u32 sid -> Z.land fl FLAGS_RESERVED_MASK = 0 ->
  Z.of_nat (length p) <= MAX_PAYLOAD_BYTES ->
  exists f, Frame.new op fl sid p = Some f
    /\ length (encode f) = (HEADER_SIZE + length p)%nat
    /\ payload f = p /\ opcode_u16 (header f) = op /\ flags_u8 (header f) = fl
    /\ stream_id_u32 (header f) = sid
    /\ (Z.of_nat (length p) <= max ->
         decode_with_max (encode f ++ rest) max = Ok (f, rest)
         /\ forall k, (k < length (encode f))%nat ->
              decode_with_max (take k (encode f)) max = Err (ProtocolError.Truncated k
                (if (k <? HEADER_SIZE)%nat then HEADER_SIZE else length (encode f))))
    /\ (max < Z.of_nat (length p) ->
         decode_with_max (take HEADER_SIZE (encode f)) max
         = Err (ProtocolError.OversizePayload (Z.of_nat (length p)) max))
    /\ forall p', MAX_PAYLOAD_BYTES < Z.of_nat (length p') -> Frame.new op fl sid p' = None.
Proof.
  intros Hop Hfl Hsid Hmask Hlen.
  destruct (new_sealed op fl sid p) as (f & Hnew & Hs & <- & ? & ? & ?); [done..|].
  exists f. split_and!; [done|by apply length_wire|done..| | |apply new_None].
  - intros Hm. split; [by apply decode_wire|intros k; by apply decode_prefix].
  - intros Hm. by apply decode_oversize.
Qed.

(** Decoding accepts only canonical frames: whatever it accepts, from
    any bytes, is the encoding of the frame it returns followed by the tail it
    returns; magic, version and reserved bits are the protocol's and the
    payload is within the maximum.  An encoder given a frame whose stored
    length and checksums are stale seals it again. *)
Theorem frame_decode_canonical b max f rest :
  decode_with_max b max = Ok (f, rest) ->
  b = encode f ++ rest
  /\ magic (header f) = MAGIC /\ version (header f) = VERSION
  /\ Z.land (flags_u8 (header f)) FLAGS_RESERVED_MASK = 0
  /\ Z.of_nat (length (payload f)) <= max
  /\ forall pl pc hc,
       encode {| header := set_payload_len pl (set_payload_crc32c pc
                   (set_header_crc32c hc (header f)));
                 payload := payload f |} = encode f.
Proof.
  intros Hd. apply decode_inv in Hd as (Hs & -> & Hm).
  rewrite encode_sealed, <- app_assoc by done.
  split_and!; [done|apply Hs..|done|]. intros pl pc hc. by rewrite <- encode_sealed.
Qed.
End contract.

Module WireExample.
Import Castagnoli.

Definition hello : bytes := byte_of <$> [104; 105].

Definition ping : Frame := default {| header := cast_header []; payload := [] |}
  (Frame.new 0x21 0x80 7 hello).

Lemma frame_roundtrip_witness :
  u16 0x21 /\ exists f, Frame.new 0x21 0x80 7 hello = Some f
    /\ decode_with_max (encode f ++ hello) 1000 = Ok (f, hello).
Proof.
  split; [by vm_compute|].
  destruct (frame_roundtrip 0x21 0x80 7 hello hello 1000) as (f & H1 & _ & _ & _ & _ & _ & H2 & _);
    [by vm_compute..|].
  exists f. split; [done|]. by apply H2.
Defined.

Lemma frame_decode_canonical_witness :
  decode_with_max (encode ping ++ hello) 1000 = Ok (ping, hello)
  /\ magic (header ping) = MAGIC.
Proof.
  assert (decode_with_max (encode ping ++ hello) 1000 = Ok (ping, hello)) as H
    by (vm_compute; reflexivity).
  split; [done|]. apply (frame_decode_canonical _ _ _ _ H).
Defined.
End WireExample.
