(* ===== verification/Opcode.v ===== *)
(** Opcodes of the wire protocol ([brain-protocol/src/codec/opcode.rs]): the
    enumeration, its decoder and the predicates the dispatcher uses. *)

From S2P Require Import Prelude Wire.

Module Opcode.

Inductive Opcode :=
| Hello | Welcome | Auth | AuthOk | Ping | Pong | ServerPing | ClientPong | Bye | EncodeReq
| EncodeResp | RecallReq | RecallResp | PlanReq | PlanResp | ReasonReq | ReasonResp | ForgetReq
| ForgetResp | LinkReq | LinkResp | UnlinkReq | UnlinkResp | MemoryListReq | MemoryListResp
| MemoryInspectReq | MemoryInspectResp | EncodeVectorDirectReq | EncodeVectorDirectResp
| SubscribeReq | SubscribeEvent | UnsubscribeReq | UnsubscribeResp | GetCapabilitiesReq
| GetCapabilitiesResp | TxnBegin | TxnBeginResp | TxnCommit | TxnCommitResp | TxnAbort
| TxnAbortResp | CancelStream | CancelStreamAck | AdminStatsReq | AdminStatsResp
| AdminSnapshotReq | AdminSnapshotResp | AdminRestoreReq | AdminRestoreResp
| AdminIntegrityCheckReq | AdminIntegrityCheckResp | AdminMigrateEmbeddingsReq
| AdminMigrateEmbeddingsResp | AdminCreateSessionReq | AdminCreateSessionResp
| AdminRenameSessionReq | AdminRenameSessionResp | AdminMoveMemoryReq | AdminMoveMemoryResp
| AdminReclassifyReq | AdminReclassifyResp | AdminListTombstonedReq | AdminListTombstonedResp
| AdminTokenizeReq | AdminTokenizeResp | AdminRegisterModelReq | AdminRegisterModelResp
| AdminAbortMigrationReq | AdminAbortMigrationResp | AdminRetireFingerprintReq
| AdminRetireFingerprintResp | AdminBackfillReq | AdminBackfillResp | AdminBackfillCancelReq
| AdminBackfillCancelResp | SpaceCreateReq | SpaceCreateResp | SpaceListReq | SpaceListResp
| SpaceDeleteReq | SpaceDeleteResp | SessionCreateReq | SessionCreateResp | SessionListReq
| SessionListResp | SessionDeleteReq | SessionDeleteResp | Error | SchemaUploadReq
| SchemaUploadResp | SchemaGetReq | SchemaGetResp | SchemaListReq | SchemaListResp
| SchemaValidateReq | SchemaValidateResp | ExtractorListReq | ExtractorListResp | SchemaDropReq
| SchemaDropResp | SchemaReplaceReq | SchemaReplaceResp | EntityCreateReq | EntityCreateResp
| EntityGetReq | EntityGetResp | EntityUpdateReq | EntityUpdateResp | EntityRenameReq
| EntityRenameResp | EntityMergeReq | EntityMergeResp | EntityUnmergeReq | EntityUnmergeResp
| EntityResolveReq | EntityResolveResp | EntityListReq | EntityListResp | EntityTombstoneReq
| EntityTombstoneResp | StatementCreateReq | StatementCreateResp | StatementGetReq
| StatementGetResp | StatementSupersedeReq | StatementSupersedeResp | StatementTombstoneReq
| StatementTombstoneResp | StatementRetractReq | StatementRetractResp | StatementHistoryReq
| StatementHistoryResp | StatementListReq | StatementListResp | RelationCreateReq
| RelationCreateResp | RelationGetReq | RelationGetResp | RelationSupersedeReq
| RelationSupersedeResp | RelationTombstoneReq | RelationTombstoneResp | RelationListFromReq
| RelationListFromResp | RelationListToReq | RelationListToResp | RelationTraverseReq
| RelationTraverseResp | QueryExplainReq | QueryExplainResp | QueryTraceReq | QueryTraceResp
| GraphFetchReq | GraphFetchResp | MaterializeProceduralReq | MaterializeProceduralResp
| AdminListPendingContradictionsReq | AdminListPendingContradictionsResp.

Definition from_u16 (v : Z) : result Opcode ProtocolError.ProtocolError :=
  match v with
  | 0x0001 => Ok Hello | 0x0081 => Ok Welcome | 0x0002 => Ok Auth | 0x0082 => Ok AuthOk
  | 0x0010 => Ok Ping | 0x0090 => Ok Pong | 0x0091 => Ok ServerPing | 0x0011 => Ok ClientPong
  | 0x001F => Ok Bye | 0x0020 => Ok EncodeReq | 0x00A0 => Ok EncodeResp
  | 0x0021 => Ok RecallReq | 0x00A1 => Ok RecallResp | 0x0022 => Ok PlanReq
  | 0x00A2 => Ok PlanResp | 0x0023 => Ok ReasonReq | 0x00A3 => Ok ReasonResp
  | 0x0024 => Ok ForgetReq | 0x00A4 => Ok ForgetResp | 0x0025 => Ok LinkReq
  | 0x00A5 => Ok LinkResp | 0x0026 => Ok UnlinkReq | 0x00A6 => Ok UnlinkResp
  | 0x0027 => Ok MemoryListReq | 0x00A7 => Ok MemoryListResp | 0x0028 => Ok MemoryInspectReq
  | 0x00A8 => Ok MemoryInspectResp | 0x002A => Ok EncodeVectorDirectReq
  | 0x00AA => Ok EncodeVectorDirectResp | 0x0030 => Ok SubscribeReq
  | 0x00B0 => Ok SubscribeEvent | 0x0031 => Ok UnsubscribeReq | 0x00B1 => Ok UnsubscribeResp
  | 0x0032 => Ok GetCapabilitiesReq | 0x00B2 => Ok GetCapabilitiesResp | 0x0040 => Ok TxnBegin
  | 0x00C0 => Ok TxnBeginResp | 0x0041 => Ok TxnCommit | 0x00C1 => Ok TxnCommitResp
  | 0x0042 => Ok TxnAbort | 0x00C2 => Ok TxnAbortResp | 0x0050 => Ok CancelStream
  | 0x00D0 => Ok CancelStreamAck | 0x0060 => Ok AdminStatsReq | 0x00E0 => Ok AdminStatsResp
  | 0x0061 => Ok AdminSnapshotReq | 0x00E1 => Ok AdminSnapshotResp
  | 0x0062 => Ok AdminRestoreReq | 0x00E2 => Ok AdminRestoreResp
  | 0x0063 => Ok AdminIntegrityCheckReq | 0x00E3 => Ok AdminIntegrityCheckResp
  | 0x0064 => Ok AdminMigrateEmbeddingsReq | 0x00E4 => Ok AdminMigrateEmbeddingsResp
  | 0x0065 => Ok AdminCreateSessionReq | 0x00E5 => Ok AdminCreateSessionResp
  | 0x0066 => Ok AdminRenameSessionReq | 0x00E6 => Ok AdminRenameSessionResp
  | 0x0067 => Ok AdminMoveMemoryReq | 0x00E7 => Ok AdminMoveMemoryResp
  | 0x0068 => Ok AdminReclassifyReq | 0x00E8 => Ok AdminReclassifyResp
  | 0x0069 => Ok AdminListTombstonedReq | 0x00E9 => Ok AdminListTombstonedResp
  | 0x006A => Ok AdminTokenizeReq | 0x00EA => Ok AdminTokenizeResp
  | 0x006B => Ok AdminRegisterModelReq | 0x00EB => Ok AdminRegisterModelResp
  | 0x006C => Ok AdminAbortMigrationReq | 0x00EC => Ok AdminAbortMigrationResp
  | 0x006D => Ok AdminRetireFingerprintReq | 0x00ED => Ok AdminRetireFingerprintResp
  | 0x006E => Ok AdminBackfillReq | 0x00EE => Ok AdminBackfillResp
  | 0x006F => Ok AdminBackfillCancelReq | 0x00EF => Ok AdminBackfillCancelResp
  | 0x0070 => Ok SpaceCreateReq | 0x00F0 => Ok SpaceCreateResp | 0x0071 => Ok SpaceListReq
  | 0x00F1 => Ok SpaceListResp | 0x0072 => Ok SpaceDeleteReq | 0x00F2 => Ok SpaceDeleteResp
  | 0x0073 => Ok SessionCreateReq | 0x00F3 => Ok SessionCreateResp
  | 0x0074 => Ok SessionListReq | 0x00F4 => Ok SessionListResp | 0x0075 => Ok SessionDeleteReq
  | 0x00F5 => Ok SessionDeleteResp | 0x00FF => Ok Error | 0x0130 => Ok EntityCreateReq
  | 0x01B0 => Ok EntityCreateResp | 0x0131 => Ok EntityGetReq | 0x01B1 => Ok EntityGetResp
  | 0x0132 => Ok EntityUpdateReq | 0x01B2 => Ok EntityUpdateResp | 0x0133 => Ok EntityRenameReq
  | 0x01B3 => Ok EntityRenameResp | 0x0134 => Ok EntityMergeReq | 0x01B4 => Ok EntityMergeResp
  | 0x0135 => Ok EntityUnmergeReq | 0x01B5 => Ok EntityUnmergeResp
  | 0x0136 => Ok EntityResolveReq | 0x01B6 => Ok EntityResolveResp | 0x0137 => Ok EntityListReq
  | 0x01B7 => Ok EntityListResp | 0x0138 => Ok EntityTombstoneReq
  | 0x01B8 => Ok EntityTombstoneResp | 0x0140 => Ok StatementCreateReq
  | 0x01C0 => Ok StatementCreateResp | 0x0141 => Ok StatementGetReq
  | 0x01C1 => Ok StatementGetResp | 0x0142 => Ok StatementSupersedeReq
  | 0x01C2 => Ok StatementSupersedeResp | 0x0143 => Ok StatementTombstoneReq
  | 0x01C3 => Ok StatementTombstoneResp | 0x0144 => Ok StatementRetractReq
  | 0x01C4 => Ok StatementRetractResp | 0x0145 => Ok StatementHistoryReq
  | 0x01C5 => Ok StatementHistoryResp | 0x0146 => Ok StatementListReq
  | 0x01C6 => Ok StatementListResp | 0x0150 => Ok RelationCreateReq
  | 0x01D0 => Ok RelationCreateResp | 0x0151 => Ok RelationGetReq
  | 0x01D1 => Ok RelationGetResp | 0x0152 => Ok RelationSupersedeReq
  | 0x01D2 => Ok RelationSupersedeResp | 0x0153 => Ok RelationTombstoneReq
  | 0x01D3 => Ok RelationTombstoneResp | 0x0154 => Ok RelationListFromReq
  | 0x01D4 => Ok RelationListFromResp | 0x0155 => Ok RelationListToReq
  | 0x01D5 => Ok RelationListToResp | 0x0156 => Ok RelationTraverseReq
  | 0x01D6 => Ok RelationTraverseResp | 0x0161 => Ok QueryExplainReq
  | 0x01E1 => Ok QueryExplainResp | 0x0162 => Ok QueryTraceReq | 0x01E2 => Ok QueryTraceResp
  | 0x0163 => Ok GraphFetchReq | 0x01E3 => Ok GraphFetchResp
  | 0x0164 => Ok MaterializeProceduralReq | 0x01E4 => Ok MaterializeProceduralResp
  | 0x0178 => Ok AdminListPendingContradictionsReq
  | 0x01F8 => Ok AdminListPendingContradictionsResp | 0x0120 => Ok SchemaUploadReq
  | 0x01A0 => Ok SchemaUploadResp | 0x0121 => Ok SchemaGetReq | 0x01A1 => Ok SchemaGetResp
  | 0x0122 => Ok SchemaListReq | 0x01A2 => Ok SchemaListResp | 0x0123 => Ok SchemaValidateReq
  | 0x01A3 => Ok SchemaValidateResp | 0x0124 => Ok ExtractorListReq
  | 0x01A4 => Ok ExtractorListResp | 0x0125 => Ok SchemaDropReq | 0x01A5 => Ok SchemaDropResp
  | 0x0127 => Ok SchemaReplaceReq | 0x01A7 => Ok SchemaReplaceResp
  | other => Err (ProtocolError.UnknownOpcode other)
  end.

(** The discriminants of the [repr(u16)] enum. *)
Definition as_u16 (o : Opcode) : Z :=
  match o with
  | Hello => 0x0001 | Welcome => 0x0081 | Auth => 0x0002 | AuthOk => 0x0082 | Ping => 0x0010
  | Pong => 0x0090 | ServerPing => 0x0091 | ClientPong => 0x0011 | Bye => 0x001F
  | EncodeReq => 0x0020 | EncodeResp => 0x00A0 | RecallReq => 0x0021 | RecallResp => 0x00A1
  | PlanReq => 0x0022 | PlanResp => 0x00A2 | ReasonReq => 0x0023 | ReasonResp => 0x00A3
  | ForgetReq => 0x0024 | ForgetResp => 0x00A4 | LinkReq => 0x0025 | LinkResp => 0x00A5
  | UnlinkReq => 0x0026 | UnlinkResp => 0x00A6 | MemoryListReq => 0x0027
  | MemoryListResp => 0x00A7 | MemoryInspectReq => 0x0028 | MemoryInspectResp => 0x00A8
  | EncodeVectorDirectReq => 0x002A | EncodeVectorDirectResp => 0x00AA | SubscribeReq => 0x0030
  | SubscribeEvent => 0x00B0 | UnsubscribeReq => 0x0031 | UnsubscribeResp => 0x00B1
  | GetCapabilitiesReq => 0x0032 | GetCapabilitiesResp => 0x00B2 | TxnBegin => 0x0040
  | TxnBeginResp => 0x00C0 | TxnCommit => 0x0041 | TxnCommitResp => 0x00C1 | TxnAbort => 0x0042
  | TxnAbortResp => 0x00C2 | CancelStream => 0x0050 | CancelStreamAck => 0x00D0
  | AdminStatsReq => 0x0060 | AdminStatsResp => 0x00E0 | AdminSnapshotReq => 0x0061
  | AdminSnapshotResp => 0x00E1 | AdminRestoreReq => 0x0062 | AdminRestoreResp => 0x00E2
  | AdminIntegrityCheckReq => 0x0063 | AdminIntegrityCheckResp => 0x00E3
  | AdminMigrateEmbeddingsReq => 0x0064 | AdminMigrateEmbeddingsResp => 0x00E4
  | AdminCreateSessionReq => 0x0065 | AdminCreateSessionResp => 0x00E5
  | AdminRenameSessionReq => 0x0066 | AdminRenameSessionResp => 0x00E6
  | AdminMoveMemoryReq => 0x0067 | AdminMoveMemoryResp => 0x00E7 | AdminReclassifyReq => 0x0068
  | AdminReclassifyResp => 0x00E8 | AdminListTombstonedReq => 0x0069
  | AdminListTombstonedResp => 0x00E9 | AdminTokenizeReq => 0x006A
  | AdminTokenizeResp => 0x00EA | AdminRegisterModelReq => 0x006B
  | AdminRegisterModelResp => 0x00EB | AdminAbortMigrationReq => 0x006C
  | AdminAbortMigrationResp => 0x00EC | AdminRetireFingerprintReq => 0x006D
  | AdminRetireFingerprintResp => 0x00ED | AdminBackfillReq => 0x006E
  | AdminBackfillResp => 0x00EE | AdminBackfillCancelReq => 0x006F
  | AdminBackfillCancelResp => 0x00EF | SpaceCreateReq => 0x0070 | SpaceCreateResp => 0x00F0
  | SpaceListReq => 0x0071 | SpaceListResp => 0x00F1 | SpaceDeleteReq => 0x0072
  | SpaceDeleteResp => 0x00F2 | SessionCreateReq => 0x0073 | SessionCreateResp => 0x00F3
  | SessionListReq => 0x0074 | SessionListResp => 0x00F4 | SessionDeleteReq => 0x0075
  | SessionDeleteResp => 0x00F5 | Error => 0x00FF | SchemaUploadReq => 0x0120
  | SchemaUploadResp => 0x01A0 | SchemaGetReq => 0x0121 | SchemaGetResp => 0x01A1
  | SchemaListReq => 0x0122 | SchemaListResp => 0x01A2 | SchemaValidateReq => 0x0123
  | SchemaValidateResp => 0x01A3 | ExtractorListReq => 0x0124 | ExtractorListResp => 0x01A4
  | SchemaDropReq => 0x0125 | SchemaDropResp => 0x01A5 | SchemaReplaceReq => 0x0127
  | SchemaReplaceResp => 0x01A7 | EntityCreateReq => 0x0130 | EntityCreateResp => 0x01B0
  | EntityGetReq => 0x0131 | EntityGetResp => 0x01B1 | EntityUpdateReq => 0x0132
  | EntityUpdateResp => 0x01B2 | EntityRenameReq => 0x0133 | EntityRenameResp => 0x01B3
  | EntityMergeReq => 0x0134 | EntityMergeResp => 0x01B4 | EntityUnmergeReq => 0x0135
  | EntityUnmergeResp => 0x01B5 | EntityResolveReq => 0x0136 | EntityResolveResp => 0x01B6
  | EntityListReq => 0x0137 | EntityListResp => 0x01B7 | EntityTombstoneReq => 0x0138
  | EntityTombstoneResp => 0x01B8 | StatementCreateReq => 0x0140
  | StatementCreateResp => 0x01C0 | StatementGetReq => 0x0141 | StatementGetResp => 0x01C1
  | StatementSupersedeReq => 0x0142 | StatementSupersedeResp => 0x01C2
  | StatementTombstoneReq => 0x0143 | StatementTombstoneResp => 0x01C3
  | StatementRetractReq => 0x0144 | StatementRetractResp => 0x01C4
  | StatementHistoryReq => 0x0145 | StatementHistoryResp => 0x01C5 | StatementListReq => 0x0146
  | StatementListResp => 0x01C6 | RelationCreateReq => 0x0150 | RelationCreateResp => 0x01D0
  | RelationGetReq => 0x0151 | RelationGetResp => 0x01D1 | RelationSupersedeReq => 0x0152
  | RelationSupersedeResp => 0x01D2 | RelationTombstoneReq => 0x0153
  | RelationTombstoneResp => 0x01D3 | RelationListFromReq => 0x0154
  | RelationListFromResp => 0x01D4 | RelationListToReq => 0x0155 | RelationListToResp => 0x01D5
  | RelationTraverseReq => 0x0156 | RelationTraverseResp => 0x01D6 | QueryExplainReq => 0x0161
  | QueryExplainResp => 0x01E1 | QueryTraceReq => 0x0162 | QueryTraceResp => 0x01E2
  | GraphFetchReq => 0x0163 | GraphFetchResp => 0x01E3 | MaterializeProceduralReq => 0x0164
  | MaterializeProceduralResp => 0x01E4 | AdminListPendingContradictionsReq => 0x0178
  | AdminListPendingContradictionsResp => 0x01F8
  end.

Definition namespace (o : Opcode) : Z := wrap 8 (Z.shiftr (as_u16 o) 8).
Definition low_byte (o : Opcode) : Z := wrap 8 (as_u16 o).
Definition is_request (o : Opcode) : bool := low_byte o <? 0x80.
Definition is_response (o : Opcode) : bool := negb (is_request o).

Definition is_admin (o : Opcode) : bool :=
  match o with
  | SchemaReplaceReq | SchemaReplaceResp | SchemaDropReq | SchemaDropResp => true
  | _ => false
  end
  || ((namespace o =? 0)
      && ((0x60 <=? low_byte o) && (low_byte o <=? 0x6F)
          || (0xE0 <=? low_byte o) && (low_byte o <=? 0xEF)))
  || ((namespace o =? 1)
      && ((0x70 <=? low_byte o) && (low_byte o <=? 0x7F)
          || (0xF0 <=? low_byte o) && (low_byte o <=? 0xFF))).

Definition is_typed_graph (o : Opcode) : bool := namespace o =? 1.

Definition is_connection_level (o : Opcode) : bool :=
  match o with
  | Hello | Welcome | Auth | AuthOk | Ping | Pong | ServerPing | ClientPong | Bye => true
  | _ => false
  end.

Lemma from_as_u16 o : from_u16 (as_u16 o) = Ok o.
Proof. by destruct o. Qed.

#[global] Instance as_u16_inj : Inj eq eq as_u16.
Proof. intros a b E. apply (Ok_inj (E := ProtocolError.ProtocolError)). by rewrite <- !from_as_u16, E. Qed.

(** Equality of opcodes is equality of their discriminants. *)
#[global] Instance Opcode_eq_dec : EqDecision Opcode.
Proof.
  intros a b. destruct (decide (as_u16 a = as_u16 b)) as [E|E]; [left|right].
  - by apply (inj as_u16).
  - by intros ->.
Defined.

Lemma as_from_u16 v o : from_u16 v = Ok o -> as_u16 o = v.
Proof.
  unfold from_u16. intros H.
  repeat (match type of H with context [match ?x with _ => _ end] => destruct x end; try discriminate H).
  all: injection H as <-; reflexivity.
Qed.

Lemma as_u16_range o : u16 (as_u16 o).
Proof. destruct o; done. Qed.
End Opcode.
