(* ===== verification/Request.v ===== *)
(** Requests of the wire protocol ([brain-protocol]: [envelope/request.rs],
    [connection/], [ops/], [codec/cbor.rs]) and the permission each of them
    needs ([brain-ops/src/dispatch.rs], [brain-metadata]: the permission bits).

    The identifiers of the wire are [u128] or byte arrays and are [Z] here.
    The structs that the connection layer looks into are written out; of the
    others the model keeps the [act_as] selector next to the remaining fields
    ([Delegable]), or the fields alone ([Plain]).  The CBOR reader is a
    third-party crate: [Ciborium] is its reader at the struct decoded under an
    opcode, and nothing is assumed about it. *)

From stdpp Require Import pretty.
From S2P Require Import Prelude Wire Opcode.

Abbreviation Opcode := Opcode.Opcode.

(** ** Payload structs *)

Record ActAs := { aa_namespace : string; aa_space : string; aa_grant : Z }.

Record HelloCapabilities := { streaming : bool; compression_zstd : bool; server_push : bool }.

Inductive AuthMethod := Token | Mtls.

Record MtlsClaim := { cert_fingerprint : bytes; asserted_subject : string }.

Inductive AuthCredentials :=
| CredToken (b : bytes)
| CredMtls (c : MtlsClaim).

Record HelloPayload := {
  client_id : string;
  client_versions : list Z;
  client_capabilities : HelloCapabilities;
  client_connection_token : option bytes;
}.

Record AuthPayload := { method : AuthMethod; credentials : AuthCredentials }.

Inductive ForgetMode := Soft | Hard.

Record ForgetRequest := {
  forget_memory_id : Z;
  forget_mode : ForgetMode;
  forget_request_id : Z;
  forget_txn_id : option Z;
  forget_act_as : option ActAs;
}.

Record LinkRequest := {
  link_source : Z;
  link_target : Z;
  link_kind : Z;
  link_weight : Z;
  link_request_id : Z;
  link_txn_id : option Z;
  link_act_as : option ActAs;
}.

Record UnlinkRequest := {
  unlink_source : Z;
  unlink_target : Z;
  unlink_kind : Z;
  unlink_request_id : Z;
  unlink_txn_id : option Z;
  unlink_act_as : option ActAs;
}.

Record SimilarityFilter := { reference_memory_id : Z; threshold : Z }.

Record SubscriptionFilter := {
  session_filter : option (list Z);
  kinds : option (list Z);
  similar_to : option SimilarityFilter;
  spaces : option (list Z);
  memory_ids : option (list Z);
}.

Record SubscribeRequest := {
  sub_filter : SubscriptionFilter;
  include_history : bool;
  from_lsn : option Z;
  max_inflight : Z;
  subscribe_act_as : option ActAs;
}.

Record UnsubscribeRequest := { unsub_target_stream_id : Z }.

Record TxnBeginRequest := {
  begin_txn_id : Z;
  begin_timeout_seconds : Z;
  begin_act_as : option ActAs;
}.

Record TxnCommitRequest := { commit_txn_id : Z }.
Record TxnAbortRequest := { abort_txn_id : Z }.

Inductive CancellationReason := ClientUnneeded | Timeout | Other (s : string).

Record CancelStreamRequest := { cancel_target_stream_id : Z; cancel_reason : CancellationReason }.
Record PingRequest := { ping_client_timestamp : Z }.
Record ClientPongRequest := { cpong_server_timestamp : Z; cpong_client_timestamp : Z }.
Record ByeRequest := { bye_reason : option string }.

Record SchemaGetRequest := { sg_namespace : string; sg_version : Z; sg_act_as : option ActAs }.

Record SchemaListRequest := {
  sl_namespace : string;
  sl_limit : Z;
  sl_cursor : bytes;
  sl_act_as : option ActAs;
}.

Inductive RecallScopeWire := ScopeSpace | ScopeNamespace.

(** The fields of a struct that only its handler looks into. *)
Abbreviation Fields := bytes.

Record RecallRequest := {
  recall_scope : RecallScopeWire;
  recall_txn_id : option Z;
  recall_act_as : option ActAs;
  recall_fields : Fields;
}.

Record EncodeVectorDirectRequest := {
  evd_vector : list Z;
  evd_act_as : option ActAs;
  evd_fields : Fields;
}.

Definition set_evd_vector (v : list Z) (r : EncodeVectorDirectRequest) : EncodeVectorDirectRequest :=
  {| evd_vector := v; evd_act_as := evd_act_as r; evd_fields := evd_fields r |}.

Record Delegable := { d_act_as : option ActAs; d_fields : Fields }.
Record Plain := { p_fields : Fields }.

(** The struct that is decoded under an opcode; opcodes without a request body
    have none. *)
Definition Payload (o : Opcode) : Type :=
  match o with
  | Opcode.Hello => HelloPayload
  | Opcode.Auth => AuthPayload
  | Opcode.EncodeReq | Opcode.PlanReq | Opcode.ReasonReq | Opcode.MemoryListReq
  | Opcode.MemoryInspectReq | Opcode.GraphFetchReq | Opcode.GetCapabilitiesReq
  | Opcode.EntityCreateReq | Opcode.EntityGetReq | Opcode.EntityUpdateReq
  | Opcode.EntityRenameReq | Opcode.EntityMergeReq | Opcode.EntityUnmergeReq
  | Opcode.EntityResolveReq | Opcode.EntityListReq | Opcode.EntityTombstoneReq
  | Opcode.StatementCreateReq | Opcode.StatementGetReq | Opcode.StatementSupersedeReq
  | Opcode.StatementTombstoneReq | Opcode.StatementRetractReq | Opcode.StatementHistoryReq
  | Opcode.StatementListReq | Opcode.RelationCreateReq | Opcode.RelationGetReq
  | Opcode.RelationSupersedeReq | Opcode.RelationTombstoneReq | Opcode.RelationListFromReq
  | Opcode.RelationListToReq | Opcode.RelationTraverseReq | Opcode.SchemaUploadReq
  | Opcode.SchemaValidateReq | Opcode.SchemaReplaceReq | Opcode.SchemaDropReq
  | Opcode.ExtractorListReq | Opcode.QueryExplainReq | Opcode.QueryTraceReq
  | Opcode.MaterializeProceduralReq | Opcode.SpaceCreateReq | Opcode.SpaceListReq
  | Opcode.SpaceDeleteReq | Opcode.SessionCreateReq | Opcode.SessionListReq
  | Opcode.SessionDeleteReq => Delegable
  | Opcode.EncodeVectorDirectReq => EncodeVectorDirectRequest
  | Opcode.RecallReq => RecallRequest
  | Opcode.ForgetReq => ForgetRequest
  | Opcode.LinkReq => LinkRequest
  | Opcode.UnlinkReq => UnlinkRequest
  | Opcode.SubscribeReq => SubscribeRequest
  | Opcode.UnsubscribeReq => UnsubscribeRequest
  | Opcode.TxnBegin => TxnBeginRequest
  | Opcode.TxnCommit => TxnCommitRequest
  | Opcode.TxnAbort => TxnAbortRequest
  | Opcode.CancelStream => CancelStreamRequest
  | Opcode.Ping => PingRequest
  | Opcode.ClientPong => ClientPongRequest
  | Opcode.Bye => ByeRequest
  | Opcode.AdminStatsReq | Opcode.AdminSnapshotReq | Opcode.AdminRestoreReq
  | Opcode.AdminIntegrityCheckReq | Opcode.AdminMigrateEmbeddingsReq
  | Opcode.AdminCreateSessionReq | Opcode.AdminRenameSessionReq | Opcode.AdminMoveMemoryReq
  | Opcode.AdminReclassifyReq | Opcode.AdminListTombstonedReq
  | Opcode.AdminListPendingContradictionsReq | Opcode.AdminBackfillReq
  | Opcode.AdminBackfillCancelReq => Plain
  | Opcode.SchemaGetReq => SchemaGetRequest
  | Opcode.SchemaListReq => SchemaListRequest
  | _ => Empty_set
  end.

(** ** CBOR *)

(** [ciborium::from_reader]: the value and the number of bytes consumed, or the
    text of the error. *)
Class Ciborium := {
  from_reader : forall o : Opcode, bytes -> result (Payload o * nat) string;
}.

Section cbor.
Context `{Ciborium}.
Local Open Scope string_scope.

Definition from_cbor_bytes (o : Opcode) (b : bytes)
  : result (Payload o) ProtocolError.ProtocolError :=
  match from_reader o b with
  | Err e => Err (ProtocolError.MalformedPayload ("CBOR decode failed: " +:+ e))
  | Ok (value, position) =>
    if negb (position =? length b)%nat
    then Err (ProtocolError.MalformedPayload "trailing bytes after CBOR payload")
    else Ok value
  end.

Definition from_cbor_prefix (o : Opcode) (b : bytes)
  : result (Payload o * nat) ProtocolError.ProtocolError :=
  match from_reader o b with
  | Err e => Err (ProtocolError.MalformedPayload ("CBOR decode failed: " +:+ e))
  | Ok (value, position) => Ok (value, position)
  end.
End cbor.

(** The chunks of four bytes, each the bit pattern of a float. *)
Fixpoint le_chunks (n : nat) (b : bytes) : list Z :=
  match n with
  | O => []
  | S n => from_le_bytes (take 4 b) :: le_chunks n (drop 4 b)
  end.

Definition le_bytes_to_f32_vec (b : bytes) : result (list Z) ProtocolError.ProtocolError :=
  if negb (length b mod 4 =? 0)%nat
  then Err (ProtocolError.MalformedPayload
    ("trailing vector section is " +:+ pretty (length b) +:+ " bytes, not a multiple of 4"))
  else Ok (le_chunks (length b / 4) b).

Fixpoint f32_slice_to_le_bytes (v : list Z) : bytes :=
  match v with [] => [] | x :: v => to_le_bytes 4 x ++ f32_slice_to_le_bytes v end.

(** ** Request bodies *)

Module RequestBody.
Inductive RequestBody :=
| Hello (r : HelloPayload) | Auth (r : AuthPayload) | Encode (r : Delegable)
| EncodeVectorDirect (r : EncodeVectorDirectRequest) | Recall (r : RecallRequest)
| Plan (r : Delegable) | Reason (r : Delegable) | Forget (r : ForgetRequest)
| Link (r : LinkRequest) | Unlink (r : UnlinkRequest) | MemoryList (r : Delegable)
| MemoryInspect (r : Delegable) | GraphFetch (r : Delegable) | Subscribe (r : SubscribeRequest)
| Unsubscribe (r : UnsubscribeRequest) | GetCapabilities (r : Delegable)
| TxnBegin (r : TxnBeginRequest) | TxnCommit (r : TxnCommitRequest)
| TxnAbort (r : TxnAbortRequest) | CancelStream (r : CancelStreamRequest)
| Ping (r : PingRequest) | ClientPong (r : ClientPongRequest) | Bye (r : ByeRequest)
| AdminStats (r : Plain) | AdminSnapshot (r : Plain) | AdminRestore (r : Plain)
| AdminIntegrityCheck (r : Plain) | AdminMigrateEmbeddings (r : Plain)
| AdminCreateSession (r : Plain) | AdminRenameSession (r : Plain) | AdminMoveMemory (r : Plain)
| AdminReclassify (r : Plain) | AdminListTombstoned (r : Plain)
| AdminListPendingContradictions (r : Plain) | AdminBackfill (r : Plain)
| AdminBackfillCancel (r : Plain) | EntityCreate (r : Delegable) | EntityGet (r : Delegable)
| EntityUpdate (r : Delegable) | EntityRename (r : Delegable) | EntityMerge (r : Delegable)
| EntityUnmerge (r : Delegable) | EntityResolve (r : Delegable) | EntityList (r : Delegable)
| EntityTombstone (r : Delegable) | StatementCreate (r : Delegable)
| StatementGet (r : Delegable) | StatementSupersede (r : Delegable)
| StatementTombstone (r : Delegable) | StatementRetract (r : Delegable)
| StatementHistory (r : Delegable) | StatementList (r : Delegable)
| RelationCreate (r : Delegable) | RelationGet (r : Delegable)
| RelationSupersede (r : Delegable) | RelationTombstone (r : Delegable)
| RelationListFrom (r : Delegable) | RelationListTo (r : Delegable)
| RelationTraverse (r : Delegable) | SchemaUpload (r : Delegable)
| SchemaGet (r : SchemaGetRequest) | SchemaList (r : SchemaListRequest)
| SchemaValidate (r : Delegable) | SchemaReplace (r : Delegable) | SchemaDrop (r : Delegable)
| ExtractorList (r : Delegable) | QueryExplain (r : Delegable) | QueryTrace (r : Delegable)
| MaterializeProcedural (r : Delegable) | SpaceCreate (r : Delegable)
| SpaceList (r : Delegable) | SpaceDelete (r : Delegable) | SessionCreate (r : Delegable)
| SessionList (r : Delegable) | SessionDelete (r : Delegable).

Definition opcode (b : RequestBody) : Opcode :=
  match b with
  | Hello _ => Opcode.Hello | Auth _ => Opcode.Auth | Encode _ => Opcode.EncodeReq
  | EncodeVectorDirect _ => Opcode.EncodeVectorDirectReq | Recall _ => Opcode.RecallReq
  | Plan _ => Opcode.PlanReq | Reason _ => Opcode.ReasonReq | Forget _ => Opcode.ForgetReq
  | Link _ => Opcode.LinkReq | Unlink _ => Opcode.UnlinkReq
  | MemoryList _ => Opcode.MemoryListReq | MemoryInspect _ => Opcode.MemoryInspectReq
  | GraphFetch _ => Opcode.GraphFetchReq | Subscribe _ => Opcode.SubscribeReq
  | Unsubscribe _ => Opcode.UnsubscribeReq | GetCapabilities _ => Opcode.GetCapabilitiesReq
  | TxnBegin _ => Opcode.TxnBegin | TxnCommit _ => Opcode.TxnCommit
  | TxnAbort _ => Opcode.TxnAbort | CancelStream _ => Opcode.CancelStream
  | Ping _ => Opcode.Ping | ClientPong _ => Opcode.ClientPong | Bye _ => Opcode.Bye
  | AdminStats _ => Opcode.AdminStatsReq | AdminSnapshot _ => Opcode.AdminSnapshotReq
  | AdminRestore _ => Opcode.AdminRestoreReq
  | AdminIntegrityCheck _ => Opcode.AdminIntegrityCheckReq
  | AdminMigrateEmbeddings _ => Opcode.AdminMigrateEmbeddingsReq
  | AdminCreateSession _ => Opcode.AdminCreateSessionReq
  | AdminRenameSession _ => Opcode.AdminRenameSessionReq
  | AdminMoveMemory _ => Opcode.AdminMoveMemoryReq
  | AdminReclassify _ => Opcode.AdminReclassifyReq
  | AdminListTombstoned _ => Opcode.AdminListTombstonedReq
  | AdminListPendingContradictions _ => Opcode.AdminListPendingContradictionsReq
  | AdminBackfill _ => Opcode.AdminBackfillReq
  | AdminBackfillCancel _ => Opcode.AdminBackfillCancelReq
  | EntityCreate _ => Opcode.EntityCreateReq | EntityGet _ => Opcode.EntityGetReq
  | EntityUpdate _ => Opcode.EntityUpdateReq | EntityRename _ => Opcode.EntityRenameReq
  | EntityMerge _ => Opcode.EntityMergeReq | EntityUnmerge _ => Opcode.EntityUnmergeReq
  | EntityResolve _ => Opcode.EntityResolveReq | EntityList _ => Opcode.EntityListReq
  | EntityTombstone _ => Opcode.EntityTombstoneReq
  | StatementCreate _ => Opcode.StatementCreateReq | StatementGet _ => Opcode.StatementGetReq
  | StatementSupersede _ => Opcode.StatementSupersedeReq
  | StatementTombstone _ => Opcode.StatementTombstoneReq
  | StatementRetract _ => Opcode.StatementRetractReq
  | StatementHistory _ => Opcode.StatementHistoryReq
  | StatementList _ => Opcode.StatementListReq | RelationCreate _ => Opcode.RelationCreateReq
  | RelationGet _ => Opcode.RelationGetReq | RelationSupersede _ => Opcode.RelationSupersedeReq
  | RelationTombstone _ => Opcode.RelationTombstoneReq
  | RelationListFrom _ => Opcode.RelationListFromReq
  | RelationListTo _ => Opcode.RelationListToReq
  | RelationTraverse _ => Opcode.RelationTraverseReq | SchemaUpload _ => Opcode.SchemaUploadReq
  | SchemaGet _ => Opcode.SchemaGetReq | SchemaList _ => Opcode.SchemaListReq
  | SchemaValidate _ => Opcode.SchemaValidateReq | SchemaReplace _ => Opcode.SchemaReplaceReq
  | SchemaDrop _ => Opcode.SchemaDropReq | ExtractorList _ => Opcode.ExtractorListReq
  | QueryExplain _ => Opcode.QueryExplainReq | QueryTrace _ => Opcode.QueryTraceReq
  | MaterializeProcedural _ => Opcode.MaterializeProceduralReq
  | SpaceCreate _ => Opcode.SpaceCreateReq | SpaceList _ => Opcode.SpaceListReq
  | SpaceDelete _ => Opcode.SpaceDeleteReq | SessionCreate _ => Opcode.SessionCreateReq
  | SessionList _ => Opcode.SessionListReq | SessionDelete _ => Opcode.SessionDeleteReq
  end.

Section decode.
Context `{Ciborium}.

Definition decode (o : Opcode) (b : bytes) : result RequestBody ProtocolError.ProtocolError :=
  match o with
  | Opcode.Hello =>
    let? r := from_cbor_bytes Opcode.Hello b in Ok (Hello r)
  | Opcode.Auth =>
    let? r := from_cbor_bytes Opcode.Auth b in Ok (Auth r)
  | Opcode.EncodeReq =>
    let? r := from_cbor_bytes Opcode.EncodeReq b in Ok (Encode r)
  | Opcode.EncodeVectorDirectReq =>
    let? (req, consumed) := from_cbor_prefix Opcode.EncodeVectorDirectReq b in
    let? v := le_bytes_to_f32_vec (drop consumed b) in
    Ok (EncodeVectorDirect (set_evd_vector v req))
  | Opcode.RecallReq =>
    let? r := from_cbor_bytes Opcode.RecallReq b in Ok (Recall r)
  | Opcode.PlanReq =>
    let? r := from_cbor_bytes Opcode.PlanReq b in Ok (Plan r)
  | Opcode.ReasonReq =>
    let? r := from_cbor_bytes Opcode.ReasonReq b in Ok (Reason r)
  | Opcode.ForgetReq =>
    let? r := from_cbor_bytes Opcode.ForgetReq b in Ok (Forget r)
  | Opcode.LinkReq =>
    let? r := from_cbor_bytes Opcode.LinkReq b in Ok (Link r)
  | Opcode.UnlinkReq =>
    let? r := from_cbor_bytes Opcode.UnlinkReq b in Ok (Unlink r)
  | Opcode.MemoryListReq =>
    let? r := from_cbor_bytes Opcode.MemoryListReq b in Ok (MemoryList r)
  | Opcode.MemoryInspectReq =>
    let? r := from_cbor_bytes Opcode.MemoryInspectReq b in Ok (MemoryInspect r)
  | Opcode.GraphFetchReq =>
    let? r := from_cbor_bytes Opcode.GraphFetchReq b in Ok (GraphFetch r)
  | Opcode.SubscribeReq =>
    let? r := from_cbor_bytes Opcode.SubscribeReq b in Ok (Subscribe r)
  | Opcode.UnsubscribeReq =>
    let? r := from_cbor_bytes Opcode.UnsubscribeReq b in Ok (Unsubscribe r)
  | Opcode.GetCapabilitiesReq =>
    let? r := from_cbor_bytes Opcode.GetCapabilitiesReq b in Ok (GetCapabilities r)
  | Opcode.TxnBegin =>
    let? r := from_cbor_bytes Opcode.TxnBegin b in Ok (TxnBegin r)
  | Opcode.TxnCommit =>
    let? r := from_cbor_bytes Opcode.TxnCommit b in Ok (TxnCommit r)
  | Opcode.TxnAbort =>
    let? r := from_cbor_bytes Opcode.TxnAbort b in Ok (TxnAbort r)
  | Opcode.CancelStream =>
    let? r := from_cbor_bytes Opcode.CancelStream b in Ok (CancelStream r)
  | Opcode.Ping =>
    let? r := from_cbor_bytes Opcode.Ping b in Ok (Ping r)
  | Opcode.ClientPong =>
    let? r := from_cbor_bytes Opcode.ClientPong b in Ok (ClientPong r)
  | Opcode.Bye =>
    let? r := from_cbor_bytes Opcode.Bye b in Ok (Bye r)
  | Opcode.AdminStatsReq =>
    let? r := from_cbor_bytes Opcode.AdminStatsReq b in Ok (AdminStats r)
  | Opcode.AdminSnapshotReq =>
    let? r := from_cbor_bytes Opcode.AdminSnapshotReq b in Ok (AdminSnapshot r)
  | Opcode.AdminRestoreReq =>
    let? r := from_cbor_bytes Opcode.AdminRestoreReq b in Ok (AdminRestore r)
  | Opcode.AdminIntegrityCheckReq =>
    let? r := from_cbor_bytes Opcode.AdminIntegrityCheckReq b in Ok (AdminIntegrityCheck r)
  | Opcode.AdminMigrateEmbeddingsReq =>
    let? r := from_cbor_bytes Opcode.AdminMigrateEmbeddingsReq b in Ok (AdminMigrateEmbeddings r)
  | Opcode.AdminCreateSessionReq =>
    let? r := from_cbor_bytes Opcode.AdminCreateSessionReq b in Ok (AdminCreateSession r)
  | Opcode.AdminRenameSessionReq =>
    let? r := from_cbor_bytes Opcode.AdminRenameSessionReq b in Ok (AdminRenameSession r)
  | Opcode.AdminMoveMemoryReq =>
    let? r := from_cbor_bytes Opcode.AdminMoveMemoryReq b in Ok (AdminMoveMemory r)
  | Opcode.AdminReclassifyReq =>
    let? r := from_cbor_bytes Opcode.AdminReclassifyReq b in Ok (AdminReclassify r)
  | Opcode.AdminListTombstonedReq =>
    let? r := from_cbor_bytes Opcode.AdminListTombstonedReq b in Ok (AdminListTombstoned r)
  | Opcode.AdminListPendingContradictionsReq =>
    let? r := from_cbor_bytes Opcode.AdminListPendingContradictionsReq b in Ok (AdminListPendingContradictions r)
  | Opcode.AdminBackfillReq =>
    let? r := from_cbor_bytes Opcode.AdminBackfillReq b in Ok (AdminBackfill r)
  | Opcode.AdminBackfillCancelReq =>
    let? r := from_cbor_bytes Opcode.AdminBackfillCancelReq b in Ok (AdminBackfillCancel r)
  | Opcode.EntityCreateReq =>
    let? r := from_cbor_bytes Opcode.EntityCreateReq b in Ok (EntityCreate r)
  | Opcode.EntityGetReq =>
    let? r := from_cbor_bytes Opcode.EntityGetReq b in Ok (EntityGet r)
  | Opcode.EntityUpdateReq =>
    let? r := from_cbor_bytes Opcode.EntityUpdateReq b in Ok (EntityUpdate r)
  | Opcode.EntityRenameReq =>
    let? r := from_cbor_bytes Opcode.EntityRenameReq b in Ok (EntityRename r)
  | Opcode.EntityMergeReq =>
    let? r := from_cbor_bytes Opcode.EntityMergeReq b in Ok (EntityMerge r)
  | Opcode.EntityUnmergeReq =>
    let? r := from_cbor_bytes Opcode.EntityUnmergeReq b in Ok (EntityUnmerge r)
  | Opcode.EntityResolveReq =>
    let? r := from_cbor_bytes Opcode.EntityResolveReq b in Ok (EntityResolve r)
  | Opcode.EntityListReq =>
    let? r := from_cbor_bytes Opcode.EntityListReq b in Ok (EntityList r)
  | Opcode.EntityTombstoneReq =>
    let? r := from_cbor_bytes Opcode.EntityTombstoneReq b in Ok (EntityTombstone r)
  | Opcode.StatementCreateReq =>
    let? r := from_cbor_bytes Opcode.StatementCreateReq b in Ok (StatementCreate r)
  | Opcode.StatementGetReq =>
    let? r := from_cbor_bytes Opcode.StatementGetReq b in Ok (StatementGet r)
  | Opcode.StatementSupersedeReq =>
    let? r := from_cbor_bytes Opcode.StatementSupersedeReq b in Ok (StatementSupersede r)
  | Opcode.StatementTombstoneReq =>
    let? r := from_cbor_bytes Opcode.StatementTombstoneReq b in Ok (StatementTombstone r)
  | Opcode.StatementRetractReq =>
    let? r := from_cbor_bytes Opcode.StatementRetractReq b in Ok (StatementRetract r)
  | Opcode.StatementHistoryReq =>
    let? r := from_cbor_bytes Opcode.StatementHistoryReq b in Ok (StatementHistory r)
  | Opcode.StatementListReq =>
    let? r := from_cbor_bytes Opcode.StatementListReq b in Ok (StatementList r)
  | Opcode.RelationCreateReq =>
    let? r := from_cbor_bytes Opcode.RelationCreateReq b in Ok (RelationCreate r)
  | Opcode.RelationGetReq =>
    let? r := from_cbor_bytes Opcode.RelationGetReq b in Ok (RelationGet r)
  | Opcode.RelationSupersedeReq =>
    let? r := from_cbor_bytes Opcode.RelationSupersedeReq b in Ok (RelationSupersede r)
  | Opcode.RelationTombstoneReq =>
    let? r := from_cbor_bytes Opcode.RelationTombstoneReq b in Ok (RelationTombstone r)
  | Opcode.RelationListFromReq =>
    let? r := from_cbor_bytes Opcode.RelationListFromReq b in Ok (RelationListFrom r)
  | Opcode.RelationListToReq =>
    let? r := from_cbor_bytes Opcode.RelationListToReq b in Ok (RelationListTo r)
  | Opcode.RelationTraverseReq =>
    let? r := from_cbor_bytes Opcode.RelationTraverseReq b in Ok (RelationTraverse r)
  | Opcode.SchemaUploadReq =>
    let? r := from_cbor_bytes Opcode.SchemaUploadReq b in Ok (SchemaUpload r)
  | Opcode.SchemaGetReq =>
    let? r := from_cbor_bytes Opcode.SchemaGetReq b in Ok (SchemaGet r)
  | Opcode.SchemaListReq =>
    let? r := from_cbor_bytes Opcode.SchemaListReq b in Ok (SchemaList r)
  | Opcode.SchemaValidateReq =>
    let? r := from_cbor_bytes Opcode.SchemaValidateReq b in Ok (SchemaValidate r)
  | Opcode.SchemaReplaceReq =>
    let? r := from_cbor_bytes Opcode.SchemaReplaceReq b in Ok (SchemaReplace r)
  | Opcode.SchemaDropReq =>
    let? r := from_cbor_bytes Opcode.SchemaDropReq b in Ok (SchemaDrop r)
  | Opcode.ExtractorListReq =>
    let? r := from_cbor_bytes Opcode.ExtractorListReq b in Ok (ExtractorList r)
  | Opcode.QueryExplainReq =>
    let? r := from_cbor_bytes Opcode.QueryExplainReq b in Ok (QueryExplain r)
  | Opcode.QueryTraceReq =>
    let? r := from_cbor_bytes Opcode.QueryTraceReq b in Ok (QueryTrace r)
  | Opcode.MaterializeProceduralReq =>
    let? r := from_cbor_bytes Opcode.MaterializeProceduralReq b in Ok (MaterializeProcedural r)
  | Opcode.SpaceCreateReq =>
    let? r := from_cbor_bytes Opcode.SpaceCreateReq b in Ok (SpaceCreate r)
  | Opcode.SpaceListReq =>
    let? r := from_cbor_bytes Opcode.SpaceListReq b in Ok (SpaceList r)
  | Opcode.SpaceDeleteReq =>
    let? r := from_cbor_bytes Opcode.SpaceDeleteReq b in Ok (SpaceDelete r)
  | Opcode.SessionCreateReq =>
    let? r := from_cbor_bytes Opcode.SessionCreateReq b in Ok (SessionCreate r)
  | Opcode.SessionListReq =>
    let? r := from_cbor_bytes Opcode.SessionListReq b in Ok (SessionList r)
  | Opcode.SessionDeleteReq =>
    let? r := from_cbor_bytes Opcode.SessionDeleteReq b in Ok (SessionDelete r)
  | other => Err (ProtocolError.UnknownOpcode (Opcode.as_u16 other))
  end.
End decode.

Definition act_as_of (b : RequestBody) : option ActAs :=
  match b with
  | Encode r | Plan r | Reason r | MemoryList r | MemoryInspect r | GraphFetch r
  | EntityCreate r | EntityGet r | EntityList r | EntityResolve r | StatementCreate r
  | StatementGet r | StatementList r | RelationCreate r | RelationGet r | RelationListFrom r
  | RelationListTo r | RelationTraverse r | SpaceCreate r | SpaceList r | SpaceDelete r
  | SessionCreate r | SessionList r | SessionDelete r | GetCapabilities r | SchemaUpload r
  | SchemaValidate r | SchemaReplace r | SchemaDrop r | EntityUpdate r | EntityRename r
  | EntityMerge r | EntityUnmerge r | EntityTombstone r | StatementSupersede r
  | StatementTombstone r | StatementRetract r | StatementHistory r | RelationSupersede r
  | RelationTombstone r | ExtractorList r | QueryExplain r | QueryTrace r
  | MaterializeProcedural r => d_act_as r
  | Recall r => recall_act_as r
  | Forget r => forget_act_as r
  | Link r => link_act_as r
  | Unlink r => unlink_act_as r
  | Subscribe r => subscribe_act_as r
  | TxnBegin r => begin_act_as r
  | SchemaGet r => sg_act_as r
  | SchemaList r => sl_act_as r
  | EncodeVectorDirect r => evd_act_as r
  | Hello _ | Auth _ | Unsubscribe _ | TxnCommit _ | TxnAbort _ | CancelStream _ | Ping _
  | ClientPong _ | Bye _ | AdminStats _ | AdminSnapshot _ | AdminRestore _
  | AdminIntegrityCheck _ | AdminMigrateEmbeddings _ | AdminCreateSession _
  | AdminRenameSession _ | AdminMoveMemory _ | AdminReclassify _ | AdminListTombstoned _
  | AdminListPendingContradictions _ | AdminBackfill _ | AdminBackfillCancel _ => None
  end.
End RequestBody.

(** ** Permissions *)

Definition perm_ENCODE : Z := Z.shiftl 1 0.
Definition perm_RECALL : Z := Z.shiftl 1 1.
Definition perm_FORGET : Z := Z.shiftl 1 2.
Definition perm_LINK : Z := Z.shiftl 1 3.
Definition perm_SCHEMA_UPLOAD : Z := Z.shiftl 1 4.
Definition perm_ADMIN : Z := Z.shiftl 1 5.
Definition perm_ACT_AS : Z := Z.shiftl 1 6.
Definition STANDARD_SPACE : Z :=
  Z.lor (Z.lor (Z.lor perm_ENCODE perm_RECALL) perm_FORGET) perm_LINK.
Definition DELEGABLE : Z := Z.lor perm_SCHEMA_UPLOAD perm_ADMIN.

(** The permission bit of a request and its name, or [None] where the code
    returns without a check. *)
Definition required_permission (req : RequestBody.RequestBody) : option (Z * string) :=
  match req with
  | RequestBody.Encode _
    => Some (perm_ENCODE, "ENCODE"%string)
  | RequestBody.EncodeVectorDirect _
    => Some (perm_ENCODE, "ENCODE_VECTOR_DIRECT"%string)
  | RequestBody.Recall _ | RequestBody.Plan _ | RequestBody.Reason _
    => Some (perm_RECALL, "RECALL"%string)
  | RequestBody.Forget _
    => Some (perm_FORGET, "FORGET"%string)
  | RequestBody.Link _ | RequestBody.Unlink _
    => Some (perm_LINK, "LINK"%string)
  | RequestBody.MemoryList _
    => Some (perm_RECALL, "MEMORY_LIST"%string)
  | RequestBody.MemoryInspect _
    => Some (perm_RECALL, "MEMORY_INSPECT"%string)
  | RequestBody.Subscribe _ | RequestBody.Unsubscribe _ | RequestBody.CancelStream _
    => Some (perm_RECALL, "SUBSCRIBE"%string)
  | RequestBody.TxnBegin _ | RequestBody.TxnCommit _ | RequestBody.TxnAbort _
    => Some (perm_ENCODE, "TXN"%string)
  | RequestBody.SchemaUpload _
    => Some (perm_SCHEMA_UPLOAD, "SCHEMA_UPLOAD"%string)
  | RequestBody.SchemaReplace _
    => Some (perm_ADMIN, "SCHEMA_REPLACE"%string)
  | RequestBody.SchemaDrop _
    => Some (perm_ADMIN, "SCHEMA_DROP"%string)
  | RequestBody.SchemaGet _ | RequestBody.SchemaList _ | RequestBody.SchemaValidate _
    => Some (perm_RECALL, "SCHEMA_READ"%string)
  | RequestBody.EntityCreate _ | RequestBody.EntityUpdate _ | RequestBody.EntityRename _
  | RequestBody.EntityMerge _ | RequestBody.EntityUnmerge _ | RequestBody.StatementCreate _
  | RequestBody.StatementSupersede _ | RequestBody.StatementRetract _
  | RequestBody.RelationCreate _ | RequestBody.RelationSupersede _
    => Some (perm_ENCODE, "GRAPH_WRITE"%string)
  | RequestBody.EntityTombstone _ | RequestBody.StatementTombstone _
  | RequestBody.RelationTombstone _
    => Some (perm_FORGET, "GRAPH_TOMBSTONE"%string)
  | RequestBody.EntityGet _ | RequestBody.EntityList _ | RequestBody.EntityResolve _
  | RequestBody.StatementGet _ | RequestBody.StatementHistory _ | RequestBody.StatementList _
  | RequestBody.RelationGet _ | RequestBody.RelationListFrom _ | RequestBody.RelationListTo _
  | RequestBody.RelationTraverse _ | RequestBody.QueryExplain _ | RequestBody.QueryTrace _
  | RequestBody.GraphFetch _ | RequestBody.MaterializeProcedural _
    => Some (perm_RECALL, "GRAPH_READ"%string)
  | RequestBody.SpaceCreate _ | RequestBody.SessionCreate _
    => Some (perm_ENCODE, "REGISTRY_CREATE"%string)
  | RequestBody.SpaceList _ | RequestBody.SessionList _
    => Some (perm_RECALL, "REGISTRY_LIST"%string)
  | RequestBody.SpaceDelete _ | RequestBody.SessionDelete _
    => Some (perm_FORGET, "REGISTRY_DELETE"%string)
  | RequestBody.ExtractorList _
    => Some (perm_ADMIN, "EXTRACTOR_ADMIN"%string)
  | RequestBody.AdminStats _ | RequestBody.AdminSnapshot _ | RequestBody.AdminRestore _
  | RequestBody.AdminIntegrityCheck _ | RequestBody.AdminMigrateEmbeddings _
  | RequestBody.AdminCreateSession _ | RequestBody.AdminRenameSession _
  | RequestBody.AdminMoveMemory _ | RequestBody.AdminReclassify _
  | RequestBody.AdminListTombstoned _ | RequestBody.AdminListPendingContradictions _
  | RequestBody.AdminBackfill _ | RequestBody.AdminBackfillCancel _
    => Some (perm_ADMIN, "ADMIN"%string)
  | RequestBody.Hello _ | RequestBody.Auth _ | RequestBody.Bye _ | RequestBody.Ping _
  | RequestBody.ClientPong _
    => None
  | RequestBody.GetCapabilities _
    => None
  end.
