(* ===== verification/Access.v ===== *)
(** Who a request runs as ([brain-server/src/network/auth.rs], the callers and
    gates of [brain-ops/src/dispatch.rs], [brain-ops/src/error.rs], and the key
    store and namespace registry of [brain-metadata]).

    The key store is a redb file with two tables; a storage error is an
    argument of the operations that the connection layer recovers from.  The
    hash, the UUID and the base64 crate are parameters ([Crates]); nothing is
    assumed about them. *)

From stdpp Require Import gmap.
From S2P Require Import Prelude Utf8 Wire Opcode Request.

(** ** Errors of operations *)

Inductive WriterError := WOverloaded | WConflict (s : string) | WInternal (s : string).

Inductive PlanError :=
| QueryTooExpensive
| InvalidParameters
| PlanUnsupported (s : string).

Inductive ExecError :=
| EmbedFailed | IndexSearchFailed | MetadataReadFailed | ExecUnsupported | ExecInternal
| ExecMemoryNotFound
| WriterFailed (e : WriterError).

Module OpError.
Inductive OpError :=
| InvalidRequest (s : string)
| NotFound (what detail : string)
| LlmCredentialMissing (namespace detail : string)
| Conflict (s : string)
| QuotaExceeded (s : string)
| Unauthorized (s : string)
| Overloaded (s : string)
| TooManyMemories
| TransactionTooLarge (ops cap : Z)
| PredicateNotInSchema (predicate namespace : string) (version : Z)
| SchemaConflict (kind name namespace conflict : string)
| RelationTypeNotInSchema (type_name namespace : string) (version : Z)
| CardinalityViolation (relation_type kind : string) (existing limit : Z)
| TxnExpired
| TxnNotFound
| NotYetImplemented (s : string)
| Plan (e : PlanError)
| Exec (e : ExecError)
| RetrievalUnavailable (s : string)
| CapabilityNotEnabled (capability : string)
| Internal (s : string).
End OpError.

(** [brain_ops::error::ErrorCode]. *)
Module OpCode.
Inductive ErrorCode :=
| InvalidRequest | NotFound | EntityNotFound | StatementNotFound | QuotaExceeded | Unauthorized
| Conflict | TxnExpired | TxnNotFound | TransactionTooLarge | PredicateNotInSchema
| RelationTypeNotInSchema | CardinalityViolation | LlmCredentialMissing | Overloaded
| RetrievalUnavailable | InternalError.
End OpCode.

Definition error_code (e : OpError.OpError) : OpCode.ErrorCode :=
  match e with
  | OpError.InvalidRequest _ | OpError.TooManyMemories | OpError.SchemaConflict _ _ _ _ =>
    OpCode.InvalidRequest
  | OpError.NotFound what _ =>
    if decide (what = "entity" \/ what = "subject entity")%string then OpCode.EntityNotFound
    else if decide (what = "statement"%string) then OpCode.StatementNotFound
    else OpCode.NotFound
  | OpError.Conflict _ => OpCode.Conflict
  | OpError.LlmCredentialMissing _ _ => OpCode.LlmCredentialMissing
  | OpError.TxnExpired => OpCode.TxnExpired
  | OpError.TxnNotFound => OpCode.TxnNotFound
  | OpError.TransactionTooLarge _ _ => OpCode.TransactionTooLarge
  | OpError.PredicateNotInSchema _ _ _ => OpCode.PredicateNotInSchema
  | OpError.RelationTypeNotInSchema _ _ _ => OpCode.RelationTypeNotInSchema
  | OpError.CardinalityViolation _ _ _ _ => OpCode.CardinalityViolation
  | OpError.QuotaExceeded _ => OpCode.QuotaExceeded
  | OpError.Unauthorized _ => OpCode.Unauthorized
  | OpError.Overloaded _ => OpCode.Overloaded
  | OpError.RetrievalUnavailable _ => OpCode.RetrievalUnavailable
  | OpError.CapabilityNotEnabled _ => OpCode.InvalidRequest
  | OpError.NotYetImplemented _ | OpError.Internal _ => OpCode.InternalError
  | OpError.Plan (QueryTooExpensive | InvalidParameters) => OpCode.InvalidRequest
  | OpError.Plan (PlanUnsupported _) => OpCode.InternalError
  | OpError.Exec (EmbedFailed | IndexSearchFailed | MetadataReadFailed | ExecUnsupported
                  | ExecInternal) => OpCode.InternalError
  | OpError.Exec ExecMemoryNotFound => OpCode.NotFound
  | OpError.Exec (WriterFailed WOverloaded) => OpCode.Overloaded
  | OpError.Exec (WriterFailed (WConflict _)) => OpCode.Conflict
  | OpError.Exec (WriterFailed (WInternal _)) => OpCode.InternalError
  end.

Definition retryable (e : OpError.OpError) : bool :=
  match e with
  | OpError.Overloaded _ | OpError.Exec (WriterFailed WOverloaded) => true
  | _ => false
  end.

(** The wire code of an operation's error and its [retry_after_ms]
    ([error_frame_from_op_error]). *)
Definition wire_code (c : OpCode.ErrorCode) : ErrorCode.ErrorCode * option Z :=
  match c with
  | OpCode.InvalidRequest => (ErrorCode.InvalidArgument, None)
  | OpCode.NotFound => (ErrorCode.MemoryNotFound, None)
  | OpCode.EntityNotFound => (ErrorCode.EntityNotFound, None)
  | OpCode.StatementNotFound => (ErrorCode.StatementNotFound, None)
  | OpCode.QuotaExceeded => (ErrorCode.RateLimited, None)
  | OpCode.Unauthorized => (ErrorCode.PermissionDenied, None)
  | OpCode.Conflict => (ErrorCode.IdempotencyConflict, None)
  | OpCode.TxnExpired => (ErrorCode.TransactionTimeout, None)
  | OpCode.TxnNotFound => (ErrorCode.TxnNotFound, None)
  | OpCode.TransactionTooLarge => (ErrorCode.TransactionTooLarge, None)
  | OpCode.PredicateNotInSchema => (ErrorCode.PredicateNotInSchema, None)
  | OpCode.RelationTypeNotInSchema => (ErrorCode.RelationTypeNotInSchema, None)
  | OpCode.CardinalityViolation => (ErrorCode.CardinalityViolation, None)
  | OpCode.LlmCredentialMissing => (ErrorCode.LlmCredentialMissing, None)
  | OpCode.Overloaded => (ErrorCode.Overloaded, Some 1000)
  | OpCode.RetrievalUnavailable => (ErrorCode.ShardUnavailable, None)
  | OpCode.InternalError => (ErrorCode.Internal, None)
  end.

(** ** Callers *)

Record RequestCaller := {
  rc_space_id : Z;
  rc_org_id : Z;
  rc_user_id : Z;
  rc_namespace : string;
  rc_permissions : Z;
  rc_space_string : string;
  rc_connection_id : Z;
}.

Definition from_scope (space_id org_id user_id : Z) (namespace : string) (permissions : Z)
  : RequestCaller :=
  {| rc_space_id := space_id; rc_org_id := org_id; rc_user_id := user_id;
     rc_namespace := namespace; rc_permissions := permissions; rc_space_string := "";
     rc_connection_id := 0 |}.

Definition with_session_id (connection_id : Z) (c : RequestCaller) : RequestCaller :=
  {| rc_space_id := rc_space_id c; rc_org_id := rc_org_id c; rc_user_id := rc_user_id c;
     rc_namespace := rc_namespace c; rc_permissions := rc_permissions c;
     rc_space_string := rc_space_string c; rc_connection_id := connection_id |}.

Definition with_space_string (space_string : string) (c : RequestCaller) : RequestCaller :=
  {| rc_space_id := rc_space_id c; rc_org_id := rc_org_id c; rc_user_id := rc_user_id c;
     rc_namespace := rc_namespace c; rc_permissions := rc_permissions c;
     rc_space_string := space_string; rc_connection_id := rc_connection_id c |}.

Definition allows (c : RequestCaller) (op : Z) : bool := Z.land (rc_permissions c) op =? op.

Definition require (c : RequestCaller) (op : Z) (what : string) : result unit OpError.OpError :=
  if allows c op then Ok tt
  else Err (OpError.Unauthorized ("API key lacks permission: " +:+ what)).

(** The message is the one of the source without the quotes of its debug form. *)
Definition require_namespace (c : RequestCaller) (claimed what : string)
  : result unit OpError.OpError :=
  if bool_decide (rc_namespace c = "" \/ claimed = "" \/ rc_namespace c = claimed) then Ok tt
  else Err (OpError.Unauthorized (what +:+ ": API key is bound to namespace "
              +:+ rc_namespace c +:+ ", not " +:+ claimed)).

Definition enforce_permission (c : RequestCaller) (req : RequestBody.RequestBody)
  : result unit OpError.OpError :=
  match required_permission req with
  | Some (op_bit, what) => require c op_bit what
  | None => Ok tt
  end.

Definition SYSTEM_SCHEMA_NAMESPACE : string := "brain".

Definition enforce_namespace (c : RequestCaller) (req : RequestBody.RequestBody)
  : result unit OpError.OpError :=
  if bool_decide (rc_namespace c = "") then Ok tt else
  let target :=
    match req with
    | RequestBody.SchemaGet r => Some (sg_namespace r)
    | RequestBody.SchemaList r => Some (sl_namespace r)
    | _ => None
    end in
  match target with
  | Some ns =>
    if negb (bool_decide (ns = SYSTEM_SCHEMA_NAMESPACE))
    then require_namespace c ns "namespace" else Ok tt
  | None => Ok tt
  end.

(** ** Namespace registry *)

Record NamespaceDefinition := {
  nd_namespace_id : Z;
  nd_name : string;
  nd_created_at : Z;
}.

Record Namespaces := {
  NAMESPACES_TABLE : gmap Z NamespaceDefinition;
  NAMESPACE_BY_NAME_TABLE : gmap string Z;
}.

Definition namespace_lookup_by_name (t : Namespaces) (name : string) : option Z :=
  NAMESPACE_BY_NAME_TABLE t !! name.

Definition write_namespace_row (t : Namespaces) (id : Z) (name : string) (now : Z) : Namespaces :=
  {| NAMESPACES_TABLE :=
       <[id := {| nd_namespace_id := id; nd_name := name; nd_created_at := now |}]>
         (NAMESPACES_TABLE t);
     NAMESPACE_BY_NAME_TABLE := <[name := id]> (NAMESPACE_BY_NAME_TABLE t) |}.

(** The largest id of the table, or 0. *)
Definition max_namespace_id (t : Namespaces) : Z :=
  map_fold (fun id _ max => if max <? id then id else max) 0 (NAMESPACES_TABLE t).

(** [None]: the panic when the ids are used up. *)
Definition namespace_intern_or_get (t : Namespaces) (name : string) (now : Z)
  : option (Z * Namespaces) :=
  if bool_decide (name = SYSTEM_SCHEMA_NAMESPACE) then Some (0, t) else
  match namespace_lookup_by_name t name with
  | Some existing => Some (existing, t)
  | None =>
    let max := max_namespace_id t in
    if max + 1 <=? U32_MAX then
      let id := max + 1 in Some (id, write_namespace_row t id name now)
    else None
  end.

Definition seed_system_namespace (t : Namespaces) (now : Z) : Namespaces :=
  match namespace_lookup_by_name t SYSTEM_SCHEMA_NAMESPACE with
  | Some _ => t
  | None => write_namespace_row t 0 SYSTEM_SCHEMA_NAMESPACE now
  end.

(** ** Key store *)

(** [blake3::hash] (32 bytes), [Uuid::new_v5] of a namespace UUID and a name,
    and the URL-safe base64 decoder without padding. *)
Class Crates := {
  blake3 : bytes -> bytes;
  new_v5 : Z -> string -> Z;
  base64_decode : bytes -> option bytes;
}.

Record ApiKeyRow := {
  key_hash : Z;
  org_id : Z;
  user_id : Z;
  namespace : string;
  space_id : Z;
  permissions : Z;
  may_act : list string;
  created_at : Z;
  last_used_at : Z;
  revoked : bool;
}.

Record ApiKeyDb := {
  API_KEYS_TABLE : gmap Z ApiKeyRow;
  API_KEYS_BY_SPACE_TABLE : gset (Z * Z);
  registry : Namespaces;
}.

Inductive ApiKeyError := StorageError | Duplicate.

Definition set_revoked (r : ApiKeyRow) : ApiKeyRow :=
  {| key_hash := key_hash r; org_id := org_id r; user_id := user_id r;
     namespace := namespace r; space_id := space_id r; permissions := permissions r;
     may_act := may_act r; created_at := created_at r; last_used_at := last_used_at r;
     revoked := true |}.

Definition set_last_used (now : Z) (r : ApiKeyRow) : ApiKeyRow :=
  {| key_hash := key_hash r; org_id := org_id r; user_id := user_id r;
     namespace := namespace r; space_id := space_id r; permissions := permissions r;
     may_act := may_act r; created_at := created_at r; last_used_at := now;
     revoked := revoked r |}.

Definition set_rows (t : gmap Z ApiKeyRow) (db : ApiKeyDb) : ApiKeyDb :=
  {| API_KEYS_TABLE := t; API_KEYS_BY_SPACE_TABLE := API_KEYS_BY_SPACE_TABLE db;
     registry := registry db |}.

Section keys.
Context `{Crates}.

Definition hash_secret (secret : bytes) : Z := from_be_bytes (blake3 secret).

(** The write transaction of a mint: it commits only when the function returns
    [Ok], so a duplicate leaves the store as it was.  [None]: the panic of the
    registry. *)
Definition api_key_create (db : ApiKeyDb) (secret : bytes) (org user : Z) (ns : string)
    (space perms : Z) (act : list string) (now : Z)
  : option (result ApiKeyRow ApiKeyError * ApiKeyDb) :=
  let h := hash_secret secret in
  let row := {| key_hash := h; org_id := org; user_id := user; namespace := ns;
                space_id := space; permissions := perms; may_act := act; created_at := now;
                last_used_at := 0; revoked := false |} in
  match
    (if bool_decide (ns = "") then Some (registry db)
     else snd <$> namespace_intern_or_get (registry db) ns now)
  with
  | None => None
  | Some reg =>
    match API_KEYS_TABLE db !! h with
    | Some _ => Some (Err Duplicate, db)
    | None =>
      Some (Ok row,
        {| API_KEYS_TABLE := <[h := row]> (API_KEYS_TABLE db);
           API_KEYS_BY_SPACE_TABLE := {[ (space, h) ]} ∪ API_KEYS_BY_SPACE_TABLE db;
           registry := reg |})
    end
  end.

Definition api_key_lookup_by_hash (db : ApiKeyDb) (h : Z) : option ApiKeyRow :=
  API_KEYS_TABLE db !! h.

Definition api_key_lookup_by_secret (db : ApiKeyDb) (secret : bytes) : option ApiKeyRow :=
  api_key_lookup_by_hash db (hash_secret secret).

Definition api_key_revoke (db : ApiKeyDb) (h : Z) : bool * ApiKeyDb :=
  match API_KEYS_TABLE db !! h with
  | None => (false, db)
  | Some row =>
    (true, if revoked row then db else set_rows (<[h := set_revoked row]> (API_KEYS_TABLE db)) db)
  end.

Definition api_key_touch_last_used (db : ApiKeyDb) (h now : Z) : bool * ApiKeyDb :=
  match API_KEYS_TABLE db !! h with
  | None => (false, db)
  | Some row =>
    (true, if last_used_at row <? now
           then set_rows (<[h := set_last_used now row]> (API_KEYS_TABLE db)) db else db)
  end.

(** [AuthStore::lookup] and [AuthStore::is_key_active]; [io] is whether the
    read fails. *)
Definition lookup (db : ApiKeyDb) (secret : bytes) (io : bool)
  : result (option ApiKeyRow) ApiKeyError :=
  if io then Err StorageError else Ok (api_key_lookup_by_secret db secret).

Definition is_key_active (db : ApiKeyDb) (h : Z) (io : bool) : result bool ApiKeyError :=
  if io then Err StorageError else
  match api_key_lookup_by_hash db h with
  | Some row => Ok (negb (revoked row))
  | None => Ok false
  end.
End keys.

(** ** Scopes *)

(** [RequestScope], projected from the key row ([ResolvedScope::from_row],
    [RequestScope::from_resolved]). *)
Record RequestScope := {
  sc_space_id : Z;
  sc_org_id : Z;
  sc_user_id : Z;
  sc_namespace : string;
  sc_permissions : Z;
  sc_may_act : list string;
  sc_key_hash : Z;
}.

Definition scope_from_row (row : ApiKeyRow) : RequestScope :=
  {| sc_space_id := space_id row; sc_org_id := org_id row; sc_user_id := user_id row;
     sc_namespace := namespace row; sc_permissions := permissions row;
     sc_may_act := may_act row; sc_key_hash := key_hash row |}.

Record SpacePermissions := {
  can_encode : bool;
  can_recall : bool;
  can_plan : bool;
  can_reason : bool;
  can_forget : bool;
  can_admin : bool;
  can_act_as : bool;
}.

Definition to_space_permissions (s : RequestScope) : SpacePermissions :=
  let has b := negb (Z.land (sc_permissions s) b =? 0) in
  {| can_encode := has perm_ENCODE; can_recall := has perm_RECALL; can_plan := has perm_RECALL;
     can_reason := has perm_RECALL; can_forget := has perm_FORGET; can_admin := has perm_ADMIN;
     can_act_as := has perm_ACT_AS |}.

Definition to_caller (s : RequestScope) (connection_id : Z) : RequestCaller :=
  with_session_id connection_id
    (from_scope (sc_space_id s) (sc_org_id s) (sc_user_id s) (sc_namespace s) (sc_permissions s)).

Definition delegated_permissions (delegator_permissions grant : Z) : Z :=
  Z.lor STANDARD_SPACE (Z.land (Z.land grant delegator_permissions) DELEGABLE).

(** The complement of a [u32] mask. *)
Definition not32 (x : Z) : Z := Z.lxor x U32_MAX.

Definition act_as_grant_violation (delegator_permissions grant : Z) : option string :=
  if negb (Z.land grant (not32 DELEGABLE) =? 0) then
    Some "act_as: grant names a permission bit that cannot be delegated"%string
  else if negb (Z.land grant (not32 delegator_permissions) =? 0) then
    Some "act_as: grant exceeds the connection principal's own permissions"%string
  else None.

Inductive AuthError :=
| Missing
| Unknown
| Revoked
| UnsupportedMethod
| Storage (e : ApiKeyError).

Section scope.
Context `{Crates}.

Definition BRAIN_ROOT_NAMESPACE_UUID : Z := 0x6b7261696e2d73706163652d726f6f74.

Definition derive_from_string (ns space_string : string) : Z :=
  new_v5 (new_v5 BRAIN_ROOT_NAMESPACE_UUID ns) space_string.

Definition effective_space (s : RequestScope) (a : ActAs) : Z :=
  if bool_decide (aa_space a = "") then sc_space_id s
  else derive_from_string (aa_namespace a) (aa_space a).

Definition to_effective_caller (s : RequestScope) (a : ActAs) (connection_id : Z)
  : RequestCaller :=
  with_space_string (aa_space a)
    (with_session_id connection_id
      (from_scope (effective_space s a) (sc_org_id s) (sc_user_id s) (aa_namespace a)
        (delegated_permissions (sc_permissions s) (aa_grant a)))).

(** The bytes of the prefix that marks a formatted key. *)
Definition BRAIN_PREFIX : bytes := byte_of <$> [98; 114; 97; 105; 110; 95].

Definition parse_formatted_key (s : bytes) : option bytes :=
  if bool_decide (take 6 s = BRAIN_PREFIX) then base64_decode (drop 6 s) else None.

Definition derive_scope_from_handshake (auth : AuthPayload) (store : ApiKeyDb) (io : bool)
  : result RequestScope AuthError :=
  match method auth, credentials auth with
  | Token, CredToken token =>
    if bool_decide (token = []) then Err Missing else
    let decoded := if utf8_valid token then parse_formatted_key token else None in
    let secret := default token decoded in
    let? found := map_err Storage (lookup store secret io) in
    let? row := ok_or found Unknown in
    if revoked row then Err Revoked else Ok (scope_from_row row)
  | Mtls, _ | _, CredMtls _ => Err UnsupportedMethod
  end.
End scope.

Definition check_act_as (s : RequestScope) (a : ActAs)
  : result unit (ErrorCode.ErrorCode * string) :=
  if Z.land (sc_permissions s) perm_ACT_AS =? 0 then
    Err (ErrorCode.ActAsDenied, "act_as: connection principal lacks the ACT_AS grant"%string)
  else if negb (existsb (fun ns => bool_decide (ns = "*"%string \/ ns = aa_namespace a))
                  (sc_may_act s)) then
    Err (ErrorCode.ActAsDenied,
         "act_as: target namespace is not in the principal's may_act allowlist"%string)
  else match act_as_grant_violation (sc_permissions s) (aa_grant a) with
       | Some message => Err (ErrorCode.ActAsDenied, message)
       | None => Ok tt
       end.

(** ** Permission masks *)

Lemma uint_testbit_high w x i : 0 <= w -> uint w x -> w <= i -> Z.testbit x i = false.
Proof.
  intros Hw [H0 H1] Hi. destruct (decide (x = 0)) as [->|]; [apply Z.bits_0|].
  apply Z.bits_above_log2; [done|]. assert (Z.log2 x < w) by (apply Z.log2_lt_pow2; lia). lia.
Qed.

(** A [u32] without bits outside a mask is inside it. *)
Lemma land_not32 g m : u32 g -> Z.land g (not32 m) = 0 -> Z.land g m = g.
Proof.
  intros Hg Hz. apply Z.bits_inj'. intros i Hi. rewrite Z.land_spec.
  destruct (decide (i < 32)) as [Hlt|]; cycle 1.
  { by rewrite (uint_testbit_high 32 g i) by (done || lia). }
  assert (Z.testbit (Z.land g (not32 m)) i = false) as Hb by (by rewrite Hz, Z.bits_0).
  unfold not32 in Hb. rewrite Z.land_spec, Z.lxor_spec in Hb.
  replace (Z.testbit U32_MAX i) with true in Hb
    by (symmetry; apply (Z.ones_spec_low 32 i); lia).
  by destruct (Z.testbit g i), (Z.testbit m i).
Qed.

Lemma delegated_no_act_as d g : Z.land (delegated_permissions d g) perm_ACT_AS = 0.
Proof.
  unfold delegated_permissions. rewrite Z.land_lor_distr_l, <- (Z.land_assoc _ DELEGABLE).
  change (Z.land DELEGABLE perm_ACT_AS) with 0. by rewrite Z.land_0_r.
Qed.

(** A grant that passes the check is added as it is. *)
Lemma grant_accepted d g :
  u32 g -> act_as_grant_violation d g = None ->
  Z.land g DELEGABLE = g /\ Z.land g d = g /\ delegated_permissions d g = Z.lor STANDARD_SPACE g.
Proof.
  intros Hg. unfold act_as_grant_violation.
  destruct (Z.eqb_spec (Z.land g (not32 DELEGABLE)) 0) as [E1|]; [|done]. cbn [negb].
  destruct (Z.eqb_spec (Z.land g (not32 d)) 0) as [E2|]; [|done]. intros _.
  apply land_not32 in E1; [|done]. apply land_not32 in E2; [|done].
  split_and!; [done..|]. unfold delegated_permissions. by rewrite E2, E1.
Qed.

(** ** The key store *)

Section store.
Context `{Crates}.

(** What the server does to the store: mint, revoke, touch. *)
Inductive key_op :=
| KMint (secret : bytes) (org user : Z) (ns : string) (space perms : Z) (act : list string) (now : Z)
| KRevoke (h : Z)
| KTouch (h now : Z).

Definition key_step (db : ApiKeyDb) (op : key_op) : option ApiKeyDb :=
  match op with
  | KMint secret org user ns space perms act now =>
    snd <$> api_key_create db secret org user ns space perms act now
  | KRevoke h => Some (snd (api_key_revoke db h))
  | KTouch h now => Some (snd (api_key_touch_last_used db h now))
  end.

(** The row of a key after an operation: the same identity, revoked if it was. *)
Definition row_extends (r r' : ApiKeyRow) : Prop :=
  scope_from_row r' = scope_from_row r /\ (revoked r = true -> revoked r' = true).

Lemma key_step_rows db op db' h r :
  key_step db op = Some db' -> API_KEYS_TABLE db !! h = Some r ->
  exists r', API_KEYS_TABLE db' !! h = Some r' /\ row_extends r r'.
Proof.
  intros Hs Hr. destruct op as [sec org user ns sp perms act now|k|k now]; simpl in Hs.
  - unfold api_key_create in Hs. case_match; [|done].
    destruct (API_KEYS_TABLE db !! hash_secret sec) eqn:E; simplify_eq/=; [by exists r|].
    rewrite lookup_insert_ne by congruence. by exists r.
  - unfold api_key_revoke in Hs. destruct (API_KEYS_TABLE db !! k) as [row|] eqn:E;
      simplify_eq/=; [|by exists r].
    destruct (revoked row) eqn:Er; [by exists r|]. simpl.
    destruct (decide (h = k)) as [->|]; [|rewrite lookup_insert_ne by done; by exists r].
    simplify_eq. rewrite lookup_insert_eq. by eexists.
  - unfold api_key_touch_last_used in Hs. destruct (API_KEYS_TABLE db !! k) as [row|] eqn:E;
      simplify_eq/=; [|by exists r].
    destruct (_ <? _); [|by exists r]. simpl.
    destruct (decide (h = k)) as [->|]; [|rewrite lookup_insert_ne by done; by exists r].
    simplify_eq. rewrite lookup_insert_eq. by eexists.
Qed.
End store.
