(* ===== verification/TxnRouter.v ===== *)
(** The transaction routing table of a connection ([TxnShardRouter] of
    [brain-server/src/network/dispatch.rs]): which shard a [TXN_BEGIN] went to,
    so that the commit or abort, which carry no selector, reach the same one.

    A hash map is a [gmap], a deque a list with its front first. *)

From stdpp Require Import gmap.
From S2P Require Import Prelude.

Definition TERMINATED_TXN_ROUTE_WINDOW : nat := 256.
Definition ACTIVE_TXN_ROUTE_CAP : nat := 1024.

Inductive TxnRouteOutcomeKind := ConfirmedTerminal | BeginRejected.

Record TxnRouteOutcome := { out_txn_id : Z; out_kind : TxnRouteOutcomeKind }.

Record TxnShardRouter := {
  active : gmap Z Z;
  active_order : list Z;
  terminated : gmap Z Z;
  terminated_order : list Z;
}.

Module Router.
Definition new : TxnShardRouter :=
  {| active := ∅; active_order := []; terminated := ∅; terminated_order := [] |}.

Definition begin (r : TxnShardRouter) (txn_id shard : Z) : bool * TxnShardRouter :=
  let known := bool_decide (is_Some (active r !! txn_id)) in
  if negb known && (ACTIVE_TXN_ROUTE_CAP <=? size (active r))%nat then (false, r) else
  let order := match active r !! txn_id with
               | None => active_order r ++ [txn_id]
               | Some _ => active_order r
               end in
  let act := <[txn_id := shard]> (active r) in
  let order := if (size act * 2 + ACTIVE_TXN_ROUTE_CAP <? length order)%nat
               then filter (fun id => is_Some (act !! id)) order else order in
  (true, {| active := act; active_order := order; terminated := terminated r;
            terminated_order := terminated_order r |}).

Definition route (r : TxnShardRouter) (txn_id : Z) : option Z :=
  match active r !! txn_id with
  | Some s => Some s
  | None => terminated r !! txn_id
  end.

(** The loop that evicts from the front while the window is exceeded. *)
Fixpoint evict (order : list Z) (m : gmap Z Z) : list Z * gmap Z Z :=
  match order with
  | [] => ([], m)
  | id :: rest =>
    if (TERMINATED_TXN_ROUTE_WINDOW <? length order)%nat then evict rest (delete id m)
    else (order, m)
  end.

Definition push_terminated (r : TxnShardRouter) (txn_id shard : Z) : TxnShardRouter :=
  let inserted := <[txn_id := shard]> (terminated r) in
  match terminated r !! txn_id with
  | Some _ =>
    {| active := active r; active_order := active_order r; terminated := inserted;
       terminated_order := terminated_order r |}
  | None =>
    let '(order, m) := evict (terminated_order r ++ [txn_id]) inserted in
    {| active := active r; active_order := active_order r; terminated := m;
       terminated_order := order |}
  end.

Definition remove_active (r : TxnShardRouter) (txn_id : Z) : TxnShardRouter :=
  {| active := delete txn_id (active r); active_order := active_order r;
     terminated := terminated r; terminated_order := terminated_order r |}.

Definition confirm_terminated (r : TxnShardRouter) (txn_id : Z) : TxnShardRouter :=
  match active r !! txn_id with
  | Some shard => push_terminated (remove_active r txn_id) txn_id shard
  | None => r
  end.

Definition apply_outcome (r : TxnShardRouter) (o : TxnRouteOutcome) : TxnShardRouter :=
  match out_kind o with
  | ConfirmedTerminal => confirm_terminated r (out_txn_id o)
  | BeginRejected => remove_active r (out_txn_id o)
  end.

Definition len (r : TxnShardRouter) : nat := (size (active r) + size (terminated r))%nat.
End Router.

(** ** Runs *)

(** What a connection does to its router: a begin that is dispatched, or the
    outcome of a dispatched operation. *)
Inductive router_event :=
| EvBegin (txn_id shard : Z)
| EvOutcome (o : TxnRouteOutcome).

Definition router_step (r : TxnShardRouter) (e : router_event) : TxnShardRouter :=
  match e with
  | EvBegin id s => snd (Router.begin r id s)
  | EvOutcome o => Router.apply_outcome r o
  end.

Definition run_router : TxnShardRouter -> list router_event -> TxnShardRouter :=
  foldl router_step.

Definition begins (id : Z) (e : router_event) : Prop :=
  match e with EvBegin id' _ => id' = id | _ => False end.
Definition rejects (id : Z) (e : router_event) : Prop :=
  match e with
  | EvOutcome {| out_txn_id := id'; out_kind := BeginRejected |} => id' = id
  | _ => False
  end.
Definition confirms (id : Z) (e : router_event) : Prop :=
  match e with
  | EvOutcome {| out_txn_id := id'; out_kind := ConfirmedTerminal |} => id' = id
  | _ => False
  end.

#[global] Instance begins_dec id e : Decision (begins id e).
Proof. destruct e; simpl; apply _. Defined.
#[global] Instance rejects_dec id e : Decision (rejects id e).
Proof. destruct e as [|[? []]]; simpl; apply _. Defined.
#[global] Instance confirms_dec id e : Decision (confirms id e).
Proof. destruct e as [|[? []]]; simpl; apply _. Defined.

(** ** Invariant *)

Record router_ok (r : TxnShardRouter) : Prop := {
  ok_active : (size (active r) <= ACTIVE_TXN_ROUTE_CAP)%nat;
  ok_order : forall id, is_Some (active r !! id) -> id ∈ active_order r;
  ok_nodup : NoDup (terminated_order r);
  ok_window : (length (terminated_order r) <= TERMINATED_TXN_ROUTE_WINDOW)%nat;
  ok_dom : forall id, is_Some (terminated r !! id) <-> id ∈ terminated_order r;
}.

Lemma router_ok_new : router_ok Router.new.
Proof.
  split; simpl; [unfold ACTIVE_TXN_ROUTE_CAP; rewrite map_size_empty; lia| |constructor
    |unfold TERMINATED_TXN_ROUTE_WINDOW; lia|]; intros id; rewrite ?lookup_empty;
    [by intros []|split; [by intros []|by intros []%elem_of_nil]].
Qed.

Lemma evict_short order m :
  (length order <= TERMINATED_TXN_ROUTE_WINDOW)%nat -> Router.evict order m = (order, m).
Proof.
  intros H. destruct order as [|id order]; [done|]. cbn [Router.evict].
  by rewrite (proj2 (Nat.ltb_ge _ _)).
Qed.

(** One insertion into a full window evicts exactly the oldest entry. *)
Lemma evict_snoc order id m :
  (length order <= TERMINATED_TXN_ROUTE_WINDOW)%nat ->
  Router.evict (order ++ [id]) m =
    if (length order <? TERMINATED_TXN_ROUTE_WINDOW)%nat then (order ++ [id], m)
    else match order ++ [id] with
         | old :: rest => (rest, delete old m)
         | [] => ([], m)
         end.
Proof.
  intros Hl. destruct (Nat.ltb_spec (length order) TERMINATED_TXN_ROUTE_WINDOW).
  - apply evict_short. rewrite length_app. simpl. lia.
  - assert (length (order ++ [id]) = S TERMINATED_TXN_ROUTE_WINDOW) as Hs
      by (rewrite length_app; simpl; lia).
    destruct (order ++ [id]) as [|old rest]; [done|]. cbn [Router.evict].
    rewrite Hs, (proj2 (Nat.ltb_lt _ _)) by lia. apply evict_short. simpl in Hs. lia.
Qed.

Lemma begin_ok r id s : router_ok r -> router_ok (snd (Router.begin r id s)).
Proof.
  intros Hok. unfold Router.begin.
  destruct (negb _ && _) eqn:Ec; [done|]. cbn [snd].
  assert (size (<[id := s]> (active r)) <= ACTIVE_TXN_ROUTE_CAP)%nat as Hsize.
  { destruct (active r !! id) as [s'|] eqn:E.
    - rewrite map_size_insert_Some by done. apply Hok.
    - rewrite map_size_insert_None by done. apply andb_false_iff in Ec as [Ec|Ec].
      + by apply negb_false_iff, bool_decide_eq_true in Ec as [? [=]].
      + apply Nat.leb_gt in Ec. lia. }
  assert (forall id', is_Some (<[id := s]> (active r) !! id') ->
    id' ∈ match active r !! id with
          | None => active_order r ++ [id] | Some _ => active_order r end) as Hord.
  { intros id' Hid'. destruct (decide (id' = id)) as [->|Hne].
    - destruct (active r !! id) eqn:E; [by apply Hok|]. apply elem_of_app. right. constructor.
    - rewrite lookup_insert_ne in Hid' by done. apply Hok in Hid'.
      destruct (active r !! id); [done|]. apply elem_of_app. by left. }
  destruct Hok. split; cbn [active active_order terminated terminated_order]; try done.
  intros id' Hid'. destruct (_ <? _)%nat; [|by apply Hord].
  apply list_elem_of_filter. auto.
Qed.

Lemma remove_active_ok r id : router_ok r -> router_ok (Router.remove_active r id).
Proof.
  intros []. split; simpl; try done.
  - rewrite map_size_delete. destruct (active r !! id); unfold Datatypes.id; lia.
  - intros id' [s Hs]. apply lookup_delete_Some in Hs as [_ Hs]. eauto.
Qed.

Lemma push_terminated_ok r id s : router_ok r -> router_ok (Router.push_terminated r id s).
Proof.
  intros Hok. unfold Router.push_terminated. pose proof (ok_dom _ Hok id) as Hid.
  destruct (terminated r !! id) as [s'|] eqn:Et.
  - destruct Hok. split; simpl; try done. intros id'. rewrite <- ok_dom0.
    destruct (decide (id' = id)) as [->|]; [|by rewrite lookup_insert_ne].
    rewrite lookup_insert_eq, Et. split; eauto.
  - assert (id ∉ terminated_order r) as Hnot by (intros [? [=]]%Hid).
    assert (NoDup (terminated_order r ++ [id])) as Hnd.
    { apply NoDup_app. split_and!; [apply Hok| |apply NoDup_singleton].
      intros x Hx ->%list_elem_of_singleton. done. }
    rewrite evict_snoc by apply Hok.
    assert (forall id', is_Some (<[id := s]> (terminated r) !! id')
      <-> id' ∈ terminated_order r ++ [id]) as Hdom.
    { intros id'. rewrite elem_of_app, list_elem_of_singleton, <- (ok_dom _ Hok).
      destruct (decide (id' = id)) as [->|]; [rewrite lookup_insert_eq|rewrite lookup_insert_ne by done];
        naive_solver. }
    destruct (Nat.ltb_spec (length (terminated_order r)) TERMINATED_TXN_ROUTE_WINDOW) as [Hlt|Hge].
    + destruct Hok. split; simpl; try done. rewrite length_app. simpl. lia.
    + assert (length (terminated_order r ++ [id]) = S TERMINATED_TXN_ROUTE_WINDOW) as Hl
        by (rewrite length_app; simpl; pose proof (ok_window _ Hok); lia).
      destruct (terminated_order r ++ [id]) as [|old rest] eqn:Eo; [done|].
      apply NoDup_cons in Hnd as [Hold Hnd]. destruct Hok.
      split; simpl in *; try done; [lia|]. intros id'.
      destruct (decide (id' = old)) as [->|Hne].
      * rewrite lookup_delete_eq. split; [by intros []|done].
      * rewrite lookup_delete_ne, Hdom, elem_of_cons by done. naive_solver.
Qed.

Lemma router_step_ok r e : router_ok r -> router_ok (router_step r e).
Proof.
  intros Hok. destruct e as [id s|[id []]]; simpl; [by apply begin_ok| |by apply remove_active_ok].
  unfold Router.apply_outcome, Router.confirm_terminated. simpl. case_match; [|done].
  by apply push_terminated_ok, remove_active_ok.
Qed.

Lemma run_router_ok r evs : router_ok r -> router_ok (run_router r evs).
Proof. revert r. induction evs as [|e evs IH]; intros r Hr; simpl; auto using router_step_ok. Qed.

(** ** Routes *)

(** The route of an open transaction, and of one confirmed to be over with [k]
    confirmations since. *)
Definition open_route (r : TxnShardRouter) (id s : Z) : Prop := active r !! id = Some s.

Definition closed_route (r : TxnShardRouter) (id s : Z) (k : nat) : Prop :=
  active r !! id = None /\ terminated r !! id = Some s
  /\ exists pre post, terminated_order r = pre ++ id :: post /\ (length post <= k)%nat.

Lemma begin_other r id id' s' :
  id <> id' ->
  let r' := snd (Router.begin r id' s') in
  active r' !! id = active r !! id /\ terminated r' = terminated r
  /\ terminated_order r' = terminated_order r.
Proof.
  intros Hne. unfold Router.begin. destruct (negb _ && _); [done|]. simpl.
  by rewrite lookup_insert_ne.
Qed.

Lemma push_active r id s : active (Router.push_terminated r id s) = active r.
Proof. unfold Router.push_terminated. case_match; [done|]. by destruct (Router.evict _ _). Qed.

Definition is_confirm (e : router_event) : Prop :=
  match e with EvOutcome o => out_kind o = ConfirmedTerminal | _ => False end.

#[global] Instance is_confirm_dec e : Decision (is_confirm e).
Proof. destruct e as [|[? []]]; simpl; [apply _|left|right]; done. Defined.

Lemma open_step r e id s :
  open_route r id s -> ~ begins id e -> ~ rejects id e -> ~ confirms id e ->
  open_route (router_step r e) id s.
Proof.
  unfold open_route. intros Ho Hb Hr Hc. destruct e as [id' s'|[id' []]]; simpl in *.
  - by rewrite (proj1 (begin_other r id id' s' (not_eq_sym Hb))).
  - unfold Router.apply_outcome, Router.confirm_terminated. simpl. case_match; [|done].
    rewrite push_active. simpl. by rewrite lookup_delete_ne.
  - unfold Router.apply_outcome. simpl. by rewrite lookup_delete_ne.
Qed.

(** The confirmation of an open transaction parks its route. *)
Lemma open_confirmed r id s :
  router_ok r -> open_route r id s -> terminated r !! id = None ->
  closed_route (Router.confirm_terminated r id) id s 0.
Proof.
  unfold open_route, Router.confirm_terminated. intros Hok -> Ht.
  split; [by rewrite push_active; simpl; rewrite lookup_delete_eq|].
  unfold Router.push_terminated. simpl. rewrite Ht, evict_snoc by apply Hok.
  destruct (Nat.ltb_spec (length (terminated_order r)) TERMINATED_TXN_ROUTE_WINDOW) as [|Hge].
  - simpl. rewrite lookup_insert_eq. split; [done|]. by exists (terminated_order r), [].
  - destruct (terminated_order r) as [|old rest] eqn:Eo.
    { unfold TERMINATED_TXN_ROUTE_WINDOW in Hge. simpl in Hge. lia. }
    assert (old <> id) as Hne.
    { intros ->. assert (is_Some (terminated r !! id)) as [? Hs]
        by (apply Hok; rewrite Eo; constructor). congruence. }
    simpl. rewrite lookup_delete_ne, lookup_insert_eq by done. split; [done|]. by exists rest, [].
Qed.

Lemma closed_push r id s k id' s' :
  router_ok r -> closed_route r id s k -> id <> id' ->
  (S k < TERMINATED_TXN_ROUTE_WINDOW)%nat ->
  closed_route (Router.push_terminated r id' s') id s (S k).
Proof.
  intros Hok (Ha & Ht & pre & post & Eo & Hk) Hne Hlt.
  split; [by rewrite push_active|]. unfold Router.push_terminated.
  destruct (terminated r !! id') eqn:Et'.
  - simpl. rewrite lookup_insert_ne by done. split; [done|]. exists pre, post. split; [done|lia].
  - rewrite evict_snoc by apply Hok.
    destruct (Nat.ltb_spec (length (terminated_order r)) TERMINATED_TXN_ROUTE_WINDOW) as [|Hge].
    + simpl. rewrite lookup_insert_ne by done. split; [done|]. exists pre, (post ++ [id']).
      rewrite Eo, <- app_assoc. split; [done|]. rewrite length_app. simpl. lia.
    + destruct pre as [|old pre].
      { rewrite Eo in Hge. simpl in Hge. lia. }
      rewrite Eo. simpl.
      assert (old <> id) as Hold.
      { intros ->. pose proof (ok_nodup _ Hok) as Hnd. rewrite Eo in Hnd.
        apply NoDup_cons in Hnd as [Hnot _]. apply Hnot, elem_of_app. right. constructor. }
      rewrite lookup_delete_ne, lookup_insert_ne by done. split; [done|].
      exists pre, (post ++ [id']). rewrite <- app_assoc. split; [done|].
      rewrite length_app. simpl. lia.
Qed.

Lemma closed_step r e id s k :
  router_ok r -> closed_route r id s k -> ~ begins id e ->
  (is_confirm e -> S k < TERMINATED_TXN_ROUTE_WINDOW)%nat ->
  closed_route (router_step r e) id s (if decide (is_confirm e) then S k else k).
Proof.
  intros Hok Hc Hb Hk. assert (closed_route r id s (S k)) as Hc'.
  { destruct Hc as (? & ? & pre & post & ? & ?). repeat split; [done..|].
    exists pre, post. split; [done|lia]. }
  destruct e as [id' s'|[id' []]].
  - rewrite decide_False by (simpl; tauto). unfold closed_route.
    destruct (begin_other r id id' s' (not_eq_sym Hb)) as (Ea & Et & Eo).
    cbn [router_step]. by rewrite Ea, Et, Eo.
  - rewrite decide_True by done. cbn [router_step].
    unfold Router.apply_outcome, Router.confirm_terminated. simpl.
    destruct (active r !! id') as [s'|] eqn:Ea; [|done].
    assert (id <> id') as Hne by (destruct Hc as [Ha _]; congruence).
    apply closed_push; [by apply remove_active_ok| |done|by apply Hk]. destruct Hc as (Ha & Hc).
    split; [|done]. simpl. by rewrite lookup_delete_ne.
  - rewrite decide_False by done. destruct Hc as (Ha & Hc). split; [|done].
    simpl. apply lookup_delete_None. by right.
Qed.

Definition confirmations (evs : list router_event) : nat := length (filter is_confirm evs).

Lemma closed_run r evs id s k :
  router_ok r -> closed_route r id s k -> Forall (fun e => ~ begins id e) evs ->
  (k + confirmations evs < TERMINATED_TXN_ROUTE_WINDOW)%nat ->
  Router.route (run_router r evs) id = Some s.
Proof.
  revert r k. induction evs as [|e evs IH]; intros r k Hok Hc Hf Hlt; simpl.
  - destruct Hc as (Ha & Ht & _). unfold Router.route. by rewrite Ha.
  - apply Forall_cons in Hf as [Hb Hf]. unfold confirmations in Hlt. rewrite filter_cons in Hlt.
    eapply IH; [by apply router_step_ok| |done|].
    + apply closed_step; [done..|]. intros Hcf. rewrite decide_True in Hlt by done.
      simpl in Hlt. lia.
    + unfold confirmations. destruct (decide (is_confirm e)); simpl in *; lia.
Qed.

Lemma terminated_absent r e id s :
  open_route r id s -> terminated r !! id = None -> ~ confirms id e ->
  terminated (router_step r e) !! id = None.
Proof.
  intros Ho Ht Hc. destruct e as [id' s'|[id' []]]; simpl in *; [| |done].
  - unfold Router.begin. by destruct (negb _ && _).
  - unfold Router.apply_outcome, Router.confirm_terminated. simpl. case_match; [|done].
    unfold Router.push_terminated. simpl. case_match; simpl.
    + by rewrite lookup_insert_ne.
    + assert (forall order m, m !! id = None -> snd (Router.evict order m) !! id = None) as He.
      { induction order as [|x order IH]; intros m Hm; simpl; [done|].
        case_match; [|done]. apply IH. by rewrite lookup_delete_None; right. }
      specialize (He (terminated_order r ++ [id']) (<[id' := z]> (terminated r))).
      destruct (Router.evict _ _). apply He. by rewrite lookup_insert_ne.
Qed.

(** An open transaction keeps its route until its end is confirmed, and then
    while fewer than a window of confirmations have followed. *)
Lemma open_run r evs id s :
  router_ok r -> open_route r id s -> terminated r !! id = None ->
  Forall (fun e => ~ begins id e /\ ~ rejects id e) evs ->
  (confirmations evs <= TERMINATED_TXN_ROUTE_WINDOW)%nat ->
  Router.route (run_router r evs) id = Some s.
Proof.
  revert r. induction evs as [|e evs IH]; intros r Hok Ho Ht Hf Hn; simpl.
  - unfold Router.route. by rewrite Ho.
  - apply Forall_cons in Hf as [[Hb Hr] Hf]. unfold confirmations in Hn. rewrite filter_cons in Hn.
    destruct (decide (confirms id e)) as [Hc|Hc].
    + destruct e as [|[id' []]]; simpl in Hc; [done| |done]. subst id'.
      eapply closed_run; [by apply router_step_ok|by apply open_confirmed| |].
      * eapply Forall_impl; [done|]. by intros ? [].
      * rewrite decide_True in Hn by done. simpl in Hn. unfold confirmations. lia.
    + apply IH; [by apply router_step_ok|by apply open_step|by eapply terminated_absent|done|].
      unfold confirmations. destruct (decide (is_confirm e)); simpl in *; lia.
Qed.

Lemma open_run_unconfirmed r evs id s :
  router_ok r -> open_route r id s -> terminated r !! id = None ->
  Forall (fun e => ~ begins id e /\ ~ rejects id e /\ ~ confirms id e) evs ->
  open_route (run_router r evs) id s /\ terminated (run_router r evs) !! id = None.
Proof.
  revert r. induction evs as [|e evs IH]; intros r Hok Ho Ht Hf; simpl; [done|].
  apply Forall_cons in Hf as [(Hb & Hr & Hc) Hf].
  apply IH; [by apply router_step_ok|by apply open_step|by eapply terminated_absent|done].
Qed.

(** An accepted begin opens the route. *)
Lemma begin_opens r id s r' :
  Router.begin r id s = (true, r') -> terminated r !! id = None ->
  open_route r' id s /\ terminated r' !! id = None.
Proof.
  unfold Router.begin, open_route. destruct (negb _ && _); [done|]. intros [= <-] Ht. simpl.
  by rewrite lookup_insert_eq.
Qed.

(** An open route is kept without limit until it is confirmed, and over a window
    of confirmations from there. *)
Lemma route_kept r id s pre post :
  router_ok r -> open_route r id s -> terminated r !! id = None ->
  Forall (fun e => ~ begins id e /\ ~ rejects id e) pre ->
  Forall (fun e => ~ begins id e /\ ~ rejects id e) post ->
  Forall (fun e => ~ confirms id e) pre ->
  (confirmations post <= TERMINATED_TXN_ROUTE_WINDOW)%nat ->
  Router.route (run_router (run_router r pre) post) id = Some s.
Proof.
  intros Hok Ho Ht Hf1 Hf2 Hpre Hn.
  destruct (open_run_unconfirmed r pre id s) as [Ho' Ht']; [done..| |].
  { apply Forall_forall. intros e He. rewrite Forall_forall in Hf1, Hpre.
    destruct (Hf1 e He). auto. }
  apply open_run; [by apply run_router_ok|done..].
Qed.

(** A begin is refused only for a new id when the table is full. *)
Lemma begin_refused r id s :
  router_ok r ->
  fst (Router.begin r id s) = false <->
  active r !! id = None /\ size (active r) = ACTIVE_TXN_ROUTE_CAP.
Proof.
  intros Hok. unfold Router.begin. pose proof (ok_active _ Hok) as Hcap.
  destruct (active r !! id) as [x|] eqn:Ea.
  { rewrite bool_decide_true by eauto. split; [done|by intros []]. }
  rewrite bool_decide_false by (by intros []). cbn [negb andb].
  destruct (Nat.leb_spec ACTIVE_TXN_ROUTE_CAP (size (active r))); cbn [fst];
    split; intros Hx; [split; [done|lia]|done|done|lia].
Qed.

(** ** Theorems *)

(** Whatever a connection does, its router holds at most 1024 open and
    256 finished routes, and it refuses a begin exactly when the id is new and
    1024 routes are open. *)
Theorem txn_router_bounded evs :
  (Router.len (run_router Router.new evs)
    <= ACTIVE_TXN_ROUTE_CAP + TERMINATED_TXN_ROUTE_WINDOW)%nat
  /\ (size (active (run_router Router.new evs)) <= ACTIVE_TXN_ROUTE_CAP)%nat
  /\ forall id s, fst (Router.begin (run_router Router.new evs) id s) = false <->
       active (run_router Router.new evs) !! id = None
       /\ size (active (run_router Router.new evs)) = ACTIVE_TXN_ROUTE_CAP.
Proof.
  assert (router_ok (run_router Router.new evs)) as Hok by apply run_router_ok, router_ok_new.
  set (r := run_router _ _) in *. split; [|split; [apply Hok|by intros; apply begin_refused]].
  assert (size (terminated r) <= length (terminated_order r))%nat as Hs.
  { assert (dom (terminated r) ⊆ list_to_set (terminated_order r)) as Hsub.
    { intros id Hid. apply elem_of_list_to_set, Hok. by apply elem_of_dom. }
    apply subseteq_size in Hsub. rewrite size_list_to_set in Hsub by apply Hok.
    by rewrite size_dom in Hsub. }
  unfold Router.len. pose proof (ok_active _ Hok). pose proof (ok_window _ Hok). lia.
Qed.

(** The order queue is not bounded with the table: compaction drops only
    the ids that are not active, so an id that is begun and rejected over and
    over leaves one entry per round, with never more than one route. *)
Theorem active_order_unbounded id s n :
  let r := run_router Router.new
             (concat (replicate n [EvBegin id s;
                                   EvOutcome {| out_txn_id := id; out_kind := BeginRejected |}])) in
  length (active_order r) = n /\ Router.len r = 0%nat.
Proof.
  assert (forall r, active r = ∅ -> (forall x, x ∈ active_order r -> x = id) ->
    let r' := router_step (router_step r (EvBegin id s))
                (EvOutcome {| out_txn_id := id; out_kind := BeginRejected |}) in
    active r' = ∅ /\ active_order r' = active_order r ++ [id] /\ terminated r' = terminated r)
    as Hround.
  { intros r Hr Hall. cbn [router_step]. unfold Router.begin. rewrite Hr, lookup_empty.
    rewrite bool_decide_false by (by intros []). cbn [negb andb].
    rewrite map_size_empty, (proj2 (Nat.leb_gt _ _)) by (unfold ACTIVE_TXN_ROUTE_CAP; lia).
    cbn [snd]. unfold Router.apply_outcome, Router.remove_active.
    cbn [out_kind out_txn_id active active_order terminated terminated_order].
    rewrite delete_insert_id by apply lookup_empty. split_and!; [done| |done].
    destruct (_ <? _)%nat; [|done]. apply filter_all, Forall_forall.
    intros x [Hx| ->%list_elem_of_singleton]%elem_of_app; [apply Hall in Hx as ->|];
      rewrite lookup_insert_eq; eauto. }
  assert (forall r, active r = ∅ -> (forall x, x ∈ active_order r -> x = id) ->
    let r' := run_router r (concat (replicate n [EvBegin id s;
                EvOutcome {| out_txn_id := id; out_kind := BeginRejected |}])) in
    active r' = ∅ /\ length (active_order r') = (length (active_order r) + n)%nat
    /\ terminated r' = terminated r) as Hrun.
  { induction n as [|m IH]; intros r Hr Hall; [simpl; split_and!; [done|lia|done]|].
    destruct (Hround r Hr Hall) as (H1 & H2 & H3).
    change (concat _) with ([EvBegin id s;
      EvOutcome {| out_txn_id := id; out_kind := BeginRejected |}]
      ++ concat (replicate m [EvBegin id s;
           EvOutcome {| out_txn_id := id; out_kind := BeginRejected |}])).
    unfold run_router in *. rewrite foldl_app. cbn [foldl] in *.
    destruct (IH _ H1) as (E1 & E2 & E3).
    - rewrite H2. intros x [Hx| ->%list_elem_of_singleton]%elem_of_app; auto.
    - split_and!; [done| |by rewrite E3]. rewrite E2, H2, length_app. simpl. lia. }
  destruct (Hrun Router.new) as (E1 & E2 & E3); [done|by intros x ?%elem_of_nil|].
  cbv zeta. unfold Router.len. rewrite E1, E3. by rewrite E2.
Qed.
