(* ===== verification/Handshake.v ===== *)
(** The handshake payloads the server builds and the negotiation of the wire
    version and the capabilities ([brain-protocol/src/connection/handshake.rs]). *)

From S2P Require Import Prelude Wire Opcode Request Access.

Record ServerFeatures := {
  max_payload_size : Z;
  max_concurrent_streams : Z;
  idle_timeout_seconds : Z;
  auth_methods : list AuthMethod;
}.

Record WelcomePayload := {
  w_server_id : string;
  w_chosen_version : Z;
  w_connection_id : Z;
  w_capabilities : HelloCapabilities;
  w_server_features : ServerFeatures;
}.

Record AuthOkPayload := {
  ao_space_id : Z;
  ao_bound_shard_id : Z;
  ao_permissions : SpacePermissions;
  ao_namespace : string;
  ao_server_time_unix_nanos : Z;
}.

Record ServerCapabilities := {
  supported_versions : list Z;
  server_capabilities : HelloCapabilities;
  server_features : ServerFeatures;
  server_id : string;
}.

Definition v1_default (id : string) (methods : list AuthMethod) : ServerCapabilities :=
  {| supported_versions := [VERSION];
     server_capabilities := {| streaming := true; compression_zstd := false; server_push := false |};
     server_features := {| max_payload_size := MAX_PAYLOAD_BYTES; max_concurrent_streams := 1024;
                           idle_timeout_seconds := 300; auth_methods := methods |};
     server_id := id |}.

Record NegotiatedSession := {
  chosen_version : Z;
  capabilities : HelloCapabilities;
}.

(** [Iterator::max] of unsigned integers. *)
Fixpoint max_of (l : list Z) : option Z :=
  match l with
  | [] => None
  | v :: l => Some (match max_of l with Some m => Z.max v m | None => v end)
  end.

Definition negotiate (client : HelloPayload) (server : ServerCapabilities)
  : result NegotiatedSession ProtocolError.ProtocolError :=
  let? version :=
    ok_or (max_of (filter (fun v => v ∈ supported_versions server) (client_versions client)))
      (ProtocolError.BadVersion (default 0 (max_of (client_versions client)))
                                (default 0 (max_of (supported_versions server)))) in
  let c := client_capabilities client in
  let s := server_capabilities server in
  Ok {| chosen_version := version;
        capabilities :=
          {| streaming := streaming c && streaming s;
             compression_zstd := compression_zstd c && compression_zstd s;
             server_push := server_push c && server_push s |} |}.

Lemma max_of_spec l :
  match max_of l with
  | Some m => m ∈ l /\ forall v, v ∈ l -> v <= m
  | None => l = []
  end.
Proof.
  induction l as [|v l IH]; [done|]. simpl. destruct (max_of l) as [m|].
  - destruct IH as [Hin Hub]. split.
    + destruct (Z.max_spec v m) as [[_ ->]|[_ ->]]; [by right|by left].
    + intros w [->|Hw]%elem_of_cons; [lia|]. apply Hub in Hw. lia.
  - subst l. split; [by left|]. intros w ->%list_elem_of_singleton. lia.
Qed.

(** Negotiation picks the greatest version that both sides support, fails
    exactly when there is none, with the greatest version of each side in the
    error, and never turns on a capability that one side lacks. *)
Theorem negotiate_spec client server :
  match negotiate client server with
  | Ok n =>
    chosen_version n ∈ client_versions client /\ chosen_version n ∈ supported_versions server
    /\ (forall v, v ∈ client_versions client -> v ∈ supported_versions server ->
          v <= chosen_version n)
    /\ (streaming (capabilities n) = true <->
          streaming (client_capabilities client) = true
          /\ streaming (server_capabilities server) = true)
    /\ (compression_zstd (capabilities n) = true <->
          compression_zstd (client_capabilities client) = true
          /\ compression_zstd (server_capabilities server) = true)
    /\ (server_push (capabilities n) = true <->
          server_push (client_capabilities client) = true
          /\ server_push (server_capabilities server) = true)
  | Err e =>
    (forall v, v ∈ client_versions client -> v ∉ supported_versions server)
    /\ exists got expected, e = ProtocolError.BadVersion got expected
         /\ (forall v, v ∈ client_versions client -> v <= got)
         /\ (forall v, v ∈ supported_versions server -> v <= expected)
  end.
Proof.
  assert (forall l v, v ∈ l -> v <= default 0 (max_of l)) as Hmax.
  { intros l v Hv. pose proof (max_of_spec l) as Hm. destruct (max_of l); [by apply Hm|].
    subst l. by apply elem_of_nil in Hv. }
  unfold negotiate. set (mutual := filter _ _). pose proof (max_of_spec mutual) as Hs.
  assert (forall v, v ∈ mutual <-> v ∈ client_versions client /\ v ∈ supported_versions server)
    as Hmut by (intros v; unfold mutual; rewrite list_elem_of_filter; tauto).
  destruct (max_of mutual) as [m|]; cbn [ok_or].
  - destruct Hs as [Hin Hub]. apply Hmut in Hin as [Hc Hv]. simpl.
    rewrite !andb_true_iff. split_and!; try done. intros v H1 H2. apply Hub, Hmut. done.
  - split; [|do 2 eexists; split_and!; [done|apply Hmax..]].
    intros v H1 H2. assert (v ∈ mutual) as Hv by by apply Hmut.
    rewrite Hs in Hv. by apply elem_of_nil in Hv.
Qed.
