(* ===== verification/Routing.v ===== *)
(** Which shard serves a space or a memory ([brain-server/src/network/routing.rs]).

    The fields of a [RoutingTable] are private, so every table of the program
    is one that [RoutingTable.new] returned.  [None] is the panic of the
    assertion in [hash_space_to_shard]. *)

From stdpp Require Import gmap.
From S2P Require Import Prelude Ids Wire Request Access.

Inductive RoutingError :=
| ZeroShardCount
| OverrideOutOfRange (space shard shard_count : Z).

Record RoutingTable := {
  shard_count : Z;
  overrides : gmap Z Z;
}.

Module RoutingTable.
(** The loop over the overrides, in the order of the map's elements. *)
Definition new (count : Z) (ov : gmap Z Z) : result RoutingTable RoutingError :=
  if count =? 0 then Err ZeroShardCount else
  match filter (fun e => count <= snd e) (map_to_list ov) with
  | (space, shard) :: _ => Err (OverrideOutOfRange space shard count)
  | [] => Ok {| shard_count := count; overrides := ov |}
  end.
End RoutingTable.

Section routing.
Context `{Crates}.

Definition hash_space_to_shard (space count : Z) : option Z :=
  if 0 <? count then
    let h := blake3 (to_be_bytes 16 space) in
    let hi := from_le_bytes (slice 0 8 h) in
    Some (wrap 16 (hi mod count))
  else None.

Definition shard_for_space (t : RoutingTable) (space : Z) : option Z :=
  match overrides t !! space with
  | Some s => Some s
  | None => hash_space_to_shard space (shard_count t)
  end.
End routing.

Definition shard_for_memory (m : MemoryId) : Z := MemoryId.shard m.

(** ** Facts *)

Record table_ok (t : RoutingTable) : Prop := {
  tok_count : 0 < shard_count t;
  tok_u16 : u16 (shard_count t);
  tok_overrides : forall space s, overrides t !! space = Some s -> 0 <= s < shard_count t;
}.

Definition shards_u16 (ov : gmap Z Z) : Prop := forall space s, ov !! space = Some s -> 0 <= s.

Lemma new_table_ok count ov t :
  u16 count -> shards_u16 ov -> RoutingTable.new count ov = Ok t -> table_ok t.
Proof.
  unfold RoutingTable.new. intros [Hc Hc'] Hov. destruct (Z.eqb_spec count 0) as [|Hne]; [done|].
  destruct (filter _ _) as [|[??] ?] eqn:Ef; [|done]. intros <-%Ok_inj.
  split; simpl; [lia|done|]. intros space s Hs. split; [by eapply Hov|].
  destruct (decide (count <= s)) as [Hle|]; [|lia].
  assert ((space, s) ∈ filter (fun e => count <= snd e) (map_to_list ov)) as Hin.
  { apply list_elem_of_filter. split; [done|]. by apply elem_of_map_to_list. }
  rewrite Ef in Hin. by apply elem_of_nil in Hin.
Qed.

Lemma shard_for_space_ok `{Crates} t space :
  table_ok t -> exists s, shard_for_space t space = Some s /\ 0 <= s < shard_count t.
Proof.
  intros [Hc Hu Ho]. unfold shard_for_space.
  destruct (overrides t !! space) as [s|] eqn:E; [by eexists; eauto|].
  unfold hash_space_to_shard. rewrite (proj2 (Z.ltb_lt _ _)) by done.
  eexists. split; [done|]. set (hi := from_le_bytes _).
  pose proof (Z.mod_pos_bound hi _ Hc). unfold uint in Hu. rewrite wrap_small by (unfold uint; lia).
  lia.
Qed.

(** Routing is total and in range: a table that the constructor accepts
    sends every space to one of its shards, the override of a space wins, and
    the constructor refuses exactly the tables without a shard or with an
    override out of range. *)
Theorem routing_in_range `{Crates} count ov :
  u16 count -> shards_u16 ov ->
  match RoutingTable.new count ov with
  | Ok t =>
    forall space, exists s, shard_for_space t space = Some s /\ 0 <= s < count
      /\ (forall o, ov !! space = Some o -> s = o)
  | Err ZeroShardCount => count = 0
  | Err (OverrideOutOfRange space s c) => ov !! space = Some s /\ count <= s /\ c = count
  end.
Proof.
  intros Hc Hov. destruct (RoutingTable.new count ov) as [t|e] eqn:E.
  - pose proof (new_table_ok _ _ _ Hc Hov E) as Hok. unfold RoutingTable.new in E.
    destruct (count =? 0); [done|]. destruct (filter _ _) as [|[??] ?]; [|done].
    apply Ok_inj in E as <-. intros space.
    destruct (shard_for_space_ok _ space Hok) as (s & Hs & Hr). exists s. split; [done|split; [done|]].
    intros o Ho. unfold shard_for_space in Hs. cbn [overrides] in Hs. rewrite Ho in Hs. congruence.
  - unfold RoutingTable.new in E. destruct (Z.eqb_spec count 0) as [|]; [by injection E as <-|].
    destruct (filter _ _) as [|[space s] rest] eqn:Ef; [done|]. injection E as <-.
    assert ((space, s) ∈ filter (fun e => count <= snd e) (map_to_list ov)) as Hin
      by (rewrite Ef; by left).
    apply list_elem_of_filter in Hin as [Hle Hin]. apply elem_of_map_to_list in Hin. simpl in Hle.
    by split_and!.
Qed.

Module RoutingExample.
(** A stand-in for the hash: its input, padded. *)
#[local] Instance crates : Crates :=
  {| blake3 b := take 32 (b ++ replicate 32 Byte.x00); new_v5 ns s := ns;
     base64_decode b := Some b |}.

Lemma routing_in_range_witness :
  exists s, shard_for_space {| shard_count := 4; overrides := {[ 7 := 3 ]} |} 7 = Some s /\ s = 3.
Proof.
  pose proof (routing_in_range 4 {[ 7 := 3 ]}) as H.
  assert (RoutingTable.new 4 {[ 7 := 3 ]}
    = Ok {| shard_count := 4; overrides := {[ 7 := 3 ]} |}) as E by (vm_compute; reflexivity).
  rewrite E in H. destruct (H ltac:(done)
    ltac:(intros ? ? [_ <-]%lookup_singleton_Some; lia) 7) as (s & H1 & _ & H2).
  exists s. split; [exact H1|]. exact (H2 3 ltac:(vm_compute; reflexivity)).
Defined.
End RoutingExample.
