(* ===== verification/Dispatch.v ===== *)
(** The connection state machine ([brain-server/src/network/dispatch.rs]): what
    the server does with each decoded frame.

    [dispatch_frame] and the handlers below it take what the code reads from
    outside as arguments: the clocks, the fresh UUID and whether a read of the
    key store fails ([Env]), the published routing table and the server's
    capabilities ([Topology]), and the key store as it is at that moment.  An
    outgoing frame keeps its opcode, flags, stream and body; [wire_frame] is the
    frame with the encoded body, and has the assertion of [Frame::new] on its
    length.  [None] is the panic of the routing assertion; the assertion of
    [Frame::new] and the [unreachable!] of [on_ping] (a decoder that answers with
    another opcode's body) are not outcomes of [dispatch_frame]. *)

From stdpp Require Import gmap.
From S2P Require Import Prelude Crc32c Ids Wire Opcode Request Access TxnRouter Handshake Routing.

(** ** Outgoing frames *)

Definition FLAG_EOS : Z := Z.shiftl 1 7.

(** The text of an error, before it is formatted. *)
Inductive Message :=
| Text (s : string)
| OfProtocol (e : ProtocolError.ProtocolError)
| OfAuth (e : AuthError)
| OfOp (e : OpError.OpError)
| NoMutualVersion (client_max server_max : Z)
| ShardOutOfRange (shard count : Z).

Record ErrorResponse := {
  er_code : ErrorCode.ErrorCode;
  er_category : ErrorCategory.ErrorCategory;
  er_message : Message;
  er_retry_after_ms : option Z;
}.

(** The bodies that the connection layer builds, and the body of an operation
    with its opcode. *)
Inductive ResponseBody :=
| BWelcome (w : WelcomePayload)
| BAuthOk (a : AuthOkPayload)
| BPong (client_timestamp server_timestamp : Z)
| BServerPing (server_timestamp : Z)
| BError (e : ErrorResponse)
| BOp (o : Opcode) (fields : Fields).

Definition response_opcode (b : ResponseBody) : Opcode :=
  match b with
  | BWelcome _ => Opcode.Welcome
  | BAuthOk _ => Opcode.AuthOk
  | BPong _ _ => Opcode.Pong
  | BServerPing _ => Opcode.ServerPing
  | BError _ => Opcode.Error
  | BOp o _ => o
  end.

Inductive OutBody := Encoded (b : ResponseBody) | Raw (b : bytes).

Record OutFrame := { o_opcode : Z; o_flags : Z; o_stream : Z; o_body : OutBody }.

(** [to_cbor_bytes] of a response body. *)
Class CborWriter := { to_cbor_bytes : ResponseBody -> bytes }.

Definition wire_frame `{Crc32c, CborWriter} (f : OutFrame) : option Frame.Frame :=
  Frame.new (o_opcode f) (o_flags f) (o_stream f)
    (match o_body f with Encoded b => to_cbor_bytes b | Raw b => b end).

Definition build_response_frame (stream_id : Z) (eos : bool) (body : ResponseBody) : OutFrame :=
  {| o_opcode := Opcode.as_u16 (response_opcode body); o_flags := if eos then FLAG_EOS else 0;
     o_stream := stream_id; o_body := Encoded body |}.

Definition error_frame (stream_id : Z) (code : ErrorCode.ErrorCode) (message : Message) : OutFrame :=
  build_response_frame stream_id true
    (BError {| er_code := code; er_category := ErrorCode.category code; er_message := message;
               er_retry_after_ms := None |}).

Definition error_frame_from_op_error (stream_id : Z) (e : OpError.OpError) : OutFrame :=
  let '(code, retry_after_ms) := wire_code (error_code e) in
  build_response_frame stream_id true
    (BError {| er_code := code; er_category := ErrorCode.category code; er_message := OfOp e;
               er_retry_after_ms := retry_after_ms |}).

Definition build_server_ping_frame (unix_nanos : Z) : OutFrame :=
  build_response_frame 0 true (BServerPing unix_nanos).

(** ** Connection state *)

Inductive ConnPhase :=
| AwaitingHello
| AwaitingAuth
| Established (space bound_shard : Z) (perms : SpacePermissions) (scope : RequestScope).

Record ConnState := {
  phase : ConnPhase;
  connection_id : Z;
  negotiated_version : Z;
  last_revocation_check : Z;
  opened_txn : bool;
  txn_shards : TxnShardRouter;
}.

Module ConnState.
Definition new (now : Z) : ConnState :=
  {| phase := AwaitingHello; connection_id := 0; negotiated_version := 0;
     last_revocation_check := now; opened_txn := false; txn_shards := Router.new |}.

Definition set_txn_shards (r : TxnShardRouter) (st : ConnState) : ConnState :=
  {| phase := phase st; connection_id := connection_id st;
     negotiated_version := negotiated_version st;
     last_revocation_check := last_revocation_check st; opened_txn := opened_txn st;
     txn_shards := r |}.

Definition set_check (t : Z) (st : ConnState) : ConnState :=
  {| phase := phase st; connection_id := connection_id st;
     negotiated_version := negotiated_version st; last_revocation_check := t;
     opened_txn := opened_txn st; txn_shards := txn_shards st |}.
End ConnState.

(** [now] is a monotonic clock in nanoseconds. *)
Record Env := {
  now : Z;
  unix_nanos : Z;
  now_v7 : Z;
  store_fails : bool;
}.

Record Topology := {
  routing : RoutingTable;
  server_caps : ServerCapabilities;
}.

Record OpDispatch := {
  op_stream_id : Z;
  op_req : RequestBody.RequestBody;
  op_target_shard : Z;
  op_scope : RequestScope;
  op_connection_id : Z;
  op_act_as : option ActAs;
}.

Record SubscribeStart := {
  ss_stream_id : Z;
  ss_req : SubscribeRequest;
  ss_target_shard : Z;
  ss_space : Z;
}.

Inductive CancelSubscribe :=
| CUnsubscribe (request_stream_id : Z) (req : UnsubscribeRequest)
| CCancelStream (request_stream_id : Z) (req : CancelStreamRequest).

Inductive Action :=
| Inline (f : OutFrame)
| AOp (op : OpDispatch)
| ASubscribe (s : SubscribeStart)
| ACancel (c : CancelSubscribe)
| CloseWith (f : OutFrame)
| Close
| Nothing.

(** ** Handlers *)

#[global] Instance AuthMethod_eq_dec : EqDecision AuthMethod.
Proof. solve_decision. Defined.

Definition REVOCATION_RECHECK_WINDOW : Z := 5 * 10 ^ 9.

Definition subscribe_spaces_allowed (own : Z) (sp : option (list Z)) : bool :=
  match sp with
  | Some a => negb (bool_decide (a = [])) && forallb (fun b => b =? own) a
  | None => false
  end.

Definition auth_error_code (e : AuthError) : ErrorCode.ErrorCode :=
  match e with
  | Missing | Unknown | Revoked => ErrorCode.Unauthenticated
  | UnsupportedMethod => ErrorCode.NoSuchAuthMethod
  | Storage _ => ErrorCode.Internal
  end.

Section dispatch.
Context `{Ciborium, Crates}.
Implicit Types (env : Env) (top : Topology) (db : ApiKeyDb) (st : ConnState)
  (frame : Frame.Frame).

Definition on_hello env top frame st : Action * ConnState :=
  match phase st with
  | AwaitingHello =>
    match from_cbor_bytes Opcode.Hello (Frame.payload frame) with
    | Err e => (CloseWith (error_frame 0 (ProtocolError.code e) (OfProtocol e)), st)
    | Ok hello =>
      match negotiate hello (server_caps top) with
      | Err _ =>
        (CloseWith (error_frame 0 ErrorCode.VersionNotSupported
           (NoMutualVersion (default 0 (max_of (client_versions hello)))
              (default 0 (max_of (supported_versions (server_caps top)))))), st)
      | Ok negotiated =>
        (Inline (build_response_frame 0 true (BWelcome
           {| w_server_id := server_id (server_caps top);
              w_chosen_version := chosen_version negotiated; w_connection_id := now_v7 env;
              w_capabilities := capabilities negotiated;
              w_server_features := server_features (server_caps top) |})),
         {| phase := AwaitingAuth; connection_id := now_v7 env;
            negotiated_version := chosen_version negotiated;
            last_revocation_check := last_revocation_check st; opened_txn := opened_txn st;
            txn_shards := txn_shards st |})
      end
    end
  | _ => (CloseWith (error_frame 0 ErrorCode.BadFrame (Text "HELLO out of order")), st)
  end.

Definition on_auth env top db frame st : option (Action * ConnState) :=
  match phase st with
  | AwaitingAuth =>
    match from_cbor_bytes Opcode.Auth (Frame.payload frame) with
    | Err e => Some (CloseWith (error_frame 0 (ProtocolError.code e) (OfProtocol e)), st)
    | Ok auth =>
      if negb (existsb (fun m => bool_decide (m = method auth))
                 (auth_methods (server_features (server_caps top))))
      then Some (CloseWith (error_frame 0 ErrorCode.NoSuchAuthMethod
                   (Text "auth method not in server policy")), st)
      else
        match derive_scope_from_handshake auth db (store_fails env) with
        | Err e => Some (CloseWith (error_frame 0 (auth_error_code e) (OfAuth e)), st)
        | Ok scope =>
          let space := sc_space_id scope in
          bound_shard ← shard_for_space (routing top) space;
          let perms := to_space_permissions scope in
          Some (Inline (build_response_frame 0 true (BAuthOk
                  {| ao_space_id := space; ao_bound_shard_id := bound_shard;
                     ao_permissions := perms; ao_namespace := sc_namespace scope;
                     ao_server_time_unix_nanos := unix_nanos env |})),
                {| phase := Established space bound_shard perms scope;
                   connection_id := connection_id st;
                   negotiated_version := negotiated_version st;
                   last_revocation_check := now env; opened_txn := opened_txn st;
                   txn_shards := txn_shards st |})
        end
    end
  | _ => Some (CloseWith (error_frame 0 ErrorCode.BadFrame (Text "AUTH out of order")), st)
  end.

Definition on_ping env frame : Action :=
  let stream_id := Header.stream_id_u32 (Frame.header frame) in
  match from_cbor_bytes Opcode.Ping (Frame.payload frame) with
  | Err e => Inline (error_frame stream_id (ProtocolError.code e) (OfProtocol e))
  | Ok req =>
    Inline (build_response_frame stream_id true
              (BPong (ping_client_timestamp req) (unix_nanos env)))
  end.

Definition on_bye frame : Action :=
  CloseWith {| o_opcode := Opcode.as_u16 Opcode.Bye; o_flags := FLAG_EOS; o_stream := 0;
               o_body := Raw (Frame.payload frame) |}.

Definition enforce_live_revocation env db (scope : RequestScope) (stream_id : Z) st
  : option Action * ConnState :=
  if sat_sub (now env) (last_revocation_check st) <? REVOCATION_RECHECK_WINDOW then (None, st) else
  let st := ConnState.set_check (now env) st in
  (match is_key_active db (sc_key_hash scope) (store_fails env) with
   | Ok true => None
   | Ok false => Some (CloseWith (error_frame stream_id ErrorCode.Unauthenticated
                         (Text "API key has been revoked")))
   | Err _ => Some (CloseWith (error_frame stream_id ErrorCode.Internal
                      (Text "api-key store unavailable; closing connection")))
   end, st).

(** The code's [Option] is always [Some]; [None] here is the panic. *)
Definition pick_target_shard (req : RequestBody.RequestBody) (bound_shard : Z)
    (t : RoutingTable) (act_as : option ActAs) : option Z :=
  let by_request :=
    match req with
    | RequestBody.Forget r => Some (shard_for_memory (forget_memory_id r))
    | RequestBody.Link r => Some (shard_for_memory (link_source r))
    | RequestBody.Unlink r => Some (shard_for_memory (unlink_source r))
    | _ => Some bound_shard
    end in
  match act_as with
  | Some a =>
    if negb (bool_decide (aa_space a = ""))
    then shard_for_space t (derive_from_string (aa_namespace a) (aa_space a))
    else by_request
  | None => by_request
  end.

(** The branch of a SUBSCRIBE. *)
Definition on_subscribe top (scope : RequestScope) (bound_shard stream_id : Z)
    (sub_req : SubscribeRequest) : option Action :=
  let checked :=
    match subscribe_act_as sub_req with
    | Some a => check_act_as scope a
    | None => Ok tt
    end in
  match checked with
  | Err (code, message) => Some (Inline (error_frame stream_id code (Text message)))
  | Ok _ =>
    target ←
      match subscribe_act_as sub_req with
      | Some a =>
        let eff := effective_space scope a in
        shard ← shard_for_space (routing top) eff; Some (eff, shard)
      | None => Some (sc_space_id scope, bound_shard)
      end;
    let '(effective, target_shard) := target in
    if negb (subscribe_spaces_allowed effective (spaces (sub_filter sub_req))) then
      Some (Inline (error_frame stream_id ErrorCode.PermissionDenied
              (Text "subscribe: filter.spaces must name only the effective space")))
    else
      Some (ASubscribe {| ss_stream_id := stream_id; ss_req := sub_req;
                          ss_target_shard := target_shard; ss_space := effective |})
  end.

(** Route and dispatch of every other request. *)
Definition on_op top (scope : RequestScope) (bound_shard stream_id : Z)
    (req : RequestBody.RequestBody) st : option (Action * ConnState) :=
  let act_as := RequestBody.act_as_of req in
  match (match act_as with Some a => check_act_as scope a | None => Ok tt end) with
  | Err (code, message) => Some (Inline (error_frame stream_id code (Text message)), st)
  | Ok _ =>
    target_shard ← pick_target_shard req bound_shard (routing top) act_as;
    let op target :=
      AOp {| op_stream_id := stream_id; op_req := req; op_target_shard := target;
             op_scope := scope; op_connection_id := connection_id st; op_act_as := act_as |} in
    let routed txn_id := default target_shard (Router.route (txn_shards st) txn_id) in
    match req with
    | RequestBody.TxnBegin r =>
      let '(accepted, router) := Router.begin (txn_shards st) (begin_txn_id r) target_shard in
      let st := ConnState.set_txn_shards router st in
      if accepted then Some (op target_shard, st)
      else Some (Inline (error_frame stream_id ErrorCode.TransactionLimitExceeded
                   (Text "too many concurrent open transactions on this connection")), st)
    | RequestBody.TxnCommit r => Some (op (routed (commit_txn_id r)), st)
    | RequestBody.TxnAbort r => Some (op (routed (abort_txn_id r)), st)
    | _ => Some (op target_shard, st)
    end
  end.

(** What an established connection does with a frame that is not connection
    management. *)
Definition on_established env top db (opcode : Opcode) frame (bound_shard : Z)
    (scope : RequestScope) st : option (Action * ConnState) :=
  let stream_id := Header.stream_id_u32 (Frame.header frame) in
  let '(denied, st) := enforce_live_revocation env db scope stream_id st in
  match denied with
  | Some action => Some (action, st)
  | None =>
    if negb (Opcode.is_request opcode) then
      Some (Inline (error_frame stream_id ErrorCode.BadOpcode
              (Text "client sent a response-opcode frame")), st)
    else
      match RequestBody.decode opcode (Frame.payload frame) with
      | Err e => Some (Inline (error_frame stream_id (ProtocolError.code e) (OfProtocol e)), st)
      | Ok (RequestBody.Subscribe sub_req) =>
        action ← on_subscribe top scope bound_shard stream_id sub_req; Some (action, st)
      | Ok (RequestBody.Unsubscribe un_req) => Some (ACancel (CUnsubscribe stream_id un_req), st)
      | Ok (RequestBody.CancelStream c_req) => Some (ACancel (CCancelStream stream_id c_req), st)
      | Ok other => on_op top scope bound_shard stream_id other st
      end
  end.

Definition stream_rule (opcode : Opcode) (stream_id : Z) : option Action :=
  if bool_decide (opcode = Opcode.Error) then None else
  if Opcode.is_connection_level opcode then
    if negb (stream_id =? 0)
    then Some (Inline (error_frame stream_id ErrorCode.BadFrame
                 (Text "connection-level opcode requires stream_id = 0")))
    else None
  else if (stream_id =? 0) || Z.even stream_id
  then Some (Inline (error_frame stream_id ErrorCode.BadFrame
               (Text "op streams must be non-zero and odd (client-initiated)")))
  else None.

Definition dispatch_frame env top db frame st : option (Action * ConnState) :=
  let stream_id := Header.stream_id_u32 (Frame.header frame) in
  match Opcode.from_u16 (Header.opcode_u16 (Frame.header frame)) with
  | Err _ =>
    Some (Inline (error_frame stream_id ErrorCode.BadOpcode (Text "unknown opcode")), st)
  | Ok opcode =>
    match stream_rule opcode stream_id with
    | Some action => Some (action, st)
    | None =>
      match opcode with
      | Opcode.Hello => Some (on_hello env top frame st)
      | Opcode.Auth => on_auth env top db frame st
      | Opcode.Ping => Some (on_ping env frame, st)
      | Opcode.Bye => Some (on_bye frame, st)
      | Opcode.ClientPong => Some (Nothing, st)
      | _ =>
        match phase st with
        | Established _ bound_shard _ scope =>
          on_established env top db opcode frame bound_shard scope st
        | _ =>
          Some (Inline (error_frame stream_id ErrorCode.NotAuthenticated
                  (Text "operation requires established (post-AUTH_OK) connection")), st)
        end
      end
    end
  end.
End dispatch.
