(* ===== verification/OpTask.v ===== *)
(** An operation after it has been routed: the caller it runs as, the gates of
    [brain_ops::dispatch], the namespace it is confined to, and the frames that
    answer it ([run_op_dispatch] of [brain-server/src/network/dispatch.rs];
    [dispatch] and [build_per_request_ctx] of [brain-ops/src/dispatch.rs]).

    The answer of a shard is an argument: the theorems hold for every answer. *)

From stdpp Require Import gmap.
From S2P Require Import Prelude Ids Wire Opcode Request Access TxnRouter Handshake Routing Dispatch.

(** ** Gates on the shard *)

(** The identity fields of the per-request clone of the shard's context. *)
Record RequestCtx := {
  caller_connection_id : Z;
  caller_space : Z;
  caller_space_string : string;
  caller_namespace : Z;
}.

(** [read_ok] and [write_ok] are whether the read and the write transaction of
    the metadata store succeed.  [None] is the panic of the registry when its
    ids are used up. *)
Definition build_per_request_ctx (c : RequestCaller) (shared : RequestCtx) (t : Namespaces)
    (read_ok write_ok : bool) : option (result (option RequestCtx) OpError.OpError * Namespaces) :=
  if rc_space_id c =? 0 then
    if negb (rc_connection_id c =? 0) then
      Some (Ok (Some {| caller_connection_id := rc_connection_id c;
                        caller_space := caller_space shared;
                        caller_space_string := caller_space_string shared;
                        caller_namespace := caller_namespace shared |}), t)
    else Some (Ok None, t)
  else if bool_decide (rc_namespace c = "") then
    Some (Err (OpError.Unauthorized
      "authenticated connection has no namespace; the API key must be bound to one"), t)
  else
    let read := if read_ok then namespace_lookup_by_name t (rc_namespace c) else None in
    found ←
      match read with
      | Some ns => Some (Ok ns, t)
      | None =>
        if write_ok then
          '(ns, t') ← namespace_intern_or_get t (rc_namespace c) 0; Some (Ok ns, t')
        else Some (Err (OpError.Internal "namespace intern"), t)
      end;
    let '(resolved, t) := found in
    match resolved with
    | Err e => Some (Err e, t)
    | Ok ns =>
      if ns =? 0 then
        Some (Err (OpError.Unauthorized
          "namespace resolved to the reserved system namespace; user data requires a real namespace"), t)
      else
        Some (Ok (Some {| caller_connection_id := rc_connection_id c; caller_space := rc_space_id c;
                          caller_space_string := rc_space_string c; caller_namespace := ns |}), t)
    end.

(** The two gates and the context in front of every handler of [dispatch];
    [Ok ctx] hands the request to its handler under [ctx]. *)
Definition dispatch_gates (req : RequestBody.RequestBody) (c : RequestCaller) (shared : RequestCtx)
    (t : Namespaces) (read_ok write_ok : bool)
  : option (result RequestCtx OpError.OpError * Namespaces) :=
  match enforce_permission c req with
  | Err e => Some (Err e, t)
  | Ok _ =>
    match enforce_namespace c req with
    | Err e => Some (Err e, t)
    | Ok _ =>
      '(r, t) ← build_per_request_ctx c shared t read_ok write_ok;
      Some (match r with Ok own => Ok (default shared own) | Err e => Err e end, t)
    end
  end.

(** ** The task of an operation *)

Inductive DispatchError := ShardDisconnected | DispatchOp (e : OpError.OpError).

Inductive DispatchOutcome :=
| Single (body : ResponseBody)
| Stream (bodies : list ResponseBody).

Inductive TxnReqKind := KBegin (txn_id : Z) | KCommit (txn_id : Z) | KAbort (txn_id : Z).

Definition txn_req_kind (req : RequestBody.RequestBody) : option TxnReqKind :=
  match req with
  | RequestBody.TxnBegin r => Some (KBegin (begin_txn_id r))
  | RequestBody.TxnCommit r => Some (KCommit (commit_txn_id r))
  | RequestBody.TxnAbort r => Some (KAbort (abort_txn_id r))
  | _ => None
  end.

Definition is_transient_dispatch_error (e : DispatchError) : bool :=
  match e with
  | ShardDisconnected => true
  | DispatchOp op =>
    match error_code op with
    | OpCode.Overloaded | OpCode.RetrievalUnavailable | OpCode.InternalError => true
    | _ => false
    end
  end.

Definition classify_txn_route_outcome (kind : TxnReqKind)
    (result : result DispatchOutcome DispatchError) : option TxnRouteOutcome :=
  match kind with
  | KCommit txn_id | KAbort txn_id =>
    let confirmed :=
      match result with
      | Ok _ => true
      | Err (DispatchOp e) =>
        match error_code e with OpCode.TxnNotFound | OpCode.TxnExpired => true | _ => false end
      | Err ShardDisconnected => false
      end in
    if confirmed then Some {| out_txn_id := txn_id; out_kind := ConfirmedTerminal |} else None
  | KBegin txn_id =>
    match result with
    | Ok _ => None
    | Err e =>
      if is_transient_dispatch_error e then None
      else Some {| out_txn_id := txn_id; out_kind := BeginRejected |}
    end
  end.

(** The answers of the gather tasks in the order they complete, and of the
    shaping pass. *)
Inductive GatherAnswer := Gathered | GatherFailed (e : DispatchError) | GatherPanicked (s : string).

Fixpoint gather_loop (stream_id : Z) (joined : list GatherAnswer) : option (list OutFrame) :=
  match joined with
  | [] => None
  | Gathered :: rest => gather_loop stream_id rest
  | GatherFailed ShardDisconnected :: _ =>
    Some [error_frame stream_id ErrorCode.ShardUnavailable
            (Text "a shard is no longer accepting requests (namespace recall)")]
  | GatherFailed (DispatchOp e) :: _ => Some [error_frame_from_op_error stream_id e]
  | GatherPanicked s :: _ =>
    Some [error_frame stream_id ErrorCode.Internal
            (Text ("namespace recall gather task failed: " +:+ s))]
  end.

Definition run_namespace_recall (stream_id coordinator_shard : Z) (shards : nat)
    (joined : list GatherAnswer) (shaped : result ResponseBody DispatchError) : list OutFrame :=
  if (shards =? 0)%nat then
    [error_frame stream_id ErrorCode.ShardUnavailable
       (Text "no shards available for namespace-wide recall")]
  else
    match gather_loop stream_id joined with
    | Some frames => frames
    | None =>
      if Z.of_nat shards <=? coordinator_shard then
        [error_frame stream_id ErrorCode.ShardUnavailable
           (ShardOutOfRange coordinator_shard (Z.of_nat shards))]
      else
        match shaped with
        | Ok frame => [build_response_frame stream_id true frame]
        | Err ShardDisconnected =>
          [error_frame stream_id ErrorCode.ShardUnavailable
             (Text "coordinator shard is no longer accepting requests")]
        | Err (DispatchOp e) => [error_frame_from_op_error stream_id e]
        end
    end.

(** What the shards answer. *)
Record Answers := {
  a_result : result DispatchOutcome DispatchError;
  a_joined : list GatherAnswer;
  a_shaped : result ResponseBody DispatchError;
}.

Fixpoint stream_frames (stream_id : Z) (bodies : list ResponseBody) : list OutFrame :=
  match bodies with
  | [] => []
  | [body] => [build_response_frame stream_id true body]
  | body :: rest => build_response_frame stream_id false body :: stream_frames stream_id rest
  end.

Section task.
Context `{Crates}.

Definition op_caller (op : OpDispatch) : RequestCaller :=
  match op_act_as op with
  | Some a => to_effective_caller (op_scope op) a (op_connection_id op)
  | None => to_caller (op_scope op) (op_connection_id op)
  end.

Definition is_namespace_recall (req : RequestBody.RequestBody) : option RecallRequest :=
  match req with
  | RequestBody.Recall r => match recall_scope r with ScopeNamespace => Some r | _ => None end
  | _ => None
  end.

(** The frames of the answer and the outcome that is reported to the router of
    the connection; the sender is given to the task of every transaction
    operation. *)
Definition run_op_dispatch (op : OpDispatch) (shards : nat) (ans : Answers)
  : list OutFrame * option TxnRouteOutcome :=
  let stream_id := op_stream_id op in
  if Z.of_nat shards <=? op_target_shard op then
    ([error_frame stream_id ErrorCode.ShardUnavailable
        (ShardOutOfRange (op_target_shard op) (Z.of_nat shards))], None)
  else
    match is_namespace_recall (op_req op) with
    | Some r =>
      match recall_txn_id r with
      | Some _ =>
        ([error_frame stream_id ErrorCode.InvalidArgument
            (Text "namespace-wide recall (scope=Namespace) is not supported inside a transaction")],
         None)
      | None =>
        (run_namespace_recall stream_id (op_target_shard op) shards (a_joined ans) (a_shaped ans),
         None)
      end
    | None =>
      (match a_result ans with
       | Ok (Single body) => [build_response_frame stream_id true body]
       | Ok (Stream bodies) => stream_frames stream_id bodies
       | Err ShardDisconnected =>
         [error_frame stream_id ErrorCode.ShardUnavailable
            (Text "shard is no longer accepting requests")]
       | Err (DispatchOp e) => [error_frame_from_op_error stream_id e]
       end,
       kind ← txn_req_kind (op_req op); classify_txn_route_outcome kind (a_result ans))
    end.
End task.

(** ** Answers *)

Definition has_eos (f : OutFrame) : bool := negb (Z.land (o_flags f) FLAG_EOS =? 0).

(** An answer: frames of one stream, the last one and no other with the
    end-of-stream flag. *)
Definition complete_answer (stream_id : Z) (frames : list OutFrame) : Prop :=
  exists init last, frames = init ++ [last] /\ has_eos last = true
    /\ Forall (fun f => has_eos f = false) init /\ Forall (fun f => o_stream f = stream_id) frames.

Lemma complete_single sid f : has_eos f = true -> o_stream f = sid -> complete_answer sid [f].
Proof. intros. exists [], f. split_and!; [reflexivity|assumption|constructor|by constructor]. Qed.

Lemma complete_op_error sid e : complete_answer sid [error_frame_from_op_error sid e].
Proof.
  unfold error_frame_from_op_error. destruct (wire_code _). by apply complete_single.
Qed.

#[local] Hint Resolve complete_single complete_op_error : core.

Lemma complete_stream sid bodies :
  bodies <> [] -> complete_answer sid (stream_frames sid bodies).
Proof.
  induction bodies as [|b [|b' rest] IH]; [done|by intros _; apply complete_single|].
  intros _. destruct IH as (init & last & E & Hl & Hi & Hs); [done|].
  change (stream_frames sid (b :: b' :: rest))
    with (build_response_frame sid false b :: stream_frames sid (b' :: rest)).
  exists (build_response_frame sid false b :: init), last. rewrite E in Hs |- *.
  split_and!; [done..| |]; by constructor.
Qed.

Lemma complete_namespace_recall sid c n joined shaped :
  complete_answer sid (run_namespace_recall sid c n joined shaped).
Proof.
  unfold run_namespace_recall. destruct (n =? 0)%nat; [by apply complete_single|].
  assert (forall fs, gather_loop sid joined = Some fs -> complete_answer sid fs) as Hg.
  { induction joined as [|[|[|e]|s] joined IH]; intros fs; simpl; [done|by apply IH|..];
      intros [= <-]; by auto. }
  destruct (gather_loop sid joined); [by apply Hg|].
  destruct (_ <=? _); [by apply complete_single|].
  destruct shaped as [|[|]]; by auto.
Qed.

(** ** Registry *)

Record names_ok (t : Namespaces) : Prop := {
  no_row : forall name id, NAMESPACE_BY_NAME_TABLE t !! name = Some id ->
    exists row, NAMESPACES_TABLE t !! id = Some row /\ nd_name row = name;
  no_system : forall name, NAMESPACE_BY_NAME_TABLE t !! name = Some 0 -> name = SYSTEM_SCHEMA_NAMESPACE;
  no_brain : NAMESPACE_BY_NAME_TABLE t !! SYSTEM_SCHEMA_NAMESPACE = Some 0;
}.

Lemma max_namespace_id_spec t :
  0 <= max_namespace_id t
  /\ forall id row, NAMESPACES_TABLE t !! id = Some row -> id <= max_namespace_id t.
Proof.
  unfold max_namespace_id.
  apply (map_fold_weak_ind (fun max m => 0 <= max /\ forall id row, m !! id = Some row -> id <= max)).
  - split; [done|]. intros id row. by rewrite lookup_empty.
  - intros i x m r Hi [H0 IH]. destruct (Z.ltb_spec r i) as [Hlt|Hge].
    + split; [lia|]. intros id row [[<- _]|[_ Hr]]%lookup_insert_Some; [lia|].
      apply IH in Hr. lia.
    + split; [done|]. intros id row [[<- _]|[_ Hr]]%lookup_insert_Some; [done|]. eauto.
Qed.

Lemma intern_ok t name now id t' :
  names_ok t -> namespace_intern_or_get t name now = Some (id, t') ->
  names_ok t' /\ NAMESPACE_BY_NAME_TABLE t' !! name = Some id
  /\ forall n i, NAMESPACE_BY_NAME_TABLE t !! n = Some i -> NAMESPACE_BY_NAME_TABLE t' !! n = Some i.
Proof.
  intros Hok. unfold namespace_intern_or_get. case_bool_decide as Hb.
  { intros [= <- <-]. subst name. split_and!; [done|apply Hok|done]. }
  unfold namespace_lookup_by_name. destruct (NAMESPACE_BY_NAME_TABLE t !! name) as [x|] eqn:E.
  { intros [= <- <-]. done. }
  destruct (_ <=? _); [|done]. intros [= <- <-].
  destruct (max_namespace_id_spec t) as [H0 Hmax]. unfold write_namespace_row. simpl.
  assert (forall n i, NAMESPACE_BY_NAME_TABLE t !! n = Some i ->
    <[name := max_namespace_id t + 1]> (NAMESPACE_BY_NAME_TABLE t) !! n = Some i) as Hkeep.
  { intros n i Hn. rewrite lookup_insert_ne; [done|]. intros ->. congruence. }
  split_and!; [split; simpl|apply lookup_insert_eq|done].
  - intros n i [[<- <-]|[_ Hn]]%lookup_insert_Some.
    + rewrite lookup_insert_eq. by eexists.
    + destruct (no_row _ Hok n i Hn) as (row & Hr & Hrn). exists row. split; [|done].
      rewrite lookup_insert_ne; [done|]. intros <-. apply Hmax in Hr. lia.
  - intros n [[<- Hz]|[_ Hn]]%lookup_insert_Some; [lia|]. by apply Hok.
  - apply Hkeep, Hok.
Qed.

(** The context of a caller with an identity: its own space, and the id of its
    namespace, which the registry keeps. *)
Lemma build_ctx_ok t c shared rd wr r t' :
  names_ok t -> build_per_request_ctx c shared t rd wr = Some (r, t') ->
  names_ok t'
  /\ (forall n i, NAMESPACE_BY_NAME_TABLE t !! n = Some i ->
        NAMESPACE_BY_NAME_TABLE t' !! n = Some i)
  /\ (rc_space_id c <> 0 -> forall x, r = Ok x -> exists own, x = Some own
        /\ caller_space own = rc_space_id c /\ caller_namespace own <> 0
        /\ caller_connection_id own = rc_connection_id c
        /\ NAMESPACE_BY_NAME_TABLE t' !! rc_namespace c = Some (caller_namespace own)).
Proof.
  intros Hok. unfold build_per_request_ctx. destruct (Z.eqb_spec (rc_space_id c) 0) as [Hz|Hz].
  { destruct (negb _); intros [= <- <-]; done. }
  case_bool_decide; [by intros [= <- <-]|].
  set (found := match (if rd then _ else _) with Some _ => _ | None => _ end).
  assert (forall r0 t0, found = Some (r0, t0) ->
    names_ok t0 /\ (forall n i, NAMESPACE_BY_NAME_TABLE t !! n = Some i ->
                      NAMESPACE_BY_NAME_TABLE t0 !! n = Some i)
    /\ forall ns, r0 = Ok ns -> NAMESPACE_BY_NAME_TABLE t0 !! rc_namespace c = Some ns) as Hf.
  { subst found. intros r0 t0.
    destruct (if rd then _ else _) as [ns|] eqn:Er.
    - intros [= <- <-]. split_and!; [done..|]. intros ? [= <-]. by destruct rd.
    - destruct wr; [|by intros [= <- <-]].
      destruct (namespace_intern_or_get _ _ _) as [[ns ti]|] eqn:Ei; [|done]. simpl.
      intros [= <- <-]. destruct (intern_ok _ _ _ _ _ Hok Ei) as (? & ? & ?).
      split_and!; [done..|]. by intros ? [= <-]. }
  destruct found as [[r0 t0]|]; [|done]. simpl. destruct (Hf _ _ eq_refl) as (H1 & H2 & H3).
  destruct r0 as [ns|e]; [|intros [= <- <-]; done].
  destruct (Z.eqb_spec ns 0); intros [= <- <-]; [done|]. split_and!; [done..|].
  intros _ x [= <-]. eexists. split; [done|]. simpl. by split_and!; [..|apply H3].
Qed.

(** What the registry goes through: the contexts of requests. *)
Fixpoint requests (t : Namespaces) (l : list (RequestCaller * RequestCtx * bool * bool))
  : option Namespaces :=
  match l with
  | [] => Some t
  | (c, shared, rd, wr) :: l =>
    '(_, t') ← build_per_request_ctx c shared t rd wr; requests t' l
  end.

Lemma requests_ok t l t' :
  names_ok t -> requests t l = Some t' ->
  names_ok t' /\ forall n i, NAMESPACE_BY_NAME_TABLE t !! n = Some i ->
    NAMESPACE_BY_NAME_TABLE t' !! n = Some i.
Proof.
  revert t. induction l as [|[[[c sh] rd] wr] l IH]; intros t Hok; simpl; [by intros [= <-]|].
  destruct (build_per_request_ctx _ _ _ _ _) as [[r t1]|] eqn:E; [|done]. simpl. intros Hr.
  destruct (build_ctx_ok _ _ _ _ _ _ _ Hok E) as (Hok1 & Hk & _).
  destruct (IH _ Hok1 Hr) as [? Hk']. auto.
Qed.

Lemma names_ok_seed now :
  names_ok (seed_system_namespace
    {| NAMESPACES_TABLE := ∅; NAMESPACE_BY_NAME_TABLE := ∅ |} now).
Proof.
  unfold seed_system_namespace, namespace_lookup_by_name, write_namespace_row.
  cbn [NAMESPACE_BY_NAME_TABLE]. rewrite lookup_empty.
  split; cbn [NAMESPACE_BY_NAME_TABLE NAMESPACES_TABLE].
  - intros name id [[<- <-]|[_ Hn]]%lookup_insert_Some; [|by rewrite lookup_empty in Hn].
    rewrite lookup_insert_eq. by eexists.
  - by intros name [[<- _]|[_ Hn]]%lookup_insert_Some; [|rewrite lookup_empty in Hn].
  - apply lookup_insert_eq.
Qed.

(** ** Theorems *)

(** Every operation that reaches its task is answered on its own stream,
    and exactly the last frame of the answer ends the stream, whatever the
    shards answer, except when a handler streams no body at all: then the
    client gets no frame. *)
Theorem op_answered `{Crates} op shards ans :
  let frames := fst (run_op_dispatch op shards ans) in
  complete_answer (op_stream_id op) frames
  \/ a_result ans = Ok (Stream []) /\ frames = [].
Proof.
  unfold run_op_dispatch. destruct (_ <=? _); [left; by apply complete_single|].
  destruct (is_namespace_recall _) as [r|].
  - left. destruct (recall_txn_id r); [by apply complete_single|apply complete_namespace_recall].
  - simpl. destruct (a_result ans) as [[b|[|b bs]]|[|e]]; [left|right|left..]; auto.
    by apply complete_stream.
Qed.

(** C15: the tenant wall of a shard: from a well-formed registry, two requests
    at different times that reach their handlers under an identity run in their
    own space and connection, in a namespace that is never the system's, and in
    the same namespace exactly when their callers are bound to the same name. *)
Theorem namespace_wall t c1 sh1 rd1 wr1 x1 t1 between t2 c2 sh2 rd2 wr2 x2 t3 :
  names_ok t ->
  build_per_request_ctx c1 sh1 t rd1 wr1 = Some (Ok x1, t1) -> rc_space_id c1 <> 0 ->
  requests t1 between = Some t2 ->
  build_per_request_ctx c2 sh2 t2 rd2 wr2 = Some (Ok x2, t3) -> rc_space_id c2 <> 0 ->
  exists own1 own2, x1 = Some own1 /\ x2 = Some own2
    /\ caller_space own1 = rc_space_id c1 /\ caller_connection_id own1 = rc_connection_id c1
    /\ caller_namespace own1 <> 0
    /\ caller_space own2 = rc_space_id c2 /\ caller_connection_id own2 = rc_connection_id c2
    /\ caller_namespace own2 <> 0
    /\ (caller_namespace own1 = caller_namespace own2 <-> rc_namespace c1 = rc_namespace c2).
Proof.
  intros Hok H1 Hs1 Hb H2 Hs2.
  destruct (build_ctx_ok _ _ _ _ _ _ _ Hok H1) as (Hok1 & _ & Hx1).
  destruct (Hx1 Hs1 _ eq_refl) as (own1 & -> & Hsp & Hn0 & Hc & Hname1).
  destruct (requests_ok _ _ _ Hok1 Hb) as (Hok2 & Hk2).
  destruct (build_ctx_ok _ _ _ _ _ _ _ Hok2 H2) as (Hok3 & Hk3 & Hx2).
  destruct (Hx2 Hs2 _ eq_refl) as (own2 & -> & Hsp2 & Hn2 & Hc2 & Hname2).
  exists own1, own2. split_and!; [done..|]. apply Hk2, Hk3 in Hname1. split; intros E.
  - rewrite E in Hname1. destruct (no_row _ Hok3 _ _ Hname1) as (row & Hr & <-).
    destruct (no_row _ Hok3 _ _ Hname2) as (row2 & Hr2 & <-). congruence.
  - rewrite E in Hname1. congruence.
Qed.

Module OpTaskExample.
Definition caller (ns : string) : RequestCaller :=
  {| rc_space_id := 9; rc_org_id := 1; rc_user_id := 1; rc_namespace := ns; rc_permissions := 15;
     rc_space_string := ""; rc_connection_id := 3 |}.
Definition shared : RequestCtx :=
  {| caller_connection_id := 0; caller_space := 0; caller_space_string := "";
     caller_namespace := 0 |}.
Definition registry0 : Namespaces :=
  seed_system_namespace {| NAMESPACES_TABLE := ∅; NAMESPACE_BY_NAME_TABLE := ∅ |} 0.
Definition ctx_of (ns : string) (id : Z) : RequestCtx :=
  {| caller_connection_id := 3; caller_space := 9; caller_space_string := "";
     caller_namespace := id |}.
Definition after (ns : string) (t : Namespaces) : Namespaces :=
  default t (snd <$> build_per_request_ctx (caller ns) shared t true true).

(** Two tenants that are interned one after the other. *)
Lemma namespace_wall_witness :
  exists own1 own2, Some (ctx_of "acme" 1) = Some own1 /\ Some (ctx_of "beta" 3) = Some own2
    /\ caller_space own1 = 9 /\ caller_connection_id own1 = 3 /\ caller_namespace own1 <> 0
    /\ caller_space own2 = 9 /\ caller_connection_id own2 = 3 /\ caller_namespace own2 <> 0
    /\ (caller_namespace own1 = caller_namespace own2 <-> "acme"%string = "beta"%string).
Proof.
  exact (namespace_wall registry0 (caller "acme") shared true true (Some (ctx_of "acme" 1))
    (after "acme" registry0) [(caller "other", shared, false, true)]
    (after "other" (after "acme" registry0))
    (caller "beta") shared true true (Some (ctx_of "beta" 3))
    (after "beta" (after "other" (after "acme" registry0)))
    (names_ok_seed 0) ltac:(vm_compute; reflexivity) ltac:(done) ltac:(vm_compute; reflexivity)
    ltac:(vm_compute; reflexivity) ltac:(done)).
Defined.
End OpTaskExample.
