(* ===== verification/Connection.v ===== *)
(** A connection over its lifetime: the frame and outcome arms of
    [receiver_loop] ([brain-server/src/network/connection.rs]) around
    [dispatch_frame], next to a key store that other tasks change.

    A world is the key store and the connection, if it is still open.  Its
    events are a decoded frame with what the code reads from outside when it
    handles it, the outcome of a transaction operation, and an operation on the
    key store. *)

From stdpp Require Import gmap.
From S2P Require Import Prelude Ids Wire Opcode Request Access TxnRouter Handshake Routing Dispatch.
From S2P Require Import OpTask.

Definition set_opened_txn (st : ConnState) : ConnState :=
  {| phase := phase st; connection_id := connection_id st;
     negotiated_version := negotiated_version st;
     last_revocation_check := last_revocation_check st; opened_txn := true;
     txn_shards := txn_shards st |}.

Definition is_txn_begin (req : RequestBody.RequestBody) : bool :=
  match req with RequestBody.TxnBegin _ => true | _ => false end.

Definition needs_orphan_sweep (opened : bool) (id : Z) : bool := opened && negb (id =? 0).

Section connection.
Context `{Ciborium, Crates}.

(** The frame arm: [permit] is whether the semaphore of operations had a permit
    left. *)
Definition on_frame (env : Env) (top : Topology) (db : ApiKeyDb) (frame : Frame.Frame)
    (permit : bool) (st : ConnState) : option (Action * ConnState) :=
  '(action, st) ← dispatch_frame env top db frame st;
  match action with
  | AOp op =>
    let st := if is_txn_begin (op_req op) then set_opened_txn st else st in
    if permit then Some (AOp op, st)
    else Some (Inline (error_frame (op_stream_id op) ErrorCode.StreamLimitExceeded
                 (Text "per-connection concurrent stream limit reached")), st)
  | _ => Some (action, st)
  end.

(** The outcome arm. *)
Definition on_outcome (o : TxnRouteOutcome) (st : ConnState) : ConnState :=
  ConnState.set_txn_shards (Router.apply_outcome (txn_shards st) o) st.

Definition closes (a : Action) : bool :=
  match a with CloseWith _ | Close => true | _ => false end.

Record World := { w_db : ApiKeyDb; w_conn : option ConnState }.

Inductive event :=
| EvFrame (env : Env) (top : Topology) (frame : Frame.Frame) (permit : bool)
| EvTxn (o : TxnRouteOutcome)
| EvKey (op : key_op).

Definition step (w : World) (e : event) : option (World * option Action) :=
  match e with
  | EvFrame env top frame permit =>
    st ← w_conn w;
    '(a, st') ← on_frame env top (w_db w) frame permit st;
    Some ({| w_db := w_db w; w_conn := if closes a then None else Some st' |}, Some a)
  | EvTxn o =>
    st ← w_conn w; Some ({| w_db := w_db w; w_conn := Some (on_outcome o st) |}, None)
  | EvKey op => db ← key_step (w_db w) op; Some ({| w_db := db; w_conn := w_conn w |}, None)
  end.

Fixpoint run (w : World) (evs : list event) : option World :=
  match evs with
  | [] => Some w
  | e :: evs => '(w', _) ← step w e; run w' evs
  end.

Definition accept (db : ApiKeyDb) (t : Z) : World :=
  {| w_db := db; w_conn := Some (ConnState.new t) |}.

Lemma run_app w evs evs' : run w (evs ++ evs') = w' ← run w evs; run w' evs'.
Proof.
  revert w. induction evs as [|e evs IH]; intros w; simpl; [done|].
  destruct (step w e) as [[w1 a]|]; simpl; [apply IH|done].
Qed.

(** ** Steps of the state machine *)

Definition scope_of (st : ConnState) : option RequestScope :=
  match phase st with Established _ _ _ sc => Some sc | _ => None end.

(** An action that an authenticated client asked for. *)
Definition privileged (a : Action) : bool :=
  match a with AOp _ | ASubscribe _ | ACancel _ => true | _ => false end.

(** The AUTH frame by which a scope was resolved. *)
Definition authenticates (env : Env) (frame : Frame.Frame) (db : ApiKeyDb) (sc : RequestScope)
  : Prop :=
  exists auth, from_cbor_bytes Opcode.Auth (Frame.payload frame) = Ok auth
    /\ derive_scope_from_handshake auth db (store_fails env) = Ok sc.

Lemma set_check_scope t st : scope_of (ConnState.set_check t st) = scope_of st.
Proof. done. Qed.

Lemma revocation_state env db sc sid st :
  exists t, snd (enforce_live_revocation env db sc sid st) = ConnState.set_check t st
    /\ (t = last_revocation_check st \/ t = now env).
Proof.
  unfold enforce_live_revocation. destruct (_ <? _); simpl; [|by exists (now env); auto].
  exists (last_revocation_check st). split; [by destruct st|by left].
Qed.

(** What a privileged action proves about the revocation check. *)
Lemma revocation_admits env db sc sid st :
  fst (enforce_live_revocation env db sc sid st) = None ->
  now env < last_revocation_check st + REVOCATION_RECHECK_WINDOW
  \/ exists row, API_KEYS_TABLE db !! sc_key_hash sc = Some row /\ revoked row = false.
Proof.
  unfold enforce_live_revocation, sat_sub. destruct (Z.ltb_spec (Z.max (now env - last_revocation_check st) 0) REVOCATION_RECHECK_WINDOW).
  - left. lia.
  - simpl. unfold is_key_active, api_key_lookup_by_hash. destruct (store_fails env); [done|].
    destruct (API_KEYS_TABLE db !! _) as [row|]; [|done].
    destruct (revoked row) eqn:E; [done|]. eauto.
Qed.

Lemma on_op_state top sc b sid req st a st' :
  on_op top sc b sid req st = Some (a, st') ->
  (exists router, st' = ConnState.set_txn_shards router st) /\ closes a = false
  /\ (forall op, a = AOp op -> op_scope op = sc /\ op_stream_id op = sid /\ op_req op = req
        /\ op_connection_id op = connection_id st /\ op_act_as op = RequestBody.act_as_of req
        /\ forall x, RequestBody.act_as_of req = Some x -> check_act_as sc x = Ok tt).
Proof.
  unfold on_op. destruct (match RequestBody.act_as_of req with Some x => _ | None => _ end)
    as [[]|[code msg]] eqn:Ec; cycle 1.
  { intros [= <- <-]. split_and!; [|done|done]. exists (txn_shards st). by destruct st. }
  destruct (pick_target_shard _ _ _ _) as [tgt|]; [|done]. cbn [mbind option_bind].
  assert (forall x, RequestBody.act_as_of req = Some x -> check_act_as sc x = Ok tt) as Hc.
  { intros x Hx. by rewrite Hx in Ec. }
  assert (exists router, st = ConnState.set_txn_shards router st) as Hst
    by (exists (txn_shards st); by destruct st).
  destruct req; try (intros [= <- <-]; split_and!; [done|done|]; intros op [= <-]; done).
  destruct (Router.begin _ _ _) as [[] router]; intros [= <- <-];
    (split_and!; [by exists router|done|]); [|done]. by intros op [= <-].
Qed.

(** The router of a connection changes by a begin of the request, and a commit
    or abort goes where the router says. *)
Lemma on_op_router top sc b sid req st a st' :
  on_op top sc b sid req st = Some (a, st') ->
  (txn_shards st' = txn_shards st
   \/ exists r s, req = RequestBody.TxnBegin r
        /\ txn_shards st' = snd (Router.begin (txn_shards st) (begin_txn_id r) s))
  /\ forall op, a = AOp op ->
       match req with
       | RequestBody.TxnBegin r =>
         Router.begin (txn_shards st) (begin_txn_id r) (op_target_shard op) = (true, txn_shards st')
       | RequestBody.TxnCommit r =>
         forall s, Router.route (txn_shards st) (commit_txn_id r) = Some s -> op_target_shard op = s
       | RequestBody.TxnAbort r =>
         forall s, Router.route (txn_shards st) (abort_txn_id r) = Some s -> op_target_shard op = s
       | _ => True
       end.
Proof.
  unfold on_op. destruct (match RequestBody.act_as_of req with Some x => _ | None => _ end)
    as [[]|[code msg]]; [|intros [= <- <-]; split; [by left|done]].
  destruct (pick_target_shard _ _ _ _) as [tgt|]; [|done]. cbn [mbind option_bind].
  destruct req; try (intros [= <- <-]; split; [by left|]; by intros op [= <-]).
  - destruct (Router.begin _ _ _) as [ok router] eqn:Eb.
    assert (exists s, router = snd (Router.begin (txn_shards st) (begin_txn_id r) s)) as [s Es]
      by (exists tgt; by rewrite Eb).
    destruct ok; intros [= <- <-]; (split; [right; by exists r, s|]); [|done].
    by intros op [= <-].
  - intros [= <- <-]. split; [by left|]. intros op [= <-] s Hs. simpl. by rewrite Hs.
  - intros [= <- <-]. split; [by left|]. intros op [= <-] s Hs. simpl. by rewrite Hs.
Qed.

Lemma on_subscribe_spec top sc b sid req a :
  on_subscribe top sc b sid req = Some a ->
  closes a = false /\ (forall op, a <> AOp op)
  /\ forall s, a = ASubscribe s ->
       ss_stream_id s = sid /\ ss_req s = req
       /\ (forall x, subscribe_act_as req = Some x -> check_act_as sc x = Ok tt)
       /\ ss_space s = (match subscribe_act_as req with
                        | Some x => effective_space sc x | None => sc_space_id sc end)
       /\ exists sp, spaces (sub_filter req) = Some sp /\ sp <> []
            /\ Forall (fun id => id = ss_space s) sp.
Proof.
  unfold on_subscribe. destruct (match subscribe_act_as req with Some x => _ | None => Ok tt end)
    as [[]|[code msg]] eqn:Ec; [|by intros [= <-]].
  set (tgt := match subscribe_act_as req with Some x => _ | None => Some _ end).
  destruct tgt as [[eff shard]|] eqn:Et; [|done]. cbn [mbind option_bind].
  assert (eff = match subscribe_act_as req with
                | Some x => effective_space sc x | None => sc_space_id sc end) as ->.
  { subst tgt. destruct (subscribe_act_as req); [|by injection Et].
    by destruct (shard_for_space _ _); [injection Et|]. }
  destruct (subscribe_spaces_allowed _ _) eqn:Ea; [|by intros [= <-]].
  intros [= <-]. split_and!; [done|done|]. intros s [= <-]. simpl. split_and!; [done|done| |done|].
  { intros x Hx. by rewrite Hx in Ec. }
  unfold subscribe_spaces_allowed in Ea. destruct (spaces (sub_filter req)) as [sp|]; [|done].
  exists sp. apply andb_true_iff in Ea as [Hne Hall]. split_and!; [done| |].
  - by apply negb_true_iff, bool_decide_eq_false in Hne.
  - apply Forall_forall. intros id Hid. rewrite forallb_forall in Hall.
    apply Z.eqb_eq, Hall. by apply list_elem_of_In.
Qed.

(** ** One frame *)

(** The frame carries a request that opens transaction [id]. *)
Definition frame_begins (frame : Frame.Frame) (r : TxnBeginRequest) : Prop :=
  exists opcode, Opcode.from_u16 (Header.opcode_u16 (Frame.header frame)) = Ok opcode
    /\ RequestBody.decode opcode (Frame.payload frame) = Ok (RequestBody.TxnBegin r).

Definition router_moves (frame : Frame.Frame) (st st' : ConnState) : Prop :=
  txn_shards st' = txn_shards st
  \/ exists r s, frame_begins frame r
       /\ txn_shards st' = snd (Router.begin (txn_shards st) (begin_txn_id r) s).

(** What is known of an operation that leaves the state machine. *)
Record op_ok (sc : RequestScope) (frame : Frame.Frame) (st st' : ConnState) (op : OpDispatch)
  : Prop := {
  oo_scope : op_scope op = sc;
  oo_connection : op_connection_id op = connection_id st;
  oo_stream : op_stream_id op = Header.stream_id_u32 (Frame.header frame);
  oo_act_as : op_act_as op = RequestBody.act_as_of (op_req op);
  oo_checked : forall x, op_act_as op = Some x -> check_act_as sc x = Ok tt;
  oo_routed :
    match op_req op with
    | RequestBody.TxnBegin r =>
      Router.begin (txn_shards st) (begin_txn_id r) (op_target_shard op) = (true, txn_shards st')
    | RequestBody.TxnCommit r =>
      forall s, Router.route (txn_shards st) (commit_txn_id r) = Some s -> op_target_shard op = s
    | RequestBody.TxnAbort r =>
      forall s, Router.route (txn_shards st) (abort_txn_id r) = Some s -> op_target_shard op = s
    | _ => True
    end;
}.

Record subscription_ok (sc : RequestScope) (s : SubscribeStart) : Prop := {
  so_checked : forall x, subscribe_act_as (ss_req s) = Some x -> check_act_as sc x = Ok tt;
  so_space : ss_space s = match subscribe_act_as (ss_req s) with
                          | Some x => effective_space sc x | None => sc_space_id sc end;
  so_spaces : exists sp, spaces (sub_filter (ss_req s)) = Some sp /\ sp <> []
                /\ Forall (fun id => id = ss_space s) sp;
}.

(** A frame on an established connection. *)
Record established_step (env : Env) (db : ApiKeyDb) (sc : RequestScope) (frame : Frame.Frame)
    (st : ConnState) (a : Action) (st' : ConnState) : Prop := {
  es_phase : phase st' = phase st;
  es_id : connection_id st' = connection_id st;
  es_check : last_revocation_check st' = last_revocation_check st
             \/ last_revocation_check st' = now env /\ (closes a = false ->
                  exists row, API_KEYS_TABLE db !! sc_key_hash sc = Some row /\ revoked row = false);
  es_admits : privileged a = true ->
    now env < last_revocation_check st + REVOCATION_RECHECK_WINDOW
    \/ exists row, API_KEYS_TABLE db !! sc_key_hash sc = Some row /\ revoked row = false;
  es_router : router_moves frame st st';
  es_op : forall op, a = AOp op -> op_ok sc frame st st' op;
  es_sub : forall s, a = ASubscribe s -> subscription_ok sc s;
}.

Lemma revocation_check_state env db sc sid st :
  let st' := snd (enforce_live_revocation env db sc sid st) in
  let denied := fst (enforce_live_revocation env db sc sid st) in
  phase st' = phase st /\ connection_id st' = connection_id st /\ txn_shards st' = txn_shards st
  /\ (forall a, denied = Some a -> closes a = true)
  /\ (last_revocation_check st' = last_revocation_check st
      \/ last_revocation_check st' = now env /\ (denied = None ->
           exists row, API_KEYS_TABLE db !! sc_key_hash sc = Some row /\ revoked row = false)).
Proof.
  unfold enforce_live_revocation. destruct (_ <? _); simpl; [by split_and!; [..|left]|].
  split_and!; [done..| |].
  - destruct (is_key_active _ _ _) as [[]|]; intros a [= <-]; done.
  - right. split; [done|]. unfold is_key_active, api_key_lookup_by_hash.
    destruct (store_fails env); [done|]. destruct (API_KEYS_TABLE db !! _) as [row|]; [|done].
    destruct (revoked row) eqn:E; [done|]. eauto.
Qed.

Lemma on_established_spec env top db opcode frame b sc st a st' :
  Opcode.from_u16 (Header.opcode_u16 (Frame.header frame)) = Ok opcode ->
  on_established env top db opcode frame b sc st = Some (a, st') ->
  established_step env db sc frame st a st'.
Proof.
  intros Hop. unfold on_established. set (sid := Header.stream_id_u32 _).
  pose proof (revocation_check_state env db sc sid st) as Hr.
  pose proof (revocation_admits env db sc sid st) as Ha.
  destruct (enforce_live_revocation env db sc sid st) as [denied st1]. simpl in Hr, Ha.
  destruct Hr as (Hp & Hi & Ht & Hd & Hc). destruct denied as [d|].
  { intros [= <- <-]. specialize (Hd d eq_refl).
    split; [done..| | |by left|by intros op ->|by intros s ->].
    - destruct Hc as [|[Hc _]]; [by left|right]. split; [done|]. by rewrite Hd.
    - by destruct d. }
  specialize (Ha eq_refl). assert (forall x, closes x = false -> router_moves frame st st1 ->
    (forall op, x <> AOp op) -> (forall s, x <> ASubscribe s) ->
    established_step env db sc frame st x st1) as Hplain.
  { intros x Hx Hm H1 H2. split; [done..| |done|done| |]; [|by intros op ->; edestruct H1..
      |by intros s ->; edestruct H2]. destruct Hc as [|[? ?]]; [by left|right]. auto. }
  assert (router_moves frame st st1) as Hm1 by by left.
  destruct (negb _); [intros [= <- <-]; by apply Hplain|].
  destruct (RequestBody.decode opcode _) as [req|e] eqn:Ed; [|intros [= <- <-]; by apply Hplain].
  assert (on_op top sc b sid req st1 = Some (a, st') -> established_step env db sc frame st a st')
    as Hgen.
  { intros Ho. pose proof (on_op_state _ _ _ _ _ _ _ _ Ho) as ([router ->] & Hcl & Hops).
    pose proof (on_op_router _ _ _ _ _ _ _ _ Ho) as [Hmv Hrt].
    split; simpl; [done|done| |done| | |].
    - destruct Hc as [|[? ?]]; [by left|right]. auto.
    - unfold router_moves. simpl in Hmv |- *. rewrite Ht in Hmv.
      destruct Hmv as [->|(r & s & -> & ->)]; [by left|right]. exists r, s. split; [|done].
      by exists opcode.
    - intros op Eop. destruct (Hops op Eop) as (H1 & H2 & H3 & H4 & H5 & H6).
      specialize (Hrt op Eop). rewrite Ht in Hrt. split; rewrite ?H3; try done; [congruence|].
      intros x Hx. apply H6. congruence.
    - intros s ->. unfold on_op in Ho. destruct (match RequestBody.act_as_of req with Some x => _ | None => _ end)
        as [[]|[??]]; [|done]. destruct (pick_target_shard _ _ _ _); [|done].
      cbn [mbind option_bind] in Ho. destruct req; try done.
      by destruct (Router.begin _ _ _) as [[] ?]. }
  destruct req; try exact Hgen; [..|intros [= <- <-]; by apply Hplain
    |intros [= <- <-]; by apply Hplain].
  destruct (on_subscribe _ _ _ _ _) as [a0|] eqn:Es; [|done]. intros [= <- <-].
  apply on_subscribe_spec in Es as (Hcl & Hno & Hsub). split; [done..| |done|done| |].
  - destruct Hc as [|[? ?]]; [by left|right]. auto.
  - intros op ->. by edestruct Hno.
  - intros s ->. destruct (Hsub s eq_refl) as (_ & <- & H1 & H2 & H3). by split.
Qed.

(** A frame is handled without the rights of the connection, or it
    authenticates it, or the connection is established. *)
Inductive frame_effect (env : Env) (db : ApiKeyDb) (frame : Frame.Frame) (st : ConnState)
    (a : Action) (st' : ConnState) : Prop :=
| FE_quiet : privileged a = false -> scope_of st' = scope_of st ->
    txn_shards st' = txn_shards st ->
    last_revocation_check st' = last_revocation_check st -> frame_effect env db frame st a st'
| FE_auth sc : privileged a = false -> scope_of st = None ->
    authenticates env frame db sc -> scope_of st' = Some sc -> txn_shards st' = txn_shards st ->
    last_revocation_check st' = now env -> frame_effect env db frame st a st'
| FE_established sc : scope_of st = Some sc ->
    Z.odd (Header.stream_id_u32 (Frame.header frame)) = true \/ privileged a = false ->
    established_step env db sc frame st a st' -> frame_effect env db frame st a st'.

Lemma on_hello_effect env top db frame st :
  frame_effect env db frame st (fst (on_hello env top frame st)) (snd (on_hello env top frame st)).
Proof.
  unfold on_hello. destruct (phase st) eqn:Ep; [|by apply FE_quiet..].
  destruct (from_cbor_bytes Opcode.Hello _); [|by apply FE_quiet].
  destruct (negotiate _ _); [|by apply FE_quiet].
  apply FE_quiet; [done| |done|done]. unfold scope_of. by rewrite Ep.
Qed.

Lemma on_auth_effect env top db frame st a st' :
  on_auth env top db frame st = Some (a, st') -> frame_effect env db frame st a st'.
Proof.
  unfold on_auth. destruct (phase st) eqn:Ep; [by intros [= <- <-]; apply FE_quiet| |
    by intros [= <- <-]; apply FE_quiet].
  destruct (from_cbor_bytes Opcode.Auth _) as [auth|e] eqn:Ec; [|by intros [= <- <-]; apply FE_quiet].
  destruct (negb _); [by intros [= <- <-]; apply FE_quiet|].
  destruct (derive_scope_from_handshake _ _ _) as [sc|e] eqn:Ed;
    [|by intros [= <- <-]; apply FE_quiet].
  destruct (shard_for_space _ _) as [b|]; [|done]. cbn [mbind option_bind]. intros [= <- <-].
  eapply (FE_auth _ _ _ _ _ _ sc); try done; [unfold scope_of; by rewrite Ep|]. by exists auth.
Qed.

(** A request opcode that passes the rule rides on an odd stream. *)
Lemma stream_rule_odd opcode sid :
  stream_rule opcode sid = None -> Opcode.is_connection_level opcode = false ->
  opcode <> Opcode.Error -> Z.odd sid = true.
Proof.
  unfold stream_rule. intros Hr Hc Hne. rewrite bool_decide_false, Hc in Hr by done.
  destruct ((sid =? 0) || Z.even sid) eqn:E; [done|]. apply orb_false_iff in E as [_ E].
  by rewrite <- Z.negb_even, E.
Qed.

(** Opcodes that are no request never leave the state machine. *)
Lemma on_established_request env top db opcode frame b sc st a st' :
  on_established env top db opcode frame b sc st = Some (a, st') -> privileged a = true ->
  Opcode.is_request opcode = true.
Proof.
  unfold on_established. set (sid := Header.stream_id_u32 _).
  pose proof (revocation_check_state env db sc sid st) as Hr.
  destruct (enforce_live_revocation env db sc sid st) as [[d|] st1]; simpl in Hr.
  - intros [= <- <-]. destruct Hr as (_ & _ & _ & Hd & _). specialize (Hd d eq_refl). by destruct d.
  - destruct (Opcode.is_request opcode); [done|]. by intros [= <- <-].
Qed.

Lemma dispatch_effect env top db frame st a st' :
  dispatch_frame env top db frame st = Some (a, st') -> frame_effect env db frame st a st'.
Proof.
  unfold dispatch_frame. destruct (Opcode.from_u16 _) as [op|e] eqn:Eop;
    [|by intros [= <- <-]; apply FE_quiet].
  destruct (stream_rule op _) as [x|] eqn:Er.
  { assert (privileged x = false) as Hx.
    { unfold stream_rule in Er. repeat case_match; simplify_eq; done. }
    intros [= <- <-]. by apply FE_quiet. }
  assert ((Opcode.is_request op = true -> Opcode.is_connection_level op = false) ->
    match phase st with
    | Established _ bound_shard _ scope =>
      on_established env top db op frame bound_shard scope st
    | _ => Some (Inline (error_frame (Header.stream_id_u32 (Frame.header frame))
             ErrorCode.NotAuthenticated
             (Text "operation requires established (post-AUTH_OK) connection")), st)
    end = Some (a, st') -> frame_effect env db frame st a st') as Hest.
  { intros Hcl. destruct (phase st) as [| |sp b pm sc] eqn:Ep;
      [by intros [= <- <-]; apply FE_quiet..|].
    intros He. eapply (FE_established _ _ _ _ _ _ sc).
    - unfold scope_of. by rewrite Ep.
    - destruct (privileged a) eqn:Hpr; [left|by right].
      pose proof (on_established_request _ _ _ _ _ _ _ _ _ _ He Hpr) as Hreq.
      eapply stream_rule_odd; [done|by apply Hcl|]. by intros ->.
    - by eapply on_established_spec. }
  destruct op; try (apply Hest; done).
  - intros [= E]. pose proof (on_hello_effect env top db frame st) as Hh. by rewrite E in Hh.
  - by apply on_auth_effect.
  - intros [= <- <-]. apply FE_quiet; [|done..]. unfold on_ping. by destruct (from_cbor_bytes Opcode.Ping _).
  - by intros [= <- <-]; apply FE_quiet.
  - by intros [= <- <-]; apply FE_quiet.
Qed.

Lemma on_frame_effect env top db frame permit st a st' :
  on_frame env top db frame permit st = Some (a, st') -> frame_effect env db frame st a st'.
Proof.
  unfold on_frame. destruct (dispatch_frame env top db frame st) as [[a0 st0]|] eqn:Ed; [|done].
  apply dispatch_effect in Ed. cbn [mbind option_bind].
  destruct a0 as [f|op|s|c|f| |]; try (intros [= <- <-]; exact Ed).
  destruct Ed as [? | |sc Hsc Hodd [H1 H2 H3 H4 H5 H6 H7]]; [done..|].
  set (st1 := if is_txn_begin _ then _ else _).
  assert (phase st1 = phase st0 /\ connection_id st1 = connection_id st0
    /\ txn_shards st1 = txn_shards st0
    /\ last_revocation_check st1 = last_revocation_check st0) as (E1 & E2 & E3 & E4)
    by (unfold st1; by destruct (is_txn_begin _)).
  unfold router_moves in H5. rewrite <- E1, <- E2, <- ?E3, <- E4 in *.
  destruct permit; intros [= <- <-]; eapply (FE_established _ _ _ _ _ _ sc); try done.
  - split; try done. intros op' [= <-]. destruct (H6 op eq_refl) as [? ? ? ? ? Hr].
    split; try done. by rewrite E3.
  - by right.
Qed.

(** ** Runs *)

(** Rows are filed under the hash of their key. *)
Definition keys_ok (db : ApiKeyDb) : Prop :=
  forall h r, API_KEYS_TABLE db !! h = Some r -> key_hash r = h.

Lemma key_step_ok db op db' : keys_ok db -> key_step db op = Some db' -> keys_ok db'.
Proof.
  intros Hok Hs. destruct op as [sec org user ns sp perms act t|k|k t]; simpl in Hs.
  - unfold api_key_create in Hs. case_match; [|done].
    destruct (API_KEYS_TABLE db !! hash_secret sec) eqn:E; simplify_eq/=; [done|].
    intros h r Hr. simpl in Hr. apply lookup_insert_Some in Hr as [[<- <-]|[_ Hr]];
      [done|by apply Hok].
  - unfold api_key_revoke in Hs. destruct (API_KEYS_TABLE db !! k) as [row|] eqn:E;
      simplify_eq/=; [|done]. destruct (revoked row); [done|].
    intros h r Hr. simpl in Hr. apply lookup_insert_Some in Hr as [[<- <-]|[_ Hr]];
      [by apply Hok in E|by apply Hok].
  - unfold api_key_touch_last_used in Hs. destruct (API_KEYS_TABLE db !! k) as [row|] eqn:E;
      simplify_eq/=; [|done]. destruct (_ <? _); [|done].
    intros h r Hr. simpl in Hr. apply lookup_insert_Some in Hr as [[<- <-]|[_ Hr]];
      [by apply Hok in E|by apply Hok].
Qed.

(** A scope that AUTH resolves is the one of a row that is not revoked. *)
Lemma authenticates_row env frame db sc :
  keys_ok db -> authenticates env frame db sc ->
  exists row, API_KEYS_TABLE db !! sc_key_hash sc = Some row /\ scope_from_row row = sc
    /\ revoked row = false.
Proof.
  intros Hok (auth & _ & Hd). unfold derive_scope_from_handshake in Hd.
  destruct (method auth), (credentials auth); try done. case_bool_decide; [done|].
  unfold lookup, api_key_lookup_by_secret, api_key_lookup_by_hash in Hd.
  destruct (store_fails env); [done|]. cbn [map_err] in Hd.
  destruct (API_KEYS_TABLE db !! _) as [row|] eqn:E; [|done]. cbn [ok_or] in Hd.
  destruct (revoked row) eqn:Er; [done|]. apply Ok_inj in Hd as <-.
  exists row. split_and!; [|done|done]. simpl. by rewrite (Hok _ _ E).
Qed.

Lemma step_db w e w' oa :
  step w e = Some (w', oa) -> keys_ok (w_db w) ->
  keys_ok (w_db w') /\ forall h r, API_KEYS_TABLE (w_db w) !! h = Some r ->
    exists r', API_KEYS_TABLE (w_db w') !! h = Some r' /\ row_extends r r'.
Proof.
  intros Hs Hok. assert (forall r, row_extends r r) as Hrefl by (by intros r; split).
  destruct e as [env top f p|o|op]; simpl in Hs.
  - destruct (w_conn w); [|done]. simpl in Hs. destruct (on_frame _ _ _ _ _ _) as [[??]|]; [|done].
    injection Hs as <- <-. eauto.
  - destruct (w_conn w); [|done]. injection Hs as <- <-. eauto.
  - destruct (key_step _ _) as [db|] eqn:E; [|done]. injection Hs as <- <-.
    split; [by eapply key_step_ok|]. intros h r. by eapply key_step_rows.
Qed.

Lemma run_db w evs w' :
  run w evs = Some w' -> keys_ok (w_db w) ->
  keys_ok (w_db w') /\ forall h r, API_KEYS_TABLE (w_db w) !! h = Some r ->
    exists r', API_KEYS_TABLE (w_db w') !! h = Some r' /\ row_extends r r'.
Proof.
  revert w. induction evs as [|e evs IH]; intros w; simpl.
  { intros [= <-] Hok. split; [done|]. intros h r Hr. exists r. by split; [|split]. }
  destruct (step w e) as [[w1 oa]|] eqn:Es; [|done]. simpl. intros Hr Hok.
  destruct (step_db _ _ _ _ Es Hok) as [Hok1 H1]. destruct (IH _ Hr Hok1) as [Hok2 H2].
  split; [done|]. intros h r Hh. destruct (H1 h r Hh) as (r1 & Hr1 & E1 & R1).
  destruct (H2 h r1 Hr1) as (r2 & Hr2 & E2 & R2). exists r2. split; [done|]. split; [congruence|auto].
Qed.

Lemma step_frame_inv w env top f p w' oa :
  step w (EvFrame env top f p) = Some (w', oa) ->
  exists st a st', w_conn w = Some st /\ oa = Some a /\ w_db w' = w_db w
    /\ (forall st0, w_conn w' = Some st0 -> st0 = st' /\ closes a = false)
    /\ frame_effect env (w_db w) f st a st'.
Proof.
  simpl. destruct (w_conn w) as [st|]; [|done]. simpl.
  destruct (on_frame _ _ _ _ _ _) as [[a st']|] eqn:E; [|done]. intros [= <- <-].
  exists st, a, st'. split_and!; [done..| |by eapply on_frame_effect].
  intros st0. simpl. by destruct (closes a); intros [= <-].
Qed.
End connection.
