(* ===== verification/Session.v ===== *)
(** What a connection guarantees over its lifetime: identity, revocation,
    delegation, subscriptions and the shard of a transaction
    ([brain-server/src/network/dispatch.rs] and [connection.rs] with the gates
    of [brain-ops/src/dispatch.rs]). *)

From stdpp Require Import gmap.
From S2P Require Import Prelude Ids Wire Opcode Request Access TxnRouter Handshake Routing Dispatch.
From S2P Require Import OpTask Connection.

Section session.
Context `{Ciborium, Crates}.

(** ** Identity *)

(** The AUTH frame of a run that resolved a scope, and the store it saw. *)
Definition credential (w0 : World) (evs : list event) (sc : RequestScope) : Prop :=
  exists pre env top f p post w1, evs = pre ++ EvFrame env top f p :: post
    /\ run w0 pre = Some w1 /\ authenticates env f (w_db w1) sc.

Lemma credential_snoc w0 evs e sc : credential w0 evs sc -> credential w0 (evs ++ [e]) sc.
Proof.
  intros (pre & env & top & f & p & post & w1 & -> & Hr & Ha).
  exists pre, env, top, f, p, (post ++ [e]), w1. by rewrite <- app_assoc.
Qed.

Lemma run_snoc w evs e w' :
  run w (evs ++ [e]) = Some w' ->
  exists w1 oa, run w evs = Some w1 /\ step w1 e = Some (w', oa).
Proof.
  rewrite run_app. destruct (run w evs) as [w1|]; [|done]. simpl.
  destruct (step w1 e) as [[w2 oa]|] eqn:E; [|done]. intros [= <-]. by exists w1, oa.
Qed.

Lemma run_credential db t evs w st sc :
  run (accept db t) evs = Some w -> w_conn w = Some st -> scope_of st = Some sc ->
  credential (accept db t) evs sc.
Proof.
  revert w st. induction evs as [|e evs IH] using rev_ind; intros w st.
  { by intros [= <-] [= <-]. }
  intros (w1 & oa & Hr & Hs)%run_snoc Hc Hsc. destruct e as [env top f p|o|op].
  - destruct (step_frame_inv _ _ _ _ _ _ _ Hs) as (st1 & a & st' & Hc1 & _ & _ & Hc' & He).
    destruct (Hc' _ Hc) as [<- _].
    destruct He as [_ E|sc' _ _ Ha E|sc' E1 _ Hes].
    + rewrite Hsc in E. by eapply credential_snoc, IH.
    + assert (sc' = sc) as -> by congruence. exists evs, env, top, f, p, [], w1. by split_and!.
    + apply credential_snoc, (IH w1 st1 Hr Hc1).
      unfold scope_of in *. by rewrite (es_phase _ _ _ _ _ _ _ Hes) in Hsc.
  - simpl in Hs. destruct (w_conn w1) as [st1|] eqn:Ec; [|done]. simpl in Hs. simplify_eq/=.
    by eapply credential_snoc, IH.
  - simpl in Hs. destruct (key_step _ _); [|done]. simplify_eq/=. by eapply credential_snoc, IH.
Qed.

(** The row of a credential stays in the store, with the same identity. *)
Lemma credential_row w0 evs w sc :
  keys_ok (w_db w0) -> run w0 evs = Some w -> credential w0 evs sc ->
  exists row, API_KEYS_TABLE (w_db w) !! sc_key_hash sc = Some row /\ scope_from_row row = sc.
Proof.
  intros Hok Hr (pre & env & top & f & p & post & w1 & -> & Hr1 & Ha).
  rewrite run_app, Hr1 in Hr. cbn [mbind option_bind] in Hr.
  destruct (run_db _ _ _ Hr1 Hok) as [Hok1 _]. destruct (run_db _ _ _ Hr Hok1) as [_ Hrows].
  destruct (authenticates_row _ _ _ _ Hok1 Ha) as (row & Hrow & Hsc & _).
  destruct (Hrows _ _ Hrow) as (row' & Hrow' & Hsc' & _). exists row'. split; [done|congruence].
Qed.

(** Identity is the credential: whenever a connection lets an operation, a
    subscription or a cancellation through, an earlier AUTH frame of that
    connection presented a token whose key was in the store and not revoked at
    that moment; an operation carries exactly the scope of that key, whose row
    is in the store at the time of the operation, and rides on an odd stream. *)
Theorem op_needs_credential db t evs w env top f p w' a :
  keys_ok db -> run (accept db t) evs = Some w ->
  step w (EvFrame env top f p) = Some (w', Some a) -> privileged a = true ->
  exists sc, credential (accept db t) evs sc
    /\ (exists row, API_KEYS_TABLE (w_db w) !! sc_key_hash sc = Some row /\ scope_from_row row = sc)
    /\ Z.odd (Header.stream_id_u32 (Frame.header f)) = true
    /\ forall op, a = AOp op -> op_scope op = sc.
Proof.
  intros Hok Hr Hs Hp.
  destruct (step_frame_inv _ _ _ _ _ _ _ Hs) as (st & a' & st' & Hc & [= <-] & _ & _ & He).
  destruct He as [Hq|sc' Hq|sc Hsc [Hodd|Hq] Hes]; [congruence..| |congruence].
  exists sc. assert (credential (accept db t) evs sc) as Hcr by by eapply run_credential.
  split_and!; [done|by eapply (credential_row (accept db t) evs w sc Hok)|done|]. intros op ->.
  apply (es_op _ _ _ _ _ _ _ Hes op eq_refl).
Qed.

(** ** Revocation *)

Definition before (T : Z) (e : event) : Prop :=
  match e with EvFrame env _ _ _ => now env <= T | _ => True end.

Lemma run_check_before w evs w' T :
  run w evs = Some w' -> Forall (before T) evs ->
  (forall st, w_conn w = Some st -> last_revocation_check st <= T) ->
  forall st, w_conn w' = Some st -> last_revocation_check st <= T.
Proof.
  revert w. induction evs as [|e evs IH]; intros w; simpl; [by intros [= <-]|].
  destruct (step w e) as [[w1 oa]|] eqn:Es; [|done]. simpl. intros Hr [He Hf]%Forall_cons H1.
  apply (IH w1 Hr Hf). destruct e as [env top f p|o|op].
  - destruct (step_frame_inv _ _ _ _ _ _ _ Es) as (st & a & st' & Hc & _ & _ & Hc' & Heff).
    intros st0 [-> _]%Hc'. specialize (H1 _ Hc). simpl in He.
    destruct Heff as [_ _ _ ->|sc _ _ _ _ _ ->|sc _ _ Hes]; [done..|].
    destruct (es_check _ _ _ _ _ _ _ Hes) as [->|[-> _]]; done.
  - simpl in Es. destruct (w_conn w); [|done]. simplify_eq/=. intros st [= <-]. exact (H1 _ eq_refl).
  - simpl in Es. destruct (key_step _ _); [|done]. by simplify_eq/=.
Qed.

(** With the key revoked, no check of it has passed since. *)
Lemma run_revoked w evs w' h T row :
  run w evs = Some w' -> keys_ok (w_db w) ->
  API_KEYS_TABLE (w_db w) !! h = Some row -> revoked row = true ->
  (forall st sc, w_conn w = Some st -> scope_of st = Some sc -> sc_key_hash sc = h ->
     last_revocation_check st <= T) ->
  (exists row', API_KEYS_TABLE (w_db w') !! h = Some row' /\ revoked row' = true)
  /\ forall st sc, w_conn w' = Some st -> scope_of st = Some sc -> sc_key_hash sc = h ->
       last_revocation_check st <= T.
Proof.
  revert w row. induction evs as [|e evs IH]; intros w row; simpl.
  { intros [= <-]. eauto. }
  destruct (step w e) as [[w1 oa]|] eqn:Es; [|done]. simpl. intros Hr Hok Hrow Hrev H1.
  destruct (step_db _ _ _ _ Es Hok) as [Hok1 Hrows].
  destruct (Hrows _ _ Hrow) as (row1 & Hrow1 & _ & Hrev1).
  eapply (IH w1 row1); [done|done|done|by apply Hrev1|].
  destruct e as [env top f p|o|op].
  - destruct (step_frame_inv _ _ _ _ _ _ _ Es) as (st & a & st' & Hc & _ & _ & Hc' & Heff).
    intros st0 sc [-> Ecl]%Hc' Hsc Hh. destruct Heff as [_ E _ ->|sc' _ _ Ha E _ ->|sc' E _ Hes].
    + apply (H1 st sc); [done|congruence|done].
    + assert (sc' = sc) as -> by congruence.
      destruct (authenticates_row _ _ _ _ Hok Ha) as (r & Hr0 & _ & Hr1). congruence.
    + assert (sc' = sc) as -> by
        (unfold scope_of in *; rewrite (es_phase _ _ _ _ _ _ _ Hes) in Hsc; congruence).
      destruct (es_check _ _ _ _ _ _ _ Hes) as [->|[_ Hact]]; [by apply (H1 st sc)|].
      destruct (Hact Ecl) as (r & Hr0 & Hr1). congruence.
  - simpl in Es. destruct (w_conn w) as [st|] eqn:Ec; [|done]. simplify_eq/=.
    intros st0 sc [= <-]. exact (H1 _ sc eq_refl).
  - simpl in Es. destruct (key_step _ _); [|done]. simplify_eq/=. by apply H1.
Qed.

(** C14: revocation is prompt: once a key is revoked in the store, no operation,
    subscription or cancellation under it passes five seconds after the last
    frame that the connection handled before the revocation, or later. *)
Theorem revocation_prompt db t pre w1 h row post w2 env top f p w3 a T :
  keys_ok db -> run (accept db t) pre = Some w1 -> t <= T -> Forall (before T) pre ->
  API_KEYS_TABLE (w_db w1) !! h = Some row -> revoked row = true ->
  run w1 post = Some w2 ->
  step w2 (EvFrame env top f p) = Some (w3, Some a) -> privileged a = true ->
  (forall st sc, w_conn w2 = Some st -> scope_of st = Some sc -> sc_key_hash sc = h) ->
  now env < T + REVOCATION_RECHECK_WINDOW.
Proof.
  intros Hok Hr1 Ht Hpre Hrow Hrev Hr2 Hs Hp Hh.
  destruct (run_db _ _ _ Hr1 Hok) as [Hok1 _].
  assert (forall st, w_conn w1 = Some st -> last_revocation_check st <= T) as Hc1.
  { eapply run_check_before; [done..|]. by intros st [= <-]. }
  destruct (run_revoked _ _ _ h T row Hr2 Hok1 Hrow Hrev) as [(row' & Hrow' & Hrev') Hc2].
  { intros st sc Hc _ _. by apply Hc1. }
  destruct (step_frame_inv _ _ _ _ _ _ _ Hs) as (st & a' & st' & Hc & [= <-] & _ & _ & He).
  destruct He as [Hq|sc' Hq|sc Hsc _ Hes]; [congruence..|].
  specialize (Hc2 _ _ Hc Hsc (Hh _ _ Hc Hsc)).
  destruct (es_admits _ _ _ _ _ _ _ Hes Hp) as [|(r & Hr & Hr')]; [lia|].
  rewrite (Hh _ _ Hc Hsc) in Hr. congruence.
Qed.

(** ** Authorization *)

Lemma land_inside g d bit : Z.land g d = g -> Z.land g bit = bit -> Z.land d bit = bit.
Proof. intros Hg Hb. by rewrite <- Hb, Z.land_assoc, (Z.land_comm d g), Hg. Qed.

Lemma gates_allow req c shared t rd wr ctx t' :
  dispatch_gates req c shared t rd wr = Some (Ok ctx, t') ->
  (forall bit what, required_permission req = Some (bit, what) ->
     Z.land (rc_permissions c) bit = bit)
  /\ exists x, build_per_request_ctx c shared t rd wr = Some (Ok x, t') /\ ctx = default shared x.
Proof.
  unfold dispatch_gates. destruct (enforce_permission c req) as [[]|] eqn:Ep; [|done].
  destruct (enforce_namespace c req) as [[]|]; [|done].
  destruct (build_per_request_ctx _ _ _ _ _) as [[[x|] t1]|]; [|done..]. simpl.
  intros [= <- <-]. split; [|by exists x]. intros bit what Hreq.
  unfold enforce_permission in Ep. rewrite Hreq in Ep. unfold require, allows in Ep.
  destruct (Z.eqb_spec (Z.land (rc_permissions c) bit) bit); done.
Qed.

Lemma check_act_as_spec sc x :
  check_act_as sc x = Ok tt ->
  Z.land (sc_permissions sc) perm_ACT_AS <> 0
  /\ (exists ns, ns ∈ sc_may_act sc /\ (ns = "*"%string \/ ns = aa_namespace x))
  /\ act_as_grant_violation (sc_permissions sc) (aa_grant x) = None.
Proof.
  unfold check_act_as. destruct (Z.eqb_spec (Z.land (sc_permissions sc) perm_ACT_AS) 0); [done|].
  destruct (existsb _ _) eqn:E; [|done]. destruct (act_as_grant_violation _ _); [done|].
  intros _. split_and!; [done| |done]. apply existsb_exists in E as (ns & Hin & Hns).
  exists ns. split; [by apply list_elem_of_In|]. by apply bool_decide_eq_true in Hns.
Qed.

(** The space and the namespace of an operation: those of the key, or those
    that the selector names. *)
Definition acting_space (sc : RequestScope) (a : option ActAs) : Z :=
  match a with None => sc_space_id sc | Some x => effective_space sc x end.

Definition acting_namespace (sc : RequestScope) (a : option ActAs) : string :=
  match a with None => sc_namespace sc | Some x => aa_namespace x end.

(** The rights an operation can use: those of the key; delegated, the standard
    set and those of the key that are delegable. *)
Definition acting_rights (sc : RequestScope) (a : option ActAs) : Z :=
  match a with
  | None => sc_permissions sc
  | Some _ => Z.lor STANDARD_SPACE (Z.land DELEGABLE (sc_permissions sc))
  end.

Lemma op_caller_acting op :
  rc_space_id (op_caller op) = acting_space (op_scope op) (op_act_as op)
  /\ rc_namespace (op_caller op) = acting_namespace (op_scope op) (op_act_as op)
  /\ Z.land (rc_permissions (op_caller op)) (acting_rights (op_scope op) (op_act_as op))
     = rc_permissions (op_caller op).
Proof.
  unfold op_caller. destruct (op_act_as op) as [x|]; simpl; split_and!; try done; [|apply Z.land_diag].
  unfold delegated_permissions. apply Z.bits_inj'. intros n _. rewrite !Z.land_spec, !Z.lor_spec, !Z.land_spec.
  by destruct (Z.testbit STANDARD_SPACE n), (Z.testbit (aa_grant x) n), (Z.testbit (sc_permissions _) n),
    (Z.testbit DELEGABLE n).
Qed.

Lemma build_ctx_shared c shared t rd wr x t' :
  rc_space_id c = 0 -> build_per_request_ctx c shared t rd wr = Some (Ok x, t') ->
  caller_space (default shared x) = caller_space shared
  /\ caller_namespace (default shared x) = caller_namespace shared.
Proof. intros Hz. unfold build_per_request_ctx. rewrite Hz. simpl. by destruct (negb _); intros [= <- <-]. Qed.

(** C5: no operation exceeds the credential of its connection.  Whenever a
    connection lets an operation through, an earlier AUTH frame of it presented
    a token whose key was in the store and not revoked at that moment, and the
    row of that key is still there, with the scope the key had then.  If the
    gates of the shard hand the operation to a handler, it runs in the space
    and the namespace of that key, or of the selector of its own request (a
    space id of zero is no space: the handler then runs in the space the shard
    has configured); the permission its opcode needs, if it needs one, is one
    of the key, or, delegated, of the standard set or a delegable one of the
    key; and it is delegated only if the key may act for that namespace, runs
    without the right to delegate further and with exactly the standard set
    and the rights granted, all delegable and all of the key. *)
Theorem op_authorized db t0 evs w env top f p w' op shared t rd wr ctx t' :
  keys_ok db -> run (accept db t0) evs = Some w ->
  step w (EvFrame env top f p) = Some (w', Some (AOp op)) ->
  names_ok t -> dispatch_gates (op_req op) (op_caller op) shared t rd wr = Some (Ok ctx, t') ->
  let a := RequestBody.act_as_of (op_req op) in
  exists sc, credential (accept db t0) evs sc
    /\ (exists row, API_KEYS_TABLE (w_db w) !! sc_key_hash sc = Some row /\ scope_from_row row = sc)
    /\ (acting_space sc a <> 0 -> caller_space ctx = acting_space sc a /\ caller_namespace ctx <> 0
          /\ NAMESPACE_BY_NAME_TABLE t' !! acting_namespace sc a = Some (caller_namespace ctx))
    /\ (acting_space sc a = 0 ->
          caller_space ctx = caller_space shared /\ caller_namespace ctx = caller_namespace shared)
    /\ (forall bit what, required_permission (op_req op) = Some (bit, what) ->
          Z.land (acting_rights sc a) bit = bit)
    /\ forall x, a = Some x ->
         Z.land (sc_permissions sc) perm_ACT_AS <> 0
         /\ (exists ns, ns ∈ sc_may_act sc /\ (ns = "*"%string \/ ns = aa_namespace x))
         /\ Z.land (rc_permissions (op_caller op)) perm_ACT_AS = 0
         /\ (u32 (aa_grant x) -> Z.land (aa_grant x) DELEGABLE = aa_grant x
               /\ Z.land (aa_grant x) (sc_permissions sc) = aa_grant x
               /\ rc_permissions (op_caller op) = Z.lor STANDARD_SPACE (aa_grant x)).
Proof.
  intros Hkeys Hr Hs Hok Hd a.
  destruct (step_frame_inv _ _ _ _ _ _ _ Hs) as (st & a0 & st' & Hc & [= <-] & _ & _ & He).
  destruct He as [|?|sc Hsc _ Hes]; [done..|].
  destruct (es_op _ _ _ _ _ _ _ Hes op eq_refl) as [Esc _ _ Hact Hck _].
  assert (credential (accept db t0) evs sc) as Hcr by by eapply run_credential.
  destruct (op_caller_acting op) as (Hsp & Hnm & Hri). rewrite Esc, Hact in Hsp, Hnm, Hri. fold a in Hsp, Hnm, Hri.
  destruct (gates_allow _ _ _ _ _ _ _ _ Hd) as (Hperm & x0 & Hb & ->).
  destruct (build_ctx_ok _ _ _ _ _ _ _ Hok Hb) as (_ & _ & Hx). rewrite Hsp, Hnm in Hx.
  exists sc. split_and!; [done|by eapply (credential_row (accept db t0) evs w sc Hkeys)| | | |].
  - intros Hz. destruct (Hx Hz _ eq_refl) as (own & -> & H1 & H2 & _ & H3). done.
  - intros Hz. eapply build_ctx_shared; [|exact Hb]. by rewrite Hsp.
  - intros bit what Hreq. eapply land_inside; [exact Hri|by eapply Hperm].
  - intros x Ex. destruct (check_act_as_spec _ _ (Hck x ltac:(by rewrite Hact))) as (H1 & H2 & H3).
    unfold op_caller. rewrite Hact, Esc. fold a. rewrite Ex. split_and!; [done..|apply delegated_no_act_as|].
    intros Hg. by apply grant_accepted.
Qed.

(** A subscription that a connection starts names its spaces, all of them
    the one space it runs under: the key's own, or the one that a selector names
    for a key that may act for that namespace. *)
Theorem subscription_isolated w env top f p w' s st sc :
  step w (EvFrame env top f p) = Some (w', Some (ASubscribe s)) ->
  w_conn w = Some st -> scope_of st = Some sc ->
  (exists sp, spaces (sub_filter (ss_req s)) = Some sp /\ sp <> []
     /\ Forall (fun id => id = ss_space s) sp)
  /\ match subscribe_act_as (ss_req s) with
     | None => ss_space s = sc_space_id sc
     | Some x =>
       ss_space s = effective_space sc x /\ Z.land (sc_permissions sc) perm_ACT_AS <> 0
       /\ exists ns, ns ∈ sc_may_act sc /\ (ns = "*"%string \/ ns = aa_namespace x)
     end.
Proof.
  intros Hs Hc Hsc.
  destruct (step_frame_inv _ _ _ _ _ _ _ Hs) as (st0 & a & st' & Hc0 & [= <-] & _ & _ & He).
  assert (st0 = st) as -> by congruence.
  destruct He as [|?|sc' Hsc' _ Hes]; [done..|]. assert (sc' = sc) as -> by congruence.
  destruct (es_sub _ _ _ _ _ _ _ Hes s eq_refl) as [Hck Hspace Hsp]. split; [done|].
  destruct (subscribe_act_as (ss_req s)) as [x|]; [|done].
  destruct (check_act_as_spec _ _ (Hck x eq_refl)) as (H1 & H2 & _). done.
Qed.

(** ** Transactions *)

(** What an event may do to the router of the connection. *)
Definition causes (e : event) (re : router_event) : Prop :=
  match re with
  | EvBegin id _ => exists env top f p r, e = EvFrame env top f p /\ frame_begins f r
                      /\ begin_txn_id r = id
  | EvOutcome o => e = EvTxn o
  end.

Definition confirming (e : event) : Prop :=
  match e with EvTxn o => out_kind o = ConfirmedTerminal | _ => False end.

#[global] Instance confirming_dec e : Decision (confirming e).
Proof. destruct e as [| [? []]|]; simpl; [right; tauto|left; done|right; done|right; tauto]. Defined.

Definition conn_confirmations (evs : list event) : nat := length (filter confirming evs).

Lemma step_routes w e w' oa st' :
  step w e = Some (w', oa) -> w_conn w' = Some st' ->
  exists st revs, w_conn w = Some st
    /\ txn_shards st' = run_router (txn_shards st) revs /\ Forall (causes e) revs
    /\ confirmations revs = length (filter confirming [e]).
Proof.
  intros Hs Hc'. destruct e as [env top f p|o|op].
  - destruct (step_frame_inv _ _ _ _ _ _ _ Hs) as (st & a & st1 & Hc & _ & _ & Hcl & He).
    destruct (Hcl _ Hc') as [-> _]. exists st.
    assert (router_moves f st st1) as [E|(r & s & Hb & E)].
    { destruct He as [_ _ E _|sc _ _ _ _ E _|sc _ _ Hes]; [by left|by left|apply Hes]. }
    + exists []. by rewrite E.
    + exists [EvBegin (begin_txn_id r) s]. rewrite E. split_and!; [done|done| |done].
      constructor; [|done]. by exists env, top, f, p, r.
  - simpl in Hs. destruct (w_conn w) as [st|]; [|done]. simplify_eq/=.
    exists st, [EvOutcome o]. split_and!; [done|done|by repeat constructor|].
    by destruct o as [? []].
  - simpl in Hs. destruct (key_step _ _); [|done]. simplify_eq/=. by exists st', [].
Qed.

Lemma run_routes w evs w' st' :
  run w evs = Some w' -> w_conn w' = Some st' ->
  exists st revs, w_conn w = Some st
    /\ txn_shards st' = run_router (txn_shards st) revs
    /\ Forall (fun re => Exists (fun e => causes e re) evs) revs
    /\ confirmations revs = conn_confirmations evs.
Proof.
  revert w. induction evs as [|e evs IH]; intros w; simpl.
  { intros [= <-] Hc. by exists st', []. }
  destruct (step w e) as [[w1 oa]|] eqn:Es; [|done]. simpl. intros Hr Hc.
  destruct (IH _ Hr Hc) as (st1 & revs1 & Hc1 & E1 & F1 & N1).
  destruct (step_routes _ _ _ _ _ Es Hc1) as (st & revs & Hc0 & E0 & F0 & N0).
  exists st, (revs ++ revs1). split_and!; [done| | |].
  - unfold run_router. rewrite foldl_app, E1, E0. done.
  - apply Forall_app. split; [|eapply Forall_impl; [exact F1|]; intros; by right].
    eapply Forall_impl; [exact F0|]. intros. by left.
  - unfold confirmations, conn_confirmations in *. rewrite filter_app, length_app, N0, N1.
    rewrite (filter_cons _ e evs), filter_cons. by destruct (decide (confirming e)).
Qed.

(** The event neither begins the transaction again nor reports that its begin
    was rejected. *)
Definition spares (id : Z) (e : event) : Prop :=
  match e with
  | EvFrame _ _ f _ => forall r, frame_begins f r -> begin_txn_id r <> id
  | EvTxn o => out_kind o = BeginRejected -> out_txn_id o <> id
  | EvKey _ => True
  end.

Definition unconfirmed (id : Z) (e : event) : Prop :=
  match e with EvTxn o => out_kind o = ConfirmedTerminal -> out_txn_id o <> id | _ => True end.

Lemma spared id evs revs :
  Forall (spares id) evs -> Forall (fun re => Exists (fun e => causes e re) evs) revs ->
  Forall (fun re => ~ begins id re /\ ~ rejects id re) revs.
Proof.
  intros Hsp Hc. eapply Forall_impl; [exact Hc|]. intros re (e & Hin & Hce)%Exists_exists.
  rewrite Forall_forall in Hsp. specialize (Hsp e Hin).
  destruct re as [id' s|[id' []]]; simpl in *.
  - destruct Hce as (env & top & f & p & r & -> & Hb & <-). split; [by apply Hsp|tauto].
  - tauto.
  - subst e. split; [tauto|]. by apply Hsp.
Qed.

Lemma not_confirmed id evs revs :
  Forall (unconfirmed id) evs -> Forall (fun re => Exists (fun e => causes e re) evs) revs ->
  Forall (fun re => ~ confirms id re) revs.
Proof.
  intros Hsp Hc. eapply Forall_impl; [exact Hc|]. intros re (e & Hin & Hce)%Exists_exists.
  rewrite Forall_forall in Hsp. specialize (Hsp e Hin).
  destruct re as [id' s|[id' []]]; simpl in *; [tauto| |tauto]. subst e. by apply Hsp.
Qed.

(** The router of a connection is one of a run from the empty router. *)
Lemma conn_router_ok db t evs w st :
  run (accept db t) evs = Some w -> w_conn w = Some st -> router_ok (txn_shards st).
Proof.
  intros Hr Hc. destruct (run_routes _ _ _ _ Hr Hc) as (st0 & revs & [= <-] & -> & _).
  apply run_router_ok, router_ok_new.
Qed.

Definition ends_txn (req : RequestBody.RequestBody) (id : Z) : Prop :=
  match req with
  | RequestBody.TxnCommit r => commit_txn_id r = id
  | RequestBody.TxnAbort r => abort_txn_id r = id
  | _ => False
  end.

(** C30: a transaction ends on the shard where it began: after a TXN_BEGIN that
    a connection dispatched for an id outside its retry window, every commit or
    abort of that id that it dispatches goes to the same shard, whatever else
    the connection does and however the routing table changes, as long as the
    id is not begun again and the begin is not reported as rejected: without
    limit until the end is confirmed, and over 256 confirmations from there. *)
Theorem txn_shard_affinity db t evs w env top f p w1 op r st pre post w2 env2 top2 f2 p2 w3 op2 :
  run (accept db t) evs = Some w -> w_conn w = Some st ->
  step w (EvFrame env top f p) = Some (w1, Some (AOp op)) -> op_req op = RequestBody.TxnBegin r ->
  terminated (txn_shards st) !! begin_txn_id r = None ->
  run w1 (pre ++ post) = Some w2 ->
  Forall (spares (begin_txn_id r)) (pre ++ post) ->
  Forall (unconfirmed (begin_txn_id r)) pre ->
  (conn_confirmations post <= TERMINATED_TXN_ROUTE_WINDOW)%nat ->
  step w2 (EvFrame env2 top2 f2 p2) = Some (w3, Some (AOp op2)) ->
  ends_txn (op_req op2) (begin_txn_id r) ->
  op_target_shard op2 = op_target_shard op.
Proof.
  intros Hr Hc Hs Hreq Ht Hr2 Hsp Hun Hn Hs2 Hend. set (id := begin_txn_id r) in *.
  destruct (step_frame_inv _ _ _ _ _ _ _ Hs) as (st0 & a & st1 & Hc0 & [= <-] & _ & Hc1 & He).
  assert (st0 = st) as -> by congruence. destruct He as [|?|sc _ _ Hes]; [done..|].
  pose proof (oo_routed _ _ _ _ _ (es_op _ _ _ _ _ _ _ Hes op eq_refl)) as Hb. rewrite Hreq in Hb.
  assert (router_ok (txn_shards st)) as Hok by by eapply conn_router_ok.
  destruct (step_frame_inv _ _ _ _ _ _ _ Hs2) as (st2 & a2 & st3 & Hc2 & [= <-] & _ & _ & He2).
  rewrite run_app in Hr2. destruct (run w1 pre) as [wm|] eqn:Hr1; [|done]. cbn [mbind option_bind] in Hr2.
  destruct (run_routes _ _ _ _ Hr2 Hc2) as (stm & revs2 & Hcm & E2 & F2 & N2).
  destruct (run_routes _ _ _ _ Hr1 Hcm) as (st1' & revs1 & Hc1' & E1 & F1 & _).
  destruct (Hc1 _ Hc1') as [-> _]. apply Forall_app in Hsp as [Hsp1 Hsp2].
  assert (Router.route (txn_shards st2) id = Some (op_target_shard op)) as Hroute.
  { rewrite E2, E1. destruct (begin_opens _ _ _ _ Hb Ht) as [Ho Ht1].
    assert (router_ok (txn_shards st1)) as Hok1
      by (change (router_ok (snd (true, txn_shards st1))); rewrite <- Hb; by apply begin_ok).
    apply route_kept; [done|done|done|exact (spared _ _ _ Hsp1 F1)|exact (spared _ _ _ Hsp2 F2)
      |exact (not_confirmed _ _ _ Hun F1)|by rewrite N2]. }
  destruct He2 as [|?|sc2 _ _ Hes2]; [done..|].
  pose proof (oo_routed _ _ _ _ _ (es_op _ _ _ _ _ _ _ Hes2 op2 eq_refl)) as Hb2.
  destruct (op_req op2); try done; simpl in Hend; rewrite Hend in Hb2; by apply Hb2.
Qed.
End session.
