(* ===== verification/SessionExamples.v ===== *)
(** A concrete connection: the witnesses of the session theorems, and three
    behaviours of the connection layer that its documentation does not have.

    The crates are stand-ins: payloads are the raw field that the example needs,
    and the hash is the first byte of its input. *)

From stdpp Require Import gmap.
From S2P Require Import Prelude Ids Wire Opcode Request Access TxnRouter Handshake Routing Dispatch.
From S2P Require Import OpTask Connection Session.

Module SessionExample.
#[export] Instance crates : Crates :=
  {| blake3 b := replicate 31 Byte.x00 ++ take 1 (b ++ [Byte.x00]); new_v5 ns s := ns + Z.of_nat (String.length s);
     base64_decode b := None |}.

Definition filter_of (space : Z) : SubscriptionFilter :=
  {| session_filter := None; kinds := None; similar_to := None; spaces := Some [space];
     memory_ids := None |}.

(** The first byte of a payload is the value; a second byte on a TXN_BEGIN asks
    to act for the namespace [acme]. *)
#[export] Instance cbor : Ciborium :=
  {| from_reader o b :=
       match o return result (Payload o * nat) string with
       | Opcode.Hello =>
         Ok ({| client_id := "c"; client_versions := [1];
                client_capabilities := {| streaming := true; compression_zstd := true;
                                          server_push := true |};
                client_connection_token := None |}, length b)
       | Opcode.Auth => Ok ({| method := Token; credentials := CredToken b |}, length b)
       | Opcode.TxnBegin =>
         Ok ({| begin_txn_id := from_le_bytes (take 2 b); begin_timeout_seconds := 60;
                begin_act_as := if (length b <? 3)%nat then None
                                else Some {| aa_namespace := "acme"; aa_space := "alice";
                                             aa_grant := 0 |} |}, length b)
       | Opcode.TxnCommit => Ok ({| commit_txn_id := from_le_bytes (take 2 b) |}, length b)
       | Opcode.SubscribeReq =>
         Ok ({| sub_filter := filter_of (from_le_bytes b); include_history := false;
                from_lsn := None; max_inflight := 8; subscribe_act_as := None |}, length b)
       | _ => Err "not part of the example"%string
       end |}.

Definition frame (o : Opcode) (sid : Z) (p : bytes) : Frame.Frame :=
  {| Frame.header :=
       {| Header.magic := MAGIC; Header.version := 1; Header.opcode := to_be_bytes 2 (Opcode.as_u16 o);
          Header.flags := 0; Header.header_crc32c := replicate 4 Byte.x00;
          Header.stream_id := to_be_bytes 4 sid; Header.payload_len := replicate 3 Byte.x00;
          Header.reserved_a := 0; Header.payload_crc32c := replicate 4 Byte.x00;
          Header.reserved_b := replicate 8 Byte.x00 |};
     Frame.payload := p |}.

Definition at_time (t : Z) : Env :=
  {| now := t; unix_nanos := t; now_v7 := 77; store_fails := false |}.
Definition top : Topology :=
  {| routing := {| shard_count := 4; overrides := {[ 9 := 1 ]} |};
     server_caps := v1_default "brain" [Token] |}.
Definition second : Z := 10 ^ 9.

Definition secret : bytes := [byte_of 7].
Definition h : Z := hash_secret secret.
Definition mint (perms : Z) : event := EvKey (KMint secret 1 2 "gateway" 9 perms ["acme"] 0).
Definition ev (t : Z) (o : Opcode) (sid : Z) (p : bytes) : event :=
  EvFrame (at_time t) top (frame o sid p) true.

Definition empty_db : ApiKeyDb :=
  {| API_KEYS_TABLE := ∅; API_KEYS_BY_SPACE_TABLE := ∅;
     registry := seed_system_namespace
       {| NAMESPACES_TABLE := ∅; NAMESPACE_BY_NAME_TABLE := ∅ |} 0 |}.
Lemma empty_keys_ok : keys_ok empty_db.
Proof. intros k r Hr. simpl in Hr. by rewrite lookup_empty in Hr. Qed.

(** A standard key that may delegate, through the handshake. *)
Definition perms : Z := Z.lor STANDARD_SPACE perm_ACT_AS.
Definition login (p : Z) : list event :=
  [mint p; ev 0 Opcode.Hello 0 []; ev 0 Opcode.Auth 0 secret].
Definition start : World := accept empty_db 0.
Definition after (w : World) (evs : list event) : World := default w (run w evs).
Definition open_conn : World := after start (login perms).

(** The operation of a TXN_BEGIN that is delegated to [acme]/[alice]. *)
Definition txn (n : Z) : bytes := to_le_bytes 2 n.
Definition begin_frame : event := ev second Opcode.TxnBegin 1 (txn 5 ++ [byte_of 1]).
Definition action_of (w : World) (e : event) : Action :=
  match step w e with Some (_, Some a) => a | _ => Nothing end.
Definition no_op : OpDispatch :=
  {| op_stream_id := 0; op_req := RequestBody.Bye {| bye_reason := None |}; op_target_shard := 0;
     op_scope := {| sc_space_id := 0; sc_org_id := 0; sc_user_id := 0; sc_namespace := "";
                    sc_permissions := 0; sc_may_act := []; sc_key_hash := 0 |};
     op_connection_id := 0; op_act_as := None |}.
Definition op_of (w : World) (e : event) : OpDispatch :=
  match action_of w e with AOp op => op | _ => no_op end.
Definition scope0 : RequestScope := op_scope (op_of open_conn begin_frame).

Lemma op_needs_credential_witness :
  exists sc, credential start (login perms) sc
    /\ (exists row, API_KEYS_TABLE (w_db open_conn) !! sc_key_hash sc = Some row
          /\ scope_from_row row = sc)
    /\ Z.odd 1 = true
    /\ forall op, AOp (op_of open_conn begin_frame) = AOp op -> op_scope op = sc.
Proof.
  exact (@op_needs_credential cbor crates empty_db 0 (login perms) open_conn (at_time second) top
    (frame Opcode.TxnBegin 1 (txn 5 ++ [byte_of 1])) true (after open_conn [begin_frame])
    (AOp (op_of open_conn begin_frame)) empty_keys_ok ltac:(vm_compute; reflexivity)
    ltac:(vm_compute; reflexivity) ltac:(vm_compute; reflexivity)).
Defined.

(** One second after the revocation the operation still passes, inside the
    window. *)
Lemma revocation_prompt_witness : second < 0 + REVOCATION_RECHECK_WINDOW.
Proof.
  exact (@revocation_prompt cbor crates empty_db 0 (login perms ++ [EvKey (KRevoke h)])
    (after start (login perms ++ [EvKey (KRevoke h)])) h
    (default {| key_hash := 0; org_id := 0; user_id := 0; namespace := ""; space_id := 0;
                permissions := 0; may_act := []; created_at := 0; last_used_at := 0;
                revoked := true |}
      (API_KEYS_TABLE (w_db (after start (login perms ++ [EvKey (KRevoke h)]))) !! h))
    [] (after start (login perms ++ [EvKey (KRevoke h)])) (at_time second) top
    (frame Opcode.TxnBegin 1 (txn 5 ++ [byte_of 1])) true
    (after start (login perms ++ [EvKey (KRevoke h); begin_frame]))
    (action_of (after start (login perms ++ [EvKey (KRevoke h)])) begin_frame) 0
    empty_keys_ok ltac:(vm_compute; reflexivity) ltac:(lia)
    ltac:(repeat constructor; simpl; lia)
    ltac:(vm_compute; reflexivity) ltac:(vm_compute; reflexivity) ltac:(reflexivity)
    ltac:(vm_compute; reflexivity) ltac:(vm_compute; reflexivity)
    ltac:(vm_compute; intros st sc [= <-] [= <-]; reflexivity)).
Defined.

(** The delegated begin passes the gates of its shard: it runs as
    [acme]/[alice] under the standard rights. *)
Definition registry0 : Namespaces := registry empty_db.
Definition op0 : OpDispatch := op_of open_conn begin_frame.
Definition gated : option (result RequestCtx OpError.OpError * Namespaces) :=
  dispatch_gates (op_req op0) (op_caller op0) OpTaskExample.shared registry0 true true.
Definition ctx0 : RequestCtx :=
  match gated with Some (Ok c, _) => c | _ => OpTaskExample.shared end.
Definition registry1 : Namespaces :=
  match gated with Some (_, t) => t | _ => registry0 end.

Lemma op0_act_as :
  RequestBody.act_as_of (op_req op0) = Some {| aa_namespace := "acme"; aa_space := "alice"; aa_grant := 0 |}.
Proof. vm_compute. reflexivity. Qed.

Lemma op_authorized_witness :
  exists sc, credential start (login perms) sc
    /\ Z.land (acting_rights sc (Some {| aa_namespace := "acme"; aa_space := "alice"; aa_grant := 0 |})) perm_ENCODE
       = perm_ENCODE
    /\ Z.land (sc_permissions sc) perm_ACT_AS <> 0.
Proof.
  destruct (@op_authorized cbor crates empty_db 0 (login perms) open_conn (at_time second) top
    (frame Opcode.TxnBegin 1 (txn 5 ++ [byte_of 1])) true (after open_conn [begin_frame]) op0
    OpTaskExample.shared registry0 true true ctx0 registry1
    empty_keys_ok ltac:(vm_compute; reflexivity) ltac:(vm_compute; reflexivity) (names_ok_seed 0)
    ltac:(vm_compute; reflexivity))
    as (sc & H1 & _ & _ & _ & H2 & H3).
  exists sc. rewrite op0_act_as in H2, H3.
  split; [exact H1|]. split; [exact (H2 perm_ENCODE "TXN"%string ltac:(vm_compute; reflexivity))|].
  exact (proj1 (H3 _ eq_refl)).
Defined.

Definition sub_frame : event := ev second Opcode.SubscribeReq 3 (to_le_bytes 1 9).
Definition no_sub : SubscribeStart :=
  {| ss_stream_id := 0;
     ss_req := {| sub_filter := filter_of 0; include_history := false; from_lsn := None;
                  max_inflight := 0; subscribe_act_as := None |};
     ss_target_shard := 0; ss_space := 0 |}.
Definition sub_of (w : World) (e : event) : SubscribeStart :=
  match action_of w e with ASubscribe s => s | _ => no_sub end.
Definition conn_of (w : World) : ConnState := default (ConnState.new 0) (w_conn w).

Lemma subscription_isolated_witness :
  (exists sp, Some [9] = Some sp /\ sp <> [] /\ Forall (fun id => id = 9) sp) /\ 9 = 9.
Proof.
  exact (@subscription_isolated cbor crates open_conn (at_time second) top
    (frame Opcode.SubscribeReq 3 (to_le_bytes 1 9)) true (after open_conn [sub_frame])
    (sub_of open_conn sub_frame) (conn_of open_conn) scope0 ltac:(vm_compute; reflexivity)
    ltac:(vm_compute; reflexivity) ltac:(vm_compute; reflexivity)).
Defined.

(** The commit follows the delegated begin to the shard of the selected space,
    around another transaction on the key's own shard and after a first
    confirmation. *)
Definition confirmed (id : Z) : event :=
  EvTxn {| out_txn_id := id; out_kind := ConfirmedTerminal |}.
Definition other_begin : event := ev second Opcode.TxnBegin 5 (txn 6).
Definition commit_frame : event := ev second Opcode.TxnCommit 7 (txn 5).
Definition mid : World :=
  after (after open_conn [begin_frame]) [other_begin; confirmed 5; confirmed 6].

Lemma txn_shard_affinity_witness :
  op_target_shard (op_of mid commit_frame) = op_target_shard op0
  /\ op_target_shard op0 <> op_target_shard (op_of open_conn other_begin).
Proof.
  split; [|vm_compute; done].
  refine (@txn_shard_affinity cbor crates empty_db 0 (login perms) open_conn (at_time second) top
    (frame Opcode.TxnBegin 1 (txn 5 ++ [byte_of 1])) true (after open_conn [begin_frame]) op0
    {| begin_txn_id := 5; begin_timeout_seconds := 60;
       begin_act_as := Some {| aa_namespace := "acme"; aa_space := "alice"; aa_grant := 0 |} |}
    (conn_of open_conn) [other_begin] [confirmed 5; confirmed 6] mid (at_time second) top
    (frame Opcode.TxnCommit 7 (txn 5)) true (after mid [commit_frame]) (op_of mid commit_frame)
    ltac:(vm_compute; reflexivity) ltac:(vm_compute; reflexivity) ltac:(vm_compute; reflexivity)
    ltac:(vm_compute; reflexivity) ltac:(vm_compute; reflexivity) ltac:(vm_compute; reflexivity)
    _ ltac:(by repeat constructor) ltac:(vm_compute; lia)
    ltac:(vm_compute; reflexivity) ltac:(vm_compute; reflexivity)).
  repeat constructor; try done. intros r (o & Ho & Hd) E. revert Ho Hd E. vm_compute.
  intros [= <-]. intros [= <-]. done.
Defined.

End SessionExample.

(** ** Faults *)

Module SessionFaults.
Import SessionExample.

(** A SUBSCRIBE never meets the permission gate: a key without any
    permission opens a subscription, although the table of required permissions
    asks for RECALL and the gate refuses that caller. *)
Theorem subscribe_without_recall :
  exists w s, run start (login 0) = Some w
    /\ action_of w sub_frame = ASubscribe s
    /\ required_permission (RequestBody.Subscribe (ss_req s)) = Some (perm_RECALL, "SUBSCRIBE"%string)
    /\ forall sc, scope_of (conn_of w) = Some sc ->
         is_ok (enforce_permission (to_caller sc 77) (RequestBody.Subscribe (ss_req s))) = false.
Proof.
  eexists _, _. split; [vm_compute; reflexivity|]. split; [vm_compute; reflexivity|].
  split; [reflexivity|]. vm_compute. by intros sc [= <-].
Qed.

(** The begins of [n] transactions while every stream of the connection is
    taken. *)
Definition refused (n : nat) : list event :=
  (fun i => EvFrame (at_time second) top (frame Opcode.TxnBegin 1 (txn (Z.of_nat i))) false)
    <$> seq 0 n.

Fixpoint actions (w : World) (evs : list event) : list (option Action) :=
  match evs with
  | [] => []
  | e :: evs => match step w e with
                | Some (w', oa) => oa :: actions w' evs
                | None => []
                end
  end.

Definition refusal (oa : option Action) : bool :=
  match oa with
  | Some (Inline f) =>
    match o_body f with
    | Encoded (BError e) => bool_decide (er_code e = ErrorCode.StreamLimitExceeded)
    | _ => false
    end
  | _ => false
  end.

(** A TXN_BEGIN that the stream limit refuses keeps its route: after 1024
    of them, none of which reached a shard, the connection refuses every new
    transaction although its streams are free again. *)
Theorem limited_begins_exhaust_router :
  let evs := refused ACTIVE_TXN_ROUTE_CAP in
  length (actions open_conn evs) = ACTIVE_TXN_ROUTE_CAP
  /\ forallb refusal (actions open_conn evs) = true
  /\ action_of (after open_conn evs) (ev second Opcode.TxnBegin 1 (txn 2000))
     = Inline (error_frame 1 ErrorCode.TransactionLimitExceeded
         (Text "too many concurrent open transactions on this connection")).
Proof. vm_compute. repeat split. Qed.
End SessionFaults.
