(* ===== verification/Receiver.v ===== *)
(** Frames from a byte stream ([read_one_frame], [read_rest_of_frame] and the
    read arm of [receiver_loop] in [brain-server/src/network/connection.rs]).

    The future of [read_one_frame] is the bytes it has taken from the socket so
    far: its first byte, the header buffer and the payload buffer one after the
    other.  The loop makes a new future in every iteration; when another arm of
    the [select!] is taken, the future is dropped with what it holds. *)

From S2P Require Import Prelude Crc32c Wire.
Import Wire.Header Wire.Frame.

Inductive FrameReadError :=
| REof
| RIo
| RTimeout
| RTooLong (payload_len max : Z)
| RDecode (e : ProtocolError.ProtocolError).

(** The code and category of the frame that closes the connection; the other
    errors close it without one. *)
Definition close_code (e : FrameReadError) : option (ErrorCode.ErrorCode * ErrorCategory.ErrorCategory) :=
  match e with
  | RTooLong _ _ | RDecode _ => Some (ErrorCode.BadFrame, ErrorCategory.Protocol)
  | REof | RIo | RTimeout => None
  end.

(** What is behind the bytes that have arrived. *)
Inductive SocketEnd := SOpen | SClosed | SFailed.

Inductive Poll :=
| Pending (fut : bytes)
| Ready (r : result Frame FrameReadError).

(** A [read_exact] that fills the buffer up to [n] bytes. *)
Definition fill (n : nat) (acc input : bytes) : bytes * bytes :=
  (acc ++ take (n - length acc) input, drop (n - length acc) input).

Definition not_filled (e : SocketEnd) (acc : bytes) : Poll :=
  match e with
  | SOpen => Pending acc
  | SClosed => Ready (Err REof)
  | SFailed => Ready (Err RIo)
  end.

Section receiver.
Context `{Crc32c}.

Definition read_rest_of_frame (max : Z) (e : SocketEnd) (acc input : bytes) : Poll * bytes :=
  let '(acc, input) := fill HEADER_SIZE acc input in
  if (length acc <? HEADER_SIZE)%nat then (not_filled e acc, input) else
  let payload_len := from_be_bytes ([Byte.x00] ++ slice 16 19 acc) in
  if max <? payload_len then (Ready (Err (RTooLong payload_len max)), input) else
  let need := (HEADER_SIZE + Z.to_nat payload_len)%nat in
  let '(acc, input) := fill need acc input in
  if (length acc <? need)%nat then (not_filled e acc, input) else
  (Ready (match decode_with_max acc max with
          | Ok (frame, _) => Ok frame
          | Err err => Err (RDecode err)
          end), input).

Definition read_one_frame (max : Z) (e : SocketEnd) (acc input : bytes) : Poll * bytes :=
  let '(acc, input) := fill 1 acc input in
  if (length acc <? 1)%nat then (not_filled e acc, input)
  else read_rest_of_frame max e acc input.

(** ** The loop *)

Record Receiver := {
  r_input : bytes;
  r_end : SocketEnd;
  r_fut : bytes;
  r_frames : list Frame;
  r_closed : option FrameReadError;
}.

Definition fresh : Receiver :=
  {| r_input := []; r_end := SOpen; r_fut := []; r_frames := []; r_closed := None |}.

(** Iterations until the future waits or the connection ends; every iteration
    that goes on has taken at least one byte. *)
Fixpoint drain (fuel : nat) (max : Z) (s : Receiver) : Receiver :=
  match fuel with
  | O => s
  | S fuel =>
    match read_one_frame max (r_end s) (r_fut s) (r_input s) with
    | (Pending fut, input) =>
      {| r_input := input; r_end := r_end s; r_fut := fut; r_frames := r_frames s;
         r_closed := r_closed s |}
    | (Ready (Ok frame), input) =>
      drain fuel max {| r_input := input; r_end := r_end s; r_fut := [];
                        r_frames := r_frames s ++ [frame]; r_closed := r_closed s |}
    | (Ready (Err e), input) =>
      {| r_input := input; r_end := r_end s; r_fut := []; r_frames := r_frames s;
         r_closed := Some e |}
    end
  end.

(** What happens to the connection: bytes arrive, the peer closes, the socket
    fails, the budget of a started frame runs out, or another arm of the
    [select!] is taken while the read waits (the outcome of a transaction, or
    the idle timer that sends a ping). *)
Inductive net_event :=
| Arrive (b : bytes)
| PeerClose
| SocketError
| MidFrameTimeout
| OtherArm.

Definition with_end (e : SocketEnd) (s : Receiver) : Receiver :=
  {| r_input := r_input s; r_end := e; r_fut := r_fut s; r_frames := r_frames s;
     r_closed := r_closed s |}.

Definition react (max : Z) (s : Receiver) (e : net_event) : Receiver :=
  match r_closed s with
  | Some _ => s
  | None =>
    match e with
    | Arrive b =>
      drain (S (length (r_input s ++ b))) max
        {| r_input := r_input s ++ b; r_end := r_end s; r_fut := r_fut s;
           r_frames := r_frames s; r_closed := None |}
    | PeerClose => drain (S (length (r_input s))) max (with_end SClosed s)
    | SocketError => drain (S (length (r_input s))) max (with_end SFailed s)
    | MidFrameTimeout =>
      if bool_decide (r_fut s = []) then s
      else {| r_input := r_input s; r_end := r_end s; r_fut := []; r_frames := r_frames s;
              r_closed := Some RTimeout |}
    | OtherArm =>
      {| r_input := r_input s; r_end := r_end s; r_fut := []; r_frames := r_frames s;
         r_closed := None |}
    end
  end.

Definition run_receiver (max : Z) : Receiver -> list net_event -> Receiver := foldl (react max).

(** ** Specification *)

(** The first frame of a byte string, the bytes behind it, or that more bytes
    are needed. *)
Inductive Parsed :=
| More
| Done (r : result Frame FrameReadError) (rest : bytes).

Definition len_of (t : bytes) : Z := from_be_bytes ([Byte.x00] ++ slice 16 19 t).

Definition parse (max : Z) (t : bytes) : Parsed :=
  if (length t <? HEADER_SIZE)%nat then More else
  if max <? len_of t then Done (Err (RTooLong (len_of t) max)) (drop HEADER_SIZE t) else
  let need := (HEADER_SIZE + Z.to_nat (len_of t))%nat in
  if (length t <? need)%nat then More else
  Done (match decode_with_max (take need t) max with
        | Ok (frame, _) => Ok frame
        | Err err => Err (RDecode err)
        end) (drop need t).

(** The frames of a byte string, the bytes of the frame that is not complete,
    and the error that ended it. *)
Inductive parses (max : Z) : bytes -> list Frame -> bytes -> option FrameReadError -> Prop :=
| parses_more t : parse max t = More -> parses max t [] t None
| parses_frame t f rest fs tail o :
    parse max t = Done (Ok f) rest -> parses max rest fs tail o -> parses max t (f :: fs) tail o
| parses_error t e rest : parse max t = Done (Err e) rest -> parses max t [] [] (Some e).

Lemma parses_det max t fs tail o fs' tail' o' :
  parses max t fs tail o -> parses max t fs' tail' o' -> fs = fs' /\ tail = tail' /\ o = o'.
Proof.
  intros Hp. revert fs' tail' o'. induction Hp as [t Hm|t f rest fs tail o Hd Hp IH|t e rest Hd];
    intros fs' tail' o' Hq; inversion Hq as [t' Hm'|t' f' rest' fs1 tail1 o1 Hd' Hq'|t' e' rest' Hd'];
    subst; try (split_and!; congruence).
  assert (f' = f /\ rest' = rest) as [-> ->] by (split; congruence).
  destruct (IH _ _ _ Hq') as (-> & -> & ->). done.
Qed.

Lemma slice_app_l a b t m : (b <= length t)%nat -> slice a b (t ++ m) = slice a b t.
Proof.
  intros Hb. unfold slice. destruct (decide (a <= length t)%nat).
  - rewrite drop_app_le by done. rewrite take_app_le; [done|]. rewrite length_drop. lia.
  - replace (b - a)%nat with 0%nat by lia. done.
Qed.

Lemma len_of_app t m : (HEADER_SIZE <= length t)%nat -> len_of (t ++ m) = len_of t.
Proof. unfold HEADER_SIZE, len_of. intros Ht. by rewrite slice_app_l by lia. Qed.

Lemma parse_app max t m r rest :
  parse max t = Done r rest -> parse max (t ++ m) = Done r (rest ++ m).
Proof.
  unfold parse. rewrite length_app.
  destruct (Nat.ltb_spec (length t) HEADER_SIZE) as [|Hh]; [done|].
  rewrite (proj2 (Nat.ltb_ge _ HEADER_SIZE)) by lia. rewrite len_of_app by done.
  destruct (max <? len_of t); [intros [= <- <-]; by rewrite drop_app_le|].
  destruct (Nat.ltb_spec (length t) (HEADER_SIZE + Z.to_nat (len_of t))) as [|Hn]; [done|].
  rewrite (proj2 (Nat.ltb_ge _ _)) by lia. intros [= <- <-].
  by rewrite take_app_le, drop_app_le.
Qed.

Lemma parses_app max t fs tail b fs' tail' o :
  parses max t fs tail None -> parses max (tail ++ b) fs' tail' o ->
  parses max (t ++ b) (fs ++ fs') tail' o.
Proof.
  remember None as none eqn:En. intros Hp Hb. induction Hp; [done| |done].
  econstructor; [by apply parse_app|]. by apply IHHp.
Qed.

Lemma parses_closed max t fs tail e b :
  parses max t fs tail (Some e) -> parses max (t ++ b) fs tail (Some e).
Proof.
  remember (Some e) as some eqn:Es. intros Hp. induction Hp; [done| |].
  - econstructor; [by apply parse_app|by apply IHHp].
  - eapply parses_error. by apply parse_app.
Qed.

(** ** The loop meets the specification *)

Lemma fill_fill n m acc input :
  (n <= m)%nat ->
  fill m (fst (fill n acc input)) (snd (fill n acc input)) = fill m acc input.
Proof.
  intros Hnm. unfold fill. cbn [fst snd]. rewrite length_app, length_take.
  set (a := (n - length acc)%nat). set (b := (m - length acc)%nat). assert (a <= b)%nat by lia.
  destruct (decide (a <= length input)%nat) as [Hl|Hl].
  - rewrite (Nat.min_l a) by lia. replace (m - (length acc + a))%nat with (b - a)%nat by lia.
    rewrite <- app_assoc, drop_drop. f_equal; [|f_equal; lia]. f_equal.
    rewrite take_take_drop. f_equal. lia.
  - rewrite !(take_ge input), !(drop_ge input) by lia. by rewrite take_nil, drop_nil, app_nil_r.
Qed.

Lemma fill_total n acc input :
  (length acc <= n)%nat -> fill n acc input = (take n (acc ++ input), drop n (acc ++ input)).
Proof.
  intros Hn. unfold fill. by rewrite take_app_ge, drop_app_ge.
Qed.

Lemma read_one_rest max e acc input :
  read_one_frame max e acc input = read_rest_of_frame max e acc input.
Proof.
  unfold read_one_frame. pose proof (fill_fill 1 HEADER_SIZE acc input) as Hf.
  destruct (fill 1 acc input) as [acc1 input1] eqn:E1. cbn [fst snd] in Hf.
  assert (read_rest_of_frame max e acc1 input1 = read_rest_of_frame max e acc input) as ->
    by (unfold read_rest_of_frame; by rewrite Hf by (unfold HEADER_SIZE; lia)).
  destruct (Nat.ltb_spec (length acc1) 1) as [Hl|]; [|done].
  unfold fill in E1. apply pair_eq in E1 as [<- <-]. rewrite length_app, length_take in Hl.
  destruct acc; [|simpl in Hl; lia]. destruct input; [done|simpl in Hl; lia].
Qed.

(** A future that waits has not got a frame yet. *)
Lemma read_parse max e acc input :
  parse max acc = More ->
  read_one_frame max e acc input =
    match parse max (acc ++ input) with
    | More => (not_filled e (acc ++ input), [])
    | Done r rest => (Ready r, rest)
    end.
Proof.
  intros Hw. rewrite read_one_rest. unfold read_rest_of_frame, parse in *.
  set (t := acc ++ input).
  assert (length t = length acc + length input)%nat as Hlt by (unfold t; apply length_app).
  destruct (Nat.ltb_spec (length acc) HEADER_SIZE) as [Ha|Ha].
  - rewrite fill_total by lia. fold t. rewrite length_take.
    destruct (Nat.ltb_spec (length t) HEADER_SIZE) as [Ht|Ht].
    { rewrite (proj2 (Nat.ltb_lt _ _)) by lia. by rewrite take_ge, drop_ge by lia. }
    rewrite (proj2 (Nat.ltb_ge _ _)) by lia.
    assert (from_be_bytes ([Byte.x00] ++ slice 16 19 (take HEADER_SIZE t)) = len_of t) as ->.
    { rewrite <- (take_drop HEADER_SIZE t) at 2. symmetry. apply len_of_app. rewrite length_take. lia. }
    destruct (max <? len_of t); [done|]. set (need := (HEADER_SIZE + _)%nat).
    rewrite fill_total by (rewrite length_take; lia). rewrite take_drop, length_take.
    destruct (Nat.ltb_spec (length t) need).
    + rewrite (proj2 (Nat.ltb_lt _ _)) by lia. by rewrite take_ge, drop_ge by lia.
    + by rewrite (proj2 (Nat.ltb_ge _ _)) by lia.
  - assert (len_of t = len_of acc) as El by (apply len_of_app; lia).
    rewrite (proj2 (Nat.ltb_ge (length t) HEADER_SIZE)) by lia. rewrite El.
    unfold fill at 1. replace (HEADER_SIZE - length acc)%nat with 0%nat by lia.
    rewrite take_0, drop_0, app_nil_r. rewrite (proj2 (Nat.ltb_ge (length acc) HEADER_SIZE)) by lia.
    change (from_be_bytes ([Byte.x00] ++ slice 16 19 acc)) with (len_of acc).
    destruct (max <? len_of acc); [done|]. set (need := (HEADER_SIZE + _)%nat) in *.
    destruct (Nat.ltb_spec (length acc) need) as [Hn|]; [|done].
    rewrite fill_total by lia. fold t. rewrite length_take.
    destruct (Nat.ltb_spec (length t) need).
    + rewrite (proj2 (Nat.ltb_lt _ _)) by lia. by rewrite take_ge, drop_ge by lia.
    + by rewrite (proj2 (Nat.ltb_ge _ _)) by lia.
Qed.

(** A frame ends beyond what a waiting future holds. *)
Lemma parse_progress max acc input r rest :
  parse max acc = More -> parse max (acc ++ input) = Done r rest ->
  (length rest < length input)%nat.
Proof.
  unfold parse. rewrite length_app. intros Hw.
  destruct (Nat.ltb_spec (length acc + length input) HEADER_SIZE) as [|Ht]; [done|].
  destruct (Nat.ltb_spec (length acc) HEADER_SIZE) as [Ha|Ha].
  - destruct (max <? _); [intros [= _ <-]; rewrite length_drop, length_app; lia|].
    destruct (Nat.ltb_spec (length acc + length input)
      (HEADER_SIZE + Z.to_nat (len_of (acc ++ input)))); [done|].
    intros [= _ <-]. rewrite length_drop, length_app. unfold HEADER_SIZE in *. lia.
  - rewrite len_of_app by done. destruct (max <? _); [done|].
    destruct (Nat.ltb_spec (length acc) (HEADER_SIZE + Z.to_nat (len_of acc))); [|done].
    destruct (Nat.ltb_spec (length acc + length input) (HEADER_SIZE + Z.to_nat (len_of acc))); [done|].
    intros [= _ <-]. rewrite length_drop, length_app. unfold HEADER_SIZE in *. lia.
Qed.

Lemma wire_parse_nil max : parse max [] = More.
Proof. done. Qed.

Lemma parses_waits max t fs tail : parses max t fs tail None -> parse max tail = More.
Proof. remember None as none eqn:En. induction 1; [done|by auto|done]. Qed.

(** With the fuel that [react] gives, the loop delivers the frames of the
    bytes that have arrived. *)
Lemma drain_parses fuel max s :
  r_end s = SOpen -> r_closed s = None -> parse max (r_fut s) = More ->
  (length (r_input s) < fuel)%nat ->
  exists fs tail o, parses max (r_fut s ++ r_input s) fs tail o
    /\ let s' := drain fuel max s in
       r_frames s' = r_frames s ++ fs /\ r_fut s' = tail /\ r_closed s' = o
       /\ r_end s' = SOpen /\ (o = None -> r_input s' = []).
Proof.
  revert s. induction fuel as [|fuel IH]; intros s He Hc Hw Hf; [lia|].
  cbn [drain]. rewrite He, read_parse by done.
  destruct (parse max (r_fut s ++ r_input s)) as [|[f|e] rest] eqn:Ep.
  - eexists _, _, _. split; [by apply parses_more|]. simpl. by rewrite app_nil_r, Hc.
  - pose proof (parse_progress _ _ _ _ _ Hw Ep) as Hlt.
    edestruct (IH {| r_input := rest; r_end := SOpen; r_fut := []; r_frames := r_frames s ++ [f];
                     r_closed := r_closed s |}) as (fs & tail & o & Hp & E1 & E2 & E3 & E4 & E5);
      [done|done|apply wire_parse_nil|simpl; lia|]. cbn [r_fut r_input r_frames app] in Hp, E1.
    eexists (f :: fs), tail, o. split; [by eapply parses_frame|].
    rewrite E1, <- app_assoc. done.
  - eexists _, _, _. split; [by eapply parses_error|]. simpl. by rewrite app_nil_r.
Qed.

(** What a run of arrivals leaves behind. *)
Definition receiver_inv (max : Z) (t : bytes) (s : Receiver) : Prop :=
  parses max t (r_frames s) (r_fut s) (r_closed s) /\ r_end s = SOpen
  /\ (r_closed s = None -> r_input s = []).

Lemma arrive_inv max t s b :
  receiver_inv max t s -> receiver_inv max (t ++ b) (react max s (Arrive b)).
Proof.
  intros (Hp & He & Hi). unfold react. destruct (r_closed s) as [e|] eqn:Ec.
  { split_and!; [|done|by rewrite Ec]. rewrite Ec. by apply parses_closed. }
  rewrite (Hi eq_refl). cbn [app].
  edestruct (drain_parses (S (length b)) max
    {| r_input := b; r_end := r_end s; r_fut := r_fut s; r_frames := r_frames s; r_closed := None |})
    as (fs & tail & o & Hq & E1 & E2 & E3 & E4 & E5);
    [done|done|by eapply parses_waits|simpl; lia|]. cbn [r_fut r_input r_frames] in Hq, E1.
  split; [|split; [done|by rewrite E3]]. rewrite E1, E2, E3. by eapply parses_app.
Qed.

(** The bytes that arrive in a run. *)
Definition arrived (evs : list net_event) : bytes :=
  concat ((fun e => match e with Arrive b => b | _ => [] end) <$> evs).

(** No other arm of the [select!] is taken while a frame is half read. *)
Fixpoint calm (max : Z) (s : Receiver) (evs : list net_event) : Prop :=
  match evs with
  | [] => True
  | e :: evs => (e = OtherArm -> r_fut s = []) /\ calm max (react max s e) evs
  end.

(** Nothing but arrivals while a frame is half read, and the socket stays open. *)
Fixpoint undisturbed (max : Z) (s : Receiver) (evs : list net_event) : Prop :=
  match evs with
  | [] => True
  | e :: evs =>
    match e with
    | Arrive _ => True
    | OtherArm | MidFrameTimeout => r_fut s = []
    | PeerClose | SocketError => False
    end /\ undisturbed max (react max s e) evs
  end.

(** Between two frames another arm and the timer of a started frame change nothing. *)
Lemma react_between max s e :
  r_fut s = [] -> e = OtherArm \/ e = MidFrameTimeout -> react max s e = s.
Proof.
  intros Hf He. unfold react. destruct (r_closed s) eqn:Ec; [done|].
  destruct He as [-> | ->]; [|by rewrite bool_decide_true].
  destruct s; cbn in *. by subst.
Qed.

Lemma run_undisturbed max s t evs :
  receiver_inv max t s -> undisturbed max s evs ->
  receiver_inv max (t ++ arrived evs) (run_receiver max s evs).
Proof.
  revert s t. induction evs as [|e evs IH]; intros s t Hs; simpl; [by rewrite app_nil_r|].
  unfold arrived. rewrite fmap_cons. cbn [concat]. fold (arrived evs). rewrite app_assoc.
  intros [He Hu]. apply IH; [|done].
  destruct e; [by apply arrive_inv|done..| |]; rewrite app_nil_r, react_between by auto; done.
Qed.

(** A socket that ends while the read waits ends the connection. *)
Lemma end_closes max t s e :
  receiver_inv max t s -> r_closed s = None -> e <> SOpen ->
  let s' := drain (S (length (r_input s))) max (with_end e s) in
  r_frames s' = r_frames s /\ r_closed s' = Some (match e with SFailed => RIo | _ => REof end).
Proof.
  intros (Hp & _ & Hi) Hc He. rewrite Hc in Hp. apply parses_waits in Hp.
  cbn [drain with_end r_end r_fut r_input]. rewrite read_parse, (Hi Hc), app_nil_r, Hp by done.
  by destruct e.
Qed.

Lemma fresh_inv max : receiver_inv max [] fresh.
Proof. split; [by apply parses_more|done]. Qed.

Context `{!Crc32cLaws H}.

Lemma len_of_encode f rest :
  sealed f -> len_of (encode f ++ rest) = Z.of_nat (length (payload f)).
Proof.
  intros Hs. rewrite encode_sealed by done. rewrite <- app_assoc.
  pose proof (sealed_payload_len f Hs) as Hl. unfold payload_len_u32 in Hl. unfold len_of.
  replace (slice 16 19 (bytes_of (header f) ++ payload f ++ rest)) with (payload_len (header f));
    [done|].
  rewrite slice_app_l by (rewrite length_bytes_of by apply Hs; unfold HEADER_SIZE; lia).
  pose proof (cast_bytes_of (header f) [] (sealed_wf _ Hs)) as Hc. rewrite app_nil_r in Hc.
  by rewrite <- Hc at 1.
Qed.

Lemma parse_encode max f rest :
  sealed f -> Z.of_nat (length (payload f)) <= max ->
  parse max (encode f ++ rest) = Done (Ok f) rest.
Proof.
  intros Hs Hm. unfold parse. rewrite len_of_encode, length_app, length_wire by done.
  rewrite (proj2 (Nat.ltb_ge _ HEADER_SIZE)) by lia. rewrite (proj2 (Z.ltb_ge _ _)) by lia.
  rewrite Nat2Z.id, (proj2 (Nat.ltb_ge _ _)) by lia.
  rewrite <- length_wire, take_app_length, drop_app_length by done.
  rewrite encode_sealed by done.
  pose proof (decode_sealed f [] max Hs Hm) as Hd. rewrite app_nil_r in Hd. by rewrite Hd.
Qed.

(** A strict prefix of a frame is not one yet. *)
Lemma parse_prefix max f k :
  sealed f -> Z.of_nat (length (payload f)) <= max -> (k < length (encode f))%nat ->
  parse max (take k (encode f)) = More.
Proof.
  intros Hs Hm Hk. destruct (parse max (take k (encode f))) as [|r rest] eqn:Ep; [done|].
  pose proof (parse_app _ _ (drop k (encode f)) _ _ Ep) as Hd. rewrite take_drop in Hd.
  pose proof (parse_encode max f [] Hs Hm) as He. rewrite app_nil_r, Hd in He.
  injection He as _ He. apply app_nil in He as [_ He]. apply (f_equal length) in He.
  rewrite length_drop in He. simpl in He. lia.
Qed.

Lemma parses_encode max fs t tail o :
  Forall (fun f => sealed f /\ Z.of_nat (length (payload f)) <= max) fs ->
  parses max t [] tail o -> parses max (concat (encode <$> fs) ++ t) fs tail o.
Proof.
  intros Hf Ht. induction Hf as [|f fs [Hs Hm] _ IH]; [done|]. simpl. rewrite <- app_assoc.
  eapply parses_frame; [by apply parse_encode|done].
Qed.

(** Every delivered frame is one that the peer sent, in order. *)
Lemma parses_sound max t fs tail o :
  parses max t fs tail o ->
  Forall sealed fs /\ exists rest, t = concat (encode <$> fs) ++ rest.
Proof.
  induction 1 as [t|t f rest fs tail o Hd _ [IHs [rest' IH]]|t e rest];
    [split; [done|by eexists]| |split; [done|by eexists]].
  unfold parse in Hd. destruct (_ <? _)%nat; [done|]. destruct (max <? _); [done|].
  set (need := (HEADER_SIZE + _)%nat) in *. destruct (_ <? _)%nat; [done|].
  destruct (decode_with_max (take need t) max) as [[f' r']|] eqn:Ed; [|done].
  injection Hd as -> <-. apply decode_inv in Ed as (Hs & Ht & _).
  rewrite app_assoc, <- encode_sealed in Ht by done.
  assert (t = encode f ++ r' ++ drop need t) as Et
    by (by rewrite app_assoc, <- Ht, take_drop).
  assert (need = length (encode f)) as Hn.
  { unfold need. rewrite Et at 1. by rewrite len_of_encode, Nat2Z.id, length_wire. }
  assert (r' = []) as ->.
  { apply (f_equal length) in Ht. rewrite length_take, length_app in Ht.
    apply nil_length_inv. clearbody need. lia. }
  split; [by constructor|]. exists rest'.
  rewrite fmap_cons. cbn [concat]. rewrite <- app_assoc, <- IH. exact Et.
Qed.

(** What any run leaves: the frames are the front of the stream, and while the
    connection is open nothing is lost behind them. *)
Definition front_inv (max : Z) (t : bytes) (s : Receiver) : Prop :=
  Forall sealed (r_frames s) /\ (exists rest, t = concat (encode <$> r_frames s) ++ rest)
  /\ (r_closed s = None -> receiver_inv max t s).

Lemma front_of_inv max t s : receiver_inv max t s -> front_inv max t s.
Proof. intros Hi. pose proof Hi as (Hp & _). by apply parses_sound in Hp as [? ?]. Qed.

Lemma front_grows max t s b : front_inv max t s -> r_closed s <> None -> front_inv max (t ++ b) s.
Proof.
  intros (H1 & [rest ->] & _) Hc. split_and!; [done| |done]. exists (rest ++ b). by rewrite app_assoc.
Qed.

Lemma front_step max t s e :
  (e = OtherArm -> r_fut s = []) -> front_inv max t s ->
  front_inv max (t ++ match e with Arrive b => b | _ => [] end) (react max s e).
Proof.
  intros He Hf. destruct (r_closed s) as [err|] eqn:Ec.
  { unfold react. rewrite Ec. apply front_grows; [done|by rewrite Ec]. }
  pose proof Hf as (H1 & H2 & Hi). specialize (Hi Ec). destruct e as [b| | | |]; rewrite ?app_nil_r.
  - by apply front_of_inv, arrive_inv.
  - destruct (end_closes max t s SClosed Hi Ec) as [E1 E2]; [done|].
    unfold react. rewrite Ec. unfold front_inv. rewrite E1, E2. by split_and!.
  - destruct (end_closes max t s SFailed Hi Ec) as [E1 E2]; [done|].
    unfold react. rewrite Ec. unfold front_inv. rewrite E1, E2. by split_and!.
  - unfold react. rewrite Ec. case_bool_decide; [done|]. by split_and!.
  - by rewrite react_between by auto.
Qed.

Lemma run_front max t s evs :
  calm max s evs -> front_inv max t s -> front_inv max (t ++ arrived evs) (run_receiver max s evs).
Proof.
  revert s t. induction evs as [|e evs IH]; intros s t; simpl; [by rewrite app_nil_r|].
  unfold arrived. rewrite fmap_cons. cbn [concat]. fold (arrived evs). rewrite app_assoc.
  intros [He Hc] Hf. apply IH; [done|]. by apply front_step.
Qed.

(** ** Theorems *)

(** C32: the receiver is a faithful decoder of the byte stream.  In any run in
    which no other arm of the [select!] is taken while a frame is half read (the
    code does not see to that: [other_arm_loses_bytes]), also one in which the
    peer closes, the socket fails or a started frame runs out of time, it has
    handed on frames whose encodings are exactly the front of the bytes that
    arrived, in order.  If, moreover, the socket stays open and no started frame
    runs out of time: what it has handed on, the partial frame and the error
    depend only on the bytes and not on how they were cut into reads; a stream
    of well-formed frames within the maximum followed by a strict prefix of one
    more is handed on entirely, without an error; and a peer that then closes
    ends the connection with nothing more handed on. *)
Theorem stream_framing max evs :
  let s := run_receiver max fresh evs in
  (calm max fresh evs ->
     Forall sealed (r_frames s) /\ exists rest, arrived evs = concat (encode <$> r_frames s) ++ rest)
  /\ (undisturbed max fresh evs ->
     (forall evs', undisturbed max fresh evs' -> arrived evs' = arrived evs ->
        let s' := run_receiver max fresh evs' in
        r_frames s' = r_frames s /\ r_fut s' = r_fut s /\ r_closed s' = r_closed s)
     /\ (forall fs f k, Forall (fun f => sealed f /\ Z.of_nat (length (payload f)) <= max) (f :: fs) ->
        (k < length (encode f))%nat -> arrived evs = concat (encode <$> fs) ++ take k (encode f) ->
        r_frames s = fs /\ r_fut s = take k (encode f) /\ r_closed s = None
        /\ let s' := react max s PeerClose in r_frames s' = fs /\ r_closed s' = Some REof)).
Proof.
  cbv zeta. split; [|intros Hu; split].
  - intros Hc. by destruct (run_front max [] fresh evs Hc (front_of_inv _ _ _ (fresh_inv max))) as (? & ? & _).
  - intros evs' Hu' E. destruct (run_undisturbed max fresh [] evs (fresh_inv max) Hu) as (Hp & _).
    destruct (run_undisturbed max fresh [] evs' (fresh_inv max) Hu') as (Hp' & _).
    cbn [app] in Hp, Hp'. rewrite E in Hp'.
    destruct (parses_det _ _ _ _ _ _ _ _ Hp' Hp) as (-> & -> & ->). done.
  - intros fs f k [[Hs Hm] Hf]%Forall_cons Hk E.
    pose proof (run_undisturbed max fresh [] evs (fresh_inv max) Hu) as Hi. pose proof Hi as (Hp & _).
    cbn [app] in Hp. rewrite E in Hp.
    pose proof (parses_encode max fs _ _ _ Hf (parses_more _ _ (parse_prefix max f k Hs Hm Hk))) as Hq.
    destruct (parses_det _ _ _ _ _ _ _ _ Hp Hq) as (E1 & E2 & E3).
    destruct (end_closes _ _ _ SClosed Hi E3) as [F1 F2]; [done|].
    assert (react max (run_receiver max fresh evs) PeerClose
      = drain (S (length (r_input (run_receiver max fresh evs)))) max
          (with_end SClosed (run_receiver max fresh evs))) as -> by (unfold react; by rewrite E3).
    rewrite F1, F2. done.
Qed.
End receiver.

(** ** Cancellation *)

Module ReceiverFaults.
Import Castagnoli.

(** Two frames as the peer sends them. *)
Definition first_frame : bytes :=
  default [] (encode <$> Frame.new 0x0010 0 1 (replicate 8 Byte.x00)).
Definition next_frame : bytes :=
  default [] (encode <$> Frame.new 0x0010 0 3 (replicate 40 Byte.x00)).

(** The read is not safe under cancellation: when the outcome of a
    transaction or the idle ping is handled while a frame is half read, the
    bytes read so far are lost, and a well-formed stream ends in a protocol
    error with none of its frames handed on, where the same stream without the
    interruption is handed on entirely. *)
Theorem other_arm_loses_bytes :
  let cut := 10%nat in
  let quiet := run_receiver MAX_PAYLOAD_BYTES fresh
                 [Arrive (take cut first_frame); Arrive (drop cut first_frame ++ next_frame)] in
  let cancelled := run_receiver MAX_PAYLOAD_BYTES fresh
                 [Arrive (take cut first_frame); OtherArm;
                  Arrive (drop cut first_frame ++ next_frame)] in
  length (r_frames quiet) = 2%nat /\ r_closed quiet = None
  /\ r_frames cancelled = []
  /\ (close_code <$> r_closed cancelled)
     = Some (Some (ErrorCode.BadFrame, ErrorCategory.Protocol)).
Proof. vm_compute. by split_and!. Qed.

(** Two reads, a ping between the frames, and a half-read frame when the peer
    closes. *)
Definition busy : list net_event :=
  [Arrive (take 5 first_frame); Arrive (drop 5 first_frame); OtherArm; MidFrameTimeout;
   Arrive (take 40 next_frame); PeerClose].

Lemma stream_framing_witness :
  Forall sealed (r_frames (run_receiver MAX_PAYLOAD_BYTES fresh busy))
  /\ r_closed (run_receiver MAX_PAYLOAD_BYTES fresh busy) = Some REof
  /\ r_fut (run_receiver MAX_PAYLOAD_BYTES fresh [Arrive (first_frame ++ take 40 next_frame)])
     = r_fut (run_receiver MAX_PAYLOAD_BYTES fresh (take 5 busy)).
Proof.
  split_and!; [|vm_compute; reflexivity|].
  - refine (proj1 (proj1 (@stream_framing crc crc_laws MAX_PAYLOAD_BYTES busy) _)).
    vm_compute. repeat split; congruence.
  - refine (proj1 (proj2 (proj1 (proj2 (@stream_framing crc crc_laws MAX_PAYLOAD_BYTES (take 5 busy)) _)
      [Arrive (first_frame ++ take 40 next_frame)] _ _))); [vm_compute; repeat split..|].
    vm_compute. reflexivity.
Defined.
End ReceiverFaults.
