(* ===== verification/Gate.v ===== *)
(** Connection admission ([brain-server/src/network/gate.rs]): a global and a
    per-address cap, taken at accept time and given back when the task of the
    connection ends.

    The code's atomic actions are functions on the shared counters; [try_admit]
    and the drop of a guard are their sequences.  Between two actions of one
    task the others run: [gate_step] is one action of any of them. *)

From stdpp Require Import gmap gmultiset.
From S2P Require Import Prelude.

(** Addresses are opaque keys. *)
Record GateInner := {
  max_total : nat;
  max_per_ip : nat;
  total : nat;
  per_ip : gmap Z nat;
  rejected : nat;
}.

Definition set_total (n : nat) (g : GateInner) : GateInner :=
  {| max_total := max_total g; max_per_ip := max_per_ip g; total := n; per_ip := per_ip g;
     rejected := rejected g |}.
Definition set_per_ip (m : gmap Z nat) (g : GateInner) : GateInner :=
  {| max_total := max_total g; max_per_ip := max_per_ip g; total := total g; per_ip := m;
     rejected := rejected g |}.
Definition reject (g : GateInner) : GateInner :=
  {| max_total := max_total g; max_per_ip := max_per_ip g; total := total g; per_ip := per_ip g;
     rejected := S (rejected g) |}.

Module ConnectionGate.
Definition new (mt mp : nat) : GateInner :=
  {| max_total := mt; max_per_ip := mp; total := 0; per_ip := ∅; rejected := 0 |}.

(** The compare-exchange loop, at the access that ends it: a load that finds
    the cap reached, or the exchange that succeeds. *)
Definition reserve_global (g : GateInner) : bool * GateInner :=
  if (max_total g =? 0)%nat then (true, set_total (S (total g)) g) else
  if (max_total g <=? total g)%nat then (false, g) else (true, set_total (S (total g)) g).

(** [fetch_sub] wraps at zero; a release follows its own reservation, so the
    counter is positive there ([gate_ok]). *)
Definition release_global (g : GateInner) : GateInner := set_total (pred (total g)) g.

(** The critical section of an admission. *)
Definition admit_ip (g : GateInner) (ip : Z) : bool * GateInner :=
  let count := default 0%nat (per_ip g !! ip) in
  let entered := <[ip := count]> (per_ip g) in
  if negb (max_per_ip g =? 0)%nat && (max_per_ip g <=? count)%nat
  then (false, set_per_ip entered g)
  else (true, set_per_ip (<[ip := S count]> entered) g).

Definition try_admit (g : GateInner) (ip : Z) : bool * GateInner :=
  let '(ok, g) := reserve_global g in
  if negb ok then (false, reject g) else
  let '(ok, g) := admit_ip g ip in
  if negb ok then (false, reject (release_global g)) else (true, g).

Definition live_total (g : GateInner) : nat := total g.
Definition live_for_ip (g : GateInner) (ip : Z) : nat := default 0%nat (per_ip g !! ip).
End ConnectionGate.

Module AdmissionGuard.
(** The critical section of a drop. *)
Definition release_ip (g : GateInner) (ip : Z) : GateInner :=
  match per_ip g !! ip with
  | Some count =>
    if (pred count =? 0)%nat then set_per_ip (delete ip (per_ip g)) g
    else set_per_ip (<[ip := pred count]> (per_ip g)) g
  | None => g
  end.

Definition drop (g : GateInner) (ip : Z) : GateInner :=
  release_ip (ConnectionGate.release_global g) ip.
End AdmissionGuard.

(** ** Interleavings *)

(** The tasks between two actions: with a global slot but not yet at the table,
    refused by the table, holding a guard, and past the first action of a drop. *)
Record Tasks := {
  reserved : gmultiset Z;
  refused : gmultiset Z;
  guards : gmultiset Z;
  dropping : gmultiset Z;
}.

Definition idle : Tasks := {| reserved := ∅; refused := ∅; guards := ∅; dropping := ∅ |}.

Inductive gate_step : GateInner * Tasks -> GateInner * Tasks -> Prop :=
| st_full g t :
    fst (ConnectionGate.reserve_global g) = false ->
    gate_step (g, t) (reject (snd (ConnectionGate.reserve_global g)), t)
| st_reserve g t ip :
    fst (ConnectionGate.reserve_global g) = true ->
    gate_step (g, t)
      (snd (ConnectionGate.reserve_global g),
       {| reserved := {[+ ip +]} ⊎ reserved t; refused := refused t; guards := guards t;
          dropping := dropping t |})
| st_admit g rs rf gs ds ip :
    fst (ConnectionGate.admit_ip g ip) = true ->
    gate_step (g, {| reserved := {[+ ip +]} ⊎ rs; refused := rf; guards := gs; dropping := ds |})
      (snd (ConnectionGate.admit_ip g ip),
       {| reserved := rs; refused := rf; guards := {[+ ip +]} ⊎ gs; dropping := ds |})
| st_refuse g rs rf gs ds ip :
    fst (ConnectionGate.admit_ip g ip) = false ->
    gate_step (g, {| reserved := {[+ ip +]} ⊎ rs; refused := rf; guards := gs; dropping := ds |})
      (snd (ConnectionGate.admit_ip g ip),
       {| reserved := rs; refused := {[+ ip +]} ⊎ rf; guards := gs; dropping := ds |})
| st_give_back g rs rf gs ds ip :
    gate_step (g, {| reserved := rs; refused := {[+ ip +]} ⊎ rf; guards := gs; dropping := ds |})
      (reject (ConnectionGate.release_global g),
       {| reserved := rs; refused := rf; guards := gs; dropping := ds |})
| st_drop g rs rf gs ds ip :
    gate_step (g, {| reserved := rs; refused := rf; guards := {[+ ip +]} ⊎ gs; dropping := ds |})
      (ConnectionGate.release_global g,
       {| reserved := rs; refused := rf; guards := gs; dropping := {[+ ip +]} ⊎ ds |})
| st_dropped g rs rf gs ds ip :
    gate_step (g, {| reserved := rs; refused := rf; guards := gs; dropping := {[+ ip +]} ⊎ ds |})
      (AdmissionGuard.release_ip g ip,
       {| reserved := rs; refused := rf; guards := gs; dropping := ds |}).

Definition reachable (mt mp : nat) : GateInner * Tasks -> Prop :=
  rtc gate_step (ConnectionGate.new mt mp, idle).

(** ** Invariant *)

Record gate_ok (mt mp : nat) (g : GateInner) (t : Tasks) : Prop := {
  gk_total_cap : max_total g = mt;
  gk_ip_cap : max_per_ip g = mp;
  gk_total : total g = (size (reserved t) + size (refused t) + size (guards t))%nat;
  gk_bound : mt <> 0%nat -> (total g <= mt)%nat;
  gk_ip : forall ip, per_ip g !! ip
    = let n := (multiplicity ip (guards t) + multiplicity ip (dropping t))%nat in
      if decide (n = 0%nat) then None else Some n;
  gk_ip_bound : mp <> 0%nat -> forall ip n, per_ip g !! ip = Some n -> (n <= mp)%nat;
}.

Lemma gate_ok_new mt mp : gate_ok mt mp (ConnectionGate.new mt mp) idle.
Proof.
  split; simpl; try done; try lia.
Qed.

Lemma live_count mt mp g t ip :
  gate_ok mt mp g t ->
  ConnectionGate.live_for_ip g ip = (multiplicity ip (guards t) + multiplicity ip (dropping t))%nat.
Proof.
  intros Hok. unfold ConnectionGate.live_for_ip. rewrite (gk_ip _ _ _ _ Hok). cbv zeta.
  case_decide as E; simpl; [by rewrite E|done].
Qed.

(** The table after a change of one count to [n]. *)
Lemma table_at (m : gmap Z nat) (f f' : Z -> nat) ip :
  (forall x, m !! x = if decide (f x = 0%nat) then None else Some (f x)) ->
  (forall x, x <> ip -> f' x = f x) ->
  forall x, (if (f' ip =? 0)%nat then delete ip m else <[ip := f' ip]> m) !! x
    = if decide (f' x = 0%nat) then None else Some (f' x).
Proof.
  intros Hm Hf x. destruct (decide (x = ip)) as [->|Hne].
  - destruct (Nat.eqb_spec (f' ip) 0) as [E|E].
    + by rewrite lookup_delete_eq, decide_True.
    + by rewrite lookup_insert_eq, decide_False.
  - assert ((if (f' ip =? 0)%nat then delete ip m else <[ip := f' ip]> m) !! x = m !! x) as ->
      by (destruct (f' ip =? 0)%nat; [by rewrite lookup_delete_ne|by rewrite lookup_insert_ne]).
    by rewrite Hm, Hf.
Qed.

Lemma gate_step_ok mt mp g t g' t' :
  gate_step (g, t) (g', t') -> gate_ok mt mp g t -> gate_ok mt mp g' t'.
Proof.
  intros Hs Hok. pose proof (live_count mt mp g t) as Hlive. unfold ConnectionGate.live_for_ip in Hlive.
  inversion Hs as [?? Hf|?? ip Hf|? rs rf gs ds ip Hf|? rs rf gs ds ip Hf|? rs rf gs ds ip
                  |? rs rf gs ds ip|? rs rf gs ds ip]; subst; destruct Hok as [H1 H2 H3 H4 H5 H6].
  - unfold ConnectionGate.reserve_global in *.
    destruct (max_total g =? 0)%nat; [done|]. destruct (max_total g <=? total g)%nat; [|done].
    by split.
  - unfold ConnectionGate.reserve_global in *.
    destruct (Nat.eqb_spec (max_total g) 0) as [E0|E0];
      [|destruct (Nat.leb_spec (max_total g) (total g)) as [|El]; [done|]];
      (split; simpl; try done; [rewrite H3, gmultiset_size_disj_union, gmultiset_size_singleton; lia|lia]).
  - unfold ConnectionGate.admit_ip in *. specialize (Hlive ip ltac:(by split)). simpl in *.
    rewrite Hlive in *. set (c := (multiplicity ip gs + multiplicity ip ds)%nat) in *.
    destruct (negb _ && _) eqn:Ec; [done|]. cbn [snd].
    split; simpl; try done; [rewrite H3, !gmultiset_size_disj_union, !gmultiset_size_singleton; lia| |].
    + intros x. rewrite insert_insert_eq.
      pose proof (table_at (per_ip g)
        (fun x => multiplicity x gs + multiplicity x ds)%nat
        (fun x => multiplicity x ({[+ ip +]} ⊎ gs) + multiplicity x ds)%nat ip H5) as Ht.
      cbv beta in Ht. rewrite (multiplicity_disj_union _ _ ip), multiplicity_singleton_eq in Ht.
      refine (Ht _ x). intros y Hy.
      by rewrite multiplicity_disj_union, multiplicity_singleton_ne.
    + intros Hmp x n. rewrite insert_insert_eq. intros [[<- <-]|[_ Hx]]%lookup_insert_Some; [|by eapply H6].
      rewrite (proj2 (Nat.eqb_neq (max_per_ip g) 0)) in Ec by lia. simpl in Ec.
      apply Nat.leb_gt in Ec. lia.
  - unfold ConnectionGate.admit_ip in *. specialize (Hlive ip ltac:(by split)). simpl in *.
    rewrite Hlive in *. set (c := (multiplicity ip gs + multiplicity ip ds)%nat) in *.
    destruct (negb _ && _) eqn:Ec; [|done]. cbn [snd].
    apply andb_true_iff in Ec as [Ec1 Ec2]. apply negb_true_iff, Nat.eqb_neq in Ec1.
    apply Nat.leb_le in Ec2.
    assert (per_ip g !! ip = Some c) as Hc by (rewrite H5; fold c; rewrite decide_False by lia; done).
    rewrite (insert_id (per_ip g) ip c Hc).
    split; simpl; try done. rewrite H3, !gmultiset_size_disj_union, !gmultiset_size_singleton. lia.
  - simpl in *. rewrite gmultiset_size_disj_union, gmultiset_size_singleton in H3.
    split; simpl; try done; lia.
  - simpl in *. rewrite gmultiset_size_disj_union, gmultiset_size_singleton in H3.
    split; simpl; try done; [lia|lia|]. intros x. rewrite H5. rewrite !multiplicity_disj_union.
    replace (multiplicity x gs + (multiplicity x {[+ip+]} + multiplicity x ds))%nat
      with (multiplicity x {[+ip+]} + multiplicity x gs + multiplicity x ds)%nat by lia. done.
  - unfold AdmissionGuard.release_ip. simpl in *.
    set (c := (multiplicity ip gs + multiplicity ip ds)%nat).
    assert (per_ip g !! ip = Some (S c)) as Hc.
    { rewrite H5, multiplicity_disj_union, multiplicity_singleton_eq. fold c.
      rewrite decide_False by lia. f_equal. lia. }
    rewrite Hc. cbn [pred].
    pose proof (table_at (per_ip g)
      (fun x => multiplicity x gs + multiplicity x ({[+ ip +]} ⊎ ds))%nat
      (fun x => multiplicity x gs + multiplicity x ds)%nat ip H5) as Ht. cbv beta in Ht. fold c in Ht.
    assert (forall x, (if (c =? 0)%nat then delete ip (per_ip g) else <[ip := c]> (per_ip g)) !! x
      = if decide ((multiplicity x gs + multiplicity x ds)%nat = 0%nat) then None
        else Some (multiplicity x gs + multiplicity x ds)%nat) as Ht'.
    { apply Ht. intros y Hy. by rewrite multiplicity_disj_union, multiplicity_singleton_ne. }
    assert (mp <> 0%nat -> forall x n, (if (c =? 0)%nat then delete ip (per_ip g)
      else <[ip := c]> (per_ip g)) !! x = Some n -> (n <= mp)%nat) as Hb.
    { intros Hmp x n. specialize (H6 Hmp). destruct (c =? 0)%nat.
      - intros [_ Hx]%lookup_delete_Some. by eapply H6.
      - intros [[<- <-]|[_ Hx]]%lookup_insert_Some; [|by eapply H6]. apply H6 in Hc. lia. }
    destruct (c =? 0)%nat; by split.
Qed.

Lemma reachable_ok mt mp g t : reachable mt mp (g, t) -> gate_ok mt mp g t.
Proof.
  assert (forall s s', rtc gate_step s s' ->
    gate_ok mt mp (fst s) (snd s) -> gate_ok mt mp (fst s') (snd s')) as Hrun.
  { induction 1 as [|[g1 t1] [g2 t2] s3 Hs _ IH]; [done|]. intros Hok. by eapply IH, gate_step_ok. }
  intros Hr. exact (Hrun _ _ Hr (gate_ok_new mt mp)).
Qed.

(** A task that is alone runs its actions one after the other. *)
Lemma try_admit_run g t ip :
  let '(ok, g') := ConnectionGate.try_admit g ip in
  rtc gate_step (g, t)
    (g', if ok then {| reserved := reserved t; refused := refused t;
                       guards := {[+ ip +]} ⊎ guards t; dropping := dropping t |} else t).
Proof.
  unfold ConnectionGate.try_admit. destruct t as [rs rf gs ds].
  pose proof (st_full g {| reserved := rs; refused := rf; guards := gs; dropping := ds |}) as Hfull.
  pose proof (st_reserve g {| reserved := rs; refused := rf; guards := gs; dropping := ds |} ip)
    as Hres.
  destruct (ConnectionGate.reserve_global g) as [[] g1]; simpl in *.
  - pose proof (st_admit g1 rs rf gs ds ip) as Hadm. pose proof (st_refuse g1 rs rf gs ds ip) as Href.
    destruct (ConnectionGate.admit_ip g1 ip) as [[] g2]; simpl in *.
    + eapply rtc_l; [by apply Hres|]. by eapply rtc_once, Hadm.
    + eapply rtc_l; [by apply Hres|]. eapply rtc_l; [by apply Href|]. apply rtc_once, st_give_back.
  - by apply rtc_once, Hfull.
Qed.

(** ** Theorems *)

(** C33: the admission caps hold under every interleaving of accepting and
    ending connections: at any moment the live guards are within the global
    cap and those of an address within the per-address cap, the global counter
    never wraps below the slots that are held, and when every task is through,
    the counters are back at zero and the table is empty. *)
Theorem gate_caps mt mp g t :
  reachable mt mp (g, t) ->
  (mt <> 0%nat -> size (guards t) <= mt)%nat
  /\ (mp <> 0%nat -> forall ip, multiplicity ip (guards t) <= mp)%nat
  /\ ConnectionGate.live_total g = (size (reserved t) + size (refused t) + size (guards t))%nat
  /\ (forall ip, ConnectionGate.live_for_ip g ip
        = (multiplicity ip (guards t) + multiplicity ip (dropping t))%nat)
  /\ (t = idle -> ConnectionGate.live_total g = 0%nat /\ per_ip g = ∅).
Proof.
  intros Hok%reachable_ok. pose proof (fun ip => live_count _ _ _ _ ip Hok) as Hl.
  destruct Hok as [H1 H2 H3 H4 H5 H6]. split_and!; [..|done|done|].
  - intros Hmt. specialize (H4 Hmt). lia.
  - intros Hmp ip. specialize (H5 ip). cbv zeta in H5. case_decide; [lia|].
    apply (H6 Hmp) in H5. lia.
  - intros ->. split; [done|]. apply map_eq. intros ip. by rewrite H5, lookup_empty.
Qed.

(** With no other task between two actions, an admission succeeds exactly
    when neither cap is reached, and either takes one slot of each kind or
    leaves the counters as they were; a dropped guard gives both slots back. *)
Theorem try_admit_exact mt mp g gs ip :
  let t := {| reserved := ∅; refused := ∅; guards := gs; dropping := ∅ |} in
  reachable mt mp (g, t) ->
  let '(ok, g') := ConnectionGate.try_admit g ip in
  (ok = true <-> (mt = 0 \/ size gs < mt)%nat /\ (mp = 0 \/ multiplicity ip gs < mp)%nat)
  /\ reachable mt mp (g', if ok then {| reserved := ∅; refused := ∅; guards := {[+ ip +]} ⊎ gs;
                                        dropping := ∅ |} else t)
  /\ (ok = false -> total g' = total g /\ per_ip g' = per_ip g /\ rejected g' = S (rejected g))
  /\ (ok = true -> reachable mt mp (AdmissionGuard.drop g' ip, t)
       /\ total (AdmissionGuard.drop g' ip) = total g
       /\ per_ip (AdmissionGuard.drop g' ip) = per_ip g).
Proof.
  intros t Hr. pose proof (reachable_ok _ _ _ _ Hr) as Hok.
  pose proof (try_admit_run g t ip) as Hrun.
  assert (fst (ConnectionGate.try_admit g ip) = true <->
    (mt = 0 \/ size gs < mt)%nat /\ (mp = 0 \/ multiplicity ip gs < mp)%nat) as Hiff.
  { pose proof (live_count _ _ _ _ ip Hok) as Hl. unfold ConnectionGate.live_for_ip in Hl.
    destruct Hok as [H1 H2 H3 _ _ _]. unfold t in Hl, H3.
    cbn [reserved refused guards dropping] in Hl, H3. rewrite multiplicity_empty, Nat.add_0_r in Hl.
    change (total g = size gs) in H3.
    unfold ConnectionGate.try_admit, ConnectionGate.reserve_global, ConnectionGate.admit_ip.
    rewrite H1. destruct (Nat.eqb_spec mt 0) as [|Hmt];
      [|destruct (Nat.leb_spec mt (total g)); [simpl; split; [done|lia]|]]; simpl;
      rewrite H2, Hl; (destruct (Nat.eqb_spec mp 0) as [|Hmp];
        [|destruct (Nat.leb_spec mp (multiplicity ip gs))]); simpl; split; intros; try done; lia. }
  destruct (ConnectionGate.try_admit g ip) as [ok g'] eqn:Ea. simpl in Hiff.
  assert (reachable mt mp (g', if ok then {| reserved := ∅; refused := ∅;
    guards := {[+ ip +]} ⊎ gs; dropping := ∅ |} else t)) as Hr'.
  { unfold reachable in *. etrans; [exact Hr|]. by destruct ok. }
  split_and!; [done|done| |].
  - intros ->. pose proof (reachable_ok _ _ _ _ Hr') as Hok'. split_and!.
    + by rewrite (gk_total _ _ _ _ Hok), (gk_total _ _ _ _ Hok').
    + apply map_eq. intros x. by rewrite (gk_ip _ _ _ _ Hok), (gk_ip _ _ _ _ Hok').
    + unfold ConnectionGate.try_admit, ConnectionGate.reserve_global, ConnectionGate.admit_ip in Ea.
      repeat case_match; simplify_eq/=; done.
  - intros ->. assert (reachable mt mp (AdmissionGuard.drop g' ip, t)) as Hd.
    { unfold reachable in *. etrans; [exact Hr'|]. eapply rtc_l; [apply st_drop|].
      apply rtc_once, st_dropped. }
    pose proof (reachable_ok _ _ _ _ Hd) as Hokd. split_and!; [done| |].
    + by rewrite (gk_total _ _ _ _ Hok), (gk_total _ _ _ _ Hokd).
    + apply map_eq. intros x. by rewrite (gk_ip _ _ _ _ Hok), (gk_ip _ _ _ _ Hokd).
Qed.

Module GateExample.
Definition two_one : GateInner := ConnectionGate.new 2 1.
Definition first : GateInner := snd (ConnectionGate.try_admit two_one 7).
Definition with_guard : Tasks :=
  {| reserved := ∅; refused := ∅; guards := {[+ 7 +]} ⊎ ∅; dropping := ∅ |}.

(** One connection of address 7 under the caps 2 and 1. *)
Lemma first_reachable : reachable 2 1 (first, with_guard).
Proof. exact (try_admit_run two_one idle 7). Qed.

Lemma gate_caps_witness :
  (size (guards with_guard) <= 2)%nat
  /\ ConnectionGate.live_for_ip first 7 = 1%nat.
Proof.
  destruct (gate_caps 2 1 first with_guard first_reachable) as (H1 & _ & _ & H2 & _).
  split; [by apply H1|]. rewrite H2. vm_compute. reflexivity.
Defined.

(** A second one of the same address is refused, one of another is not. *)
Lemma try_admit_exact_witness :
  fst (ConnectionGate.try_admit first 7) = false /\ fst (ConnectionGate.try_admit first 8) = true.
Proof.
  split; [vm_compute; reflexivity|].
  pose proof (try_admit_exact 2 1 first ({[+ 7 +]} ⊎ ∅) 8 first_reachable) as H.
  destruct (ConnectionGate.try_admit first 8) as [ok g']. destruct H as [H _].
  apply H. split; right; vm_compute; lia.
Defined.
End GateExample.
