(* ===== verification/EdgeTable.v ===== *)
(** The unified edge tables ([brain-metadata/src/tables/edge.rs]): the byte keys,
    LINK and UNLINK on the forward and the reverse table, and the range scans.

    A redb table is a finite map from key bytes to values; a range over it
    yields the entries between two keys in byte order.  Storage errors end the
    write transaction and are not modelled. *)

From stdpp Require Import gmap sorting.
From S2P Require Import Prelude Ids.

#[global] Instance byte_countable : Countable Byte.byte.
Proof. apply (inj_countable' byte_val byte_of). intros b. apply byte.of_Z_unsigned. Defined.

#[global] Instance NodeRef_eq_dec : EqDecision NodeRef.
Proof. solve_decision. Defined.
#[global] Instance EdgeKindRef_eq_dec : EqDecision EdgeKindRef.
Proof. solve_decision. Defined.

(** ** Keys and values *)

(** [weight] is the bit pattern of the float. *)
Record EdgeData := {
  ed_weight : Z;
  ed_origin : Z;
  ed_derived_by : Z;
  ed_created_at : Z;
  ed_annotation : option string;
}.

Record EdgeKey := {
  ek_from : NodeRef;
  ek_kind : EdgeKindRef;
  ek_to : NodeRef;
  ek_disambiguator : bytes;
}.

Definition DISAMBIGUATOR_LEN : nat := 16.
Definition zero_disambiguator : bytes := replicate 16 Byte.x00.
Definition MAX_KIND_BYTES : nat := 5.

Inductive EdgeKeyError :=
| KeyShort (n : nat)
| KeyTrailing (n : nat)
| BadNodeRef (e : NodeRefError)
| BadEdgeKind (e : EdgeKindRefError).

Module EdgeKey.
Definition encoded_len (k : EdgeKey) : nat :=
  (NodeRef.BYTES + EdgeKindRef.encoded_len (ek_kind k) + NodeRef.BYTES + DISAMBIGUATOR_LEN)%nat.

Definition encode (k : EdgeKey) : bytes :=
  NodeRef.to_bytes (ek_from k) ++ EdgeKindRef.encode (ek_kind k)
  ++ NodeRef.to_bytes (ek_to k) ++ ek_disambiguator k.

Definition decode (b : bytes) : result EdgeKey EdgeKeyError :=
  if (length b <? NodeRef.BYTES)%nat then Err (KeyShort (length b)) else
  let? from := map_err BadNodeRef (NodeRef.from_bytes (take NodeRef.BYTES b)) in
  let kind_slice := drop NodeRef.BYTES b in
  let? (kind, kind_len) := map_err BadEdgeKind (EdgeKindRef.decode_from kind_slice) in
  let to_offset := (NodeRef.BYTES + kind_len)%nat in
  if (length b <? to_offset + NodeRef.BYTES + DISAMBIGUATOR_LEN)%nat
  then Err (KeyShort (length b)) else
  let? to := map_err BadNodeRef
    (NodeRef.from_bytes (slice to_offset (to_offset + NodeRef.BYTES) b)) in
  let disamb_offset := (to_offset + NodeRef.BYTES)%nat in
  let disambiguator := slice disamb_offset (disamb_offset + DISAMBIGUATOR_LEN) b in
  if negb (length b =? disamb_offset + DISAMBIGUATOR_LEN)%nat
  then Err (KeyTrailing (length b - (disamb_offset + DISAMBIGUATOR_LEN))) else
  Ok {| ek_from := from; ek_kind := kind; ek_to := to; ek_disambiguator := disambiguator |}.

Definition from_prefix (from : NodeRef) : bytes := NodeRef.to_bytes from.

Definition from_kind_prefix (from : NodeRef) (kind : EdgeKindRef) : bytes :=
  NodeRef.to_bytes from ++ EdgeKindRef.encode kind.

Record wf (k : EdgeKey) : Prop := {
  wf_from : NodeRef.wf (ek_from k);
  wf_kind : EdgeKindRef.wf (ek_kind k);
  wf_to : NodeRef.wf (ek_to k);
  wf_dis : length (ek_disambiguator k) = DISAMBIGUATOR_LEN;
}.
End EdgeKey.

(** ** Tables *)

Abbreviation table := (gmap bytes EdgeData).

Record EdgeTables := { EDGES : table; EDGES_REVERSE : table }.

Definition symmetric_auto_mirror (kind : EdgeKindRef) : bool :=
  match kind with Builtin k => is_symmetric k | _ => false end.

Definition insert_pair (t : EdgeTables) (from : NodeRef) (kind : EdgeKindRef) (to : NodeRef)
    (dis : bytes) (data : EdgeData) : EdgeTables :=
  let fwd := {| ek_from := from; ek_kind := kind; ek_to := to; ek_disambiguator := dis |} in
  let rev := {| ek_from := to; ek_kind := kind; ek_to := from; ek_disambiguator := dis |} in
  {| EDGES := <[EdgeKey.encode fwd := data]> (EDGES t);
     EDGES_REVERSE := <[EdgeKey.encode rev := data]> (EDGES_REVERSE t) |}.

Definition link (t : EdgeTables) (from : NodeRef) (kind : EdgeKindRef) (to : NodeRef)
    (dis : bytes) (data : EdgeData) : EdgeTables :=
  let t := insert_pair t from kind to dis data in
  if symmetric_auto_mirror kind && negb (bool_decide (from = to))
  then insert_pair t to kind from dis data else t.

Definition remove_pair (t : EdgeTables) (fwd rev : EdgeKey) : EdgeTables :=
  {| EDGES := delete (EdgeKey.encode fwd) (EDGES t);
     EDGES_REVERSE := delete (EdgeKey.encode rev) (EDGES_REVERSE t) |}.

Definition unlink (t : EdgeTables) (from : NodeRef) (kind : EdgeKindRef) (to : NodeRef)
    (dis : bytes) : bool * EdgeTables :=
  let fwd := {| ek_from := from; ek_kind := kind; ek_to := to; ek_disambiguator := dis |} in
  let rev := {| ek_from := to; ek_kind := kind; ek_to := from; ek_disambiguator := dis |} in
  let removed := bool_decide (is_Some (EDGES t !! EdgeKey.encode fwd)) in
  let t := remove_pair t fwd rev in
  (removed,
   if symmetric_auto_mirror kind && negb (bool_decide (from = to))
   then remove_pair t rev fwd else t).

Definition edge_get (t : EdgeTables) (from : NodeRef) (kind : EdgeKindRef) (to : NodeRef)
    (dis : bytes) : option EdgeData :=
  EDGES t !! EdgeKey.encode {| ek_from := from; ek_kind := kind; ek_to := to;
                               ek_disambiguator := dis |}.

(** ** Range scans *)

Definition bytes_le (a b : bytes) : Prop := bytes_compare a b <> Gt.
#[global] Instance bytes_le_dec a b : Decision (bytes_le a b).
Proof. unfold bytes_le. destruct (bytes_compare a b); [left|left|right]; congruence. Defined.

Definition entry_le (x y : bytes * EdgeData) : Prop := bytes_le (fst x) (fst y).
#[global] Instance entry_le_dec x y : Decision (entry_le x y).
Proof. unfold entry_le. apply _. Defined.

(** [Table::range] with inclusive bounds. *)
Definition range (t : table) (lo hi : bytes) : list (bytes * EdgeData) :=
  merge_sort entry_le
    (filter (fun e => bytes_le lo (fst e) /\ bytes_le (fst e) hi) (map_to_list t)).

Definition FF (n : nat) : bytes := replicate n (byte_of 255).

Definition range_bounds (anchor : NodeRef) (kind_filter : option EdgeKindRef) : bytes * bytes :=
  match kind_filter with
  | Some k =>
    let prefix := EdgeKey.from_kind_prefix anchor k in
    (prefix, prefix ++ FF (NodeRef.BYTES + DISAMBIGUATOR_LEN))
  | None =>
    let prefix := EdgeKey.from_prefix anchor in
    (prefix, prefix ++ FF (MAX_KIND_BYTES + NodeRef.BYTES + DISAMBIGUATOR_LEN))
  end.

Definition EdgeRow : Type := EdgeKindRef * NodeRef * bytes * EdgeData.

(** The loop of [range_scan] over the entries of the range. *)
Fixpoint scan_loop (entries : list (bytes * EdgeData)) (anchor : NodeRef)
    (kind_filter : option EdgeKindRef) : result (list EdgeRow) EdgeKeyError :=
  match entries with
  | [] => Ok []
  | (k, v) :: rest =>
    let? key := EdgeKey.decode k in
    let? out := scan_loop rest anchor kind_filter in
    if negb (bool_decide (ek_from key = anchor)) then Ok out else
    if match kind_filter with
       | Some want => negb (bool_decide (ek_kind key = want))
       | None => false
       end then Ok out else
    Ok ((ek_kind key, ek_to key, ek_disambiguator key, v) :: out)
  end.

Definition range_scan (t : table) (anchor : NodeRef) (kind_filter : option EdgeKindRef)
  : result (list EdgeRow) EdgeKeyError :=
  let '(lo, hi) := range_bounds anchor kind_filter in
  scan_loop (range t lo hi) anchor kind_filter.

Definition walk_outgoing (t : EdgeTables) (from : NodeRef) (kind_filter : option EdgeKindRef)
  : result (list EdgeRow) EdgeKeyError := range_scan (EDGES t) from kind_filter.

Definition walk_incoming (t : EdgeTables) (to : NodeRef) (kind_filter : option EdgeKindRef)
  : result (list EdgeRow) EdgeKeyError := range_scan (EDGES_REVERSE t) to kind_filter.

Definition memory_rows (rows : list EdgeRow) : list (EdgeKind * MemoryId * EdgeData) :=
  omap (fun r : EdgeRow =>
    match r with
    | (Builtin ek, NodeMemory m, _, d) => Some (ek, m, d)
    | _ => None
    end) rows.

Definition list_memory_edges_from (t : EdgeTables) (from : MemoryId) (kind : option EdgeKind)
  : result (list (EdgeKind * MemoryId * EdgeData)) EdgeKeyError :=
  let? rows := walk_outgoing t (NodeMemory from) (Builtin <$> kind) in Ok (memory_rows rows).

Definition list_memory_edges_to (t : EdgeTables) (to : MemoryId) (kind : option EdgeKind)
  : result (list (EdgeKind * MemoryId * EdgeData)) EdgeKeyError :=
  let? rows := walk_incoming t (NodeMemory to) (Builtin <$> kind) in Ok (memory_rows rows).

(** ** Keys: the codec *)

#[global] Instance EdgeKey_eq_dec : EqDecision EdgeKey.
Proof. solve_decision. Defined.

Definition flip (k : EdgeKey) : EdgeKey :=
  {| ek_from := ek_to k; ek_kind := ek_kind k; ek_to := ek_from k;
     ek_disambiguator := ek_disambiguator k |}.

Lemma flip_flip k : flip (flip k) = k.
Proof. by destruct k. Qed.

Lemma flip_wf k : EdgeKey.wf k -> EdgeKey.wf (flip k).
Proof. by intros []; split. Qed.

Lemma flip_inj k k' : flip k = flip k' -> k = k'.
Proof. intros E. by rewrite <- (flip_flip k), E, flip_flip. Qed.

Create HintDb edges.
#[export] Hint Resolve flip_wf : edges.

Lemma length_key k : EdgeKey.wf k -> length (EdgeKey.encode k) = EdgeKey.encoded_len k.
Proof.
  intros [Hf Hk Ht Hd]. unfold EdgeKey.encode, EdgeKey.encoded_len.
  rewrite !length_app, !NodeRefFacts.length_to_bytes, EdgeKindRefFacts.length_encode, Hd by done. lia.
Qed.

Lemma decode_key k : EdgeKey.wf k -> EdgeKey.decode (EdgeKey.encode k) = Ok k.
Proof.
  intros Hwf. pose proof (length_key k Hwf) as Hl. destruct Hwf as [Hf Hk Ht Hd].
  unfold EdgeKey.encoded_len in Hl. unfold EdgeKey.decode. rewrite Hl.
  rewrite (proj2 (Nat.ltb_ge _ NodeRef.BYTES)) by lia. unfold EdgeKey.encode.
  pose proof (NodeRefFacts.length_to_bytes _ Hf) as Lf.
  pose proof (NodeRefFacts.length_to_bytes _ Ht) as Lt.
  pose proof (EdgeKindRefFacts.length_encode (ek_kind k)) as Lk.
  rewrite take_app_length', drop_app_length' by done.
  rewrite NodeRefFacts.from_to by done. cbn [map_err].
  rewrite EdgeKindRefFacts.decode_encode by done. cbn [map_err].
  set (len := EdgeKindRef.encoded_len (ek_kind k)) in *.
  rewrite (proj2 (Nat.ltb_ge _ _)) by lia.
  rewrite (slice_skip (NodeRef.to_bytes (ek_from k))) by lia.
  rewrite (slice_skip (EdgeKindRef.encode _)) by lia.
  rewrite slice_head by lia. rewrite NodeRefFacts.from_to by done. cbn [map_err].
  replace (_ =? _)%nat with true by (symmetry; apply Nat.eqb_eq; lia). cbn [negb].
  rewrite (slice_skip (NodeRef.to_bytes (ek_from k))) by lia.
  rewrite (slice_skip (EdgeKindRef.encode _)) by lia.
  rewrite (slice_skip (NodeRef.to_bytes (ek_to k))) by lia.
  rewrite <- (app_nil_r (ek_disambiguator k)). rewrite slice_head by lia.
  by destruct k.
Qed.

Lemma encode_key b k : EdgeKey.decode b = Ok k -> EdgeKey.wf k /\ EdgeKey.encode k = b.
Proof.
  unfold EdgeKey.decode. destruct (Nat.ltb_spec (length b) NodeRef.BYTES) as [|Hb]; [done|].
  destruct (NodeRef.from_bytes (take NodeRef.BYTES b)) as [from|] eqn:Ef; [|done].
  apply NodeRefFacts.to_from in Ef as [Wf Bf]; [|rewrite length_take; lia]. cbn [map_err].
  destruct (EdgeKindRef.decode_from (drop NodeRef.BYTES b)) as [[kind n]|] eqn:Ek; [|done].
  apply EdgeKindRefFacts.encode_decode in Ek as (Wk & -> & Hn & Bk). cbn [map_err].
  set (n := EdgeKindRef.encoded_len kind) in *.
  destruct (Nat.ltb_spec (length b) (NodeRef.BYTES + n + NodeRef.BYTES + DISAMBIGUATOR_LEN))
    as [|Hl]; [done|].
  destruct (NodeRef.from_bytes (slice _ _ b)) as [to|] eqn:Et; [|done].
  apply NodeRefFacts.to_from in Et as [Wt Bt]; [|rewrite length_slice; lia]. cbn [map_err].
  destruct (Nat.eqb_spec (length b) (NodeRef.BYTES + n + NodeRef.BYTES + DISAMBIGUATOR_LEN)) as [He|];
    [|done]. cbn [negb]. intros <-%Ok_inj. split.
  - split; cbn [ek_from ek_kind ek_to ek_disambiguator]; try done.
    rewrite length_slice by lia. unfold DISAMBIGUATOR_LEN. lia.
  - unfold EdgeKey.encode. cbn [ek_from ek_kind ek_to ek_disambiguator]. rewrite Bf, Bt, <- Bk.
    rewrite slice_app by lia. rewrite <- slice_0.
    assert (take n (drop NodeRef.BYTES b) = slice NodeRef.BYTES (NodeRef.BYTES + n) b) as ->
      by (unfold slice; f_equal; lia).
    rewrite !slice_app by lia. rewrite slice_0. apply take_ge. lia.
Qed.

Lemma encode_key_inj k k' :
  EdgeKey.wf k -> EdgeKey.wf k' -> EdgeKey.encode k = EdgeKey.encode k' -> k = k'.
Proof.
  intros H1 H2 E. apply (Ok_inj (E := EdgeKeyError)). by rewrite <- !decode_key, E.
Qed.

(** ** Tables: LINK and UNLINK *)

Definition key (from : NodeRef) (kind : EdgeKindRef) (to : NodeRef) (dis : bytes) : EdgeKey :=
  {| ek_from := from; ek_kind := kind; ek_to := to; ek_disambiguator := dis |}.

(** The keys that LINK or UNLINK of [k] touches in the forward table. *)
Definition touched (k x : EdgeKey) : Prop :=
  x = k \/ symmetric_auto_mirror (ek_kind k) = true /\ x = flip k.

#[global] Instance touched_dec k x : Decision (touched k x).
Proof. unfold touched. apply _. Defined.

Lemma touched_flip k x : touched k (flip x) <-> touched (flip k) x.
Proof.
  unfold touched. simpl. split; intros [E|[Hs E]]; [left|right|left|right].
  - by rewrite <- E, flip_flip.
  - split; [done|]. rewrite flip_flip. by apply flip_inj.
  - by rewrite E, flip_flip.
  - split; [done|]. by rewrite E, flip_flip.
Qed.

Lemma lookup_key_insert (m : table) k x d :
  EdgeKey.wf k -> EdgeKey.wf x ->
  <[EdgeKey.encode k := d]> m !! EdgeKey.encode x
  = if decide (x = k) then Some d else m !! EdgeKey.encode x.
Proof.
  intros Hk Hx. case_decide as E; [subst; by rewrite lookup_insert_eq|].
  rewrite lookup_insert_ne; [done|]. intros E'. apply E. symmetry. by apply encode_key_inj.
Qed.

Lemma lookup_key_delete (m : table) k x :
  EdgeKey.wf k -> EdgeKey.wf x ->
  delete (EdgeKey.encode k) m !! EdgeKey.encode x
  = if decide (x = k) then None else m !! EdgeKey.encode x.
Proof.
  intros Hk Hx. case_decide as E; [subst; by rewrite lookup_delete_eq|].
  rewrite lookup_delete_ne; [done|]. intros E'. apply E. symmetry. by apply encode_key_inj.
Qed.

Local Ltac decide_cases := repeat (destruct (decide _)); try done; exfalso; tauto.

Lemma link_lookup t k x d :
  EdgeKey.wf k -> EdgeKey.wf x ->
  let t' := link t (ek_from k) (ek_kind k) (ek_to k) (ek_disambiguator k) d in
  EDGES t' !! EdgeKey.encode x
    = (if decide (touched k x) then Some d else EDGES t !! EdgeKey.encode x)
  /\ EDGES_REVERSE t' !! EdgeKey.encode x
    = (if decide (touched k (flip x)) then Some d else EDGES_REVERSE t !! EdgeKey.encode x).
Proof.
  intros Hk Hx.
  assert (key (ek_from k) (ek_kind k) (ek_to k) (ek_disambiguator k) = k) as Ek by by destruct k.
  unfold link, insert_pair.
  change {| ek_from := ek_to k; ek_kind := ek_kind k; ek_to := ek_from k;
            ek_disambiguator := ek_disambiguator k |} with (flip k).
  change {| ek_from := ek_from k; ek_kind := ek_kind k; ek_to := ek_to k;
            ek_disambiguator := ek_disambiguator k |}
    with (key (ek_from k) (ek_kind k) (ek_to k) (ek_disambiguator k)). rewrite Ek.
  assert (flip x = k <-> x = flip k) as Hfx
    by (split; [intros <-; by rewrite flip_flip|intros ->; apply flip_flip]).
  assert (flip x = flip k <-> x = k) as Hff by (split; [apply flip_inj|by intros ->]).
  assert (ek_from k = ek_to k -> flip k = k) as Hself by (destruct k; simpl; by intros ->).
  destruct (symmetric_auto_mirror (ek_kind k) && negb (bool_decide (ek_from k = ek_to k))) eqn:Es;
    cbn [EDGES EDGES_REVERSE]; rewrite !lookup_key_insert by auto using flip_wf.
  - apply andb_true_iff in Es as [Es _]. unfold touched.
    split; decide_cases.
  - assert (symmetric_auto_mirror (ek_kind k) = true -> (x = flip k <-> x = k)) as Hsym.
    { intros Hs. rewrite Hs in Es. rewrite Hself; [done|].
      by apply negb_false_iff, bool_decide_eq_true in Es. }
    unfold touched. split; decide_cases.
Qed.

Lemma unlink_lookup t k x :
  EdgeKey.wf k -> EdgeKey.wf x ->
  let '(removed, t') := unlink t (ek_from k) (ek_kind k) (ek_to k) (ek_disambiguator k) in
  removed = bool_decide (is_Some (EDGES t !! EdgeKey.encode k))
  /\ EDGES t' !! EdgeKey.encode x
    = (if decide (touched k x) then None else EDGES t !! EdgeKey.encode x)
  /\ EDGES_REVERSE t' !! EdgeKey.encode x
    = (if decide (touched k (flip x)) then None else EDGES_REVERSE t !! EdgeKey.encode x).
Proof.
  intros Hk Hx.
  assert (key (ek_from k) (ek_kind k) (ek_to k) (ek_disambiguator k) = k) as Ek by by destruct k.
  unfold unlink, remove_pair.
  change {| ek_from := ek_to k; ek_kind := ek_kind k; ek_to := ek_from k;
            ek_disambiguator := ek_disambiguator k |} with (flip k).
  change {| ek_from := ek_from k; ek_kind := ek_kind k; ek_to := ek_to k;
            ek_disambiguator := ek_disambiguator k |}
    with (key (ek_from k) (ek_kind k) (ek_to k) (ek_disambiguator k)). rewrite Ek.
  assert (flip x = k <-> x = flip k) as Hfx
    by (split; [intros <-; by rewrite flip_flip|intros ->; apply flip_flip]).
  assert (flip x = flip k <-> x = k) as Hff by (split; [apply flip_inj|by intros ->]).
  assert (ek_from k = ek_to k -> flip k = k) as Hself by (destruct k; simpl; by intros ->).
  split; [done|].
  destruct (symmetric_auto_mirror (ek_kind k) && negb (bool_decide (ek_from k = ek_to k))) eqn:Es;
    cbn [EDGES EDGES_REVERSE]; rewrite !lookup_key_delete by auto using flip_wf.
  - apply andb_true_iff in Es as [Es _]. unfold touched.
    split; decide_cases.
  - assert (symmetric_auto_mirror (ek_kind k) = true -> (x = flip k <-> x = k)) as Hsym.
    { intros Hs. rewrite Hs in Es. rewrite Hself; [done|].
      by apply negb_false_iff, bool_decide_eq_true in Es. }
    unfold touched. split; decide_cases.
Qed.

(** The two tables as one relation: keys are encodings, the reverse table is
    the transpose of the forward one with the same values, and a symmetric
    builtin label is stored both ways. *)
Record tables_ok (t : EdgeTables) : Prop := {
  to_keys : forall b d, EDGES t !! b = Some d -> exists k, EdgeKey.wf k /\ b = EdgeKey.encode k;
  to_rev_keys : forall b d, EDGES_REVERSE t !! b = Some d ->
    exists k, EdgeKey.wf k /\ b = EdgeKey.encode k;
  to_mirror : forall k, EdgeKey.wf k ->
    EDGES_REVERSE t !! EdgeKey.encode (flip k) = EDGES t !! EdgeKey.encode k;
  to_symmetric : forall k, EdgeKey.wf k -> symmetric_auto_mirror (ek_kind k) = true ->
    EDGES t !! EdgeKey.encode (flip k) = EDGES t !! EdgeKey.encode k;
}.

Lemma tables_ok_empty : tables_ok {| EDGES := ∅; EDGES_REVERSE := ∅ |}.
Proof. by split; intros *; cbn [EDGES EDGES_REVERSE]; rewrite ?lookup_empty. Qed.

Lemma lookup_insert_pair t from kind to dis data b d :
  let k := key from kind to dis in
  (EDGES (insert_pair t from kind to dis data) !! b = Some d ->
   b = EdgeKey.encode k \/ EDGES t !! b = Some d)
  /\ (EDGES_REVERSE (insert_pair t from kind to dis data) !! b = Some d ->
   b = EdgeKey.encode (flip k) \/ EDGES_REVERSE t !! b = Some d).
Proof.
  split; cbn [insert_pair EDGES EDGES_REVERSE];
    intros [[<- _]|[_ H]]%lookup_insert_Some; auto.
Qed.

Lemma lookup_remove_pair t fwd rev b d :
  (EDGES (remove_pair t fwd rev) !! b = Some d -> EDGES t !! b = Some d)
  /\ (EDGES_REVERSE (remove_pair t fwd rev) !! b = Some d -> EDGES_REVERSE t !! b = Some d).
Proof. split; cbn [remove_pair EDGES EDGES_REVERSE]; by intros [_ H]%lookup_delete_Some. Qed.

Lemma insert_pair_keys t from kind to dis data :
  EdgeKey.wf (key from kind to dis) ->
  (forall b d, EDGES t !! b = Some d -> exists k, EdgeKey.wf k /\ b = EdgeKey.encode k) ->
  (forall b d, EDGES_REVERSE t !! b = Some d -> exists k, EdgeKey.wf k /\ b = EdgeKey.encode k) ->
  let t' := insert_pair t from kind to dis data in
  (forall b d, EDGES t' !! b = Some d -> exists k, EdgeKey.wf k /\ b = EdgeKey.encode k)
  /\ (forall b d, EDGES_REVERSE t' !! b = Some d -> exists k, EdgeKey.wf k /\ b = EdgeKey.encode k).
Proof.
  intros Hk H1 H2 t'. split; intros b d H; apply (lookup_insert_pair t from kind to dis data b d) in H
    as [->|H]; eauto using flip_wf.
Qed.

(** The state-independent part: what a write does to the symmetric and mirror
    clauses depends on [touched] alone. *)
Lemma touched_sym k x :
  symmetric_auto_mirror (ek_kind x) = true -> (touched k (flip x) <-> touched k x).
Proof.
  intros Hs. unfold touched. split; intros [E|[Hk E]]; subst.
  - right. by rewrite flip_flip.
  - left. by apply flip_inj.
  - by right.
  - left. by rewrite flip_flip.
Qed.

Lemma written_ok t t' k v :
  tables_ok t ->
  (forall b d, EDGES t' !! b = Some d -> exists k, EdgeKey.wf k /\ b = EdgeKey.encode k) ->
  (forall b d, EDGES_REVERSE t' !! b = Some d -> exists k, EdgeKey.wf k /\ b = EdgeKey.encode k) ->
  (forall x, EdgeKey.wf x ->
    EDGES t' !! EdgeKey.encode x
      = (if decide (touched k x) then v else EDGES t !! EdgeKey.encode x)
    /\ EDGES_REVERSE t' !! EdgeKey.encode x
      = (if decide (touched k (flip x)) then v else EDGES_REVERSE t !! EdgeKey.encode x)) ->
  tables_ok t'.
Proof.
  intros Hok Hk1 Hk2 Hw. split; [done|done| |].
  - intros x Hx. rewrite (proj2 (Hw (flip x) (flip_wf x Hx))), (proj1 (Hw x Hx)), flip_flip.
    by rewrite to_mirror.
  - intros x Hx Hs. rewrite (proj1 (Hw (flip x) (flip_wf x Hx))), (proj1 (Hw x Hx)).
    rewrite to_symmetric by done. pose proof (touched_sym k x Hs). decide_cases.
Qed.

Lemma link_ok t k d :
  tables_ok t -> EdgeKey.wf k ->
  tables_ok (link t (ek_from k) (ek_kind k) (ek_to k) (ek_disambiguator k) d).
Proof.
  intros Hok Hk.
  assert (EdgeKey.wf (key (ek_from k) (ek_kind k) (ek_to k) (ek_disambiguator k))) as Hk1
    by by destruct k.
  assert (EdgeKey.wf (key (ek_to k) (ek_kind k) (ek_from k) (ek_disambiguator k))) as Hk2
    by by apply flip_wf in Hk.
  pose proof (insert_pair_keys t _ _ _ _ d Hk1 (to_keys t Hok) (to_rev_keys t Hok)) as [H1 H2].
  eapply (written_ok t _ k (Some d) Hok); [| |intros x Hx; by apply (link_lookup t k x d)].
  all: unfold link; destruct (_ && _); try done.
  all: by apply insert_pair_keys.
Qed.

Lemma unlink_ok t k :
  tables_ok t -> EdgeKey.wf k ->
  tables_ok (unlink t (ek_from k) (ek_kind k) (ek_to k) (ek_disambiguator k)).2.
Proof.
  intros Hok Hk.
  eapply (written_ok t _ k None Hok); [| |intros x Hx; by apply (unlink_lookup t k x)].
  all: unfold unlink; cbn [snd]; destruct (_ && _); intros b d;
    intros H; repeat apply lookup_remove_pair in H; eauto using to_keys, to_rev_keys.
Qed.

#[export] Hint Resolve tables_ok_empty link_ok unlink_ok : edges.

(** ** Byte order *)

Lemma bytes_compare_sym a b : bytes_compare b a = CompOpp (bytes_compare a b).
Proof.
  revert b. induction a as [|x a IH]; intros [|y b]; simpl; [done..|].
  rewrite (Z.compare_antisym (byte_val x)). destruct (byte_val x ?= byte_val y); [apply IH|done..].
Qed.

Lemma bytes_compare_eq a b : bytes_compare a b = Eq -> a = b.
Proof.
  revert b. induction a as [|x a IH]; intros [|y b]; simpl; try done.
  destruct (Z.compare_spec (byte_val x) (byte_val y)) as [E| |]; try done.
  intros ->%IH. f_equal. rewrite <- (byte.of_Z_unsigned x), <- (byte.of_Z_unsigned y).
  by apply (f_equal byte_of) in E.
Qed.

#[global] Instance bytes_le_total : Total bytes_le.
Proof.
  intros a b. unfold bytes_le. rewrite (bytes_compare_sym a b).
  destruct (bytes_compare a b); simpl; [left|left|right]; done.
Qed.

#[global] Instance bytes_le_trans : Transitive bytes_le.
Proof.
  unfold bytes_le. intros a. induction a as [|x a IH]; intros [|y b] [|z c]; simpl; try done.
  specialize (IH b c).
  destruct (Z.compare_spec (byte_val x) (byte_val y)), (Z.compare_spec (byte_val y) (byte_val z)),
    (Z.compare_spec (byte_val x) (byte_val z)); try done; try lia; auto.
Qed.

Lemma bytes_le_prefix p s : bytes_le p (p ++ s).
Proof.
  unfold bytes_le. induction p as [|x p IH]; simpl; [by destruct s|]. by rewrite Z.compare_refl.
Qed.

Lemma bytes_le_app p s s' : bytes_le s s' -> bytes_le (p ++ s) (p ++ s').
Proof. unfold bytes_le. intros H. induction p as [|x p IH]; simpl; [done|]. by rewrite Z.compare_refl. Qed.

Lemma bytes_le_FF s n : (length s <= n)%nat -> bytes_le s (FF n).
Proof.
  unfold bytes_le, FF. revert n. induction s as [|x s IH]; intros [|n] Hl; simpl in *; try done; try lia.
  rewrite (byte_val_of 255) by (unfold u8, uint; lia).
  pose proof (byte_val_u8 x) as Hx. unfold u8, uint in Hx.
  destruct (Z.compare_spec (byte_val x) 255); [|done|lia]. apply IH. lia.
Qed.

(** ** Scans *)

Definition row_key (anchor : NodeRef) (r : EdgeRow) : EdgeKey :=
  let '(kind, other, dis, _) := r in key anchor kind other dis.

Definition wanted (kind_filter : option EdgeKindRef) (kind : EdgeKindRef) : Prop :=
  match kind_filter with Some want => kind = want | None => True end.
#[global] Instance wanted_dec kf k : Decision (wanted kf k).
Proof. destruct kf; simpl; apply _. Defined.

Lemma nodup_fst_filter {A B} (P : A * B -> Prop) `{!forall x, Decision (P x)} (l : list (A * B)) :
  NoDup l.*1 -> NoDup (filter P l).*1.
Proof.
  induction l as [|x l IH]; [done|]. intros [Hx Hl]%NoDup_cons. rewrite filter_cons.
  case_decide; [|by apply IH]. apply NoDup_cons. split; [|by apply IH].
  intros (y & Ey & [_ Hy]%list_elem_of_filter)%list_elem_of_fmap. apply Hx, list_elem_of_fmap. by exists y.
Qed.

Lemma sorted_filter {A} (R : A -> A -> Prop) (P : A -> Prop) `{!forall x, Decision (P x)} l :
  StronglySorted R l -> StronglySorted R (filter P l).
Proof.
  induction 1 as [|x l Hs IH Hf]; [constructor|]. rewrite filter_cons. case_decide; [|done].
  constructor; [done|]. rewrite !Forall_forall in *. intros y [_ Hy]%list_elem_of_filter. by apply Hf.
Qed.

Lemma range_elem t lo hi b d :
  (b, d) ∈ range t lo hi <-> t !! b = Some d /\ bytes_le lo b /\ bytes_le b hi.
Proof.
  unfold range. rewrite merge_sort_Permutation, list_elem_of_filter, elem_of_map_to_list. simpl. tauto.
Qed.

Lemma range_sorted t lo hi : StronglySorted entry_le (range t lo hi).
Proof.
  apply StronglySorted_merge_sort.
  - intros x y z. apply bytes_le_trans.
  - intros x y. apply bytes_le_total.
Qed.

Lemma range_nodup t lo hi : NoDup (range t lo hi).*1.
Proof.
  unfold range. rewrite merge_sort_Permutation.
  apply nodup_fst_filter, (NoDup_fst_map_to_list t).
Qed.

(** A key under the anchor and the wanted label lies within the bounds. *)
Lemma range_bounds_cover k kf :
  EdgeKey.wf k -> wanted kf (ek_kind k) ->
  let '(lo, hi) := range_bounds (ek_from k) kf in
  bytes_le lo (EdgeKey.encode k) /\ bytes_le (EdgeKey.encode k) hi.
Proof.
  intros Hk Hw. destruct Hk as [Hf Hk Ht Hd].
  pose proof (NodeRefFacts.length_to_bytes _ Ht) as Lt.
  pose proof (EdgeKindRefFacts.length_encode (ek_kind k)) as Lk.
  assert (EdgeKindRef.encoded_len (ek_kind k) <= MAX_KIND_BYTES)%nat as Lm
    by (destruct (ek_kind k); unfold MAX_KIND_BYTES; simpl; lia).
  unfold range_bounds, EdgeKey.encode, EdgeKey.from_kind_prefix, EdgeKey.from_prefix.
  destruct kf as [want|]; simpl in Hw.
  - subst want. rewrite (app_assoc (NodeRef.to_bytes (ek_from k))). split; [apply bytes_le_prefix|].
    apply bytes_le_app, bytes_le_FF. rewrite length_app. lia.
  - split; [apply bytes_le_prefix|]. apply bytes_le_app, bytes_le_FF. rewrite !length_app. lia.
Qed.

Lemma scan_loop_keys (kl : list (EdgeKey * EdgeData)) anchor kf :
  Forall (fun e => EdgeKey.wf e.1) kl ->
  exists rows,
    scan_loop (map (fun e => (EdgeKey.encode e.1, e.2)) kl) anchor kf = Ok rows
    /\ map (fun r : EdgeRow => (row_key anchor r, r.2)) rows
       = filter (fun e => ek_from e.1 = anchor /\ wanted kf (ek_kind e.1)) kl.
Proof.
  induction 1 as [|[k d] kl Hk _ IH]; [by exists []|]. simpl in Hk.
  destruct IH as (rows & E & IH). cbn [map scan_loop fst snd]. rewrite decode_key by done. rewrite E.
  rewrite filter_cons. cbn [fst]. case_decide as Hd.
  - destruct Hd as [<- Hw]. rewrite bool_decide_true by done. cbn [negb].
    exists ((ek_kind k, ek_to k, ek_disambiguator k, d) :: rows). split.
    + destruct kf as [want|]; [|done]. simpl in Hw. by rewrite bool_decide_true.
    + cbn [map snd row_key]. rewrite IH. by destruct k.
  - exists rows. split; [|done]. case_bool_decide as Hf; [|done]. cbn [negb].
    destruct kf as [want|]; [|by destruct Hd]. case_bool_decide as Hw; [|done]. by destruct Hd.
Qed.

Lemma decoded_rows (l : list (bytes * EdgeData)) :
  (forall b d, (b, d) ∈ l -> exists k, EdgeKey.wf k /\ b = EdgeKey.encode k) ->
  exists kl, Forall (fun e => EdgeKey.wf e.1) kl
    /\ l = map (fun e => (EdgeKey.encode e.1, e.2)) kl.
Proof.
  induction l as [|[b d] l IH]; intros H; [by exists []|].
  destruct (H b d) as (k & Hk & ->); [by left|].
  destruct IH as (kl & Hkl & ->); [intros b' d' Hin; apply (H b' d'); by right|].
  exists ((k, d) :: kl). by split; [constructor|].
Qed.

Definition key_lt (k k' : EdgeKey) : Prop :=
  bytes_compare (EdgeKey.encode k) (EdgeKey.encode k') = Lt.

Lemma strictly_sorted (l : list (EdgeKey * EdgeData)) :
  StronglySorted entry_le (map (fun e => (EdgeKey.encode e.1, e.2)) l) ->
  NoDup (map (fun e => (EdgeKey.encode e.1, e.2)) l).*1 ->
  StronglySorted (fun e e' => key_lt e.1 e'.1) l.
Proof.
  induction l as [|[k d] l IH]; intros Hs Hn; [constructor|]. simpl in *.
  apply StronglySorted_inv in Hs as [Hs Hf]. apply NoDup_cons in Hn as [Hni Hn].
  constructor; [by apply IH|]. apply Forall_forall. intros [k' d'] Hin.
  rewrite Forall_forall in Hf. specialize (Hf (EdgeKey.encode k', d')).
  unfold entry_le, bytes_le in Hf. unfold key_lt. simpl in *.
  destruct (bytes_compare (EdgeKey.encode k) (EdgeKey.encode k')) eqn:E; [|done|].
  - apply bytes_compare_eq in E. destruct Hni. rewrite E. apply list_elem_of_fmap.
    exists (EdgeKey.encode k', d'). split; [done|]. apply list_elem_of_fmap. by exists (k', d').
  - destruct Hf; [|done]. apply list_elem_of_fmap. by exists (k', d').
Qed.

Lemma range_scan_exact t anchor kf :
  (forall b d, t !! b = Some d -> exists k, EdgeKey.wf k /\ b = EdgeKey.encode k) ->
  exists rows, range_scan t anchor kf = Ok rows
    /\ (forall r, r ∈ rows <-> EdgeKey.wf (row_key anchor r) /\ wanted kf (ek_kind (row_key anchor r))
          /\ t !! EdgeKey.encode (row_key anchor r) = Some r.2)
    /\ StronglySorted (fun r r' => key_lt (row_key anchor r) (row_key anchor r')) rows.
Proof.
  intros Hk. unfold range_scan. destruct (range_bounds anchor kf) as [lo hi] eqn:Eb.
  destruct (decoded_rows (range t lo hi)) as (kl & Hkl & Er).
  { intros b d [H _]%range_elem. eauto. }
  destruct (scan_loop_keys kl anchor kf Hkl) as (rows & E & Em). exists rows. rewrite Er. split; [done|].
  assert (forall k d, (k, d) ∈ kl <-> EdgeKey.wf k /\ (EdgeKey.encode k, d) ∈ range t lo hi) as Hkd.
  { intros k d. rewrite Er. split.
    - intros Hin. rewrite Forall_forall in Hkl. split; [by apply (Hkl (k, d))|].
      apply list_elem_of_fmap. by exists (k, d).
    - intros [Hw ((k' & d') & E' & Hin)%list_elem_of_fmap]. cbn [fst snd] in E'.
      pose proof (f_equal fst E') as E1. pose proof (f_equal snd E') as E2. cbn [fst snd] in E1, E2.
      rewrite Forall_forall in Hkl. pose proof (Hkl _ Hin) as Hw'. cbn [fst] in Hw'.
      apply encode_key_inj in E1; [by subst|done..]. }
  assert (forall r r', row_key anchor r = row_key anchor r' -> r.2 = r'.2 -> r = r') as Hinj.
  { intros [[[? ?] ?] ?] [[[? ?] ?] ?]. simpl. unfold key. by intros [= -> -> ->] ->. }
  split.
  - intros r. transitivity ((row_key anchor r, r.2) ∈ map (fun r : EdgeRow => (row_key anchor r, r.2)) rows).
    { split; [intros Hin; apply list_elem_of_fmap; by exists r|].
      intros (r' & E' & Hin)%list_elem_of_fmap. injection E' as E1 E2. by rewrite (Hinj r r' E1 E2). }
    rewrite Em, list_elem_of_filter, Hkd, range_elem. cbn [fst snd].
    assert (ek_from (row_key anchor r) = anchor) as Ef by by destruct r as [[[? ?] ?] ?].
    split; [naive_solver|]. intros (Hw & Hwt & Hl). split_and!; try done.
    all: pose proof (range_bounds_cover _ kf Hw Hwt) as Hc; rewrite Ef, Eb in Hc; tauto.
  - pose proof (range_sorted t lo hi) as Hs. pose proof (range_nodup t lo hi) as Hn.
    rewrite Er in Hs, Hn. pose proof (strictly_sorted kl Hs Hn) as Hss.
    apply (sorted_filter _ (fun e => ek_from e.1 = anchor /\ wanted kf (ek_kind e.1))) in Hss.
    rewrite <- Em in Hss. clear -Hss. induction rows as [|r rows IH]; [constructor|].
    cbn [map] in Hss. apply StronglySorted_inv in Hss as [Hss Hf]. constructor; [by apply IH|].
    apply Forall_forall. intros r' Hin. rewrite Forall_forall in Hf. apply (Hf (row_key anchor r', r'.2)).
    apply list_elem_of_fmap. by exists r'.
Qed.

(** ** Runs of LINK and UNLINK *)

Inductive EdgeOp :=
| OpLink (k : EdgeKey) (d : EdgeData)
| OpUnlink (k : EdgeKey).

Definition op_key (o : EdgeOp) : EdgeKey :=
  match o with OpLink k _ | OpUnlink k => k end.

Definition apply_op (t : EdgeTables) (o : EdgeOp) : EdgeTables :=
  match o with
  | OpLink k d => link t (ek_from k) (ek_kind k) (ek_to k) (ek_disambiguator k) d
  | OpUnlink k => (unlink t (ek_from k) (ek_kind k) (ek_to k) (ek_disambiguator k)).2
  end.

Definition run_ops (ops : list EdgeOp) : EdgeTables :=
  fold_left apply_op ops {| EDGES := ∅; EDGES_REVERSE := ∅ |}.

Lemma run_ops_ok ops : Forall (fun o => EdgeKey.wf (op_key o)) ops -> tables_ok (run_ops ops).
Proof.
  unfold run_ops. assert (tables_ok {| EDGES := ∅; EDGES_REVERSE := ∅ |}) as Ht by auto with edges.
  revert Ht. generalize {| EDGES := ∅; EDGES_REVERSE := ∅ |}.
  induction ops as [|o ops IH]; intros t Ht Hf; [done|]. apply Forall_cons in Hf as [Ho Hf].
  simpl. apply IH; [|done]. destruct o; cbn [apply_op op_key] in *; auto with edges.
Qed.

(** The value a run leaves for an edge: the last operation that touches it. *)
Fixpoint last_write (ops : list EdgeOp) (x : EdgeKey) : option EdgeData :=
  match ops with
  | [] => None
  | o :: rest =>
    if decide (touched (op_key o) x)
    then match o with OpLink _ d => Some d | OpUnlink _ => None end
    else last_write rest x
  end.

Lemma apply_op_lookup t o x :
  EdgeKey.wf (op_key o) -> EdgeKey.wf x ->
  EDGES (apply_op t o) !! EdgeKey.encode x
  = if decide (touched (op_key o) x)
    then match o with OpLink _ d => Some d | OpUnlink _ => None end
    else EDGES t !! EdgeKey.encode x.
Proof.
  intros Ho Hx. destruct o as [k d|k]; simpl in *.
  - apply (link_lookup t k x d Ho Hx).
  - apply (unlink_lookup t k x Ho Hx).
Qed.

Lemma run_ops_lookup ops x :
  Forall (fun o => EdgeKey.wf (op_key o)) ops -> EdgeKey.wf x ->
  EDGES (run_ops ops) !! EdgeKey.encode x = last_write (reverse ops) x.
Proof.
  intros Hf Hx. induction ops as [|o ops IH] using rev_ind; [apply lookup_empty|].
  apply Forall_app in Hf as [Hf Ho]. rewrite Forall_singleton in Ho.
  unfold run_ops in *. rewrite fold_left_app, reverse_snoc. cbn [fold_left last_write].
  rewrite apply_op_lookup by done. by rewrite (IH Hf).
Qed.

(** C17: A walk lists exactly the edges a run of LINKs and UNLINKs has left.
    After any run, [walk_outgoing] from a node and [walk_incoming] to a node
    return without a decode error and in strict key order; the outgoing rows
    are the edges of that source (and label, when filtered) whose last touching
    operation was a LINK, with its value, and the incoming rows are the edges
    of that target.  The two tables so never disagree, and a symmetric label is
    seen from both ends. *)
Theorem walks_exact (ops : list EdgeOp) (node : NodeRef) (kf : option EdgeKindRef)
    (Hwf : Forall (fun o => EdgeKey.wf (op_key o)) ops) :
  exists outgoing incoming,
    walk_outgoing (run_ops ops) node kf = Ok outgoing
    /\ walk_incoming (run_ops ops) node kf = Ok incoming
    /\ (forall kind to dis d, (kind, to, dis, d) ∈ outgoing <->
          EdgeKey.wf (key node kind to dis) /\ wanted kf kind
          /\ last_write (reverse ops) (key node kind to dis) = Some d)
    /\ (forall kind from dis d, (kind, from, dis, d) ∈ incoming <->
          EdgeKey.wf (key from kind node dis) /\ wanted kf kind
          /\ last_write (reverse ops) (key from kind node dis) = Some d)
    /\ StronglySorted (fun r r' => key_lt (row_key node r) (row_key node r')) outgoing
    /\ StronglySorted (fun r r' => key_lt (row_key node r) (row_key node r')) incoming.
Proof.
  pose proof (run_ops_ok ops Hwf) as Hok.
  destruct (range_scan_exact (EDGES (run_ops ops)) node kf (to_keys _ Hok)) as (o & Eo & Mo & So).
  destruct (range_scan_exact (EDGES_REVERSE (run_ops ops)) node kf (to_rev_keys _ Hok))
    as (i & Ei & Mi & Si).
  exists o, i. split_and!; [done|done| | |done|done].
  - intros kind to dis d. rewrite Mo. cbn [row_key snd].
    split; intros (Hw & Hk & H); rewrite run_ops_lookup in * by done; done.
  - intros kind from dis d. rewrite Mi. cbn [row_key snd].
    change (key node kind from dis) with (flip (key from kind node dis)).
    split; intros (Hw & Hk & H).
    + apply flip_wf in Hw. rewrite flip_flip in Hw.
      rewrite to_mirror, run_ops_lookup in H by done. done.
    + rewrite to_mirror, run_ops_lookup by done. auto with edges.
Qed.

Module EdgeTableExample.

Definition mem (n : Z) : NodeRef := NodeMemory (MemoryId.pack 1 n 0).
Definition d1 : EdgeData :=
  {| ed_weight := 1; ed_origin := 0; ed_derived_by := 0; ed_created_at := 5; ed_annotation := None |}.
Definition e1 : EdgeKey := key (mem 1) (Builtin SimilarTo) (mem 2) zero_disambiguator.
Definition e2 : EdgeKey := key (mem 1) (Builtin Caused) (mem 3) zero_disambiguator.
Definition ops : list EdgeOp := [OpLink e1 d1; OpLink e2 d1; OpUnlink (flip e1)].

Lemma ops_wf : Forall (fun o => EdgeKey.wf (op_key o)) ops.
Proof. repeat constructor; vm_compute; try done; split; congruence. Qed.

Lemma walks_exact_witness :
  exists outgoing incoming,
    walk_outgoing (run_ops ops) (mem 1) None = Ok outgoing
    /\ walk_incoming (run_ops ops) (mem 1) None = Ok incoming
    /\ outgoing = [(Builtin Caused, mem 3, zero_disambiguator, d1)] /\ incoming = [].
Proof.
  destruct (walks_exact ops (mem 1) None ops_wf) as (o & i & Ho & Hi & _).
  exists o, i. split_and!; [done|done| |].
  - enough (Ok o = Ok (E := EdgeKeyError) [(Builtin Caused, mem 3, zero_disambiguator, d1)]) as H
      by (by injection H). rewrite <- Ho. vm_compute. reflexivity.
  - enough (Ok i = Ok (E := EdgeKeyError) []) as H by (by injection H). rewrite <- Hi. vm_compute. reflexivity.
Defined.

End EdgeTableExample.
