(* ===== verification/AckCodec.v ===== *)
(** The acknowledgement of a write and its binary codec
    ([brain-ops/src/state/ack_codec.rs]), with which the durable idempotency
    table stores what a replayed request is answered with.

    [decodes p bs v]: in front of the bytes [bs] the decoder [p] consumes
    exactly them and returns [v], and on a strict prefix of them it reports an
    underrun.  An [AckField] is an encoder and a decoder that agree in this
    sense; the theorem is put together from the fields by one tactic. *)

From S2P Require Import Prelude Ids Utf8 WalPayload.

(** ** Acknowledgements ([write/phase.rs], [write/transaction.rs]) *)

Inductive TombstoneMode := TombSoft | TombHard.

Inductive TombstoneTarget :=
| TargetMemory (id : MemoryId) (mode : TombstoneMode)
| TargetEntity (id : Uuid)
| TargetStatement (id : Uuid)
| TargetRelation (id : Uuid).

Inductive SupersedeTarget := SupersedeStatement (id : Uuid) | SupersedeRelation (id : Uuid).
Inductive SupersedeReplacementId := ReplaceStatement (id : Uuid) | ReplaceRelation (id : Uuid).

(** [brain_core::Entity]; strings are their UTF-8 bytes. *)
Record Entity := {
  en_id : Uuid;
  en_entity_type : Z;
  en_canonical_name : bytes;
  en_normalized_name : bytes;
  en_aliases : list bytes;
  en_attributes : bytes;
  en_mention_count : Z;
  en_created_at : Z;
  en_updated_at : Z;
  en_merged_into : option Uuid;
  en_embedding_version : Z;
  en_flags : Z;
}.

Inductive PhaseAck :=
| UpsertedMemory (id : MemoryId)
| UpsertedEntity (id : Uuid)
| UpsertedStatement (id : Uuid) (version : Z)
| UpsertedRelation (id : Uuid) (version : Z)
| UpsertedSchema (namespace : bytes) (version dropped : Z)
| Linked
| Unlinked
| Tombstoned (target : TombstoneTarget) (at_ : Z)
| MemoryRestored (id : MemoryId) (already_active : bool)
| Superseded (target : SupersedeTarget) (replacement : SupersedeReplacementId)
| SalienceUpdated
| KindUpdated
| ContextUpdated
| EmbeddingUpdated
| EntityUpdated (id : Uuid) (snapshot : Entity)
| EntityRenamed (id : Uuid) (old_canonical_name : bytes) (snapshot : Entity)
| EntitiesUnmerged (restored survivor : Uuid)
| EntityMerged (source target audit_id : Uuid) (statements_rerouted relations_rerouted : Z)
| MergeProposalApproved (proposal_id audit_id : Uuid)
| MergeProposalRejected (proposal_id : Uuid)
| SlotsReclaimed (count : Z)
| SpaceCreated (created : bool)
| SpaceDeleted (existed : bool)
| SessionCreated (created : bool)
| SessionDeleted (existed : bool).

Inductive StageKind := AutoEdge | TemporalEdge | Extractor | Hype.
Record PendingStage := { ps_memory_id : MemoryId; ps_stage_kind : StageKind }.

Record WriteAck := {
  ack_write_id : Uuid;
  committed_at_unix_nanos : Z;
  lsn_first : Z;
  lsn_last : Z;
  phase_acks : list PhaseAck;
  pending_stages : list PendingStage;
}.

Definition FORMAT_VERSION : Z := 1.

Module CodecError.
Inductive CodecError :=
| Underrun (pos : nat)
| UnsupportedVersion (got expected : Z)
| UnknownPhaseAckTag (t : Z)
| UnknownTombstoneTargetTag (t : Z)
| UnknownSupersedeTargetTag (t : Z)
| UnknownSupersedeReplacementTag (t : Z)
| BadUtf8.
End CodecError.
Import CodecError.

(** ** Encoder *)

Definition push (v : Z) : Encoder := emit [byte_of v].
Definition write_memory_id (id : MemoryId) : Encoder := emit (MemoryId.to_be id).
Definition write_u32 (v : Z) : Encoder := emit (to_le_bytes 4 v).
Definition write_u64 (v : Z) : Encoder := emit (to_le_bytes 8 v).
Definition write_len (n : nat) : Encoder := len ← try_len U32_MAX n; write_u32 len.
Definition write_string (s : bytes) : Encoder := write_len (length s) +++ emit s.
Definition push_bool (b : bool) : Encoder := push (if b then 1 else 0).

Definition write_tombstone_target (t : TombstoneTarget) : Encoder :=
  match t with
  | TargetMemory id mode =>
    push 1 +++ write_memory_id id +++ push (match mode with TombSoft => 0 | TombHard => 1 end)
  | TargetEntity id => push 2 +++ emit id
  | TargetStatement id => push 3 +++ emit id
  | TargetRelation id => push 4 +++ emit id
  end.

Definition write_supersede_target (t : SupersedeTarget) : Encoder :=
  match t with
  | SupersedeStatement id => push 1 +++ emit id
  | SupersedeRelation id => push 2 +++ emit id
  end.

Definition write_supersede_replacement_id (r : SupersedeReplacementId) : Encoder :=
  match r with
  | ReplaceStatement id => push 1 +++ emit id
  | ReplaceRelation id => push 2 +++ emit id
  end.

Definition write_list {A} (f : A -> Encoder) (l : list A) : Encoder :=
  write_len (length l) +++ emit_all f l.

Definition write_merged_into (o : option Uuid) : Encoder :=
  match o with Some id => push 1 +++ emit id | None => push 0 end.

Definition write_attributes (b : bytes) : Encoder := write_len (length b) +++ emit b.

Definition write_entity (e : Entity) : Encoder :=
  emit (en_id e) +++ write_u32 (en_entity_type e) +++ write_string (en_canonical_name e)
  +++ write_string (en_normalized_name e) +++ write_list write_string (en_aliases e)
  +++ write_attributes (en_attributes e)
  +++ write_u32 (en_mention_count e) +++ write_u64 (en_created_at e) +++ write_u64 (en_updated_at e)
  +++ write_merged_into (en_merged_into e)
  +++ write_u32 (en_embedding_version e) +++ write_u32 (en_flags e).

Definition write_phase_ack (pa : PhaseAck) : Encoder :=
  match pa with
  | UpsertedMemory id => push 1 +++ write_memory_id id
  | UpsertedEntity id => push 2 +++ emit id
  | UpsertedStatement id ver => push 3 +++ emit id +++ write_u32 ver
  | UpsertedRelation id ver => push 4 +++ emit id +++ write_u32 ver
  | UpsertedSchema namespace version dropped =>
    push 5 +++ write_string namespace +++ write_u32 version +++ write_u32 dropped
  | Linked => push 6
  | Unlinked => push 7
  | Tombstoned target at_ => push 8 +++ write_tombstone_target target +++ write_u64 at_
  | MemoryRestored id already_active => push 18 +++ write_memory_id id +++ push_bool already_active
  | Superseded target replacement =>
    push 9 +++ write_supersede_target target +++ write_supersede_replacement_id replacement
  | SalienceUpdated => push 10
  | KindUpdated => push 11
  | ContextUpdated => push 12
  | EmbeddingUpdated => push 13
  | EntityUpdated id snapshot => push 14 +++ emit id +++ write_entity snapshot
  | EntityRenamed id old_canonical_name snapshot =>
    push 15 +++ emit id +++ write_string old_canonical_name +++ write_entity snapshot
  | EntitiesUnmerged restored survivor => push 16 +++ emit restored +++ emit survivor
  | EntityMerged source target audit_id statements_rerouted relations_rerouted =>
    push 17 +++ emit source +++ emit target +++ emit audit_id
    +++ write_u32 statements_rerouted +++ write_u32 relations_rerouted
  | SlotsReclaimed count => push 19 +++ write_u64 count
  | MergeProposalApproved proposal_id audit_id => push 20 +++ emit proposal_id +++ emit audit_id
  | MergeProposalRejected proposal_id => push 21 +++ emit proposal_id
  | SpaceCreated created => push 22 +++ push_bool created
  | SpaceDeleted existed => push 23 +++ push_bool existed
  | SessionCreated created => push 24 +++ push_bool created
  | SessionDeleted existed => push 25 +++ push_bool existed
  end.

(** [pending_stages] is not serialised. *)
Definition encode_write_ack (ack : WriteAck) : Encoder :=
  push FORMAT_VERSION +++ emit (ack_write_id ack) +++ write_u64 (committed_at_unix_nanos ack)
  +++ write_u64 (lsn_first ack) +++ write_u64 (lsn_last ack)
  +++ write_list write_phase_ack (phase_acks ack).

(** ** Decoder *)

Record Cursor := { cu_buf : bytes; cu_pos : nat }.
Definition Dec (A : Type) : Type := Cursor -> result (A * Cursor) CodecError.
Definition dret {A} (a : A) : Dec A := fun c => Ok (a, c).
Definition dfail {A} (e : CodecError) : Dec A := fun _ => Err e.
Definition dbind {A B} (p : Dec A) (k : A -> Dec B) : Dec B := fun c => let? (a, c') := p c in k a c'.

Declare Scope ack_scope.
Notation "'let*' x ':=' p 'in' k" := (dbind p (fun x => k))
  (at level 10, x name, p at level 100, k at level 200) : ack_scope.
Open Scope ack_scope.

(** Positions are buffer offsets, so [checked_add] does not overflow; a [u32]
    fits a [usize], so [len] has no error of its own. *)
Module Cursor.
Definition new (buf : bytes) : Cursor := {| cu_buf := buf; cu_pos := 0 |}.
Definition take (n : nat) : Dec bytes := fun c =>
  let end_ := (cu_pos c + n)%nat in
  if (length (cu_buf c) <? end_)%nat then Err (Underrun (cu_pos c)) else
  Ok (slice (cu_pos c) end_ (cu_buf c), {| cu_buf := cu_buf c; cu_pos := end_ |}).
Definition u8 : Dec Z := let* s := take 1 in dret (byte_val (byte_at 0 s)).
Definition u32 : Dec Z := let* s := take 4 in dret (from_le_bytes s).
Definition u64 : Dec Z := let* s := take 8 in dret (from_le_bytes s).
Definition bytes16 : Dec bytes := take 16.
Definition len : Dec nat := let* raw := u32 in dret (Z.to_nat raw).
Definition string : Dec bytes :=
  let* n := len in
  let* s := take n in
  if utf8_valid s then dret s else dfail BadUtf8.
End Cursor.

Definition read_memory_id : Dec MemoryId := let* b := Cursor.bytes16 in dret (MemoryId.from_be b).
Definition read_bool : Dec bool := let* b := Cursor.u8 in dret (negb (b =? 0)).

Fixpoint repeat_dec {A} (n : nat) (p : Dec A) : Dec (list A) :=
  match n with
  | O => dret []
  | S n => let* x := p in let* xs := repeat_dec n p in dret (x :: xs)
  end.
Definition read_list {A} (p : Dec A) : Dec (list A) := let* n := Cursor.len in repeat_dec n p.

Definition read_tombstone_target : Dec TombstoneTarget :=
  let* t := Cursor.u8 in
  match t with
  | 1 =>
    let* id := read_memory_id in
    let* m := Cursor.u8 in
    dret (TargetMemory id (match m with 0 => TombSoft | _ => TombHard end))
  | 2 => let* id := Cursor.bytes16 in dret (TargetEntity id)
  | 3 => let* id := Cursor.bytes16 in dret (TargetStatement id)
  | 4 => let* id := Cursor.bytes16 in dret (TargetRelation id)
  | other => dfail (UnknownTombstoneTargetTag other)
  end.

Definition read_supersede_target : Dec SupersedeTarget :=
  let* t := Cursor.u8 in
  match t with
  | 1 => let* id := Cursor.bytes16 in dret (SupersedeStatement id)
  | 2 => let* id := Cursor.bytes16 in dret (SupersedeRelation id)
  | other => dfail (UnknownSupersedeTargetTag other)
  end.

Definition read_supersede_replacement_id : Dec SupersedeReplacementId :=
  let* t := Cursor.u8 in
  match t with
  | 1 => let* id := Cursor.bytes16 in dret (ReplaceStatement id)
  | 2 => let* id := Cursor.bytes16 in dret (ReplaceRelation id)
  | other => dfail (UnknownSupersedeReplacementTag other)
  end.

Definition read_merged_into : Dec (option Uuid) :=
  let* t := Cursor.u8 in
  match t with
  | 0 => dret None
  | _ => let* id := Cursor.bytes16 in dret (Some id)
  end.

Definition read_attributes : Dec bytes := let* n := Cursor.len in Cursor.take n.

Definition read_entity : Dec Entity :=
  let* id := Cursor.bytes16 in
  let* entity_type := Cursor.u32 in
  let* canonical_name := Cursor.string in
  let* normalized_name := Cursor.string in
  let* aliases := read_list Cursor.string in
  let* attributes := read_attributes in
  let* mention_count := Cursor.u32 in
  let* created_at := Cursor.u64 in
  let* updated_at := Cursor.u64 in
  let* merged_into := read_merged_into in
  let* embedding_version := Cursor.u32 in
  let* flags := Cursor.u32 in
  dret {| en_id := id; en_entity_type := entity_type; en_canonical_name := canonical_name;
          en_normalized_name := normalized_name; en_aliases := aliases; en_attributes := attributes;
          en_mention_count := mention_count; en_created_at := created_at;
          en_updated_at := updated_at; en_merged_into := merged_into;
          en_embedding_version := embedding_version; en_flags := flags |}.

Definition read_phase_ack : Dec PhaseAck :=
  let* tag := Cursor.u8 in
  match tag with
  | 1 => let* id := read_memory_id in dret (UpsertedMemory id)
  | 2 => let* id := Cursor.bytes16 in dret (UpsertedEntity id)
  | 3 => let* id := Cursor.bytes16 in let* ver := Cursor.u32 in dret (UpsertedStatement id ver)
  | 4 => let* id := Cursor.bytes16 in let* ver := Cursor.u32 in dret (UpsertedRelation id ver)
  | 5 =>
    let* namespace := Cursor.string in
    let* version := Cursor.u32 in
    let* dropped := Cursor.u32 in
    dret (UpsertedSchema namespace version dropped)
  | 6 => dret Linked
  | 7 => dret Unlinked
  | 8 => let* target := read_tombstone_target in let* at_ := Cursor.u64 in dret (Tombstoned target at_)
  | 18 => let* id := read_memory_id in let* b := read_bool in dret (MemoryRestored id b)
  | 9 =>
    let* target := read_supersede_target in
    let* repl := read_supersede_replacement_id in
    dret (Superseded target repl)
  | 10 => dret SalienceUpdated
  | 11 => dret KindUpdated
  | 12 => dret ContextUpdated
  | 13 => dret EmbeddingUpdated
  | 14 => let* id := Cursor.bytes16 in let* e := read_entity in dret (EntityUpdated id e)
  | 15 =>
    let* id := Cursor.bytes16 in
    let* old := Cursor.string in
    let* e := read_entity in
    dret (EntityRenamed id old e)
  | 16 => let* a := Cursor.bytes16 in let* b := Cursor.bytes16 in dret (EntitiesUnmerged a b)
  | 17 =>
    let* source := Cursor.bytes16 in
    let* target := Cursor.bytes16 in
    let* audit_id := Cursor.bytes16 in
    let* statements := Cursor.u32 in
    let* relations := Cursor.u32 in
    dret (EntityMerged source target audit_id statements relations)
  | 19 => let* count := Cursor.u64 in dret (SlotsReclaimed count)
  | 20 => let* p := Cursor.bytes16 in let* a := Cursor.bytes16 in dret (MergeProposalApproved p a)
  | 21 => let* p := Cursor.bytes16 in dret (MergeProposalRejected p)
  | 22 => let* b := read_bool in dret (SpaceCreated b)
  | 23 => let* b := read_bool in dret (SpaceDeleted b)
  | 24 => let* b := read_bool in dret (SessionCreated b)
  | 25 => let* b := read_bool in dret (SessionDeleted b)
  | other => dfail (UnknownPhaseAckTag other)
  end.

Definition read_write_ack : Dec WriteAck :=
  let* version := Cursor.u8 in
  if negb (version =? FORMAT_VERSION) then dfail (UnsupportedVersion version FORMAT_VERSION) else
  let* write_id := Cursor.bytes16 in
  let* committed_at := Cursor.u64 in
  let* first := Cursor.u64 in
  let* last := Cursor.u64 in
  let* acks := read_list read_phase_ack in
  dret {| ack_write_id := write_id; committed_at_unix_nanos := committed_at; lsn_first := first;
          lsn_last := last; phase_acks := acks; pending_stages := [] |}.

(** What follows the acknowledgement in the buffer is not looked at. *)
Definition decode_write_ack (buf : bytes) : result WriteAck CodecError :=
  let? (ack, _) := read_write_ack (Cursor.new buf) in Ok ack.

(** ** Well-formed acknowledgements *)

Definition short {A} (l : list A) : Prop := Z.of_nat (length l) <= U32_MAX.
Definition str_ok (s : bytes) : Prop := utf8_valid s = true /\ short s.

Definition tombstone_ok (t : TombstoneTarget) : Prop :=
  match t with
  | TargetMemory id _ => u128 id
  | TargetEntity id | TargetStatement id | TargetRelation id => uuid_ok id
  end.
Definition supersede_ok (t : SupersedeTarget) : Prop :=
  match t with SupersedeStatement id | SupersedeRelation id => uuid_ok id end.
Definition replacement_ok (r : SupersedeReplacementId) : Prop :=
  match r with ReplaceStatement id | ReplaceRelation id => uuid_ok id end.

Record entity_ok (e : Entity) : Prop := {
  eo_id : uuid_ok (en_id e);
  eo_type : u32 (en_entity_type e);
  eo_canonical : str_ok (en_canonical_name e);
  eo_normalized : str_ok (en_normalized_name e);
  eo_aliases : Forall str_ok (en_aliases e) /\ short (en_aliases e);
  eo_attributes : short (en_attributes e);
  eo_mentions : u32 (en_mention_count e);
  eo_created : u64 (en_created_at e);
  eo_updated : u64 (en_updated_at e);
  eo_merged : from_option uuid_ok True (en_merged_into e);
  eo_embedding : u32 (en_embedding_version e);
  eo_flags : u32 (en_flags e);
}.

Definition phase_ack_ok (pa : PhaseAck) : Prop :=
  match pa with
  | UpsertedMemory id | MemoryRestored id _ => u128 id
  | UpsertedEntity id => uuid_ok id
  | UpsertedStatement id ver | UpsertedRelation id ver => uuid_ok id /\ u32 ver
  | UpsertedSchema ns ver dropped => str_ok ns /\ u32 ver /\ u32 dropped
  | Tombstoned t at_ => tombstone_ok t /\ u64 at_
  | Superseded t r => supersede_ok t /\ replacement_ok r
  | EntityUpdated id e => uuid_ok id /\ entity_ok e
  | EntityRenamed id old e => uuid_ok id /\ str_ok old /\ entity_ok e
  | EntitiesUnmerged a b | MergeProposalApproved a b => uuid_ok a /\ uuid_ok b
  | EntityMerged a b c n m => uuid_ok a /\ uuid_ok b /\ uuid_ok c /\ u32 n /\ u32 m
  | MergeProposalRejected a => uuid_ok a
  | SlotsReclaimed n => u64 n
  | _ => True
  end.

Record write_ack_ok (ack : WriteAck) : Prop := {
  wa_id : uuid_ok (ack_write_id ack);
  wa_at : u64 (committed_at_unix_nanos ack);
  wa_first : u64 (lsn_first ack);
  wa_last : u64 (lsn_last ack);
  wa_acks : Forall phase_ack_ok (phase_acks ack) /\ short (phase_acks ack);
}.

(** What the table keeps of an acknowledgement. *)
Definition durable_part (ack : WriteAck) : WriteAck :=
  {| ack_write_id := ack_write_id ack; committed_at_unix_nanos := committed_at_unix_nanos ack;
     lsn_first := lsn_first ack; lsn_last := lsn_last ack; phase_acks := phase_acks ack;
     pending_stages := [] |}.

(** ** Decoding what was encoded *)

Definition cursor_at (pre rest : bytes) : Cursor := {| cu_buf := pre ++ rest; cu_pos := length pre |}.

Definition decodes {A} (p : Dec A) (bs : bytes) (v : A) : Prop :=
  (forall pre tl, p (cursor_at pre (bs ++ tl)) = Ok (v, cursor_at (pre ++ bs) tl))
  /\ forall pre k, (k < length bs)%nat -> exists n, p (cursor_at pre (take k bs)) = Err (Underrun n).

(** The encoder [e] does not panic and [p] decodes its output to [v]. *)
Definition agrees {A} (e : Encoder) (p : Dec A) (v : A) : Prop :=
  exists bs, e = Some bs /\ decodes p bs v.

Class AckField {A} (enc : A -> Encoder) (dec : Dec A) (ok : A -> Prop) : Prop :=
  ack_field : forall v, ok v -> agrees (enc v) dec v.

Lemma decodes_ret {A} (v : A) : decodes (dret v) [] v.
Proof. split; [intros pre tl; unfold dret; by rewrite app_nil_r|]. simpl. lia. Qed.

Lemma decodes_bind {A B} (p : Dec A) (k : A -> Dec B) b1 b2 v w :
  decodes p b1 v -> decodes (k v) b2 w -> decodes (dbind p k) (b1 ++ b2) w.
Proof.
  intros [H1 T1] [H2 T2]. unfold dbind. split.
  - intros pre tl. by rewrite <- app_assoc, H1, H2, app_assoc.
  - intros pre n Hn. rewrite length_app in Hn. destruct (decide (n < length b1)%nat) as [Hs|Hs].
    + rewrite take_app_le by lia. destruct (T1 pre n Hs) as [m ->]. by exists m.
    + rewrite take_app_ge by lia. rewrite H1. apply T2. lia.
Qed.

Lemma decodes_take bs n : length bs = n -> decodes (Cursor.take n) bs bs.
Proof.
  intros <-. unfold decodes, Cursor.take, cursor_at; cbn [cu_buf cu_pos]; cbv zeta. split.
  - intros pre tl. rewrite (proj2 (Nat.ltb_ge _ _)) by len.
    slices. by rewrite app_assoc, length_app.
  - intros pre k Hk. exists (length pre). rewrite (proj2 (Nat.ltb_lt _ _)); [done|].
    rewrite length_app, length_take. lia.
Qed.

Lemma agrees_ret {A} (v : A) : agrees (emit []) (dret v) v.
Proof. exists []. split; [done|apply decodes_ret]. Qed.

Lemma agrees_bind {A B} e1 e2 (p : Dec A) (k : A -> Dec B) v w :
  agrees e1 p v -> agrees e2 (k v) w -> agrees (e1 +++ e2) (dbind p k) w.
Proof.
  intros (b1 & -> & H1) (b2 & -> & H2). exists (b1 ++ b2). split; [done|]. by eapply decodes_bind.
Qed.

Lemma agrees_last {A B} e (p : Dec A) (k : A -> Dec B) v w :
  agrees e p v -> agrees (emit []) (k v) w -> agrees e (dbind p k) w.
Proof.
  intros (b1 & -> & H1) (b2 & [= <-] & H2). exists b1. split; [done|].
  rewrite <- (app_nil_r b1). by eapply decodes_bind.
Qed.

Lemma agrees_fixed {A} (f : A -> bytes) (g : bytes -> A) n v :
  length (f v) = n -> g (f v) = v ->
  agrees (emit (f v)) (let* b := Cursor.take n in dret (g b)) v.
Proof.
  intros Hl Hg. eapply agrees_last; [exists (f v); split; [done|by apply decodes_take]|].
  rewrite Hg. apply agrees_ret.
Qed.

#[export] Instance ack_u8 : AckField push Cursor.u8 (uint 8).
Proof.
  intros v Hv. apply (agrees_fixed (fun v => [byte_of v]) (fun b => byte_val (byte_at 0 b))); [done|].
  by apply byte_val_of.
Qed.

#[export] Instance ack_u32 : AckField write_u32 Cursor.u32 (uint 32).
Proof.
  intros v Hv. apply (agrees_fixed (to_le_bytes 4) from_le_bytes); [apply length_le_split|].
  by apply (from_to_le 4).
Qed.

#[export] Instance ack_u64 : AckField write_u64 Cursor.u64 (uint 64).
Proof.
  intros v Hv. apply (agrees_fixed (to_le_bytes 8) from_le_bytes); [apply length_le_split|].
  by apply (from_to_le 8).
Qed.

#[export] Instance ack_uuid : AckField emit Cursor.bytes16 uuid_ok.
Proof. intros v Hv. exists v. split; [done|by apply decodes_take]. Qed.

#[export] Instance ack_memory_id : AckField write_memory_id read_memory_id (uint 128).
Proof.
  intros v Hv. apply (agrees_fixed MemoryId.to_be MemoryId.from_be); [apply length_MemoryId_to_be|].
  by apply MemoryId_from_to_be.
Qed.

#[export] Instance ack_bool : AckField push_bool read_bool (fun _ => True).
Proof.
  intros b _. eapply agrees_last; [apply ack_u8; by destruct b|]. by destruct b; apply agrees_ret.
Qed.

Lemma agrees_len {A} (l : list A) : short l -> agrees (write_len (length l)) Cursor.len (length l).
Proof.
  intros Hl. unfold write_len, try_len. unfold short in Hl. rewrite (proj2 (Z.leb_le _ _)) by done.
  eapply agrees_last; [apply ack_u32; unfold uint, U32_MAX in *; lia|]. rewrite Nat2Z.id. apply agrees_ret.
Qed.

(** A length prefix and that many bytes. *)
Lemma agrees_prefixed {B} (s : bytes) (k : bytes -> Dec B) w :
  short s -> agrees (emit []) (k s) w ->
  agrees (write_len (length s) +++ emit s) (let* n := Cursor.len in let* s := Cursor.take n in k s) w.
Proof.
  intros Hs Hk. eapply agrees_bind; [by apply agrees_len|].
  eapply agrees_last; [exists s; split; [done|by apply decodes_take]|done].
Qed.

#[export] Instance ack_string : AckField write_string Cursor.string str_ok.
Proof. intros s [Hu Hs]. apply agrees_prefixed; [done|]. rewrite Hu. apply agrees_ret. Qed.

#[export] Instance ack_attributes :
  AckField write_attributes read_attributes short.
Proof.
  intros s Hs. eapply agrees_bind; [by apply agrees_len|]. exists s. split; [done|by apply decodes_take].
Qed.

#[export] Instance ack_list {A enc dec ok} `{AckField A enc dec ok} :
  AckField (write_list enc) (read_list dec) (fun l => Forall ok l /\ short l).
Proof.
  intros l [Hl Hs]. eapply agrees_bind; [by apply agrees_len|]. clear Hs.
  induction Hl as [|x l Hx Hl IH]; simpl; [apply agrees_ret|].
  eapply agrees_bind; [by apply ack_field|]. eapply agrees_last; [exact IH|]. apply agrees_ret.
Qed.

#[local] Arguments emit : simpl never.
#[local] Arguments seq_enc : simpl never.
#[local] Arguments push : simpl never.
#[local] Arguments push_bool : simpl never.
#[local] Arguments write_memory_id : simpl never.
#[local] Arguments write_u32 : simpl never.
#[local] Arguments write_u64 : simpl never.
#[local] Arguments write_string : simpl never.
#[local] Arguments write_attributes : simpl never.
#[local] Arguments write_list {A} : simpl never.
#[local] Arguments dbind {A B} : simpl never.
#[local] Arguments uint : simpl never.

(** One field after another; the continuation after a tag is computed. *)
Ltac ack_fields :=
  repeat match goal with
  | |- agrees (_ +++ _) (dbind _ _) _ => eapply agrees_bind; [by apply ack_field|]; cbn
  | |- agrees (emit []) (dret _) _ => apply agrees_ret
  | |- agrees _ (dbind _ _) _ => eapply agrees_last; [by apply ack_field|]; cbn
  end.
Ltac ack_cases v := destruct v; cbn in *; destruct_and?; ack_fields.

#[export] Instance ack_tombstone : AckField write_tombstone_target read_tombstone_target tombstone_ok.
Proof.
  unfold read_tombstone_target. intros t Ht. ack_cases t. eapply agrees_last; [apply ack_u8; by destruct mode|].
  by destruct mode; apply agrees_ret.
Qed.

#[export] Instance ack_supersede : AckField write_supersede_target read_supersede_target supersede_ok.
Proof. unfold read_supersede_target. intros t Ht. ack_cases t. Qed.

#[export] Instance ack_replacement :
  AckField write_supersede_replacement_id read_supersede_replacement_id replacement_ok.
Proof. unfold read_supersede_replacement_id. intros t Ht. ack_cases t. Qed.

#[export] Instance ack_merged_into :
  AckField write_merged_into read_merged_into (from_option uuid_ok True).
Proof. unfold read_merged_into. intros o Ho. ack_cases o. Qed.

#[export] Instance ack_entity : AckField write_entity read_entity entity_ok.
Proof. intros e []. unfold write_entity, read_entity. destruct e; cbn in *. ack_fields. Qed.

#[export] Instance ack_phase_ack : AckField write_phase_ack read_phase_ack phase_ack_ok.
Proof. unfold read_phase_ack. intros pa Hpa. ack_cases pa. Qed.

Lemma agrees_write_ack ack :
  write_ack_ok ack -> agrees (encode_write_ack ack) read_write_ack (durable_part ack).
Proof. intros []. unfold encode_write_ack, read_write_ack. ack_fields. Qed.

Lemma ack_stored ack :
  write_ack_ok ack ->
  exists bs, encode_write_ack ack = Some bs /\ decode_write_ack bs = Ok (durable_part ack).
Proof.
  intros (bs & Ebs & Hd & _)%agrees_write_ack. exists bs. split; [done|].
  specialize (Hd [] []). unfold cursor_at in Hd. cbn [app length] in Hd. rewrite app_nil_r in Hd.
  unfold decode_write_ack, Cursor.new. by rewrite Hd.
Qed.

(** An acknowledgement that was stored is the one that is replayed: every
    acknowledgement in range, of all twenty-five kinds of phases, encodes
    without panic to bytes that decode, whatever follows them, to the same
    acknowledgement without its pending stages; and a strict prefix of these
    bytes, in particular the empty payload, is refused as an underrun. *)
Theorem write_ack_roundtrip (ack : WriteAck) (Hok : write_ack_ok ack) :
  exists bs, encode_write_ack ack = Some bs
    /\ (forall rest, decode_write_ack (bs ++ rest) = Ok (durable_part ack))
    /\ forall k, (k < length bs)%nat -> exists n, decode_write_ack (take k bs) = Err (Underrun n).
Proof.
  apply agrees_write_ack in Hok as (bs & Ebs & Hd & Ht).
  exists bs. unfold decode_write_ack, Cursor.new. split_and!; [done| |]; intros x.
  - specialize (Hd [] x). unfold cursor_at in Hd. cbn [app length] in Hd. by rewrite Hd.
  - intros Hx. destruct (Ht [] x Hx) as [n E]. exists n. unfold cursor_at in E. cbn [app length] in E.
    by rewrite E.
Qed.

Module AckExample.

Definition entity1 : Entity :=
  {| en_id := replicate 16 Byte.x01; en_entity_type := 1; en_canonical_name := byte_of <$> [80; 114];
     en_normalized_name := byte_of <$> [112; 114]; en_aliases := [byte_of <$> [0xC3; 0xA9]; []];
     en_attributes := [Byte.x00; Byte.xff]; en_mention_count := 3; en_created_at := 5;
     en_updated_at := 6; en_merged_into := Some (replicate 16 Byte.x02); en_embedding_version := 0;
     en_flags := 1 |}.

Definition ack1 : WriteAck :=
  {| ack_write_id := replicate 16 Byte.x07; committed_at_unix_nanos := 9; lsn_first := 4; lsn_last := 8;
     phase_acks := [UpsertedMemory (MemoryId.pack 1 2 3); Linked;
                    Tombstoned (TargetMemory (MemoryId.pack 1 2 3) TombHard) 7;
                    EntityUpdated (replicate 16 Byte.x01) entity1; MemoryRestored 5 true];
     pending_stages := [{| ps_memory_id := 5; ps_stage_kind := Hype |}] |}.

Lemma write_ack_roundtrip_witness :
  exists bs, encode_write_ack ack1 = Some bs /\ decode_write_ack bs = Ok (durable_part ack1)
    /\ exists n, decode_write_ack [] = Err (Underrun n).
Proof.
  destruct (write_ack_roundtrip ack1) as (bs & E & Hd & Ht).
  { split; try done; split; [|done]. repeat constructor; by vm_compute. }
  exists bs. split_and!; [done|by rewrite <- (Hd []), app_nil_r|]. apply (Ht 0%nat).
  destruct bs; [|simpl; lia]. vm_compute in E. discriminate E.
Defined.

End AckExample.
