(* ===== verification/EdgeApply.v ===== *)
(** The apply step of LINK and UNLINK ([brain-ops/src/apply/edge.rs]): the tenant
    wall of LINK, the edge tables and the denormalised edge counters of the
    memory rows, inside one write transaction.

    Of a memory row the model keeps the fields the edge phases read or write.
    The row key [to_be_bytes] of an identifier is injective, so the table is
    keyed by the identifier.  Storage errors end the transaction. *)

From stdpp Require Import gmap.
From S2P Require Import Prelude Ids EdgeTable AckCodec.

Record MemoryMetadata := {
  mm_namespace_id : Z;
  mm_space_id : bytes;
  mm_edges_out_count : Z;
  mm_edges_in_count : Z;
}.

Record Metadata := {
  md_edges : EdgeTables;
  md_memories : gmap Z MemoryMetadata;
}.

(** The phases of this file; a write carries the caller's space. *)
Inductive Phase :=
| PhaseLink (k : EdgeKey) (data : EdgeData)
| PhaseUnlink (k : EdgeKey).

Record Write := { w_space_id : bytes; w_phase : Phase }.

Definition memory_in_space (md : Metadata) (id : MemoryId) (space : bytes) : bool :=
  match md_memories md !! id with
  | None => false
  | Some row => bool_decide (mm_space_id row = space)
  end.

Definition bump_edge_count (md : Metadata) (id : MemoryId) (out : bool) (delta : Z) : Metadata :=
  match md_memories md !! id with
  | None => md
  | Some row =>
    let cur := if out then mm_edges_out_count row else mm_edges_in_count row in
    let new := if 0 <=? delta then Z.min (cur + delta) U32_MAX else Z.max (cur - (- delta)) 0 in
    let row := {| mm_namespace_id := mm_namespace_id row; mm_space_id := mm_space_id row;
                  mm_edges_out_count := if out then new else mm_edges_out_count row;
                  mm_edges_in_count := if out then mm_edges_in_count row else new |} in
    {| md_edges := md_edges md; md_memories := <[id := row]> (md_memories md) |}
  end.

Definition endpoint_in_space (md : Metadata) (space : bytes) (n : NodeRef) : bool :=
  match n with NodeMemory id => memory_in_space md id space | _ => true end.

Definition set_edges (md : Metadata) (t : EdgeTables) : Metadata :=
  {| md_edges := t; md_memories := md_memories md |}.

Definition apply_link (md : Metadata) (space : bytes) (k : EdgeKey) (data : EdgeData)
  : Metadata * PhaseAck :=
  if negb (forallb (endpoint_in_space md space) [ek_from k; ek_to k]) then (md, Linked) else
  let already_existed := bool_decide (is_Some (EDGES (md_edges md) !! EdgeKey.encode k)) in
  let md := set_edges md
    (link (md_edges md) (ek_from k) (ek_kind k) (ek_to k) (ek_disambiguator k) data) in
  let md :=
    if negb already_existed then
      match ek_from k, ek_to k with
      | NodeMemory src, NodeMemory tgt => bump_edge_count (bump_edge_count md src true 1) tgt false 1
      | _, _ => md
      end
    else md in
  (md, Linked).

Definition apply_unlink (md : Metadata) (k : EdgeKey) : Metadata * PhaseAck :=
  let '(removed, t) :=
    unlink (md_edges md) (ek_from k) (ek_kind k) (ek_to k) (ek_disambiguator k) in
  let md := set_edges md t in
  let md :=
    if (removed : bool) then
      match ek_from k, ek_to k with
      | NodeMemory src, NodeMemory tgt =>
        bump_edge_count (bump_edge_count md src true (-1)) tgt false (-1)
      | _, _ => md
      end
    else md in
  (md, Unlinked).

Definition apply (md : Metadata) (w : Write) : Metadata * PhaseAck :=
  match w_phase w with
  | PhaseLink k data => apply_link md (w_space_id w) k data
  | PhaseUnlink k => apply_unlink md k
  end.

Definition phase_key (p : Phase) : EdgeKey := match p with PhaseLink k _ | PhaseUnlink k => k end.

Definition apply_all (md : Metadata) (ws : list Write) : Metadata :=
  fold_left (fun md w => (apply md w).1) ws md.

(** ** Memory rows under the edge phases *)

Definition bump_row (out : bool) (delta : Z) (row : MemoryMetadata) : MemoryMetadata :=
  let cur := if out then mm_edges_out_count row else mm_edges_in_count row in
  let new := if 0 <=? delta then Z.min (cur + delta) U32_MAX else Z.max (cur - (- delta)) 0 in
  {| mm_namespace_id := mm_namespace_id row; mm_space_id := mm_space_id row;
     mm_edges_out_count := if out then new else mm_edges_out_count row;
     mm_edges_in_count := if out then mm_edges_in_count row else new |}.

Lemma bump_lookup md id out delta x :
  md_memories (bump_edge_count md id out delta) !! x
  = (if decide (x = id) then bump_row out delta else fun r => r) <$> md_memories md !! x.
Proof.
  unfold bump_edge_count. destruct (md_memories md !! id) as [row|] eqn:E; cbn [md_memories];
    case_decide; subst.
  - by rewrite lookup_insert_eq, E.
  - rewrite lookup_insert_ne by done. by destruct (md_memories md !! x).
  - by rewrite E.
  - by destruct (md_memories md !! x).
Qed.

Lemma bump_edges md id out delta : md_edges (bump_edge_count md id out delta) = md_edges md.
Proof. unfold bump_edge_count. by destruct (md_memories md !! id). Qed.

(** No edge phase moves a memory to another space. *)
Definition spaces (md : Metadata) (x : Z) : option bytes := mm_space_id <$> md_memories md !! x.

Lemma bump_spaces md id out delta x : spaces (bump_edge_count md id out delta) x = spaces md x.
Proof.
  unfold spaces. rewrite bump_lookup. destruct (md_memories md !! x); [|done]. by case_decide.
Qed.

Lemma set_edges_spaces md t x : spaces (set_edges md t) x = spaces md x.
Proof. done. Qed.

Lemma apply_spaces md w x : spaces (apply md w).1 x = spaces md x.
Proof.
  destruct w as [s [k d|k]]; unfold apply, apply_link, apply_unlink; cbn [w_phase w_space_id].
  - destruct (negb (forallb _ _)); [done|]. destruct (negb (bool_decide _)); [|done].
    destruct (ek_from k), (ek_to k); cbn [fst]; by rewrite ?bump_spaces.
  - destruct (unlink _ _ _ _ _) as [[] t]; [|done].
    destruct (ek_from k), (ek_to k); cbn [fst]; by rewrite ?bump_spaces.
Qed.

Lemma apply_link_edges md s k d :
  md_edges (apply_link md s k d).1
  = if forallb (endpoint_in_space md s) [ek_from k; ek_to k]
    then link (md_edges md) (ek_from k) (ek_kind k) (ek_to k) (ek_disambiguator k) d
    else md_edges md.
Proof.
  unfold apply_link. destruct (forallb _ _); cbn [negb]; [|done].
  destruct (negb (bool_decide _)); [|done].
  destruct (ek_from k), (ek_to k); cbn [fst]; by rewrite ?bump_edges.
Qed.

Lemma apply_unlink_edges md k :
  md_edges (apply_unlink md k).1
  = (unlink (md_edges md) (ek_from k) (ek_kind k) (ek_to k) (ek_disambiguator k)).2.
Proof.
  unfold apply_unlink. destruct (unlink _ _ _ _ _) as [[] t]; [|done].
  destruct (ek_from k), (ek_to k); cbn [fst]; by rewrite ?bump_edges.
Qed.

(** ** The tenant wall of LINK *)

Lemma endpoint_in_space_spec md s n :
  endpoint_in_space md s n = true
  <-> match n with NodeMemory id => spaces md id = Some s | _ => True end.
Proof.
  destruct n as [id|]; simpl; [|done]. unfold memory_in_space, spaces.
  destruct (md_memories md !! id) as [row|]; simpl; [|split; congruence].
  rewrite bool_decide_eq_true. split; congruence.
Qed.

Lemma endpoint_in_space_apply md w s n :
  endpoint_in_space (apply md w).1 s n = endpoint_in_space md s n.
Proof.
  apply eq_true_iff_eq. rewrite !endpoint_in_space_spec. destruct n; [|done]. by rewrite apply_spaces.
Qed.

Definition endpoints_in_space (md : Metadata) (s : bytes) (k : EdgeKey) : Prop :=
  endpoint_in_space md s (ek_from k) = true /\ endpoint_in_space md s (ek_to k) = true.

Lemma touched_endpoints md s k x :
  touched k x -> endpoints_in_space md s k -> endpoints_in_space md s x.
Proof. by intros [->|[_ ->]] []. Qed.

Lemma apply_provenance md w x d :
  EdgeKey.wf (phase_key (w_phase w)) -> EdgeKey.wf x ->
  EDGES (md_edges (apply md w).1) !! EdgeKey.encode x = Some d ->
  EDGES (md_edges md) !! EdgeKey.encode x = Some d
  \/ exists k, w_phase w = PhaseLink k d /\ touched k x /\ endpoints_in_space md (w_space_id w) x.
Proof.
  destruct w as [s [k d'|k]]; unfold apply; cbn [w_phase w_space_id phase_key]; intros Hk Hx.
  - rewrite apply_link_edges. destruct (forallb _ _) eqn:Ew; [|by left].
    apply andb_true_iff in Ew as [Hf Ht]. rewrite andb_true_r in Ht.
    rewrite (proj1 (link_lookup (md_edges md) k x d' Hk Hx)). case_decide as Hd; [|by left].
    intros [= ->]. right. exists k. split_and!; [done..|]. by apply (touched_endpoints md s k x).
  - rewrite apply_unlink_edges. pose proof (unlink_lookup (md_edges md) k x Hk Hx) as Hu.
    destruct (unlink _ _ _ _ _) as [r t]. destruct Hu as (_ & Hu & _). cbn [snd]. rewrite Hu.
    case_decide; [done|by left].
Qed.

(** The wall of LINK.  Whatever edge phases a shard applies to a store without
    edges, in any order and by any callers, every edge it then holds was
    written by a LINK of a caller whose space owns both memory endpoints (at
    the end as at the time: the phases move no memory to another space).  No
    sequence of LINKs joins memories of two tenants. *)
Theorem link_tenant_wall (md0 : Metadata) (ws : list Write) (x : EdgeKey) (d : EdgeData)
    (Hempty : EDGES (md_edges md0) = ∅)
    (Hws : Forall (fun w => EdgeKey.wf (phase_key (w_phase w))) ws) (Hx : EdgeKey.wf x)
    (Hd : EDGES (md_edges (apply_all md0 ws)) !! EdgeKey.encode x = Some d) :
  exists w k, w ∈ ws /\ w_phase w = PhaseLink k d /\ touched k x
    /\ endpoints_in_space (apply_all md0 ws) (w_space_id w) x.
Proof.
  induction ws as [|w ws IH] using rev_ind.
  - cbn in Hd. by rewrite Hempty, lookup_empty in Hd.
  - apply Forall_app in Hws as [Hws Hw]. rewrite Forall_singleton in Hw.
    unfold apply_all in *. rewrite fold_left_app in *. cbn [fold_left] in *.
    set (md := fold_left _ ws md0) in *.
    apply apply_provenance in Hd as [Hd|(k & Ek & Ht & He)]; [| |done..].
    + destruct (IH Hws Hd) as (w' & k & Hin & Ek & Ht & He). exists w', k.
      split_and!; [apply elem_of_app; by left|done..|].
      unfold endpoints_in_space in *. by rewrite !endpoint_in_space_apply.
    + exists w, k. split_and!; [apply elem_of_app; right; by left|done..|].
      unfold endpoints_in_space in *. by rewrite !endpoint_in_space_apply.
Qed.

(** ** The denormalised counters *)

(** Entries of a table whose key satisfies a test. *)
Definition entries_with (Q : bytes -> bool) (t : table) : nat :=
  size (filter (fun e => Q e.1 = true) t).

Lemma entries_insert Q t b d :
  entries_with Q (<[b := d]> t)
  = (entries_with Q t + if bool_decide (is_Some (t !! b)) then 0 else if Q b then 1 else 0)%nat.
Proof.
  unfold entries_with. destruct (Q b) eqn:Eq.
  - rewrite map_filter_insert_True by done. destruct (t !! b) as [d'|] eqn:El.
    + rewrite bool_decide_true by eauto. rewrite map_size_insert.
      rewrite (proj2 (map_lookup_filter_Some _ _ b d') (conj El Eq)). unfold id. lia.
    + rewrite bool_decide_false by (intros [? ?]; congruence). rewrite map_size_insert_None; [lia|].
      apply map_lookup_filter_None. by left.
  - rewrite map_filter_insert_False by (cbn [fst]; congruence).
    rewrite map_filter_delete. rewrite delete_id; [by case_bool_decide; lia|].
    apply map_lookup_filter_None. right. intros ? _. cbn [fst]. congruence.
Qed.

Lemma entries_delete Q t b :
  (entries_with Q (delete b t)
   + if bool_decide (is_Some (t !! b)) then if Q b then 1 else 0 else 0)%nat = entries_with Q t.
Proof.
  destruct (t !! b) as [d|] eqn:El.
  - rewrite bool_decide_true by eauto. rewrite <- (insert_delete_id t b d El) at 2.
    rewrite entries_insert, lookup_delete_eq. by rewrite bool_decide_false by (by intros []).
  - rewrite bool_decide_false by (intros [? ?]; congruence). rewrite delete_id by done. lia.
Qed.

(** Stored edges out of (into) a memory, to (from) a memory. *)
Definition out_of (m : Z) (b : bytes) : bool :=
  match EdgeKey.decode b with
  | Ok {| ek_from := NodeMemory f; ek_to := NodeMemory _ |} => bool_decide (f = m)
  | _ => false
  end.
Definition into (m : Z) (b : bytes) : bool :=
  match EdgeKey.decode b with
  | Ok {| ek_from := NodeMemory _; ek_to := NodeMemory t |} => bool_decide (t = m)
  | _ => false
  end.
Definition edges_out (md : Metadata) (m : Z) : Z := Z.of_nat (entries_with (out_of m) (EDGES (md_edges md))).
Definition edges_in (md : Metadata) (m : Z) : Z := Z.of_nat (entries_with (into m) (EDGES (md_edges md))).

Definition counters_exact (md : Metadata) : Prop :=
  forall m row, md_memories md !! m = Some row ->
    mm_edges_out_count row = edges_out md m /\ mm_edges_in_count row = edges_in md m.

Lemma entries_le (Q : bytes -> bool) (t : table) : (entries_with Q t <= size t)%nat.
Proof. apply map_subseteq_size, map_filter_subseteq. Qed.

Lemma out_of_key k m :
  EdgeKey.wf k ->
  out_of m (EdgeKey.encode k)
  = match ek_from k, ek_to k with NodeMemory f, NodeMemory _ => bool_decide (f = m) | _, _ => false end.
Proof. intros Hk. unfold out_of. rewrite decode_key by done. by destruct k as [[] ? [] ?]. Qed.

Lemma into_key k m :
  EdgeKey.wf k ->
  into m (EdgeKey.encode k)
  = match ek_from k, ek_to k with NodeMemory _, NodeMemory t => bool_decide (t = m) | _, _ => false end.
Proof. intros Hk. unfold into. rewrite decode_key by done. by destruct k as [[] ? [] ?]. Qed.

Definition sat (delta cur : Z) : Z :=
  if 0 <=? delta then Z.min (cur + delta) U32_MAX else Z.max (cur - (- delta)) 0.

(** Both bumps of one edge, on one row. *)
Lemma bump_both md src tgt delta x row' :
  md_memories (bump_edge_count (bump_edge_count md src true delta) tgt false delta) !! x = Some row' ->
  exists row, md_memories md !! x = Some row
    /\ mm_edges_out_count row'
       = (if bool_decide (src = x) then sat delta (mm_edges_out_count row) else mm_edges_out_count row)
    /\ mm_edges_in_count row'
       = (if bool_decide (tgt = x) then sat delta (mm_edges_in_count row) else mm_edges_in_count row).
Proof.
  rewrite !bump_lookup. destruct (md_memories md !! x) as [row|]; [|done]. cbn [fmap option_fmap option_map].
  intros [= <-]. exists row. split; [done|].
  repeat case_bool_decide; repeat case_decide; first [congruence|done].
Qed.

Lemma link_edges_plain md k d :
  symmetric_auto_mirror (ek_kind k) = false ->
  EDGES (link (md_edges md) (ek_from k) (ek_kind k) (ek_to k) (ek_disambiguator k) d)
  = <[EdgeKey.encode k := d]> (EDGES (md_edges md)).
Proof. intros Hs. unfold link. rewrite Hs. cbn [andb]. by destruct k. Qed.

Lemma unlink_edges_plain md k :
  symmetric_auto_mirror (ek_kind k) = false ->
  unlink (md_edges md) (ek_from k) (ek_kind k) (ek_to k) (ek_disambiguator k)
  = (bool_decide (is_Some (EDGES (md_edges md) !! EdgeKey.encode k)),
     remove_pair (md_edges md) k (flip k)).
Proof. intros Hs. unfold unlink. rewrite Hs. cbn [andb]. by destruct k. Qed.

(** A step that changes the entries by one edge and its rows by the same amount. *)
Lemma counters_step md md' k delta :
  counters_exact md -> EdgeKey.wf k ->
  (forall Q, Z.of_nat (entries_with Q (EDGES (md_edges md')))
     = Z.of_nat (entries_with Q (EDGES (md_edges md))) + if Q (EdgeKey.encode k) then delta else 0) ->
  (forall Q, sat delta (Z.of_nat (entries_with Q (EDGES (md_edges md))))
     = Z.of_nat (entries_with Q (EDGES (md_edges md))) + delta \/ Q (EdgeKey.encode k) = false) ->
  md_memories md'
    = md_memories (match ek_from k, ek_to k with
                   | NodeMemory src, NodeMemory tgt =>
                     bump_edge_count (bump_edge_count md src true delta) tgt false delta
                   | _, _ => md
                   end) ->
  counters_exact md'.
Proof.
  intros Hc Hk He Hs Hm x row'. unfold edges_out, edges_in. rewrite Hm, !He.
  pose proof (Hs (out_of x)) as Ho. pose proof (Hs (into x)) as Hi.
  rewrite out_of_key in * by done. rewrite into_key in * by done. clear Hs He Hm.
  unfold counters_exact, edges_out, edges_in in Hc.
  destruct (ek_from k) as [src|], (ek_to k) as [tgt|]; intros Hl;
    try (apply Hc in Hl as [? ?]; lia).
  apply bump_both in Hl as (row & Hl & -> & ->). apply Hc in Hl as [-> ->].
  destruct (bool_decide (src = x)), (bool_decide (tgt = x)); intuition (try congruence); lia.
Qed.

Lemma counters_apply md w :
  counters_exact md -> EdgeKey.wf (phase_key (w_phase w)) ->
  symmetric_auto_mirror (ek_kind (phase_key (w_phase w))) = false ->
  Z.of_nat (size (EDGES (md_edges md))) < U32_MAX ->
  counters_exact (apply md w).1.
Proof.
  destruct w as [s [k d|k]]; unfold apply; cbn [w_phase w_space_id phase_key]; intros Hc Hk Hs Hb.
  - unfold apply_link. destruct (negb (forallb _ _)); [done|].
    destruct (bool_decide (is_Some _)) eqn:Ee; cbn [negb fst].
    + intros x row Hl. apply Hc in Hl. unfold edges_out, edges_in in *. unfold set_edges. cbn [md_edges].
      rewrite link_edges_plain by done. rewrite !entries_insert, Ee, !Nat.add_0_r. done.
    + apply (counters_step md _ k 1 Hc Hk).
      * intros Q.
        replace (md_edges _) with (link (md_edges md) (ek_from k) (ek_kind k) (ek_to k) (ek_disambiguator k) d)
          by (destruct (ek_from k), (ek_to k); by rewrite ?bump_edges).
        rewrite link_edges_plain by done. rewrite entries_insert, Ee. destruct (Q _); lia.
      * intros Q. left. unfold sat. cbn. pose proof (entries_le Q (EDGES (md_edges md))). lia.
      * destruct (ek_from k), (ek_to k); [|done..]. apply map_eq. intros x. by rewrite !bump_lookup.
  - unfold apply_unlink. rewrite unlink_edges_plain by done.
    pose proof (fun Q => entries_delete Q (EDGES (md_edges md)) (EdgeKey.encode k)) as Hd.
    destruct (bool_decide (is_Some _)) eqn:Ee; cbn [fst].
    + apply (counters_step md _ k (-1) Hc Hk).
      * intros Q. specialize (Hd Q).
        replace (md_edges _) with (remove_pair (md_edges md) k (flip k))
          by (destruct (ek_from k), (ek_to k); by rewrite ?bump_edges).
        cbn [remove_pair EDGES]. destruct (Q _); lia.
      * intros Q. specialize (Hd Q). unfold sat. cbn. destruct (Q _); [left|by right]. lia.
      * destruct (ek_from k), (ek_to k); [|done..]. apply map_eq. intros x. by rewrite !bump_lookup.
    + intros x row Hl. apply Hc in Hl. unfold edges_out, edges_in in *. unfold set_edges.
      cbn [md_edges remove_pair EDGES]. rewrite <- !Hd in Hl. rewrite !Nat.add_0_r in Hl. done.
Qed.

Lemma size_apply md w :
  symmetric_auto_mirror (ek_kind (phase_key (w_phase w))) = false ->
  (size (EDGES (md_edges (apply md w).1)) <= S (size (EDGES (md_edges md))))%nat.
Proof.
  destruct w as [s [k d|k]]; unfold apply; cbn [w_phase phase_key w_space_id]; intros Hs.
  - rewrite apply_link_edges. destruct (forallb _ _); [|lia]. rewrite link_edges_plain by done.
    rewrite map_size_insert. destruct (_ !! _); unfold id; lia.
  - rewrite apply_unlink_edges, unlink_edges_plain by done. cbn [snd remove_pair EDGES].
    rewrite map_size_delete. destruct (_ !! _); unfold id; lia.
Qed.

(** The edge counters of memory rows are exact for directed labels.  From a
    store without edges whose rows count zero, after any sequence of fewer than
    [2^32 - 1] LINKs and UNLINKs of labels that are not auto-mirrored, by any
    callers, repeated, overwritten or refused at the wall, each row's
    [edges_out_count] and [edges_in_count] are the numbers of stored
    memory-to-memory edges out of and into that memory. *)
Theorem edge_counters_exact (md0 : Metadata) (ws : list Write)
    (Hempty : EDGES (md_edges md0) = ∅)
    (Hzero : forall m row, md_memories md0 !! m = Some row ->
       mm_edges_out_count row = 0 /\ mm_edges_in_count row = 0)
    (Hws : Forall (fun w => EdgeKey.wf (phase_key (w_phase w))
                            /\ symmetric_auto_mirror (ek_kind (phase_key (w_phase w))) = false) ws)
    (Hlen : Z.of_nat (length ws) < U32_MAX) :
  counters_exact (apply_all md0 ws).
Proof.
  enough (counters_exact (apply_all md0 ws)
    /\ (size (EDGES (md_edges (apply_all md0 ws))) <= length ws)%nat) as [H _] by done.
  induction ws as [|w ws IH] using rev_ind.
  - cbn [apply_all fold_left length]. rewrite Hempty, map_size_empty. split; [|lia].
    intros m row Hl. unfold edges_out, edges_in, entries_with. rewrite Hempty, map_filter_empty, map_size_empty.
    by apply (Hzero m).
  - apply Forall_app in Hws as [Hws Hw]. rewrite Forall_singleton in Hw. destruct Hw as [Hk Hs].
    rewrite length_app in *. cbn [length] in *.
    destruct IH as [Hc Hsz]; [done|lia|]. unfold apply_all in *. rewrite fold_left_app.
    cbn [fold_left]. pose proof (size_apply (fold_left (fun md w => (apply md w).1) ws md0) w Hs).
    split; [|lia]. apply counters_apply; [done..|lia].
Qed.

Module EdgeApplyExample.

Definition spaceA : bytes := replicate 16 (byte_of 170).
Definition spaceB : bytes := replicate 16 (byte_of 187).
Definition row (s : bytes) : MemoryMetadata :=
  {| mm_namespace_id := 1; mm_space_id := s; mm_edges_out_count := 0; mm_edges_in_count := 0 |}.
Definition id (n : Z) : MemoryId := MemoryId.pack 1 n 0.

(** Memories 1 and 2 are tenant A's, 3 is tenant B's. *)
Definition md0 : Metadata :=
  {| md_edges := {| EDGES := ∅; EDGES_REVERSE := ∅ |};
     md_memories := list_to_map [(id 1, row spaceA); (id 2, row spaceA); (id 3, row spaceB)] |}.

Definition edge (kind : EdgeKind) (a b : Z) : EdgeKey :=
  key (NodeMemory (id a)) (Builtin kind) (NodeMemory (id b)) zero_disambiguator.
Definition linkw (s : bytes) (k : EdgeKey) : Write :=
  {| w_space_id := s; w_phase := PhaseLink k EdgeTableExample.d1 |}.
Definition unlinkw (s : bytes) (k : EdgeKey) : Write :=
  {| w_space_id := s; w_phase := PhaseUnlink k |}.

Ltac wf_key := repeat constructor; vm_compute; try done; split; congruence.

Definition ws : list Write :=
  [linkw spaceA (edge Caused 1 2); linkw spaceB (edge Caused 3 1);
   linkw spaceA (edge Caused 1 2); unlinkw spaceA (edge Supports 2 1)].

Lemma link_tenant_wall_witness :
  exists w k, w ∈ ws /\ w_phase w = PhaseLink k EdgeTableExample.d1 /\ touched k (edge Caused 1 2)
    /\ endpoints_in_space (apply_all md0 ws) (w_space_id w) (edge Caused 1 2).
Proof.
  apply (link_tenant_wall md0 ws); [done| |wf_key|by vm_compute].
  unfold ws. repeat apply Forall_cons_2; [wf_key..|constructor].
Defined.

Lemma edge_counters_exact_witness : counters_exact (apply_all md0 ws).
Proof.
  apply (edge_counters_exact md0 ws); [done| | |vm_compute; done].
  - intros m r Hl. apply elem_of_list_to_map_2 in Hl.
    rewrite !elem_of_cons, elem_of_nil in Hl.
    destruct Hl as [E|[E|[E|[]]]]; by rewrite (f_equal snd E : r = _).
  - unfold ws. repeat apply Forall_cons_2; [split; [wf_key|done]..|constructor].
Defined.

End EdgeApplyExample.

(** ** Faults of the edge phases *)

Module EdgeApplyFaults.
Import EdgeApplyExample.

(** UNLINK has no wall.  Tenant A links two of its own memories; a write of
    tenant B, which owns neither, removes that edge and lowers the counters of
    tenant A's rows, while B's LINK of the same edge changes nothing: the
    apply step of UNLINK does not look at the caller. *)
Theorem unlink_crosses_tenants :
  let md := apply_all md0 [linkw spaceA (edge Caused 1 2)] in
  let md' := (apply md (unlinkw spaceB (edge Caused 1 2))).1 in
  spaceA <> spaceB
  /\ endpoints_in_space md spaceA (edge Caused 1 2)
  /\ EDGES (md_edges md) !! EdgeKey.encode (edge Caused 1 2) = Some EdgeTableExample.d1
  /\ apply md (linkw spaceB (edge Caused 1 2)) = (md, Linked)
  /\ EDGES (md_edges md') !! EdgeKey.encode (edge Caused 1 2) = None
  /\ mm_edges_out_count <$> md_memories md' !! id 1 = Some 0.
Proof.
  intros md md'. split_and!.
  - intros E. by apply (f_equal (fmap byte_val)) in E.
  - by vm_compute.
  - by vm_compute.
  - unfold apply, apply_link, linkw. cbn [w_phase w_space_id].
    assert (forallb (endpoint_in_space md spaceB) [ek_from (edge Caused 1 2); ek_to (edge Caused 1 2)]
            = false) as Hw by (by vm_compute).
    by rewrite Hw.
  - by vm_compute.
  - by vm_compute.
Qed.

(** The counters drift for symmetric labels.  A symmetric edge linked 1 - 2 is
    also stored 2 - 1; unlinking it from its mirror end removes both rows, but
    lowers the counters of the other direction, which saturate at zero: no edge
    is left and memory 1 still counts one out, memory 2 one in. *)
Theorem symmetric_unlink_drifts :
  let md := apply_all md0 [linkw spaceA (edge SimilarTo 1 2); unlinkw spaceA (edge SimilarTo 2 1)] in
  size (EDGES (md_edges md)) = 0%nat /\ size (EDGES_REVERSE (md_edges md)) = 0%nat
  /\ mm_edges_out_count <$> md_memories md !! id 1 = Some 1
  /\ mm_edges_in_count <$> md_memories md !! id 2 = Some 1.
Proof. intros md. split_and!; by vm_compute. Qed.

End EdgeApplyFaults.
