(* ===== verification/EdgeRecovery.v ===== *)
(** Edges in the log: the payloads of the edge phases
    ([brain-ops/src/writer/wal_map.rs]) and their replay by the metadata store
    ([brain-metadata/src/recovery/edge.rs]).

    A payload carries neither the disambiguator nor the provenance of an edge;
    the replay writes the zero disambiguator, [derived_by::CLIENT] and the time
    of the record, and keeps no counters.  The row [next_lsn], which each
    replayed record advances, is not part of [Metadata]. *)

From stdpp Require Import gmap.
From S2P Require Import Prelude Ids WalPayload AckCodec EdgeTable EdgeApply.

(** ** The payload of a phase *)

Definition edge_origin_from_byte (byte : Z) : EdgeOrigin :=
  if byte =? EdgeOrigin_as_u8 AutoDerived then AutoDerived else Explicit.

Definition edge_wal_payload (p : EdgeApply.Phase) : WalPayload :=
  match p with
  | PhaseLink k d =>
    Link {| lp_source := ek_from k; lp_target := ek_to k; lp_edge_kind := ek_kind k;
            lp_weight := ed_weight d; lp_origin := edge_origin_from_byte (ed_origin d) |}
  | PhaseUnlink k =>
    Unlink {| up_source := ek_from k; up_target := ek_to k; up_edge_kind := ek_kind k; up_edge_seq := 0 |}
  end.

(** ** Replay *)

Definition derived_by_CLIENT : Z := 0.

Definition recover_link (md : Metadata) (timestamp_ns : Z) (p : LinkPayload) : Metadata :=
  let data := {| ed_weight := lp_weight p; ed_origin := EdgeOrigin_as_u8 (lp_origin p);
                 ed_derived_by := derived_by_CLIENT; ed_created_at := timestamp_ns;
                 ed_annotation := None |} in
  set_edges md (link (md_edges md) (lp_source p) (lp_edge_kind p) (lp_target p) zero_disambiguator data).

Definition recover_unlink (md : Metadata) (p : UnlinkPayload) : Metadata :=
  set_edges md
    (unlink (md_edges md) (up_source p) (up_edge_kind p) (up_target p) zero_disambiguator).2.

(** The arms of [MetadataSink::apply] for edges; no other payload changes an edge
    written by LINK. *)
Definition edge_sink (md : Metadata) (lsn timestamp_ns : Z) (p : WalPayload) : Metadata :=
  match p with
  | Link p => recover_link md timestamp_ns p
  | Unlink p => recover_unlink md p
  | _ => md
  end.

Definition replay_edges (md : Metadata) (records : list (Z * Z * WalPayload)) : Metadata :=
  fold_left (fun md r => edge_sink md r.1.1 r.1.2 r.2) records md.

(** ** Presence of edges under operations *)

Definition is_link (o : EdgeOp) : bool := match o with OpLink _ _ => true | OpUnlink _ => false end.

Fixpoint present (ops : list EdgeOp) (x : EdgeKey) (b : bool) : bool :=
  match ops with
  | [] => b
  | o :: ops => present ops x (if decide (touched (op_key o) x) then is_link o else b)
  end.

Lemma present_const ops x :
  (exists c, forall b, present ops x b = c) \/ forall b, present ops x b = b.
Proof.
  induction ops as [|o ops [[c IH]|IH]]; simpl; [by right| |].
  - left. exists c. intros b. apply IH.
  - destruct (decide (touched (op_key o) x)); [left; exists (is_link o)|right]; intros b; apply IH.
Qed.

Lemma present_idem ops x b : present ops x (present ops x b) = present ops x b.
Proof. destruct (present_const ops x) as [[c H]|H]; by rewrite !H. Qed.

(** Only the keys and the kinds of the operations matter. *)
Lemma present_ext ops ops' x b :
  Forall2 (fun o o' => op_key o = op_key o' /\ is_link o = is_link o') ops ops' ->
  present ops x b = present ops' x b.
Proof. intros H. revert b. induction H as [|o o' l l' [Hk Hl] _ IH]; intros b; simpl; [done|]. by rewrite Hk, Hl, IH. Qed.

Definition has_edge (md : Metadata) (x : EdgeKey) : bool :=
  bool_decide (is_Some (EDGES (md_edges md) !! EdgeKey.encode x)).

Lemma op_presence t o x :
  EdgeKey.wf (op_key o) -> EdgeKey.wf x ->
  bool_decide (is_Some (EDGES (apply_op t o) !! EdgeKey.encode x))
  = if decide (touched (op_key o) x) then is_link o
    else bool_decide (is_Some (EDGES t !! EdgeKey.encode x)).
Proof.
  intros Ho Hx. rewrite apply_op_lookup by done. destruct (decide _); [|done].
  by destruct o.
Qed.

Lemma op_tables_ok t o : EdgeKey.wf (op_key o) -> tables_ok t -> tables_ok (apply_op t o).
Proof. destruct o; cbn [apply_op op_key]; auto with edges. Qed.

(** ** Live application and replay as operations *)

Definition op_of (p : EdgeApply.Phase) : EdgeOp :=
  match p with PhaseLink k d => OpLink k d | PhaseUnlink k => OpUnlink k end.

(** A write that the wall of LINK lets through. *)
Definition admitted (md : Metadata) (w : EdgeApply.Write) : Prop :=
  match w_phase w with
  | PhaseLink k _ => forallb (endpoint_in_space md (w_space_id w)) [ek_from k; ek_to k] = true
  | PhaseUnlink _ => True
  end.

Lemma admitted_apply md w w' : admitted md w -> admitted (apply md w').1 w.
Proof.
  unfold admitted. destruct (w_phase w) as [k d|k]; [|done]. cbn [forallb].
  by rewrite !endpoint_in_space_apply.
Qed.

Lemma apply_as_op md w :
  admitted md w -> md_edges (apply md w).1 = apply_op (md_edges md) (op_of (w_phase w)).
Proof.
  destruct w as [s [k d|k]]; unfold apply, admitted; cbn [w_phase w_space_id op_of apply_op]; intros Ha.
  - by rewrite apply_link_edges, Ha.
  - apply apply_unlink_edges.
Qed.

Definition replay_op (ts : Z) (p : EdgeApply.Phase) : EdgeOp :=
  match p with
  | PhaseLink k d =>
    OpLink k {| ed_weight := ed_weight d; ed_origin := EdgeOrigin_as_u8 (edge_origin_from_byte (ed_origin d));
                ed_derived_by := derived_by_CLIENT; ed_created_at := ts; ed_annotation := None |}
  | PhaseUnlink k => OpUnlink k
  end.

Lemma replay_as_op md lsn ts p :
  ek_disambiguator (phase_key p) = zero_disambiguator ->
  md_edges (edge_sink md lsn ts (edge_wal_payload p)) = apply_op (md_edges md) (replay_op ts p).
Proof. destruct p as [k d|k]; cbn; intros ->; done. Qed.

(** What the log keeps identifies the edge. *)
Definition loggable (w : EdgeApply.Write) : Prop :=
  EdgeKey.wf (phase_key (w_phase w)) /\ ek_disambiguator (phase_key (w_phase w)) = zero_disambiguator.

Lemma live_presence md ws :
  tables_ok (md_edges md) -> Forall (fun w => loggable w /\ admitted md w) ws ->
  (forall x, EdgeKey.wf x -> has_edge (apply_all md ws) x
     = present (map (fun w => op_of (w_phase w)) ws) x (has_edge md x))
  /\ tables_ok (md_edges (apply_all md ws)).
Proof.
  unfold apply_all. intros Ht Hws. revert md Ht Hws.
  induction ws as [|w ws IH]; intros md Ht Hws; cbn [fold_left map present]; [done|].
  apply Forall_cons in Hws as [[[Hk _] Ha] Hws].
  assert (op_key (op_of (w_phase w)) = phase_key (w_phase w)) as Ek by by destruct (w_phase w).
  destruct (IH (apply md w).1) as [H1 H2].
  - rewrite apply_as_op by done. apply op_tables_ok; [by rewrite Ek|done].
  - eapply Forall_impl; [done|]. intros w' [? ?]. split; [done|by apply admitted_apply].
  - split; [|done]. intros x Hx. rewrite H1 by done. f_equal. unfold has_edge.
    rewrite apply_as_op by done. apply op_presence; [by rewrite Ek|done].
Qed.

Lemma replay_presence md (rs : list (Z * Z * EdgeApply.Write)) :
  tables_ok (md_edges md) -> Forall (fun r => loggable r.2) rs ->
  let md' := replay_edges md (map (fun r => (r.1, edge_wal_payload (w_phase r.2))) rs) in
  (forall x, EdgeKey.wf x -> has_edge md' x
     = present (map (fun r => replay_op r.1.2 (w_phase r.2)) rs) x (has_edge md x))
  /\ tables_ok (md_edges md') /\ md_memories md' = md_memories md.
Proof.
  unfold replay_edges. intros Ht Hrs. revert md Ht.
  induction Hrs as [|[[lsn ts] w] rs [Hk Hz] Hrs IH]; intros md Ht; cbn [fold_left map present]; [done|].
  cbn [fst snd] in *.
  assert (op_key (replay_op ts (w_phase w)) = phase_key (w_phase w)) as Ek by by destruct (w_phase w).
  destruct (IH (edge_sink md lsn ts (edge_wal_payload (w_phase w)))) as (H1 & H2 & H3).
  - rewrite replay_as_op by done. apply op_tables_ok; [by rewrite Ek|done].
  - split_and!; [|done|]; [|rewrite H3; by destruct (w_phase w)]. intros x Hx. rewrite H1 by done. f_equal.
    unfold has_edge. rewrite replay_as_op by done. apply op_presence; [by rewrite Ek|done].
Qed.

Lemma present_app l1 l2 x b : present (l1 ++ l2) x b = present l2 x (present l1 x b).
Proof. revert b. induction l1 as [|o l1 IH]; intros b; simpl; [done|apply IH]. Qed.

(** C26: Replaying edges is harmless.  Let a shard have applied any edge writes that
    its wall admitted, and let recovery then replay the records of any final part
    of them, with any LSNs and times, onto the tables as they are: every edge is
    present exactly if it was before, the two tables still mirror each other and
    memory rows are as they were.  So it does not matter how far the durable LSN
    lags behind the commits. *)
Theorem edge_replay_converges (md : Metadata) (before : list EdgeApply.Write)
    (tail : list (Z * Z * EdgeApply.Write))
    (Ht : tables_ok (md_edges md))
    (Hws : Forall (fun w => loggable w /\ admitted md w) (before ++ map snd tail)) :
  let live := apply_all md (before ++ map snd tail) in
  let recovered := replay_edges live (map (fun r => (r.1, edge_wal_payload (w_phase r.2))) tail) in
  (forall x, EdgeKey.wf x -> has_edge recovered x = has_edge live x)
  /\ tables_ok (md_edges recovered) /\ md_memories recovered = md_memories live.
Proof.
  assert (Forall (fun r => loggable r.2) tail) as Htail.
  { apply Forall_app in Hws as [_ H]. rewrite Forall_map in H. eapply Forall_impl; [done|]. by intros r []. }
  destruct (live_presence md _ Ht Hws) as [Hpres Hlive].
  destruct (replay_presence _ _ Hlive Htail) as [Hrep Hrest]. cbv zeta. split; [|exact Hrest].
  intros x Hx. rewrite Hrep, Hpres, map_app, present_app by done.
  etrans; [|apply present_idem]. apply present_ext.
  clear. induction tail as [|[[l ts] w] tail IH]; simpl; constructor; [|done]. by destruct (w_phase w).
Qed.

Module EdgeRecoveryExample.
Import EdgeApplyExample.

Definition first : list EdgeApply.Write := [linkw spaceA (edge Caused 1 2)].
Definition tail : list (Z * Z * EdgeApply.Write) :=
  [((5, 100), linkw spaceA (edge SimilarTo 1 2)); ((6, 101), unlinkw spaceA (edge SimilarTo 2 1));
   ((7, 102), linkw spaceA (edge Supports 2 1))].

Lemma edge_replay_converges_witness :
  let live := apply_all md0 (first ++ map snd tail) in
  let recovered := replay_edges live (map (fun r => (r.1, edge_wal_payload (w_phase r.2))) tail) in
  has_edge recovered (edge Supports 2 1) = true /\ has_edge recovered (edge SimilarTo 1 2) = false.
Proof.
  destruct (edge_replay_converges md0 first tail) as [H _].
  - apply tables_ok_empty.
  - unfold first, tail. cbn [app map snd].
    repeat apply Forall_cons_2; [split; [split; [wf_key|done]|by vm_compute]..|constructor].
  - cbv zeta. rewrite !H by wf_key. split; vm_compute; reflexivity.
Defined.

End EdgeRecoveryExample.

(** ** Where replay and live application differ *)

Module EdgeRecoveryFaults.
Import EdgeApplyExample.

(** Recovery has no wall.  A LINK of tenant B between two memories of tenant A is
    acknowledged and changes nothing, but its record was in the log before the
    apply step looked at it: the replay of that record creates the edge. *)
Theorem replay_breaches_wall :
  let w := linkw spaceB (edge Caused 1 2) in
  apply md0 w = (md0, AckCodec.Linked)
  /\ has_edge md0 (edge Caused 1 2) = false
  /\ has_edge (replay_edges md0 [((1, 100), edge_wal_payload (w_phase w))]) (edge Caused 1 2) = true.
Proof. split_and!; vm_compute; reflexivity. Qed.

End EdgeRecoveryFaults.
