(* ===== verification/TxnStore.v ===== *)
(** Transactions of a shard ([brain-ops/src/handlers/txn.rs], the in-transaction
    paths of [handlers/encode.rs], [forget.rs] and [link.rs], the read lens of
    [state/txn_lens.rs] and the request hashes of [state/idempotency.rs]).

    The shard's main loop awaits one dispatched operation before it takes the
    next, so a handler is one step on the store; the wall clock is read at each
    call of the store, as the readings [ctx_clock 0], [ctx_clock 1], ... of the
    handler's context, about which nothing is assumed.  The embedder, the
    identifier the writer reserves and the writer's verdict on a submit are
    arguments; [blake3] is a parameter.  An [f32] is its bit pattern.  The
    [metadata] field of a buffered ENCODE, which no reader of the buffer uses,
    and the request hash of a commit are left out. *)

From stdpp Require Import gmap.
From S2P Require Import Prelude Ids Request Access EdgeTable EdgeApply.
Import OpError.

(** ** Entries and buffers *)

Definition MIN_TIMEOUT_SECONDS : Z := 1.
Definition MAX_TIMEOUT_SECONDS : Z := 300.
Definition DEFAULT_TIMEOUT_SECONDS : Z := 30.
Definition MAX_TXN_OPS : Z := 1000.

Inductive TxnState := Active | Committed | Aborted | Expired.

Inductive TxnFinalResponse :=
| FinalCommit (committed_at_unix_nanos operations_applied : Z)
| FinalAbort (operations_discarded : Z).

Record DelegatedIdentity := {
  di_space_id : Z;
  di_namespace : Z;
  di_space_string : string;
}.

Record BufferedEdgeSpec := { bs_target : MemoryId; bs_kind : EdgeKind; bs_weight : Z }.

Record BufferedEncode := {
  be_memory_id : MemoryId;
  be_text : string;
  be_vector : list Z;
  be_edges : list BufferedEdgeSpec;
  be_kind : MemoryKind;
  be_session_id : Z;
  be_salience_initial : Z;
  be_fingerprint : bytes;
  be_request_id : Z;
  be_request_hash : bytes;
  be_created_at : Z;
  be_occurred_at : option Z;
  be_space_id : Z;
}.

Record BufferedLink := {
  bl_source : MemoryId;
  bl_target : MemoryId;
  bl_kind : EdgeKind;
  bl_weight : Z;
  bl_request_id : Z;
  bl_request_hash : bytes;
  bl_created_at : Z;
  bl_space_id : Z;
}.

Record BufferedUnlink := {
  bu_source : MemoryId;
  bu_target : MemoryId;
  bu_kind : EdgeKind;
  bu_request_id : Z;
  bu_request_hash : bytes;
  bu_created_at : Z;
  bu_space_id : Z;
}.

Record BufferedForget := {
  bf_memory_id : MemoryId;
  bf_mode : ForgetMode;
  bf_request_id : Z;
  bf_request_hash : bytes;
  bf_created_at : Z;
  bf_space_id : Z;
}.

Inductive ForgetOutcome := Tombstoned | AlreadyTombstoned | MemoryNotFound.

Inductive BufferedReplay :=
| ReplayEncode (memory_id : MemoryId)
| ReplayForget (memory_id : MemoryId) (outcome : ForgetOutcome)
| ReplayLink (source target : MemoryId) (kind : EdgeKind) (weight created_at : Z)
    (already_existed : bool)
| ReplayUnlink (source target : MemoryId) (kind : EdgeKind) (removed : bool).

Definition Triple : Type := MemoryId * EdgeKind * MemoryId.

#[global] Instance EdgeKind_countable : Countable EdgeKind.
Proof.
  apply (inj_countable EdgeKind_as_u8 edge_kind_from_u8). intros k. apply EdgeKind_u8.
Defined.

Record TxnBuffer := {
  encodes : list BufferedEncode;
  forgets : list BufferedForget;
  links : list BufferedLink;
  unlinks : list BufferedUnlink;
  tombstoned : gset Z;
  unlinked_edges : gset (Z * EdgeKind * Z);
  request_id_cache : gmap Z BufferedReplay;
  request_hashes : gmap Z bytes;
}.

Definition TxnBuffer_default : TxnBuffer :=
  {| encodes := []; forgets := []; links := []; unlinks := []; tombstoned := ∅;
     unlinked_edges := ∅; request_id_cache := ∅; request_hashes := ∅ |}.

Record TxnEntry := {
  te_state : TxnState;
  te_started_at : Z;
  te_expires_at : Z;
  te_timeout_seconds : Z;
  te_final_response : option TxnFinalResponse;
  te_buffer : option TxnBuffer;
  te_delegated : option DelegatedIdentity;
  te_connection_id : Z;
}.

Abbreviation TxnStore := (gmap Z TxnEntry).

Definition ops_count (b : TxnBuffer) : Z :=
  let n := Z.of_nat (length (encodes b) + length (forgets b) + length (links b) + length (unlinks b)) in
  if n <=? U32_MAX then n else U32_MAX.

Definition check_capacity_for_push (b : TxnBuffer) : result unit OpError :=
  let current := ops_count b in
  if MAX_TXN_OPS <=? current then Err (TransactionTooLarge current MAX_TXN_OPS) else Ok tt.

(** ** The store *)

Definition set_state_buffer (e : TxnEntry) (s : TxnState) (b : option TxnBuffer)
    (r : option TxnFinalResponse) : TxnEntry :=
  {| te_state := s; te_started_at := te_started_at e; te_expires_at := te_expires_at e;
     te_timeout_seconds := te_timeout_seconds e; te_final_response := r; te_buffer := b;
     te_delegated := te_delegated e; te_connection_id := te_connection_id e |}.

Definition set_expires (e : TxnEntry) (z : Z) : TxnEntry :=
  {| te_state := te_state e; te_started_at := te_started_at e; te_expires_at := z;
     te_timeout_seconds := te_timeout_seconds e; te_final_response := te_final_response e;
     te_buffer := te_buffer e; te_delegated := te_delegated e;
     te_connection_id := te_connection_id e |}.

Definition set_buffer (e : TxnEntry) (b : option TxnBuffer) : TxnEntry :=
  set_state_buffer e (te_state e) b (te_final_response e).

#[global] Instance TxnState_eq_dec : EqDecision TxnState.
Proof. solve_decision. Defined.

Definition expire (e : TxnEntry) : TxnEntry := set_state_buffer e Expired None (te_final_response e).

Definition sweep_entry (now : Z) (e : TxnEntry) : TxnEntry :=
  if bool_decide (te_state e = Active) && (te_expires_at e <=? now) then expire e else e.

Definition sweep_expired_locked (entries : TxnStore) (now : Z) : TxnStore :=
  sweep_entry now <$> entries.

Definition txn_owned_by (entry_connection_id caller_connection_id : Z) : bool :=
  (entry_connection_id =? 0) || (entry_connection_id =? caller_connection_id).

(** A store operation: it returns or fails, and either way leaves a store. *)
Definition M (A : Type) : Type := TxnStore -> result A OpError * TxnStore.
Definition ret {A} (a : A) : M A := fun s => (Ok a, s).
Definition fail {A} (e : OpError) : M A := fun s => (Err e, s).
Definition bind {A B} (m : M A) (k : A -> M B) : M B :=
  fun s => match m s with (Ok a, s') => k a s' | (Err e, s') => (Err e, s') end.
Definition lift {A} (r : result A OpError) : M A := fun s => (r, s).
Declare Scope txn_scope.
Delimit Scope txn_scope with txn.
Notation "'let!' x ':=' m 'in' k" := (bind m (fun x => k))
  (at level 10, x binder, m at level 100, k at level 200) : txn_scope.
Local Open Scope txn_scope.

Definition deadline (now timeout : Z) : Z := sat_add64 now (timeout * 1000000000).

Definition validate_active (now txn conn : Z) : M Z := fun s =>
  let s := sweep_expired_locked s now in
  match s !! txn with
  | None => (Err TxnNotFound, s)
  | Some e =>
    if negb (txn_owned_by (te_connection_id e) conn) then (Err TxnNotFound, s) else
    match te_state e with
    | Active =>
      let at_ := deadline now (te_timeout_seconds e) in
      (Ok at_, <[txn := set_expires e at_]> s)
    | _ => (Err TxnExpired, s)
    end
  end.

(** The closure gets the buffer and returns it changed; the ones of the handlers
    fail only before they change it. *)
Definition with_buffer {R} (now txn conn : Z) (f : TxnBuffer -> result (R * TxnBuffer) OpError)
  : M R := fun s =>
  let s := sweep_expired_locked s now in
  match s !! txn with
  | None => (Err TxnNotFound, s)
  | Some e =>
    if negb (txn_owned_by (te_connection_id e) conn) then (Err TxnNotFound, s) else
    match te_state e, te_buffer e with
    | Active, Some buf =>
      match f buf with
      | Ok (r, buf) =>
        (Ok r, <[txn := set_expires (set_buffer e (Some buf))
                          (deadline now (te_timeout_seconds e))]> s)
      | Err err => (Err err, s)
      end
    | _, _ => (Err TxnExpired, s)
    end
  end.

(** A closure that only reads. *)
Definition read_buffer {R} (now txn conn : Z) (f : TxnBuffer -> result R OpError) : M R :=
  with_buffer now txn conn (fun buf => let? r := f buf in Ok (r, buf)).

Definition final_abort (e : TxnEntry) : TxnEntry :=
  let ops := match te_buffer e with Some b => ops_count b | None => 0 end in
  set_state_buffer e Aborted None (Some (FinalAbort ops)).

Definition orphaned (conn : Z) (e : TxnEntry) : bool :=
  (te_connection_id e =? conn) && bool_decide (te_state e = Active).

Definition abort_orphaned_for_connection (conn : Z) (s : TxnStore) : list Z * TxnStore :=
  if conn =? 0 then ([], s) else
  ((map_to_list (filter (fun e => orphaned conn e.2 = true) s)).*1,
   (fun e => if orphaned conn e then final_abort e else e) <$> s).

(** ** Requests, answers and the caller *)

Record OpsContext := {
  ctx_connection_id : Z;
  ctx_space : Z;
  ctx_namespace : Z;
  ctx_space_string : string;
  ctx_metadata : Metadata;
  ctx_clock : nat -> Z;
  ctx_embed : string -> option (list Z);
  ctx_fingerprint : bytes;
  ctx_reserve : result MemoryId WriterError;
}.

Record EncodeRequest := {
  encode_text : string;
  encode_session_id : Z;
  encode_request_id : Z;
  encode_occurred_at : option Z;
}.

Inductive Answer :=
| BeginResponse (txn_id timeout_seconds started_at : Z)
| CommitResponse (txn_id committed_at operations_applied : Z)
| AbortResponse (txn_id operations_discarded : Z)
| EncodeResponse (memory_id created_at : Z)
| ForgetResponse (memory_id : Z) (was_already_forgotten : bool)
| LinkResponse (source target : MemoryId) (kind : EdgeKind) (weight created_at : Z)
    (already_existed : bool)
| UnlinkResponse (source target : MemoryId) (kind : EdgeKind) (removed : bool).

(** [EdgeKind::from] of the wire discriminant, which decoding keeps in range. *)
Definition edge_kind (wire : Z) : EdgeKind := default Caused (edge_kind_from_u8 wire).

Definition NIL_REQUEST_ID : Z := 0.
Definition MAX_TEXT_BYTES : Z := 1024 * 1024.
Definition DEFAULT_KIND : MemoryKind := Episodic.
(** The bits of [0.5f32]. *)
Definition DEFAULT_SALIENCE : Z := 1056964608.

Definition validate_text (text : string) : result unit PlanError :=
  if bool_decide (text = EmptyString) then Err InvalidParameters else
  if MAX_TEXT_BYTES <? Z.of_nat (String.length text) then Err InvalidParameters else Ok tt.

(** The plan of an operation; the comparison of its constant estimate with the
    configured budget is the argument. *)
Definition plan_encode_inner (in_budget : bool) (text : string) : result unit PlanError :=
  let? _ := validate_text text in
  if in_budget then Ok tt else Err QueryTooExpensive.

Definition plan_forget_inner (in_budget : bool) (req : ForgetRequest) : result unit PlanError :=
  if forget_request_id req =? NIL_REQUEST_ID then Err InvalidParameters else
  if in_budget then Ok tt else Err QueryTooExpensive.

(** The range check on the bit pattern: the non-negative floats up to 1 are
    [0 .. 0x3f800000], and -0 compares equal to 0. *)
Definition ONE_BITS : Z := 0x3f800000.
Definition SIGN_BIT : Z := 0x80000000.
Definition validate_weight (bits : Z) (kind : EdgeKind) : result unit OpError :=
  let in_range :=
    match kind with
    | Contradicts => Z.land bits (SIGN_BIT - 1) <=? ONE_BITS
    | _ => (bits <=? ONE_BITS) || (bits =? SIGN_BIT)
    end in
  if in_range then Ok tt else Err (InvalidRequest "LINK weight out of range").

Section handlers.
Context `{Crates}.

(** ** Request hashes *)

Definition NUL : bytes := [Byte.x00].
Definition id_bytes (m : MemoryId) : bytes := to_be_bytes 16 m.
Definition tag (s : string) : bytes := String.list_byte_of_string s.

Definition memory_kind_byte (k : MemoryKind) : Z :=
  match k with Episodic => 0 | Semantic => 1 | Consolidated => 2 end.
Definition edge_kind_byte (k : EdgeKind) : Z := EdgeKind_as_u8 k.
Definition forget_mode_byte (m : ForgetMode) : Z := match m with Soft => 0 | Hard => 1 end.

Definition hash_encode_request (text : string) (session : Z) (kind : MemoryKind) (salience : Z)
    (fingerprint : bytes) (edges : list BufferedEdgeSpec) : bytes :=
  blake3 (tag "encode:" ++ tag text ++ NUL ++ to_le_bytes 8 session ++ NUL
          ++ [byte_of (memory_kind_byte kind)] ++ NUL ++ to_le_bytes 4 salience ++ NUL
          ++ fingerprint ++ NUL ++ to_le_bytes 4 (wrap 32 (Z.of_nat (length edges)))
          ++ concat (map (fun e => id_bytes (bs_target e) ++ [byte_of (edge_kind_byte (bs_kind e))]
                                   ++ to_le_bytes 4 (bs_weight e)) edges)).

Definition hash_forget_request (memory_id : MemoryId) (mode : ForgetMode) : bytes :=
  blake3 (tag "forget:" ++ id_bytes memory_id ++ NUL ++ [byte_of (forget_mode_byte mode)]).

Definition hash_link_request (source target : MemoryId) (kind : EdgeKind) (weight : Z) : bytes :=
  blake3 (tag "link:" ++ id_bytes source ++ NUL ++ id_bytes target ++ NUL
          ++ [byte_of (edge_kind_byte kind)] ++ NUL ++ to_le_bytes 4 weight).

Definition hash_unlink_request (source target : MemoryId) (kind : EdgeKind) : bytes :=
  blake3 (tag "unlink:" ++ id_bytes source ++ NUL ++ id_bytes target ++ NUL
          ++ [byte_of (edge_kind_byte kind)]).

(** ** Committed state and the buffer, as the in-transaction handlers probe them *)

Definition in_scope (ctx : OpsContext) (id : MemoryId) : bool :=
  match md_memories (ctx_metadata ctx) !! id with
  | Some row => (mm_namespace_id row =? ctx_namespace ctx)
                && bool_decide (mm_space_id row = to_be_bytes 16 (ctx_space ctx))
  | None => false
  end.

Definition triple_key (t : Triple) : EdgeKey :=
  let '(source, kind, target) := t in
  key (NodeMemory source) (Builtin kind) (NodeMemory target) zero_disambiguator.

Definition committed_has (ctx : OpsContext) (t : Triple) : bool :=
  bool_decide (is_Some (EDGES (md_edges (ctx_metadata ctx)) !! EdgeKey.encode (triple_key t))).

Definition pending_has (buf : TxnBuffer) (t : Triple) : bool :=
  existsb (fun l => bool_decide ((bl_source l, bl_kind l, bl_target l) = t)) (links buf)
  || existsb (fun e => (be_memory_id e =? t.1.1)
       && existsb (fun x => (bs_target x =? t.2) && bool_decide (bs_kind x = t.1.2)) (be_edges e))
     (encodes buf).

Definition pending_unlinked (buf : TxnBuffer) (t : Triple) : bool :=
  bool_decide (t ∈ unlinked_edges buf).

(** The replay check at the head of the in-transaction handlers. *)
Definition check_replay (buf : TxnBuffer) (request_id : Z) (request_hash : bytes)
    (conflict : string) (pick : BufferedReplay -> option Answer) : result (option Answer) OpError :=
  match request_hashes buf !! request_id with
  | Some prior =>
    if bool_decide (prior <> request_hash) then Err (Conflict conflict) else
    Ok (request_id_cache buf !! request_id ≫= pick)
  | None => Ok None
  end.

Definition record_replay (buf : TxnBuffer) (request_id : Z) (hash : bytes) (r : BufferedReplay)
    (encodes' : list BufferedEncode) (forgets' : list BufferedForget)
    (links' : list BufferedLink) (unlinks' : list BufferedUnlink)
    (tombstoned' : gset Z) (unlinked' : gset (Z * EdgeKind * Z)) : TxnBuffer :=
  {| encodes := encodes'; forgets := forgets'; links := links'; unlinks := unlinks';
     tombstoned := tombstoned'; unlinked_edges := unlinked';
     request_id_cache := <[request_id := r]> (request_id_cache buf);
     request_hashes := <[request_id := hash]> (request_hashes buf) |}.

(** [.unwrap_or(false)] on a store call. *)
Definition or_false (m : M bool) : M bool :=
  fun s => match m s with (Ok b, s') => (Ok b, s') | (Err _, s') => (Ok false, s') end.

(** ** ENCODE, FORGET, LINK and UNLINK inside a transaction *)

Definition handle_encode_in_txn (in_budget : bool) (ctx : OpsContext) (txn : Z) (req : EncodeRequest)
  : M Answer :=
  let conn := ctx_connection_id ctx in
  let! _ := lift (map_err OpError.Plan (plan_encode_inner in_budget (encode_text req))) in
  let! _ := validate_active (ctx_clock ctx 0) txn conn in
  let request_hash := hash_encode_request (encode_text req) (encode_session_id req) DEFAULT_KIND
                        DEFAULT_SALIENCE (ctx_fingerprint ctx) [] in
  let! replay := read_buffer (ctx_clock ctx 1) txn conn (fun buf =>
    check_replay buf (encode_request_id req) request_hash
      "encode in-txn request_id replay with different params"
      (fun r => match r with ReplayEncode m => Some (EncodeResponse m 0) | _ => None end)) in
  match replay with
  | Some answer => ret answer
  | None =>
    let! _ := read_buffer (ctx_clock ctx 2) txn conn check_capacity_for_push in
    let! vector := lift (ok_or (ctx_embed ctx (encode_text req)) (Exec EmbedFailed)) in
    let! memory_id := lift (map_err (fun e => Exec (WriterFailed e)) (ctx_reserve ctx)) in
    let created_at := ctx_clock ctx 3 in
    let buffered :=
      {| be_memory_id := memory_id; be_text := encode_text req; be_vector := vector; be_edges := [];
         be_kind := DEFAULT_KIND; be_session_id := encode_session_id req;
         be_salience_initial := DEFAULT_SALIENCE; be_fingerprint := ctx_fingerprint ctx;
         be_request_id := encode_request_id req; be_request_hash := request_hash;
         be_created_at := created_at; be_occurred_at := encode_occurred_at req;
         be_space_id := ctx_space ctx |} in
    let! _ := with_buffer (ctx_clock ctx 4) txn conn (fun buf =>
      Ok (tt, record_replay buf (encode_request_id req) request_hash (ReplayEncode memory_id)
                (encodes buf ++ [buffered]) (forgets buf) (links buf) (unlinks buf)
                (tombstoned buf) (unlinked_edges buf))) in
    ret (EncodeResponse memory_id created_at)
  end.

Definition already_forgotten (o : ForgetOutcome) : bool :=
  match o with AlreadyTombstoned | MemoryNotFound => true | Tombstoned => false end.

Definition handle_forget_in_txn (in_budget : bool) (ctx : OpsContext) (txn : Z) (req : ForgetRequest)
  : M Answer :=
  let conn := ctx_connection_id ctx in
  let! _ := lift (map_err OpError.Plan (plan_forget_inner in_budget req)) in
  let! _ := validate_active (ctx_clock ctx 0) txn conn in
  let memory_id := forget_memory_id req in
  let request_hash := hash_forget_request memory_id (forget_mode req) in
  let! cached := read_buffer (ctx_clock ctx 1) txn conn (fun buf =>
    check_replay buf (forget_request_id req) request_hash
      "forget in-txn request_id replay with different params"
      (fun r => match r with
                | ReplayForget m o => Some (ForgetResponse m (already_forgotten o))
                | _ => None
                end)) in
  match cached with
  | Some answer => ret answer
  | None =>
    let! _ := read_buffer (ctx_clock ctx 2) txn conn check_capacity_for_push in
    let committed := in_scope ctx memory_id in
    let! probe := read_buffer (ctx_clock ctx 3) txn conn (fun buf =>
      Ok (existsb (fun e => be_memory_id e =? memory_id) (encodes buf),
          bool_decide (memory_id ∈ tombstoned buf))) in
    let '(pending, is_tombstoned) := (probe : bool * bool) in
    let outcome := if is_tombstoned then AlreadyTombstoned
                   else if committed || pending then Tombstoned else MemoryNotFound in
    let buffered :=
      {| bf_memory_id := memory_id; bf_mode := forget_mode req; bf_request_id := forget_request_id req;
         bf_request_hash := request_hash; bf_created_at := ctx_clock ctx 4;
         bf_space_id := ctx_space ctx |} in
    let! _ := with_buffer (ctx_clock ctx 5) txn conn (fun buf =>
      Ok (tt, record_replay buf (forget_request_id req) request_hash (ReplayForget memory_id outcome)
                (encodes buf) (forgets buf ++ [buffered]) (links buf) (unlinks buf)
                (match outcome with Tombstoned => {[ memory_id ]} ∪ tombstoned buf | _ => tombstoned buf end)
                (unlinked_edges buf))) in
    ret (ForgetResponse memory_id (already_forgotten outcome))
  end.

Definition not_found (what_end : string) : OpError := NotFound "memory" what_end.

Definition handle_link_in_txn (ctx : OpsContext) (txn : Z) (req : LinkRequest) : M Answer :=
  let conn := ctx_connection_id ctx in
  let source := link_source req in
  let target := link_target req in
  let kind := edge_kind (link_kind req) in
  let weight := link_weight req in
  let! _ := validate_active (ctx_clock ctx 0) txn conn in
  let request_hash := hash_link_request source target kind weight in
  let! cached := read_buffer (ctx_clock ctx 1) txn conn (fun buf =>
    check_replay buf (link_request_id req) request_hash
      "link in-txn request_id replay with different params"
      (fun r => match r with
                | ReplayLink a b k w t x => Some (LinkResponse a b k w t x)
                | _ => None
                end)) in
  match cached with
  | Some answer => ret answer
  | None =>
    let! _ := read_buffer (ctx_clock ctx 2) txn conn check_capacity_for_push in
    let src_committed := in_scope ctx source in
    let tgt_committed := in_scope ctx target in
    let! pending := read_buffer (ctx_clock ctx 3) txn conn (fun buf =>
      Ok (existsb (fun e => be_memory_id e =? source) (encodes buf),
          existsb (fun e => be_memory_id e =? target) (encodes buf))) in
    let '(src_pending, tgt_pending) := (pending : bool * bool) in
    if negb (src_committed || src_pending) then fail (not_found "LINK source memory not found") else
    if negb (tgt_committed || tgt_pending) then fail (not_found "LINK target memory not found") else
    let! pending_has := or_false (read_buffer (ctx_clock ctx 4) txn conn (fun buf =>
      Ok (pending_has buf (source, kind, target)))) in
    let! pending_unlinked := or_false (read_buffer (ctx_clock ctx 5) txn conn (fun buf =>
      Ok (pending_unlinked buf (source, kind, target)))) in
    let already_existed :=
      (committed_has ctx (source, kind, target) || pending_has) && negb pending_unlinked in
    let created_at := ctx_clock ctx 6 in
    let buffered :=
      {| bl_source := source; bl_target := target; bl_kind := kind; bl_weight := weight;
         bl_request_id := link_request_id req; bl_request_hash := request_hash;
         bl_created_at := created_at; bl_space_id := ctx_space ctx |} in
    let! _ := with_buffer (ctx_clock ctx 7) txn conn (fun buf =>
      Ok (tt, record_replay buf (link_request_id req) request_hash
                (ReplayLink source target kind weight created_at already_existed)
                (encodes buf) (forgets buf) (links buf ++ [buffered]) (unlinks buf)
                (tombstoned buf) (unlinked_edges buf ∖ {[ (source, kind, target) ]}))) in
    ret (LinkResponse source target kind weight created_at already_existed)
  end.

(** The entry of LINK, which checks the weight first. *)
Definition handle_link (ctx : OpsContext) (txn : Z) (req : LinkRequest) : M Answer :=
  let! _ := lift (validate_weight (link_weight req) (edge_kind (link_kind req))) in
  handle_link_in_txn ctx txn req.

Definition handle_unlink_in_txn (ctx : OpsContext) (txn : Z) (req : UnlinkRequest) : M Answer :=
  let conn := ctx_connection_id ctx in
  let source := unlink_source req in
  let target := unlink_target req in
  let kind := edge_kind (unlink_kind req) in
  let! _ := validate_active (ctx_clock ctx 0) txn conn in
  let request_hash := hash_unlink_request source target kind in
  let! cached := read_buffer (ctx_clock ctx 1) txn conn (fun buf =>
    check_replay buf (unlink_request_id req) request_hash
      "unlink in-txn request_id replay with different params"
      (fun r => match r with ReplayUnlink a b k x => Some (UnlinkResponse a b k x) | _ => None end)) in
  match cached with
  | Some answer => ret answer
  | None =>
    let! _ := read_buffer (ctx_clock ctx 2) txn conn check_capacity_for_push in
    let! pending_has := read_buffer (ctx_clock ctx 3) txn conn (fun buf =>
      Ok (pending_has buf (source, kind, target))) in
    let! already_unlinked := read_buffer (ctx_clock ctx 4) txn conn (fun buf =>
      Ok (pending_unlinked buf (source, kind, target))) in
    let removed :=
      (committed_has ctx (source, kind, target) || pending_has) && negb already_unlinked in
    let buffered :=
      {| bu_source := source; bu_target := target; bu_kind := kind;
         bu_request_id := unlink_request_id req; bu_request_hash := request_hash;
         bu_created_at := ctx_clock ctx 5; bu_space_id := ctx_space ctx |} in
    let! _ := with_buffer (ctx_clock ctx 6) txn conn (fun buf =>
      Ok (tt, record_replay buf (unlink_request_id req) request_hash
                (ReplayUnlink source target kind removed)
                (encodes buf) (forgets buf) (links buf) (unlinks buf ++ [buffered])
                (tombstoned buf)
                (if removed then {[ (source, kind, target) ]} ∪ unlinked_edges buf
                 else unlinked_edges buf))) in
    ret (UnlinkResponse source target kind removed)
  end.

(** ** The read lens *)

Record PendingMemorySnapshot := {
  pm_vector : list Z;
  pm_salience : Z;
  pm_kind : MemoryKind;
  pm_session_id : Z;
  pm_created_at : Z;
}.

Record TxnSnapshot := {
  pending_links : list (Triple * Z);
  pending_unlinks : gset (Z * EdgeKind * Z);
  pending_memories : gmap Z PendingMemorySnapshot;
  snap_tombstoned : gset Z;
}.

Definition snapshot (buf : TxnBuffer) : TxnSnapshot :=
  {| pending_links :=
       map (fun l => (bl_source l, bl_kind l, bl_target l, bl_weight l)) (links buf)
       ++ concat (map (fun e => map (fun x => (be_memory_id e, bs_kind x, bs_target x, bs_weight x))
                                    (be_edges e)) (encodes buf));
     pending_unlinks := unlinked_edges buf;
     pending_memories :=
       fold_left (fun m e =>
         <[be_memory_id e := {| pm_vector := be_vector e; pm_salience := be_salience_initial e;
                                pm_kind := be_kind e; pm_session_id := be_session_id e;
                                pm_created_at := be_created_at e |}]> m) (encodes buf) ∅;
     snap_tombstoned := tombstoned buf |}.

Definition build_executor_with_lens (ctx : OpsContext) (txn : option Z) : M (option TxnSnapshot) :=
  match txn with
  | None => ret None
  | Some txn =>
    let! _ := validate_active (ctx_clock ctx 0) txn (ctx_connection_id ctx) in
    let! snap := read_buffer (ctx_clock ctx 1) txn (ctx_connection_id ctx)
                   (fun buf => Ok (snapshot buf)) in
    ret (Some snap)
  end.

(** ** BEGIN, COMMIT and ABORT *)

Definition clamp_timeout (req : Z) : Z :=
  let v := if req =? 0 then DEFAULT_TIMEOUT_SECONDS else req in
  Z.max MIN_TIMEOUT_SECONDS (Z.min v MAX_TIMEOUT_SECONDS).

Definition handle_txn_begin (ctx : OpsContext) (req : TxnBeginRequest) : M Answer := fun s =>
  let timeout_seconds := clamp_timeout (begin_timeout_seconds req) in
  let now := ctx_clock ctx 0 in
  let s := sweep_expired_locked s now in
  match s !! begin_txn_id req with
  | Some e => (Ok (BeginResponse (begin_txn_id req) (te_timeout_seconds e) (te_started_at e)), s)
  | None =>
    let delegated :=
      match begin_act_as req with
      | Some _ => Some {| di_space_id := ctx_space ctx; di_namespace := ctx_namespace ctx;
                          di_space_string := ctx_space_string ctx |}
      | None => None
      end in
    let entry :=
      {| te_state := Active; te_started_at := now; te_expires_at := deadline now timeout_seconds;
         te_timeout_seconds := timeout_seconds; te_final_response := None;
         te_buffer := Some TxnBuffer_default; te_delegated := delegated;
         te_connection_id := ctx_connection_id ctx |} in
    (Ok (BeginResponse (begin_txn_id req) timeout_seconds now), <[begin_txn_id req := entry]> s)
  end.

(** The phases a commit submits: the edge phases of [EdgeApply], the insertion of a
    memory and its tombstone. *)
Inductive TxnPhase :=
| UpsertMemory (e : BufferedEncode)
| EdgePhase (p : EdgeApply.Phase)
| TombstoneMemory (id : MemoryId) (mode : ForgetMode) (at_ : Z).

Definition link_phase (source : MemoryId) (kind : EdgeKind) (target : MemoryId) (weight created_at : Z)
  : TxnPhase :=
  EdgePhase (PhaseLink (triple_key (source, kind, target))
    {| ed_weight := weight; ed_origin := EdgeOrigin_as_u8 Explicit; ed_derived_by := 0;
       ed_created_at := created_at; ed_annotation := None |}).

Definition build_phases (buf : TxnBuffer) : list TxnPhase :=
  concat (map (fun e => UpsertMemory e ::
    map (fun x => link_phase (be_memory_id e) (bs_kind x) (bs_target x) (bs_weight x) (be_created_at e))
        (be_edges e)) (encodes buf))
  ++ map (fun l => link_phase (bl_source l) (bl_kind l) (bl_target l) (bl_weight l) (bl_created_at l))
         (links buf)
  ++ map (fun u => EdgePhase (PhaseUnlink (triple_key (bu_source u, bu_kind u, bu_target u)))) (unlinks buf)
  ++ map (fun f => TombstoneMemory (bf_memory_id f) (bf_mode f) (bf_created_at f)) (forgets buf).

(** The [Write] of a commit; its [WriteId] is the transaction's id. *)
Record TxnWrite := {
  tw_write_id : Z;
  tw_space_id : Z;
  tw_namespace : Z;
  tw_space_string : string;
  tw_phases : list TxnPhase;
}.

(** What a handler does outside the store. *)
Inductive Effect :=
| Submitted (w : TxnWrite)
| DispatchTextForget (id : MemoryId) (hard : bool)
| DeleteHypeVectors (id : MemoryId).

Definition hard_forgotten (buf : TxnBuffer) : list MemoryId :=
  map bf_memory_id (List.filter (fun f => match bf_mode f with Hard => true | Soft => false end)
                                (forgets buf)).

Definition cleanup (text_dispatcher : bool) (buf : TxnBuffer) : list Effect :=
  concat (map (fun id =>
    (if text_dispatcher
     then [DispatchTextForget id (bool_decide (id ∈ hard_forgotten buf))] else [])
    ++ [DeleteHypeVectors id]) (elements (tombstoned buf))).

Definition abort_entry (ops : Z) (e : TxnEntry) : TxnEntry :=
  set_state_buffer e Aborted (te_buffer e) (Some (FinalAbort ops)).
Definition commit_entry (at_ ops : Z) (e : TxnEntry) : TxnEntry :=
  set_state_buffer e Committed (te_buffer e) (Some (FinalCommit at_ ops)).

(** [writer] is the concrete writer's verdict on a write, [None] when the
    executor holds another writer. *)
Definition handle_txn_commit (writer : option (TxnWrite -> result unit WriterError))
    (text_dispatcher : bool) (ctx : OpsContext) (req : TxnCommitRequest)
    (s : TxnStore) : result Answer OpError * TxnStore * list Effect :=
  let txn := commit_txn_id req in
  let s := sweep_expired_locked s (ctx_clock ctx 0) in
  match s !! txn with
  | None => (Err TxnNotFound, s, [])
  | Some e =>
    if negb (txn_owned_by (te_connection_id e) (ctx_connection_id ctx))
    then (Err TxnNotFound, s, []) else
    match te_final_response e with
    | Some (FinalCommit at_ ops) => (Ok (CommitResponse txn at_ ops), s, [])
    | _ =>
      if negb (bool_decide (te_state e = Active)) then (Err TxnExpired, s, []) else
      match te_buffer e with
      | None => (Err TxnExpired, s, [])
      | Some buf =>
        let s := <[txn := set_buffer e None]> s in
        let ops := ops_count buf in
        if MAX_TXN_OPS <? ops then
          (Err (TransactionTooLarge ops MAX_TXN_OPS), alter (abort_entry ops) txn s, []) else
        let '(space, namespace, space_string) :=
          match te_delegated e with
          | Some d => (di_space_id d, di_namespace d, di_space_string d)
          | None => (ctx_space ctx, ctx_namespace ctx, ctx_space_string ctx)
          end in
        let w := {| tw_write_id := txn; tw_space_id := space; tw_namespace := namespace;
                    tw_space_string := space_string; tw_phases := build_phases buf |} in
        match writer with
        | None => (Err (Internal "unified path requires RealWriterHandle"), s, [])
        | Some submit =>
          match submit w with
          | Err err => (Err (Exec (WriterFailed err)), alter (abort_entry ops) txn s, [Submitted w])
          | Ok _ =>
            let committed_at := ctx_clock ctx 1 in
            (Ok (CommitResponse txn committed_at ops), alter (commit_entry committed_at ops) txn s,
             Submitted w :: cleanup text_dispatcher buf)
          end
        end
      end
    end
  end.

Definition handle_txn_abort (ctx : OpsContext) (req : TxnAbortRequest) : M Answer := fun s =>
  let txn := abort_txn_id req in
  let s := sweep_expired_locked s (ctx_clock ctx 0) in
  match s !! txn with
  | None => (Err TxnNotFound, s)
  | Some e =>
    if negb (txn_owned_by (te_connection_id e) (ctx_connection_id ctx)) then (Err TxnNotFound, s) else
    match te_final_response e with
    | Some (FinalAbort ops) => (Ok (AbortResponse txn ops), s)
    | _ =>
      if negb (bool_decide (te_state e = Active)) then (Err TxnExpired, s) else
      let ops := match te_buffer e with Some b => ops_count b | None => 0 end in
      (Ok (AbortResponse txn ops), <[txn := final_abort e]> s)
    end
  end.

(** ** One request to the store *)

Inductive Call :=
| CallBegin (req : TxnBeginRequest)
| CallEncode (in_budget : bool) (txn : Z) (req : EncodeRequest)
| CallForget (in_budget : bool) (txn : Z) (req : ForgetRequest)
| CallLink (txn : Z) (req : LinkRequest)
| CallUnlink (txn : Z) (req : UnlinkRequest)
| CallLens (txn : Z)
| CallCommit (writer : option (TxnWrite -> result unit WriterError)) (text_dispatcher : bool)
    (req : TxnCommitRequest)
| CallAbort (req : TxnAbortRequest)
| CallDisconnect.

Inductive Reply :=
| ReplyAnswer (a : Answer)
| ReplyLens (snap : option TxnSnapshot)
| ReplyErr (e : OpError)
| ReplyOrphans (ids : list Z).

Definition reply_of (r : result Answer OpError) : Reply :=
  match r with Ok a => ReplyAnswer a | Err e => ReplyErr e end.

(** The reply, the store after the call, and the effects. *)
Definition step (s : TxnStore) (ctx : OpsContext) (c : Call) : Reply * TxnStore * list Effect :=
  let plain (m : M Answer) := let '(r, s') := m s in (reply_of r, s', []) in
  match c with
  | CallBegin req => plain (handle_txn_begin ctx req)
  | CallEncode b txn req => plain (handle_encode_in_txn b ctx txn req)
  | CallForget b txn req => plain (handle_forget_in_txn b ctx txn req)
  | CallLink txn req => plain (handle_link ctx txn req)
  | CallUnlink txn req => plain (handle_unlink_in_txn ctx txn req)
  | CallLens txn =>
    let '(r, s') := build_executor_with_lens ctx (Some txn) s in
    (match r with Ok snap => ReplyLens snap | Err e => ReplyErr e end, s', [])
  | CallCommit w d req =>
    let '(r, s', eff) := handle_txn_commit w d ctx req s in (reply_of r, s', eff)
  | CallAbort req => plain (handle_txn_abort ctx req)
  | CallDisconnect =>
    let '(ids, s') := abort_orphaned_for_connection (ctx_connection_id ctx) s in
    (ReplyOrphans ids, s', [])
  end.

(** The transaction a call names. *)
Definition call_txn (c : Call) : option Z :=
  match c with
  | CallBegin req => Some (begin_txn_id req)
  | CallEncode _ txn _ | CallForget _ txn _ | CallLink txn _ | CallUnlink txn _ | CallLens txn => Some txn
  | CallCommit _ _ req => Some (commit_txn_id req)
  | CallAbort req => Some (abort_txn_id req)
  | CallDisconnect => None
  end.

Fixpoint run (s : TxnStore) (cs : list (OpsContext * Call)) : TxnStore * list Effect :=
  match cs with
  | [] => (s, [])
  | (ctx, c) :: cs =>
    let '(_, s', eff) := step s ctx c in
    let '(s'', eff') := run s' cs in (s'', eff ++ eff')
  end.

End handlers.
