(* ===== verification/TxnSpec.v ===== *)
(** What the transaction store promises: entries of other connections are out of
    reach, finished transactions stay finished, buffers stay bounded, and a
    transaction reaches the writer at most once. *)

From stdpp Require Import gmap relations.
From S2P Require Import Prelude Ids Request Access EdgeTable EdgeApply TxnStore.
Import OpError.

(** ** How a call moves one entry *)

(** [may] says that the caller owns the transaction and names it. *)
Inductive entry_step (may : bool) : TxnEntry -> TxnEntry -> Prop :=
| es_expire e : te_state e = Active -> entry_step may e (expire e)
| es_bump e z : may = true -> te_state e = Active -> entry_step may e (set_expires e z)
| es_write e b b' : may = true -> te_state e = Active -> te_buffer e = Some b ->
    entry_step may e (set_buffer e (Some b'))
| es_take e : may = true -> te_state e = Active -> entry_step may e (set_buffer e None)
| es_finish e st r : may = true -> te_state e = Active -> st <> Active ->
    entry_step may e (set_state_buffer e st None (Some r)).

Abbreviation moves may := (rtc (entry_step may)).

Lemma moves_terminal may e e' : moves may e e' -> te_state e <> Active -> e' = e.
Proof. intros H. induction H as [|e e1 e2 H _ IH]; [done|]. intros Ht. by destruct H. Qed.

Lemma moves_taken may e e' : moves may e e' -> te_buffer e = None -> te_buffer e' = None.
Proof.
  intros H. induction H as [|e e1 e2 H _ IH]; [done|]. intros Hb. apply IH.
  destruct H; simpl; congruence.
Qed.

Lemma moves_connection may e e' : moves may e e' -> te_connection_id e' = te_connection_id e.
Proof. intros H. induction H as [|e e1 e2 H _ IH]; [done|]. rewrite IH. by destruct H. Qed.

Lemma moves_frozen may e e' :
  moves may e e' -> te_delegated e' = te_delegated e /\ te_started_at e' = te_started_at e
  /\ te_timeout_seconds e' = te_timeout_seconds e.
Proof. intros H. induction H as [|e e1 e2 H _ IH]; [done|]. destruct H; simpl in *; naive_solver. Qed.

Lemma moves_foreign e e' : moves false e e' -> e' = e \/ te_state e = Active /\ e' = expire e.
Proof.
  intros H. destruct H as [|e e1 e2 H Hr]; [by left|].
  inversion H; subst; try done. right. split; [done|]. by apply (moves_terminal false _ _ Hr).
Qed.

(** ** How a call moves the store *)

(** A final answer is only recorded on a finished transaction. *)
Definition final_ok (e : TxnEntry) : Prop := te_final_response e <> None -> te_state e <> Active.
Definition finals (s : TxnStore) : Prop := forall id e, s !! id = Some e -> final_ok e.

Lemma moves_final may e e' : moves may e e' -> final_ok e -> final_ok e'.
Proof.
  intros H. induction H as [|e e1 e2 H _ IH]; [done|]. intros Hf. apply IH.
  unfold final_ok in *. destruct H; simpl; naive_solver.
Qed.

(** No entry is removed, and each moves by steps the caller may take; [t] is
    the transaction the call names. *)
Definition entries_move (conn : Z) (t : option Z) (s s' : TxnStore) : Prop :=
  forall id e, s !! id = Some e ->
    exists e', s' !! id = Some e'
      /\ moves (txn_owned_by (te_connection_id e) conn
                && bool_decide (t = Some id \/ t = None /\ te_connection_id e = conn)) e e'.

Definition evolves (conn : Z) (t : option Z) (s s' : TxnStore) : Prop :=
  entries_move conn t s s' /\ (finals s -> finals s').

Lemma evolves_refl conn t s : evolves conn t s s.
Proof. split; [|done]. intros id e He. by exists e. Qed.

Lemma evolves_trans conn t s1 s2 s3 :
  evolves conn t s1 s2 -> evolves conn t s2 s3 -> evolves conn t s1 s3.
Proof.
  intros [H1 F1] [H2 F2]. split; [|auto]. intros id e He. destruct (H1 id e He) as (e1 & He1 & M1).
  destruct (H2 id e1 He1) as (e2 & He2 & M2). exists e2. split; [done|].
  rewrite (moves_connection _ _ _ M1) in M2. by etransitivity.
Qed.

Lemma sweep_moves may now e : moves may e (sweep_entry now e).
Proof.
  unfold sweep_entry. destruct (decide (te_state e = Active)) as [Ha|Ha].
  - destruct (te_expires_at e <=? now); [|by rewrite andb_false_r].
    rewrite bool_decide_true by done. by apply rtc_once, es_expire.
  - by rewrite bool_decide_false.
Qed.

Lemma evolves_fmap conn t s (f : TxnEntry -> TxnEntry) :
  (forall id e, moves (txn_owned_by (te_connection_id e) conn
     && bool_decide (t = Some id \/ t = None /\ te_connection_id e = conn)) e (f e)) ->
  evolves conn t s (f <$> s).
Proof.
  intros Hf. split.
  - intros id e He. exists (f e). split; [by rewrite lookup_fmap, He|apply Hf].
  - intros Hs id e. rewrite lookup_fmap. destruct (s !! id) as [e0|] eqn:He; [|done].
    intros [= <-]. by apply (moves_final _ e0 _ (Hf id e0)), (Hs id).
Qed.

Lemma evolves_sweep conn t s now : evolves conn t s (sweep_expired_locked s now).
Proof. apply evolves_fmap. intros id e. apply sweep_moves. Qed.

(** Writing one entry the caller owns. *)
Lemma evolves_insert conn txn s e e' :
  s !! txn = Some e -> txn_owned_by (te_connection_id e) conn = true ->
  moves true e e' -> evolves conn (Some txn) s (<[txn := e']> s).
Proof.
  intros He Ho Hm. split.
  - intros id e0 H0. destruct (decide (id = txn)) as [->|Hne].
    + rewrite He in H0. injection H0 as <-. exists e'. rewrite lookup_insert_eq. split; [done|].
      rewrite Ho, bool_decide_true by auto. done.
    + exists e0. by rewrite lookup_insert_ne.
  - intros Hs id e0 [[<- <-]|[_ H0]]%lookup_insert_Some; [|by apply (Hs id)].
    by apply (moves_final _ e _ Hm), (Hs txn).
Qed.

(** ** A small logic for store operations *)

Definition keeps {A} (R : TxnStore -> TxnStore -> Prop) (m : M A) : Prop := forall s, R s (m s).2.

Section keeps.
Context (conn txn : Z).
Abbreviation R := (evolves conn (Some txn)).

Lemma keeps_ret {A} (a : A) : keeps R (ret a).
Proof. intros s. apply evolves_refl. Qed.
Lemma keeps_fail {A} e : keeps R (fail (A := A) e).
Proof. intros s. apply evolves_refl. Qed.
Lemma keeps_lift {A} (r : result A OpError) : keeps R (lift r).
Proof. intros s. apply evolves_refl. Qed.
Lemma keeps_bind {A B} (m : M A) (k : A -> M B) :
  keeps R m -> (forall a, keeps R (k a)) -> keeps R (bind m k).
Proof.
  intros Hm Hk s. unfold bind. specialize (Hm s). destruct (m s) as [[a|e] s1]; [|done].
  eapply evolves_trans; [done|]. apply Hk.
Qed.
Lemma keeps_or_false m : keeps R m -> keeps R (or_false m).
Proof. intros Hm s. specialize (Hm s). unfold or_false. by destruct (m s) as [[]]. Qed.

Lemma keeps_validate now : keeps R (validate_active now txn conn).
Proof.
  intros s. unfold validate_active. eapply evolves_trans; [apply (evolves_sweep _ _ s now)|].
  set (s1 := sweep_expired_locked s now). destruct (s1 !! txn) as [e|] eqn:He; [|apply evolves_refl].
  destruct (txn_owned_by _ _) eqn:Ho; [|apply evolves_refl]. cbn [negb].
  destruct (te_state e) eqn:Hs; try apply evolves_refl.
  eapply evolves_insert; [done..|]. by apply rtc_once, es_bump.
Qed.

Lemma keeps_with_buffer {A} now (f : TxnBuffer -> result (A * TxnBuffer) OpError) :
  keeps R (with_buffer now txn conn f).
Proof.
  intros s. unfold with_buffer. eapply evolves_trans; [apply (evolves_sweep _ _ s now)|].
  set (s1 := sweep_expired_locked s now). destruct (s1 !! txn) as [e|] eqn:He; [|apply evolves_refl].
  destruct (txn_owned_by _ _) eqn:Ho; [|apply evolves_refl]. cbn [negb].
  destruct (te_state e) eqn:Hs; try apply evolves_refl.
  destruct (te_buffer e) as [b|] eqn:Hb; [|apply evolves_refl].
  destruct (f b) as [[a b']|]; [|apply evolves_refl].
  eapply evolves_insert; [done..|].
  eapply rtc_l; [by eapply (es_write true e b b')|]. by apply rtc_once, es_bump.
Qed.

Lemma keeps_read {A} now (f : TxnBuffer -> result A OpError) : keeps R (read_buffer now txn conn f).
Proof. apply keeps_with_buffer. Qed.

End keeps.

Create HintDb keeps.
#[export] Hint Resolve keeps_ret keeps_fail keeps_lift keeps_validate keeps_with_buffer keeps_read
  keeps_or_false : keeps.

(** Steps through a handler, bind by bind. *)
Ltac keeps :=
  repeat first
    [ apply keeps_bind; [solve [auto with keeps]|intros ?]
    | progress (auto with keeps)
    | match goal with |- keeps _ (match ?x with _ => _ end) => destruct x end ].

Lemma handlers_keep `{Crates} ctx txn :
  (forall b req, keeps (evolves (ctx_connection_id ctx) (Some txn)) (handle_encode_in_txn b ctx txn req))
  /\ (forall b req, keeps (evolves (ctx_connection_id ctx) (Some txn)) (handle_forget_in_txn b ctx txn req))
  /\ (forall req, keeps (evolves (ctx_connection_id ctx) (Some txn)) (handle_link ctx txn req))
  /\ (forall req, keeps (evolves (ctx_connection_id ctx) (Some txn)) (handle_unlink_in_txn ctx txn req))
  /\ keeps (evolves (ctx_connection_id ctx) (Some txn)) (build_executor_with_lens ctx (Some txn)).
Proof.
  split_and!; intros; unfold handle_encode_in_txn, handle_forget_in_txn, handle_link, handle_link_in_txn,
    handle_unlink_in_txn, build_executor_with_lens; keeps.
Qed.

Lemma evolves_new conn t s id e :
  s !! id = None -> te_final_response e = None -> evolves conn t s (<[id := e]> s).
Proof.
  intros Hn Hf. split.
  - intros id' e' He. exists e'. split; [|done]. by rewrite lookup_insert_ne by congruence.
  - intros Hs id' e' [[<- <-]|[_ H0]]%lookup_insert_Some; [by intros []|by apply (Hs id')].
Qed.

Lemma begin_evolves ctx req s :
  evolves (ctx_connection_id ctx) (Some (begin_txn_id req)) s (handle_txn_begin ctx req s).2.
Proof.
  unfold handle_txn_begin. eapply evolves_trans; [apply (evolves_sweep _ _ s (ctx_clock ctx 0))|].
  destruct (_ !! _) eqn:E; [apply evolves_refl|]. by apply evolves_new.
Qed.

Lemma abort_evolves ctx req s :
  evolves (ctx_connection_id ctx) (Some (abort_txn_id req)) s (handle_txn_abort ctx req s).2.
Proof.
  unfold handle_txn_abort. eapply evolves_trans; [apply (evolves_sweep _ _ s (ctx_clock ctx 0))|].
  destruct (_ !! _) as [e|] eqn:E; [|apply evolves_refl].
  destruct (txn_owned_by _ _) eqn:Ho; [|apply evolves_refl]. cbn [negb].
  destruct (bool_decide (te_state e = Active)) eqn:Ha; cbn [negb];
    [|by destruct (te_final_response e) as [[]|]; apply evolves_refl].
  apply bool_decide_eq_true in Ha.
  destruct (te_final_response e) as [[]|]; try apply evolves_refl.
  all: eapply evolves_insert; [done..|]; by apply rtc_once, es_finish.
Qed.

(** The three ends of a commit's entry. *)
Lemma finish_moves e st r :
  te_state e = Active -> st <> Active ->
  moves true e (set_state_buffer (set_buffer e None) st (te_buffer (set_buffer e None)) (Some r)).
Proof.
  intros Ha Hst. eapply rtc_l; [by apply (es_take true e)|].
  by apply rtc_once, (es_finish true (set_buffer e None)).
Qed.

Lemma cleanup_no_submit d buf w : Submitted w ∉ cleanup d buf.
Proof.
  unfold cleanup. rewrite list_elem_of_In, in_concat. intros (l & Hl & Hw).
  apply in_map_iff in Hl as (id & <- & _). destruct d; simpl in Hw; naive_solver.
Qed.

(** COMMIT by cases: it changes nothing but deadlines, or it takes a buffer. *)
Lemma commit_cases writer d ctx req s :
  let '(r, s', eff) := handle_txn_commit writer d ctx req s in
  let s1 := sweep_expired_locked s (ctx_clock ctx 0) in
  (s' = s1 /\ eff = []
   /\ (r = Err TxnNotFound \/ r = Err TxnExpired
       \/ exists e at_ ops, s1 !! commit_txn_id req = Some e
          /\ te_final_response e = Some (FinalCommit at_ ops)
          /\ r = Ok (CommitResponse (commit_txn_id req) at_ ops)))
  \/ exists e buf e', s1 !! commit_txn_id req = Some e /\ te_state e = Active
     /\ te_buffer e = Some buf
     /\ txn_owned_by (te_connection_id e) (ctx_connection_id ctx) = true
     /\ s' = <[commit_txn_id req := e']> s1 /\ moves true e e' /\ te_buffer e' = None
     /\ (eff = [] \/ exists w rest, eff = Submitted w :: rest /\ tw_write_id w = commit_txn_id req
           /\ tw_phases w = build_phases buf /\ ops_count buf <= MAX_TXN_OPS
           /\ (forall w', Submitted w' ∉ rest)
           /\ te_state e' <> Active)
     /\ (forall a, r = Ok a -> exists at_, a = CommitResponse (commit_txn_id req) at_ (ops_count buf)
           /\ te_final_response e' = Some (FinalCommit at_ (ops_count buf))
           /\ te_state e' = Committed).
Proof.
  unfold handle_txn_commit. set (s1 := sweep_expired_locked s (ctx_clock ctx 0)).
  destruct (s1 !! commit_txn_id req) as [e|] eqn:He; [|left; auto].
  destruct (txn_owned_by _ _) eqn:Ho; cbn [negb]; [|left; auto].
  destruct (match te_final_response e with Some (FinalCommit _ _) => true | _ => false end) eqn:Hf.
  { destruct (te_final_response e) as [[at_ ops|]|] eqn:Hr; try done.
    left. split_and!; [done..|]. right. right. by exists e, at_, ops. }
  assert (forall A (x : Z -> Z -> A) (y : A), match te_final_response e with
     Some (FinalCommit a b) => x a b | _ => y end = y) as Hm
    by (intros; by destruct (te_final_response e) as [[]|]).
  rewrite Hm. clear Hm Hf.
  destruct (bool_decide (te_state e = Active)) eqn:Ha; cbn [negb]; [|left; auto].
  apply bool_decide_eq_true in Ha. destruct (te_buffer e) as [buf|] eqn:Hb; [|left; auto].
  rewrite !(alter_insert_eq).
  destruct (MAX_TXN_OPS <? ops_count buf) eqn:Hops.
  { right. exists e, buf. eexists. split_and!; [done..|by apply finish_moves|done|by left|done]. }
  apply Z.ltb_ge in Hops.
  set (id3 := match te_delegated e with Some d0 => _ | None => _ end).
  destruct id3 as [[space namespace] space_string]. destruct writer as [submit|].
  2: { right. exists e, buf. eexists. split_and!; [done..|by apply rtc_once, es_take|done|by left|done]. }
  destruct (submit _) as [[]|err].
  - right. exists e, buf. eexists. split_and!; [done..|by apply finish_moves|done| |].
    + right. eexists _, _. split_and!; [done..| |done]. intros w'. apply cleanup_no_submit.
    + intros a [= <-]. by eexists.
  - right. exists e, buf. eexists. split_and!; [done..|by apply finish_moves|done| |done].
    right. eexists _, _. split_and!; [done..| |done]. intros w'. apply not_elem_of_nil.
Qed.

Lemma commit_evolves writer d ctx req s :
  evolves (ctx_connection_id ctx) (Some (commit_txn_id req)) s (handle_txn_commit writer d ctx req s).1.2.
Proof.
  pose proof (commit_cases writer d ctx req s) as Hc.
  destruct (handle_txn_commit writer d ctx req s) as [[r s'] eff]. cbn [fst snd].
  eapply evolves_trans; [apply (evolves_sweep _ _ s (ctx_clock ctx 0))|].
  destruct Hc as [[-> _]|(e & buf & e' & He & _ & _ & Ho & -> & Hm & _)]; [apply evolves_refl|].
  by eapply evolves_insert.
Qed.

Lemma disconnect_evolves conn s : evolves conn None s (abort_orphaned_for_connection conn s).2.
Proof.
  unfold abort_orphaned_for_connection. destruct (conn =? 0); [apply evolves_refl|]. cbn [snd].
  apply evolves_fmap. intros id e.
  destruct (orphaned conn e) eqn:Ho; [|done]. unfold orphaned in Ho.
  apply andb_true_iff in Ho as [Hc Ha]. apply Z.eqb_eq in Hc. apply bool_decide_eq_true in Ha.
  rewrite bool_decide_true by auto. unfold txn_owned_by. rewrite (proj2 (Z.eqb_eq _ conn)) by done.
  rewrite orb_true_r. by apply rtc_once, es_finish.
Qed.

Section theorems.
Context `{Crates}.

Lemma step_evolves s ctx c :
  evolves (ctx_connection_id ctx) (call_txn c) s (step s ctx c).1.2.
Proof.
  destruct c as [req|b txn req|b txn req|txn req|txn req|txn|w d req|req|]; cbn [step call_txn].
  - pose proof (begin_evolves ctx req s). by destruct (handle_txn_begin ctx req s).
  - pose proof (proj1 (handlers_keep ctx txn) b req s). by destruct (handle_encode_in_txn b ctx txn req s).
  - pose proof (proj1 (proj2 (handlers_keep ctx txn)) b req s).
    by destruct (handle_forget_in_txn b ctx txn req s).
  - pose proof (proj1 (proj2 (proj2 (handlers_keep ctx txn))) req s). by destruct (handle_link ctx txn req s).
  - pose proof (proj1 (proj2 (proj2 (proj2 (handlers_keep ctx txn)))) req s).
    by destruct (handle_unlink_in_txn ctx txn req s).
  - pose proof (proj2 (proj2 (proj2 (proj2 (handlers_keep ctx txn)))) s).
    by destruct (build_executor_with_lens ctx (Some txn) s).
  - pose proof (commit_evolves w d ctx req s). by destruct (handle_txn_commit w d ctx req s) as [[? ?] ?].
  - pose proof (abort_evolves ctx req s). by destruct (handle_txn_abort ctx req s).
  - pose proof (disconnect_evolves (ctx_connection_id ctx) s). by destruct (abort_orphaned_for_connection _ s).
Qed.

(** Effects come from COMMIT alone, and a submit finishes the entry it names. *)
Lemma step_submits s ctx c w :
  Submitted w ∈ (step s ctx c).2 ->
  exists e buf e', s !! tw_write_id w = Some e /\ te_state e = Active /\ te_buffer e = Some buf
    /\ txn_owned_by (te_connection_id e) (ctx_connection_id ctx) = true
    /\ tw_phases w = build_phases buf
    /\ (step s ctx c).1.2 !! tw_write_id w = Some e' /\ te_state e' <> Active
    /\ te_connection_id e' = te_connection_id e.
Proof.
  destruct c as [req|b txn req|b txn req|txn req|txn req|txn|wr d req|req|]; cbn [step].
  7: {
    pose proof (commit_cases wr d ctx req s) as Hc. destruct (handle_txn_commit wr d ctx req s) as [[r s'] eff].
    cbn [fst snd]. intros Hw.
    destruct Hc as [(_ & -> & _)|(e & buf & e' & He & Ha & Hb & Ho & -> & Hm & Hn & Heff & _)];
      [by apply not_elem_of_nil in Hw|].
    destruct Heff as [->|(w0 & rest & -> & Hid & Hph & _ & Hrest & Hs)]; [by apply not_elem_of_nil in Hw|].
    apply elem_of_cons in Hw as [[= ->]|Hw]; [|by apply Hrest in Hw].
    unfold sweep_expired_locked in He. rewrite lookup_fmap in He. rewrite Hid.
    destruct (s !! commit_txn_id req) as [e0|]; [|done]. injection He as He.
    assert (e0 = e) as ->.
    { unfold sweep_entry in He. destruct (_ && _); [by subst e|done]. }
    exists e, buf, e'. rewrite lookup_insert_eq. split_and!; try done. by apply (moves_connection true). }
  all: repeat match goal with |- context [let '(_, _) := ?x in _] => destruct x end;
    cbn [snd]; intros Hw; by apply not_elem_of_nil in Hw.
Qed.

(** ** Isolation *)

Lemma sweep_lookup s now id :
  sweep_expired_locked s now !! id = sweep_entry now <$> s !! id.
Proof. apply lookup_fmap. Qed.

Lemma sweep_entry_connection now e : te_connection_id (sweep_entry now e) = te_connection_id e.
Proof. unfold sweep_entry. by destruct (_ && _). Qed.

Lemma sweep_entry_timeout now e : te_timeout_seconds (sweep_entry now e) = te_timeout_seconds e.
Proof. unfold sweep_entry. by destruct (_ && _). Qed.

Lemma sweep_entry_started now e : te_started_at (sweep_entry now e) = te_started_at e.
Proof. unfold sweep_entry. by destruct (_ && _). Qed.

Lemma validate_foreign now txn conn s e :
  s !! txn = Some e -> txn_owned_by (te_connection_id e) conn = false ->
  (validate_active now txn conn s).1 = Err TxnNotFound.
Proof.
  intros He Ho. unfold validate_active. rewrite sweep_lookup, He. cbn [fmap option_fmap option_map].
  by rewrite sweep_entry_connection, Ho.
Qed.

Lemma bind_validate_foreign {A} now txn conn s e (k : Z -> M A) :
  s !! txn = Some e -> txn_owned_by (te_connection_id e) conn = false ->
  (bind (validate_active now txn conn) k s).1 = Err TxnNotFound.
Proof.
  intros He Ho. pose proof (validate_foreign now txn conn s e He Ho) as Hv. unfold bind.
  destruct (validate_active now txn conn s) as [r s1]. cbn [fst] in Hv. by subst r.
Qed.

Lemma bind_lift_foreign {A B} (r : result A OpError) (k : A -> M B) s :
  (forall a, (k a s).1 = Err TxnNotFound) ->
  (bind (lift r) k s).1 = Err TxnNotFound \/ exists e, r = Err e /\ (bind (lift r) k s).1 = Err e.
Proof. intros Hk. unfold bind, lift. destruct r as [a|e]; [left; apply Hk|right; by exists e]. Qed.

(** What a foreign connection is told of the entry [e]: that there is none, or
    what is wrong with its own request; but a BEGIN of the same id is answered
    with the timeout and the start time of [e]. *)
Definition foreign_reply (e : TxnEntry) (c : Call) (r : Reply) : Prop :=
  match c with
  | CallBegin req =>
    r = ReplyAnswer (BeginResponse (begin_txn_id req) (te_timeout_seconds e) (te_started_at e))
  | CallEncode b _ req =>
    r = ReplyErr TxnNotFound
    \/ exists err, plan_encode_inner b (encode_text req) = Err err /\ r = ReplyErr (OpError.Plan err)
  | CallForget b _ req =>
    r = ReplyErr TxnNotFound
    \/ exists err, plan_forget_inner b req = Err err /\ r = ReplyErr (OpError.Plan err)
  | CallLink _ req =>
    r = ReplyErr TxnNotFound
    \/ exists e, validate_weight (link_weight req) (edge_kind (link_kind req)) = Err e /\ r = ReplyErr e
  | _ => r = ReplyErr TxnNotFound
  end.

Lemma step_foreign s ctx c id e :
  s !! id = Some e -> txn_owned_by (te_connection_id e) (ctx_connection_id ctx) = false ->
  call_txn c = Some id -> foreign_reply e c (step s ctx c).1.1.
Proof.
  intros He Ho Hid.
  destruct c as [req|b txn req|b txn req|txn req|txn req|txn|w d req|req|]; simplify_eq/=.
  - unfold handle_txn_begin. rewrite sweep_lookup, He. cbn.
    by rewrite sweep_entry_timeout, sweep_entry_started.
  - destruct (bind_lift_foreign (map_err OpError.Plan (plan_encode_inner b (encode_text req))) _ s
      (fun _ => bind_validate_foreign _ _ _ s e _ He Ho) : (handle_encode_in_txn b ctx id req s).1 = _ \/ _)
      as [Hr|(err & Hm & Hr)].
    all: unfold handle_encode_in_txn in *; destruct (bind (lift _) _ s) as [r s']; cbn [fst] in *; subst r.
    + by left.
    + right. destruct (plan_encode_inner b (encode_text req)); simplify_eq/=. eauto.
  - destruct (bind_lift_foreign (map_err OpError.Plan (plan_forget_inner b req)) _ s
      (fun _ => bind_validate_foreign _ _ _ s e _ He Ho) : (handle_forget_in_txn b ctx id req s).1 = _ \/ _)
      as [Hr|(err & Hm & Hr)].
    all: unfold handle_forget_in_txn in *; destruct (bind (lift _) _ s) as [r s']; cbn [fst] in *; subst r.
    + by left.
    + right. destruct (plan_forget_inner b req); simplify_eq/=. eauto.
  - destruct (bind_lift_foreign (validate_weight (link_weight req) (edge_kind (link_kind req))) _ s
      (fun _ => bind_validate_foreign _ _ _ s e _ He Ho) : (handle_link ctx id req s).1 = _ \/ _)
      as [Hr|(err & Hm & Hr)].
    all: unfold handle_link in *; destruct (bind (lift _) _ s) as [r s']; cbn [fst] in *; subst r.
    + by left.
    + right. eauto.
  - pose proof (bind_validate_foreign _ _ _ s e _ He Ho : (handle_unlink_in_txn ctx id req s).1 = _) as Hr.
    destruct (handle_unlink_in_txn ctx id req s) as [r s']. cbn [fst] in *. by subst r.
  - pose proof (bind_validate_foreign _ _ _ s e _ He Ho
      : (build_executor_with_lens ctx (Some id) s).1 = _) as Hr.
    unfold build_executor_with_lens in *.
    destruct (bind (validate_active _ _ _) _ s) as [r s']. cbn [fst] in *. by subst r.
  - unfold handle_txn_commit. rewrite sweep_lookup, He. cbn [fmap option_fmap option_map].
    by rewrite sweep_entry_connection, Ho.
  - unfold handle_txn_abort. rewrite sweep_lookup, He. cbn [fmap option_fmap option_map].
    by rewrite sweep_entry_connection, Ho.
Qed.

(** C6: A transaction is out of reach of other connections.  Whatever a connection
    calls (BEGIN, the four writes, the read lens, COMMIT, ABORT, or its own
    disconnect), an entry opened by another session is left as it is or, while
    active, marked expired; none of its work is submitted; and a call that names
    it is refused as for an id that does not exist, unless the request itself is
    invalid, with the exception of BEGIN, which is answered as if it had
    succeeded, with the timeout and the start time of the entry. *)
Theorem txn_isolated (s : TxnStore) (ctx : OpsContext) (c : Call) (id : Z) (e : TxnEntry)
    (He : s !! id = Some e) (Hopen : te_connection_id e <> 0)
    (Hforeign : te_connection_id e <> ctx_connection_id ctx) :
  let '(r, s', eff) := step s ctx c in
  (s' !! id = Some e \/ te_state e = Active /\ s' !! id = Some (expire e))
  /\ (forall w, Submitted w ∈ eff -> tw_write_id w <> id)
  /\ (call_txn c = Some id -> foreign_reply e c r).
Proof.
  assert (txn_owned_by (te_connection_id e) (ctx_connection_id ctx) = false) as Ho
    by (unfold txn_owned_by; lia).
  pose proof (proj1 (step_evolves s ctx c) id e He) as (e' & He' & Hm). rewrite Ho in Hm.
  pose proof (step_foreign s ctx c id e He Ho) as Hr.
  pose proof (fun w => step_submits s ctx c w) as Hsub.
  destruct (step s ctx c) as [[r s'] eff]. cbn [fst snd andb] in *. split_and!; [| |done].
  - destruct (moves_foreign e e' Hm) as [->|[Ha ->]]; auto.
  - intros w Hw E. destruct (Hsub w Hw) as (e0 & _ & _ & He0 & _ & _ & Ho' & _). congruence.
Qed.

(** ** Termination is final *)

Lemma run_evolves s cs id e :
  s !! id = Some e -> exists e', (run s cs).1 !! id = Some e'
    /\ te_connection_id e' = te_connection_id e
    /\ (te_state e <> Active -> e' = e) /\ (te_buffer e = None -> te_buffer e' = None).
Proof.
  revert s e. induction cs as [|[ctx c] cs IH]; intros s e He; [by exists e|]. cbn [run].
  destruct (proj1 (step_evolves s ctx c) id e He) as (e1 & He1 & M1).
  destruct (step s ctx c) as [[r s1] eff]. cbn [fst snd] in He1.
  destruct (IH s1 e1 He1) as (e2 & He2 & Hc & Ht & Hb). destruct (run s1 cs) as [s2 eff']. cbn [fst] in *.
  exists e2. split_and!; [done| | |].
  - by rewrite Hc, (moves_connection _ _ _ M1).
  - intros Hs. pose proof (moves_terminal _ _ _ M1 Hs). subst e1. auto.
  - intros Hn. apply Hb. by apply (moves_taken _ _ _ M1).
Qed.

Definition submitted (eff : list Effect) : list TxnWrite :=
  omap (fun x => match x with Submitted w => Some w | _ => None end) eff.

Lemma submitted_elem eff w : w ∈ submitted eff <-> Submitted w ∈ eff.
Proof.
  unfold submitted. rewrite list_elem_of_omap. split.
  - intros (x & Hx & E). destruct x; naive_solver.
  - intros Hw. by exists (Submitted w).
Qed.

(** A finished transaction is never submitted again. *)
Lemma run_no_submit s cs id e :
  s !! id = Some e -> te_state e <> Active \/ te_buffer e = None ->
  forall w, w ∈ submitted (run s cs).2 -> tw_write_id w <> id.
Proof.
  revert s e. induction cs as [|[ctx c] cs IH]; intros s e He Hf w Hw; [by apply not_elem_of_nil in Hw|].
  cbn [run] in Hw. destruct (proj1 (step_evolves s ctx c) id e He) as (e1 & He1 & M1).
  pose proof (step_submits s ctx c w) as Hsub. destruct (step s ctx c) as [[r s1] eff].
  destruct (run s1 cs) as [s2 eff'] eqn:Er. cbn [fst snd] in *.
  apply submitted_elem, elem_of_app in Hw as [Hw|Hw].
  - intros E. destruct (Hsub Hw) as (e0 & buf & _ & He0 & Ha & Hb & _). rewrite E, He in He0.
    injection He0 as <-. destruct Hf; congruence.
  - apply (IH s1 e1 He1); [|rewrite Er; by apply submitted_elem].
    destruct Hf as [Hs|Hn]; [|right; by apply (moves_taken _ _ _ M1)].
    left. by rewrite (moves_terminal _ _ _ M1 Hs).
Qed.

(** ** Bounded buffers *)

Definition buffer_ok (b : TxnBuffer) : Prop :=
  ops_count b <= MAX_TXN_OPS /\ Forall (fun e => be_edges e = []) (encodes b).

Definition bounded (s : TxnStore) : Prop :=
  forall id e b, s !! id = Some e -> te_buffer e = Some b -> buffer_ok b.

(** There is room for one more operation in [txn]. *)
Definition room (txn : Z) (s : TxnStore) : Prop :=
  bounded s /\ forall e b, s !! txn = Some e -> te_buffer e = Some b -> ops_count b < MAX_TXN_OPS.

(** A triple; on an error the store must still be bounded. *)
Definition triple {A} (P : TxnStore -> Prop) (m : M A) (Q : TxnStore -> Prop) : Prop :=
  forall s, P s -> match m s with (Ok _, s') => Q s' | (Err _, s') => bounded s' end.

Definition pushes (f : TxnBuffer -> TxnBuffer) : Prop :=
  forall b, buffer_ok b -> ops_count b < MAX_TXN_OPS -> buffer_ok (f b).

Lemma triple_bind {A B} P Q R (m : M A) (k : A -> M B) :
  triple P m Q -> (forall a, triple Q (k a) R) -> triple P (bind m k) R.
Proof.
  intros Hm Hk s Hs. unfold bind. specialize (Hm s Hs). destruct (m s) as [[a|e] s1]; [|done].
  by apply Hk.
Qed.

Lemma triple_ret {A} (P : TxnStore -> Prop) (a : A) : triple P (ret a) P.
Proof. by intros s. Qed.
Lemma triple_fail_bounded {A} Q e : triple bounded (fail (A := A) e) Q.
Proof. by intros s. Qed.
Lemma triple_fail_room {A} txn Q e : triple (room txn) (fail (A := A) e) Q.
Proof. by intros s []. Qed.
Lemma triple_lift_bounded {A} (r : result A OpError) : triple bounded (lift r) bounded.
Proof. intros s Hs. unfold lift. by destruct r. Qed.
Lemma triple_lift_room {A} txn (r : result A OpError) : triple (room txn) (lift r) (room txn).
Proof. intros s Hs. unfold lift. destruct r; [done|]. apply Hs. Qed.

Lemma room_bounded {A} txn (m : M A) Q : triple bounded m Q -> triple (room txn) m Q.
Proof. intros Hm s [Hs _]. by apply Hm. Qed.

Lemma sweep_buffer now e b : te_buffer (sweep_entry now e) = Some b -> te_buffer e = Some b.
Proof. unfold sweep_entry. by destruct (_ && _). Qed.

Lemma bounded_sweep s now : bounded s -> bounded (sweep_expired_locked s now).
Proof.
  intros Hs id e b. rewrite sweep_lookup. destruct (s !! id) as [e0|] eqn:He; [|done].
  intros [= <-] Hb%sweep_buffer. by apply (Hs id e0).
Qed.

Lemma room_sweep txn s now : room txn s -> room txn (sweep_expired_locked s now).
Proof.
  intros [Hs Hr]. split; [by apply bounded_sweep|]. intros e b. rewrite sweep_lookup.
  destruct (s !! txn) as [e0|] eqn:He; [|done]. intros [= <-] Hb%sweep_buffer. by apply (Hr e0).
Qed.

Lemma bounded_insert s txn e :
  bounded s -> (forall b, te_buffer e = Some b -> buffer_ok b) -> bounded (<[txn := e]> s).
Proof.
  intros Hs Hb id e' b [[<- <-]|[_ He]]%lookup_insert_Some; [apply Hb|by apply (Hs id)].
Qed.

Lemma room_insert txn s e e' :
  room txn s -> s !! txn = Some e -> te_buffer e' = te_buffer e -> room txn (<[txn := e']> s).
Proof.
  intros [Hs Hr] He Hb. split.
  - apply bounded_insert; [done|]. rewrite Hb. intros b. by apply (Hs txn e b).
  - intros e0 b. rewrite lookup_insert_eq. intros [= <-]. rewrite Hb. by apply Hr.
Qed.

Lemma validate_bounded now txn conn : triple bounded (validate_active now txn conn) bounded.
Proof.
  intros s Hs. apply (bounded_sweep s now) in Hs. unfold validate_active.
  destruct (_ !! txn) as [e|] eqn:He; [|done]. destruct (negb _); [done|].
  destruct (te_state e); try done. apply bounded_insert; [done|]. intros b. exact (Hs txn e b He).
Qed.

Lemma with_buffer_push {A} now txn conn (a : A) f :
  pushes f -> triple (room txn) (with_buffer now txn conn (fun b => Ok (a, f b))) bounded.
Proof.
  intros Hf s Hs. apply (room_sweep txn s now) in Hs as [Hs Hr]. unfold with_buffer.
  destruct (_ !! txn) as [e|] eqn:He; [|done]. destruct (negb _); [done|].
  destruct (te_state e); try done. destruct (te_buffer e) as [b|] eqn:Hb; [|done].
  apply bounded_insert; [done|]. intros b' [= <-]. apply Hf; [by apply (Hs txn e)|by apply (Hr e)].
Qed.

Lemma read_any {A} now txn conn (f : TxnBuffer -> result A OpError) s :
  let '(r, s') := read_buffer now txn conn f s in
  (bounded s -> bounded s') /\ (room txn s -> room txn s')
  /\ (forall a, r = Ok a -> exists e b, s' !! txn = Some e /\ te_buffer e = Some b /\ f b = Ok a).
Proof.
  unfold read_buffer, with_buffer.
  pose proof (bounded_sweep s now) as Hs. pose proof (room_sweep txn s now) as Hr.
  set (s1 := sweep_expired_locked s now) in *. destruct (s1 !! txn) as [e|] eqn:He; [|naive_solver].
  destruct (negb _); [naive_solver|]. destruct (te_state e); try naive_solver.
  destruct (te_buffer e) as [b|] eqn:Hb; [|naive_solver]. destruct (f b) as [a|] eqn:Hf; [|naive_solver].
  split_and!.
  - intros Hbd. apply bounded_insert; [auto|]. intros b' Hb'. apply (Hs Hbd txn e b' He). by rewrite Hb.
  - intros Hrm. by apply (room_insert txn s1 e); auto.
  - intros a' [= <-]. rewrite lookup_insert_eq. by eexists _, b.
Qed.

Lemma read_bounded {A} now txn conn (f : TxnBuffer -> result A OpError) :
  triple bounded (read_buffer now txn conn f) bounded.
Proof.
  intros s Hs. pose proof (read_any now txn conn f s) as Hr.
  destruct (read_buffer now txn conn f s) as [[a|e] s']; tauto.
Qed.

Lemma read_room {A} now txn conn (f : TxnBuffer -> result A OpError) :
  triple (room txn) (read_buffer now txn conn f) (room txn).
Proof.
  intros s Hs. pose proof (read_any now txn conn f s) as Hr.
  destruct (read_buffer now txn conn f s) as [[a|e] s']; [tauto|]. by apply Hr.
Qed.

Lemma or_false_room now txn conn f :
  triple (room txn) (or_false (read_buffer now txn conn f)) (room txn).
Proof.
  intros s Hs. pose proof (read_any now txn conn f s) as Hr. unfold or_false.
  destruct (read_buffer now txn conn f s) as [[a|e] s']; tauto.
Qed.

Lemma capacity_room now txn conn :
  triple bounded (read_buffer now txn conn check_capacity_for_push) (room txn).
Proof.
  intros s Hs. pose proof (read_any now txn conn check_capacity_for_push s) as Hr.
  destruct (read_buffer now txn conn check_capacity_for_push s) as [[a|e] s']; [|tauto].
  destruct Hr as (Hb & _ & Hok). split; [by apply Hb|].
  destruct (Hok a eq_refl) as (e & b & He & Hbuf & Hc). intros e' b' He' Hb'. simplify_eq.
  unfold check_capacity_for_push in Hc. destruct (Z.leb_spec MAX_TXN_OPS (ops_count b)); [done|lia].
Qed.

Lemma ops_count_min b :
  ops_count b = Z.min (Z.of_nat (length (encodes b) + length (forgets b) + length (links b)
                                 + length (unlinks b))) U32_MAX.
Proof.
  unfold ops_count. set (n := Z.of_nat _). destruct (Z.leb_spec n U32_MAX); lia.
Qed.

Lemma push_bounded f :
  (forall b, ops_count (f b) <= ops_count b + 1) ->
  (forall b, Forall (fun e => be_edges e = []) (encodes b) ->
     Forall (fun e => be_edges e = []) (encodes (f b))) -> pushes f.
Proof. intros Hn He b [_ Hb] Hr. split; [|by apply He]. specialize (Hn b). lia. Qed.

Ltac push :=
  apply push_bounded; unfold record_replay;
  [ intros ?; rewrite !ops_count_min; cbn [encodes forgets links unlinks]; rewrite ?length_app;
    cbn [length]; lia
  | intros ? Hf; cbn [encodes]; first [exact Hf | apply Forall_app_2; [exact Hf|by repeat constructor]] ].

Ltac triples :=
  repeat first
    [ eapply triple_bind;
        [ solve [ apply triple_lift_bounded | apply triple_lift_room | apply validate_bounded
                | apply capacity_room | apply read_bounded | apply read_room | apply or_false_room
                | apply with_buffer_push; push ]
        | intros ? ]
    | apply triple_ret | apply triple_fail_bounded | apply triple_fail_room
    | match goal with |- triple _ (match ?x with _ => _ end) _ => destruct x end ].

Lemma handlers_bounded ctx txn :
  (forall b req, triple bounded (handle_encode_in_txn b ctx txn req) bounded)
  /\ (forall b req, triple bounded (handle_forget_in_txn b ctx txn req) bounded)
  /\ (forall req, triple bounded (handle_link ctx txn req) bounded)
  /\ (forall req, triple bounded (handle_unlink_in_txn ctx txn req) bounded)
  /\ triple bounded (build_executor_with_lens ctx (Some txn)) bounded.
Proof.
  split_and!; intros; unfold handle_encode_in_txn, handle_forget_in_txn, handle_link, handle_link_in_txn,
    handle_unlink_in_txn, build_executor_with_lens; triples.
Qed.

Lemma triple_store {A} (m : M A) s : triple bounded m bounded -> bounded s -> bounded (m s).2.
Proof. intros Hm Hs. specialize (Hm s Hs). by destruct (m s) as [[]]. Qed.

Lemma begin_bounded ctx req s : bounded s -> bounded (handle_txn_begin ctx req s).2.
Proof.
  intros Hs. apply (bounded_sweep s (ctx_clock ctx 0)) in Hs. unfold handle_txn_begin.
  destruct (_ !! _); [done|]. apply bounded_insert; [done|]. intros b [= <-]. split; [done|constructor].
Qed.

Lemma commit_bounded writer d ctx req s :
  bounded s -> bounded (handle_txn_commit writer d ctx req s).1.2.
Proof.
  intros Hs. apply (bounded_sweep s (ctx_clock ctx 0)) in Hs.
  pose proof (commit_cases writer d ctx req s) as Hc.
  destruct (handle_txn_commit writer d ctx req s) as [[r s'] eff]. cbn [fst snd].
  destruct Hc as [[-> _]|(e & buf & e' & _ & _ & _ & _ & -> & _ & Hn & _)]; [done|].
  apply bounded_insert; [done|]. intros b. by rewrite Hn.
Qed.

Lemma abort_bounded ctx req s : bounded s -> bounded (handle_txn_abort ctx req s).2.
Proof.
  intros Hs. apply (bounded_sweep s (ctx_clock ctx 0)) in Hs. unfold handle_txn_abort.
  destruct (_ !! _) as [e|]; [|done]. destruct (negb _); [done|].
  destruct (te_final_response e) as [[]|]; try done; destruct (negb _); try done; by apply bounded_insert.
Qed.

Lemma disconnect_bounded conn s : bounded s -> bounded (abort_orphaned_for_connection conn s).2.
Proof.
  intros Hs. unfold abort_orphaned_for_connection. destruct (conn =? 0); [done|]. cbn [snd].
  intros id e b. rewrite lookup_fmap. destruct (s !! id) as [e0|] eqn:He; [|done].
  intros [= <-]. destruct (orphaned conn e0); [done|]. by apply (Hs id).
Qed.

Lemma step_bounded s ctx c : bounded s -> bounded (step s ctx c).1.2.
Proof.
  intros Hs.
  destruct c as [req|b txn req|b txn req|txn req|txn req|txn|w d req|req|]; cbn [step];
    try destruct (handlers_bounded ctx txn) as (He & Hf & Hl & Hu & Hx).
  - pose proof (begin_bounded ctx req s Hs). by destruct (handle_txn_begin ctx req s).
  - pose proof (triple_store _ s (He b req) Hs). by destruct (handle_encode_in_txn b ctx txn req s).
  - pose proof (triple_store _ s (Hf b req) Hs). by destruct (handle_forget_in_txn b ctx txn req s).
  - pose proof (triple_store _ s (Hl req) Hs). by destruct (handle_link ctx txn req s).
  - pose proof (triple_store _ s (Hu req) Hs). by destruct (handle_unlink_in_txn ctx txn req s).
  - pose proof (triple_store _ s Hx Hs). by destruct (build_executor_with_lens ctx (Some txn) s).
  - pose proof (commit_bounded w d ctx req s Hs). by destruct (handle_txn_commit w d ctx req s) as [[? ?] ?].
  - pose proof (abort_bounded ctx req s Hs). by destruct (handle_txn_abort ctx req s).
  - pose proof (disconnect_bounded (ctx_connection_id ctx) s Hs).
    by destruct (abort_orphaned_for_connection _ s).
Qed.

(** ** What reaches the writer *)

Lemma build_phases_length b : buffer_ok b -> Z.of_nat (length (build_phases b)) <= MAX_TXN_OPS.
Proof.
  intros [Hn He]. rewrite ops_count_min in Hn. unfold MAX_TXN_OPS, U32_MAX in *.
  enough (length (build_phases b)
    = length (encodes b) + length (forgets b) + length (links b) + length (unlinks b))%nat by lia.
  unfold build_phases. rewrite !length_app, !length_map.
  enough (forall l, Forall (fun e => be_edges e = []) l ->
    length (concat (map (fun e => UpsertMemory e ::
      map (fun x => link_phase (be_memory_id e) (bs_kind x) (bs_target x) (bs_weight x) (be_created_at e))
          (be_edges e)) l)) = length l) as Hl
    by (rewrite Hl by done; lia).
  induction 1 as [|e l Hx _ IH]; [done|]. simpl. rewrite Hx. simpl. f_equal. exact IH.
Qed.

Lemma submitted_app l l' : submitted (l ++ l') = submitted l ++ submitted l'.
Proof. apply omap_app. Qed.

Lemma step_one_submit s ctx c : (length (submitted (step s ctx c).2) <= 1)%nat.
Proof.
  destruct c as [req|b txn req|b txn req|txn req|txn req|txn|wr d req|req|]; cbn [step].
  7: {
    pose proof (commit_cases wr d ctx req s) as Hc. destruct (handle_txn_commit wr d ctx req s) as [[r s'] eff].
    cbn [snd]. destruct Hc as [(_ & -> & _)|(e0 & b0 & e1 & _ & _ & _ & _ & _ & _ & _ & Heff & _)]; [simpl; lia|].
    destruct Heff as [->|(w & rest & -> & _ & _ & _ & Hrest & _)]; [simpl; lia|]. cbn [submitted omap list_omap].
    change (omap _ rest) with (submitted rest). destruct (submitted rest) as [|w' l] eqn:E; [simpl; lia|].
    destruct (Hrest w'). apply submitted_elem. rewrite E. by left. }
  all: repeat match goal with |- context [let '(_, _) := ?x in _] => destruct x end; simpl; lia.
Qed.

(** C16: A transaction reaches the writer at most once, and never too large.  Over
    any sequence of calls by any connections on a fresh store, with any clock
    readings and any verdicts of the writer, no transaction id is submitted
    twice, not even after a failed submit or a new BEGIN of the same id; every
    submitted write has at most [MAX_TXN_OPS] phases; and every open buffer
    stays within that cap, so the check of COMMIT never refuses one. *)
Theorem txn_submitted_once (cs : list (OpsContext * Call)) :
  let '(s, eff) := run ∅ cs in
  NoDup (map tw_write_id (submitted eff))
  /\ (forall w, w ∈ submitted eff -> Z.of_nat (length (tw_phases w)) <= MAX_TXN_OPS)
  /\ (forall id e b, s !! id = Some e -> te_buffer e = Some b -> ops_count b <= MAX_TXN_OPS).
Proof.
  assert (bounded ∅) as Hb by (intros id e b; by rewrite lookup_empty).
  revert Hb. generalize (∅ : TxnStore). induction cs as [|[ctx c] cs IH]; intros s Hb; cbn [run].
  - split_and!; [constructor|intros w Hw; by apply not_elem_of_nil in Hw|].
    intros id e b He Hbuf. by apply (Hb id e b).
  - pose proof (step_bounded s ctx c Hb) as Hb1.
    pose proof (fun w => step_submits s ctx c w) as Hsub.
    destruct (step s ctx c) as [[r s1] eff] eqn:Es. cbn [fst snd] in *.
    specialize (IH s1 Hb1). pose proof (run_no_submit s1 cs) as Hno.
    destruct (run s1 cs) as [s2 eff']. destruct IH as (Hnd & Hlen & Hbuf). cbn [snd] in *.
    split_and!; [| |done].
    + rewrite submitted_app, map_app. apply NoDup_app. split_and!; [| |done].
      * pose proof (step_one_submit s ctx c) as Ho. rewrite Es in Ho. cbn [snd] in Ho.
        destruct (submitted eff) as [|w [|w' l]]; [constructor|apply NoDup_singleton|simpl in Ho; lia].
      * intros id (w & -> & Hw)%list_elem_of_fmap (w' & Hid & Hw')%list_elem_of_fmap.
        apply submitted_elem in Hw. destruct (Hsub w Hw) as (_ & _ & e' & _ & _ & _ & _ & _ & He' & Ha & _).
        by apply (Hno _ e' He' (or_introl Ha) w').
    + intros w. rewrite submitted_app, elem_of_app. intros [Hw|Hw]; [|by apply Hlen].
      apply submitted_elem in Hw. destruct (Hsub w Hw) as (e & buf & _ & He & _ & Hbf & _ & -> & _).
      apply build_phases_length. by apply (Hb (tw_write_id w) e).
Qed.

(** ** Final answers *)

Lemma run_finals s cs : finals s -> finals (run s cs).1.
Proof.
  revert s. induction cs as [|[ctx c] cs IH]; intros s Hs; [done|]. cbn [run].
  pose proof (proj2 (step_evolves s ctx c) Hs) as Hs1. destruct (step s ctx c) as [[r s1] eff]. cbn [fst snd] in Hs1.
  specialize (IH s1 Hs1). by destruct (run s1 cs).
Qed.

Lemma finals_empty : finals ∅.
Proof. intros id e. by rewrite lookup_empty. Qed.

(** An answered COMMIT leaves its answer recorded on a finished entry. *)
Lemma commit_recorded s ctx w d req at_ ops :
  finals s ->
  (step s ctx (CallCommit w d req)).1.1 = ReplyAnswer (CommitResponse (commit_txn_id req) at_ ops) ->
  exists e, (step s ctx (CallCommit w d req)).1.2 !! commit_txn_id req = Some e
    /\ te_state e <> Active /\ te_final_response e = Some (FinalCommit at_ ops)
    /\ txn_owned_by (te_connection_id e) (ctx_connection_id ctx) = true.
Proof.
  intros Hs. cbn [step].
  assert (finals (sweep_expired_locked s (ctx_clock ctx 0))) as Hs1
    by by apply (evolves_sweep (ctx_connection_id ctx) None).
  pose proof (commit_cases w d ctx req s) as Hc.
  pose proof (step_foreign s ctx (CallCommit w d req) (commit_txn_id req)) as Hfor. cbn [step] in Hfor.
  destruct (handle_txn_commit w d ctx req s) as [[r s'] eff]. cbn [fst snd] in *.
  intros Hr. destruct r as [a|err]; [|done]. injection Hr as ->.
  destruct Hc as [(-> & _ & Hr)|(e & buf & e' & He & Ha & Hb & Ho & -> & Hm & Hn & _ & Hok)].
  - destruct Hr as [Hr|[Hr|(e & at0 & ops0 & He & Hf & [= -> ->])]]; [done..|]. exists e. split_and!; [done| |done|].
    + apply (Hs1 _ e He). congruence.
    + rewrite sweep_lookup in He. destruct (s !! commit_txn_id req) as [e0|] eqn:He0; [|done].
      injection He as <-. rewrite sweep_entry_connection.
      destruct (txn_owned_by _ _) eqn:Ho; [done|]. by specialize (Hfor e0 eq_refl Ho eq_refl).
  - destruct (Hok _ eq_refl) as (at0 & [= -> ->] & Hf & Hst). exists e'. rewrite lookup_insert_eq.
    split_and!; [done|by rewrite Hst|done|]. by rewrite (moves_connection _ _ _ Hm).
Qed.

(** C25: COMMIT is idempotent.  Once a COMMIT on a reachable store has been answered,
    then whatever calls follow, a retried COMMIT of that transaction by the
    same session gets the same answer and submits nothing, and nothing of the
    transaction is submitted in between. *)
Theorem txn_commit_final (before cs : list (OpsContext * Call)) (ctx ctx' : OpsContext)
    (w w' : option (TxnWrite -> result unit WriterError)) (d d' : bool) (req : TxnCommitRequest)
    (at_ ops : Z)
    (Hconn : ctx_connection_id ctx' = ctx_connection_id ctx)
    (Hok : (step (run ∅ before).1 ctx (CallCommit w d req)).1.1
           = ReplyAnswer (CommitResponse (commit_txn_id req) at_ ops)) :
  let s := (step (run ∅ before).1 ctx (CallCommit w d req)).1.2 in
  let '(reply, _, eff) := step (run s cs).1 ctx' (CallCommit w' d' req) in
  reply = ReplyAnswer (CommitResponse (commit_txn_id req) at_ ops) /\ eff = []
  /\ forall x, x ∈ submitted (run s cs).2 -> tw_write_id x <> commit_txn_id req.
Proof.
  apply commit_recorded in Hok as (e & He & Ha & Hf & Ho); [|apply run_finals, finals_empty].
  intros s. pose proof (run_no_submit s cs _ e He (or_introl Ha)) as Hno.
  destruct (run_evolves s cs _ e He) as (e' & He' & _ & Ht & _). specialize (Ht Ha). subst e'.
  cbn [step]. unfold handle_txn_commit. rewrite sweep_lookup, He'. cbn [fmap option_fmap option_map].
  assert (sweep_entry (ctx_clock ctx' 0) e = e) as ->
    by (unfold sweep_entry; by rewrite bool_decide_false by done).
  by rewrite Hconn, Ho, Hf.
Qed.

(** Work of a dropped connection takes no effect.  After the disconnect of a
    session, every transaction it had opened is finished, keeps that state and is
    never submitted, whatever calls follow; the ones that were finished before
    and the transactions of other sessions are left as they were. *)
Theorem txn_orphans_discarded (s : TxnStore) (ctx : OpsContext) (cs : list (OpsContext * Call))
    (id : Z) (e : TxnEntry) (Hsession : ctx_connection_id ctx <> 0) (He : s !! id = Some e) :
  let s' := (step s ctx CallDisconnect).1.2 in
  if decide (te_connection_id e = ctx_connection_id ctx) then
    (exists e', (run s' cs).1 !! id = Some e' /\ te_state e' <> Active
       /\ s' !! id = Some e' /\ (te_state e <> Active -> e' = e))
    /\ forall x, x ∈ submitted (run s' cs).2 -> tw_write_id x <> id
  else s' !! id = Some e.
Proof.
  cbn [step]. unfold abort_orphaned_for_connection. rewrite (proj2 (Z.eqb_neq _ 0)) by done. cbn [fst snd].
  set (s' := _ <$> s).
  assert (s' !! id = Some (if orphaned (ctx_connection_id ctx) e then final_abort e else e)) as Hs'
    by (unfold s'; by rewrite lookup_fmap, He).
  assert (te_connection_id e = ctx_connection_id ctx ->
    te_state (if orphaned (ctx_connection_id ctx) e then final_abort e else e) <> Active) as Ht.
  { intros Hc. unfold orphaned. rewrite (proj2 (Z.eqb_eq _ _) Hc). cbn [andb]. by case_bool_decide. }
  case_decide as Hc.
  - specialize (Ht Hc). split; [|by apply (run_no_submit s' cs id _ Hs' (or_introl Ht))].
    destruct (run_evolves s' cs id _ Hs') as (e' & He' & _ & Hterm & _). specialize (Hterm Ht). subst e'.
    eexists. split_and!; [done..|]. intros Ha. unfold orphaned. by rewrite (bool_decide_false _ Ha), andb_false_r.
  - rewrite Hs'. unfold orphaned. by rewrite (proj2 (Z.eqb_neq _ _) Hc).
Qed.

(** ** The edges a transaction sees *)

(** The buffer a connection can reach. *)
Definition view_at (conn txn : Z) (s : TxnStore) : option TxnBuffer :=
  match s !! txn with
  | Some e => if txn_owned_by (te_connection_id e) conn && bool_decide (te_state e = Active)
              then te_buffer e else None
  | None => None
  end.

Lemma view_sweep conn txn s now b :
  view_at conn txn (sweep_expired_locked s now) = Some b -> view_at conn txn s = Some b.
Proof.
  unfold view_at. rewrite sweep_lookup. destruct (s !! txn) as [e|]; [|done]. cbn [fmap option_fmap option_map].
  unfold sweep_entry. destruct (bool_decide (te_state e = Active) && _) eqn:E; [|done].
  cbn [expire set_state_buffer te_state te_connection_id te_buffer].
  rewrite bool_decide_false by done. by rewrite andb_false_r.
Qed.

Lemma with_buffer_view {A} now txn conn (f : TxnBuffer -> result (A * TxnBuffer) OpError) s :
  match with_buffer now txn conn f s with
  | (Ok r, s') => exists b b', view_at conn txn s = Some b /\ f b = Ok (r, b')
                    /\ view_at conn txn s' = Some b'
  | (Err err, s') => view_at conn txn s' = None
                     \/ exists b, view_at conn txn s = Some b /\ f b = Err err
  end.
Proof.
  unfold with_buffer. pose proof (view_sweep conn txn s now) as Hv.
  set (s1 := sweep_expired_locked s now) in *. unfold view_at in Hv at 1.
  destruct (s1 !! txn) as [e|] eqn:He; [|left; unfold view_at; by rewrite He].
  destruct (txn_owned_by _ _) eqn:Ho; cbn [negb andb] in *; [|left; unfold view_at; by rewrite He, Ho].
  destruct (te_state e) eqn:Hs; try (left; unfold view_at; by rewrite He, Ho, Hs).
  destruct (te_buffer e) as [b|] eqn:Hb; [|left; unfold view_at; by rewrite He, Ho, Hs, Hb].
  rewrite bool_decide_true in Hv by done. specialize (Hv b eq_refl).
  destruct (f b) as [[r b']|err] eqn:Hf; [|right; eauto]. exists b, b'. split_and!; [done..|].
  unfold view_at. rewrite lookup_insert_eq. cbn. by rewrite Ho, Hs.
Qed.

Lemma bind_ok {A B} (m : M A) (k : A -> M B) s b s' :
  bind m k s = (Ok b, s') -> exists a s1, m s = (Ok a, s1) /\ k a s1 = (Ok b, s').
Proof. unfold bind. destruct (m s) as [[a|e] s1]; [|done]. intros E. by exists a, s1. Qed.

Lemma read_ok {A} now txn conn (f : TxnBuffer -> result A OpError) s r s' :
  read_buffer now txn conn f s = (Ok r, s') ->
  exists b, view_at conn txn s = Some b /\ f b = Ok r /\ view_at conn txn s' = Some b.
Proof.
  intros E. pose proof (with_buffer_view now txn conn (fun b => let? r := f b in Ok (r, b)) s) as Hw.
  unfold read_buffer in E. rewrite E in Hw. destruct Hw as (b & b' & Hv & Hf & Hv'). exists b.
  destruct (f b) as [r0|]; [|done]. by injection Hf as -> ->.
Qed.

Lemma or_false_ok now txn conn f s x s' :
  or_false (read_buffer now txn conn (fun b => Ok (f b))) s = (Ok x, s') ->
  view_at conn txn s' = None
  \/ exists b, view_at conn txn s = Some b /\ f b = x /\ view_at conn txn s' = Some b.
Proof.
  unfold or_false. pose proof (with_buffer_view now txn conn (fun b => Ok (f b, b)) s) as Hw.
  unfold read_buffer. destruct (with_buffer _ _ _ _ s) as [[r|err] s1]; intros [= <- <-].
  - destruct Hw as (b & b' & Hv & [= <- <-] & Hv'). right. by exists b.
  - destruct Hw as [Hw|(b & _ & Hf)]; [by left|done].
Qed.

Lemma write_ok {A} now txn conn (a : A) f s r s' :
  with_buffer now txn conn (fun b => Ok (a, f b)) s = (Ok r, s') ->
  exists b, view_at conn txn s = Some b /\ view_at conn txn s' = Some (f b).
Proof.
  intros E. pose proof (with_buffer_view now txn conn (fun b => Ok (a, f b)) s) as Hw. rewrite E in Hw.
  destruct Hw as (b & b' & Hv & [= <- <-] & Hv'). by exists b.
Qed.

Lemma validate_ok now txn conn s z s' :
  validate_active now txn conn s = (Ok z, s') -> view_at conn txn s' = view_at conn txn s.
Proof.
  unfold validate_active. pose proof (sweep_lookup s now txn) as Hl.
  set (s1 := sweep_expired_locked s now) in *. destruct (s1 !! txn) as [e|] eqn:He; [|done].
  destruct (txn_owned_by _ _) eqn:Ho; cbn [negb]; [|done]. destruct (te_state e) eqn:Hs; try done.
  intros [= _ <-]. destruct (s !! txn) as [e0|] eqn:He0; [|done]. injection Hl as Hl.
  assert (e = e0) as <-.
  { unfold sweep_entry in Hl. destruct (_ && _); [by subst e|done]. }
  unfold view_at. rewrite lookup_insert_eq, He0. cbn. by rewrite Ho, Hs.
Qed.

Definition edge_view (ctx : OpsContext) (b : TxnBuffer) (t : Triple) : bool :=
  (committed_has ctx t || pending_has b t) && negb (pending_unlinked b t).

Lemma check_replay_fresh b id hash c pick :
  request_hashes b !! id = None -> check_replay b id hash c pick = Ok None.
Proof. intros Hn. unfold check_replay. by rewrite Hn. Qed.

(** Steps a successful in-transaction handler backwards through its store calls. *)
Tactic Notation "unbind" hyp(H) "as" ident(x) ident(E) :=
  let s1 := fresh "s" in apply bind_ok in H as (x & s1 & E & H).

Lemma link_view ctx txn req s b a s' :
  view_at (ctx_connection_id ctx) txn s = Some b ->
  request_hashes b !! link_request_id req = None ->
  handle_link_in_txn ctx txn req s = (Ok a, s') ->
  let t := (link_source req, edge_kind (link_kind req), link_target req) in
  exists b' at_, view_at (ctx_connection_id ctx) txn s' = Some b'
    /\ a = LinkResponse (link_source req) (link_target req) (edge_kind (link_kind req)) (link_weight req)
             at_ (edge_view ctx b t)
    /\ forall t', edge_view ctx b' t' = if decide (t' = t) then true else edge_view ctx b t'.
Proof.
  intros Hv Hfresh Hh t. unfold handle_link_in_txn in Hh.
  unbind Hh as z E. apply validate_ok in E. rewrite Hv in E.
  unbind Hh as cached E0. apply read_ok in E0 as (b0 & Hb0 & Hc & Hv0). rewrite E in Hb0. injection Hb0 as <-.
  rewrite check_replay_fresh in Hc by done. injection Hc as <-.
  unbind Hh as u E0. apply read_ok in E0 as (b0 & Hb0 & _ & Hv1). rewrite Hv0 in Hb0. injection Hb0 as <-.
  unbind Hh as p E0. apply read_ok in E0 as (b0 & Hb0 & Hp & Hv2). rewrite Hv1 in Hb0. injection Hb0 as <-.
  destruct p as [src_pending tgt_pending].
  destruct (negb _); [done|]. destruct (negb _); [done|].
  unbind Hh as has E0. unbind Hh as gone E1. unbind Hh as u' E2. injection Hh as <- <-.
  apply write_ok in E2 as (b3 & Hb3 & Hv3).
  apply or_false_ok in E1 as [Hn|(b2 & Hb2 & Hu & Hv4)]; [congruence|].
  apply or_false_ok in E0 as [Hn|(b1 & Hb1 & Hp' & Hv5)]; [congruence|].
  rewrite Hv2 in Hb1. injection Hb1 as <-. rewrite Hv5 in Hb2. injection Hb2 as <-.
  rewrite Hv4 in Hb3. injection Hb3 as <-. subst has gone.
  eexists _, _. split_and!; [exact Hv3|done|]. intros t'.
  unfold edge_view, pending_has, pending_unlinked, record_replay. cbn [links encodes unlinked_edges].
  rewrite existsb_app. cbn [existsb bl_source bl_kind bl_target]. fold t. case_decide as Ht.
  - subst t'. rewrite (bool_decide_true (_ = t)) by done.
    rewrite (bool_decide_false (t ∈ _)) by set_solver. by rewrite !orb_true_r.
  - rewrite (bool_decide_false (_ = t')) by (unfold t in *; congruence). rewrite !orb_false_r.
    f_equal. f_equal. apply bool_decide_ext. set_solver.
Qed.

Lemma unlink_mark ctx b b' t t' :
  links b' = links b -> encodes b' = encodes b ->
  unlinked_edges b' = (if edge_view ctx b t then {[ t ]} ∪ unlinked_edges b else unlinked_edges b) ->
  edge_view ctx b' t' = if decide (t' = t) then false else edge_view ctx b t'.
Proof.
  intros Hl He Hu.
  assert (pending_has b' t' = pending_has b t') as Hp by (unfold pending_has; by rewrite Hl, He).
  unfold edge_view at 1. rewrite Hp. unfold pending_unlinked. rewrite Hu. case_decide as Ht; [subst t'|].
  - destruct (edge_view ctx b t) eqn:Ev; [|exact Ev].
    rewrite bool_decide_true by set_solver. by rewrite andb_false_r.
  - destruct (edge_view ctx b t); [|done]. unfold edge_view, pending_unlinked. f_equal. f_equal.
    apply bool_decide_ext. set_solver.
Qed.

Lemma unlink_view ctx txn req s b a s' :
  view_at (ctx_connection_id ctx) txn s = Some b ->
  request_hashes b !! unlink_request_id req = None ->
  handle_unlink_in_txn ctx txn req s = (Ok a, s') ->
  let t := (unlink_source req, edge_kind (unlink_kind req), unlink_target req) in
  exists b', view_at (ctx_connection_id ctx) txn s' = Some b'
    /\ a = UnlinkResponse (unlink_source req) (unlink_target req) (edge_kind (unlink_kind req))
             (edge_view ctx b t)
    /\ forall t', edge_view ctx b' t' = if decide (t' = t) then false else edge_view ctx b t'.
Proof.
  intros Hv Hfresh Hh t. unfold handle_unlink_in_txn in Hh.
  unbind Hh as z E. apply validate_ok in E. rewrite Hv in E.
  unbind Hh as cached E0. apply read_ok in E0 as (b0 & Hb0 & Hc & Hv0). rewrite E in Hb0. injection Hb0 as <-.
  rewrite check_replay_fresh in Hc by done. injection Hc as <-.
  unbind Hh as u E0. apply read_ok in E0 as (b0 & Hb0 & _ & Hv1). rewrite Hv0 in Hb0. injection Hb0 as <-.
  unbind Hh as has E0. apply read_ok in E0 as (b0 & Hb0 & [= <-] & Hv2). rewrite Hv1 in Hb0. injection Hb0 as <-.
  unbind Hh as gone E0. apply read_ok in E0 as (b0 & Hb0 & [= <-] & Hv3). rewrite Hv2 in Hb0. injection Hb0 as <-.
  unbind Hh as u' E0. injection Hh as <- <-. apply write_ok in E0 as (b0 & Hb0 & Hv4).
  rewrite Hv3 in Hb0. injection Hb0 as <-.
  eexists. split_and!; [exact Hv4|done|]. intros t'. by apply (unlink_mark ctx b).
Qed.

(** C35: Inside a transaction LINK and UNLINK act on one set of edges.  Abstractly the
    transaction sees a set of (source, kind, target) triples: the committed
    edges as its earlier operations left them.  An answered LINK reports
    whether its triple was in the set and adds it; an answered UNLINK reports
    the same and removes it; no other triple changes.  The answers so follow
    the client's order of operations. *)
Theorem txn_edges_refine (ctx : OpsContext) (txn : Z) (s : TxnStore) (b : TxnBuffer)
    (Hb : view_at (ctx_connection_id ctx) txn s = Some b) :
  (forall req a s', step s ctx (CallLink txn req) = (ReplyAnswer a, s', []) ->
     request_hashes b !! link_request_id req = None ->
     let t := (link_source req, edge_kind (link_kind req), link_target req) in
     exists b' at_, view_at (ctx_connection_id ctx) txn s' = Some b'
       /\ a = LinkResponse (link_source req) (link_target req) (edge_kind (link_kind req))
                (link_weight req) at_ (edge_view ctx b t)
       /\ forall t', edge_view ctx b' t' = if decide (t' = t) then true else edge_view ctx b t')
  /\ (forall req a s', step s ctx (CallUnlink txn req) = (ReplyAnswer a, s', []) ->
     request_hashes b !! unlink_request_id req = None ->
     let t := (unlink_source req, edge_kind (unlink_kind req), unlink_target req) in
     exists b', view_at (ctx_connection_id ctx) txn s' = Some b'
       /\ a = UnlinkResponse (unlink_source req) (unlink_target req) (edge_kind (unlink_kind req))
                (edge_view ctx b t)
       /\ forall t', edge_view ctx b' t' = if decide (t' = t) then false else edge_view ctx b t').
Proof.
  split; intros req a s' Hst Hfresh; cbn [step] in Hst.
  - destruct (handle_link ctx txn req s) as [r s1] eqn:Eh. injection Hst as Hr ->.
    destruct r as [a'|]; [|done]. injection Hr as ->. unfold handle_link in Eh.
    apply bind_ok in Eh as (u & s2 & Hl & Eh). unfold lift in Hl. injection Hl as _ <-.
    by apply (link_view ctx txn req s b a s').
  - destruct (handle_unlink_in_txn ctx txn req s) as [r s1] eqn:Eh. injection Hst as Hr ->.
    destruct r as [a'|]; [|done]. injection Hr as ->. by apply (unlink_view ctx txn req s b a s').
Qed.

End theorems.
