(* ===== verification/TxnExamples.v ===== *)
(** Runs of the transaction store on concrete calls: witnesses of its theorems, and
    the behaviours of the code that differ from its documentation. *)

From stdpp Require Import gmap.
From S2P Require Import Prelude Ids Request Access EdgeTable EdgeApply TxnStore TxnSpec.
Import OpError.

Module TxnExample.

#[export] Instance crates : Crates :=
  {| blake3 b := b; new_v5 ns s := ns; base64_decode b := None |}.

(** The example store of [EdgeApply] (memories 1 and 2 in space A), with an edge 1 -> 2. *)
Definition edge12 : EdgeKey := EdgeApplyExample.edge Caused 1 2.
Definition spaceA : Z := from_be_bytes EdgeApplyExample.spaceA.
Definition spaceB : Z := from_be_bytes EdgeApplyExample.spaceB.
Definition md : Metadata :=
  apply_all EdgeApplyExample.md0 [EdgeApplyExample.linkw EdgeApplyExample.spaceA edge12].

(** A call of session [conn] under space [space], all clock readings at [t]. *)
Definition at_time (m : Metadata) (conn space t : Z) : OpsContext :=
  {| ctx_connection_id := conn; ctx_space := space; ctx_namespace := 1; ctx_space_string := "a";
     ctx_metadata := m; ctx_clock := fun _ => t; ctx_embed := fun _ => Some [0];
     ctx_fingerprint := []; ctx_reserve := Ok (MemoryId.pack 1 9 0) |}.

Definition begin_ (txn : Z) : Call :=
  CallBegin {| begin_txn_id := txn; begin_timeout_seconds := 0; begin_act_as := None |}.
Definition link_ (txn rid a b : Z) : Call :=
  CallLink txn {| link_source := EdgeApplyExample.id a; link_target := EdgeApplyExample.id b; link_kind := 0;
                  link_weight := 0; link_request_id := rid; link_txn_id := Some txn; link_act_as := None |}.
Definition unlink_ (txn rid a b : Z) : Call :=
  CallUnlink txn {| unlink_source := EdgeApplyExample.id a; unlink_target := EdgeApplyExample.id b;
                    unlink_kind := 0; unlink_request_id := rid; unlink_txn_id := Some txn;
                    unlink_act_as := None |}.
Definition encode_ (txn rid : Z) : Call :=
  CallEncode true txn {| encode_text := "note"; encode_session_id := 0; encode_request_id := rid;
                         encode_occurred_at := None |}.
Definition accept : option (TxnWrite -> result unit WriterError) := Some (fun _ => Ok tt).
Definition overloaded : option (TxnWrite -> result unit WriterError) := Some (fun _ => Err WOverloaded).
Definition commit_ (w : option (TxnWrite -> result unit WriterError)) (txn : Z) : Call :=
  CallCommit w false {| commit_txn_id := txn |}.

Definition c1 (t : Z) : OpsContext := at_time md 1 spaceA t.
Definition c2 (t : Z) : OpsContext := at_time md 2 spaceA t.

Definition opened : TxnStore := (run ∅ [(c1 0, begin_ 7)]).1.
Definition entry7 : TxnEntry :=
  {| te_state := Active; te_started_at := 0; te_expires_at := 30000000000; te_timeout_seconds := 30;
     te_final_response := None; te_buffer := Some TxnBuffer_default; te_delegated := None;
     te_connection_id := 1 |}.

Lemma txn_isolated_witness :
  foreign_reply entry7 (commit_ accept 7) (step opened (c2 1) (commit_ accept 7)).1.1
  /\ (step opened (c2 1) (commit_ accept 7)).1.2 !! 7 = Some entry7.
Proof.
  pose proof (txn_isolated opened (c2 1) (commit_ accept 7) 7 entry7 ltac:(vm_compute; reflexivity)
    ltac:(discriminate) ltac:(discriminate)) as Hi.
  destruct (step opened (c2 1) (commit_ accept 7)) as [[r s'] eff] eqn:E. cbn [fst snd].
  split; [by apply Hi|]. apply (f_equal (fun x => x.1.2 !! 7)) in E. cbn [fst snd] in E. rewrite <- E.
  vm_compute. reflexivity.
Defined.

Lemma txn_commit_final_witness :
  let s := (step (run ∅ [(c1 0, begin_ 7); (c1 1, encode_ 7 1)]).1 (c1 2) (commit_ accept 7)).1.2 in
  let '(reply, _, eff) := step (run s [(c2 3, begin_ 7); (c1 3, link_ 7 2 1 2)]).1 (c1 4) (commit_ overloaded 7) in
  reply = ReplyAnswer (CommitResponse 7 2 1) /\ eff = []
  /\ forall x, x ∈ submitted (run s [(c2 3, begin_ 7); (c1 3, link_ 7 2 1 2)]).2 -> tw_write_id x <> 7.
Proof.
  apply (txn_commit_final [(c1 0, begin_ 7); (c1 1, encode_ 7 1)] _ (c1 2) (c1 4) accept overloaded false false
    {| commit_txn_id := 7 |} 2 1 eq_refl). vm_compute. reflexivity.
Defined.

Lemma txn_orphans_discarded_witness :
  let s' := (step opened (c1 1) CallDisconnect).1.2 in
  te_state <$> (run s' [(c1 2, commit_ accept 7)]).1 !! 7 = Some Aborted
  /\ forall x, x ∈ submitted (run s' [(c1 2, commit_ accept 7)]).2 -> tw_write_id x <> 7.
Proof.
  split; [vm_compute; reflexivity|].
  apply (txn_orphans_discarded opened (c1 1) [(c1 2, commit_ accept 7)] 7 entry7 ltac:(discriminate)
    ltac:(vm_compute; reflexivity)).
Defined.

Lemma txn_edges_refine_witness :
  exists b' at_,
    view_at 1 7 (step opened (c1 1) (link_ 7 1 1 2)).1.2 = Some b'
    /\ (step opened (c1 1) (link_ 7 1 1 2)).1.1
       = ReplyAnswer (LinkResponse (EdgeApplyExample.id 1) (EdgeApplyExample.id 2) Caused 0 at_ true).
Proof.
  destruct (txn_edges_refine (c1 1) 7 opened TxnBuffer_default ltac:(vm_compute; reflexivity)) as [Hl _].
  destruct (step opened (c1 1) (link_ 7 1 1 2)) as [[r s'] eff] eqn:E. cbn [fst snd].
  assert (r = ReplyAnswer (LinkResponse (EdgeApplyExample.id 1) (EdgeApplyExample.id 2) Caused 0 1 true)) as ->
    by (apply (f_equal (fun x => x.1.1)) in E; cbn [fst] in E; rewrite <- E; vm_compute; reflexivity).
  assert (eff = []) as -> by (apply (f_equal (fun x => x.2)) in E; cbn [snd] in E; rewrite <- E; vm_compute; reflexivity).
  destruct (Hl _ _ _ E eq_refl) as (b' & at_ & Hv & Ha & _). exists b', at_. split; [done|]. by rewrite Ha.
Defined.

End TxnExample.

(** ** Behaviours that differ from the documentation *)

Module TxnFaults.
Import TxnExample.

(** The edge phases of a committed write, applied in its order. *)
Definition apply_write (m : Metadata) (w : TxnWrite) : Metadata :=
  apply_all m (omap (fun p => match p with
    | EdgePhase ph => Some {| w_space_id := to_be_bytes 16 (tw_space_id w); w_phase := ph |}
    | _ => None
    end) (tw_phases w)).

Definition relink : list (OpsContext * Call) :=
  [(c1 0, begin_ 7); (c1 1, unlink_ 7 1 1 2); (c1 2, link_ 7 2 1 2)].

(** UNLINK then LINK of the same edge inside a transaction loses the edge.  The
    transaction's own view ends with the edge present, and both operations are
    acknowledged; but the commit submits every LINK before every UNLINK, so
    applying the write removes an edge that was there before the transaction
    and is there in its view. *)
Theorem txn_relink_lost :
  let s := (run ∅ relink).1 in
  let '(reply, _, eff) := step s (c1 3) (commit_ accept 7) in
  edge_view (c1 3) (default TxnBuffer_default (view_at 1 7 s))
    (EdgeApplyExample.id 1, Caused, EdgeApplyExample.id 2) = true
  /\ EDGES (md_edges md) !! EdgeKey.encode edge12 = Some EdgeTableExample.d1
  /\ reply = ReplyAnswer (CommitResponse 7 3 2)
  /\ exists w, submitted eff = [w]
     /\ EDGES (md_edges (apply_write md w)) !! EdgeKey.encode edge12 = None.
Proof.
  intros s. destruct (step s (c1 3) (commit_ accept 7)) as [[reply s'] eff] eqn:E.
  assert (reply = ReplyAnswer (CommitResponse 7 3 2)) as ->
    by (apply (f_equal (fun x => x.1.1)) in E; cbn [fst] in E; rewrite <- E; vm_compute; reflexivity).
  apply (f_equal snd) in E. cbn [snd] in E. subst eff. split_and!; [by vm_compute|by vm_compute|done|].
  eexists. split; [vm_compute; reflexivity|]. vm_compute. reflexivity.
Qed.

(** A failed COMMIT cannot be retried.  When the writer refuses a commit because
    it is overloaded, an error the client may retry, the transaction is marked
    aborted and its buffer is gone: the retried COMMIT is answered
    [TxnExpired], before any deadline, and the work is lost. *)
Theorem overloaded_commit_is_final :
  let calls := [(c1 0, begin_ 7); (c1 1, encode_ 7 1)] in
  let '(reply, s, _) := step (run ∅ calls).1 (c1 2) (commit_ overloaded 7) in
  let '(retry, _, eff) := step s (c1 3) (commit_ accept 7) in
  reply = ReplyErr (Exec (WriterFailed WOverloaded))
  /\ retry = ReplyErr TxnExpired /\ eff = [].
Proof. vm_compute. repeat split. Qed.

(** BEGIN is not isolated.  A session that begins a transaction under an id
    another session has opened is told that transaction's start time and
    timeout, as if its own BEGIN had succeeded; its next operation is answered
    [TxnNotFound]. *)
Theorem foreign_begin_answered :
  let '(reply, s, _) := step opened (c2 5) (begin_ 7) in
  reply = ReplyAnswer (BeginResponse 7 30 0)
  /\ (step s (c2 6) (encode_ 7 1)).1.1 = ReplyErr TxnNotFound.
Proof. vm_compute. repeat split. Qed.

(** An operation buffered under a delegated identity is committed as another.
    A session whose own space is A opens a plain transaction and sends it an
    ENCODE that acts for space B: the ENCODE is accepted and recorded for B,
    but the commit submits it under A's space. *)
Theorem buffered_identity_lost :
  let calls := [(c1 0, begin_ 7); (at_time md 1 spaceB 1, encode_ 7 1)] in
  let eff := (step (run ∅ calls).1 (c1 2) (commit_ accept 7)).2 in
  exists w e, submitted eff = [w] /\ tw_phases w = [UpsertMemory e]
    /\ be_space_id e = spaceB /\ tw_space_id w = spaceA /\ spaceA <> spaceB.
Proof.
  eexists _, _. split; [vm_compute; reflexivity|].
  split; [vm_compute; reflexivity|]. split; [vm_compute; reflexivity|].
  split; [vm_compute; reflexivity|]. vm_compute. discriminate.
Qed.

(** Entries are never removed.  No sequence of calls, with commits, aborts,
    expiries and disconnects among them, takes a transaction out of the store:
    the store of a running shard holds every transaction it ever began. *)
Theorem txn_entries_kept `{Crates} (s : TxnStore) (cs : list (OpsContext * Call)) :
  dom s ⊆ dom (run s cs).1.
Proof.
  intros id [e He]%elem_of_dom. destruct (run_evolves s cs id e He) as (e' & He' & _).
  apply elem_of_dom. by exists e'.
Qed.

End TxnFaults.
