(* ===== verification/Submit.v ===== *)
(** The write path ([brain-ops/src/writer/submit.rs]): the idempotency cache, the
    pipeline of [submit] from the cache lookup over the log and the metadata
    transaction to the hot entry, the sweep of the idempotency table
    ([brain-metadata/src/tables/idempotency.rs]) and what recovery does to that
    table ([brain-metadata/src/recovery/memory.rs]).

    [submit] waits twice, for the log and after the commit (for the text
    index); between the waits it runs without interruption.  A submission in
    flight is a [Task] at one of its waits, and [step] interleaves any number
    of them with sweeps and restarts.  What a phase does to the metadata and
    how it maps to a log payload is the interface [PhaseSem]: the edge phases
    implement it here, the memory phases in [MemoryApply]. *)

From stdpp Require Import gmap sorting.
From S2P Require Import Prelude Crc32c Ids WalKinds WalRecord WalPayload WalPayloadCodec.
From S2P Require Import Access EdgeTable EdgeApply EdgeRecovery Writer AckCodec.

(** ** The idempotency table *)

Definition DEFAULT_TTL_NANOS : Z := 24 * 60 * 60 * 1000000000.

Record IdempotencyEntry := {
  ie_response_kind : Z;
  ie_memory_id : option bytes;
  ie_response_payload : bytes;
  ie_request_hash : bytes;
  ie_created_at : Z;
  ie_lsn : Z;
}.
Abbreviation Table := (gmap bytes IdempotencyEntry).

Definition kind_UNKNOWN : Z := 0.
Definition kind_ENCODE : Z := 1.
Definition kind_FORGET : Z := 2.
Definition kind_RESTORE : Z := 9.

Definition is_expired (e : IdempotencyEntry) (now ttl : Z) : bool :=
  sat_add64 (ie_created_at e) ttl <? now.

(** The rows in key order. *)
Definition row_le (x y : bytes * IdempotencyEntry) : Prop := bytes_le (fst x) (fst y).
#[global] Instance row_le_dec x y : Decision (row_le x y).
Proof. unfold row_le. apply _. Defined.
Definition iter (t : Table) : list (bytes * IdempotencyEntry) := merge_sort row_le (map_to_list t).

(** The scan of [prune_expired_bounded]: the first [max] expired keys, and whether
    it came to the end. *)
Fixpoint collect_victims (now ttl : Z) (max : nat) (rows : list (bytes * IdempotencyEntry))
    (victims : list bytes) : list bytes * bool :=
  match rows with
  | [] => (victims, true)
  | (key, value) :: rows =>
    if is_expired value now ttl then
      let victims := victims ++ [key] in
      if (max <=? length victims)%nat then (victims, false)
      else collect_victims now ttl max rows victims
    else collect_victims now ttl max rows victims
  end.

Definition prune_expired_bounded (t : Table) (now ttl : Z) (max : nat) : (nat * bool) * Table :=
  if (max =? 0)%nat then ((0%nat, false), t) else
  let '(victims, scanned_to_end) := collect_victims now ttl max (iter t) [] in
  ((length victims, scanned_to_end), foldr delete t victims).

(** ** The cache *)

Record HotEntry := {
  he_ack : WriteAck;
  he_request_hash : option bytes;
  he_created_at : Z;
}.

Inductive CacheLookup := Miss | Hit (ack : WriteAck) | CacheConflict.

Definition classify (stored provided : option bytes) (ack : WriteAck) : CacheLookup :=
  match stored, provided with
  | Some s, Some p => if bool_decide (s <> p) then CacheConflict else Hit ack
  | _, _ => Hit ack
  end.

Definition ZERO_HASH : bytes := replicate 32 Byte.x00.

(** [lookup_with_hash]; [read_ok]: the read transaction and the table open. *)
Definition lookup_with_hash (hot : gmap bytes HotEntry) (t : Table) (read_ok : bool) (now : Z)
    (id : Uuid) (request_hash : option bytes) : CacheLookup * gmap bytes HotEntry :=
  let cold :=
    if negb read_ok then (Miss, hot) else
    match t !! id with
    | None => (Miss, hot)
    | Some entry =>
      if is_expired entry now DEFAULT_TTL_NANOS then (Miss, hot) else
      let stored_hash :=
        if bool_decide (ie_request_hash entry = ZERO_HASH) then None
        else Some (ie_request_hash entry) in
      match decode_write_ack (ie_response_payload entry) with
      | Err _ => (Miss, hot)
      | Ok decoded =>
        let r := classify stored_hash request_hash decoded in
        (r, match r with
            | Hit _ => <[id := {| he_ack := decoded; he_request_hash := stored_hash;
                                  he_created_at := ie_created_at entry |}]> hot
            | _ => hot
            end)
      end
    end in
  match hot !! id with
  | Some entry =>
    if now <=? sat_add64 (he_created_at entry) DEFAULT_TTL_NANOS
    then (classify (he_request_hash entry) request_hash (he_ack entry), hot)
    else cold
  | None => cold
  end.

Definition idempotency_entry_for (ack : WriteAck) (request_hash : option bytes) (committed_at : Z)
  : option IdempotencyEntry :=
  payload ← encode_write_ack ack;
  Some {| ie_response_kind := kind_UNKNOWN; ie_memory_id := None; ie_response_payload := payload;
          ie_request_hash := default ZERO_HASH request_hash; ie_created_at := committed_at;
          ie_lsn := lsn_first ack |}.

(** ** Writes and phases *)

Record Write (P : Type) := {
  w_write_id : Uuid;
  w_space : Uuid;
  w_namespace : Z;
  w_space_string : bytes;
  w_started_at : Z;
  w_phases : list P;
  w_request_hash : option bytes;
}.
Arguments w_write_id {P}.
Arguments w_space {P}.
Arguments w_namespace {P}.
Arguments w_space_string {P}.
Arguments w_started_at {P}.
Arguments w_phases {P}.
Arguments w_request_hash {P}.

Inductive ApplyError :=
| StorageErr (s : string)
| NotFound (what detail : string)
| Invariant (s : string)
| SchemaAdmission (s : string)
| ApplyConflict (s : string)
| MetadataErr (s : string)
| PhaseMisShape (s : string).

(** The messages keep what the code writes in front of the inner error. *)
Definition map_apply_err (e : ApplyError) : WriterError :=
  match e with
  | StorageErr s => WInternal ("storage: " +:+ s)
  | NotFound what detail => WInternal (what +:+ " not found: " +:+ detail)
  | Invariant s => WInternal ("invariant: " +:+ s)
  | SchemaAdmission s => WInternal ("schema: " +:+ s)
  | ApplyConflict s => WConflict s
  | MetadataErr s => WInternal ("metadata: " +:+ s)
  | PhaseMisShape s => WInternal ("phase mis-shape: " +:+ s)
  end%string.

(** [apply::dispatch], [phase_to_wal_payload] and the metadata sink of recovery
    (but for the idempotency table); [phase_fits]: the fields are in range. *)
Class PhaseSem (P MD : Type) := {
  dispatch : MD -> P -> Write P -> result (MD * PhaseAck) ApplyError;
  phase_to_wal_payload : P -> Write P -> option WalPayload;
  sink_apply : MD -> Z -> Z -> WalPayload -> MD;
  phase_fits : P -> Prop;
}.

(** Edge phases: [apply/edge.rs]; their payloads and replay are in [EdgeRecovery]. *)
Definition edge_dispatch (md : Metadata) (p : EdgeApply.Phase) (w : Write EdgeApply.Phase)
  : result (Metadata * PhaseAck) ApplyError :=
  Ok (EdgeApply.apply md {| w_space_id := w_space w; w_phase := p |}).

(** ** What recovery writes into the table ([recovery/memory.rs]) *)

Definition encode_row (lsn timestamp : Z) (e : EncodePayload) : Uuid * IdempotencyEntry :=
  (ep_request_id e,
   {| ie_response_kind := kind_ENCODE; ie_memory_id := Some (MemoryId.to_be (ep_memory_id e));
      ie_response_payload := ep_response_payload e; ie_request_hash := ep_request_hash e;
      ie_created_at := timestamp; ie_lsn := lsn |}).
Definition forget_row (lsn timestamp : Z) (f : ForgetPayload) : Uuid * IdempotencyEntry :=
  (fp_request_id f,
   {| ie_response_kind := kind_FORGET; ie_memory_id := Some (MemoryId.to_be (fp_memory_id f));
      ie_response_payload := []; ie_request_hash := ZERO_HASH;
      ie_created_at := timestamp; ie_lsn := lsn |}).
Definition restore_row (lsn timestamp : Z) (r : RestorePayload) : Uuid * IdempotencyEntry :=
  (rp_request_id r,
   {| ie_response_kind := kind_RESTORE; ie_memory_id := Some (MemoryId.to_be (rp_memory_id r));
      ie_response_payload := []; ie_request_hash := ZERO_HASH;
      ie_created_at := timestamp; ie_lsn := lsn |}).

Definition recovered_row (lsn timestamp : Z) (p : WalPayload) : option (Uuid * IdempotencyEntry) :=
  match p with
  | Encode e => Some (encode_row lsn timestamp e)
  | Forget f => Some (forget_row lsn timestamp f)
  | RestoreMemory r => Some (restore_row lsn timestamp r)
  | _ => None
  end.

Definition recover_row (t : Table) (r : Z * Z * WalPayload) : Table :=
  match recovered_row r.1.1 r.1.2 r.2 with
  | Some (id, row) => <[id := row]> t
  | None => t
  end.

(** ** The pipeline *)

(** What the index and redb answer: the HNSW inserts, opening the transaction,
    inserting the idempotency row, the commit. *)
Record CommitIo := { io_hnsw : bool; io_write_txn : bool; io_insert : bool; io_commit : bool }.

Section submit.
Context {P MD : Type} `{!PhaseSem P MD}.

(** The waits of a submission: for its records to be appended, for the answer of
    the log about durable records, for the fan-out after the commit. *)
Inductive Stage :=
| AwaitWal (started_at : Z) (payloads : list WalPayload)
| Durable (lsns : option (Z * Z))
| Fanout (ack : WriteAck).

Record Task := { t_write : Write P; t_stage : Stage }.

Record Shard := {
  sh_hot : gmap bytes HotEntry;
  sh_table : Table;
  sh_md : MD;
  sh_watermark : Z;
  sh_wal : list (Z * Z * WalPayload);
  sh_tasks : gmap nat Task;
}.

Definition set_hot (hot : gmap bytes HotEntry) (s : Shard) : Shard :=
  {| sh_hot := hot; sh_table := sh_table s; sh_md := sh_md s; sh_watermark := sh_watermark s;
     sh_wal := sh_wal s; sh_tasks := sh_tasks s |}.
Definition set_tasks (tasks : gmap nat Task) (s : Shard) : Shard :=
  {| sh_hot := sh_hot s; sh_table := sh_table s; sh_md := sh_md s; sh_watermark := sh_watermark s;
     sh_wal := sh_wal s; sh_tasks := tasks |}.
Definition set_table (t : Table) (s : Shard) : Shard :=
  {| sh_hot := sh_hot s; sh_table := t; sh_md := sh_md s; sh_watermark := sh_watermark s;
     sh_wal := sh_wal s; sh_tasks := sh_tasks s |}.

(** What is seen from outside: answers, and the commits of metadata transactions. *)
Inductive Effect :=
| Answered (w : Write P) (r : result WriteAck WriterError)
| Applied (w : Write P) (ack : WriteAck).

Fixpoint apply_phases (md : MD) (w : Write P) (phases : list P)
  : result (MD * list PhaseAck) ApplyError :=
  match phases with
  | [] => Ok (md, [])
  | phase :: phases =>
    let? (md, ack) := dispatch md phase w in
    let? (md, acks) := apply_phases md w phases in
    Ok (md, ack :: acks)
  end.

Definition commit (t : Table) (md : MD) (watermark : Z) (s : Shard) : Shard :=
  {| sh_hot := sh_hot s; sh_table := t; sh_md := md; sh_watermark := watermark;
     sh_wal := sh_wal s; sh_tasks := sh_tasks s |}.

Definition durable_ack (w : Write P) (committed_at : Z) (lsns : option (Z * Z)) (acks : list PhaseAck)
  : WriteAck :=
  {| ack_write_id := w_write_id w; committed_at_unix_nanos := committed_at;
     lsn_first := default 0 (fst <$> lsns); lsn_last := default 0 (snd <$> lsns);
     phase_acks := acks; pending_stages := [] |}.

(** From the answer of the log to the commit; [None] is a panic of the encoder. *)
Definition apply_and_commit (io : CommitIo) (committed_at : Z) (w : Write P) (lsns : option (Z * Z))
    (s : Shard) : option (result WriteAck WriterError * Shard) :=
  if negb (io_hnsw io) then Some (Err (WInternal "hnsw insert"), s) else
  if negb (io_write_txn io) then Some (Err (WInternal "write_txn"), s) else
  match apply_phases (sh_md s) w (w_phases w) with
  | Err apply_err => Some (Err (map_apply_err apply_err), s)
  | Ok (md, acks) =>
    let ack := durable_ack w committed_at lsns acks in
    idem_entry ← idempotency_entry_for ack (w_request_hash w) committed_at;
    if negb (io_insert io) then Some (Err (WInternal "idempotency insert"), s) else
    if negb (io_commit io) then Some (Err (WInternal "commit"), s) else
    let watermark :=
      match lsns with Some (_, last) => Z.max (sh_watermark s) last | None => sh_watermark s end in
    Some (Ok ack, commit (<[w_write_id w := idem_entry]> (sh_table s)) md watermark s)
  end.

(** ... and what becomes of the task. *)
Definition resume (tid : nat) (io : CommitIo) (committed_at : Z) (w : Write P) (lsns : option (Z * Z))
    (s : Shard) : option (Shard * list Effect) :=
  '(r, s) ← apply_and_commit io committed_at w lsns s;
  match r with
  | Err e => Some (set_tasks (delete tid (sh_tasks s)) s, [Answered w (Err e)])
  | Ok ack =>
    Some (set_tasks (<[tid := {| t_write := w; t_stage := Fanout ack |}]> (sh_tasks s)) s,
          [Applied w ack])
  end.

Definition now_unix_nanos_or_zero (recorded now : Z) : Z := if recorded =? 0 then now else recorded.

(** [wal_append_for_write] up to its wait: the payloads, framed by [Writer]. *)
Definition mapped_write (w : Write P) (started_at : Z) : Writer.Write :=
  {| Writer.write_id := w_write_id w; Writer.space_id := w_space w;
     Writer.started_at_unix_nanos := started_at;
     Writer.mapped := omap (fun p => phase_to_wal_payload p w) (w_phases w) |}.

Definition replay_conflict : string := "idempotency: request_id replay with different params".

(** The start of [submit]; [sink]: a log is attached. *)
Definition submit (tid : nat) (w : Write P) (now : Z) (read_ok sink : bool) (io : CommitIo)
    (committed_at : Z) (s : Shard) : option (Shard * list Effect) :=
  let '(found, hot) :=
    lookup_with_hash (sh_hot s) (sh_table s) read_ok now (w_write_id w) (w_request_hash w) in
  let s := set_hot hot s in
  match found with
  | Hit cached => Some (s, [Answered w (Ok cached)])
  | CacheConflict => Some (s, [Answered w (Err (WConflict replay_conflict))])
  | Miss =>
    let started_at := now_unix_nanos_or_zero (w_started_at w) now in
    let payloads := Writer.wal_payloads (mapped_write w started_at) in
    if negb sink || bool_decide (payloads = []) then resume tid io committed_at w None s else
    _ ← Writer.wal_records (mapped_write w started_at);
    Some (set_tasks (<[tid := {| t_write := w; t_stage := AwaitWal started_at payloads |}]>
                       (sh_tasks s)) s, [])
  end.

(** The cache is filled when the fan-out is through. *)
Definition stamp (tid : nat) (w : Write P) (ack : WriteAck) (stages : list PendingStage) (s : Shard)
  : Shard * list Effect :=
  let ack := {| ack_write_id := ack_write_id ack;
                committed_at_unix_nanos := committed_at_unix_nanos ack; lsn_first := lsn_first ack;
                lsn_last := lsn_last ack; phase_acks := phase_acks ack; pending_stages := stages |} in
  let entry := {| he_ack := ack; he_request_hash := w_request_hash w;
                  he_created_at := committed_at_unix_nanos ack |} in
  (set_tasks (delete tid (sh_tasks s)) (set_hot (<[w_write_id w := entry]> (sh_hot s)) s),
   [Answered w (Ok ack)]).

(** The process starts again: the hot entries and the tasks are gone, recovery
    replays the records above the durable LSN and seeds the watermark. *)
Definition restart (durable next_lsn : Z) (s : Shard) : Shard :=
  let replayed := filter (fun r => durable < r.1.1) (sh_wal s) in
  {| sh_hot := ∅;
     sh_table := foldl recover_row (sh_table s) replayed;
     sh_md := foldl (fun md r => sink_apply md r.1.1 r.1.2 r.2) (sh_md s) replayed;
     sh_watermark := sat_sub next_lsn 1;
     sh_wal := sh_wal s;
     sh_tasks := ∅ |}.

Inductive Event :=
| EvSubmit (tid : nat) (w : Write P) (now : Z) (read_ok sink : bool) (io : CommitIo) (committed_at : Z)
| EvDurable (tid : nat) (lsns : list Z)
| EvAppendFails (tid : nat)
| EvResume (tid : nat) (io : CommitIo) (committed_at : Z)
| EvStamp (tid : nat) (stages : list PendingStage)
| EvPrune (now ttl : Z) (max : nat)
| EvRestart (durable next_lsn : Z).

(** [None]: the event does not fit the state, or the code panics. *)
Definition step (s : Shard) (ev : Event) : option (Shard * list Effect) :=
  match ev with
  | EvSubmit tid w now read_ok sink io committed_at =>
    match sh_tasks s !! tid with
    | None => submit tid w now read_ok sink io committed_at s
    | Some _ => None
    end
  | EvDurable tid lsns =>
    match sh_tasks s !! tid with
    | Some {| t_write := w; t_stage := AwaitWal started_at payloads |} =>
      if bool_decide (length lsns = length payloads) then
        Some ({| sh_hot := sh_hot s; sh_table := sh_table s; sh_md := sh_md s;
                 sh_watermark := sh_watermark s;
                 sh_wal := sh_wal s ++ zip_with (fun lsn p => (lsn, started_at, p)) lsns payloads;
                 sh_tasks := <[tid := {| t_write := w;
                   t_stage := Durable (f ← head lsns; l ← last lsns; Some (f, l)) |}]> (sh_tasks s) |},
              [])
      else None
    | _ => None
    end
  | EvAppendFails tid =>
    match sh_tasks s !! tid with
    | Some {| t_write := w; t_stage := AwaitWal _ _ |} =>
      Some (set_tasks (delete tid (sh_tasks s)) s, [Answered w (Err (WInternal "wal append_many"))])
    | _ => None
    end
  | EvResume tid io committed_at =>
    match sh_tasks s !! tid with
    | Some {| t_write := w; t_stage := Durable lsns |} => resume tid io committed_at w lsns s
    | _ => None
    end
  | EvStamp tid stages =>
    match sh_tasks s !! tid with
    | Some {| t_write := w; t_stage := Fanout ack |} => Some (stamp tid w ack stages s)
    | _ => None
    end
  | EvPrune now ttl max => Some (set_table (prune_expired_bounded (sh_table s) now ttl max).2 s, [])
  | EvRestart durable next_lsn => Some (restart durable next_lsn s, [])
  end.

Fixpoint run (s : Shard) (evs : list Event) : option (Shard * list Effect) :=
  match evs with
  | [] => Some (s, [])
  | ev :: evs =>
    '(s, e1) ← step s ev;
    '(s, e2) ← run s evs;
    Some (s, e1 ++ e2)
  end.

End submit.
Arguments Stage : clear implicits.
Arguments Task : clear implicits.
Arguments Shard : clear implicits.
Arguments Effect : clear implicits.
Arguments Event : clear implicits.
