(* ===== verification/SubmitSpec.v ===== *)
(** What the write path promises: concurrent submissions act one after the other,
    an answer belongs to a commit, and a committed write is not applied again
    while its idempotency row is there. *)

From stdpp Require Import gmap sorting.
From S2P Require Import Prelude Crc32c Ids WalKinds WalRecord WalPayload WalPayloadCodec.
From S2P Require Import Access EdgeTable EdgeApply EdgeRecovery Writer AckCodec Submit.

(** What [submit] relies on: acknowledgements in range, and log payloads that carry
    the id of their write and no response. *)
Definition names_write (id : Uuid) (p : WalPayload) : Prop :=
  forall lsn ts i row, recovered_row lsn ts p = Some (i, row) -> i = id /\ ie_response_payload row = [].

Class PhaseSemLaws P MD `{!PhaseSem P MD} : Prop := {
  dispatch_ack_ok md p w md' a : phase_fits p -> dispatch md p w = Ok (md', a) -> phase_ack_ok a;
  payload_names_write p w pl : phase_to_wal_payload p w = Some pl -> names_write (w_write_id w) pl;
}.

#[export] Instance edge_sem : PhaseSem EdgeApply.Phase Metadata :=
  {| dispatch := edge_dispatch; phase_to_wal_payload p _ := Some (edge_wal_payload p);
     sink_apply := edge_sink; phase_fits _ := True |}.

#[export] Instance edge_sem_laws : PhaseSemLaws EdgeApply.Phase Metadata.
Proof.
  split.
  - intros md p w md' a _ [= E]. destruct p as [k d|k]; cbn in E; [|by simplify_eq].
    unfold apply_link in E. case_match; by simplify_eq.
  - intros p w pl [= <-] lsn ts i row. by destruct p.
Qed.

Section spec.
Context {P MD : Type} `{!PhaseSem P MD}.
Implicit Types (s : Shard P MD) (w : Write P) (effs : list (Effect P)).

(** ** Inversion of the pipeline *)

Definition row_hash (row : IdempotencyEntry) : option bytes :=
  if bool_decide (ie_request_hash row = ZERO_HASH) then None else Some (ie_request_hash row).

Lemma lookup_cases hot t ro now id h r hot' :
  lookup_with_hash hot t ro now id h = (r, hot') ->
  (r = Miss /\ hot' = hot)
  \/ (exists e, hot !! id = Some e /\ r = classify (he_request_hash e) h (he_ack e) /\ hot' = hot)
  \/ (exists row a, t !! id = Some row /\ decode_write_ack (ie_response_payload row) = Ok a
       /\ r = classify (row_hash row) h a
       /\ (hot' = hot \/ hot' = <[id := {| he_ack := a; he_request_hash := row_hash row;
                                           he_created_at := ie_created_at row |}]> hot)).
Proof.
  unfold lookup_with_hash. intros E.
  assert (forall (b : bool) x y, (if b then x else y) = (r, hot') -> x = (r, hot') \/ y = (r, hot')) as Hif
    by (intros []; auto).
  destruct (hot !! id) as [e|] eqn:Eh.
  1: apply Hif in E as [[= <- <-]|E]; [right; left; by exists e|].
  all: apply Hif in E as [[= <- <-]|E]; [by left|].
  all: destruct (t !! id) as [row|] eqn:Et; [|injection E as <- <-; by left].
  all: apply Hif in E as [[= <- <-]|E]; [by left|].
  all: destruct (decode_write_ack _) as [a|] eqn:Ea; [|injection E as <- <-; by left].
  all: injection E as <- <-; right; right; exists row, a; split_and!; try done.
  all: destruct (classify _ _ _); auto.
Qed.

Lemma commit_outcomes io at_ w lsns s r s' :
  apply_and_commit io at_ w lsns s = Some (r, s') ->
  (exists e, r = Err e /\ s' = s)
  \/ exists md acks row, apply_phases (sh_md s) w (w_phases w) = Ok (md, acks)
     /\ idempotency_entry_for (durable_ack w at_ lsns acks) (w_request_hash w) at_ = Some row
     /\ r = Ok (durable_ack w at_ lsns acks)
     /\ s' = commit (<[w_write_id w := row]> (sh_table s)) md
               (match lsns with Some (_, l) => Z.max (sh_watermark s) l | None => sh_watermark s end) s.
Proof.
  unfold apply_and_commit. intros E.
  destruct (io_hnsw io); simplify_eq/=; [|by eauto].
  destruct (io_write_txn io); simplify_eq/=; [|by eauto].
  destruct (apply_phases _ _ _) as [[md acks]|err]; simplify_eq/=; [|by eauto].
  destruct (idempotency_entry_for _ _ _) as [row|] eqn:Er; simplify_eq/=.
  destruct (io_insert io); simplify_eq/=; [|by eauto].
  destruct (io_commit io); simplify_eq/=; [|by eauto]. right. by exists md, acks, row.
Qed.

(** The three ways a [resume] or a [submit] ends. *)
Inductive outcome (tid : nat) w (at_ : Z) (lsns : option (Z * Z)) s : Shard P MD -> list (Effect P) -> Prop :=
| OutFails e :
  outcome tid w at_ lsns s (set_tasks (delete tid (sh_tasks s)) s) [Answered w (Err e)]
| OutCommits md acks row :
  apply_phases (sh_md s) w (w_phases w) = Ok (md, acks) ->
  idempotency_entry_for (durable_ack w at_ lsns acks) (w_request_hash w) at_ = Some row ->
  outcome tid w at_ lsns s
    (set_tasks (<[tid := {| t_write := w; t_stage := Fanout (durable_ack w at_ lsns acks) |}]> (sh_tasks s))
      (commit (<[w_write_id w := row]> (sh_table s)) md
        (match lsns with Some (_, l) => Z.max (sh_watermark s) l | None => sh_watermark s end) s))
    [Applied w (durable_ack w at_ lsns acks)].

Lemma resume_outcome tid io at_ w lsns s s' eff :
  resume tid io at_ w lsns s = Some (s', eff) -> outcome tid w at_ lsns s s' eff.
Proof.
  unfold resume. destruct (apply_and_commit _ _ _ _ _) as [[r s1]|] eqn:E; [|done].
  apply commit_outcomes in E as [(e & -> & ->)|(md & acks & row & Ea & Er & -> & ->)]; intros [= <- <-].
  - constructor.
  - by econstructor.
Qed.

(** A step, by what it does to the state. *)
Inductive moves s : Event P -> Shard P MD -> list (Effect P) -> Prop :=
| MCached tid w now ro sink io at_ found hot' :
  lookup_with_hash (sh_hot s) (sh_table s) ro now (w_write_id w) (w_request_hash w) = (found, hot') ->
  found <> Miss ->
  moves s (EvSubmit tid w now ro sink io at_) (set_hot hot' s)
    [Answered w (match found with Hit a => Ok a | _ => Err (WConflict replay_conflict) end)]
| MWait tid w now ro sink io at_ :
  (lookup_with_hash (sh_hot s) (sh_table s) ro now (w_write_id w) (w_request_hash w)).1 = Miss ->
  let started := now_unix_nanos_or_zero (w_started_at w) now in
  moves s (EvSubmit tid w now ro sink io at_)
    (set_tasks (<[tid := {| t_write := w;
       t_stage := AwaitWal started (Writer.wal_payloads (mapped_write w started)) |}]> (sh_tasks s)) s) []
| MDirect tid w now ro sink io at_ s' eff :
  (lookup_with_hash (sh_hot s) (sh_table s) ro now (w_write_id w) (w_request_hash w)).1 = Miss ->
  sh_tasks s !! tid = None ->
  outcome tid w at_ None s s' eff -> moves s (EvSubmit tid w now ro sink io at_) s' eff
| MDurable tid lsns w started payloads :
  sh_tasks s !! tid = Some {| t_write := w; t_stage := AwaitWal started payloads |} ->
  length lsns = length payloads ->
  moves s (EvDurable tid lsns)
    {| sh_hot := sh_hot s; sh_table := sh_table s; sh_md := sh_md s; sh_watermark := sh_watermark s;
       sh_wal := sh_wal s ++ zip_with (fun lsn p => (lsn, started, p)) lsns payloads;
       sh_tasks := <[tid := {| t_write := w;
         t_stage := Durable (f ← head lsns; l ← last lsns; Some (f, l)) |}]> (sh_tasks s) |} []
| MAppendFails tid w e started payloads :
  sh_tasks s !! tid = Some {| t_write := w; t_stage := AwaitWal started payloads |} ->
  moves s (EvAppendFails tid) (set_tasks (delete tid (sh_tasks s)) s) [Answered w (Err (WInternal e))]
| MResume tid io at_ w lsns s' eff :
  sh_tasks s !! tid = Some {| t_write := w; t_stage := Durable lsns |} ->
  outcome tid w at_ lsns s s' eff -> moves s (EvResume tid io at_) s' eff
| MStamp tid stages w a :
  sh_tasks s !! tid = Some {| t_write := w; t_stage := Fanout a |} ->
  moves s (EvStamp tid stages) (stamp tid w a stages s).1 (stamp tid w a stages s).2
| MPrune now ttl max :
  moves s (EvPrune now ttl max) (set_table (prune_expired_bounded (sh_table s) now ttl max).2 s) []
| MRestart durable next_lsn :
  moves s (EvRestart durable next_lsn) (restart durable next_lsn s) [].

Lemma set_hot_same s : set_hot (sh_hot s) s = s.
Proof. by destruct s. Qed.

Lemma step_moves s ev s' eff : step s ev = Some (s', eff) -> moves s ev s' eff.
Proof.
  destruct ev as [tid w now ro sink io at_|tid lsns|tid|tid io at_|tid stages|now ttl max|d n];
    cbn [step]; intros E.
  - destruct (sh_tasks s !! tid) eqn:Et; [done|]. unfold submit in E.
    destruct (lookup_with_hash _ _ _ _ _ _) as [found hot'] eqn:El.
    destruct found as [|a|]; [|injection E as <- <-; by apply (MCached s _ _ _ _ _ _ _ (Hit a))
                              |injection E as <- <-; by apply (MCached s _ _ _ _ _ _ _ CacheConflict)].
    assert (hot' = sh_hot s) as ->.
    { apply lookup_cases in El as [[_ ->]|[(e & _ & Hc & _)|(row & a & _ & _ & Hc & _)]]; [done|..];
        unfold classify in Hc; repeat case_match; done. }
    rewrite set_hot_same in E. destruct (_ || _).
    + apply resume_outcome in E. apply MDirect; [by rewrite El|done|done].
    + destruct (Writer.wal_records _); simplify_eq/=. apply MWait. by rewrite El.
  - destruct (sh_tasks s !! tid) as [[w [st pl|l|a]]|] eqn:Et; try done.
    case_bool_decide; simplify_eq. by apply MDurable.
  - destruct (sh_tasks s !! tid) as [[w [st pl|l|a]]|] eqn:Et; simplify_eq. by eapply MAppendFails.
  - destruct (sh_tasks s !! tid) as [[w [st pl|l|a]]|] eqn:Et; try done.
    eapply MResume; [done|]. by eapply resume_outcome.
  - destruct (sh_tasks s !! tid) as [[w [st pl|l|a]]|] eqn:Et; try done.
    injection E as <- <-. by apply (MStamp s tid stages w a).
  - injection E as <- <-. apply MPrune.
  - injection E as <- <-. apply MRestart.
Qed.

(** An invariant of the state and the effects so far holds after a run. *)
Lemma run_invariant (I : list (Effect P) -> Shard P MD -> Prop) (ok : Event P -> Prop) :
  (forall effs s ev s' eff, I effs s -> ok ev -> moves s ev s' eff -> I (effs ++ eff) s') ->
  forall evs effs s s' eff, I effs s -> Forall ok evs -> run s evs = Some (s', eff) -> I (effs ++ eff) s'.
Proof.
  intros Hstep evs. induction evs as [|ev evs IH]; intros effs s s' eff HI Hok; simpl.
  { intros [= <- <-]. by rewrite app_nil_r. }
  inversion_clear Hok as [|? ? H1 H2]. destruct (step s ev) as [[s0 e0]|] eqn:E; simpl; [|done].
  destruct (run s0 evs) as [[s9 e9]|] eqn:Er; simpl; [|done]. intros [= <- <-].
  rewrite app_assoc. eapply IH; [|done|done]. eapply Hstep; [done..|]. by apply step_moves.
Qed.

(** ** Answers belong to commits *)

Context `{!PhaseSemLaws P MD}.

Definition write_fits w : Prop :=
  uuid_ok (w_write_id w) /\ short (w_phases w) /\ Forall phase_fits (w_phases w).
Definition lsns_fit (lsns : option (Z * Z)) : Prop :=
  match lsns with Some (f, l) => u64 f /\ u64 l | None => True end.

(** Machine widths: what arrives from the clock, the log and the handlers. *)
Definition event_fits (ev : Event P) : Prop :=
  match ev with
  | EvSubmit _ w _ _ _ _ at_ => write_fits w /\ u64 at_
  | EvDurable _ lsns => Forall (uint 64) lsns
  | EvResume _ _ at_ => u64 at_
  | _ => True
  end.

(** [a] answers for the commit of a write [id] submitted with the hash that [h]
    keeps (an all-zero hash is not told apart from none). *)
Definition from_applied effs (id : Uuid) (h : option bytes) (a : WriteAck) : Prop :=
  exists w' a', Applied w' a' ∈ effs /\ w_write_id w' = id /\ durable_part a = a'
    /\ (h = w_request_hash w' \/ h = None /\ w_request_hash w' = Some ZERO_HASH).

Definition task_fits effs (t : Task P) : Prop :=
  write_fits (t_write t) /\
  match t_stage t with
  | AwaitWal _ payloads => Forall (names_write (w_write_id (t_write t))) payloads
  | Durable lsns => lsns_fit lsns
  | Fanout a => Applied (t_write t) a ∈ effs /\ durable_part a = a
  end.

Record shard_fits effs s : Prop := {
  sf_hot id e : sh_hot s !! id = Some e -> from_applied effs id (he_request_hash e) (he_ack e);
  sf_table id row a : sh_table s !! id = Some row -> decode_write_ack (ie_response_payload row) = Ok a ->
    from_applied effs id (row_hash row) a;
  sf_tasks tid t : sh_tasks s !! tid = Some t -> task_fits effs t;
  sf_wal : Forall (fun r => exists id, names_write id r.2) (sh_wal s);
}.

Lemma from_applied_app effs eff id h a : from_applied effs id h a -> from_applied (effs ++ eff) id h a.
Proof.
  intros (w' & a' & Hin & H). exists w', a'. split; [|done]. apply elem_of_app. by left.
Qed.

Lemma task_fits_app effs eff t : task_fits effs t -> task_fits (effs ++ eff) t.
Proof.
  intros [Hw Hs]. split; [done|]. destruct (t_stage t); [done..|]. destruct Hs as [Hin Hd].
  split; [|done]. apply elem_of_app. by left.
Qed.

Lemma shard_fits_app effs eff s : shard_fits effs s -> shard_fits (effs ++ eff) s.
Proof.
  intros [H1 H2 H3 H4]. split; [| | |done]; intros; [apply from_applied_app|apply from_applied_app|
    apply task_fits_app]; eauto.
Qed.

Lemma apply_phases_acks md w phases md' acks :
  Forall phase_fits phases -> apply_phases md w phases = Ok (md', acks) ->
  Forall phase_ack_ok acks /\ length acks = length phases.
Proof.
  intros Hp. revert md md' acks. induction Hp as [|p phases Hp _ IH]; intros md md' acks; simpl; [by intros [= _ <-]|].
  destruct (dispatch md p w) as [[md1 a]|] eqn:Ed; [|done].
  destruct (apply_phases md1 w phases) as [[md2 acks']|] eqn:Ea; [|done]. intros [= _ <-].
  apply IH in Ea as [Hf Hl]. split; [|simpl; lia]. constructor; [|done]. by eapply dispatch_ack_ok.
Qed.

Lemma durable_ack_ok w at_ lsns md acks md' :
  write_fits w -> u64 at_ -> lsns_fit lsns -> apply_phases md w (w_phases w) = Ok (md', acks) ->
  write_ack_ok (durable_ack w at_ lsns acks).
Proof.
  intros (Hid & Hsh & Hp) Hat Hl Ha. apply apply_phases_acks in Ha as [Hf Hlen]; [|done].
  split; cbn [durable_ack ack_write_id committed_at_unix_nanos lsn_first lsn_last phase_acks]; try done.
  1,2: destruct lsns as [[f l]|]; [destruct Hl; done|done].
  split; [done|]. unfold short in *. by rewrite Hlen.
Qed.

(** The row of a commit reads back as its acknowledgement. *)
Lemma committed_row w at_ lsns acks md md' row :
  write_fits w -> u64 at_ -> lsns_fit lsns -> apply_phases md w (w_phases w) = Ok (md', acks) ->
  idempotency_entry_for (durable_ack w at_ lsns acks) (w_request_hash w) at_ = Some row ->
  decode_write_ack (ie_response_payload row) = Ok (durable_ack w at_ lsns acks)
  /\ ie_created_at row = at_
  /\ (row_hash row = w_request_hash w \/ row_hash row = None /\ w_request_hash w = Some ZERO_HASH).
Proof.
  intros Hw Hat Hl Ha Er. unfold idempotency_entry_for in Er.
  destruct (ack_stored _ (durable_ack_ok _ _ _ _ _ _ Hw Hat Hl Ha)) as (bs & Eb & Hd).
  rewrite Eb in Er. injection Er as <-. unfold row_hash. cbn [ie_response_payload ie_created_at ie_request_hash].
  split_and!; [exact Hd|done|]. destruct (w_request_hash w) as [h|]; cbn [default from_option id].
  - case_bool_decide; naive_solver.
  - rewrite bool_decide_true by done. by left.
Qed.

Lemma wal_payloads_named w started :
  Forall (names_write (w_write_id w)) (Writer.wal_payloads (mapped_write w started)).
Proof.
  assert (Forall (names_write (w_write_id w)) (Writer.mapped (mapped_write w started))) as Hm.
  { apply Forall_forall. intros p Hp. apply list_elem_of_omap in Hp as (ph & _ & E).
    by eapply payload_names_write. }
  unfold Writer.wal_payloads. destruct (Writer.mapped _) as [|p [|q ps]]; [done|done|].
  constructor; [by intros ? ? ? ? [=]|]. apply Forall_app. split; [done|].
  constructor; [by intros ? ? ? ? [=]|done].
Qed.

Lemma lookup_foldr_delete (t : Table) keys id row :
  foldr delete t keys !! id = Some row -> t !! id = Some row.
Proof.
  induction keys as [|k keys IH]; simpl; [done|]. rewrite lookup_delete_Some. intros [_ H]. by apply IH.
Qed.

Lemma prune_subset t now ttl max id row :
  (prune_expired_bounded t now ttl max).2 !! id = Some row -> t !! id = Some row.
Proof.
  unfold prune_expired_bounded. case_match; [done|]. destruct (collect_victims _ _ _ _ _) as [v b].
  apply lookup_foldr_delete.
Qed.

Lemma recovered_rows t rs id row :
  Forall (fun r => exists i, names_write i r.2) rs ->
  foldl recover_row t rs !! id = Some row -> t !! id = Some row \/ ie_response_payload row = [].
Proof.
  intros Hrs. revert t. induction Hrs as [|r rs [i Hi] _ IH]; intros t; simpl; [by left|].
  intros H. apply IH in H as [H|H]; [|by right]. unfold recover_row in H.
  destruct (recovered_row _ _ _) as [[j row']|] eqn:Er; [|by left].
  apply lookup_insert_Some in H as [[_ <-]|[_ H]]; [|by left]. right. by apply Hi in Er as [_ ?].
Qed.

Lemma decode_nil a : decode_write_ack [] <> Ok a.
Proof. done. Qed.

(** An answer [Ok a] to [w] is for a commit of the same id, with the same hash as
    far as both have one that is kept. *)
Definition answer_fits effs (e : Effect P) : Prop :=
  match e with
  | Answered w (Ok a) =>
    exists w' a', Applied w' a' ∈ effs /\ w_write_id w' = w_write_id w /\ durable_part a = a'
      /\ (w_request_hash w' = w_request_hash w \/ w_request_hash w = None
          \/ w_request_hash w' = None \/ w_request_hash w' = Some ZERO_HASH)
  | _ => True
  end.

Lemma answer_fits_app effs eff e : answer_fits effs e -> answer_fits (effs ++ eff) e.
Proof.
  destruct e as [w [a|]|]; [|done..]. intros (w' & a' & Hin & H). exists w', a'. split; [|done].
  apply elem_of_app. by left.
Qed.

Lemma classify_answer effs id h a w x :
  from_applied effs id h a -> w_write_id w = id -> classify h (w_request_hash w) a = Hit x ->
  answer_fits effs (Answered w (Ok x)).
Proof.
  intros (w' & a' & Hin & Hid & Hd & Hh) Hw Hc. unfold classify in Hc. exists w', a'.
  destruct h as [h|], (w_request_hash w) as [h'|]; try case_bool_decide; simplify_eq;
    split_and!; try done; naive_solver.
Qed.

Lemma lookup_fits effs s ro now w found hot' :
  shard_fits effs s ->
  lookup_with_hash (sh_hot s) (sh_table s) ro now (w_write_id w) (w_request_hash w) = (found, hot') ->
  shard_fits effs (set_hot hot' s)
  /\ forall x, found = Hit x -> answer_fits effs (Answered w (Ok x)).
Proof.
  intros Hs El. apply lookup_cases in El as [[-> ->]|[(e & He & -> & ->)|(row & a & Ht & Ha & -> & Hh)]].
  - rewrite set_hot_same. by split.
  - rewrite set_hot_same. split; [done|]. intros x Hx. eapply classify_answer; [|done|done].
    by apply (sf_hot _ _ Hs).
  - pose proof (sf_table _ _ Hs _ _ _ Ht Ha) as Hf. split.
    + destruct Hh as [->| ->]; [by rewrite set_hot_same|]. destruct Hs as [H1 H2 H3 H4].
      split; [|done..]. cbn. intros id e. rewrite lookup_insert_Some. intros [[<- <-]|[_ H]]; [done|eauto].
    + intros x Hx. by eapply classify_answer.
Qed.

Lemma tasks_insert effs s tid t :
  shard_fits effs s -> task_fits effs t -> shard_fits effs (set_tasks (<[tid := t]> (sh_tasks s)) s).
Proof.
  intros [H1 H2 H3 H4] Ht. split; [done|done| |done]. cbn. intros i t'.
  rewrite lookup_insert_Some. intros [[_ <-]|[_ H]]; [done|eauto].
Qed.

Lemma tasks_delete effs s tid :
  shard_fits effs s -> shard_fits effs (set_tasks (delete tid (sh_tasks s)) s).
Proof.
  intros [H1 H2 H3 H4]. split; [done|done| |done]. cbn. intros i t'. rewrite lookup_delete_Some.
  intros [_ H]. eauto.
Qed.

Lemma outcome_fits effs tid w at_ lsns s s' eff :
  shard_fits effs s -> write_fits w -> u64 at_ -> lsns_fit lsns -> outcome tid w at_ lsns s s' eff ->
  shard_fits (effs ++ eff) s' /\ Forall (answer_fits (effs ++ eff)) eff.
Proof.
  intros Hs Hw Hat Hl [e|md acks row Ha Er]; split; try by repeat constructor.
  - by apply shard_fits_app, tasks_delete.
  - destruct (committed_row _ _ _ _ _ _ _ Hw Hat Hl Ha Er) as (Hd & _ & Hh).
    assert (Applied w (durable_ack w at_ lsns acks) ∈ effs ++ [Applied w (durable_ack w at_ lsns acks)])
      as Hin by (apply elem_of_app; right; by apply list_elem_of_singleton).
    apply (shard_fits_app _ [Applied w (durable_ack w at_ lsns acks)]) in Hs as [H1 H2 H3 H4].
    apply (tasks_insert _ (commit _ _ _ s)); [|split; [done|by split]]. split; [done| |done|done]. cbn.
    intros id r a. rewrite lookup_insert_Some. intros [[<- <-]|[_ H]] E; [|eauto].
    rewrite Hd in E. injection E as <-. exists w, (durable_ack w at_ lsns acks). by split_and!.
Qed.

Lemma moves_fits effs s ev s' eff :
  shard_fits effs s -> event_fits ev -> moves s ev s' eff ->
  shard_fits (effs ++ eff) s' /\ Forall (answer_fits (effs ++ eff)) eff.
Proof.
  intros Hs Hev Hm. pose proof (shard_fits_app effs eff s Hs) as Hs'.
  destruct Hm as [tid w now ro sink io at_ found hot' El Hf|tid w now ro sink io at_ El
    |tid w now ro sink io at_ s' eff El Et Ho|tid lsns w started payloads Et Elen|tid w e started payloads Et
    |tid io at_ w lsns s' eff Et Ho|tid stages w a Et|now ttl max|d n].
  - destruct (lookup_fits _ _ _ _ _ _ _ Hs El) as [H1 H2]. split; [by apply shard_fits_app|].
    constructor; [|done]. destruct found as [|a|]; [done| |done]. by apply answer_fits_app, H2.
  - split; [|done]. rewrite app_nil_r. destruct Hev as [Hw _].
    apply tasks_insert; [done|]. split; [done|]. apply wal_payloads_named.
  - destruct Hev as [Hw Hat]. by apply (outcome_fits _ tid w at_ None s).
  - split; [|done]. rewrite app_nil_r. pose proof (sf_tasks _ _ Hs _ _ Et) as [Hw Hp]. cbn in Hw, Hp.
    assert (lsns_fit (f ← head lsns; l ← last lsns; Some (f, l))) as Hl.
    { cbn in Hev. destruct (head lsns) as [f|] eqn:Ef, (last lsns) as [l|] eqn:E2; cbn; try done.
      rewrite Forall_forall in Hev. split; apply Hev; [by apply head_Some_elem_of|by apply last_Some_elem_of]. }
    destruct Hs as [H1 H2 H3 H4]. split; [done|done| |].
    + cbn. intros i t. rewrite lookup_insert_Some. intros [[_ <-]|[_ H]]; [by split|eauto].
    + cbn. apply Forall_app. split; [done|]. apply Forall_zip_with_snd with (P := names_write (w_write_id w)); [|done].
      apply Forall_true. intros lsn p Hn. by exists (w_write_id w).
  - split; [by apply tasks_delete|by repeat constructor].
  - pose proof (sf_tasks _ _ Hs _ _ Et) as [Hw Hl]. by apply (outcome_fits _ tid w at_ lsns s).
  - pose proof (sf_tasks _ _ Hs _ _ Et) as [Hw [Hin Hd]]. cbn in Hin, Hd, Hw. split.
    + unfold stamp. cbn [fst]. apply (tasks_delete _ (set_hot _ s)). destruct Hs' as [H1 H2 H3 H4].
      split; [|done..]. cbn. intros id e. rewrite lookup_insert_Some. intros [[<- <-]|[_ H]]; [|eauto].
      exists w, a. split_and!; [apply elem_of_app; by left|done|by rewrite <- Hd at 6|by left].
    + repeat constructor. exists w, a. split_and!; [apply elem_of_app; by left|done|by rewrite <- Hd at 6|by left].
  - split; [|done]. destruct Hs' as [H1 H2 H3 H4]. split; [done| |done|done]. cbn.
    intros id row a Hr. apply prune_subset in Hr. eauto.
  - split; [|done]. destruct Hs' as [H1 H2 H3 H4]. cbn. split; cbn; [done| |done|done].
    intros id row a Hr Ha. apply recovered_rows in Hr as [Hr|Hr]; [eauto|by rewrite Hr in Ha|].
    apply Forall_forall. intros r [_ Hi]%list_elem_of_filter. by eapply Forall_forall in H4.
Qed.

(** ** One after the other *)

Definition fresh (md : MD) : Shard P MD :=
  {| sh_hot := ∅; sh_table := ∅; sh_md := md; sh_watermark := 0; sh_wal := []; sh_tasks := ∅ |}.

Definition applied (effs : list (Effect P)) : list (Write P * WriteAck) :=
  omap (fun e => match e with Applied w a => Some (w, a) | _ => None end) effs.

(** The phases [ps] of [w] one after the other, all of them accepted. *)
Inductive applies (w : Write P) : MD -> list P -> list PhaseAck -> MD -> Prop :=
| applies_nil md : applies w md [] [] md
| applies_cons md p md1 a ps acks md2 :
  dispatch md p w = Ok (md1, a) -> applies w md1 ps acks md2 -> applies w md (p :: ps) (a :: acks) md2.

Lemma apply_phases_applies w md ps md' acks :
  apply_phases md w ps = Ok (md', acks) -> applies w md ps acks md'.
Proof.
  revert md acks. induction ps as [|p ps IH]; intros md acks; simpl; [by intros [= <- <-]; constructor|].
  destruct (dispatch md p w) as [[md1 a]|] eqn:Ed; simpl; [|done].
  destruct (apply_phases md1 w ps) as [[md2 as_]|] eqn:Ea; simpl; [|done].
  intros [= <- <-]. econstructor; [done|by apply IH].
Qed.

(** The writes of [l], each whole, in this order, with the answers of their phases. *)
Inductive serial (md : MD) : list (Write P * WriteAck) -> MD -> Prop :=
| serial_nil : serial md [] md
| serial_snoc l md1 w a md2 :
  serial md l md1 -> applies w md1 (w_phases w) (phase_acks a) md2 ->
  serial md (l ++ [(w, a)]) md2.

Definition no_restart (ev : Event P) : Prop := match ev with EvRestart _ _ => False | _ => True end.

Definition highest (l : list (Write P * WriteAck)) : Z := foldl Z.max 0 (map (fun x => lsn_last x.2) l).

Lemma fresh_fits md : shard_fits [] (fresh md).
Proof. split; cbn; try done; intros *; by rewrite lookup_empty. Qed.

Lemma moves_serial md effs s ev s' eff :
  serial md (applied effs) (sh_md s) /\ sh_watermark s = highest (applied effs) /\ 0 <= sh_watermark s ->
  no_restart ev -> moves s ev s' eff ->
  serial md (applied (effs ++ eff)) (sh_md s') /\ sh_watermark s' = highest (applied (effs ++ eff))
  /\ 0 <= sh_watermark s'.
Proof.
  intros (Hs & Hw & H0) Hr Hm. unfold applied in *. rewrite omap_app.
  destruct Hm as [? ? ? ? ? ? ? [] ? _ ?|? ? ? ? ? ? ? _| ? ? ? ? ? ? ? ? ? _ _ Ho| | |? ? ? ? ? ? ? _ Ho
    | | | ]; cbn [omap list_omap]; rewrite ?app_nil_r; try done.
  all: destruct Ho as [e|md' acks row Ha _]; cbn [omap list_omap]; rewrite ?app_nil_r; [done|].
  all: split; [eapply serial_snoc; [done|by apply apply_phases_applies]|]. all: unfold highest in *; rewrite map_app, foldl_app, <- Hw; cbn.
  all: try destruct lsns as [[f l]|]; cbn; lia.
Qed.

(** C7: Concurrent submissions act one after the other.  From a fresh shard, in any
    interleaving of submissions, answers of the log, commits, failures of the
    index or the store and sweeps, the metadata is what the committed writes
    give when each is applied whole, in the order of their commits, with the
    phase answers they acknowledged, and the watermark is the highest LSN of a
    committed write.  With restarts and replays in between as well, whoever is
    answered [Ok] is answered for a commit of the same write id, with the same
    request hash unless one of the two has none that is kept. *)
Theorem submit_serializable (md : MD) (evs : list (Event P)) s effs
    (Hfits : Forall event_fits evs) (Hrun : run (fresh md) evs = Some (s, effs)) :
  Forall (answer_fits effs) effs
  /\ (Forall no_restart evs ->
      serial md (applied effs) (sh_md s) /\ sh_watermark s = highest (applied effs)).
Proof.
  split.
  - destruct (run_invariant (fun effs s => shard_fits effs s /\ Forall (answer_fits effs) effs) event_fits)
      with (evs := evs) (effs := @nil (Effect P)) (s := fresh md) (s' := s) (eff := effs)
      as [_ H]; [|by split; [apply fresh_fits|]|done|done|done].
    intros effs' s1 ev s2 eff [H1 H2] Hev Hm. destruct (moves_fits _ _ _ _ _ H1 Hev Hm) as [H3 H4].
    split; [done|]. apply Forall_app. split; [|done]. eapply Forall_impl; [done|]. intros e.
    apply answer_fits_app.
  - intros Hnr. destruct (run_invariant (fun effs s => serial md (applied effs) (sh_md s)
        /\ sh_watermark s = highest (applied effs) /\ 0 <= sh_watermark s) no_restart)
      with (evs := evs) (effs := @nil (Effect P)) (s := fresh md) (s' := s) (eff := effs)
      as (H1 & H2 & _); [|by split; [constructor|]|done|done|done].
    intros effs' s1 ev s2 eff H Hev Hm. by eapply moves_serial.
Qed.

(** ** What sweeps and replays leave *)

Lemma collect_expired now ttl max rows victims :
  Forall (fun k => k ∈ victims \/ exists row, (k, row) ∈ rows /\ is_expired row now ttl = true)
    (collect_victims now ttl max rows victims).1.
Proof.
  revert victims. induction rows as [|[k row] rows IH]; intros victims; simpl.
  { apply Forall_forall. by left. }
  assert (forall v, (forall x, x ∈ v -> x ∈ victims \/ x = k /\ is_expired row now ttl = true) ->
    Forall (fun x => x ∈ victims \/ exists r, (x, r) ∈ (k, row) :: rows /\ is_expired r now ttl = true) v) as Hv.
  { intros v H. apply Forall_forall. intros x [Hx|[-> Hx]]%H; [by left|]. right. exists row.
    split; [|done]. apply list_elem_of_here. }
  assert (forall v, (forall x, x ∈ v -> x ∈ victims \/ x = k /\ is_expired row now ttl = true) ->
    Forall (fun x => x ∈ victims \/ exists r, (x, r) ∈ (k, row) :: rows /\ is_expired r now ttl = true)
      (collect_victims now ttl max rows v).1) as Hc.
  { intros v H. eapply Forall_impl; [apply IH|]. intros x [Hx|(r & Hr & He)].
    - by apply H in Hx as [Hx|[-> Hx]]; [left|right; exists row; split; [apply list_elem_of_here|]].
    - right. exists r. split; [|done]. by apply list_elem_of_further. }
  destruct (is_expired row now ttl) eqn:E; [|apply Hc; by left].
  case_match; [apply Hv|apply Hc]; intros x [Hx|Hx%list_elem_of_singleton]%elem_of_app; auto.
Qed.

Lemma foldr_delete_keeps (t : Table) keys id : id ∉ keys -> foldr delete t keys !! id = t !! id.
Proof.
  induction keys as [|k keys IH]; simpl; [done|]. rewrite not_elem_of_cons. intros [Hk Hks].
  rewrite lookup_delete_ne by done. by apply IH.
Qed.

Lemma prune_keeps (t : Table) now ttl max id row :
  t !! id = Some row -> is_expired row now ttl = false ->
  (prune_expired_bounded t now ttl max).2 !! id = Some row.
Proof.
  intros Ht He. unfold prune_expired_bounded. case_match; [done|].
  pose proof (collect_expired now ttl max (iter t) []) as Hc.
  destruct (collect_victims _ _ _ _ _) as [v b]. cbn in *. rewrite foldr_delete_keeps; [done|].
  intros Hin. rewrite Forall_forall in Hc. destruct (Hc _ Hin) as [H0|(row' & Hr & He')].
  { by apply not_elem_of_nil in H0. }
  unfold iter in Hr. rewrite merge_sort_Permutation, elem_of_map_to_list in Hr. congruence.
Qed.

Lemma recover_rows_other t rs id :
  Forall (fun r => ~ exists row, recovered_row r.1.1 r.1.2 r.2 = Some (id, row)) rs ->
  foldl recover_row t rs !! id = t !! id.
Proof.
  intros Hrs. revert t. induction Hrs as [|r rs Hr _ IH]; intros t; simpl; [done|]. rewrite IH.
  unfold recover_row. destruct (recovered_row _ _ _) as [[j row]|] eqn:E; [|done].
  apply lookup_insert_ne. intros ->. eauto.
Qed.

(** ** Once and only once *)

Definition names_id (id : Uuid) (r : Z * Z * WalPayload) : Prop :=
  exists row, recovered_row r.1.1 r.1.2 r.2 = Some (id, row).

Section settled.
Variables (id : Uuid) (h : option bytes) (ack : WriteAck) (wal : list (Z * Z * WalPayload)).

(** The write [id] is committed with the answer [ack], and nothing in flight could
    commit it again; [wal] are the records that may carry it. *)
Record settled s : Prop := {
  st_row : exists row, sh_table s !! id = Some row
    /\ decode_write_ack (ie_response_payload row) = Ok ack
    /\ ie_created_at row = committed_at_unix_nanos ack /\ row_hash row = h;
  st_hot e : sh_hot s !! id = Some e ->
    durable_part (he_ack e) = ack /\ he_request_hash e = h
    /\ he_created_at e = committed_at_unix_nanos ack;
  st_own tid t : sh_tasks s !! tid = Some t -> w_write_id (t_write t) = id ->
    t_stage t = Fanout ack /\ w_request_hash (t_write t) = h;
  st_others tid t started payloads : sh_tasks s !! tid = Some t -> t_stage t = AwaitWal started payloads ->
    Forall (names_write (w_write_id (t_write t))) payloads;
  st_wal : Forall (fun r => names_id id r -> r ∈ wal) (sh_wal s);
}.

(** Events within the lifetime of the row: lookups of [id] that reach the store, sweeps
    for which it is not expired, restarts that do not replay its records. *)
Definition gentle (ev : Event P) : Prop :=
  match ev with
  | EvSubmit _ w now read_ok _ _ _ => w_write_id w = id ->
    read_ok = true /\ now <= sat_add64 (committed_at_unix_nanos ack) DEFAULT_TTL_NANOS
  | EvPrune now ttl _ => now <= sat_add64 (committed_at_unix_nanos ack) ttl
  | EvRestart durable _ => Forall (fun r => names_id id r -> r.1.1 <= durable) wal
  | _ => True
  end.

(** How a request for [id] with the hash [h'] is answered. *)
Definition replayed (h' : option bytes) (r : result WriteAck WriterError) : Prop :=
  match classify h h' ack with
  | Hit _ => exists a, r = Ok a /\ durable_part a = ack
  | _ => r = Err (WConflict replay_conflict)
  end.

Definition quiet (e : Effect P) : Prop :=
  match e with
  | Applied w _ => w_write_id w <> id
  | Answered w r => w_write_id w = id -> replayed (w_request_hash w) r
  end.

Lemma classify_replayed h' a found :
  durable_part a = ack -> found = classify h h' a ->
  found <> Miss
  /\ replayed h' (match found with Hit a => Ok a | _ => Err (WConflict replay_conflict) end).
Proof.
  intros Hd ->. unfold replayed, classify. destruct h, h'; try case_bool_decide; naive_solver.
Qed.

Lemma lookup_settled s now h' found hot' :
  settled s -> now <= sat_add64 (committed_at_unix_nanos ack) DEFAULT_TTL_NANOS ->
  lookup_with_hash (sh_hot s) (sh_table s) true now id h' = (found, hot') ->
  durable_part ack = ack ->
  found <> Miss
  /\ replayed h' (match found with Hit a => Ok a | _ => Err (WConflict replay_conflict) end).
Proof.
  intros Hs Hnow El Hd. destruct (st_row _ Hs) as (row & Er & Edec & Eat & Eh).
  unfold lookup_with_hash in El. destruct (sh_hot s !! id) as [e|] eqn:Ehot.
  - destruct (st_hot _ Hs e Ehot) as (H1 & H2 & H3). rewrite H3, (proj2 (Z.leb_le _ _)) in El by done.
    injection El as <- _. eapply classify_replayed; [exact H1|]. by rewrite H2.
  - cbn [negb] in El. rewrite Er in El. unfold is_expired in El.
    rewrite Eat, (proj2 (Z.ltb_ge _ _)), Edec in El by done. injection El as <- _.
    eapply classify_replayed; [exact Hd|]. by rewrite <- Eh.
Qed.

Hypothesis Hack : durable_part ack = ack.

Lemma own_stage s tid w stage :
  settled s -> sh_tasks s !! tid = Some {| t_write := w; t_stage := stage |} ->
  stage <> Fanout ack -> w_write_id w <> id.
Proof. intros Hs Et Hst Hid. by destruct (st_own _ Hs _ _ Et Hid). Qed.

Lemma settled_tasks s tasks :
  settled s ->
  (forall tid t, tasks !! tid = Some t -> sh_tasks s !! tid = Some t
     \/ (w_write_id (t_write t) <> id
         /\ forall st pl, t_stage t = AwaitWal st pl -> Forall (names_write (w_write_id (t_write t))) pl)
     \/ t_stage t = Fanout ack /\ w_request_hash (t_write t) = h) ->
  settled (set_tasks tasks s).
Proof.
  intros [H1 H2 H3 H4 H5] Ht. split; cbn; [done|done| | |done].
  - intros tid t E Hid. destruct (Ht _ _ E) as [H|[[H _]|H]]; [eauto|done|done].
  - intros tid t st pl E Hst. destruct (Ht _ _ E) as [H|[[_ H]|[H _]]]; [eauto|eauto|congruence].
Qed.

Lemma settled_insert s tid t :
  settled s -> w_write_id (t_write t) <> id ->
  (forall st pl, t_stage t = AwaitWal st pl -> Forall (names_write (w_write_id (t_write t))) pl) ->
  settled (set_tasks (<[tid := t]> (sh_tasks s)) s).
Proof.
  intros Hs Hid Hst. apply settled_tasks; [done|]. intros i t'. rewrite lookup_insert_Some.
  intros [[_ <-]|[_ H]]; [by right; left|by left].
Qed.

Lemma settled_delete s tid : settled s -> settled (set_tasks (delete tid (sh_tasks s)) s).
Proof.
  intros Hs. apply settled_tasks; [done|]. intros i t'. rewrite lookup_delete_Some. intros [_ H]. by left.
Qed.

Lemma settled_outcome s tid w at_ lsns s' eff :
  settled s -> w_write_id w <> id -> outcome tid w at_ lsns s s' eff -> settled s' /\ Forall quiet eff.
Proof.
  intros Hs Hid [e|md acks row _ _]; (split; [|constructor; [by intros ?|done]]).
  - by apply settled_delete.
  - apply (settled_insert (commit _ _ _ s)); [|done|by intros]. destruct Hs as [H1 H2 H3 H4 H5].
    split; cbn; [|done..]. rewrite lookup_insert_ne by done. done.
Qed.

Lemma settled_moves s ev s' eff :
  settled s -> gentle ev -> moves s ev s' eff -> settled s' /\ Forall quiet eff.
Proof.
  intros Hs Hg Hm.
  destruct Hm as [tid w now ro sink io at_ found hot' El Hf|tid w now ro sink io at_ El
    |tid w now ro sink io at_ s' eff El Et Ho|tid lsns w started payloads Et Elen|tid w e started payloads Et
    |tid io at_ w lsns s' eff Et Ho|tid stages w a Et|now ttl max|d n].
  - split.
    + apply lookup_cases in El as [[-> _]|[(e & _ & _ & ->)|(row & a & Er & Ea & _ & Hh)]];
        [done|by rewrite set_hot_same|].
      destruct Hh as [->| ->]; [by rewrite set_hot_same|].
      destruct Hs as [(row' & Er' & Ed & Eat & Eh) H2 H3 H4 H5]. split; [by exists row'| |done..]. cbn.
      intros e. rewrite lookup_insert_Some. intros [[Hid <-]|[_ H]]; [|eauto]. cbn.
      rewrite Hid, Er' in Er. injection Er as <-. rewrite Ed in Ea. by injection Ea as <-.
    + constructor; [|done]. intros Hid. destruct (Hg Hid) as [-> Hnow]. rewrite Hid in El.
      by eapply lookup_settled.
  - assert (w_write_id w <> id) as Hid.
    { intros Hid. destruct (Hg Hid) as [-> Hnow]. rewrite Hid in El.
      destruct (lookup_with_hash _ _ _ _ _ _) as [found hot'] eqn:E.
      by destruct (lookup_settled _ _ _ _ _ Hs Hnow E Hack) as [Hm _]. }
    split; [|done]. apply settled_insert; [done|done|]. intros st pl [= <- <-]. apply wal_payloads_named.
  - assert (w_write_id w <> id) as Hid.
    { intros Hid. destruct (Hg Hid) as [-> Hnow]. rewrite Hid in El.
      destruct (lookup_with_hash _ _ _ _ _ _) as [found hot'] eqn:E.
      by destruct (lookup_settled _ _ _ _ _ Hs Hnow E Hack) as [Hm _]. }
    by eapply settled_outcome.
  - pose proof (own_stage _ _ _ _ Hs Et ltac:(done)) as Hid. split; [|done].
    pose proof (st_others _ Hs _ _ _ _ Et eq_refl) as Hp. cbn in Hp.
    destruct (settled_insert _ tid {| t_write := w;
      t_stage := Durable (f ← head lsns; l ← last lsns; Some (f, l)) |} Hs Hid ltac:(done)) as [H1 H2 H3 H4 H5].
    split; [done|done|done|done|]. cbn. apply Forall_app. split; [done|].
    apply Forall_zip_with_snd with (P := names_write (w_write_id w)); [|done].
    apply Forall_true. intros lsn p Hn [row Hr]. apply Hn in Hr as [Hr _]. congruence.
  - pose proof (own_stage _ _ _ _ Hs Et ltac:(done)) as Hid.
    split; [by apply settled_delete|constructor; [by intros ?|done]].
  - pose proof (own_stage _ _ _ _ Hs Et ltac:(done)) as Hid. by eapply settled_outcome.
  - destruct (decide (w_write_id w = id)) as [Hid|Hid].
    + destruct (st_own _ Hs _ _ Et Hid) as [[= ->] Hh]. cbn in Hh. split.
      * apply (settled_delete (set_hot _ s)). destruct Hs as [H1 H2 H3 H4 H5].
        split; [done| |done..]. cbn. intros e. rewrite lookup_insert_Some.
        intros [[_ <-]|[_ H]]; [|eauto]. cbn. split_and!; [by rewrite <- Hack at 6|done|done].
      * constructor; [|done]. intros _. unfold replayed, classify. rewrite Hh.
        destruct h; [rewrite bool_decide_false by naive_solver|]; eexists; (split; [done|]);
          by rewrite <- Hack at 6.
    + split; [|constructor; [by intros ?|done]]. apply (settled_delete (set_hot _ s)).
      destruct Hs as [H1 H2 H3 H4 H5]. split; [done| |done..]. cbn. rewrite lookup_insert_ne by done. done.
  - split; [|done]. destruct Hs as [(row & Er & Ed & Eat & Eh) H2 H3 H4 H5]. split; cbn; [|done..].
    exists row. split; [|done]. apply prune_keeps; [done|]. unfold is_expired. rewrite Eat.
    by apply Z.ltb_ge.
  - split; [|done]. destruct Hs as [(row & Er & Ed & Eat & Eh) H2 H3 H4 H5]. split; cbn; [|done..].
    exists row. split; [|done]. rewrite recover_rows_other; [done|]. apply Forall_forall.
    intros r [Hd Hr]%list_elem_of_filter Hn. rewrite Forall_forall in H5. cbn in Hg.
    rewrite Forall_forall in Hg. specialize (Hg r (H5 r Hr Hn) Hn). lia.
Qed.
End settled.

Lemma commit_move s ev s1 w ack effs :
  shard_fits effs s -> event_fits ev -> moves s ev s1 [Applied w ack] ->
  exists tid at_ lsns, outcome tid w at_ lsns s s1 [Applied w ack]
    /\ write_fits w /\ u64 at_ /\ lsns_fit lsns.
Proof.
  intros Hs Hev Hm. inversion Hm as [| |tid w' now ro sink io at_ s' eff _ _ Ho| | |
    tid io at_ w' lsns s' eff Et Ho| | |]; subst.
  - assert (w' = w) as -> by (inversion Ho; congruence). destruct Hev. by exists tid, at_, None.
  - assert (w' = w) as -> by (inversion Ho; congruence).
    destruct (sf_tasks _ _ Hs _ _ Et) as [Hw Hl]. by exists tid, at_, lsns.
Qed.

Lemma commit_settles effs s ev s1 w ack :
  shard_fits effs s -> event_fits ev -> moves s ev s1 [Applied w ack] ->
  w_request_hash w <> Some ZERO_HASH -> sh_hot s !! w_write_id w = None ->
  (forall tid t, sh_tasks s1 !! tid = Some t -> w_write_id (t_write t) = w_write_id w ->
     t = {| t_write := w; t_stage := Fanout ack |}) ->
  settled (w_write_id w) (w_request_hash w) ack (sh_wal s1) s1 /\ durable_part ack = ack.
Proof.
  intros Hs Hev Hm Hh Hhot Halone. pose proof (moves_fits _ _ _ _ _ Hs Hev Hm) as [Hs1 _].
  destruct (commit_move _ _ _ _ _ _ Hs Hev Hm) as (tid & at_ & lsns & Ho & Hw & Hat & Hl).
  inversion Ho as [|md' acks row Ha Er E1 E2]; subst. split; [|done].
  destruct (committed_row _ _ _ _ _ _ _ Hw Hat Hl Ha Er) as (Hd & Hc & Hr).
  split.
  - exists row. cbn. rewrite lookup_insert_eq. split_and!; [done..|]. naive_solver.
  - cbn. rewrite Hhot. done.
  - intros i t Et Hid. by rewrite (Halone i t Et Hid).
  - intros i t st pl Et Est. pose proof (sf_tasks _ _ Hs1 _ _ Et) as [_ H]. by rewrite Est in H.
  - apply Forall_forall. by intros.
Qed.

(** C4: A committed write is applied once.  On a reachable shard let a write
    commit whose id is not in the hot cache and whose request hash is not all
    zeros, with no other submission of that id in flight (the code does not
    serialise them: [concurrent_submit_applied_twice]).  Then, for the lifetime
    of its row, as long as the lookups of that id can read the store (a lookup
    that fails to read applies the write again), whatever else happens (other
    submissions and commits, failures of them, sweeps with any retention for
    which the row is not expired, restarts that replay none of its records):
    no write of that id is applied again, and every answer to a request for it
    is the acknowledgement of that commit if the request hashes agree or one
    is missing, and a conflict otherwise. *)
Theorem submit_exactly_once (md : MD) (before : list (Event P)) s effs (ev : Event P) w ack s1
    (evs : list (Event P)) s2 eff
    (Hfits : Forall event_fits (ev :: before)) (Hbefore : run (fresh md) before = Some (s, effs))
    (Hcommit : step s ev = Some (s1, [Applied w ack]))
    (Hhash : w_request_hash w <> Some ZERO_HASH) (Hhot : sh_hot s !! w_write_id w = None)
    (Halone : forall tid t, sh_tasks s1 !! tid = Some t -> w_write_id (t_write t) = w_write_id w ->
       t = {| t_write := w; t_stage := Fanout ack |})
    (Hgentle : Forall (gentle (w_write_id w) ack (sh_wal s1)) evs)
    (Hrun : run s1 evs = Some (s2, eff)) :
  Forall (quiet (w_write_id w) (w_request_hash w) ack) eff.
Proof.
  inversion_clear Hfits as [|? ? Hev Hbs].
  assert (shard_fits effs s) as Hs.
  { apply (run_invariant shard_fits event_fits) with (evs := before) (effs := @nil (Effect P)) (s := fresh md);
      [|apply fresh_fits|done|done]. intros. by eapply moves_fits. }
  destruct (commit_settles effs s ev s1 w ack) as [Hset Hack]; [done|done|by apply step_moves|done..|].
  destruct (run_invariant (fun effs s => settled (w_write_id w) (w_request_hash w) ack (sh_wal s1) s
      /\ Forall (quiet (w_write_id w) (w_request_hash w) ack) effs) (gentle (w_write_id w) ack (sh_wal s1)))
    with (evs := evs) (effs := @nil (Effect P)) (s := s1) (s' := s2) (eff := eff) as [_ H];
    [|by split|done|done|done].
  intros effs' s' ev' s'' eff' [H1 H2] Hg Hm.
  destruct (settled_moves _ _ _ _ Hack _ _ _ _ H1 Hg Hm) as [H3 H4]. split; [done|]. by apply Forall_app.
Qed.

End spec.
