(* ===== verification/SubmitExamples.v ===== *)
(** Runs of the write path on edge writes: witnesses of its theorems, and the ways in
    which a write is applied twice or its answer is lost. *)

From stdpp Require Import gmap sorting.
From S2P Require Import Prelude Crc32c Ids WalKinds WalRecord WalPayload WalPayloadCodec.
From S2P Require Import Access EdgeTable EdgeApply EdgeRecovery Writer AckCodec Submit SubmitSpec.

Module SubmitExample.

Definition wid (n : Z) : Uuid := replicate 15 Byte.x00 ++ [byte_of n].
Definition hash (n : Z) : bytes := replicate 31 Byte.x00 ++ [byte_of n].

(** A write [n] of tenant A with request hash [h]: link or unlink 1 -> 2. *)
Definition link_write (n h : Z) : Write EdgeApply.Phase :=
  {| w_write_id := wid n; w_space := EdgeApplyExample.spaceA; w_namespace := 1; w_space_string := [];
     w_started_at := 0;
     w_phases := [PhaseLink (EdgeApplyExample.edge Caused 1 2) EdgeTableExample.d1];
     w_request_hash := Some (hash h) |}.
Definition unlink_write (n h : Z) : Write EdgeApply.Phase :=
  {| w_write_id := wid n; w_space := EdgeApplyExample.spaceA; w_namespace := 1; w_space_string := [];
     w_started_at := 0; w_phases := [PhaseUnlink (EdgeApplyExample.edge Caused 1 2)];
     w_request_hash := Some (hash h) |}.

Definition io_ok : CommitIo :=
  {| io_hnsw := true; io_write_txn := true; io_insert := true; io_commit := true |}.
Definition shard0 : Shard EdgeApply.Phase Metadata := fresh EdgeApplyExample.md0.
Definition call (tid : nat) (w : Write EdgeApply.Phase) (now : Z) : Event EdgeApply.Phase :=
  EvSubmit tid w now true true io_ok now.

(** Two writes interleave; the second one commits first. *)
Definition interleaved : list (Event EdgeApply.Phase) :=
  [call 0 (link_write 1 1) 10; call 1 (unlink_write 2 2) 11; EvDurable 0 [1]; EvDurable 1 [2];
   EvResume 1 io_ok 12; EvResume 0 io_ok 13; EvStamp 0 []; EvPrune 20 DEFAULT_TTL_NANOS 1000; EvStamp 1 []].

Lemma fits_interleaved : Forall event_fits interleaved.
Proof.
  unfold interleaved. repeat apply Forall_cons_2; try done; repeat split; try done; by repeat constructor.
Qed.

Definition after (evs : list (Event EdgeApply.Phase)) : Shard EdgeApply.Phase Metadata :=
  default shard0 (fst <$> run shard0 evs).
Definition effects (evs : list (Event EdgeApply.Phase)) : list (Effect EdgeApply.Phase) :=
  default [] (snd <$> run shard0 evs).

Lemma some_outcome {A B} (o : option (A * B)) a b :
  bool_decide (is_Some o) = true -> o = Some (default a (fst <$> o), default b (snd <$> o)).
Proof. rewrite bool_decide_eq_true. destruct o as [[]|]; [done|by intros []]. Qed.

Lemma run_after evs :
  bool_decide (is_Some (run shard0 evs)) = true -> run shard0 evs = Some (after evs, effects evs).
Proof. apply some_outcome. Qed.

Lemma submit_serializable_witness :
  serial EdgeApplyExample.md0 (applied (effects interleaved)) (sh_md (after interleaved))
  /\ map (fun x => w_write_id x.1) (applied (effects interleaved)) = [wid 2; wid 1]
  /\ sh_watermark (after interleaved) = 2.
Proof.
  destruct (submit_serializable EdgeApplyExample.md0 interleaved (after interleaved) (effects interleaved))
    as [_ H]; [apply fits_interleaved|apply run_after; vm_compute; reflexivity|].
  destruct H as [H _]; [unfold interleaved; by repeat constructor|].
  split_and!; [exact H|vm_compute; reflexivity|vm_compute; reflexivity].
Defined.

(** A write commits; later it is sent again with the same and with another hash, before
    and after a restart that does not replay its record. *)
Definition before1 : list (Event EdgeApply.Phase) := [call 0 (link_write 1 1) 10; EvDurable 0 [1]].
Definition commit1 : Event EdgeApply.Phase := EvResume 0 io_ok 12.
Definition ack1 : WriteAck :=
  {| ack_write_id := wid 1; committed_at_unix_nanos := 12; lsn_first := 1; lsn_last := 1;
     phase_acks := [Linked]; pending_stages := [] |}.
Definition later : list (Event EdgeApply.Phase) :=
  [call 1 (link_write 1 1) 14; call 1 (unlink_write 1 2) 15; call 2 (unlink_write 2 2) 15; EvStamp 0 [];
   EvPrune 30 DEFAULT_TTL_NANOS 1000; EvRestart 1 3; call 0 (link_write 1 1) 40; call 0 (unlink_write 1 2) 41].
Definition committed1 : Shard EdgeApply.Phase Metadata :=
  default shard0 (fst <$> step (after before1) commit1).
Definition later_effects : list (Effect EdgeApply.Phase) := default [] (snd <$> run committed1 later).

Lemma submit_exactly_once_witness :
  Forall (quiet (wid 1) (Some (hash 1)) ack1) later_effects
  /\ later_effects
     = [Answered (link_write 1 1) (Ok ack1); Answered (unlink_write 1 2) (Err (WConflict replay_conflict));
        Answered (link_write 1 1) (Ok ack1); Answered (link_write 1 1) (Ok ack1);
        Answered (unlink_write 1 2) (Err (WConflict replay_conflict))].
Proof.
  split; [|vm_compute; reflexivity].
  apply (submit_exactly_once EdgeApplyExample.md0 before1 (after before1) (effects before1) commit1
    (link_write 1 1) ack1 committed1 later (default committed1 (fst <$> run committed1 later)) later_effects).
  - unfold commit1, before1. repeat apply Forall_cons_2; try done; repeat split; try done; by repeat constructor.
  - apply run_after. vm_compute. reflexivity.
  - rewrite (some_outcome (step (after before1) commit1) shard0 []) by (vm_compute; reflexivity).
    apply (f_equal (fun e => Some (committed1, e))). vm_compute. reflexivity.
  - by vm_compute.
  - by vm_compute.
  - intros tid t. assert (sh_tasks committed1
      = {[0%nat := {| t_write := link_write 1 1; t_stage := Fanout ack1 |}]}) as -> by (vm_compute; reflexivity).
    by intros [_ <-]%lookup_singleton_Some.
  - unfold later. repeat apply Forall_cons_2; try done; by vm_compute.
  - apply some_outcome. vm_compute. reflexivity.
Defined.

End SubmitExample.

(** ** Where the contract ends *)

Module SubmitFaults.
Import SubmitExample.

(** The lookup is made before the wait for the log and nothing marks an id as in
    flight: a request sent twice before the first commit is applied twice. *)
Theorem concurrent_submit_applied_twice :
  map (fun x => w_write_id x.1)
    (applied (effects [call 0 (link_write 1 1) 10; call 1 (link_write 1 1) 11; EvDurable 0 [1];
       EvDurable 1 [2]; EvResume 0 io_ok 12; EvResume 1 io_ok 13])) = [wid 1; wid 1].
Proof. vm_compute. reflexivity. Qed.

(** A write whose metadata transaction fails is answered with an error, but its record
    is durable: after a restart it is in effect, and unknown to the cache. *)
Definition failing : list (Event EdgeApply.Phase) :=
  [call 0 (link_write 1 1) 10; EvDurable 0 [1];
   EvResume 0 {| io_hnsw := true; io_write_txn := true; io_insert := true; io_commit := false |} 12].
Theorem failed_write_takes_effect :
  effects failing = [Answered (link_write 1 1) (Err (WInternal "commit"))]
  /\ sh_md (after failing) = EdgeApplyExample.md0
  /\ applied (effects (failing ++ [EvRestart 0 2])) = []
  /\ size (EDGES (md_edges (sh_md (after failing)))) = 0%nat
  /\ size (EDGES (md_edges (sh_md (after (failing ++ [EvRestart 0 2]))))) = 1%nat.
Proof. split_and!; vm_compute; reflexivity. Qed.

End SubmitFaults.
