(* ===== verification/MemoryTable.v ===== *)
(** Memory rows and their timeline index ([brain-metadata]:
    [tables/memory.rs], [tables/fingerprint.rs]): the row, the byte keys of the
    two secondary tables and the keyset page over the timeline.

    A redb table is an ordered map over the bytes of its keys; the timeline
    table has no values and is a set.  Floats are their bits, and [f32_lt] is
    the comparison of the language on them. *)

From stdpp Require Import gmap sorting.
From S2P Require Import Prelude Ids WalPayload EdgeTable.

(** ** Rows *)

Module row_flags.
Definition ACTIVE : Z := 1.
Definition HARD_FORGOTTEN : Z := 2.
Definition PINNED : Z := 4.
Definition STALE : Z := 8.
End row_flags.

Record MemoryMetadata := {
  mm_memory_id_bytes : bytes;
  mm_namespace_id : Z;
  mm_space_id_bytes : bytes;
  mm_session_id : Z;
  mm_slot_id : Z;
  mm_slot_version : Z;
  mm_kind : Z;
  mm_text_size : Z;
  mm_created_at : Z;
  mm_last_accessed_at : Z;
  mm_forgot_at : option Z;
  mm_tombstoned_at : option Z;
  mm_consolidated_at : option Z;
  mm_occurred_at : option Z;
  mm_salience : Z;
  mm_salience_initial : Z;
  mm_access_count : Z;
  mm_embedding_model_fp : bytes;
  mm_flags : Z;
  mm_edges_out_count : Z;
  mm_edges_in_count : Z;
  mm_content_hash : option bytes;
  mm_encoded_at_lsn : Z;
}.

Definition new_active (memory_id : MemoryId) (namespace_id : Z) (space_id : Uuid)
    (session_id slot_id slot_version : Z) (kind : MemoryKind) (embedding_model_fp : bytes)
    (salience_initial text_size created_at : Z) : MemoryMetadata :=
  {| mm_memory_id_bytes := MemoryId.to_be memory_id; mm_namespace_id := namespace_id;
     mm_space_id_bytes := space_id; mm_session_id := session_id; mm_slot_id := slot_id;
     mm_slot_version := slot_version; mm_kind := memory_kind_to_u8 kind; mm_text_size := text_size;
     mm_created_at := created_at; mm_last_accessed_at := created_at; mm_forgot_at := None;
     mm_tombstoned_at := None; mm_consolidated_at := None; mm_occurred_at := None;
     mm_salience := salience_initial; mm_salience_initial := salience_initial; mm_access_count := 0;
     mm_embedding_model_fp := embedding_model_fp; mm_flags := row_flags.ACTIVE;
     mm_edges_out_count := 0; mm_edges_in_count := 0; mm_content_hash := None;
     mm_encoded_at_lsn := 0 |}.

(** A row with other values in the fields that some code changes. *)
Definition rebuild (r : MemoryMetadata) (session_id kind : Z) (forgot_at tombstoned_at occurred_at : option Z)
    (salience : Z) (fp : bytes) (flags : Z) (content_hash : option bytes) (lsn : Z) : MemoryMetadata :=
  {| mm_memory_id_bytes := mm_memory_id_bytes r; mm_namespace_id := mm_namespace_id r;
     mm_space_id_bytes := mm_space_id_bytes r; mm_session_id := session_id; mm_slot_id := mm_slot_id r;
     mm_slot_version := mm_slot_version r; mm_kind := kind; mm_text_size := mm_text_size r;
     mm_created_at := mm_created_at r; mm_last_accessed_at := mm_last_accessed_at r;
     mm_forgot_at := forgot_at; mm_tombstoned_at := tombstoned_at;
     mm_consolidated_at := mm_consolidated_at r; mm_occurred_at := occurred_at;
     mm_salience := salience; mm_salience_initial := mm_salience_initial r;
     mm_access_count := mm_access_count r; mm_embedding_model_fp := fp; mm_flags := flags;
     mm_edges_out_count := mm_edges_out_count r; mm_edges_in_count := mm_edges_in_count r;
     mm_content_hash := content_hash; mm_encoded_at_lsn := lsn |}.

Section setters.
Variable r : MemoryMetadata.
Definition with_content_hash (h : bytes) : MemoryMetadata :=
  rebuild r (mm_session_id r) (mm_kind r) (mm_forgot_at r) (mm_tombstoned_at r) (mm_occurred_at r)
    (mm_salience r) (mm_embedding_model_fp r) (mm_flags r) (Some h) (mm_encoded_at_lsn r).
Definition with_encoded_at_lsn (lsn : Z) : MemoryMetadata :=
  rebuild r (mm_session_id r) (mm_kind r) (mm_forgot_at r) (mm_tombstoned_at r) (mm_occurred_at r)
    (mm_salience r) (mm_embedding_model_fp r) (mm_flags r) (mm_content_hash r) lsn.
Definition with_occurred_at (at_ : option Z) : MemoryMetadata :=
  rebuild r (mm_session_id r) (mm_kind r) (mm_forgot_at r) (mm_tombstoned_at r) at_
    (mm_salience r) (mm_embedding_model_fp r) (mm_flags r) (mm_content_hash r) (mm_encoded_at_lsn r).
Definition set_salience (x : Z) : MemoryMetadata :=
  rebuild r (mm_session_id r) (mm_kind r) (mm_forgot_at r) (mm_tombstoned_at r) (mm_occurred_at r)
    x (mm_embedding_model_fp r) (mm_flags r) (mm_content_hash r) (mm_encoded_at_lsn r).
Definition set_kind (x : Z) : MemoryMetadata :=
  rebuild r (mm_session_id r) x (mm_forgot_at r) (mm_tombstoned_at r) (mm_occurred_at r)
    (mm_salience r) (mm_embedding_model_fp r) (mm_flags r) (mm_content_hash r) (mm_encoded_at_lsn r).
Definition set_session (x : Z) : MemoryMetadata :=
  rebuild r x (mm_kind r) (mm_forgot_at r) (mm_tombstoned_at r) (mm_occurred_at r)
    (mm_salience r) (mm_embedding_model_fp r) (mm_flags r) (mm_content_hash r) (mm_encoded_at_lsn r).
Definition set_embedding_fp (x : bytes) : MemoryMetadata :=
  rebuild r (mm_session_id r) (mm_kind r) (mm_forgot_at r) (mm_tombstoned_at r) (mm_occurred_at r)
    (mm_salience r) x (mm_flags r) (mm_content_hash r) (mm_encoded_at_lsn r).
(** Flags with the two stamps that go with them. *)
Definition set_state (flags : Z) (forgot_at tombstoned_at : option Z) : MemoryMetadata :=
  rebuild r (mm_session_id r) (mm_kind r) forgot_at tombstoned_at (mm_occurred_at r)
    (mm_salience r) (mm_embedding_model_fp r) flags (mm_content_hash r) (mm_encoded_at_lsn r).
End setters.

Definition is_active (r : MemoryMetadata) : bool := negb (Z.land (mm_flags r) row_flags.ACTIVE =? 0).
Definition is_hard_forgotten (r : MemoryMetadata) : bool :=
  negb (Z.land (mm_flags r) row_flags.HARD_FORGOTTEN =? 0).

(** ** Keys of the secondary tables *)

Definition SPACE_TIMELINE_KEY_LEN : nat := 4 + 16 + 8 + 8 + 16.

Definition space_timeline_prefix_space (namespace_id : Z) (space_id_bytes : bytes) : bytes :=
  to_be_bytes 4 namespace_id ++ space_id_bytes.

Definition space_timeline_key (namespace_id : Z) (space_id_bytes : bytes) (created_at session_id : Z)
    (memory_id_bytes : bytes) : bytes :=
  to_be_bytes 4 namespace_id ++ space_id_bytes ++ to_be_bytes 8 created_at ++ to_be_bytes 8 session_id
  ++ memory_id_bytes.

(** The key under which a row stands in the index. *)
Definition row_timeline_key (r : MemoryMetadata) : bytes :=
  space_timeline_key (mm_namespace_id r) (mm_space_id_bytes r) (mm_created_at r) (mm_session_id r)
    (mm_memory_id_bytes r).

Record FingerprintEntry := { fe_memory_id_bytes : bytes; fe_inserted_at : Z }.

Definition fingerprint_key (space_id : Uuid) (session_id : Z) (content_hash : bytes) : bytes :=
  space_id ++ to_be_bytes 8 session_id ++ content_hash.

(** ** Filters *)

Definition f32_is_nan (x : Z) : bool := 2139095040 <? Z.land x 2147483647.
(** Sign and magnitude as one integer; the two zeros coincide. *)
Definition f32_rank (x : Z) : Z :=
  if Z.testbit x 31 then - Z.land x 2147483647 else Z.land x 2147483647.
Definition f32_lt (x y : Z) : bool :=
  negb (f32_is_nan x) && negb (f32_is_nan y) && (f32_rank x <? f32_rank y).

Record MemoryTimelineFilter := {
  tf_kinds : list Z;
  tf_include_tombstoned : bool;
  tf_created_from : option Z;
  tf_created_to : option Z;
  tf_salience_min : Z;
  tf_salience_max : Z;
}.

Definition admits (f : MemoryTimelineFilter) (row : MemoryMetadata) : bool :=
  if negb (tf_include_tombstoned f) && negb (is_active row) then false else
  if negb (bool_decide (tf_kinds f = [])) && negb (bool_decide (mm_kind row ∈ tf_kinds f)) then false else
  if match tf_created_from f with Some from => mm_created_at row <? from | None => false end then false else
  if match tf_created_to f with Some to => to <? mm_created_at row | None => false end then false else
  if f32_lt (mm_salience row) (tf_salience_min f) || f32_lt (tf_salience_max f) (mm_salience row)
  then false else true.

(** ** Pages *)

Record RowScope := { sc_namespace_id : Z; sc_space_id_bytes : bytes }.

Record MemoryTimelinePage := {
  tp_rows : list MemoryMetadata;
  tp_has_more : bool;
  tp_last_key : option bytes;
}.

(** The loop drops bytes 0xFF from the end and increments the byte before them. *)
Fixpoint successor_rev (p : list Byte.byte) : option bytes :=
  match p with
  | [] => None
  | last :: rest =>
    if byte_val last =? 255 then successor_rev rest
    else Some (rev rest ++ [byte_of (byte_val last + 1)])
  end.
Definition prefix_successor (prefix : bytes) : option bytes := successor_rev (rev prefix).

Inductive Bound := Included (k : bytes) | Excluded (k : bytes) | Unbounded.
Definition above (b : Bound) (k : bytes) : Prop :=
  match b with
  | Included l => bytes_compare l k <> Gt
  | Excluded l => bytes_compare l k = Lt
  | Unbounded => True
  end.
Definition below (b : Bound) (k : bytes) : Prop :=
  match b with
  | Included h => bytes_compare k h <> Gt
  | Excluded h => bytes_compare k h = Lt
  | Unbounded => True
  end.
#[global] Instance above_dec b k : Decision (above b k).
Proof.
  destruct b as [l|l|]; unfold above; [..|apply _]; destruct (bytes_compare l k);
    first [left; congruence|right; congruence].
Defined.
#[global] Instance below_dec b k : Decision (below b k).
Proof.
  destruct b as [h|h|]; unfold below; [..|apply _]; destruct (bytes_compare k h);
    first [left; congruence|right; congruence].
Defined.

(** [range] of the timeline table, in key order. *)
Definition timeline_range (t : gset bytes) (lo hi : Bound) : list bytes :=
  merge_sort bytes_le (filter (fun k => above lo k /\ below hi k) (elements t)).

Section page.
Context (timeline : gset bytes) (memories : gmap bytes MemoryMetadata).

Definition page_bounds (scope : RowScope) (descending : bool) (after_key : option bytes) : Bound * Bound :=
  let prefix := space_timeline_prefix_space (sc_namespace_id scope) (sc_space_id_bytes scope) in
  let end_ := match prefix_successor prefix with Some u => Excluded u | None => Unbounded end in
  if descending then
    (Included prefix, match after_key with Some k => Excluded k | None => end_ end)
  else
    (match after_key with Some k => Excluded k | None => Included prefix end, end_).

(** One entry of the index: the row to return, if any. *)
Definition entry_row (scope : RowScope) (f : MemoryTimelineFilter) (key : bytes) : option MemoryMetadata :=
  if negb (length key =? SPACE_TIMELINE_KEY_LEN)%nat then None else
  match memories !! slice 36 52 key with
  | None => None
  | Some row =>
    if negb (mm_namespace_id row =? sc_namespace_id scope)
       || negb (bool_decide (mm_space_id_bytes row = sc_space_id_bytes scope)) then None else
    if admits f row then Some row else None
  end.

Fixpoint page_loop (scope : RowScope) (f : MemoryTimelineFilter) (limit : nat) (keys : list bytes)
    (page : MemoryTimelinePage) : MemoryTimelinePage :=
  match keys with
  | [] => page
  | key :: keys =>
    match entry_row scope f key with
    | None => page_loop scope f limit keys page
    | Some row =>
      if (length (tp_rows page) =? limit)%nat then
        {| tp_rows := tp_rows page; tp_has_more := true; tp_last_key := tp_last_key page |}
      else page_loop scope f limit keys
        {| tp_rows := tp_rows page ++ [row]; tp_has_more := tp_has_more page; tp_last_key := Some key |}
    end
  end.

Definition memory_timeline_page (scope : RowScope) (descending : bool) (after_key : option bytes)
    (limit : nat) (f : MemoryTimelineFilter) : MemoryTimelinePage :=
  let '(lo, hi) := page_bounds scope descending after_key in
  let range := timeline_range timeline lo hi in
  page_loop scope f limit (if descending then reverse range else range)
    {| tp_rows := []; tp_has_more := false; tp_last_key := None |}.
End page.

(** ** The order of keys *)

Definition bytes_lt (a b : bytes) : Prop := bytes_compare a b = Lt.
#[global] Instance bytes_lt_dec a b : Decision (bytes_lt a b).
Proof. unfold bytes_lt. destruct (bytes_compare a b); first [left; congruence|right; congruence]. Defined.

Lemma bytes_lt_flip a b : bytes_lt a b <-> bytes_compare b a = Gt.
Proof. unfold bytes_lt. rewrite (bytes_compare_sym a b). by destruct (bytes_compare a b). Qed.

Lemma bytes_lt_le a b : bytes_lt a b <-> bytes_le a b /\ a <> b.
Proof.
  unfold bytes_lt, bytes_le. split.
  - intros H. split; [congruence|]. intros ->. by rewrite bytes_compare_refl in H.
  - intros [H Hn]. destruct (bytes_compare a b) eqn:E; [|done..]. by apply bytes_compare_eq in E.
Qed.

#[global] Instance bytes_le_anti : AntiSymm (=) bytes_le.
Proof.
  intros a b Hab Hba. destruct (decide (a = b)); [done|]. exfalso.
  pose proof (proj2 (bytes_lt_le a b) (conj Hab ltac:(done))) as H.
  apply bytes_lt_flip in H. by apply Hba.
Qed.

Lemma bytes_le_lt_trans a b c : bytes_le a b -> bytes_lt b c -> bytes_lt a c.
Proof.
  rewrite !bytes_lt_le. intros Hab [Hbc Hn]. split; [by etrans|]. intros ->.
  by apply Hn, (anti_symm bytes_le).
Qed.

Lemma bytes_lt_le_trans a b c : bytes_lt a b -> bytes_le b c -> bytes_lt a c.
Proof.
  rewrite !bytes_lt_le. intros [Hab Hn] Hbc. split; [by etrans|]. intros ->.
  by apply Hn, (anti_symm bytes_le).
Qed.

Lemma bytes_compare_app p a b : bytes_compare (p ++ a) (p ++ b) = bytes_compare a b.
Proof. induction p as [|x p IH]; simpl; [done|]. by rewrite Z.compare_refl. Qed.

Lemma bytes_le_parts a b x y : length a = length b -> bytes_le (a ++ x) (b ++ y) -> bytes_le a b.
Proof.
  unfold bytes_le. revert b. induction a as [|u a IH]; intros [|v b]; simpl; try done.
  intros [= Hl]. destruct (byte_val u ?= byte_val v); [by apply IH|done..].
Qed.

(** Whatever continues a prefix is below its successor. *)
Lemma successor_above p s u : successor_rev p = Some u -> bytes_lt (rev p ++ s) u.
Proof.
  revert s. induction p as [|x p IH]; intros s; simpl; [done|]. rewrite <- app_assoc.
  case_match eqn:E; [apply IH|]. intros [= <-]. unfold bytes_lt. rewrite bytes_compare_app. simpl.
  pose proof (byte_val_u8 x) as Hx. apply Z.eqb_neq in E. unfold u8, uint in Hx.
  rewrite byte_val_of by (unfold u8, uint; lia). by rewrite (proj2 (Z.compare_lt_iff _ _)) by lia.
Qed.

Lemma prefix_successor_above p s u : prefix_successor p = Some u -> bytes_lt (p ++ s) u.
Proof. intros H. rewrite <- (rev_involutive p). by apply successor_above. Qed.

(** ** Scans *)

Definition scan_order (descending : bool) : bytes -> bytes -> Prop :=
  if descending then fun a b => bytes_lt b a else bytes_lt.
#[global] Instance scan_order_dec d a b : Decision (scan_order d a b).
Proof. destruct d; apply _. Defined.

Lemma sorted_strict (l : list bytes) : StronglySorted bytes_le l -> NoDup l -> StronglySorted bytes_lt l.
Proof.
  induction 1 as [|x l _ IH Hx]; [constructor|]. intros [Hn Hl]%NoDup_cons. constructor; [by apply IH|].
  rewrite Forall_forall in *. intros y Hy. apply bytes_lt_le. split; [by apply Hx|by intros ->].
Qed.

Lemma strongly_sorted_reverse {A} (R : A -> A -> Prop) l :
  StronglySorted R l -> StronglySorted (fun x y => R y x) (reverse l).
Proof.
  induction 1 as [|x l _ IH Hx]; [constructor|]. rewrite reverse_cons.
  apply StronglySorted_app_2; [|done|by repeat constructor].
  intros y z Hy Hz%list_elem_of_singleton. subst. rewrite elem_of_reverse in Hy.
  rewrite Forall_forall in Hx. by apply Hx.
Qed.

Lemma sorted_nodup {A} (R : A -> A -> Prop) l : (forall x, ~ R x x) -> StronglySorted R l -> NoDup l.
Proof.
  intros Hirr. induction 1 as [|x l _ IH Hx]; constructor; [|done]. intros Hin. rewrite Forall_forall in Hx.
  by apply (Hirr x), Hx.
Qed.

Lemma sorted_weaken {A} (R R' : A -> A -> Prop) l :
  StronglySorted R l -> (forall x y, x ∈ l -> y ∈ l -> R x y -> R' x y) -> StronglySorted R' l.
Proof.
  induction 1 as [|x l _ IH Hx]; intros Himp; constructor.
  - apply IH. intros y z Hy Hz. apply Himp; by apply list_elem_of_further.
  - rewrite Forall_forall in *. intros y Hy. apply Himp; [apply list_elem_of_here|by apply list_elem_of_further|by apply Hx].
Qed.

Section scans.
Context (timeline : gset bytes) (memories : gmap bytes MemoryMetadata).

Definition scan_keys (scope : RowScope) (descending : bool) (after_key : option bytes) : list bytes :=
  let '(lo, hi) := page_bounds scope descending after_key in
  let range := timeline_range timeline lo hi in
  if descending then reverse range else range.

Lemma timeline_range_elem lo hi k :
  k ∈ timeline_range timeline lo hi <-> k ∈ timeline /\ above lo k /\ below hi k.
Proof.
  unfold timeline_range. rewrite merge_sort_Permutation, list_elem_of_filter, elem_of_elements. tauto.
Qed.

Lemma timeline_range_sorted lo hi : StronglySorted bytes_lt (timeline_range timeline lo hi).
Proof.
  apply sorted_strict; [apply StronglySorted_merge_sort; apply _|].
  unfold timeline_range. rewrite merge_sort_Permutation. apply NoDup_filter, NoDup_elements.
Qed.

Lemma scan_keys_elem scope d after k :
  k ∈ scan_keys scope d after <->
  k ∈ timeline /\ above (page_bounds scope d after).1 k /\ below (page_bounds scope d after).2 k.
Proof.
  unfold scan_keys. destruct (page_bounds _ _ _) as [lo hi]. destruct d; [rewrite elem_of_reverse|];
    apply timeline_range_elem.
Qed.

Lemma scan_keys_sorted scope d after : StronglySorted (scan_order d) (scan_keys scope d after).
Proof.
  unfold scan_keys. destruct (page_bounds _ _ _) as [lo hi].
  destruct d; [apply strongly_sorted_reverse|]; apply timeline_range_sorted.
Qed.

Lemma scan_order_irrefl d k : ~ scan_order d k k.
Proof. destruct d; simpl; unfold bytes_lt; by rewrite bytes_compare_refl. Qed.

Lemma scan_order_asym d k k' : scan_order d k k' -> ~ scan_order d k' k.
Proof.
  assert (forall a b, bytes_lt a b -> ~ bytes_lt b a) as H.
  { intros a b H1 H2%bytes_lt_flip. unfold bytes_lt in H1. congruence. }
  destruct d; simpl; apply H.
Qed.

(** Two strictly ordered lists of the same keys are equal. *)
Lemma scan_order_unique d l l' :
  StronglySorted (scan_order d) l -> StronglySorted (scan_order d) l' ->
  (forall k, k ∈ l <-> k ∈ l') -> l = l'.
Proof.
  intros Hl Hl' H. apply StronglySorted_unique_strong with (R := scan_order d); [|done|done|].
  - intros x y _ _ H1 H2. by apply scan_order_asym in H1.
  - apply NoDup_Permutation; [| |done]; eapply sorted_nodup; [apply scan_order_irrefl|done|apply scan_order_irrefl|done].
Qed.

(** A scan that resumes behind one of its keys goes on with the keys behind it. *)
Lemma scan_resume scope d l k l' :
  scan_keys scope d None = l ++ k :: l' -> scan_keys scope d (Some k) = l'.
Proof.
  intros E. pose proof (scan_keys_sorted scope d None) as Hs. rewrite E in Hs.
  assert (k ∈ scan_keys scope d None) as Hk by (rewrite E; set_solver).
  apply StronglySorted_app in Hs as (H1 & _ & [Hk' Hl']%StronglySorted_cons).
  rewrite Forall_forall in Hk'.
  apply scan_order_unique with (d := d); [apply scan_keys_sorted|done|]. intros x.
  assert (x ∈ l' <-> x ∈ scan_keys scope d None /\ scan_order d k x) as ->.
  { rewrite E. split; [intros Hx; split; [set_solver|by apply Hk']|].
    intros [[Hx|[->|Hx]%elem_of_cons]%elem_of_app Ho]; [| |done].
    - assert (scan_order d x k) by (apply H1; set_solver). by apply scan_order_asym in Ho.
    - by apply scan_order_irrefl in Ho. }
  apply scan_keys_elem in Hk as (_ & Hlo & Hhi). rewrite !scan_keys_elem. unfold page_bounds, scan_order in *.
  generalize dependent (space_timeline_prefix_space (sc_namespace_id scope) (sc_space_id_bytes scope)).
  intros prefix Hlo Hhi. generalize dependent (prefix_successor prefix). intros succ Hlo Hhi.
  destruct d; cbn [fst snd above below] in *.
  - split; [|intros ((Ht & Hx & _) & Ho); by repeat split]. intros (Ht & Hx & Ho).
    repeat split; [done|done| |done]. case_match; [|done].
    cbn [below] in *. eapply bytes_lt_le_trans; [exact Ho|]. by apply bytes_lt_le.
  - split; [|intros ((Ht & _ & Hx) & Ho); by repeat split]. intros (Ht & Ho & Hx).
    repeat split; [done| |done|done]. eapply bytes_lt_le. eapply bytes_le_lt_trans; [exact Hlo|exact Ho].
Qed.

(** ** Pages as slices of one list *)

Definition hits (scope : RowScope) (f : MemoryTimelineFilter) (keys : list bytes)
  : list (bytes * MemoryMetadata) :=
  omap (fun k => row ← entry_row memories scope f k; Some (k, row)) keys.

Lemma hits_cons scope f k keys :
  hits scope f (k :: keys) =
  match entry_row memories scope f k with Some row => (k, row) :: hits scope f keys | None => hits scope f keys end.
Proof. unfold hits. cbn. by destruct (entry_row memories scope f k). Qed.

Lemma page_loop_spec scope f limit keys page :
  (length (tp_rows page) <= limit)%nat -> tp_has_more page = false ->
  let room := (limit - length (tp_rows page))%nat in
  let hs := hits scope f keys in
  page_loop memories scope f limit keys page =
  {| tp_rows := tp_rows page ++ (take room hs).*2; tp_has_more := bool_decide (room < length hs)%nat;
     tp_last_key := match last (take room hs) with Some (k, _) => Some k | None => tp_last_key page end |}.
Proof.
  revert page. induction keys as [|k keys IH]; intros page Hl Hm; cbn zeta.
  { destruct page; cbn in *. subst. by rewrite take_nil, app_nil_r, bool_decide_false by (simpl; lia). }
  cbn [page_loop]. rewrite hits_cons.
  destruct (entry_row memories scope f k) as [row|]; [|by apply IH]. case_match eqn:E.
  - apply Nat.eqb_eq in E. rewrite E, Nat.sub_diag, bool_decide_true by (simpl; lia). by rewrite app_nil_r.
  - apply Nat.eqb_neq in E. rewrite IH; cbn [tp_rows tp_has_more tp_last_key]; [|rewrite length_app; simpl; lia|done].
    rewrite length_app. cbn [length].
    destruct (limit - length (tp_rows page))%nat as [|room] eqn:Er; [lia|].
    replace (limit - (length (tp_rows page) + 1))%nat with room by lia. cbn [take fmap list_fmap snd].
    rewrite <- app_assoc. cbn [app length]. f_equal; [by apply bool_decide_ext; lia|].
    rewrite firstn_cons. destruct (take room (hits scope f keys)) as [|h t]; [done|].
    change (last (_ :: h :: t)) with (last (h :: t)).
    destruct (last (h :: t)) as [[]|] eqn:El; [done|]. by apply last_None in El.
Qed.

Lemma memory_timeline_page_spec scope d after limit f :
  let hs := hits scope f (scan_keys scope d after) in
  memory_timeline_page timeline memories scope d after limit f =
  {| tp_rows := (take limit hs).*2; tp_has_more := bool_decide (limit < length hs)%nat;
     tp_last_key := fst <$> last (take limit hs) |}.
Proof.
  cbn zeta. unfold memory_timeline_page, scan_keys. destruct (page_bounds _ _ _) as [lo hi].
  rewrite page_loop_spec by (simpl; lia || done). cbn [tp_rows tp_last_key length app]. rewrite Nat.sub_0_r.
  by destruct (last _) as [[]|].
Qed.

Lemma hits_split scope f keys n k row :
  last (take n (hits scope f keys)) = Some (k, row) ->
  exists l l', keys = l ++ k :: l' /\ hits scope f l' = drop n (hits scope f keys).
Proof.
  revert n. induction keys as [|x keys IH]; intros n; [cbn; by rewrite take_nil|].
  rewrite hits_cons. destruct (entry_row memories scope f x) as [r|].
  - destruct n as [|n]; [done|]. rewrite firstn_cons, skipn_cons.
    destruct (take n (hits scope f keys)) as [|h t] eqn:Et.
    + intros [= <- _]. exists [], keys. split; [done|].
      apply (f_equal length) in Et. rewrite length_take in Et. simpl in Et.
      destruct n as [|n]; [done|]. by rewrite (nil_length_inv (hits scope f keys)) by lia.
    + change (last (_ :: h :: t)) with (last (h :: t)). rewrite <- Et.
      intros (l & l' & -> & H)%IH. by exists (x :: l), l'.
  - intros (l & l' & -> & H)%IH. by exists (x :: l), l'.
Qed.

(** The page behind a page. *)
Lemma page_resume scope d f after pre limit k row :
  scan_keys scope d None = pre ++ scan_keys scope d after ->
  last (take limit (hits scope f (scan_keys scope d after))) = Some (k, row) ->
  hits scope f (scan_keys scope d (Some k)) = drop limit (hits scope f (scan_keys scope d after))
  /\ exists pre', scan_keys scope d None = pre' ++ scan_keys scope d (Some k).
Proof.
  intros Hpre (l & l' & E & H)%hits_split. rewrite E in Hpre.
  rewrite (scan_resume scope d (pre ++ l) k l') by (by rewrite Hpre, <- app_assoc).
  split; [done|]. exists (pre ++ l ++ [k]). rewrite Hpre, <- !app_assoc. done.
Qed.
End scans.
