(* ===== verification/Registry.v ===== *)
(** The registry of spaces and sessions ([brain-metadata]: [registry/mod.rs],
    [tables/session.rs], [tables/space.rs]): a row per space, a row per session,
    and an index of the sessions of a space by the time of their last activity.

    The operations come from the live phases and from the replay of their
    records alike.  A redb table is an ordered map over the bytes of its keys. *)

From stdpp Require Import gmap sorting.
From S2P Require Import Prelude Ids EdgeTable MemoryTable.

(** ** Tables *)

Definition session_key (namespace_id : Z) (space_id : Uuid) (session_id : Z) : bytes :=
  to_be_bytes 4 namespace_id ++ space_id ++ to_be_bytes 8 session_id.
Definition session_scope_key (namespace_id : Z) (space_id : Uuid) (last_active session_id : Z) : bytes :=
  to_be_bytes 4 namespace_id ++ space_id ++ to_be_bytes 8 last_active ++ to_be_bytes 8 session_id.
Definition space_key (namespace_id : Z) (space_id : Uuid) : bytes := to_be_bytes 4 namespace_id ++ space_id.

Definition session_range_bounds (namespace_id : Z) (space_id : Uuid) : bytes * bytes :=
  (session_key namespace_id space_id 0, session_key namespace_id space_id U64_MAX).
Definition session_scope_range_bounds (namespace_id : Z) (space_id : Uuid) : bytes * bytes :=
  (session_scope_key namespace_id space_id 0 0, session_scope_key namespace_id space_id U64_MAX U64_MAX).

Record SessionMetadata := {
  sn_created_at : Z;
  sn_last_active : Z;
  sn_title : option bytes;
  sn_memory_count : Z;
}.
Definition SessionMetadata_new (created_at : Z) (title : option bytes) : SessionMetadata :=
  {| sn_created_at := created_at; sn_last_active := created_at; sn_title := title; sn_memory_count := 0 |}.

Record SpaceMetadata := {
  sp_space_string : bytes;
  sp_created_at : Z;
  sp_last_active : Z;
  sp_memory_count : Z;
  sp_session_count : Z;
  sp_metadata : option bytes;
}.
Definition SpaceMetadata_new (created_at : Z) (space_string : bytes) (metadata : option bytes) : SpaceMetadata :=
  {| sp_space_string := space_string; sp_created_at := created_at; sp_last_active := created_at;
     sp_memory_count := 0; sp_session_count := 0; sp_metadata := metadata |}.

Record Registry := {
  SESSIONS : gmap bytes SessionMetadata;
  SESSION_BY_SCOPE : gset bytes;
  SPACES : gmap bytes SpaceMetadata;
}.

Definition U32_MAX : Z := 4294967295.
(** [u32::saturating_add]. *)
Definition sat_add32 (x y : Z) : Z := Z.min (x + y) U32_MAX.

(** ** The touch of a memory write *)

Definition touch_session_row (r : Registry) (ns : Z) (space : Uuid) (session at_ : Z) : bool * Registry :=
  let key := session_key ns space session in
  match SESSIONS r !! key with
  | Some m =>
    let '(last_active, scope) :=
      if sn_last_active m <? at_ then
        (at_, {[session_scope_key ns space at_ session]}
              ∪ (SESSION_BY_SCOPE r ∖ {[session_scope_key ns space (sn_last_active m) session]}))
      else (sn_last_active m, SESSION_BY_SCOPE r) in
    (false,
     {| SESSIONS := <[key := {| sn_created_at := sn_created_at m; sn_last_active := last_active;
                                sn_title := sn_title m;
                                sn_memory_count := sat_add32 (sn_memory_count m) 1 |}]> (SESSIONS r);
        SESSION_BY_SCOPE := scope; SPACES := SPACES r |})
  | None =>
    (true,
     {| SESSIONS := <[key := {| sn_created_at := at_; sn_last_active := at_; sn_title := None;
                                sn_memory_count := 1 |}]> (SESSIONS r);
        SESSION_BY_SCOPE := {[session_scope_key ns space at_ session]} ∪ SESSION_BY_SCOPE r;
        SPACES := SPACES r |})
  end.

Definition set_spaces (r : Registry) (spaces : gmap bytes SpaceMetadata) : Registry :=
  {| SESSIONS := SESSIONS r; SESSION_BY_SCOPE := SESSION_BY_SCOPE r; SPACES := spaces |}.

Definition touch_space_row (r : Registry) (ns : Z) (space : Uuid) (space_string : bytes) (at_ : Z)
    (session_created : bool) : Registry :=
  let key := space_key ns space in
  match SPACES r !! key with
  | Some m =>
    set_spaces r (<[key :=
      {| sp_space_string :=
           if bool_decide (sp_space_string m = []) && negb (bool_decide (space_string = []))
           then space_string else sp_space_string m;
         sp_created_at := sp_created_at m; sp_last_active := Z.max (sp_last_active m) at_;
         sp_memory_count := sat_add64 (sp_memory_count m) 1;
         sp_session_count := if session_created then sat_add32 (sp_session_count m) 1 else sp_session_count m;
         sp_metadata := sp_metadata m |}]> (SPACES r))
  | None =>
    set_spaces r (<[key :=
      {| sp_space_string := space_string; sp_created_at := at_; sp_last_active := at_;
         sp_memory_count := 1; sp_session_count := if session_created then 1 else 0;
         sp_metadata := None |}]> (SPACES r))
  end.

Definition touch_on_write (r : Registry) (ns : Z) (space : Uuid) (space_string : bytes) (session at_ : Z)
  : Registry :=
  let '(session_created, r) := touch_session_row r ns space session at_ in
  touch_space_row r ns space space_string at_ session_created.

(** ** Spaces *)

Definition space_create (r : Registry) (ns : Z) (space : Uuid) (space_string : bytes) (at_ : Z)
    (metadata : option bytes) : (SpaceMetadata * bool) * Registry :=
  let key := space_key ns space in
  match SPACES r !! key with
  | Some m => ((m, false), r)
  | None =>
    let m := SpaceMetadata_new at_ space_string metadata in
    ((m, true), set_spaces r (<[key := m]> (SPACES r)))
  end.

Definition in_bounds (bounds : bytes * bytes) (k : bytes) : Prop :=
  bytes_le (fst bounds) k /\ bytes_le k (snd bounds).
#[global] Instance in_bounds_dec b k : Decision (in_bounds b k).
Proof. unfold in_bounds. apply _. Defined.

(** The range over the sessions of the space; the order of the removals does not matter. *)
Definition session_victims (r : Registry) (ns : Z) (space : Uuid) : list (Z * Z) :=
  map (fun e => (from_be_bytes (slice 20 28 (fst e)), sn_last_active (snd e)))
    (filter (fun e => in_bounds (session_range_bounds ns space) (fst e)) (map_to_list (SESSIONS r))).

Definition remove_session (ns : Z) (space : Uuid) (r : Registry) (v : Z * Z) : Registry :=
  {| SESSIONS := delete (session_key ns space (fst v)) (SESSIONS r);
     SESSION_BY_SCOPE := SESSION_BY_SCOPE r ∖ {[session_scope_key ns space (snd v) (fst v)]};
     SPACES := SPACES r |}.

Definition space_delete_registry (r : Registry) (ns : Z) (space : Uuid) : bool * Registry :=
  let key := space_key ns space in
  let r' := fold_left (remove_session ns space) (session_victims r ns space) r in
  (bool_decide (is_Some (SPACES r' !! key)), set_spaces r' (delete key (SPACES r'))).

(** ** Sessions *)

Definition session_create (r : Registry) (ns : Z) (space : Uuid) (session at_ : Z) (title : option bytes)
  : (SessionMetadata * bool) * Registry :=
  let key := session_key ns space session in
  match SESSIONS r !! key with
  | Some m => ((m, false), r)
  | None =>
    let m := SessionMetadata_new at_ title in
    ((m, true),
     touch_space_row
       {| SESSIONS := <[key := m]> (SESSIONS r);
          SESSION_BY_SCOPE := {[session_scope_key ns space at_ session]} ∪ SESSION_BY_SCOPE r;
          SPACES := SPACES r |} ns space [] at_ true)
  end.

Definition session_delete_registry (r : Registry) (ns : Z) (space : Uuid) (session : Z) : bool * Registry :=
  let key := session_key ns space session in
  match SESSIONS r !! key with
  | None => (false, r)
  | Some m =>
    let r := remove_session ns space r (session, sn_last_active m) in
    let skey := space_key ns space in
    match SPACES r !! skey with
    | Some sm =>
      (true, set_spaces r (<[skey :=
         {| sp_space_string := sp_space_string sm; sp_created_at := sp_created_at sm;
            sp_last_active := sp_last_active sm; sp_memory_count := sp_memory_count sm;
            sp_session_count := sat_sub (sp_session_count sm) 1; sp_metadata := sp_metadata sm |}]>
         (SPACES r)))
    | None => (true, r)
    end
  end.

Fixpoint session_loop (r : Registry) (ns : Z) (space : Uuid) (limit : nat) (keys : list bytes)
    (out : list (Z * SessionMetadata)) : list (Z * SessionMetadata) :=
  match keys with
  | [] => out
  | k :: keys =>
    let session := from_be_bytes (slice 28 36 k) in
    let out :=
      match SESSIONS r !! session_key ns space session with
      | Some m => out ++ [(session, m)]
      | None => out
      end in
    if negb (limit =? 0)%nat && (limit <=? length out)%nat then out
    else session_loop r ns space limit keys out
  end.

(** Newest first. *)
Definition session_list (r : Registry) (ns : Z) (space : Uuid) (limit : nat) : list (Z * SessionMetadata) :=
  let '(start, end_) := session_scope_range_bounds ns space in
  session_loop r ns space limit
    (reverse (timeline_range (SESSION_BY_SCOPE r) (Included start) (Included end_))) [].

(** ** Operations *)

Inductive RegOp :=
| Touch (ns : Z) (space : Uuid) (space_string : bytes) (session at_ : Z)
| SpaceCreate (ns : Z) (space : Uuid) (space_string : bytes) (at_ : Z) (metadata : option bytes)
| SpaceDelete (ns : Z) (space : Uuid)
| SessionCreate (ns : Z) (space : Uuid) (session at_ : Z) (title : option bytes)
| SessionDelete (ns : Z) (space : Uuid) (session : Z).

Definition reg_step (r : Registry) (o : RegOp) : Registry :=
  match o with
  | Touch ns space str session at_ => touch_on_write r ns space str session at_
  | SpaceCreate ns space str at_ metadata => snd (space_create r ns space str at_ metadata)
  | SpaceDelete ns space => snd (space_delete_registry r ns space)
  | SessionCreate ns space session at_ title => snd (session_create r ns space session at_ title)
  | SessionDelete ns space session => snd (session_delete_registry r ns space session)
  end.
Definition empty_registry : Registry := {| SESSIONS := ∅; SESSION_BY_SCOPE := ∅; SPACES := ∅ |}.
Definition reg_run (ops : list RegOp) : Registry := fold_left reg_step ops empty_registry.

(** ** Keys *)

Definition scope_ok (ns : Z) (space : Uuid) : Prop := u32 ns /\ uuid_ok space.
Definition session_ok (ns : Z) (space : Uuid) (session : Z) : Prop := scope_ok ns space /\ u64 session.

Lemma space_key_inj ns space ns' space' :
  scope_ok ns space -> scope_ok ns' space' -> space_key ns space = space_key ns' space' ->
  ns = ns' /\ space = space'.
Proof.
  unfold space_key. intros [Hn _] [Hn' _] H. apply app_inj_1 in H as [H ->]; [|by rewrite !length_to_be].
  split; [|done]. by rewrite <- (from_to_be 4 ns), <- (from_to_be 4 ns'), H.
Qed.

Lemma length_space_key ns space : uuid_ok space -> length (space_key ns space) = 20%nat.
Proof. unfold space_key, uuid_ok. rewrite length_app, length_to_be. lia. Qed.

Lemma session_key_split ns space session :
  session_key ns space session = space_key ns space ++ to_be_bytes 8 session.
Proof. unfold session_key, space_key. by rewrite app_assoc. Qed.

Lemma scope_key_split ns space at_ session :
  session_scope_key ns space at_ session = space_key ns space ++ to_be_bytes 8 at_ ++ to_be_bytes 8 session.
Proof. unfold session_scope_key, space_key. by rewrite app_assoc. Qed.

Lemma to_be8_inj x y : u64 x -> u64 y -> to_be_bytes 8 x = to_be_bytes 8 y -> x = y.
Proof. intros Hx Hy H. by rewrite <- (from_to_be 8 x), <- (from_to_be 8 y), H. Qed.

Lemma session_key_inj ns space session ns' space' session' :
  session_ok ns space session -> session_ok ns' space' session' ->
  session_key ns space session = session_key ns' space' session' ->
  ns = ns' /\ space = space' /\ session = session'.
Proof.
  intros [[Hn Hs] Ht] [[Hn' Hs'] Ht']. rewrite !session_key_split.
  intros [H1 H2]%app_inj_1; [|by rewrite !length_space_key].
  apply space_key_inj in H1 as [-> ->]; [|done..]. by apply to_be8_inj in H2 as ->.
Qed.

Lemma scope_key_inj ns space at_ session ns' space' at' session' :
  session_ok ns space session -> u64 at_ -> session_ok ns' space' session' -> u64 at' ->
  session_scope_key ns space at_ session = session_scope_key ns' space' at' session' ->
  ns = ns' /\ space = space' /\ at_ = at' /\ session = session'.
Proof.
  intros [[Hn Hs] Ht] Ha [[Hn' Hs'] Ht'] Ha'. rewrite !scope_key_split.
  intros [H1 H2]%app_inj_1; [|by rewrite !length_space_key].
  apply space_key_inj in H1 as [-> ->]; [|done..].
  apply app_inj_1 in H2 as [H2 H3]; [|by rewrite !length_to_be].
  by apply to_be8_inj in H2 as ->; [apply to_be8_inj in H3 as ->|..].
Qed.

(** The bounds of a range enclose the keys with the prefix, and no others. *)
Lemma bounded_prefix p q lo hi x :
  length p = length q ->
  (bytes_le (p ++ lo) (q ++ x) -> bytes_le (q ++ x) (p ++ hi) -> q = p).
Proof.
  intros Hl H1%bytes_le_parts H2%bytes_le_parts; [|done..]. by apply (anti_symm bytes_le).
Qed.

Lemma to_be8_le x y : u64 x -> u64 y -> x <= y -> bytes_le (to_be_bytes 8 x) (to_be_bytes 8 y).
Proof. intros Hx Hy Hle. unfold bytes_le. rewrite to_be_compare by done. by apply Z.compare_le_iff. Qed.

Lemma to_be8_bounds x : u64 x ->
  bytes_le (to_be_bytes 8 0) (to_be_bytes 8 x) /\ bytes_le (to_be_bytes 8 x) (to_be_bytes 8 U64_MAX).
Proof.
  intros Hx. split; apply to_be8_le; try done; try (unfold uint, U64_MAX in *; lia).
Qed.

Lemma bytes_le_app_both a b x y :
  length a = length b -> bytes_le a b -> bytes_le x y -> bytes_le (a ++ x) (b ++ y).
Proof.
  unfold bytes_le. revert b. induction a as [|u a IH]; intros [|v b]; simpl; try done.
  intros [= Hl]. destruct (byte_val u ?= byte_val v); [by apply IH|done..].
Qed.

Lemma session_in_bounds ns space ns' space' session :
  scope_ok ns space -> session_ok ns' space' session ->
  in_bounds (session_range_bounds ns space) (session_key ns' space' session) <->
  space_key ns' space' = space_key ns space.
Proof.
  intros [Hn Hs] [[Hn' Hs'] Ht]. unfold in_bounds, session_range_bounds. cbn [fst snd].
  rewrite !session_key_split. split.
  - intros [H1 H2]. eapply bounded_prefix; [|exact H1|exact H2]. by rewrite !length_space_key.
  - intros ->. split; apply bytes_le_app, to_be8_bounds, Ht.
Qed.

Lemma scope_in_bounds ns space ns' space' at_ session :
  scope_ok ns space -> session_ok ns' space' session -> u64 at_ ->
  in_bounds (session_scope_range_bounds ns space) (session_scope_key ns' space' at_ session) <->
  space_key ns' space' = space_key ns space.
Proof.
  intros [Hn Hs] [[Hn' Hs'] Ht] Ha. unfold in_bounds, session_scope_range_bounds. cbn [fst snd].
  rewrite !scope_key_split. split.
  - intros [H1 H2]. eapply bounded_prefix; [|exact H1|exact H2]. by rewrite !length_space_key.
  - intros ->. split; apply bytes_le_app, bytes_le_app_both;
      try (by rewrite !length_to_be); by apply to_be8_bounds.
Qed.

(** ** The index mirrors the sessions *)

Record index_ok (sessions : gmap bytes SessionMetadata) (scope : gset bytes) : Prop := {
  ix_keys k m : sessions !! k = Some m ->
    exists ns space session, session_ok ns space session /\ k = session_key ns space session
      /\ u64 (sn_last_active m);
  ix_scope k : k ∈ scope <-> exists ns space session m, session_ok ns space session
    /\ sessions !! session_key ns space session = Some m
    /\ k = session_scope_key ns space (sn_last_active m) session;
}.

(** A session is written, its old entry is replaced. *)
Lemma index_put sessions scope scope' ns space session m :
  index_ok sessions scope -> session_ok ns space session -> u64 (sn_last_active m) ->
  (forall k, k ∈ scope' <-> k = session_scope_key ns space (sn_last_active m) session
     \/ k ∈ scope /\ forall m0, sessions !! session_key ns space session = Some m0 ->
          k <> session_scope_key ns space (sn_last_active m0) session) ->
  index_ok (<[session_key ns space session := m]> sessions) scope'.
Proof.
  intros [Hk Hs] Hok Hm Hscope. split.
  - intros k m1 [[<- <-]|[_ H]]%lookup_insert_Some; [by exists ns, space, session|by apply Hk].
  - intros k. rewrite Hscope, Hs. split.
    + intros [->|[(ns1 & sp1 & s1 & m1 & Hok1 & Hl & ->) Hne]].
      { exists ns, space, session, m. by rewrite lookup_insert_eq. }
      exists ns1, sp1, s1, m1. split; [done|]. split; [|done]. rewrite lookup_insert_ne; [done|]. intros E.
      apply session_key_inj in E as (-> & -> & ->); [|done..]. by apply (Hne m1).
    + intros (ns1 & sp1 & s1 & m1 & Hok1 & [[E <-]|[E Hl]]%lookup_insert_Some & ->).
      { apply session_key_inj in E as (-> & -> & ->); [by left|done..]. }
      right. split; [by exists ns1, sp1, s1, m1|]. intros m0 Hm0 E'.
      destruct (Hk _ _ Hl) as (? & ? & ? & _ & _ & H1). destruct (Hk _ _ Hm0) as (? & ? & ? & _ & _ & H0).
      apply scope_key_inj in E' as (-> & -> & _ & ->); done.
Qed.

Lemma index_delete sessions scope ns space session m :
  index_ok sessions scope -> session_ok ns space session ->
  sessions !! session_key ns space session = Some m ->
  index_ok (delete (session_key ns space session) sessions)
    (scope ∖ {[session_scope_key ns space (sn_last_active m) session]}).
Proof.
  intros [Hk Hs] Hok Hm. split.
  - intros k m1 [_ H]%lookup_delete_Some. by apply Hk.
  - intros k. rewrite elem_of_difference, elem_of_singleton, Hs. split.
    + intros [(ns1 & sp1 & s1 & m1 & Hok1 & Hl & ->) Hne]. exists ns1, sp1, s1, m1. split; [done|].
      split; [|done]. rewrite lookup_delete_ne; [done|]. intros E.
      apply session_key_inj in E as (-> & -> & ->); [|done..]. simplify_eq.
    + intros (ns1 & sp1 & s1 & m1 & Hok1 & [E Hl]%lookup_delete_Some & ->).
      split; [by exists ns1, sp1, s1, m1|]. intros E'.
      destruct (Hk _ _ Hl) as (? & ? & ? & _ & _ & H1). destruct (Hk _ _ Hm) as (? & ? & ? & _ & _ & H0).
      apply scope_key_inj in E' as (-> & -> & _ & ->); done.
Qed.

(** ** Sessions of a space *)

Definition of_space (ns : Z) (space : Uuid) (e : bytes * SessionMetadata) : Prop :=
  take 20 (fst e) = space_key ns space.
#[global] Instance of_space_dec ns space e : Decision (of_space ns space e).
Proof. unfold of_space. apply _. Defined.

Definition session_count (sessions : gmap bytes SessionMetadata) (ns : Z) (space : Uuid) : nat :=
  size (filter (of_space ns space) sessions).

Lemma of_space_key ns space ns' space' session m :
  uuid_ok space' -> of_space ns space (session_key ns' space' session, m) <-> space_key ns' space' = space_key ns space.
Proof.
  intros Hs. unfold of_space. cbn [fst]. rewrite session_key_split, take_app_length' by (by rewrite length_space_key).
  done.
Qed.

Section counts.
Context (sessions : gmap bytes SessionMetadata) (ns : Z) (space : Uuid) (session : Z).
Hypothesis Hok : session_ok ns space session.

Lemma count_put_new ns' space' m :
  sessions !! session_key ns space session = None ->
  session_count (<[session_key ns space session := m]> sessions) ns' space'
  = (session_count sessions ns' space' + if decide (space_key ns space = space_key ns' space') then 1 else 0)%nat.
Proof.
  intros Hn. unfold session_count. destruct Hok as [[_ Hs] _]. case_decide as Hd.
  - rewrite map_filter_insert_True by (by apply of_space_key). rewrite map_size_insert_None; [lia|].
    apply map_lookup_filter_None. by left.
  - rewrite map_filter_insert_False by (by rewrite of_space_key). rewrite delete_id by done. lia.
Qed.

Lemma count_put_old ns' space' m m0 :
  sessions !! session_key ns space session = Some m0 ->
  session_count (<[session_key ns space session := m]> sessions) ns' space' = session_count sessions ns' space'.
Proof.
  intros Hm. unfold session_count. destruct Hok as [[_ Hs] _].
  destruct (decide (space_key ns space = space_key ns' space')) as [Hd|Hd].
  - rewrite map_filter_insert_True by (by apply of_space_key). rewrite map_size_insert_Some; [done|].
    exists m0. apply map_lookup_filter_Some. split; [done|]. by apply of_space_key.
  - rewrite map_filter_insert_False by (by rewrite of_space_key). f_equal. apply map_filter_delete_not.
    intros y Hy. by rewrite of_space_key.
Qed.

Lemma count_delete ns' space' m :
  sessions !! session_key ns space session = Some m ->
  session_count sessions ns' space'
  = (session_count (delete (session_key ns space session) sessions) ns' space'
     + if decide (space_key ns space = space_key ns' space') then 1 else 0)%nat.
Proof.
  intros Hm. rewrite <- (insert_delete_id _ _ _ Hm) at 1. unfold session_count. destruct Hok as [[_ Hs] _].
  assert (filter (of_space ns' space') (delete (session_key ns space session) sessions)
          !! session_key ns space session = None) as Hn.
  { apply map_lookup_filter_None. left. apply lookup_delete_eq. }
  case_decide as Hd.
  - rewrite map_filter_insert_True by (by apply of_space_key). rewrite map_size_insert_None by done. lia.
  - rewrite map_filter_insert_False by (by rewrite of_space_key). rewrite delete_delete_eq. lia.
Qed.
End counts.

(** ** The invariant *)

Definition counts_ok (spaces : gmap bytes SpaceMetadata) (sessions : gmap bytes SessionMetadata) : Prop :=
  forall ns space, scope_ok ns space ->
  match spaces !! space_key ns space with
  | Some m => sp_session_count m = Z.of_nat (session_count sessions ns space)
  | None => session_count sessions ns space = 0%nat
  end.

Record reg_ok (n : nat) (r : Registry) : Prop := {
  ro_index : index_ok (SESSIONS r) (SESSION_BY_SCOPE r);
  ro_counts : counts_ok (SPACES r) (SESSIONS r);
  ro_size : (size (SESSIONS r) <= n)%nat;
}.

Lemma counts_size sessions ns space : (session_count sessions ns space <= size sessions)%nat.
Proof. apply map_subseteq_size, map_filter_subseteq. Qed.

Lemma counts_touch (r : Registry) sessions ns space str at_ (created : bool) :
  scope_ok ns space -> counts_ok (SPACES r) sessions ->
  (forall ns' space', session_count (SESSIONS r) ns' space'
     = (session_count sessions ns' space'
        + if decide (space_key ns space = space_key ns' space') then (if created then 1 else 0) else 0)%nat) ->
  Z.of_nat (size (SESSIONS r)) <= U32_MAX ->
  counts_ok (SPACES (touch_space_row r ns space str at_ created)) (SESSIONS r).
Proof.
  intros Hok Hc Hn Hsz ns' space' Hok'. specialize (Hc ns' space' Hok').
  pose proof (counts_size (SESSIONS r) ns' space') as Hle. rewrite Hn in Hle |- *.
  unfold touch_space_row. case_decide as Hd.
  - rewrite <- Hd in *. destruct (SPACES r !! space_key ns space) as [m|] eqn:E; cbn [set_spaces SPACES];
      rewrite lookup_insert_eq; cbn [sp_session_count].
    + rewrite Hc. unfold sat_add32, U32_MAX in *. destruct created; lia.
    + rewrite Hc. by destruct created.
  - rewrite Nat.add_0_r. destruct (SPACES r !! space_key ns space); cbn [set_spaces SPACES];
      by rewrite lookup_insert_ne.
Qed.

Lemma touch_space_sessions r ns space str at_ created :
  SESSIONS (touch_space_row r ns space str at_ created) = SESSIONS r
  /\ SESSION_BY_SCOPE (touch_space_row r ns space str at_ created) = SESSION_BY_SCOPE r.
Proof. unfold touch_space_row. by destruct (SPACES r !! _). Qed.

(** A new session with its entry. *)
Lemma create_ok n r ns space session str at_ m :
  reg_ok n r -> session_ok ns space session -> u64 at_ -> Z.of_nat (S n) <= U32_MAX ->
  SESSIONS r !! session_key ns space session = None -> sn_last_active m = at_ ->
  reg_ok (S n) (touch_space_row
    {| SESSIONS := <[session_key ns space session := m]> (SESSIONS r);
       SESSION_BY_SCOPE := {[session_scope_key ns space at_ session]} ∪ SESSION_BY_SCOPE r;
       SPACES := SPACES r |} ns space str at_ true).
Proof.
  intros [Hi Hc Hsz] Hok Hat Hn Hnone Hm.
  assert (size (<[session_key ns space session := m]> (SESSIONS r)) <= S n)%nat as Hsz'.
  { rewrite map_size_insert_None by done. lia. }
  split.
  - destruct (touch_space_sessions {| SESSIONS := <[session_key ns space session := m]> (SESSIONS r);
       SESSION_BY_SCOPE := {[session_scope_key ns space at_ session]} ∪ SESSION_BY_SCOPE r;
       SPACES := SPACES r |} ns space str at_ true) as [-> ->]. cbn [SESSIONS SESSION_BY_SCOPE].
    eapply index_put; [exact Hi|done|by rewrite Hm|]. intros k. rewrite Hnone, Hm. set_solver.
  - destruct (touch_space_sessions {| SESSIONS := <[session_key ns space session := m]> (SESSIONS r);
       SESSION_BY_SCOPE := {[session_scope_key ns space at_ session]} ∪ SESSION_BY_SCOPE r;
       SPACES := SPACES r |} ns space str at_ true) as [-> _]. cbn [SESSIONS].
    apply (counts_touch {| SESSIONS := _; SESSION_BY_SCOPE := _; SPACES := SPACES r |} (SESSIONS r));
      [apply Hok|done| |cbn [SESSIONS]; lia]. intros ns' space'. cbn [SESSIONS]. by rewrite count_put_new.
  - rewrite (proj1 (touch_space_sessions _ _ _ _ _ _)). cbn [SESSIONS]. lia.
Qed.

Lemma reg_ok_mono n n' r : (n <= n')%nat -> reg_ok n r -> reg_ok n' r.
Proof. intros Hn [H1 H2 H3]. split; [done..|lia]. Qed.

Lemma touch_ok n r ns space str session at_ :
  reg_ok n r -> session_ok ns space session -> u64 at_ -> Z.of_nat (S n) <= U32_MAX ->
  reg_ok (S n) (touch_on_write r ns space str session at_).
Proof.
  intros Hr Hok Hat Hn. unfold touch_on_write, touch_session_row.
  destruct (SESSIONS r !! session_key ns space session) as [m|] eqn:E; [|by apply create_ok].
  destruct Hr as [Hi Hc Hsz]. destruct (ix_keys _ _ Hi _ _ E) as (? & ? & ? & _ & _ & Hm).
  set (b := sn_last_active m <? at_).
  replace (if b then _ else _) with
    (if b then at_ else sn_last_active m,
     if b then {[session_scope_key ns space at_ session]}
       ∪ (SESSION_BY_SCOPE r ∖ {[session_scope_key ns space (sn_last_active m) session]})
     else SESSION_BY_SCOPE r) by (by destruct b).
  cbn iota zeta beta.
  match goal with |- reg_ok _ (touch_space_row ?r' _ _ _ _ _) => set (r1 := r') end.
  destruct (touch_space_sessions r1 ns space str at_ false) as [E1 E2].
  assert (size (SESSIONS r1) = size (SESSIONS r)) as Es by (by apply map_size_insert_Some).
  split.
  - rewrite E1, E2. eapply index_put; [exact Hi|done|cbn; by destruct b|]. intros k. rewrite E. cbn.
    assert ((forall m0, Some m = Some m0 -> k <> session_scope_key ns space (sn_last_active m0) session)
      <-> k <> session_scope_key ns space (sn_last_active m) session) as -> by naive_solver.
    destruct b; [by rewrite elem_of_union, elem_of_singleton, elem_of_difference, elem_of_singleton|].
    destruct (decide (k = session_scope_key ns space (sn_last_active m) session)) as [->|]; [|naive_solver].
    rewrite (ix_scope _ _ Hi). split; [by left|]. intros _. by exists ns, space, session, m.
  - rewrite E1. apply (counts_touch r1 (SESSIONS r)); [apply Hok|done| |rewrite Es; lia].
    intros ns' space'. cbn [SESSIONS r1]. erewrite count_put_old; [|done|exact E].
    case_decide; lia.
  - rewrite E1, Es. lia.
Qed.

Lemma space_create_ok n r ns space str at_ metadata :
  reg_ok n r -> scope_ok ns space -> reg_ok n (snd (space_create r ns space str at_ metadata)).
Proof.
  intros [Hi Hc Hsz] Hok. unfold space_create. destruct (SPACES r !! space_key ns space) eqn:E; [done|].
  split; [done| |done]. intros ns' space' Hok'. cbn [snd set_spaces SPACES SESSIONS]. specialize (Hc _ _ Hok').
  destruct (decide (space_key ns space = space_key ns' space')) as [Hd|Hd].
  - rewrite <- Hd, E in Hc. rewrite <- Hd, lookup_insert_eq, Hc. done.
  - by rewrite lookup_insert_ne.
Qed.

Lemma session_delete_ok n r ns space session :
  reg_ok n r -> session_ok ns space session ->
  reg_ok n (snd (session_delete_registry r ns space session)).
Proof.
  intros [Hi Hc Hsz] Hok. unfold session_delete_registry.
  destruct (SESSIONS r !! session_key ns space session) as [m|] eqn:E; [|done].
  cbn [remove_session fst snd SPACES].
  pose proof (fun ns' space' => count_delete (SESSIONS r) ns space session Hok ns' space' m E) as Hd.
  assert (size (delete (session_key ns space session) (SESSIONS r)) <= n)%nat as Hsz'.
  { rewrite map_size_delete_Some by done. lia. }
  pose proof (Hc ns space (proj1 Hok)) as Hown. rewrite Hd, decide_True in Hown by done.
  destruct (SPACES r !! space_key ns space) as [sm|] eqn:Es; [|lia].
  split; [by apply index_delete| |done]. intros ns' space' Hok'. cbn [set_spaces SPACES SESSIONS remove_session fst snd].
  specialize (Hc _ _ Hok'). rewrite Hd in Hc. case_decide as Hx.
  - rewrite <- Hx, lookup_insert_eq. cbn [sp_session_count]. rewrite <- Hx, Es in Hc. unfold sat_sub. lia.
  - rewrite Nat.add_0_r in Hc. by rewrite lookup_insert_ne.
Qed.

(** What the removal of a list of sessions leaves. *)
Lemma remove_sessions ns space vs r :
  scope_ok ns space -> index_ok (SESSIONS r) (SESSION_BY_SCOPE r) -> NoDup vs.*1 ->
  Forall (fun v => u64 (fst v) /\ exists m, SESSIONS r !! session_key ns space (fst v) = Some m
    /\ sn_last_active m = snd v) vs ->
  let r' := fold_left (remove_session ns space) vs r in
  index_ok (SESSIONS r') (SESSION_BY_SCOPE r') /\ SPACES r' = SPACES r
  /\ (forall k m, SESSIONS r' !! k = Some m ->
       SESSIONS r !! k = Some m /\ Forall (fun v => k <> session_key ns space (fst v)) vs)
  /\ (forall ns' space', space_key ns space <> space_key ns' space' ->
       session_count (SESSIONS r') ns' space' = session_count (SESSIONS r) ns' space').
Proof.
  intros Hsc. revert r. induction vs as [|v vs IH]; intros r Hi Hnd Hv; cbn [fold_left]; cbv zeta.
  { split_and!; [done|done|by intros; split|done]. }
  apply NoDup_cons in Hnd as [Hnin Hnd]. apply Forall_cons in Hv as [(Hu & m & Hm & Hlast) Hv].
  assert (session_ok ns space (fst v)) as Hok by done.
  destruct (IH (remove_session ns space r v)) as (H1 & H2 & H3 & H4).
  - cbn. rewrite <- Hlast. by apply index_delete.
  - done.
  - rewrite Forall_forall in Hv |- *. intros w Hw. destruct (Hv w Hw) as (Hu' & m' & Hm' & Hl').
    split; [done|]. exists m'. split; [|done]. cbn. rewrite lookup_delete_ne; [done|]. intros E.
    apply session_key_inj in E as (_ & _ & E); [|done..]. apply Hnin. rewrite E. by apply list_elem_of_fmap_2.
  - split_and!; [done|done| |].
    + intros k m' [Hk Hf]%H3. cbn in Hk. apply lookup_delete_Some in Hk as [Hne Hk]. split; [done|]. by constructor.
    + intros ns' space' Hne. rewrite H4 by done. cbn [remove_session SESSIONS].
      rewrite (count_delete (SESSIONS r) ns space (fst v) Hok ns' space' m) by done.
      rewrite decide_False by done. lia.
Qed.

Lemma from_session_slice ns space session :
  session_ok ns space session -> from_be_bytes (slice 20 28 (session_key ns space session)) = session.
Proof.
  intros [[_ Hs] Hu]. rewrite session_key_split, slice_skip by (rewrite length_space_key; done || lia).
  rewrite length_space_key by done. rewrite <- (app_nil_r (to_be_bytes 8 session)), slice_head by (by rewrite ?length_to_be).
  by apply from_to_be.
Qed.

Lemma session_victims_spec r ns space :
  scope_ok ns space -> index_ok (SESSIONS r) (SESSION_BY_SCOPE r) ->
  NoDup (session_victims r ns space).*1
  /\ forall v, v ∈ session_victims r ns space <-> u64 (fst v)
       /\ exists m, SESSIONS r !! session_key ns space (fst v) = Some m /\ sn_last_active m = snd v.
Proof.
  intros Hsc [Hk _]. unfold session_victims.
  assert (forall k m, SESSIONS r !! k = Some m -> in_bounds (session_range_bounds ns space) k ->
    exists s, k = session_key ns space s /\ u64 s /\ from_be_bytes (slice 20 28 k) = s) as Hkey.
  { intros k m Hm Hb. destruct (Hk k m Hm) as (ns1 & sp1 & s1 & Hok & -> & _).
    apply session_in_bounds in Hb; [|done..]. apply space_key_inj in Hb as [-> ->]; [|apply Hok|done].
    exists s1. split_and!; [done|apply Hok|by apply from_session_slice]. }
  split.
  - rewrite <- list_fmap_compose. apply NoDup_fmap_2_strong.
    + intros [k m] [k' m'] [Hb Hin]%list_elem_of_filter [Hb' Hin']%list_elem_of_filter. cbn.
      apply elem_of_map_to_list in Hin, Hin'. destruct (Hkey _ _ Hin Hb) as (s & -> & _ & ->).
      destruct (Hkey _ _ Hin' Hb') as (s' & -> & _ & ->). intros ->. congruence.
    + apply NoDup_filter, NoDup_map_to_list.
  - intros [s at_]. rewrite list_elem_of_fmap. cbn [fst snd]. split.
    + intros ([k m] & [= -> ->] & [Hb Hin]%list_elem_of_filter). cbn in *. apply elem_of_map_to_list in Hin.
      destruct (Hkey _ _ Hin Hb) as (s & -> & Hu & ->). split; [done|]. by exists m.
    + intros (Hu & m & Hm & <-). exists (session_key ns space s, m). cbn.
      rewrite from_session_slice by done. split; [done|]. apply list_elem_of_filter. cbn.
      split; [by apply session_in_bounds|by apply elem_of_map_to_list].
Qed.

Lemma space_delete_ok n r ns space :
  reg_ok n r -> scope_ok ns space -> reg_ok n (snd (space_delete_registry r ns space)).
Proof.
  intros [Hi Hc Hsz] Hok. unfold space_delete_registry. cbn [snd].
  destruct (session_victims_spec r ns space Hok Hi) as [Hnd Hv].
  destruct (remove_sessions ns space (session_victims r ns space) r) as (H1 & H2 & H3 & H4); [done..| |].
  { apply Forall_forall. intros v Hin. by apply Hv. }
  set (r' := fold_left _ _ _) in *. split; cbn [set_spaces SESSIONS SESSION_BY_SCOPE SPACES]; [done| |].
  - intros ns' space' Hok'. destruct (decide (space_key ns space = space_key ns' space')) as [E|E].
    + rewrite <- E, lookup_delete_eq. apply space_key_inj in E as [<- <-]; [|done..].
      apply map_size_empty_iff, map_empty. intros k. apply map_lookup_filter_None. right. intros m Hm Hof.
      apply H3 in Hm as [Hm Hnot]. destruct (ix_keys _ _ Hi _ _ Hm) as (ns1 & sp1 & s1 & Hok1 & -> & _).
      apply of_space_key in Hof; [|apply Hok1]. apply space_key_inj in Hof as [-> ->]; [|apply Hok1|done].
      rewrite Forall_forall in Hnot. apply (Hnot (s1, sn_last_active m)); [|done]. apply Hv.
      split; [apply Hok1|]. by exists m.
    + rewrite lookup_delete_ne, H2, H4 by done. by apply Hc.
  - etrans; [|exact Hsz]. apply map_subseteq_size, map_subseteq_spec. intros k m Hm. by apply H3.
Qed.

Definition op_ok (o : RegOp) : Prop :=
  match o with
  | Touch ns space _ session at_ | SessionCreate ns space session at_ _ =>
    session_ok ns space session /\ u64 at_
  | SessionDelete ns space session => session_ok ns space session
  | SpaceCreate ns space _ _ _ | SpaceDelete ns space => scope_ok ns space
  end.

Lemma reg_step_ok n r o :
  reg_ok n r -> op_ok o -> Z.of_nat (S n) <= U32_MAX -> reg_ok (S n) (reg_step r o).
Proof.
  intros Hr Ho Hn. destruct o as [ns sp str s at_|ns sp str at_ md|ns sp|ns sp s at_ t|ns sp s]; cbn [reg_step op_ok] in *.
  - destruct Ho. by apply touch_ok.
  - apply reg_ok_mono with (n := n); [lia|]. by apply space_create_ok.
  - apply reg_ok_mono with (n := n); [lia|]. by apply space_delete_ok.
  - destruct Ho. unfold session_create. destruct (SESSIONS r !! _) eqn:E; [|by apply create_ok].
    by apply reg_ok_mono with (n := n); [lia|].
  - apply reg_ok_mono with (n := n); [lia|]. by apply session_delete_ok.
Qed.

Lemma reg_run_ok ops :
  Forall op_ok ops -> Z.of_nat (length ops) <= U32_MAX -> reg_ok (length ops) (reg_run ops).
Proof.
  unfold reg_run. induction ops as [|o ops IH] using rev_ind; intros Ho Hn.
  - split; cbn; [|by intros ns space Hok|done]. split; [done|]. intros k. split; [set_solver|].
    by intros (? & ? & ? & ? & _ & ? & _).
  - rewrite length_app in *. cbn [length] in *. apply Forall_app in Ho as [Ho Hx]. inversion_clear Hx.
    rewrite fold_left_app. cbn [fold_left]. replace (length ops + 1)%nat with (S (length ops)) by lia.
    apply reg_step_ok; [apply IH; [done|lia]|done|lia].
Qed.

(** ** Listing sessions *)

Definition entry_session (r : Registry) (ns : Z) (space : Uuid) (k : bytes) : option (Z * SessionMetadata) :=
  let s := from_be_bytes (slice 28 36 k) in
  m ← SESSIONS r !! session_key ns space s; Some (s, m).

Definition scope_entries (r : Registry) (ns : Z) (space : Uuid) : list bytes :=
  let '(start, end_) := session_scope_range_bounds ns space in
  reverse (timeline_range (SESSION_BY_SCOPE r) (Included start) (Included end_)).

Lemma take_full {A} n (l : list A) x t : n = S (length l) -> take n (l ++ x :: t) = l ++ [x].
Proof. intros ->. rewrite cons_middle, app_assoc, take_app_length'; [done|]. rewrite length_app. cbn. lia. Qed.

Lemma session_loop_spec r ns space limit keys out :
  (limit = 0%nat \/ (length out < limit)%nat) ->
  session_loop r ns space limit keys out =
  let l := out ++ omap (entry_session r ns space) keys in
  if (limit =? 0)%nat then l else take limit l.
Proof.
  revert out. induction keys as [|k keys IH]; intros out Hl; cbn [session_loop].
  { cbn. rewrite app_nil_r. case_match eqn:E; [done|]. apply Nat.eqb_neq in E. rewrite take_ge by lia. done. }
  cbn [omap list_omap]. pose proof (eq_refl : entry_session r ns space k =
    (m ← SESSIONS r !! session_key ns space (from_be_bytes (slice 28 36 k)); Some (from_be_bytes (slice 28 36 k), m)))
    as Ek. destruct (SESSIONS r !! _) as [m|]; cbn [mbind option_bind] in Ek; rewrite Ek; clear Ek.
  - destruct (limit =? 0)%nat eqn:E; cbn [negb andb].
    + apply Nat.eqb_eq in E. subst. rewrite IH by (by left). cbn. by rewrite <- app_assoc.
    + apply Nat.eqb_neq in E. rewrite length_app. cbn [length]. case_match eqn:Ee.
      * apply Nat.leb_le in Ee. cbv zeta. by rewrite take_full by lia.
      * apply Nat.leb_gt in Ee. rewrite IH by (right; rewrite length_app; cbn; lia).
        apply Nat.eqb_neq in E. rewrite ?E. cbv zeta. by rewrite <- app_assoc.
  - destruct (limit =? 0)%nat eqn:E; cbn [negb andb].
    + apply Nat.eqb_eq in E. subst. by rewrite IH by (by left).
    + apply Nat.eqb_neq in E. rewrite (proj2 (Nat.leb_gt _ _)) by lia. rewrite IH by (right; lia).
      apply Nat.eqb_neq in E. by rewrite ?E.
Qed.

Lemma scope_slice ns space at_ session :
  session_ok ns space session ->
  from_be_bytes (slice 28 36 (session_scope_key ns space at_ session)) = session.
Proof.
  intros [[_ Hs] Hu]. rewrite scope_key_split, app_assoc, slice_skip
    by (rewrite length_app, length_space_key, length_to_be; done || lia).
  rewrite length_app, length_space_key, length_to_be by done.
  rewrite <- (app_nil_r (to_be_bytes 8 session)), slice_head by (by rewrite ?length_to_be).
  by apply from_to_be.
Qed.

Section listing.
Context (r : Registry) (ns : Z) (space : Uuid).
Hypothesis Hi : index_ok (SESSIONS r) (SESSION_BY_SCOPE r).
Hypothesis Hok : scope_ok ns space.

Lemma scope_entries_elem k :
  k ∈ scope_entries r ns space <-> exists s m, u64 s /\ SESSIONS r !! session_key ns space s = Some m
    /\ k = session_scope_key ns space (sn_last_active m) s.
Proof.
  unfold scope_entries, session_scope_range_bounds. rewrite elem_of_reverse, timeline_range_elem. cbn [above below].
  rewrite (ix_scope _ _ Hi). split.
  - intros ((ns1 & sp1 & s1 & m & Hok1 & Hm & ->) & Hb).
    destruct (ix_keys _ _ Hi _ _ Hm) as (? & ? & ? & _ & _ & Hu).
    apply (scope_in_bounds ns space ns1 sp1) in Hb; [|done..].
    apply space_key_inj in Hb as [-> ->]; [|apply Hok1|done]. exists s1, m. by split; [apply Hok1|].
  - intros (s & m & Hu & Hm & ->). destruct (ix_keys _ _ Hi _ _ Hm) as (? & ? & ? & _ & _ & Hl).
    split; [by exists ns, space, s, m|]. by apply (scope_in_bounds ns space ns space).
Qed.

Lemma entry_session_key s m :
  u64 s -> SESSIONS r !! session_key ns space s = Some m ->
  entry_session r ns space (session_scope_key ns space (sn_last_active m) s) = Some (s, m).
Proof. intros Hu Hm. unfold entry_session. rewrite scope_slice by done. by rewrite Hm. Qed.

Lemma session_list_elem s m :
  (s, m) ∈ session_list r ns space 0 <-> u64 s /\ SESSIONS r !! session_key ns space s = Some m.
Proof.
  change (session_list r ns space 0) with (session_loop r ns space 0 (scope_entries r ns space) []).
  rewrite session_loop_spec by (by left). cbn [Nat.eqb app]. cbv zeta. rewrite list_elem_of_omap. split.
  - intros (k & (s' & m' & Hu & Hm & ->)%scope_entries_elem & E). rewrite entry_session_key in E by done.
    by injection E as <- <-.
  - intros [Hu Hm]. exists (session_scope_key ns space (sn_last_active m) s).
    split; [|by apply entry_session_key]. apply scope_entries_elem. by exists s, m.
Qed.

Lemma session_list_order :
  StronglySorted (fun x y => scan_order true (session_scope_key ns space (sn_last_active x.2) x.1)
    (session_scope_key ns space (sn_last_active y.2) y.1)) (session_list r ns space 0).
Proof.
  change (session_list r ns space 0) with (session_loop r ns space 0 (scope_entries r ns space) []).
  rewrite session_loop_spec by (by left). cbn [Nat.eqb app]. cbv zeta.
  assert (StronglySorted (scan_order true) (scope_entries r ns space)) as Hs.
  { unfold scope_entries. destruct (session_scope_range_bounds _ _). apply strongly_sorted_reverse, timeline_range_sorted. }
  assert (Forall (fun k => exists s m, entry_session r ns space k = Some (s, m)
    /\ k = session_scope_key ns space (sn_last_active m) s) (scope_entries r ns space)) as Hf.
  { apply Forall_forall. intros k (s & m & Hu & Hm & ->)%scope_entries_elem. exists s, m.
    split; [by apply entry_session_key|done]. }
  induction Hs as [|k l Hs IH Hk]; [constructor|]. apply Forall_cons in Hf as [(s & m & E & Ek) Hf].
  cbn [omap list_omap]. rewrite E. constructor; [by apply IH|]. apply Forall_forall. intros y Hy.
  apply list_elem_of_omap in Hy as (k' & Hk' & E'). rewrite Forall_forall in Hk, Hf.
  destruct (Hf _ Hk') as (s' & m' & E1 & E2). rewrite E1 in E'. injection E' as <-. cbn [fst snd].
  rewrite <- Ek, <- E2. by apply Hk.
Qed.

Lemma session_list_count : length (session_list r ns space 0) = session_count (SESSIONS r) ns space.
Proof.
  unfold session_count. rewrite <- length_map_to_list.
  rewrite <- (length_fmap (fun x => (session_key ns space x.1, x.2)) (session_list r ns space 0)).
  apply Permutation_length, NoDup_Permutation.
  - assert (NoDup (session_list r ns space 0)) as Hnd.
    { eapply sorted_nodup, session_list_order. intros x. apply scan_order_irrefl. }
    apply NoDup_fmap_2_strong; [|done]. intros [s m] [s' m'] [Hu _]%session_list_elem [Hu' _]%session_list_elem. cbn.
    intros [E ->]%pair_eq. by apply session_key_inj in E as (_ & _ & ->).
  - apply NoDup_map_to_list.
  - intros [k m]. rewrite elem_of_map_to_list, map_lookup_filter_Some, list_elem_of_fmap. split.
    + intros ([s m'] & [= -> ->] & [Hu Hm]%session_list_elem). split; [done|]. by apply of_space_key; [apply Hok|].
    + intros [Hm Hof]. destruct (ix_keys _ _ Hi _ _ Hm) as (ns1 & sp1 & s1 & Hok1 & -> & _).
      apply of_space_key in Hof; [|apply Hok1]. apply space_key_inj in Hof as [-> ->]; [|apply Hok1|done].
      exists (s1, m). split; [done|]. apply session_list_elem. by split; [apply Hok1|].
Qed.
End listing.

(** C24: The registry is exact.  After any sequence of fewer than 2^32 memory writes,
    space and session creations and deletions, in any order and with any
    clock readings, the listing of a space has exactly its sessions, each
    once, those active last first, a limit cuts it off and does nothing else,
    and the space row exists when there is a session and counts them. *)
Theorem registry_exact (ops : list RegOp) (ns : Z) (space : Uuid)
    (Hops : Forall op_ok ops) (Hlen : Z.of_nat (length ops) <= U32_MAX) (Hok : scope_ok ns space) :
  let r := reg_run ops in
  let l := session_list r ns space 0 in
  (forall s m, (s, m) ∈ l <-> u64 s /\ SESSIONS r !! session_key ns space s = Some m)
  /\ NoDup l.*1
  /\ StronglySorted (fun x y => sn_last_active y.2 <= sn_last_active x.2) l
  /\ (forall limit, (0 < limit)%nat -> session_list r ns space limit = take limit l)
  /\ match SPACES r !! space_key ns space with
     | Some m => sp_session_count m = Z.of_nat (length l)
     | None => l = []
     end.
Proof.
  cbv zeta. destruct (reg_run_ok ops Hops Hlen) as [Hi Hc _]. set (r := reg_run ops) in *.
  assert (forall s m, (s, m) ∈ session_list r ns space 0 <->
    u64 s /\ SESSIONS r !! session_key ns space s = Some m) as Hel by (intros; by apply session_list_elem).
  pose proof (session_list_order r ns space Hi Hok) as Hs. split_and!; [done| | | |].
  - assert (NoDup (session_list r ns space 0)) as Hnd.
    { eapply sorted_nodup, Hs. intros x. apply scan_order_irrefl. }
    apply NoDup_fmap_2_strong; [|done]. intros [s m] [s' m'] [_ H]%Hel [_ H']%Hel. cbn. intros <-. congruence.
  - eapply sorted_weaken; [exact Hs|]. intros [s m] [s' m'] [Hu Hm]%Hel [Hu' Hm']%Hel. cbn.
    destruct (ix_keys _ _ Hi _ _ Hm) as (? & ? & ? & _ & _ & Hl). destruct (ix_keys _ _ Hi _ _ Hm') as (? & ? & ? & _ & _ & Hl').
    rewrite bytes_lt_le, !scope_key_split. intros [Hle _]. unfold bytes_le in Hle. rewrite bytes_compare_app in Hle.
    apply bytes_le_parts in Hle; [|by rewrite !length_to_be]. unfold bytes_le in Hle.
    rewrite to_be_compare in Hle by done. by apply Z.compare_le_iff.
  - intros limit Hl.
    change (session_list r ns space limit) with (session_loop r ns space limit (scope_entries r ns space) []).
    change (session_list r ns space 0) with (session_loop r ns space 0 (scope_entries r ns space) []).
    rewrite !session_loop_spec by (cbn; lia). cbn [Nat.eqb app]. cbv zeta. by destruct limit; [lia|].
  - specialize (Hc ns space Hok). rewrite <- session_list_count in Hc by done.
    destruct (SPACES r !! _); [done|]. by apply nil_length_inv.
Qed.

Module RegistryExample.
Definition sp (n : Z) : Uuid := replicate 15 Byte.x00 ++ [byte_of n].
Definition ops : list RegOp :=
  [Touch 1 (sp 1) [] 7 100; SessionCreate 1 (sp 1) 8 150 None; Touch 1 (sp 1) [] 7 200; Touch 1 (sp 2) [] 7 300;
   SessionCreate 1 (sp 1) 9 50 None; SpaceDelete 1 (sp 2); SessionDelete 1 (sp 1) 9].

Lemma registry_exact_witness :
  map fst (session_list (reg_run ops) 1 (sp 1) 0) = [7; 8]
  /\ session_list (reg_run ops) 1 (sp 1) 1 = take 1 (session_list (reg_run ops) 1 (sp 1) 0).
Proof.
  split; [vm_compute; reflexivity|].
  destruct (registry_exact ops 1 (sp 1)) as (_ & _ & _ & H & _).
  - unfold ops. repeat apply Forall_cons_2; try done; cbn; unfold session_ok, scope_ok, uint; repeat split; try done; lia.
  - by vm_compute.
  - split; [unfold uint; lia|done].
  - apply (H 1%nat). lia.
Defined.
End RegistryExample.

Module RegistryFaults.
Import RegistryExample.
(** Creating a session counts a memory: it goes through the touch of a memory write. *)
Theorem session_create_counts_memory :
  sp_memory_count <$> SPACES (reg_run [SessionCreate 1 (sp 1) 8 150 None]) !! space_key 1 (sp 1) = Some 1.
Proof. vm_compute. reflexivity. Qed.

(** The touch is not idempotent: when an ENCODE that was applied is replayed as well,
    its memory is counted twice. *)
Theorem replayed_touch_counts_twice :
  sp_memory_count <$> SPACES (reg_run [Touch 1 (sp 1) [] 7 100; Touch 1 (sp 1) [] 7 100]) !! space_key 1 (sp 1)
  = Some 2.
Proof. vm_compute. reflexivity. Qed.
End RegistryFaults.
