(* ===== verification/MemoryApply.v ===== *)
(** Memory phases: their live application ([brain-ops]: [apply/memory.rs],
    [apply/reclaim.rs]), their log payloads ([writer/wal_map.rs]) and the replay
    of these by the metadata store ([brain-metadata]: [recovery/memory.rs],
    [recovery/reclaim.rs]).

    A phase acts inside one redb transaction: the database it was given is
    dropped when it fails.  Failures of redb itself are answers of [submit]
    (see [Submit]).  The bundle of derived artifacts of a memory is JSON with
    analysed text in it, by other packages: [Artifacts] is what the code asks
    of them.  The edges of an ENCODE payload are not part of [MemDb]: the
    writer logs none. *)

From stdpp Require Import gmap sorting.
From S2P Require Import Prelude Crc32c Ids WalKinds WalRecord WalPayload WalPayloadCodec.
From S2P Require Import Access EdgeTable AckCodec Submit SubmitSpec MemoryTable Registry.

(** ** The tables *)

Record SyncRecord := {
  sr_memory_id : Z;
  sr_kind : Z;
  sr_salience : Z;
  sr_created_at : Z;
  sr_occurred_at : Z;
  sr_vector_dim : Z;
  sr_text_len : Z;
}.

(** [merge_memory_artifact] with the closure of [put_sync_artifact]. *)
Class Artifacts := {
  bundle : Type;
  merge_sync : option bundle -> list Z -> SyncRecord -> bytes -> bundle;
}.

Record ModelInfo := { mi_model_name : bytes; mi_seen_at : Z; mi_memory_count : Z }.

Section memory.
Context {crates : Crates} {artifacts : Artifacts}.

Record MemDb := MkMemDb {
  db_memories : gmap bytes MemoryMetadata;
  db_timeline : gset bytes;
  db_texts : gmap bytes bytes;
  db_fingerprints : gmap bytes FingerprintEntry;
  db_queue : gmap bytes Z;
  db_vectors : gmap bytes bytes;
  db_artifacts : gmap bytes bundle;
  db_slot_versions : gmap Z Z;
  db_models : gmap bytes ModelInfo;
  db_registry : Registry;
}.

Definition set_memories x db :=
  MkMemDb x (db_timeline db) (db_texts db) (db_fingerprints db) (db_queue db) (db_vectors db)
    (db_artifacts db) (db_slot_versions db) (db_models db) (db_registry db).
Definition set_timeline x db :=
  MkMemDb (db_memories db) x (db_texts db) (db_fingerprints db) (db_queue db) (db_vectors db)
    (db_artifacts db) (db_slot_versions db) (db_models db) (db_registry db).
Definition set_texts x db :=
  MkMemDb (db_memories db) (db_timeline db) x (db_fingerprints db) (db_queue db) (db_vectors db)
    (db_artifacts db) (db_slot_versions db) (db_models db) (db_registry db).
Definition set_fingerprints x db :=
  MkMemDb (db_memories db) (db_timeline db) (db_texts db) x (db_queue db) (db_vectors db)
    (db_artifacts db) (db_slot_versions db) (db_models db) (db_registry db).
Definition set_queue x db :=
  MkMemDb (db_memories db) (db_timeline db) (db_texts db) (db_fingerprints db) x (db_vectors db)
    (db_artifacts db) (db_slot_versions db) (db_models db) (db_registry db).
Definition set_derived vectors artifacts db :=
  MkMemDb (db_memories db) (db_timeline db) (db_texts db) (db_fingerprints db) (db_queue db) vectors
    artifacts (db_slot_versions db) (db_models db) (db_registry db).
Definition set_slot_versions x db :=
  MkMemDb (db_memories db) (db_timeline db) (db_texts db) (db_fingerprints db) (db_queue db) (db_vectors db)
    (db_artifacts db) x (db_models db) (db_registry db).
Definition set_models x db :=
  MkMemDb (db_memories db) (db_timeline db) (db_texts db) (db_fingerprints db) (db_queue db) (db_vectors db)
    (db_artifacts db) (db_slot_versions db) x (db_registry db).
Definition set_registry x db :=
  MkMemDb (db_memories db) (db_timeline db) (db_texts db) (db_fingerprints db) (db_queue db) (db_vectors db)
    (db_artifacts db) (db_slot_versions db) (db_models db) x.

Definition put_row (id : bytes) (row : MemoryMetadata) (db : MemDb) : MemDb :=
  set_memories (<[id := row]> (db_memories db)) db.
Definition put_text (id text : bytes) (db : MemDb) : MemDb := set_texts (<[id := text]> (db_texts db)) db.
Definition add_timeline (key : bytes) (db : MemDb) : MemDb := set_timeline ({[key]} ∪ db_timeline db) db.
Definition drop_timeline (key : bytes) (db : MemDb) : MemDb := set_timeline (db_timeline db ∖ {[key]}) db.
Definition put_fingerprint (key : bytes) (e : FingerprintEntry) (db : MemDb) : MemDb :=
  set_fingerprints (<[key := e]> (db_fingerprints db)) db.
Definition drop_fingerprint (key : bytes) (db : MemDb) : MemDb :=
  set_fingerprints (delete key (db_fingerprints db)) db.

(** The fingerprint key of a row that opted into dedup. *)
Definition row_fingerprint_key (row : MemoryMetadata) : option bytes :=
  fingerprint_key (mm_space_id_bytes row) (mm_session_id row) <$> mm_content_hash row.

Definition vector_to_le_bytes (vector : list Z) : bytes := concat (map (to_le_bytes 4) vector).

Definition put_sync_artifact (id : bytes) (vector : list Z) (record : SyncRecord) (text : bytes) (db : MemDb)
  : MemDb :=
  set_derived (<[id := vector_to_le_bytes vector]> (db_vectors db))
    (<[id := merge_sync (db_artifacts db !! id) vector record text]> (db_artifacts db)) db.
Definition delete_memory_artifact (id : bytes) (db : MemDb) : MemDb :=
  set_derived (delete id (db_vectors db)) (delete id (db_artifacts db)) db.

(** ** Phases *)

Record UpsertArgs := {
  um_id : MemoryId;
  um_text : bytes;
  um_vector : list Z;
  um_kind : MemoryKind;
  um_salience : Z;
  um_session_id : Z;
  um_created_at : Z;
  um_occurred_at : option Z;
  um_arena_slot : Z;
  um_embedding_model_fp : bytes;
  um_content_hash : option bytes;
  um_deduplicate : bool;
}.

Inductive MemoryPhase :=
| UpsertMemory (u : UpsertArgs)
| TombstoneMemory (id : MemoryId) (mode : TombstoneMode) (reason at_ : Z)
| PhaseRestoreMemory (id : MemoryId) (at_ : Z)
| PhaseUpdateSalience (id : MemoryId) (new_salience : Z)
| PhaseUpdateKind (id : MemoryId) (new_kind : MemoryKind)
| PhaseUpdateSession (id : MemoryId) (new_session_id : Z)
| UpdateEmbedding (id : MemoryId) (new_vector : list Z)
| ReclaimSlots (slots : list Z).

(** The hash under which the row stands in the dedup index. *)
Definition stamped_hash (u : UpsertArgs) : option bytes :=
  if um_deduplicate u then um_content_hash u else None.

Definition upserted_row (u : UpsertArgs) (w : Write MemoryPhase) : MemoryMetadata :=
  let row := with_occurred_at
    (new_active (um_id u) (w_namespace w) (w_space w) (um_session_id u) (um_arena_slot u)
       (MemoryId.version (um_id u)) (um_kind u) (um_embedding_model_fp u) (um_salience u)
       (wrap 32 (Z.of_nat (length (um_text u)))) (um_created_at u))
    (um_occurred_at u) in
  match stamped_hash u with Some ch => with_content_hash row ch | None => row end.

Definition sync_record (u : UpsertArgs) : SyncRecord :=
  {| sr_memory_id := from_be_bytes (MemoryId.to_be (um_id u)); sr_kind := memory_kind_to_u8 (um_kind u);
     sr_salience := um_salience u; sr_created_at := um_created_at u;
     sr_occurred_at := default 0 (um_occurred_at u);
     sr_vector_dim := wrap 32 (Z.of_nat (length (um_vector u)));
     sr_text_len := wrap 32 (Z.of_nat (length (um_text u))) |}.

Definition extraction_queue_enqueue (id : bytes) (now : Z) (db : MemDb) : MemDb :=
  set_queue (<[id := now]> (db_queue db)) db.

Definition apply_upsert_memory (db : MemDb) (u : UpsertArgs) (w : Write MemoryPhase)
  : result (MemDb * PhaseAck) ApplyError :=
  let id := MemoryId.to_be (um_id u) in
  let row := upserted_row u w in
  let db := put_row id row db in
  let db := add_timeline (space_timeline_key (mm_namespace_id row) (w_space w) (um_created_at u)
                            (um_session_id u) id) db in
  let db := put_text id (um_text u) db in
  let db := extraction_queue_enqueue id (um_created_at u) db in
  let db := put_sync_artifact id (um_vector u) (sync_record u) (um_text u) db in
  let db := match stamped_hash u with
    | Some ch => put_fingerprint (fingerprint_key (w_space w) (um_session_id u) ch)
                   {| fe_memory_id_bytes := id; fe_inserted_at := um_created_at u |} db
    | None => db
    end in
  let db := set_registry (touch_on_write (db_registry db) (mm_namespace_id row) (w_space w) (w_space_string w)
                            (um_session_id u) (um_created_at u)) db in
  Ok (db, UpsertedMemory (um_id u)).

(** The detail names the id only. *)
Definition memory_not_found : ApplyError := NotFound "memory" "MemoryId".

Definition irreversible : ApplyError := Invariant "cannot restore a hard-forgotten memory (invariant #6)".

Definition load_memory (db : MemDb) (id : MemoryId) : result MemoryMetadata ApplyError :=
  match db_memories db !! MemoryId.to_be id with
  | None => Err memory_not_found
  | Some row => Ok row
  end.

(** The row with the tombstone on it. *)
Definition tombstoned_row (mode : TombstoneMode) (at_ : Z) (row : MemoryMetadata) : MemoryMetadata :=
  let flags := Z.ldiff (mm_flags row) row_flags.ACTIVE in
  match mode with
  | TombSoft => set_state row flags (mm_forgot_at row) (Some at_)
  | TombHard => set_state row (Z.lor flags row_flags.HARD_FORGOTTEN) (Some at_) (Some at_)
  end.

Definition apply_tombstone_memory (db : MemDb) (id : MemoryId) (mode : TombstoneMode) (at_ : Z)
    (w : Write MemoryPhase) : result (MemDb * PhaseAck) ApplyError :=
  let key := MemoryId.to_be id in
  let? row := load_memory db id in
  if bool_decide (mm_space_id_bytes row <> w_space w) then Err memory_not_found else
  let row := tombstoned_row mode at_ row in
  let db := put_row key row db in
  let db := drop_timeline (row_timeline_key row) db in
  let db := match row_fingerprint_key row with Some k => drop_fingerprint k db | None => db end in
  let db := match mode with
    | TombSoft => db
    | TombHard => delete_memory_artifact key (set_texts (delete key (db_texts db)) db)
    end in
  Ok (db, Tombstoned (TargetMemory id mode) at_).

Definition apply_restore_memory (db : MemDb) (id : MemoryId) (w : Write MemoryPhase)
  : result (MemDb * PhaseAck) ApplyError :=
  let? row := load_memory db id in
  if bool_decide (mm_space_id_bytes row <> w_space w) then Err memory_not_found else
  if is_hard_forgotten row then
    Err irreversible else
  if is_active row then Ok (db, MemoryRestored id true) else
  let row := set_state row (Z.lor (mm_flags row) row_flags.ACTIVE) (mm_forgot_at row) None in
  let db := put_row (MemoryId.to_be id) row db in
  let db := add_timeline (row_timeline_key row) db in
  let db := match row_fingerprint_key row with
    | Some k => put_fingerprint k {| fe_memory_id_bytes := MemoryId.to_be id;
                                     fe_inserted_at := mm_created_at row |} db
    | None => db
    end in
  Ok (db, MemoryRestored id false).

Definition apply_update_salience (db : MemDb) (id : MemoryId) (new_salience : Z)
  : result (MemDb * PhaseAck) ApplyError :=
  let? row := load_memory db id in
  Ok (put_row (MemoryId.to_be id) (set_salience row new_salience) db, SalienceUpdated).

Definition apply_update_kind (db : MemDb) (id : MemoryId) (new_kind : MemoryKind)
  : result (MemDb * PhaseAck) ApplyError :=
  let? row := load_memory db id in
  Ok (put_row (MemoryId.to_be id) (set_kind row (memory_kind_to_u8 new_kind)) db, KindUpdated).

Definition apply_update_session (db : MemDb) (id : MemoryId) (new_session_id : Z)
  : result (MemDb * PhaseAck) ApplyError :=
  let key := MemoryId.to_be id in
  let? row := load_memory db id in
  let tkey s := space_timeline_key (mm_namespace_id row) (mm_space_id_bytes row) (mm_created_at row) s key in
  let db := put_row key (set_session row new_session_id) db in
  let db := drop_timeline (tkey (mm_session_id row)) db in
  let db := add_timeline (tkey new_session_id) db in
  Ok (db, ContextUpdated).

Definition apply_update_embedding (db : MemDb) (id : MemoryId) : result (MemDb * PhaseAck) ApplyError :=
  let? row := load_memory db id in
  let row := set_state row (Z.ldiff (mm_flags row) row_flags.STALE) (mm_forgot_at row) (mm_tombstoned_at row) in
  Ok (put_row (MemoryId.to_be id) row db, EmbeddingUpdated).

Definition reclaim_row (slots : list Z) (db : MemDb) (row : MemoryMetadata) : MemDb :=
  if bool_decide (mm_slot_id row ∈ slots) then
    let db := match row_fingerprint_key row with Some k => drop_fingerprint k db | None => db end in
    delete_memory_artifact (mm_memory_id_bytes row) db
  else db.

(** The rows are those of the table before the evictions; their order does not matter. *)
Definition apply_reclaim_slots (db : MemDb) (slots : list Z) : result (MemDb * PhaseAck) ApplyError :=
  let rows := map snd (map_to_list (db_memories db)) in
  Ok (fold_left (reclaim_row slots) rows db,
      SlotsReclaimed (wrap 64 (Z.of_nat (length (filter (fun row => mm_slot_id row ∈ slots) rows))))).

Definition memory_dispatch (db : MemDb) (p : MemoryPhase) (w : Write MemoryPhase)
  : result (MemDb * PhaseAck) ApplyError :=
  match p with
  | UpsertMemory u => apply_upsert_memory db u w
  | TombstoneMemory id mode _ at_ => apply_tombstone_memory db id mode at_ w
  | PhaseRestoreMemory id _ => apply_restore_memory db id w
  | PhaseUpdateSalience id x => apply_update_salience db id x
  | PhaseUpdateKind id k => apply_update_kind db id k
  | PhaseUpdateSession id s => apply_update_session db id s
  | UpdateEmbedding id _ => apply_update_embedding db id
  | ReclaimSlots slots => apply_reclaim_slots db slots
  end.

(** ** Log payloads *)

Definition upsert_wal_payload (u : UpsertArgs) (w : Write MemoryPhase) : WalPayload :=
  Encode {| ep_memory_id := um_id u; ep_request_id := w_write_id w; ep_space_id := w_space w;
            ep_namespace_id := w_namespace w; ep_session_id := um_session_id u; ep_kind := um_kind u;
            ep_salience_initial := um_salience u; ep_embedding_model_fp := um_embedding_model_fp u;
            ep_text := um_text u; ep_vector := um_vector u; ep_edges := [];
            ep_request_hash := ZERO_HASH; ep_response_payload := [];
            ep_deduplicate := um_deduplicate u; ep_occurred_at := um_occurred_at u |}.

Definition tombstone_wal_payload (id : MemoryId) (mode : TombstoneMode) (w : Write MemoryPhase) : WalPayload :=
  Forget {| fp_memory_id := id; fp_request_id := w_write_id w; fp_space_id := w_space w;
            fp_mode := match mode with TombSoft => Soft | TombHard => Hard end;
            fp_reason := ClientRequest |}.

Definition memory_wal_payload (p : MemoryPhase) (w : Write MemoryPhase) : option WalPayload :=
  match p with
  | UpsertMemory u => Some (upsert_wal_payload u w)
  | TombstoneMemory id mode _ _ => Some (tombstone_wal_payload id mode w)
  | PhaseRestoreMemory id _ =>
    Some (RestoreMemory {| rp_memory_id := id; rp_request_id := w_write_id w; rp_space_id := w_space w |})
  | PhaseUpdateSalience id x =>
    Some (UpdateSalience {| us_updates := [{| su_memory_id := id; su_new_salience := x;
                                              su_reason := ExplicitUpdate |}] |})
  | PhaseUpdateKind id k => Some (UpdateKind {| uk_memory_id := id; uk_new_kind := k |})
  | PhaseUpdateSession id s => Some (UpdateSession {| ux_memory_id := id; ux_new_session_id := s |})
  | UpdateEmbedding _ _ | ReclaimSlots _ => None
  end.

(** ** Replay *)

Definition recovered_encode_row (lsn ts : Z) (p : EncodePayload) : MemoryMetadata :=
  let id := ep_memory_id p in
  let row := with_occurred_at (with_encoded_at_lsn
    (new_active id (ep_namespace_id p) (ep_space_id p) (ep_session_id p) (MemoryId.slot id)
       (MemoryId.version id) (ep_kind p) (ep_embedding_model_fp p) (ep_salience_initial p)
       (Z.min (Z.of_nat (length (ep_text p))) U32_MAX) ts) lsn) (ep_occurred_at p) in
  if ep_deduplicate p then with_content_hash row (blake3 (ep_text p)) else row.

Definition recover_encode (db : MemDb) (lsn ts : Z) (p : EncodePayload) : MemDb :=
  let id := MemoryId.to_be (ep_memory_id p) in
  let db := put_row id (recovered_encode_row lsn ts p) db in
  let db := put_text id (ep_text p) db in
  let db :=
    if ep_deduplicate p
    then put_fingerprint (fingerprint_key (ep_space_id p) (ep_session_id p) (blake3 (ep_text p)))
           {| fe_memory_id_bytes := id; fe_inserted_at := ts |} db
    else db in
  let db := match db_models db !! ep_embedding_model_fp p with
    | Some _ => db
    | None => set_models (<[ep_embedding_model_fp p :=
                             {| mi_model_name := []; mi_seen_at := ts; mi_memory_count := 0 |}]> (db_models db)) db
    end in
  let db := set_slot_versions (<[MemoryId.slot (ep_memory_id p) := MemoryId.version (ep_memory_id p)]>
                                 (db_slot_versions db)) db in
  set_registry (touch_on_write (db_registry db) (ep_namespace_id p) (ep_space_id p) [] (ep_session_id p) ts) db.

Definition recover_forget (db : MemDb) (ts : Z) (p : ForgetPayload) : MemDb :=
  let key := MemoryId.to_be (fp_memory_id p) in
  match db_memories db !! key with
  | None => db
  | Some mem =>
    let mode := match fp_mode p with Soft => TombSoft | Hard => TombHard end in
    let db := put_row key (tombstoned_row mode ts mem) db in
    let db := drop_timeline (row_timeline_key mem) db in
    let db := match row_fingerprint_key mem with Some k => drop_fingerprint k db | None => db end in
    match fp_mode p with
    | Soft => db
    | Hard => delete_memory_artifact key (set_texts (delete key (db_texts db)) db)
    end
  end.

Definition recover_restore (db : MemDb) (ts : Z) (p : RestorePayload) : MemDb :=
  let key := MemoryId.to_be (rp_memory_id p) in
  match db_memories db !! key with
  | Some mem =>
    if is_hard_forgotten mem then db else
    let db := put_row key (set_state mem (Z.lor (mm_flags mem) row_flags.ACTIVE) (mm_forgot_at mem) None) db in
    let db := add_timeline (row_timeline_key mem) db in
    match row_fingerprint_key mem with
    | Some k => put_fingerprint k {| fe_memory_id_bytes := key; fe_inserted_at := ts |} db
    | None => db
    end
  | None => db
  end.

Definition alter_row (id : MemoryId) (f : MemoryMetadata -> MemoryMetadata) (db : MemDb) : MemDb :=
  match db_memories db !! MemoryId.to_be id with
  | Some mem => put_row (MemoryId.to_be id) (f mem) db
  | None => db
  end.

Definition update_one_salience (db : MemDb) (u : SalienceUpdate) : MemDb :=
  alter_row (su_memory_id u) (fun mem => set_salience mem (su_new_salience u)) db.

Definition recover_reclaim (db : MemDb) (p : ReclaimPayload) : MemDb :=
  let key := MemoryId.to_be (rc_memory_id p) in
  let db := set_memories (delete key (db_memories db)) db in
  let db := set_texts (delete key (db_texts db)) db in
  set_slot_versions (<[rc_slot_id p := rc_new_version p]> (db_slot_versions db)) db.

(** The bits of 0.5. *)
Definition F32_HALF : Z := 1056964608.
Definition consolidated_row (lsn ts : Z) (p : ConsolidatePayload) : MemoryMetadata :=
  let id := cp_new_memory_id p in
  {| mm_memory_id_bytes := MemoryId.to_be id; mm_namespace_id := NamespaceId_SYSTEM;
     mm_space_id_bytes := replicate 16 Byte.x00; mm_session_id := 0; mm_slot_id := MemoryId.slot id;
     mm_slot_version := MemoryId.version id; mm_kind := memory_kind_to_u8 Consolidated;
     mm_text_size := Z.min (Z.of_nat (length (cp_text p))) U32_MAX; mm_created_at := ts;
     mm_last_accessed_at := ts; mm_forgot_at := None; mm_tombstoned_at := None;
     mm_consolidated_at := Some ts; mm_occurred_at := None; mm_salience := F32_HALF;
     mm_salience_initial := F32_HALF; mm_access_count := 0;
     mm_embedding_model_fp := cp_embedding_model_fp p; mm_flags := row_flags.ACTIVE;
     mm_edges_out_count := 0; mm_edges_in_count := 0; mm_content_hash := None; mm_encoded_at_lsn := lsn |}.

Definition recover_consolidate (db : MemDb) (lsn ts : Z) (p : ConsolidatePayload) : MemDb :=
  let key := MemoryId.to_be (cp_new_memory_id p) in
  let db := put_row key (consolidated_row lsn ts p) db in
  let db := put_text key (cp_text p) db in
  set_slot_versions (<[MemoryId.slot (cp_new_memory_id p) := MemoryId.version (cp_new_memory_id p)]>
                       (db_slot_versions db)) db.

Definition memory_sink (db : MemDb) (lsn ts : Z) (p : WalPayload) : MemDb :=
  match p with
  | Encode p => recover_encode db lsn ts p
  | Forget p => recover_forget db ts p
  | RestoreMemory p => recover_restore db ts p
  | UpdateSalience p => fold_left update_one_salience (us_updates p) db
  | UpdateKind p => alter_row (uk_memory_id p) (fun mem => set_kind mem (memory_kind_to_u8 (uk_new_kind p))) db
  | UpdateSession p => alter_row (ux_memory_id p) (fun mem => set_session mem (ux_new_session_id p)) db
  | MigrateEmbedding p => alter_row (me_memory_id p) (fun mem => set_embedding_fp mem (me_new_fingerprint p)) db
  | Reclaim p => recover_reclaim db p
  | Consolidate p => recover_consolidate db lsn ts p
  | _ => db
  end.

(** ** As phases of the write path *)

Definition memory_phase_fits (p : MemoryPhase) : Prop :=
  match p with
  | UpsertMemory u => u128 (um_id u)
  | TombstoneMemory id _ _ at_ => u128 id /\ u64 at_
  | PhaseRestoreMemory id _ => u128 id
  | _ => True
  end.

#[export] Instance memory_sem : PhaseSem MemoryPhase MemDb :=
  {| dispatch := memory_dispatch; phase_to_wal_payload := memory_wal_payload; sink_apply := memory_sink;
     phase_fits := memory_phase_fits |}.

#[export] Instance memory_sem_laws : PhaseSemLaws MemoryPhase MemDb.
Proof.
  split.
  - intros db p w db' a Hp Hd. destruct p; cbn in Hp, Hd.
    1: by injection Hd as _ <-.
    all: try (unfold apply_tombstone_memory, apply_restore_memory, apply_update_salience, apply_update_kind,
      apply_update_session, apply_update_embedding in Hd; destruct (load_memory db id); [|done]; cbn in Hd;
      repeat case_match; simplify_eq; done).
    injection Hd as _ <-. apply wrap_uint. lia.
  - intros p w pl Hpl lsn ts i row. by destruct p; simplify_eq/=; intros [= <- <-].
Qed.

End memory.
