(* ===== verification/MemorySpec.v ===== *)
(** What memory phases cannot do: undo a hard forget, now or by replay, or reach a
    memory of another space through FORGET and RESTORE. *)

From stdpp Require Import gmap sorting.
From S2P Require Import Prelude Crc32c Ids WalKinds WalRecord WalPayload WalPayloadCodec.
From S2P Require Import Access EdgeTable AckCodec Submit SubmitSpec MemoryTable Registry MemoryApply.

Create HintDb erased.

(** ** Flags *)

Lemma land_pow2_testbit x n : 0 <= n -> negb (Z.land x (2 ^ n) =? 0) = Z.testbit x n.
Proof.
  intros Hn. destruct (Z.testbit x n) eqn:E.
  - apply negb_true_iff, Z.eqb_neq. intros H. apply (f_equal (fun z => Z.testbit z n)) in H.
    by rewrite Z.land_spec, E, Z.pow2_bits_true, Z.bits_0 in H.
  - apply negb_false_iff, Z.eqb_eq, Z.bits_inj'. intros m Hm. rewrite Z.land_spec, Z.pow2_bits_eqb, Z.bits_0 by lia.
    destruct (Z.eqb_spec n m) as [<-|]; [by rewrite E|apply andb_false_r].
Qed.

Lemma is_active_bit r : is_active r = Z.testbit (mm_flags r) 0.
Proof. apply (land_pow2_testbit (mm_flags r) 0). lia. Qed.
Lemma is_hard_bit r : is_hard_forgotten r = Z.testbit (mm_flags r) 1.
Proof. apply (land_pow2_testbit (mm_flags r) 1). lia. Qed.

Lemma tombstoned_flags mode at_ r :
  is_active (tombstoned_row mode at_ r) = false
  /\ is_hard_forgotten (tombstoned_row mode at_ r)
     = match mode with TombHard => true | TombSoft => is_hard_forgotten r end.
Proof.
  rewrite !is_active_bit, !is_hard_bit. destruct mode; cbn [tombstoned_row set_state rebuild mm_flags];
    rewrite ?Z.lor_spec, !Z.ldiff_spec; by rewrite ?andb_false_r, ?orb_true_r, ?andb_true_r.
Qed.

Lemma restored_flags r f t :
  let r' := set_state r (Z.lor (mm_flags r) row_flags.ACTIVE) f t in
  is_active r' = true /\ is_hard_forgotten r' = is_hard_forgotten r.
Proof.
  cbv zeta. rewrite !is_active_bit, !is_hard_bit. cbn [set_state rebuild mm_flags]. rewrite !Z.lor_spec.
  by rewrite orb_true_r, orb_false_r.
Qed.

Lemma fresh_flags r f t :
  let r' := set_state r (Z.ldiff (mm_flags r) row_flags.STALE) f t in
  is_active r' = is_active r /\ is_hard_forgotten r' = is_hard_forgotten r.
Proof.
  cbv zeta. rewrite !is_active_bit, !is_hard_bit. cbn [set_state rebuild mm_flags]. rewrite !Z.ldiff_spec.
  by rewrite !andb_true_r.
Qed.

Lemma tombstoned_key mode at_ r : row_timeline_key (tombstoned_row mode at_ r) = row_timeline_key r.
Proof. by destruct mode. Qed.
Lemma tombstoned_fp mode at_ r : row_fingerprint_key (tombstoned_row mode at_ r) = row_fingerprint_key r.
Proof. by destruct mode. Qed.

Section spec.
Context {crates : Crates} {artifacts : Artifacts}.
Implicit Types (db : MemDb) (w : Write MemoryPhase) (p : MemoryPhase).

(** ** A hard forget is final *)

(** What a shard may do to its tables, now or after a restart. *)
Inductive MemStep :=
| Live (p : MemoryPhase) (w : Write MemoryPhase)
| Replay (lsn ts : Z) (payload : WalPayload).

(** A refused phase leaves the database. *)
Definition mem_step (db : MemDb) (st : MemStep) : MemDb :=
  match st with
  | Live p w => match memory_dispatch db p w with Ok (db', _) => db' | Err _ => db end
  | Replay lsn ts payload => memory_sink db lsn ts payload
  end.

(** The step writes a memory under [key]. *)
Definition writes_memory (key : bytes) (st : MemStep) : Prop :=
  match st with
  | Live (UpsertMemory u) _ => MemoryId.to_be (um_id u) = key
  | Replay _ _ (Encode p) => MemoryId.to_be (ep_memory_id p) = key
  | Replay _ _ (Consolidate p) => MemoryId.to_be (cp_new_memory_id p) = key
  | _ => False
  end.

Record erased (key : bytes) (db : MemDb) : Prop := {
  er_row row : db_memories db !! key = Some row -> is_hard_forgotten row = true /\ is_active row = false;
  er_text : db_texts db !! key = None;
  er_vector : db_vectors db !! key = None;
  er_artifact : db_artifacts db !! key = None;
}.

Lemma erased_fp key f db : erased key db -> erased key (set_fingerprints f db).
Proof. by intros []. Qed.
Lemma erased_timeline key t db : erased key db -> erased key (set_timeline t db).
Proof. by intros []. Qed.
Lemma erased_row key k row db :
  erased key db -> (k = key -> is_hard_forgotten row = true /\ is_active row = false) ->
  erased key (put_row k row db).
Proof.
  intros [H1 H2 H3 H4] Hr. split; [|done..]. cbn. intros r [[E <-]|[_ H]]%lookup_insert_Some; [by apply Hr|by apply H1].
Qed.
Lemma erased_delete_artifact key k db : erased key db -> erased key (delete_memory_artifact k db).
Proof. intros [H1 H2 H3 H4]. split; [done|done|cbn; by rewrite lookup_delete_None; right..]. Qed.
Lemma erased_texts key k db : erased key db -> erased key (set_texts (delete k (db_texts db)) db).
Proof. intros [H1 H2 H3 H4]. split; [done|cbn; by rewrite lookup_delete_None; right|done..]. Qed.
Lemma erased_other_text key k text db : erased key db -> k <> key -> erased key (put_text k text db).
Proof. intros [H1 H2 H3 H4] Hne. split; [done|cbn; by rewrite lookup_insert_ne|done..]. Qed.
Lemma erased_slots key x db : erased key db -> erased key (set_slot_versions x db).
Proof. by intros []. Qed.
Lemma erased_models key x db : erased key db -> erased key (set_models x db).
Proof. by intros []. Qed.
Lemma erased_registry key x db : erased key db -> erased key (set_registry x db).
Proof. by intros []. Qed.
Lemma erased_queue key x db : erased key db -> erased key (set_queue x db).
Proof. by intros []. Qed.
Lemma erased_sync key k v r t db : erased key db -> k <> key -> erased key (put_sync_artifact k v r t db).
Proof. intros [H1 H2 H3 H4] Hne. split; [done|done|cbn; by rewrite lookup_insert_ne..]. Qed.
Hint Resolve erased_fp erased_timeline erased_delete_artifact erased_texts erased_other_text erased_slots
  erased_models erased_registry erased_queue erased_sync : erased.

Lemma erased_reclaim_rows key slots rows db : erased key db -> erased key (fold_left (reclaim_row slots) rows db).
Proof.
  revert db. induction rows as [|row rows IH]; intros db H; cbn [fold_left]; [done|]. apply IH.
  unfold reclaim_row, drop_fingerprint. repeat case_match; auto with erased.
Qed.

(** Changing a field of a row that is not a flag. *)
Lemma erased_load key id f db row :
  erased key db -> db_memories db !! MemoryId.to_be id = Some row ->
  is_hard_forgotten (f row) = is_hard_forgotten row -> is_active (f row) = is_active row ->
  erased key (put_row (MemoryId.to_be id) (f row) db).
Proof.
  intros He Hrow Hh Ha. apply erased_row; [done|]. intros Hk. rewrite Hh, Ha. apply (er_row _ _ He). by rewrite <- Hk.
Qed.

Lemma erased_dispatch key db p w db' a :
  erased key db -> ~ writes_memory key (Live p w) -> memory_dispatch db p w = Ok (db', a) -> erased key db'.
Proof.
  intros He Hw Hd. destruct p as [u|id mode reason at_|id at_|id x|id x|id x|id x|slots]; cbn in Hw, Hd.
  - injection Hd as <- _. apply erased_registry. destruct (stamped_hash u); unfold put_fingerprint;
      [apply erased_fp|]; (apply erased_sync; [|done]); apply erased_queue, erased_other_text; try done;
      apply erased_timeline, erased_row; done.
  - unfold apply_tombstone_memory, load_memory in Hd.
    destruct (db_memories db !! MemoryId.to_be id) as [row|] eqn:Erow; [|done]. cbn in Hd. case_match; [done|].
    injection Hd as <- _. destruct (tombstoned_flags mode at_ row) as [Ha Hh].
    assert (erased key (put_row (MemoryId.to_be id) (tombstoned_row mode at_ row) db)) as H1.
    { apply erased_row; [done|]. intros <-. destruct (er_row _ _ He row Erow) as [Hr _].
      rewrite Ha, Hh, Hr. by destruct mode. }
    unfold drop_fingerprint, drop_timeline. destruct mode, (row_fingerprint_key _); auto 8 with erased.
  - unfold apply_restore_memory, load_memory in Hd.
    destruct (db_memories db !! MemoryId.to_be id) as [row|] eqn:Erow; [|done]. cbn in Hd.
    case_match; [done|]. destruct (is_hard_forgotten row) eqn:Ehf; [done|]. case_match; injection Hd as <- _; [done|].
    assert (MemoryId.to_be id <> key) as Hne.
    { intros E. rewrite E in Erow. apply (er_row _ _ He) in Erow as [? _]. congruence. }
    set (row' := set_state row _ _ _). assert (erased key (put_row (MemoryId.to_be id) row' db)) as H1 by (by apply erased_row).
    unfold put_fingerprint, add_timeline. case_match; auto with erased.
  - unfold apply_update_salience, load_memory in Hd.
    destruct (db_memories db !! _) as [row|] eqn:Erow; [|done]. injection Hd as <- _.
    by apply (erased_load _ _ (fun r => set_salience r x)).
  - unfold apply_update_kind, load_memory in Hd.
    destruct (db_memories db !! _) as [row|] eqn:Erow; [|done]. injection Hd as <- _.
    by apply (erased_load _ _ (fun r => set_kind r (memory_kind_to_u8 x))).
  - unfold apply_update_session, load_memory in Hd.
    destruct (db_memories db !! _) as [row|] eqn:Erow; [|done]. injection Hd as <- _.
    unfold add_timeline, drop_timeline. apply erased_timeline, erased_timeline.
    by apply (erased_load _ _ (fun r => set_session r x)).
  - unfold apply_update_embedding, load_memory in Hd.
    destruct (db_memories db !! _) as [row|] eqn:Erow; [|done]. injection Hd as <- _.
    apply (erased_load _ _ (fun r => set_state r (Z.ldiff (mm_flags r) row_flags.STALE) (mm_forgot_at r)
      (mm_tombstoned_at r))); [done|done|apply fresh_flags..].
  - injection Hd as <- _. by apply erased_reclaim_rows.
Qed.

Lemma erased_alter key id f db :
  erased key db -> (forall r, is_hard_forgotten (f r) = is_hard_forgotten r /\ is_active (f r) = is_active r) ->
  erased key (alter_row id f db).
Proof.
  intros He Hf. unfold alter_row. destruct (db_memories db !! _) as [row|] eqn:E; [|done].
  by apply erased_load; [| |apply Hf..].
Qed.

Lemma erased_sink key db lsn ts pl :
  erased key db -> ~ writes_memory key (Replay lsn ts pl) -> erased key (memory_sink db lsn ts pl).
Proof.
  intros He Hw. destruct pl as [p|p|p|p|p|p|p|p|p|p|p|p|p|p|p|p|p|p|p|p]; cbn in *; try done.
  - assert (erased key (put_text (MemoryId.to_be (ep_memory_id p)) (ep_text p)
      (put_row (MemoryId.to_be (ep_memory_id p)) (recovered_encode_row lsn ts p) db))) as H1.
    { apply erased_other_text; [|done]. by apply erased_row. }
    unfold recover_encode, put_fingerprint. destruct (ep_deduplicate p), (db_models _ !! _); auto 6 with erased.
  - unfold recover_forget. destruct (db_memories db !! _) as [row|] eqn:Erow; [|done].
    set (mode := match fp_mode p with Soft => TombSoft | Hard => TombHard end).
    destruct (tombstoned_flags mode ts row) as [Ha Hh].
    assert (erased key (put_row (MemoryId.to_be (fp_memory_id p)) (tombstoned_row mode ts row) db)) as H1.
    { apply erased_row; [done|]. intros Hk. rewrite Hk in Erow. destruct (er_row _ _ He row Erow) as [Hr _].
      rewrite Ha, Hh, Hr. by destruct mode. }
    unfold drop_fingerprint, drop_timeline. destruct (fp_mode p), (row_fingerprint_key row); auto 8 with erased.
  - generalize dependent db. induction (us_updates p) as [|u us IH]; intros db He; cbn; [done|].
    apply IH, erased_alter; [done|]. by intros.
  - destruct He as [H1 H2 H3 H4]. split; cbn; [|by rewrite lookup_delete_None; right|done..].
    intros row [_ H]%lookup_delete_Some. by apply H1.
  - unfold recover_consolidate. apply erased_slots, erased_other_text; [|done]. by apply erased_row.
  - apply erased_alter; [done|]. by intros.
  - apply erased_alter; [done|]. by intros.
  - apply erased_alter; [done|]. by intros.
  - unfold recover_restore. destruct (db_memories db !! _) as [row|] eqn:Erow; [|done].
    destruct (is_hard_forgotten row) eqn:Ehf; [done|].
    assert (MemoryId.to_be (rp_memory_id p) <> key) as Hne.
    { intros E. rewrite E in Erow. apply (er_row _ _ He) in Erow as [? _]. congruence. }
    set (row' := set_state row _ _ _).
    assert (erased key (put_row (MemoryId.to_be (rp_memory_id p)) row' db)) as H1 by (by apply erased_row).
    unfold put_fingerprint, add_timeline. case_match; auto with erased.
Qed.

Lemma hard_forgotten_erased db id reason at_ w db' a :
  memory_dispatch db (TombstoneMemory id TombHard reason at_) w = Ok (db', a) -> erased (MemoryId.to_be id) db'.
Proof.
  cbn [memory_dispatch]. unfold apply_tombstone_memory, load_memory.
  destruct (db_memories db !! _) as [row|]; [|done]. case_match; [done|].
  destruct (tombstoned_flags TombHard at_ row) as [Ha Hh].
  destruct (row_fingerprint_key _); intros E; apply Ok_inj, pair_eq in E as [<- _];
    (split; cbn; [|by rewrite lookup_delete_eq..]); intros r; rewrite lookup_insert_eq; by intros [= <-].
Qed.

(** C8: A hard forget is final.  Once it has been applied, then whatever follows, by
    any caller: forgets, restores, updates and reclaims, accepted or refused,
    and the replay of any log records, in any order and mix, unless a memory
    is written under that id again: the row, if there is one, stays inactive
    and marked, the text, the vector and the artifacts stay gone, and a
    restore is refused. *)
Theorem hard_forget_final db id reason at_ w db' a (steps : list MemStep)
    (Hforget : memory_dispatch db (TombstoneMemory id TombHard reason at_) w = Ok (db', a))
    (Hsteps : Forall (fun st => ~ writes_memory (MemoryId.to_be id) st) steps) :
  let db'' := fold_left mem_step steps db' in
  erased (MemoryId.to_be id) db''
  /\ forall at' w', exists e, memory_dispatch db'' (PhaseRestoreMemory id at') w' = Err e.
Proof.
  cbv zeta. apply hard_forgotten_erased in Hforget.
  assert (erased (MemoryId.to_be id) (fold_left mem_step steps db')) as He.
  { clear -Hforget Hsteps. revert db' Hforget. induction Hsteps as [|st steps Hst _ IH]; intros db He; cbn; [done|].
    apply IH. destruct st as [p w|lsn ts pl]; cbn [mem_step]; [|by apply erased_sink].
    destruct (memory_dispatch db p w) as [[db' a]|] eqn:Ed; [|done]. by eapply erased_dispatch. }
  split; [done|]. intros at' w'. cbn. unfold apply_restore_memory, load_memory.
  destruct (db_memories _ !! _) as [row|] eqn:Erow; [|by eexists]. destruct (er_row _ _ He row Erow) as [Hh _].
  case_match; [by eexists|]. rewrite Hh. by eexists.
Qed.

(** ** The tenant wall *)

Definition gated (p : MemoryPhase) : option MemoryId :=
  match p with
  | TombstoneMemory id _ _ _ | PhaseRestoreMemory id _ => Some id
  | _ => None
  end.

(** What a caller may know of a memory. *)
Definition own_row (space : Uuid) (db : MemDb) (id : MemoryId) : option MemoryMetadata :=
  row ← db_memories db !! MemoryId.to_be id;
  if bool_decide (mm_space_id_bytes row = space) then Some row else None.

Lemma gated_dispatch db p w id :
  gated p = Some id ->
  match own_row (w_space w) db id with
  | None => memory_dispatch db p w = Err memory_not_found
  | Some row =>
    db_memories db !! MemoryId.to_be id = Some row /\
    match p with
    | TombstoneMemory _ mode _ at_ => exists db', memory_dispatch db p w = Ok (db', Tombstoned (TargetMemory id mode) at_)
        /\ db_memories db' = <[MemoryId.to_be id := tombstoned_row mode at_ row]> (db_memories db)
    | _ =>
      if is_hard_forgotten row then memory_dispatch db p w = Err irreversible
      else exists db', memory_dispatch db p w = Ok (db', MemoryRestored id (is_active row))
        /\ (forall k, k <> MemoryId.to_be id -> db_memories db' !! k = db_memories db !! k)
    end
  end.
Proof.
  unfold own_row. destruct p; cbn [gated]; intros [= <-]; cbn [memory_dispatch];
    unfold apply_tombstone_memory, apply_restore_memory, load_memory;
    destruct (db_memories db !! _) as [row|] eqn:Erow; cbn [mbind option_bind]; try done;
    case_bool_decide as Hs; [| | |]; try (by rewrite bool_decide_true by done);
    rewrite (bool_decide_false (mm_space_id_bytes row <> w_space w)) by (intros Hn; by apply Hn).
  - split; [done|]. eexists. split; [done|]. by destruct (row_fingerprint_key _), mode.
  - split; [done|]. destruct (is_hard_forgotten row); [done|]. destruct (is_active row).
    + eexists. by split; [done|].
    + eexists. split; [done|]. intros k Hk. destruct (row_fingerprint_key _); cbn; by rewrite lookup_insert_ne.
Qed.

Definition answer {A B E} (r : result (A * B) E) : result B E :=
  match r with Ok (_, b) => Ok b | Err e => Err e end.

(** C19: The tenant wall of FORGET and RESTORE.  Such a phase changes no row of
    another space; a memory of another space is answered exactly like one that
    does not exist; and nothing but the caller's own row shows in the answer:
    on any two databases that agree on it, the answers are equal. *)
Theorem memory_tenant_wall db db2 p w id
    (Hp : gated p = Some id) (Hsame : own_row (w_space w) db id = own_row (w_space w) db2 id) :
  answer (memory_dispatch db p w) = answer (memory_dispatch db2 p w)
  /\ (own_row (w_space w) db id = None -> memory_dispatch db p w = Err memory_not_found)
  /\ forall k row, db_memories db !! k = Some row -> mm_space_id_bytes row <> w_space w ->
       db_memories (mem_step db (Live p w)) !! k = Some row.
Proof.
  pose proof (gated_dispatch db p w id Hp) as H1. pose proof (gated_dispatch db2 p w id Hp) as H2.
  rewrite <- Hsame in H2. cbn [mem_step]. destruct (own_row (w_space w) db id) as [r|] eqn:Eown.
  2: { rewrite H1, H2. by split_and!. }
  destruct H1 as [Hrow H1], H2 as [_ H2].
  assert (forall k row, db_memories db !! k = Some row -> mm_space_id_bytes row <> w_space w ->
    k <> MemoryId.to_be id) as Hne.
  { intros k row Hk Hs ->. unfold own_row in Eown. rewrite Hk in Eown. cbn in Eown. by rewrite bool_decide_false in Eown. }
  destruct p; try done; cbn [gated] in Hp.
  - destruct H1 as (d1 & E1 & M1), H2 as (d2 & E2 & _). rewrite E1, E2. split_and!; [done|done|].
    intros k row Hk Hs. rewrite M1, lookup_insert_ne; [done|]. intros E. by apply (Hne k row).
  - destruct (is_hard_forgotten r); [rewrite H1, H2; by split_and!|].
    destruct H1 as (d1 & E1 & M1), H2 as (d2 & E2 & _). rewrite E1, E2. split_and!; [done|done|].
    intros k row Hk Hs. rewrite M1; [done|]. by eapply Hne.
Qed.

End spec.
