(* ===== verification/MemoryIndex.v ===== *)
(** The secondary tables of memories are exact: after any live phases the timeline
    has the active memories and no others, and the dedup index never leads to
    a memory that is not active. *)

From stdpp Require Import gmap sorting.
From S2P Require Import Prelude Crc32c Ids WalKinds WalRecord WalPayload WalPayloadCodec.
From S2P Require Import Access EdgeTable AckCodec Submit MemoryTable Registry MemoryApply MemorySpec.

Record row_ok (k : bytes) (row : MemoryMetadata) : Prop := {
  rw_id : mm_memory_id_bytes row = k;
  rw_length : length k = 16%nat;
  rw_space : uuid_ok (mm_space_id_bytes row);
  rw_created : u64 (mm_created_at row);
}.

Definition row_prefix (row : MemoryMetadata) : bytes :=
  to_be_bytes 4 (mm_namespace_id row) ++ mm_space_id_bytes row ++ to_be_bytes 8 (mm_created_at row)
  ++ to_be_bytes 8 (mm_session_id row).

Lemma row_key_split row : row_timeline_key row = row_prefix row ++ mm_memory_id_bytes row.
Proof. unfold row_timeline_key, space_timeline_key, row_prefix. by rewrite <- !app_assoc. Qed.

Lemma length_row_prefix k row : row_ok k row -> length (row_prefix row) = 36%nat.
Proof. intros [_ _ Hs _]. unfold row_prefix, uuid_ok in *. rewrite !length_app, !length_to_be. lia. Qed.

Lemma row_key_id k row k' row' :
  row_ok k row -> row_ok k' row' -> row_timeline_key row = row_timeline_key row' -> k = k'.
Proof.
  intros H H'. rewrite !row_key_split. intros [_ E]%app_inj_1; [|by rewrite (length_row_prefix k), (length_row_prefix k')].
  by rewrite <- (rw_id _ _ H), <- (rw_id _ _ H').
Qed.

Record index_exact (mems : gmap bytes MemoryMetadata) (tl : gset bytes) (fps : gmap bytes FingerprintEntry)
  : Prop := {
  ie_rows k row : mems !! k = Some row -> row_ok k row;
  ie_timeline t : t ∈ tl <-> exists k row, mems !! k = Some row /\ is_active row = true
    /\ t = row_timeline_key row;
  ie_fps f e : fps !! f = Some e -> exists row, mems !! fe_memory_id_bytes e = Some row
    /\ is_active row = true /\ row_fingerprint_key row = Some f;
}.

Section put.
Context (mems : gmap bytes MemoryMetadata) (tl : gset bytes) (fps : gmap bytes FingerprintEntry).
Hypothesis Hex : index_exact mems tl fps.

(** A row is written or overwritten; what the tables must then be. *)
Lemma index_exact_put k row' tl' fps' :
  row_ok k row' ->
  (forall t, t ∈ tl' <-> t ∈ tl /\ (forall row, mems !! k = Some row -> t <> row_timeline_key row)
     \/ is_active row' = true /\ t = row_timeline_key row') ->
  (forall f e, fps' !! f = Some e ->
     fps !! f = Some e /\ fe_memory_id_bytes e <> k
     \/ fe_memory_id_bytes e = k /\ is_active row' = true /\ row_fingerprint_key row' = Some f) ->
  index_exact (<[k := row']> mems) tl' fps'.
Proof.
  destruct Hex as [Hr Ht Hf]. intros Hok Htl Hfp. split.
  - intros k1 row1 [[<- <-]|[_ H]]%lookup_insert_Some; [done|by apply Hr].
  - intros t. rewrite Htl, Ht. split.
    + intros [[(k1 & row1 & Hk1 & Ha & ->) Hne]|[Ha ->]]; [|by exists k, row'; rewrite lookup_insert_eq].
      exists k1, row1. rewrite lookup_insert_ne; [done|]. intros <-. by apply (Hne row1).
    + intros (k1 & row1 & [[<- <-]|[Hne Hk1]]%lookup_insert_Some & Ha & ->); [by right|left].
      split; [by exists k1, row1|]. intros row Hk E. apply Hne.
      by apply (row_key_id k row k1 row1); [apply Hr|apply Hr|].
  - intros f e [[H Hne]|(He & Ha & Hk)]%Hfp.
    + apply Hf in H as (row & Hrow & Ha & Hk). exists row. by rewrite lookup_insert_ne.
    + exists row'. by rewrite He, lookup_insert_eq.
Qed.

Lemma timeline_active k row : mems !! k = Some row -> row_timeline_key row ∈ tl <-> is_active row = true.
Proof.
  intros Hk. rewrite (ie_timeline _ _ _ Hex). split; [|by intros; exists k, row].
  intros (k1 & row1 & Hk1 & Ha & E). rewrite (row_key_id k row k1 row1) in Hk; [congruence| | |done];
    by apply (ie_rows _ _ _ Hex).
Qed.

(** A change that neither index sees. *)
Lemma index_exact_same k row row' :
  mems !! k = Some row -> row_timeline_key row' = row_timeline_key row -> is_active row' = is_active row ->
  row_fingerprint_key row' = row_fingerprint_key row -> row_ok k row' ->
  index_exact (<[k := row']> mems) tl fps.
Proof.
  intros Hk Ekey Ea Ef Hok. apply index_exact_put; [done| |].
  - intros t. rewrite Ekey, Ea, Hk. pose proof (timeline_active k row Hk) as Hta.
    destruct (decide (t = row_timeline_key row)) as [->|Hne]; naive_solver.
  - intros f e He. destruct (decide (fe_memory_id_bytes e = k)) as [E|]; [right|by left].
    apply (ie_fps _ _ _ Hex) in He as (row1 & Hr1 & Ha & Hf). rewrite E in Hr1. assert (row1 = row) as -> by congruence.
    by rewrite Ea, Ef.
Qed.

Lemma index_exact_fps fps' : fps' ⊆ fps -> index_exact mems tl fps'.
Proof.
  intros Hs. destruct Hex as [H1 H2 H3]. split; [done|done|]. intros f e He. apply H3.
  by eapply lookup_weaken.
Qed.

(** The fingerprint of a row leads to it, or it is not in the index under that id. *)
Lemma fps_without k row f e :
  mems !! k = Some row ->
  (match row_fingerprint_key row with Some g => delete g fps | None => fps end) !! f = Some e ->
  fps !! f = Some e /\ fe_memory_id_bytes e <> k.
Proof.
  intros Hk He. assert (fps !! f = Some e /\ row_fingerprint_key row <> Some f) as [He' Hn].
  { destruct (row_fingerprint_key row) as [g|]; [|done]. apply lookup_delete_Some in He as [? ?]. split; congruence. }
  split; [done|]. intros E. apply (ie_fps _ _ _ Hex) in He' as (row1 & Hr1 & _ & Hf). rewrite E in Hr1. congruence.
Qed.
End put.

Section index.
Context {crates : Crates} {artifacts : Artifacts}.
Implicit Types (db : MemDb) (w : Write MemoryPhase) (p : MemoryPhase).

Record tables_exact db : Prop := {
  te_index : index_exact (db_memories db) (db_timeline db) (db_fingerprints db);
  te_texts k row : db_memories db !! k = Some row -> is_hard_forgotten row = false -> is_Some (db_texts db !! k);
}.

(** What the exactness of the tables needs: an encode writes a new id (the
    allocator sees to that), and a session change is of an active memory outside
    the dedup index.  Nothing in the code prevents other session changes:
    [session_change_drifts] is one. *)
Definition admissible db p w : Prop :=
  match p with
  | UpsertMemory u => db_memories db !! MemoryId.to_be (um_id u) = None /\ uuid_ok (w_space w) /\ u64 (um_created_at u)
  | PhaseUpdateSession id _ => forall row, db_memories db !! MemoryId.to_be id = Some row ->
    is_active row = true /\ mm_content_hash row = None
  | _ => True
  end.

Lemma upserted_row_facts u w :
  let row := upserted_row u w in
  row_timeline_key row = space_timeline_key (w_namespace w) (w_space w) (um_created_at u) (um_session_id u)
                           (MemoryId.to_be (um_id u))
  /\ is_active row = true /\ mm_namespace_id row = w_namespace w
  /\ row_fingerprint_key row = fingerprint_key (w_space w) (um_session_id u) <$> stamped_hash u
  /\ (uuid_ok (w_space w) -> u64 (um_created_at u) -> row_ok (MemoryId.to_be (um_id u)) row).
Proof.
  cbv zeta. unfold upserted_row. destruct (stamped_hash u) as [h|]; (split_and!; [done..|]); intros Hs Hc; split;
    cbn; try done; apply length_MemoryId_to_be.
Qed.

Lemma upsert_exact db u w db' a :
  tables_exact db -> admissible db (UpsertMemory u) w -> apply_upsert_memory db u w = Ok (db', a) -> tables_exact db'.
Proof.
  intros [Hi Ht] (Hnew & Hs & Hc) Hd. apply Ok_inj, pair_eq in Hd as [<- _].
  destruct (upserted_row_facts u w) as (Ekey & Ea & Ens & Ef & Hok). rewrite Ens. set (row := upserted_row u w) in *.
  split.
  - assert (forall fps', (forall f e, fps' !! f = Some e -> db_fingerprints db !! f = Some e
        \/ fe_memory_id_bytes e = MemoryId.to_be (um_id u) /\ row_fingerprint_key row = Some f) ->
      index_exact (<[MemoryId.to_be (um_id u) := row]> (db_memories db))
        ({[row_timeline_key row]} ∪ db_timeline db) fps') as Hput.
    { intros fps' Hf. eapply index_exact_put; [exact Hi|by apply Hok| |].
      - intros t. rewrite Hnew, elem_of_union, elem_of_singleton. naive_solver.
      - intros f e [He|[He Hk]]%Hf; [|by right]. left. split; [done|]. intros E.
        apply (ie_fps _ _ _ Hi) in He as (r & Hr & _). rewrite E in Hr. congruence. }
    rewrite <- Ekey in *. destruct (stamped_hash u) as [h|]; cbn in *; apply Hput; [|by left].
    intros f e [[<- <-]|[_ H]]%lookup_insert_Some; [by right|by left].
  - intros k r Hk Hh. destruct (stamped_hash u); cbn in *; apply lookup_insert_Some in Hk as [[<- _]|[Hne Hk]];
      rewrite ?lookup_insert_eq, ?lookup_insert_ne by done; eauto.
Qed.

Lemma load_ok db id row : load_memory db id = Ok row -> db_memories db !! MemoryId.to_be id = Some row.
Proof. unfold load_memory. case_match; [|done]. by intros [= <-]. Qed.

Lemma row_ok_update k row row' :
  row_ok k row -> mm_memory_id_bytes row' = mm_memory_id_bytes row -> mm_space_id_bytes row' = mm_space_id_bytes row ->
  mm_created_at row' = mm_created_at row -> row_ok k row'.
Proof. intros [H1 H2 H3 H4] E1 E2 E3. split; congruence. Qed.

(** Texts stay where they are and no row ceases to be hard-forgotten. *)
Lemma texts_put db k row row' tl fps :
  tables_exact db -> db_memories db !! k = Some row ->
  (is_hard_forgotten row' = false -> is_hard_forgotten row = false) ->
  index_exact (<[k := row']> (db_memories db)) tl fps ->
  forall db', db_memories db' = <[k := row']> (db_memories db) -> db_timeline db' = tl -> db_fingerprints db' = fps ->
    db_texts db' = db_texts db -> tables_exact db'.
Proof.
  intros [Hi Ht] Hk Hh Hex db' E1 E2 E3 E4. split; [by rewrite E1, E2, E3|]. rewrite E1, E4.
  intros k1 row1 [[<- <-]|[_ H]]%lookup_insert_Some Hf; [by eapply Ht; [|apply Hh]|by eapply Ht].
Qed.

Lemma same_exact db id row row' :
  tables_exact db -> load_memory db id = Ok row ->
  row_timeline_key row' = row_timeline_key row -> is_active row' = is_active row ->
  is_hard_forgotten row' = is_hard_forgotten row -> row_fingerprint_key row' = row_fingerprint_key row ->
  (row_ok (MemoryId.to_be id) row -> row_ok (MemoryId.to_be id) row') ->
  tables_exact (put_row (MemoryId.to_be id) row' db).
Proof.
  intros Hdb El%load_ok Hk Ha Hh Hf Hok. pose proof (te_index _ Hdb) as Hi.
  eapply texts_put; [exact Hdb|exact El|by rewrite Hh| |done..].
  eapply index_exact_same; [exact Hi|exact El|done..|]. apply Hok. by eapply ie_rows.
Qed.

Lemma tombstone_exact db id mode at_ w db' a :
  tables_exact db -> apply_tombstone_memory db id mode at_ w = Ok (db', a) -> tables_exact db'.
Proof.
  intros Hdb Hd. unfold apply_tombstone_memory in Hd. destruct (load_memory db id) as [row|] eqn:El; [|done].
  apply load_ok in El. case_match; [done|]. apply Ok_inj, pair_eq in Hd as [<- _].
  destruct (tombstoned_flags mode at_ row) as [Ha Hh]. pose proof (te_index _ Hdb) as Hi.
  rewrite tombstoned_key, tombstoned_fp. set (k := MemoryId.to_be id) in *. set (row' := tombstoned_row mode at_ row) in *.
  set (fps' := match row_fingerprint_key row with Some g => delete g (db_fingerprints db) | None => db_fingerprints db end).
  assert (index_exact (<[k := row']> (db_memories db)) (db_timeline db ∖ {[row_timeline_key row]}) fps') as Hex.
  { eapply index_exact_put; [exact Hi| | |].
    - eapply row_ok_update; [by eapply ie_rows|by destruct mode..].
    - intros t. rewrite El, Ha, elem_of_difference, elem_of_singleton. naive_solver.
    - intros f e He. left. by eapply fps_without. }
  destruct mode.
  - eapply texts_put; [exact Hdb|exact El| |exact Hex|..]; try by destruct (row_fingerprint_key row).
    by rewrite Hh.
  - split.
    + unfold fps' in Hex. by destruct (row_fingerprint_key row).
    + intros k1 row1 Hk1 Hf.
      assert (k1 <> k /\ db_memories db !! k1 = Some row1) as [Hne Hk].
      { assert (<[k := row']> (db_memories db) !! k1 = Some row1) as Hk2 by (by destruct (row_fingerprint_key row)).
        apply lookup_insert_Some in Hk2 as [[_ <-]|[? ?]]; [by rewrite Hh in Hf|split; congruence]. }
      destruct (row_fingerprint_key row); cbn; rewrite lookup_delete_ne by done; by eapply te_texts.
Qed.

Lemma restore_exact db id w db' a :
  tables_exact db -> apply_restore_memory db id w = Ok (db', a) -> tables_exact db'.
Proof.
  intros Hdb Hd. unfold apply_restore_memory in Hd. destruct (load_memory db id) as [row|] eqn:El; [|done].
  apply load_ok in El. do 2 (case_match; [done|]). destruct (is_active row) eqn:Eact.
  { by apply Ok_inj, pair_eq in Hd as [<- _]. }
  apply Ok_inj, pair_eq in Hd as [<- _]. pose proof (te_index _ Hdb) as Hi. set (k := MemoryId.to_be id) in *.
  destruct (restored_flags row (mm_forgot_at row) None) as [Ha Hh]. set (row' := set_state row _ _ _) in *.
  set (entry := {| fe_memory_id_bytes := k; fe_inserted_at := mm_created_at row' |}).
  set (fps' := match row_fingerprint_key row' with Some g => <[g := entry]> (db_fingerprints db) | None => db_fingerprints db end).
  assert (index_exact (<[k := row']> (db_memories db)) ({[row_timeline_key row']} ∪ db_timeline db) fps') as Hex.
  { eapply index_exact_put; [exact Hi| | |].
    - by eapply row_ok_update; [eapply ie_rows|..].
    - intros t. rewrite El, Ha, elem_of_union, elem_of_singleton.
      change (row_timeline_key row') with (row_timeline_key row). destruct (decide (t = row_timeline_key row)); naive_solver.
    - assert (forall f e, db_fingerprints db !! f = Some e -> fe_memory_id_bytes e <> k) as Hno.
      { intros f e He E. apply (ie_fps _ _ _ Hi) in He as (r & Hr & Hact & _). rewrite E in Hr. congruence. }
      intros f e. unfold fps'. destruct (row_fingerprint_key row') as [g|]; [|by eauto].
      intros [[<- <-]|[_ H1]]%lookup_insert_Some; [by right|eauto]. }
  eapply texts_put; [exact Hdb|exact El|by rewrite Hh|exact Hex|..]; unfold fps'; by destruct (row_fingerprint_key row').
Qed.

Lemma reclaim_rows_exact slots rows db :
  tables_exact db -> tables_exact (fold_left (reclaim_row slots) rows db).
Proof.
  revert db. induction rows as [|row rows IH]; intros db Hdb; cbn [fold_left]; [done|]. apply IH.
  unfold reclaim_row. case_match; [|done]. destruct Hdb as [Hi Ht].
  split; destruct (row_fingerprint_key row); cbn; try done. eapply index_exact_fps; [exact Hi|apply delete_subseteq].
Qed.

Lemma dispatch_exact db p w db' a :
  tables_exact db -> admissible db p w -> memory_dispatch db p w = Ok (db', a) -> tables_exact db'.
Proof.
  intros Hdb Hadm Hd. pose proof (te_index _ Hdb) as Hi.
  destruct p as [u|id mode reason at_|id at_|id x|id x|id x|id x|slots]; cbn [memory_dispatch] in Hd.
  - by eapply upsert_exact.
  - by eapply tombstone_exact.
  - by eapply restore_exact.
  - unfold apply_update_salience in Hd. destruct (load_memory db id) as [row|] eqn:El; [|done].
    apply Ok_inj, pair_eq in Hd as [<- _]. eapply same_exact; [done|exact El|done..|]. intros H. by apply (row_ok_update _ _ _ H).
  - unfold apply_update_kind in Hd. destruct (load_memory db id) as [row|] eqn:El; [|done].
    apply Ok_inj, pair_eq in Hd as [<- _]. eapply same_exact; [done|exact El|done..|]. intros H. by apply (row_ok_update _ _ _ H).
  - unfold apply_update_session in Hd. destruct (load_memory db id) as [row|] eqn:El; [|done]. apply load_ok in El.
    apply Ok_inj, pair_eq in Hd as [<- _]. destruct (Hadm row El) as [Ha Hn].
    pose proof (ie_rows _ _ _ Hi _ _ El) as Hok.
    eapply texts_put; [exact Hdb|exact El| | |done..]; [done|]. cbn.
    eapply index_exact_put; [exact Hi|by eapply row_ok_update| |].
    + intros t. rewrite El, elem_of_union, elem_of_difference, !elem_of_singleton, <- (rw_id _ _ Hok).
      change (is_active (set_session row x)) with (is_active row). unfold row_timeline_key.
      cbn [set_session rebuild mm_namespace_id mm_space_id_bytes mm_created_at mm_session_id mm_memory_id_bytes]. naive_solver.
    + intros f e He. left. split; [done|]. intros E. apply (ie_fps _ _ _ Hi) in He as (r & Hr & _ & Hf).
      rewrite E in Hr. assert (r = row) as -> by congruence. unfold row_fingerprint_key in Hf. by rewrite Hn in Hf.
  - unfold apply_update_embedding in Hd. destruct (load_memory db id) as [row|] eqn:El; [|done].
    apply Ok_inj, pair_eq in Hd as [<- _].
    destruct (fresh_flags row (mm_forgot_at row) (mm_tombstoned_at row)) as [Ha Hh].
    eapply same_exact; [done|exact El|done..|]. intros H. by apply (row_ok_update _ _ _ H).
  - apply Ok_inj, pair_eq in Hd as [<- _]. by apply reclaim_rows_exact.
Qed.

(** ** What a reader of the tables may count on *)

Definition empty_db : MemDb := MkMemDb ∅ ∅ ∅ ∅ ∅ ∅ ∅ ∅ ∅ empty_registry.

(** The databases a shard comes by from an empty one with admissible live phases; a
    refused phase leaves it. *)
Inductive live_db : MemDb -> Prop :=
| live_empty : live_db empty_db
| live_step db p w : live_db db -> admissible db p w -> live_db (mem_step db (Live p w)).

Lemma live_tables_exact db : live_db db -> tables_exact db.
Proof.
  induction 1 as [|db p w _ IH Hadm].
  - split; [split|]; cbn; try done. intros t. split; [set_solver|]. by intros (? & ? & ? & _).
  - cbn [mem_step]. destruct (memory_dispatch db p w) as [[db' a]|] eqn:E; [|done]. by eapply dispatch_exact.
Qed.

(** C18: The secondary tables of memories agree with the memories.  On a shard that
    has only run live phases since it was empty (encodes, forgets, restores,
    updates and reclaims, accepted or refused; no record was replayed), whose
    encodes were of new ids and whose session changes were of active memories
    outside the dedup index: the timeline has exactly the keys of
    the active memories; an entry of the dedup index leads to an active memory
    whose own fingerprint it is; and every memory that is not hard-forgotten
    still has its text.  ([recovered_encode_unlisted] and
    [session_change_drifts] break the two conditions.) *)
Theorem memory_index_exact db (Hlive : live_db db) :
  (forall t, t ∈ db_timeline db <->
     exists k row, db_memories db !! k = Some row /\ is_active row = true /\ t = row_timeline_key row)
  /\ (forall f e, db_fingerprints db !! f = Some e ->
        exists row, db_memories db !! fe_memory_id_bytes e = Some row /\ is_active row = true
          /\ row_fingerprint_key row = Some f)
  /\ (forall k row, db_memories db !! k = Some row -> is_hard_forgotten row = false ->
        is_Some (db_texts db !! k)).
Proof.
  by apply live_tables_exact in Hlive as [[_ Ht Hf] Htx].
Qed.

End index.
