(* ===== verification/MemoryReplay.v ===== *)
(** Replaying the log over memory tables that are already ahead of it: the
    metadata store commits every write by itself, so a restart replays records
    from the last checkpoint over rows that have seen them. *)

From stdpp Require Import gmap sorting.
From S2P Require Import Prelude Crc32c Ids WalKinds WalRecord WalPayload WalPayloadCodec.
From S2P Require Import Access EdgeTable AckCodec Submit MemoryTable Registry MemoryApply MemorySpec MemoryIndex.

(** What a reader sees of a memory. *)
Record MemoryView := {
  vw_namespace : Z;
  vw_space : bytes;
  vw_session : Z;
  vw_kind : Z;
  vw_salience : Z;
  vw_active : bool;
  vw_hard : bool;
}.

Definition row_view (row : MemoryMetadata) : MemoryView :=
  {| vw_namespace := mm_namespace_id row; vw_space := mm_space_id_bytes row; vw_session := mm_session_id row;
     vw_kind := mm_kind row; vw_salience := mm_salience row; vw_active := is_active row;
     vw_hard := is_hard_forgotten row |}.

Section replay.
Context {crates : Crates} {artifacts : Artifacts}.
Implicit Types (db d : MemDb) (w : Write MemoryPhase) (p : MemoryPhase) (k : bytes).

Definition reader_view db k : option MemoryView * option bytes := (row_view <$> db_memories db !! k, db_texts db !! k).

(** ** Fields *)

Inductive Field := FOwner | FSession | FKind | FSalience | FActive | FHard | FText.

Definition read_row (row : MemoryMetadata) (f : Field) : Z * bytes :=
  match f with
  | FOwner => (mm_namespace_id row, mm_space_id_bytes row)
  | FSession => (mm_session_id row, [])
  | FKind => (mm_kind row, [])
  | FSalience => (mm_salience row, [])
  | FActive => (Z.b2z (is_active row), [])
  | FHard => (Z.b2z (is_hard_forgotten row), [])
  | FText => (0, [])
  end.

Definition read db k (f : Field) : option (Z * bytes) :=
  match f with
  | FText => (fun t => (0, t)) <$> db_texts db !! k
  | _ => (fun row => read_row row f) <$> db_memories db !! k
  end.

Lemma read_view db d k : (forall f, read db k f = read d k f) -> reader_view db k = reader_view d k.
Proof.
  intros H. unfold reader_view. pose proof (H FOwner) as H1. pose proof (H FSession) as H2. pose proof (H FKind) as H3.
  pose proof (H FSalience) as H4. pose proof (H FActive) as H5. pose proof (H FHard) as H6. specialize (H FText).
  cbn in *. f_equal.
  - destruct (db_memories db !! k) as [r|], (db_memories d !! k) as [r'|]; cbn in *; try done.
    injection H1 as ? ?. injection H2 as ?. injection H3 as ?. injection H4 as ?. injection H5 as ?%Z.b2z_inj.
    injection H6 as ?%Z.b2z_inj. unfold row_view. congruence.
  - destruct (db_texts db !! k), (db_texts d !! k); cbn in *; congruence.
Qed.

(** The memory a phase is about, and what it assigns to a field of it. *)
Definition target p : option bytes :=
  match p with
  | UpsertMemory u => Some (MemoryId.to_be (um_id u))
  | TombstoneMemory id _ _ _ | PhaseRestoreMemory id _ | PhaseUpdateSalience id _ | PhaseUpdateKind id _
  | PhaseUpdateSession id _ | UpdateEmbedding id _ => Some (MemoryId.to_be id)
  | ReclaimSlots _ => None
  end.

Definition assigned p w (f : Field) : option (option (Z * bytes)) :=
  match p, f with
  | UpsertMemory u, FText => Some (Some (0, um_text u))
  | UpsertMemory u, f => Some (Some (read_row (upserted_row u w) f))
  | TombstoneMemory _ _ _ _, FActive => Some (Some (0, []))
  | TombstoneMemory _ TombHard _ _, FHard => Some (Some (1, []))
  | TombstoneMemory _ TombHard _ _, FText => Some None
  | PhaseRestoreMemory _ _, FActive => Some (Some (1, []))
  | PhaseUpdateSalience _ x, FSalience => Some (Some (x, []))
  | PhaseUpdateKind _ x, FKind => Some (Some (memory_kind_to_u8 x, []))
  | PhaseUpdateSession _ x, FSession => Some (Some (x, []))
  | _, _ => None
  end.

(** Replay passes over a missing row and does not restore a hard-forgotten one. *)
Definition enabled d p : bool :=
  match p with
  | UpsertMemory _ => true
  | PhaseRestoreMemory id _ => bool_decide (read d (MemoryId.to_be id) FHard = Some (0, []))
  | _ => match target p with Some k => bool_decide (is_Some (read d k FOwner)) | None => true end
  end.

(** The fields after the phase. *)
Definition updated p w db k (f : Field) : option (Z * bytes) :=
  if bool_decide (target p = Some k) then default (read db k f) (assigned p w f) else read db k f.

(** ** One phase, live and replayed *)

(** How a phase changes the rows and the texts. *)
Definition put_effect (key : bytes) (row : MemoryMetadata) (text : option (option bytes)) db db' : Prop :=
  db_memories db' = <[key := row]> (db_memories db)
  /\ db_texts db' = match text with
     | None => db_texts db
     | Some None => delete key (db_texts db)
     | Some (Some t) => <[key := t]> (db_texts db)
     end.

Lemma put_effect_read key row text db db' k f :
  put_effect key row text db db' ->
  read db' k f =
    if bool_decide (key = k) then
      match f, text with
      | FText, None => read db k f
      | FText, Some None => None
      | FText, Some (Some t) => Some (0, t)
      | _, _ => Some (read_row row f)
      end
    else read db k f.
Proof.
  intros [Em Et]. unfold read. rewrite Em, Et. case_bool_decide as E; [subst|].
  - destruct f; rewrite ?lookup_insert_eq; try done. destruct text as [[t|]|]; [by rewrite lookup_insert_eq| |done].
    by rewrite lookup_delete_eq.
  - destruct f; rewrite ?lookup_insert_ne by done; try done. destruct text as [[t|]|]; [|by rewrite lookup_delete_ne|done].
    by rewrite lookup_insert_ne.
Qed.

Lemma read_FOwner d k row : db_memories d !! k = Some row -> is_Some (read d k FOwner).
Proof. intros H. unfold read. rewrite H. by eexists. Qed.
Lemma read_FHard d k row : db_memories d !! k = Some row -> is_hard_forgotten row = false -> read d k FHard = Some (0, []).
Proof. intros H Hh. unfold read. rewrite H. cbn. by rewrite Hh. Qed.

(** A row is written whose fields are those of the old row but for the assigned ones. *)
Lemma put_effect_updated p w db db' key row' text :
  target p = Some key -> put_effect key row' text db db' ->
  (forall f, f <> FText -> default (read db key f) (assigned p w f) = Some (read_row row' f)) ->
  (match text with None => None | Some None => Some None | Some (Some t) => Some (Some (0, t)) end = assigned p w FText) ->
  forall k f, read db' k f = updated p w db k f.
Proof.
  intros Ht He Hf Htx k f. rewrite (put_effect_read _ _ _ _ _ _ _ He). unfold updated. rewrite Ht.
  destruct (decide (key = k)) as [<-|Hne].
  - rewrite !bool_decide_true by done. destruct f; try (symmetry; by apply Hf). rewrite <- Htx. by destruct text as [[]|].
  - rewrite !bool_decide_false by congruence. done.
Qed.

Lemma put_effect_id db key row : db_memories db !! key = Some row -> put_effect key row None db db.
Proof. intros H. split; [|done]. by rewrite insert_id. Qed.

Lemma read_here db key row f : db_memories db !! key = Some row -> f <> FText -> read db key f = Some (read_row row f).
Proof. intros H Hf. unfold read. rewrite H. by destruct f. Qed.

(** The fields of the rows the phases write. *)
Lemma tombstoned_fields mode reason at_ id db row w f :
  db_memories db !! MemoryId.to_be id = Some row -> f <> FText ->
  default (read db (MemoryId.to_be id) f) (assigned (TombstoneMemory id mode reason at_) w f)
  = Some (read_row (tombstoned_row mode at_ row) f).
Proof.
  intros Hr Hf. rewrite (read_here _ _ row) by done. destruct (tombstoned_flags mode at_ row) as [Ha Hh].
  destruct f, mode; try done; cbn -[is_active is_hard_forgotten tombstoned_row]; by rewrite ?Ha, ?Hh.
Qed.

Lemma restored_fields id at_ db row w g t f :
  db_memories db !! MemoryId.to_be id = Some row -> f <> FText ->
  default (read db (MemoryId.to_be id) f) (assigned (PhaseRestoreMemory id at_) w f)
  = Some (read_row (set_state row (Z.lor (mm_flags row) row_flags.ACTIVE) g t) f).
Proof.
  intros Hr Hf. rewrite (read_here _ _ row) by done. destruct (restored_flags row g t) as [Ha Hh].
  destruct f; try done; cbn -[is_active is_hard_forgotten set_state]; by rewrite ?Ha, ?Hh.
Qed.

Lemma reclaim_rows_read slots rows db k f : read (fold_left (reclaim_row slots) rows db) k f = read db k f.
Proof.
  revert db. induction rows as [|row rows IH]; intros db; cbn [fold_left]; [done|]. rewrite IH. unfold reclaim_row.
  case_match; [|done]. by destruct (row_fingerprint_key row), f.
Qed.

Lemma live_updated db p w db' a :
  memory_dispatch db p w = Ok (db', a) -> enabled db p = true /\ forall k f, read db' k f = updated p w db k f.
Proof.
  intros Hd. destruct p as [u|id mode reason at_|id at_|id x|id x|id x|id x|slots]; cbn [memory_dispatch] in Hd.
  - split; [done|]. apply Ok_inj, pair_eq in Hd as [<- _].
    eapply put_effect_updated with (text := Some (Some (um_text u))) (row' := upserted_row u w); [done| |by intros []|done].
    by split; destruct (stamped_hash u).
  - unfold apply_tombstone_memory in Hd. destruct (load_memory db id) as [row|] eqn:El; [|done]. apply load_ok in El.
    case_match; [done|]. apply Ok_inj, pair_eq in Hd as [<- _].
    split; [by apply bool_decide_eq_true, (read_FOwner _ _ row)|].
    eapply put_effect_updated with (text := match mode with TombSoft => None | TombHard => Some None end);
      [done| |by intros; eapply tombstoned_fields|by destruct mode].
    by split; destruct (row_fingerprint_key _), mode.
  - unfold apply_restore_memory in Hd. destruct (load_memory db id) as [row|] eqn:El; [|done]. apply load_ok in El.
    case_match; [done|]. destruct (is_hard_forgotten row) eqn:Eh; [done|].
    split; [by apply bool_decide_eq_true, (read_FHard _ _ row)|]. destruct (is_active row) eqn:Ea.
    + apply Ok_inj, pair_eq in Hd as [<- _].
      eapply put_effect_updated; [done|by apply put_effect_id| |done]. intros f Hf.
      rewrite (read_here _ _ row) by done. destruct f; try done. cbn. by rewrite Ea.
    + apply Ok_inj, pair_eq in Hd as [<- _].
      eapply put_effect_updated with (text := None); [done| |by intros; eapply restored_fields|done].
      by split; destruct (row_fingerprint_key _).
  - unfold apply_update_salience in Hd. destruct (load_memory db id) as [row|] eqn:El; [|done]. apply load_ok in El.
    apply Ok_inj, pair_eq in Hd as [<- _]. split; [by apply bool_decide_eq_true, (read_FOwner _ _ row)|].
    eapply put_effect_updated with (text := None); [done|by split| |done].
    intros f Hf. rewrite (read_here _ _ row) by done. by destruct f.
  - unfold apply_update_kind in Hd. destruct (load_memory db id) as [row|] eqn:El; [|done]. apply load_ok in El.
    apply Ok_inj, pair_eq in Hd as [<- _]. split; [by apply bool_decide_eq_true, (read_FOwner _ _ row)|].
    eapply put_effect_updated with (text := None); [done|by split| |done].
    intros f Hf. rewrite (read_here _ _ row) by done. by destruct f.
  - unfold apply_update_session in Hd. destruct (load_memory db id) as [row|] eqn:El; [|done]. apply load_ok in El.
    apply Ok_inj, pair_eq in Hd as [<- _]. split; [by apply bool_decide_eq_true, (read_FOwner _ _ row)|].
    eapply put_effect_updated with (text := None); [done|by split| |done].
    intros f Hf. rewrite (read_here _ _ row) by done. by destruct f.
  - unfold apply_update_embedding in Hd. destruct (load_memory db id) as [row|] eqn:El; [|done]. apply load_ok in El.
    apply Ok_inj, pair_eq in Hd as [<- _]. split; [by apply bool_decide_eq_true, (read_FOwner _ _ row)|].
    eapply put_effect_updated with (text := None); [done|by split| |done].
    intros f Hf. rewrite (read_here _ _ row) by done.
    destruct (fresh_flags row (mm_forgot_at row) (mm_tombstoned_at row)) as [Ha Hh].
    destruct f; try done; cbn -[is_active is_hard_forgotten set_state]; by rewrite ?Ha, ?Hh.
  - apply Ok_inj, pair_eq in Hd as [<- _]. split; [done|]. intros k f. apply reclaim_rows_read.
Qed.

Lemma recover_encode_effect d lsn ts e :
  put_effect (MemoryId.to_be (ep_memory_id e)) (recovered_encode_row lsn ts e) (Some (Some (ep_text e))) d
    (recover_encode d lsn ts e).
Proof. unfold recover_encode. destruct (ep_deduplicate e), (db_models _ !! _); by split. Qed.

Lemma alter_updated d p w id g :
  target p = Some (MemoryId.to_be id) -> assigned p w FText = None ->
  (forall row f, db_memories d !! MemoryId.to_be id = Some row -> f <> FText ->
     default (read d (MemoryId.to_be id) f) (assigned p w f) = Some (read_row (g row) f)) ->
  forall k f, read (alter_row id g d) k f =
    if bool_decide (is_Some (read d (MemoryId.to_be id) FOwner)) then updated p w d k f else read d k f.
Proof.
  intros Ht Ha Hg. unfold alter_row. destruct (db_memories d !! MemoryId.to_be id) as [row|] eqn:El.
  - rewrite bool_decide_true by by apply (read_FOwner _ _ row).
    eapply put_effect_updated with (text := None); [done|by split|by intros; apply Hg|done].
  - intros k f. rewrite bool_decide_false; [done|]. cbn. rewrite El. by intros [].
Qed.

(** The replay of the record of a phase does to these fields what the phase does. *)
Lemma sink_updated d p w pl lsn ts :
  memory_wal_payload p w = Some pl ->
  forall k f, read (memory_sink d lsn ts pl) k f = if enabled d p then updated p w d k f else read d k f.
Proof.
  intros Hpl. destruct p as [u|id mode reason at_|id at_|id x|id x|id x|id x|slots]; cbn in Hpl; try done;
    injection Hpl as <-; cbn [memory_sink enabled target upsert_wal_payload tombstone_wal_payload us_updates fold_left].
  - match goal with |- context [recover_encode d lsn ts ?e] => pose proof (recover_encode_effect d lsn ts e) as He end.
    cbn [ep_memory_id ep_text] in He. apply (put_effect_updated (UpsertMemory u) w _ _ _ _ _ eq_refl He); [|done].
    intros f Hf.
    destruct f; [..|by destruct Hf]; cbn [assigned default id read_row]; unfold upserted_row, recovered_encode_row;
      destruct (stamped_hash u), (ep_deduplicate _); reflexivity.
  - unfold recover_forget. cbn [tombstone_wal_payload fp_memory_id fp_mode].
    destruct (db_memories d !! MemoryId.to_be id) as [row|] eqn:El.
    + rewrite bool_decide_true by by apply (read_FOwner _ _ row).
      eapply put_effect_updated with (p := TombstoneMemory id mode reason ts) (w := w) (text := match mode with TombSoft => None | TombHard => Some None end);
        [done| |by intros; eapply tombstoned_fields with (reason := reason) (at_ := ts)|by destruct mode].
      by destruct mode; split; destruct (row_fingerprint_key _).
    + unfold read. rewrite El. rewrite bool_decide_false by (by intros []). done.
  - unfold recover_restore. cbn [rp_memory_id]. destruct (db_memories d !! MemoryId.to_be id) as [row|] eqn:El.
    + destruct (is_hard_forgotten row) eqn:Eh.
      * rewrite bool_decide_false; [done|]. cbn. rewrite El. cbn. by rewrite Eh.
      * rewrite bool_decide_true by by apply (read_FHard _ _ row).
        eapply put_effect_updated with (p := PhaseRestoreMemory id at_) (w := w) (text := None); [done| |by intros; eapply restored_fields|done].
        by split; destruct (row_fingerprint_key _).
    + cbn. rewrite El. by rewrite bool_decide_false.
  - apply alter_updated with (p := PhaseUpdateSalience id x) (w := w); [done..|]; intros row f Hr Hf;
      rewrite (read_here _ _ row) by done; by destruct f.
  - apply alter_updated with (p := PhaseUpdateKind id x) (w := w); [done..|]; intros row f Hr Hf;
      rewrite (read_here _ _ row) by done; by destruct f.
  - apply alter_updated with (p := PhaseUpdateSession id x) (w := w); [done..|]; intros row f Hr Hf;
      rewrite (read_here _ _ row) by done; by destruct f.
Qed.

(** ** Runs *)

(** A phase whose record is in the log, and whether it was applied: the writer
    appends the records of a write before it applies its phases, so a phase that
    is then refused, or whose transaction does not commit, is logged as well. *)
Record Logged := { lg_applied : bool; lg_phase : MemoryPhase; lg_write : Write MemoryPhase }.

Inductive logged_run : MemDb -> list Logged -> MemDb -> list WalPayload -> Prop :=
| run_nil db : logged_run db [] db []
| run_applied db p w db1 a es db' pls :
    memory_dispatch db p w = Ok (db1, a) -> logged_run db1 es db' pls ->
    logged_run db ({| lg_applied := true; lg_phase := p; lg_write := w |} :: es) db'
      (option_list (memory_wal_payload p w) ++ pls)
| run_dropped db p w es db' pls :
    logged_run db es db' pls ->
    logged_run db ({| lg_applied := false; lg_phase := p; lg_write := w |} :: es) db'
      (option_list (memory_wal_payload p w) ++ pls).

Definition replay d (records : list (Z * Z * WalPayload)) : MemDb :=
  fold_left (fun d r => memory_sink d r.1.1 r.1.2 r.2) records d.

(** The entry is not a phase on the memory [k] that was logged only. *)
Definition spares k (e : Logged) : Prop := lg_applied e = false -> target (lg_phase e) <> Some k.

(** The phase does not assign the field. *)
Definition untouched k (f : Field) (e : Logged) : Prop :=
  target (lg_phase e) = Some k -> assigned (lg_phase e) (lg_write e) f = None.
#[local] Instance untouched_dec k f e : Decision (untouched k f e).
Proof. unfold untouched. apply _. Defined.

Lemma updated_untouched b p w db k f :
  untouched k f {| lg_applied := b; lg_phase := p; lg_write := w |} -> updated p w db k f = read db k f.
Proof. intros H. unfold updated. case_bool_decide as E; [|done]. unfold untouched in H. cbn in H. by rewrite H. Qed.

Lemma run_untouched db es db' pls k f :
  logged_run db es db' pls -> Forall (untouched k f) es -> read db' k f = read db k f.
Proof.
  induction 1 as [|db p w db1 a es db' pls Hd _ IH|db p w es db' pls _ IH]; [done|..]; intros [H1 H2]%Forall_cons;
    [|by apply IH].
  apply live_updated in Hd as [_ Hu]. rewrite IH, Hu by done. by eapply updated_untouched.
Qed.

(** Whoever leaves a field leaves the owner, and whoever leaves the state leaves the mark. *)
Lemma untouched_owner k f e : untouched k f e -> untouched k FOwner e.
Proof. destruct e as [b [|? []| | | | | |] w]; unfold untouched; cbn; try done; intros H E; specialize (H E); by destruct f. Qed.
Lemma untouched_hard k e : untouched k FActive e -> untouched k FHard e.
Proof. destruct e as [b [|? []| | | | | |] w]; unfold untouched; cbn; try done; intros H E; by specialize (H E). Qed.

(** The replay has caught up with [sn] at [k] wherever no later record writes. *)
Definition ahead k d sn (es : list Logged) : Prop :=
  forall f, Forall (untouched k f) es -> read d k f = read sn k f.

Lemma ahead_enabled d s p w s1 a sn es pls k f :
  ahead k d sn ({| lg_applied := true; lg_phase := p; lg_write := w |} :: es) ->
  memory_dispatch s p w = Ok (s1, a) -> logged_run s1 es sn pls ->
  target p = Some k -> assigned p w f <> None -> Forall (untouched k f) es -> enabled d p = true.
Proof.
  intros Had Hd Hrun Ht Ha Hun. pose proof (run_applied _ _ _ _ _ _ _ _ Hd Hrun) as Hall.
  apply live_updated in Hd as [Hen _].
  assert (forall g, Forall (untouched k g) ({| lg_applied := true; lg_phase := p; lg_write := w |} :: es) ->
    read d k g = read s k g) as Hsame.
  { intros g Hg. rewrite (Had g Hg). by eapply run_untouched. }
  assert (Forall (untouched k FOwner) es) as Hown by (eapply Forall_impl; [exact Hun|intros; by eapply untouched_owner]).
  destruct p as [u|id mode reason at_|id at_|id x|id x|id x|id x|slots]; cbn [target enabled] in *;
    try done; injection Ht as Ek; rewrite ?Ek in *;
    try (rewrite Hsame by (constructor; [intros _; cbn; by repeat case_match|done]); exact Hen).
  destruct f; try done. rewrite Hsame; [done|]. constructor; [by intros ?|].
  eapply Forall_impl; [exact Hun|]. intros; by apply untouched_hard.
Qed.

(** The record of an applied phase brings the replay on. *)
Lemma ahead_step d s p w s1 a sn es pls lsn ts pl k :
  ahead k d sn ({| lg_applied := true; lg_phase := p; lg_write := w |} :: es) ->
  memory_dispatch s p w = Ok (s1, a) -> logged_run s1 es sn pls ->
  memory_wal_payload p w = Some pl -> ahead k (memory_sink d lsn ts pl) sn es.
Proof.
  intros Had Hd Hrun Hpl f Hun. rewrite (sink_updated d p w pl lsn ts Hpl).
  destruct (decide (untouched k f {| lg_applied := true; lg_phase := p; lg_write := w |})) as [Hu|Hu].
  - rewrite (updated_untouched true) by done. assert (read d k f = read sn k f) as E by (apply Had; by constructor).
    by destruct (enabled d p).
  - assert (target p = Some k /\ assigned p w f <> None) as [Ht Ha].
    { unfold untouched in Hu. cbn in Hu. destruct (decide (target p = Some k)), (assigned p w f); naive_solver. }
    rewrite (ahead_enabled d s p w s1 a sn es pls k f) by done.
    rewrite (run_untouched s1 es sn pls k f) by done. apply live_updated in Hd as [_ ->]. unfold updated.
    rewrite Ht, bool_decide_true by done. by destruct (assigned p w f).
Qed.

(** The record of a phase on another memory leaves it where it is. *)
Lemma ahead_other b d p w sn es lsn ts pl k :
  ahead k d sn ({| lg_applied := b; lg_phase := p; lg_write := w |} :: es) -> target p <> Some k ->
  memory_wal_payload p w = Some pl -> ahead k (memory_sink d lsn ts pl) sn es.
Proof.
  intros Had Ht Hpl f Hun.
  assert (untouched k f {| lg_applied := b; lg_phase := p; lg_write := w |}) as Hu
    by (intros E; by destruct (Ht E)).
  rewrite (sink_updated d p w pl lsn ts Hpl), (updated_untouched b) by done.
  assert (read d k f = read sn k f) as E by (apply Had; by constructor). by destruct (enabled d p).
Qed.

Lemma ahead_skip b d p w sn es k :
  ahead k d sn ({| lg_applied := b; lg_phase := p; lg_write := w |} :: es) ->
  memory_wal_payload p w = None -> ahead k d sn es.
Proof. intros Had Hpl f Hun. apply Had. constructor; [|done]. intros _. by destruct p. Qed.

Lemma replay_ahead s es sn pls d records k :
  logged_run s es sn pls -> map snd records = pls -> Forall (spares k) es -> ahead k d sn es ->
  forall f, read (replay d records) k f = read sn k f.
Proof.
  intros Hrun. revert d records.
  induction Hrun as [db|db p w db1 a es db' pls Hd Hrun IH|db p w es db' pls Hrun IH];
    intros d records Hrec Hsp Had.
  1: { apply map_eq_nil in Hrec as ->. intros f. apply Had. constructor. }
  all: apply Forall_cons in Hsp as [Hsp Hsps];
    destruct (memory_wal_payload p w) as [pl|] eqn:Hpl; cbn [option_list app] in Hrec;
    [|by apply IH; [..|eapply ahead_skip]].
  all: destruct records as [|[[lsn ts] pl'] records]; [done|]; injection Hrec as -> Hrec;
    apply (IH (memory_sink d lsn ts pl)); [done..|].
  - by eapply ahead_step.
  - eapply ahead_other; [done|by apply Hsp|done].
Qed.

Lemma logged_run_app s es1 mid pls1 es2 sn pls2 :
  logged_run s es1 mid pls1 -> logged_run mid es2 sn pls2 -> logged_run s (es1 ++ es2) sn (pls1 ++ pls2).
Proof. induction 1; intros H2; [done|..]; cbn; rewrite <- app_assoc; econstructor; eauto. Qed.

(** C9: Replay converges.  Let a shard log phases on its memories and apply those
    it accepts, in the order of their records, from the state at a checkpoint
    through the one the crash leaves in the store to the last one whose records
    are in the log.  Replaying all records since the checkpoint over the state
    in the store, wherever in the run that is, brings back what the applied
    phases had made of every memory that no logged and refused phase names: its
    owner, session, kind and salience, whether it is active or hard-forgotten,
    and its text.  (Of a phase that was logged and then refused the replay does
    not know: [foreign_forget_replayed].) *)
Theorem memory_replay_converges s es1 stored pls1 es2 sn pls2 records k
    (Hbefore : logged_run s es1 stored pls1) (Hafter : logged_run stored es2 sn pls2)
    (Hspared : Forall (spares k) (es1 ++ es2)) (Hrecords : map snd records = pls1 ++ pls2) :
  reader_view (replay stored records) k = reader_view sn k.
Proof.
  apply read_view. intros f.
  eapply replay_ahead; [exact (logged_run_app _ _ _ _ _ _ _ Hbefore Hafter)|exact Hrecords|exact Hspared|].
  intros f' [H1 H2]%Forall_app. by rewrite (run_untouched stored es2 sn pls2).
Qed.

End replay.
