(* ===== verification/MemoryList.v ===== *)
(** The MEMORY_LIST handler ([brain-ops]: [handlers/memory_list.rs]; the bodies:
    [brain-protocol], [ops/memory.rs]): validation, the resume cursor and one
    page of the caller's memories.

    A page is read in one redb transaction; failures of redb are not modelled.
    The wire form of the memory kind has the discriminants of [MemoryKind]. *)

From stdpp Require Import gmap sorting.
From S2P Require Import Prelude Crc32c Ids Utf8 WalPayload WalPayloadCodec Request Access EdgeTable.
From S2P Require Import Submit MemoryTable Registry MemoryApply MemorySpec MemoryIndex.

(** ** Bodies *)

Inductive MemoryListSortWire := SortCreated | SortSalience | SortOccurred | SortLastAccessed.
Inductive MemoryListDirWire := Asc | Desc.
Inductive MemoryListTimeAxisWire := AxisCreated | AxisOccurred.

Definition sort_u8 (s : MemoryListSortWire) : Z :=
  match s with SortCreated => 0 | SortSalience => 1 | SortOccurred => 2 | SortLastAccessed => 3 end.
Definition dir_u8 (d : MemoryListDirWire) : Z := match d with Asc => 0 | Desc => 1 end.
Definition axis_u8 (a : MemoryListTimeAxisWire) : Z := match a with AxisCreated => 0 | AxisOccurred => 1 end.

Record MemoryListRequest := {
  ml_sort : MemoryListSortWire;
  ml_dir : MemoryListDirWire;
  ml_limit : Z;
  ml_cursor : bytes;
  ml_kinds : list MemoryKind;
  ml_include_tombstoned : bool;
  ml_time_axis : MemoryListTimeAxisWire;
  ml_from_unix_nanos : Z;
  ml_to_unix_nanos : Z;
  ml_salience_min : Z;
  ml_salience_max : Z;
  ml_text_contains : bytes;
  ml_act_as : option ActAs;
}.

Definition with_cursor (r : MemoryListRequest) (cursor : bytes) : MemoryListRequest :=
  {| ml_sort := ml_sort r; ml_dir := ml_dir r; ml_limit := ml_limit r; ml_cursor := cursor;
     ml_kinds := ml_kinds r; ml_include_tombstoned := ml_include_tombstoned r;
     ml_time_axis := ml_time_axis r; ml_from_unix_nanos := ml_from_unix_nanos r;
     ml_to_unix_nanos := ml_to_unix_nanos r; ml_salience_min := ml_salience_min r;
     ml_salience_max := ml_salience_max r; ml_text_contains := ml_text_contains r;
     ml_act_as := ml_act_as r |}.

Record MemoryListItem := {
  li_memory_id : Z;
  li_space_id : bytes;
  li_session_id : Z;
  li_text : bytes;
  li_kind : Z;
  li_state : Z;
  li_created_at : Z;
  li_occurred_at : Z;
  li_last_accessed_at : Z;
  li_salience : Z;
  li_access_count : Z;
  li_source_request_id : bytes;
  li_statement_count : Z;
  li_entity_count : Z;
  li_relation_count : Z;
}.

Record MemoryListResponseFrame := {
  lr_items : list MemoryListItem;
  lr_next_cursor : bytes;
  lr_cumulative_count : Z;
  lr_is_final : bool;
}.

(** ** The handler *)

Definition CURSOR_VERSION : Z := 1.
Definition CURSOR_LEN : nat := 1 + 1 + 1 + 8 + SPACE_TIMELINE_KEY_LEN.
Definition MAX_LIMIT : Z := 100.

(** The reverse indexes the counts are taken from. *)
Record GraphTables := {
  STATEMENTS_BY_EVIDENCE : gset (Z * bytes * bytes * bytes);
  RELATION_BY_EVIDENCE : gset (Z * bytes * bytes * bytes);
  gt_edges : EdgeTables;
}.

Section handler.
Context {crates : Crates} {artifacts : Artifacts}.
Implicit Types (req : MemoryListRequest) (sig key : bytes).

Definition build_filter req : MemoryTimelineFilter :=
  {| tf_kinds := map memory_kind_to_u8 (ml_kinds req);
     tf_include_tombstoned := ml_include_tombstoned req;
     tf_created_from := if ml_from_unix_nanos req =? 0 then None else Some (ml_from_unix_nanos req);
     tf_created_to := if ml_to_unix_nanos req =? 0 then None else Some (ml_to_unix_nanos req);
     tf_salience_min := ml_salience_min req;
     tf_salience_max := ml_salience_max req |}.

Definition filter_signature req : bytes :=
  take 8 (blake3
    (map byte_of [sort_u8 (ml_sort req); dir_u8 (ml_dir req); axis_u8 (ml_time_axis req)]
     ++ [byte_of (if ml_include_tombstoned req then 1 else 0)]
     ++ map (fun k => byte_of (memory_kind_to_u8 k)) (ml_kinds req)
     ++ to_le_bytes 4 (wrap 32 (Z.of_nat (length (ml_kinds req))))
     ++ to_le_bytes 8 (ml_from_unix_nanos req) ++ to_le_bytes 8 (ml_to_unix_nanos req)
     ++ to_le_bytes 4 (ml_salience_min req) ++ to_le_bytes 4 (ml_salience_max req)
     ++ ml_text_contains req)).

Definition encode_cursor req sig key : bytes :=
  [byte_of CURSOR_VERSION; byte_of (sort_u8 (ml_sort req)); byte_of (dir_u8 (ml_dir req))] ++ sig ++ key.

Definition stale_cursor : OpError.OpError := OpError.InvalidRequest "stale_cursor: filters changed".

Definition decode_cursor (cursor : bytes) req sig : result bytes OpError.OpError :=
  if negb (length cursor =? CURSOR_LEN)%nat || negb (bool_decide (byte_at 0 cursor = byte_of CURSOR_VERSION))
  then Err stale_cursor else
  if negb (bool_decide (byte_at 1 cursor = byte_of (sort_u8 (ml_sort req))))
     || negb (bool_decide (byte_at 2 cursor = byte_of (dir_u8 (ml_dir req)))) then Err stale_cursor else
  if negb (bool_decide (slice 3 11 cursor = sig)) then Err stale_cursor else
  Ok (drop 11 cursor).

(** The key to resume behind; an empty cursor asks for the first page. *)
Definition resume_key req sig : result (option bytes) OpError.OpError :=
  if bool_decide (ml_cursor req = []) then Ok None else
  let? k := decode_cursor (ml_cursor req) req sig in Ok (Some k).

Definition validate req : result unit OpError.OpError :=
  if (ml_limit req =? 0) || (MAX_LIMIT <? ml_limit req) then
    Err (OpError.InvalidRequest "limit must be in 1..=100") else
  if match ml_sort req with SortCreated => false | _ => true end then
    Err (OpError.InvalidRequest "sort not yet supported; use created") else
  if match ml_time_axis req with AxisOccurred => true | AxisCreated => false end then
    Err (OpError.InvalidRequest "occurred_at time axis not yet supported; use created") else
  if negb (bool_decide (ml_text_contains req = [])) then
    Err (OpError.InvalidRequest "text filter not yet supported") else
  if f32_lt (ml_salience_max req) (ml_salience_min req) then
    Err (OpError.InvalidRequest "salience_min must be <= salience_max") else
  if negb (ml_from_unix_nanos req =? 0) && negb (ml_to_unix_nanos req =? 0)
     && (ml_to_unix_nanos req <? ml_from_unix_nanos req) then
    Err (OpError.InvalidRequest "from_unix_nanos must be <= to_unix_nanos") else
  Ok tt.

(** The range between the least and the greatest last component. *)
Definition evidence_count (t : gset (Z * bytes * bytes * bytes)) (scope : RowScope) (id : bytes) : Z :=
  Z.of_nat (length (filter (fun k : Z * bytes * bytes * bytes =>
    k.1 = (sc_namespace_id scope, sc_space_id_bytes scope, id)) (elements t))).

Definition graph_counts (g : GraphTables) (scope : RowScope) (id : bytes) : Z * Z * Z :=
  (Z.min (evidence_count (STATEMENTS_BY_EVIDENCE g) scope id) U32_MAX,
   Z.min (match walk_outgoing (gt_edges g) (NodeMemory (MemoryId.from_be id)) (Some Mentions) with
          | Ok rows => Z.of_nat (length rows)
          | Err _ => 0
          end) U32_MAX,
   Z.min (evidence_count (RELATION_BY_EVIDENCE g) scope id) U32_MAX).

Definition row_to_item (row : MemoryMetadata) (text : bytes) (counts : Z * Z * Z) : MemoryListItem :=
  {| li_memory_id := from_be_bytes (mm_memory_id_bytes row); li_space_id := mm_space_id_bytes row;
     li_session_id := mm_session_id row; li_text := text; li_kind := mm_kind row;
     li_state := if is_active row then 0 else 1; li_created_at := mm_created_at row;
     li_occurred_at := default 0 (mm_occurred_at row);
     li_last_accessed_at := mm_last_accessed_at row; li_salience := mm_salience row;
     li_access_count := mm_access_count row; li_source_request_id := replicate 16 Byte.x00;
     li_statement_count := counts.1.1; li_entity_count := counts.1.2; li_relation_count := counts.2 |}.

(** The text of a row, empty when it is missing or not UTF-8. *)
Definition text_of (db : MemDb) (id : bytes) : bytes :=
  match db_texts db !! id with
  | Some text => if utf8_valid text then text else []
  | None => []
  end.

Definition list_item (db : MemDb) (g : GraphTables) (scope : RowScope) (row : MemoryMetadata) : MemoryListItem :=
  row_to_item row (text_of db (mm_memory_id_bytes row)) (graph_counts g scope (mm_memory_id_bytes row)).

Definition handle_memory_list (db : MemDb) (g : GraphTables) (scope : RowScope) req
  : result MemoryListResponseFrame OpError.OpError :=
  let? _ := validate req in
  let descending := match ml_dir req with Desc => true | Asc => false end in
  let filter := build_filter req in
  let sig := filter_signature req in
  let? after_key := resume_key req sig in
  let page := memory_timeline_page (db_timeline db) (db_memories db) scope descending after_key
                (Z.to_nat (ml_limit req)) filter in
  let items := map (list_item db g scope) (tp_rows page) in
  let next_cursor :=
    if tp_has_more page then
      match tp_last_key page with Some key => encode_cursor req sig key | None => [] end
    else [] in
  Ok {| lr_items := items; lr_next_cursor := next_cursor;
        lr_cumulative_count := wrap 32 (Z.of_nat (length items)); lr_is_final := true |}.

End handler.
