(* ===== verification/MemoryListSpec.v ===== *)
(** What MEMORY_LIST shows: following its cursors enumerates exactly the caller's
    active memories that pass the filters, each once and in order, and its
    answers depend on nothing of any other tenant. *)

From stdpp Require Import gmap sorting.
From S2P Require Import Prelude Crc32c Ids Utf8 WalPayload WalPayloadCodec Request Access EdgeTable.
From S2P Require Import Submit MemoryTable Registry MemoryApply MemorySpec MemoryIndex MemoryList.

(** ** The entries of an exact index *)

(** The row belongs to the caller. *)
Definition owned (scope : RowScope) (row : MemoryMetadata) : Prop :=
  mm_namespace_id row = sc_namespace_id scope /\ mm_space_id_bytes row = sc_space_id_bytes scope.

(** What a list with the filter is meant to return. *)
Definition listed (scope : RowScope) (f : MemoryTimelineFilter) (row : MemoryMetadata) : Prop :=
  is_active row = true /\ owned scope row /\ admits f row = true.
#[global] Instance listed_dec scope f row : Decision (listed scope f row).
Proof. unfold listed, owned. apply _. Defined.

Section entries.
Context (mems : gmap bytes MemoryMetadata) (tl : gset bytes) (fps : gmap bytes FingerprintEntry).
Hypothesis Hex : index_exact mems tl fps.
Implicit Types (scope : RowScope) (f : MemoryTimelineFilter) (row : MemoryMetadata).

Lemma row_key_parts k row :
  row_ok k row -> length (row_timeline_key row) = SPACE_TIMELINE_KEY_LEN /\ slice 36 52 (row_timeline_key row) = k.
Proof.
  intros H. pose proof (length_row_prefix k row H) as Hl. rewrite row_key_split. destruct H as [<- Hk _ _].
  split; [rewrite length_app, Hl; unfold SPACE_TIMELINE_KEY_LEN; lia|].
  unfold slice. rewrite drop_app_length' by lia. apply take_ge. lia.
Qed.

Lemma entry_row_exact scope f t row :
  t ∈ tl ->
  entry_row mems scope f t = Some row <->
  t = row_timeline_key row /\ mems !! mm_memory_id_bytes row = Some row /\ listed scope f row.
Proof.
  intros (k & r & Hk & Ha & ->)%(ie_timeline _ _ _ Hex). pose proof (ie_rows _ _ _ Hex k r Hk) as Hok.
  destruct (row_key_parts k r Hok) as [Hl Hs]. unfold entry_row. rewrite Hl, Hs, Hk. cbn [Nat.eqb].
  change (negb (SPACE_TIMELINE_KEY_LEN =? SPACE_TIMELINE_KEY_LEN)%nat) with false. cbv iota.
  unfold listed, owned. split.
  - repeat case_match; try done. intros [= ->]. rewrite (rw_id _ _ Hok). apply orb_false_iff in H as [H1 H2].
    apply negb_false_iff in H1, H2. apply Z.eqb_eq in H1. apply bool_decide_eq_true in H2. done.
  - intros (E & Hr & Ha' & [Hn Hsp] & Had).
    assert (k = mm_memory_id_bytes row) as ->.
    { apply (row_key_id k r (mm_memory_id_bytes row) row); [done| |done]. by apply (ie_rows _ _ _ Hex). }
    assert (r = row) as -> by congruence. by rewrite Hn, Z.eqb_refl, bool_decide_true, Had.
Qed.

Lemma row_key_prefix scope row :
  owned scope row -> exists s, row_timeline_key row =
    space_timeline_prefix_space (sc_namespace_id scope) (sc_space_id_bytes scope) ++ s.
Proof.
  intros [Hn Hs]. unfold row_timeline_key, space_timeline_key, space_timeline_prefix_space. rewrite Hn, Hs.
  eexists. by rewrite <- app_assoc.
Qed.

(** Every row of the caller lies in the range of a first page. *)
Lemma owned_in_bounds scope d row :
  owned scope row ->
  above (page_bounds scope d None).1 (row_timeline_key row) /\ below (page_bounds scope d None).2 (row_timeline_key row).
Proof.
  intros (s & ->)%row_key_prefix. unfold page_bounds. set (p := space_timeline_prefix_space _ _).
  assert (bytes_le p (p ++ s)) as Hle by apply bytes_le_prefix.
  destruct (prefix_successor p) as [u|] eqn:E; [apply (prefix_successor_above p s) in E|]; by destruct d.
Qed.

Lemma hits_elem scope f d after t row :
  (t, row) ∈ hits mems scope f (scan_keys tl scope d after) <->
  t = row_timeline_key row /\ mems !! mm_memory_id_bytes row = Some row /\ listed scope f row
  /\ above (page_bounds scope d after).1 t /\ below (page_bounds scope d after).2 t.
Proof.
  unfold hits. rewrite list_elem_of_omap. split.
  - intros (t' & Ht & E). destruct (entry_row mems scope f t') as [r|] eqn:Er; [|done].
    injection E as -> ->. apply scan_keys_elem in Ht as (Ht & Hlo & Hhi).
    apply entry_row_exact in Er as (-> & Hr & Hl); done.
  - intros (-> & Hr & Hl & Hlo & Hhi). assert (row_timeline_key row ∈ tl) as Ht.
    { apply (ie_timeline _ _ _ Hex). exists (mm_memory_id_bytes row), row. by destruct Hl. }
    exists (row_timeline_key row). split; [by apply scan_keys_elem|].
    by rewrite (proj2 (entry_row_exact scope f _ row Ht)) by done.
Qed.

Lemma hits_sorted scope f keys d :
  StronglySorted (scan_order d) keys ->
  StronglySorted (fun x y : bytes * MemoryMetadata => scan_order d x.1 y.1) (hits mems scope f keys).
Proof.
  induction 1 as [|k keys _ IH Hk]; [constructor|]. rewrite hits_cons.
  destruct (entry_row mems scope f k) as [row|]; [|done]. constructor; [done|].
  rewrite Forall_forall in Hk. apply Forall_forall. intros [k' r] (k'' & Hin & E)%list_elem_of_omap.
  destruct (entry_row mems scope f k''); [|done]. injection E as -> _. by apply Hk.
Qed.

Lemma hits_keys_sorted scope f d after :
  StronglySorted (fun x y : bytes * MemoryMetadata => scan_order d x.1 y.1)
    (hits mems scope f (scan_keys tl scope d after)).
Proof. apply hits_sorted, scan_keys_sorted. Qed.

Lemma hits_nodup scope f d after : NoDup (hits mems scope f (scan_keys tl scope d after)).
Proof. eapply sorted_nodup; [|apply (hits_keys_sorted scope f d)]. intros x. apply scan_order_irrefl. Qed.

(** All the pages together have the listed rows, each once. *)
Lemma hits_permutation scope f d :
  (hits mems scope f (scan_keys tl scope d None)).*2 ≡ₚ filter (listed scope f) (map_to_list mems).*2.
Proof.
  assert (NoDup (map_to_list mems).*2) as Hm.
  { apply NoDup_fmap_2_strong; [|apply NoDup_map_to_list].
    intros [k r] [k' r'] H%elem_of_map_to_list H'%elem_of_map_to_list E. cbn in E. subst r'.
    apply (ie_rows _ _ _ Hex) in H, H'. by rewrite <- (rw_id _ _ H), <- (rw_id _ _ H'). }
  apply NoDup_Permutation; [|by apply NoDup_filter|].
  - apply NoDup_fmap_2_strong; [|apply hits_nodup]. intros [t r] [t' r'] H H' E. cbn in E. subst r'.
    apply hits_elem in H as (-> & _), H' as (-> & _). done.
  - intros row. rewrite list_elem_of_filter, !list_elem_of_fmap. split.
    + intros ([t r] & -> & (_ & Hr & Hl & _)%hits_elem). split; [done|].
      exists (mm_memory_id_bytes r, r). split; [done|]. by apply elem_of_map_to_list.
    + intros (Hl & [k r] & -> & Hk%elem_of_map_to_list). cbn in *. exists (row_timeline_key r, r). split; [done|].
      apply hits_elem. rewrite (rw_id k r) by by apply (ie_rows _ _ _ Hex). split_and!; try done; apply owned_in_bounds, Hl.
Qed.

(** They are in the order of their creation. *)
Lemma hits_created scope f (d : bool) after :
  StronglySorted (fun x y => if d then mm_created_at y <= mm_created_at x else mm_created_at x <= mm_created_at y)
    (hits mems scope f (scan_keys tl scope d after)).*2.
Proof.
  assert (forall x y : MemoryMetadata, u64 (mm_created_at x) -> u64 (mm_created_at y) -> owned scope x -> owned scope y ->
    uuid_ok (mm_space_id_bytes x) -> bytes_lt (row_timeline_key x) (row_timeline_key y) ->
    mm_created_at x <= mm_created_at y) as Hcmp.
  { intros x y Hx Hy [Hn Hs] [Hn' Hs'] _ Hlt. unfold bytes_lt, row_timeline_key, space_timeline_key in Hlt.
    rewrite Hn, Hn', Hs, Hs', !bytes_compare_app in Hlt.
    assert (bytes_le (to_be_bytes 8 (mm_created_at x)) (to_be_bytes 8 (mm_created_at y))) as Hle.
    { eapply bytes_le_parts; [by rewrite !length_to_be|]. unfold bytes_le. by rewrite Hlt. }
    unfold bytes_le in Hle. rewrite to_be_compare in Hle by done. by apply Z.compare_le_iff in Hle. }
  pose proof (hits_keys_sorted scope f d after) as Hs.
  assert (forall x, x ∈ hits mems scope f (scan_keys tl scope d after) -> x.1 = row_timeline_key x.2
    /\ row_ok (mm_memory_id_bytes x.2) x.2 /\ owned scope x.2) as Hin.
  { intros [t r] (-> & Hr & (_ & Ho & _) & _)%hits_elem. split_and!; [done|by apply (ie_rows _ _ _ Hex)|apply Ho..]. }
  induction Hs as [|x l _ IH Hx]; cbn; constructor; [apply IH; intros; apply Hin; by apply list_elem_of_further|].
  rewrite Forall_forall in Hx. apply Forall_forall. intros r (y & -> & Hy)%list_elem_of_fmap. specialize (Hx y Hy).
  destruct (Hin x) as (Ex & Hrx & Hox); [apply list_elem_of_here|].
  destruct (Hin y) as (Ey & Hry & Hoy); [by apply list_elem_of_further|].
  rewrite Ex, Ey in Hx. destruct Hrx, Hry. destruct d; cbn in Hx; by apply Hcmp.
Qed.
End entries.

Section walk.
Context {crates : Crates} {artifacts : Artifacts}.
Implicit Types (db : MemDb) (g : GraphTables) (scope : RowScope) (req : MemoryListRequest).

Lemma live_index db : live_db db -> index_exact (db_memories db) (db_timeline db) (db_fingerprints db).
Proof. by intros [Hi _]%live_tables_exact. Qed.

Definition descending req : bool := match ml_dir req with Desc => true | Asc => false end.

(** The rows from a position of the scan on. *)
Definition rest db scope req (after : option bytes) : list (bytes * MemoryMetadata) :=
  hits (db_memories db) scope (build_filter req) (scan_keys (db_timeline db) scope (descending req) after).

Lemma rest_key_length db scope req after k row :
  live_db db -> (k, row) ∈ rest db scope req after -> length k = SPACE_TIMELINE_KEY_LEN.
Proof.
  intros Hi%live_index (-> & Hr & _)%(hits_elem _ _ _ Hi). by eapply row_key_parts, ie_rows.
Qed.

(** ** The cursor *)

Definition cursor_at req (after : option bytes) : bytes :=
  match after with Some k => encode_cursor req (filter_signature req) k | None => [] end.

Lemma decode_encode_cursor req sig key :
  length sig = 8%nat -> length key = SPACE_TIMELINE_KEY_LEN ->
  decode_cursor (encode_cursor req sig key) req sig = Ok key.
Proof.
  intros Hs Hk. unfold decode_cursor. assert (length (encode_cursor req sig key) = CURSOR_LEN) as ->.
  { unfold encode_cursor, CURSOR_LEN. rewrite !length_app, Hs, Hk. done. }
  rewrite Nat.eqb_refl. unfold byte_at, slice, encode_cursor. cbn [app nth].
  rewrite !bool_decide_true; [|change (drop 3 (_ :: _ :: _ :: sig ++ key)) with (sig ++ key);
    by rewrite take_app_length' by lia|done..].
  cbn [negb orb]. change (drop 11 (_ :: _ :: _ :: sig ++ key)) with (drop 8 (sig ++ key)).
  by rewrite drop_app_length' by lia.
Qed.

Lemma resume_cursor_at req after :
  (forall b, length (blake3 b) = 32%nat) -> (forall k, after = Some k -> length k = SPACE_TIMELINE_KEY_LEN) ->
  resume_key (with_cursor req (cursor_at req after)) (filter_signature req) = Ok after.
Proof.
  intros Hb Hk. unfold resume_key. cbn [with_cursor ml_cursor]. destruct after as [k|]; [|done].
  rewrite bool_decide_false by done. cbn [cursor_at].
  change (encode_cursor req (filter_signature req) k) with
    (encode_cursor (with_cursor req (cursor_at req (Some k))) (filter_signature req) k).
  rewrite decode_encode_cursor; [done| |by apply Hk]. unfold filter_signature. by rewrite length_take, Hb.
Qed.

(** One page from a position of the scan on. *)
Lemma handle_page db g scope req after :
  (forall b, length (blake3 b) = 32%nat) -> validate req = Ok tt ->
  (forall k, after = Some k -> length k = SPACE_TIMELINE_KEY_LEN) ->
  let hs := rest db scope req after in
  let n := Z.to_nat (ml_limit req) in
  handle_memory_list db g scope (with_cursor req (cursor_at req after)) =
  Ok {| lr_items := map (list_item db g scope) (take n hs).*2;
        lr_next_cursor := if bool_decide (n < length hs)%nat
                          then cursor_at req (fst <$> last (take n hs)) else [];
        lr_cumulative_count := wrap 32 (Z.of_nat (length (take n hs))); lr_is_final := true |}.
Proof.
  intros Hb Hv Hk. cbv zeta. unfold handle_memory_list.
  change (validate (with_cursor req (cursor_at req after))) with (validate req). rewrite Hv.
  change (filter_signature (with_cursor req (cursor_at req after))) with (filter_signature req).
  change (build_filter (with_cursor req (cursor_at req after))) with (build_filter req).
  cbv iota. rewrite resume_cursor_at by done.
  cbv iota. rewrite memory_timeline_page_spec. cbn [tp_rows tp_has_more tp_last_key].
  fold (descending req). fold (rest db scope req after). rewrite !length_map.
  by f_equal.
Qed.

(** ** A client that follows the cursors *)

Fixpoint list_all (fuel : nat) db g scope req : option (result (list MemoryListItem) OpError.OpError) :=
  match fuel with
  | O => None
  | S fuel =>
    match handle_memory_list db g scope req with
    | Err e => Some (Err e)
    | Ok r =>
      match lr_next_cursor r with
      | [] => Some (Ok (lr_items r))
      | cursor =>
        match list_all fuel db g scope (with_cursor req cursor) with
        | Some (Ok items) => Some (Ok (lr_items r ++ items))
        | answer => answer
        end
      end
    end
  end.

Lemma validate_limit req : 0 <= ml_limit req -> validate req = Ok tt -> (0 < Z.to_nat (ml_limit req))%nat.
Proof. unfold validate. intros H. case_match eqn:E; [done|]. apply orb_false_iff in E as [E _]. lia. Qed.

Lemma walk_rest db g scope req fuel after pre :
  live_db db -> (forall b, length (blake3 b) = 32%nat) -> validate req = Ok tt -> 0 <= ml_limit req ->
  (forall k, after = Some k -> length k = SPACE_TIMELINE_KEY_LEN) ->
  scan_keys (db_timeline db) scope (descending req) None
    = pre ++ scan_keys (db_timeline db) scope (descending req) after ->
  (length (rest db scope req after) < fuel)%nat ->
  list_all fuel db g scope (with_cursor req (cursor_at req after))
  = Some (Ok (map (list_item db g scope) (rest db scope req after).*2)).
Proof.
  intros Hlive Hb Hv Hl. revert after pre. induction fuel as [|fuel IH]; intros after pre Hk Hpre Hf; [lia|].
  cbn [list_all]. rewrite handle_page by done. cbn [lr_next_cursor lr_items].
  pose proof (validate_limit req Hl Hv) as Hpos. set (n := Z.to_nat (ml_limit req)) in *.
  case_bool_decide as Hn; [|by rewrite take_ge by lia].
  destruct (last (take n (rest db scope req after))) as [[k row]|] eqn:El.
  2: { apply last_None, (f_equal length) in El. rewrite length_take in El. cbn in El. lia. }
  cbn [fmap option_fmap option_map fst]. destruct (page_resume _ _ _ _ _ _ _ _ _ _ Hpre El) as (Hrest & pre' & Hpre').
  change (rest db scope req (Some k) = drop n (rest db scope req after)) in Hrest.
  assert (cursor_at req (Some k) <> []) as Hne by done.
  destruct (cursor_at req (Some k)) as [|b c] eqn:Ec; [done|]. rewrite <- Ec.
  change (with_cursor (with_cursor req (cursor_at req after)) (cursor_at req (Some k)))
    with (with_cursor req (cursor_at req (Some k))).
  rewrite (IH (Some k) pre'); [|intros ? [= <-]|done|rewrite Hrest, length_drop; lia].
  - rewrite Hrest, <- map_app, <- fmap_app, take_drop. done.
  - eapply (rest_key_length db scope req after k row); [done|]. apply last_Some_elem_of in El.
    apply elem_of_take in El as (i & Hi & _). by eapply list_elem_of_lookup_2.
Qed.

Lemma rest_bound db scope req after : live_db db -> (length (rest db scope req after) <= size (db_memories db))%nat.
Proof.
  intros Hi%live_index. rewrite <- (length_map_to_list (db_memories db)), <- (length_fmap snd (rest _ _ _ _)),
    <- (length_fmap snd (map_to_list (db_memories db))).
  apply submseteq_length, NoDup_submseteq.
  - apply NoDup_fmap_2_strong; [|by eapply hits_nodup]. intros [t r] [t' r'] H H' E. cbn in E. subst r'.
    apply (hits_elem _ _ _ Hi) in H as (-> & _), H' as (-> & _). done.
  - intros row ([t r] & -> & (_ & Hr & _)%(hits_elem _ _ _ Hi))%list_elem_of_fmap. apply list_elem_of_fmap.
    exists (mm_memory_id_bytes r, r). split; [done|]. by apply elem_of_map_to_list.
Qed.

(** C10: MEMORY_LIST is complete, on a shard whose tables agree ([live_db]: only live
    phases since it was empty, no record replayed, encodes of new ids, session
    changes only of active memories outside the dedup index; an ENCODE that is
    replayed is not listed, [recovered_encode_unlisted]).  A client that starts
    with an empty cursor and echoes each cursor back needs at most one call more than the shard has
    memories, whatever the page size and the direction, and is never told its
    cursor is stale; what it has got then are exactly the active memories of
    its namespace and space that pass the filters (also when it asked for
    tombstoned ones to be included), each once, in the order of their creation
    times, newest first when it asked for that. *)
Theorem memory_list_exact db g scope req fuel
    (Hlive : live_db db) (Hblake : forall b, length (blake3 b) = 32%nat)
    (Hvalid : validate req = Ok tt) (Hlimit : 0 <= ml_limit req) (Hfirst : ml_cursor req = [])
    (Hfuel : (size (db_memories db) < fuel)%nat) :
  exists rows,
    list_all fuel db g scope req = Some (Ok (map (list_item db g scope) rows))
    /\ rows ≡ₚ filter (listed scope (build_filter req)) (map_to_list (db_memories db)).*2
    /\ StronglySorted (fun x y => match ml_dir req with
                                  | Asc => mm_created_at x <= mm_created_at y
                                  | Desc => mm_created_at y <= mm_created_at x end) rows.
Proof.
  pose proof (live_index db Hlive) as Hi. exists (rest db scope req None).*2. split_and!.
  - replace req with (with_cursor req (cursor_at req None)) at 1 by (destruct req; cbn in *; by subst).
    apply (walk_rest db g scope req fuel None []); try done. pose proof (rest_bound db scope req None Hlive). lia.
  - by eapply hits_permutation.
  - eapply sorted_weaken; [by eapply hits_created|]. intros x y _ _. unfold descending. by destruct (ml_dir req).
Qed.

(** ** Isolation *)

Section two.
Context (db1 db2 : MemDb) (g1 g2 : GraphTables) (scope : RowScope).

(** The tenant's part of the two shards is the same. *)
Record same_tenant : Prop := {
  st_rows row : owned scope row ->
    db_memories db1 !! mm_memory_id_bytes row = Some row <-> db_memories db2 !! mm_memory_id_bytes row = Some row;
  st_texts row : owned scope row -> db_memories db1 !! mm_memory_id_bytes row = Some row ->
    db_texts db1 !! mm_memory_id_bytes row = db_texts db2 !! mm_memory_id_bytes row;
  st_graph row : owned scope row -> db_memories db1 !! mm_memory_id_bytes row = Some row ->
    graph_counts g1 scope (mm_memory_id_bytes row) = graph_counts g2 scope (mm_memory_id_bytes row);
}.

Lemma same_rest req after : live_db db1 -> live_db db2 -> same_tenant -> rest db1 scope req after = rest db2 scope req after.
Proof.
  intros Hi1%live_index Hi2%live_index Hs. unfold rest.
  apply StronglySorted_unique_strong with
    (R := fun x y : bytes * MemoryMetadata => scan_order (descending req) x.1 y.1).
  - intros x y _ _ H1 H2. by apply scan_order_asym in H1.
  - eapply hits_keys_sorted.
  - eapply hits_keys_sorted.
  - apply NoDup_Permutation; [by eapply hits_nodup..|]. intros [t row].
    rewrite (hits_elem _ _ _ Hi1), (hits_elem _ _ _ Hi2). pose proof (st_rows Hs row) as H. unfold listed. tauto.
Qed.
End two.

(** C11: MEMORY_LIST is blind to other tenants.  On any two shards that have the
    caller's own memories in common, whatever else they hold, the answers to
    any request are equal, errors, cursors and counts included, also when the
    cursor was made up and points into another tenant's keys; and every row
    shown is the caller's. *)
Theorem memory_list_isolated db1 db2 g1 g2 scope req
    (Hlive1 : live_db db1) (Hlive2 : live_db db2) (Hsame : same_tenant db1 db2 g1 g2 scope) :
  handle_memory_list db1 g1 scope req = handle_memory_list db2 g2 scope req
  /\ (forall r item, handle_memory_list db1 g1 scope req = Ok r -> item ∈ lr_items r ->
        exists row, db_memories db1 !! mm_memory_id_bytes row = Some row /\ owned scope row
          /\ item = list_item db1 g1 scope row).
Proof.
  pose proof (live_index db1 Hlive1) as Hi. unfold handle_memory_list. destruct (validate req) as [[]|e]; [|done].
  destruct (resume_key req (filter_signature req)) as [after|e]; [|done]. rewrite !memory_timeline_page_spec.
  cbn [tp_rows tp_has_more tp_last_key]. fold (descending req).
  fold (rest db1 scope req after) (rest db2 scope req after).
  rewrite <- (same_rest _ _ _ _ scope req after Hlive1 Hlive2 Hsame).
  assert (forall row, row ∈ (take (Z.to_nat (ml_limit req)) (rest db1 scope req after)).*2 ->
    db_memories db1 !! mm_memory_id_bytes row = Some row /\ owned scope row) as Hrow.
  { intros row ([t r] & -> & (i & Hin & _)%elem_of_take)%list_elem_of_fmap.
    apply list_elem_of_lookup_2 in Hin. apply (hits_elem _ _ _ Hi) in Hin as (_ & Hr & (_ & Ho & _) & _). done. }
  split.
  - do 2 f_equal; [|f_equal; f_equal; by rewrite !length_map]. apply map_ext_in.
    intros row [Hr Ho]%list_elem_of_In%Hrow. unfold list_item, text_of.
    by rewrite (st_texts _ _ _ _ _ Hsame), (st_graph _ _ _ _ _ Hsame).
  - intros r item [= <-]. cbn [lr_items]. intros (row & -> & Hr)%list_elem_of_fmap. exists row.
    destruct (Hrow row Hr). done.
Qed.

End walk.
