(* ===== verification/MemoryExamples.v ===== *)
(** Runs of the memory tables: witnesses of their theorems, and what goes wrong when
    records are replayed or sessions change. *)

From stdpp Require Import gmap sorting.
From S2P Require Import Prelude Crc32c Ids Utf8 WalKinds WalRecord WalPayload WalPayloadCodec.
From S2P Require Import Request Access EdgeTable AckCodec Submit SubmitSpec MemoryTable Registry MemoryApply.
From S2P Require Import MemorySpec MemoryIndex MemoryReplay MemoryList MemoryListSpec.

Module MemoryExample.

#[export] Instance crates : Crates :=
  {| blake3 b := take 32 (b ++ replicate 32 Byte.x00); new_v5 ns s := ns; base64_decode b := None |}.
#[export] Instance artifacts : Artifacts := {| bundle := bytes; merge_sync _ _ _ text := text |}.

Definition spaceA : Uuid := replicate 15 Byte.x00 ++ [Byte.x0a].
Definition spaceB : Uuid := replicate 15 Byte.x00 ++ [Byte.x0b].
Definition wid (n : Z) : Uuid := replicate 15 Byte.x00 ++ [byte_of n].
Definition mem (n : Z) : MemoryId := MemoryId.pack 0 n 1.

Definition write (n : Z) (space : Uuid) (ps : list MemoryPhase) : Write MemoryPhase :=
  {| w_write_id := wid n; w_space := space; w_namespace := 1; w_space_string := []; w_started_at := 0;
     w_phases := ps; w_request_hash := None |}.
Definition upsert (n at_ : Z) (dedup : bool) : MemoryPhase :=
  UpsertMemory {| um_id := mem n; um_text := [byte_of (64 + n)]; um_vector := []; um_kind := Episodic;
    um_salience := F32_HALF; um_session_id := 7; um_created_at := at_; um_occurred_at := None; um_arena_slot := n;
    um_embedding_model_fp := wid 0; um_content_hash := Some (blake3 [byte_of (64 + n)]);
    um_deduplicate := dedup |}.
Definition live (n : Z) (space : Uuid) (p : MemoryPhase) : MemStep := Live p (write n space [p]).
Definition forget (n : Z) (mode : TombstoneMode) : MemoryPhase := TombstoneMemory (mem n) mode 0 500.
Definition restore (n : Z) : MemoryPhase := PhaseRestoreMemory (mem n) 600.

Definition run_steps (steps : list MemStep) : MemDb := fold_left mem_step steps empty_db.

(** Memories 1 and 2 of A, 3 of B; 2 was forgotten and came back. *)
Definition encodes : list MemStep :=
  [live 1 spaceA (upsert 1 100 true); live 2 spaceA (upsert 2 200 true); live 3 spaceB (upsert 3 150 false)].
Definition db3 : MemDb := run_steps encodes.
Definition db5 : MemDb := run_steps (encodes ++ [live 4 spaceA (forget 2 TombSoft); live 5 spaceA (restore 2)]).
Definition result_db (r : result (MemDb * PhaseAck) ApplyError) : MemDb :=
  match r with Ok (db, _) => db | Err _ => empty_db end.

Definition accepted {A B E} (r : result (A * B) E) : bool := match r with Ok _ => true | Err _ => false end.

Lemma accepted_ok r : accepted r = true -> r = Ok (result_db r, match r with Ok (_, a) => a | Err _ => SalienceUpdated end).
Proof. by destruct r as [[]|]. Qed.

Definition forgotten1 : MemDb := result_db (memory_dispatch db3 (forget 1 TombHard) (write 4 spaceA [])).
Definition attempts : list MemStep :=
  [live 5 spaceA (restore 1);
   Replay 6 7 (RestoreMemory {| rp_memory_id := mem 1; rp_request_id := wid 5; rp_space_id := spaceA |});
   live 6 spaceA (PhaseUpdateSalience (mem 1) 0); live 7 spaceA (upsert 4 300 false); live 8 spaceA (ReclaimSlots [1])].

Lemma hard_forget_final_witness :
  erased (MemoryId.to_be (mem 1)) (fold_left mem_step attempts forgotten1)
  /\ bool_decide (is_Some (db_memories (fold_left mem_step attempts forgotten1) !! MemoryId.to_be (mem 1))) = true.
Proof.
  split; [|vm_compute; reflexivity].
  destruct (hard_forget_final db3 (mem 1) 0 500 (write 4 spaceA []) forgotten1
    (Tombstoned (TargetMemory (mem 1) TombHard) 500) attempts) as [H _].
  - apply (accepted_ok (memory_dispatch db3 (forget 1 TombHard) (write 4 spaceA []))). vm_compute. reflexivity.
  - unfold attempts. repeat apply Forall_cons_2; try (by intros []); [|by intros []..|done].
    cbn. intros H. apply (f_equal from_be_bytes) in H. vm_compute in H. done.
  - exact H.
Defined.

(** To B, A's memory 1 is as absent as it is from an empty shard. *)
Lemma memory_tenant_wall_witness :
  answer (memory_dispatch db3 (forget 1 TombHard) (write 4 spaceB [])) = Err memory_not_found
  /\ db_memories (mem_step db3 (Live (forget 1 TombHard) (write 4 spaceB []))) !! MemoryId.to_be (mem 1)
     = db_memories db3 !! MemoryId.to_be (mem 1).
Proof.
  destruct (memory_tenant_wall db3 empty_db (forget 1 TombHard) (write 4 spaceB []) (mem 1)) as (H1 & H2 & H3);
    [done|vm_compute; reflexivity|].
  split; [by rewrite H1|]. assert (mm_space_id_bytes <$> db_memories db3 !! MemoryId.to_be (mem 1) = Some spaceA) as Ha
    by (vm_compute; reflexivity).
  apply fmap_Some in Ha as (row & E & Ha). rewrite E. apply (H3 _ _ E). rewrite <- Ha. discriminate.
Defined.

Definition live_check (db : MemDb) (st : MemStep) : bool :=
  match st with
  | Live (UpsertMemory u) w =>
    bool_decide (db_memories db !! MemoryId.to_be (um_id u) = None) && (length (w_space w) =? 16)%nat
      && (0 <=? um_created_at u) && (um_created_at u <? 2 ^ 64)
  | Live (PhaseUpdateSession _ _) _ | Replay _ _ _ => false
  | Live _ _ => true
  end.
Fixpoint live_checks (db : MemDb) (steps : list MemStep) : bool :=
  match steps with [] => true | st :: steps => live_check db st && live_checks (mem_step db st) steps end.

Lemma live_checked steps db : live_db db -> live_checks db steps = true -> live_db (fold_left mem_step steps db).
Proof.
  revert db. induction steps as [|st steps IH]; intros db Hdb; cbn [live_checks fold_left]; [done|].
  intros [H1 H2]%andb_prop. apply IH; [|done]. destruct st as [p w|]; [|done]. apply live_step; [done|].
  destruct p as [u| | | | | | |]; cbn in *; try done. apply andb_prop in H1 as [[[H0 H1]%andb_prop H3]%andb_prop H4].
  apply bool_decide_eq_true in H0. apply Nat.eqb_eq in H1. unfold uuid_ok, uint. split_and!; [done|done|lia..].
Qed.

Lemma live_db3 : live_db db3.
Proof. apply (live_checked encodes); [constructor|vm_compute; reflexivity]. Qed.
Lemma live_db5 : live_db db5.
Proof. eapply (live_checked (encodes ++ _)); [constructor|vm_compute; reflexivity]. Qed.

Lemma memory_index_exact_witness :
  size (db_timeline db5) = 3%nat
  /\ forall f e, db_fingerprints db5 !! f = Some e ->
       exists row, db_memories db5 !! fe_memory_id_bytes e = Some row /\ is_active row = true
         /\ row_fingerprint_key row = Some f.
Proof.
  split; [vm_compute; reflexivity|]. destruct (memory_index_exact db5) as (_ & H & _); [apply live_db5|]. exact H.
Defined.

(** ** Lists *)

Definition no_graph : GraphTables :=
  {| STATEMENTS_BY_EVIDENCE := ∅; RELATION_BY_EVIDENCE := ∅; gt_edges := {| EDGES := ∅; EDGES_REVERSE := ∅ |} |}.
Definition scopeA : RowScope := {| sc_namespace_id := 1; sc_space_id_bytes := spaceA |}.
Definition scopeB : RowScope := {| sc_namespace_id := 1; sc_space_id_bytes := spaceB |}.
Definition list_req (dir : MemoryListDirWire) (dead : bool) : MemoryListRequest :=
  {| ml_sort := SortCreated; ml_dir := dir; ml_limit := 1; ml_cursor := []; ml_kinds := [];
     ml_include_tombstoned := dead; ml_time_axis := AxisCreated; ml_from_unix_nanos := 0; ml_to_unix_nanos := 0;
     ml_salience_min := 0; ml_salience_max := 1065353216; ml_text_contains := []; ml_act_as := None |}.

(** The creation times a client gets to see. *)
Definition list_times (db : MemDb) (scope : RowScope) (dir : MemoryListDirWire) (dead : bool)
  : option (result (list Z) OpError.OpError) :=
  match list_all 10 db no_graph scope (list_req dir dead) with
  | Some (Ok items) => Some (Ok (map li_created_at items))
  | Some (Err e) => Some (Err e)
  | None => None
  end.

Lemma blake3_length b : length (blake3 b) = 32%nat.
Proof.
  change (blake3 b) with (take 32 (b ++ replicate 32 Byte.x00)). rewrite length_take, length_app, length_replicate. lia.
Qed.

Lemma memory_list_exact_witness :
  list_times db5 scopeA Desc false = Some (Ok [200; 100])
  /\ exists rows, list_all 10 db5 no_graph scopeA (list_req Desc false)
       = Some (Ok (map (list_item db5 no_graph scopeA) rows))
     /\ rows ≡ₚ filter (listed scopeA (build_filter (list_req Desc false))) (map_to_list (db_memories db5)).*2.
Proof.
  split; [vm_compute; reflexivity|].
  destruct (memory_list_exact db5 no_graph scopeA (list_req Desc false) 10) as (rows & H1 & H2 & _);
    [apply live_db5|apply blake3_length|vm_compute; reflexivity|vm_compute; discriminate|reflexivity
    |apply Nat.ltb_lt; vm_compute; reflexivity|]. exists rows. exact (conj H1 H2).
Defined.

(** B's list does not change with A's memories, with any cursor. *)
Definition dbB : MemDb := run_steps [live 3 spaceB (upsert 3 150 false)].
Lemma live_dbB : live_db dbB.
Proof. apply (live_checked [_]); [constructor|vm_compute; reflexivity]. Qed.

Lemma owned_rows_same (m m' : gmap bytes MemoryMetadata) scope row :
  filter (fun kv => owned scope kv.2) m = m' -> owned scope row ->
  m !! mm_memory_id_bytes row = Some row <-> m' !! mm_memory_id_bytes row = Some row.
Proof. intros <- Ho. rewrite map_lookup_filter_Some. naive_solver. Qed.

Lemma same_B : same_tenant db5 dbB no_graph no_graph scopeB.
Proof.
  assert (filter (fun kv => owned scopeB kv.2) (db_memories db5) = db_memories dbB) as E by (vm_compute; reflexivity).
  split; [intros row; by apply owned_rows_same| |done]. intros row Ho Hr. apply (owned_rows_same _ _ scopeB row E Ho) in Hr.
  assert (map fst (map_to_list (db_memories dbB)) = [MemoryId.to_be (mem 3)]) as Ek by (vm_compute; reflexivity).
  assert (mm_memory_id_bytes row ∈ map fst (map_to_list (db_memories dbB))) as Hin.
  { apply list_elem_of_fmap. exists (mm_memory_id_bytes row, row). split; [done|]. by apply elem_of_map_to_list. }
  rewrite Ek in Hin. apply list_elem_of_singleton in Hin as ->. vm_compute. reflexivity.
Qed.

(** The cursor points into A's keys. *)
Definition forged : MemoryListRequest :=
  let req := list_req Asc false in
  with_cursor req (encode_cursor req (filter_signature req)
    (space_timeline_key 1 spaceA 100 7 (MemoryId.to_be (mem 1)))).
Definition shown (r : result MemoryListResponseFrame OpError.OpError) : list Z :=
  match r with Ok r => map li_created_at (lr_items r) | Err _ => [] end.

Lemma memory_list_isolated_witness :
  handle_memory_list db5 no_graph scopeB forged = handle_memory_list dbB no_graph scopeB forged
  /\ shown (handle_memory_list db5 no_graph scopeB forged) = [150].
Proof.
  split; [|vm_compute; reflexivity].
  apply (memory_list_isolated db5 dbB no_graph no_graph scopeB forged live_db5 live_dbB same_B).
Defined.

(** ** Replay *)

(** The last phases of [pws1] and [pws2] are refused: memory 4 is not there yet, and
    then it is of another tenant. *)
Definition pws1 : list (MemoryPhase * Write MemoryPhase) :=
  [(forget 2 TombSoft, write 4 spaceA []); (PhaseUpdateSession (mem 3) 9, write 5 spaceB []);
   (forget 4 TombHard, write 9 spaceB [])].
Definition pws2 : list (MemoryPhase * Write MemoryPhase) :=
  [(restore 2, write 6 spaceA []); (upsert 4 300 true, write 7 spaceA []); (forget 1 TombHard, write 8 spaceA []);
   (forget 4 TombHard, write 10 spaceB [])].

(** The phases are logged, and applied where they are accepted. *)
Fixpoint attempt (db : MemDb) (pws : list (MemoryPhase * Write MemoryPhase)) : list Logged * MemDb :=
  match pws with
  | [] => ([], db)
  | (p, w) :: pws =>
    let '(ok, db1) := match memory_dispatch db p w with Ok (db1, _) => (true, db1) | Err _ => (false, db) end in
    let '(es, db') := attempt db1 pws in ({| lg_applied := ok; lg_phase := p; lg_write := w |} :: es, db')
  end.
Definition payloads (pws : list (MemoryPhase * Write MemoryPhase)) : list WalPayload :=
  concat (map (fun pw => option_list (memory_wal_payload pw.1 pw.2)) pws).

Lemma attempt_run db pws : logged_run db (attempt db pws).1 (attempt db pws).2 (payloads pws).
Proof.
  revert db. induction pws as [|[p w] pws IH]; intros db; cbn [attempt]; [constructor|].
  destruct (memory_dispatch db p w) as [[db1 a]|e] eqn:E.
  - specialize (IH db1). destruct (attempt db1 pws) as [es db']. by eapply run_applied.
  - specialize (IH db). destruct (attempt db pws) as [es db']. by apply run_dropped.
Qed.

Definition sparesb (k : bytes) (e : Logged) : bool :=
  lg_applied e || negb (bool_decide (target (lg_phase e) = Some k)).
Lemma sparesb_all k es : forallb (sparesb k) es = true -> Forall (spares k) es.
Proof.
  intros H. apply Forall_forall. intros e He%list_elem_of_In Ha Ht. rewrite forallb_forall in H.
  specialize (H e He). unfold sparesb in H. by rewrite Ha, bool_decide_true in H.
Qed.

Definition stored : MemDb := (attempt db3 pws1).2.
Definition last_db : MemDb := (attempt stored pws2).2.
Definition log : list (Z * Z * WalPayload) := map (fun pl => (10, 900, pl)) (payloads pws1 ++ payloads pws2).

Lemma memory_replay_converges_witness :
  reader_view (replay stored log) (MemoryId.to_be (mem 1)) = reader_view last_db (MemoryId.to_be (mem 1))
  /\ reader_view (replay stored log) (MemoryId.to_be (mem 2)) = reader_view last_db (MemoryId.to_be (mem 2))
  /\ (vw_active <$> (reader_view last_db (MemoryId.to_be (mem 1))).1, vw_active <$> (reader_view last_db (MemoryId.to_be (mem 2))).1)
     = (Some false, Some true)
  /\ map lg_applied (attempt stored pws2).1 = [true; true; true; false].
Proof.
  assert (forall k, forallb (sparesb k) ((attempt db3 pws1).1 ++ (attempt stored pws2).1) = true ->
    reader_view (replay stored log) k = reader_view last_db k) as H.
  { intros k Hk. apply (memory_replay_converges db3 (attempt db3 pws1).1 stored (payloads pws1)
      (attempt stored pws2).1 last_db (payloads pws2) log).
    - apply attempt_run.
    - apply attempt_run.
    - by apply sparesb_all.
    - unfold log. rewrite map_map. apply map_id. }
  split_and!; [apply H; vm_compute; reflexivity..|vm_compute; reflexivity|vm_compute; reflexivity].
Defined.

End MemoryExample.

(** ** Where replay and updates depart from the live phases *)

Module MemoryFaults.
Import MemoryExample.

(** C40: Recovery writes an idempotency row for ENCODE, FORGET and RESTORE, but without the
    acknowledgement: it never decodes, so the lookup of that id misses and the
    request, sent again, is applied again.  The other phases get no row. *)
Theorem replayed_memory_write_forgotten (t : Table) p (w : Write MemoryPhase) lsn ts now h :
  match memory_wal_payload p w with
  | None => True
  | Some pl =>
    match p with
    | UpsertMemory _ | TombstoneMemory _ _ _ _ | PhaseRestoreMemory _ _ =>
      (lookup_with_hash ∅ (recover_row t (lsn, ts, pl)) true now (w_write_id w) h).1 = Miss
    | _ => recover_row t (lsn, ts, pl) = t
    end
  end.
Proof.
  destruct p; cbn [memory_wal_payload]; try done; unfold lookup_with_hash; rewrite lookup_empty;
    unfold recover_row; cbn; rewrite lookup_insert_eq; unfold is_expired; cbn; by destruct (_ <? _).
Qed.

Definition io_ok : CommitIo :=
  {| io_hnsw := true; io_write_txn := true; io_insert := true; io_commit := true |}.
Definition forget_write : Write MemoryPhase := write 9 spaceB [forget 1 TombHard].
Definition forget_events : list (Event MemoryPhase) :=
  [EvSubmit 0 forget_write 10 true true io_ok 10; EvDurable 0 [1]; EvResume 0 io_ok 12].
Definition outcome (evs : list (Event MemoryPhase)) : option (MemDb * list (Effect MemoryPhase)) :=
  (fun r => (sh_md r.1, r.2)) <$> run (fresh db3) evs.
Definition active_text (db : MemDb) (n : Z) : option bool * option bytes :=
  (is_active <$> db_memories db !! MemoryId.to_be (mem n), db_texts db !! MemoryId.to_be (mem n)).

(** The log is written before the tenant check, and the replay of FORGET has none: B's
    hard forget of A's memory is refused, and destroys it at the next restart. *)
Theorem foreign_forget_replayed :
  (fun o => (active_text o.1 1, o.2)) <$> outcome forget_events
    = Some ((Some true, Some [Byte.x41]), [Answered forget_write (Err (map_apply_err memory_not_found))])
  /\ (fun o => active_text o.1 1) <$> outcome (forget_events ++ [EvRestart 0 2]) = Some (Some false, None).
Proof. split; vm_compute; reflexivity. Qed.

Definition encode_record (n at_ : Z) : MemStep :=
  match memory_wal_payload (upsert n at_ false) (write n spaceA []) with
  | Some pl => Replay n (at_ + 5) pl
  | None => Replay 0 0 (RestoreMemory {| rp_memory_id := 0; rp_request_id := []; rp_space_id := [] |})
  end.

(** An ENCODE that only the log has comes back without its timeline entry: its row is
    active and has its text, and no list shows it. *)
Theorem recovered_encode_unlisted :
  active_text (run_steps [encode_record 1 100]) 1 = (Some true, Some [Byte.x41])
  /\ list_times (run_steps [encode_record 1 100]) scopeA Asc false = Some (Ok [])
  /\ list_times (run_steps [live 1 spaceA (upsert 1 100 false)]) scopeA Asc false = Some (Ok [100]).
Proof. split_and!; vm_compute; reflexivity. Qed.

(** Replayed over the row it made, an ENCODE moves its creation time to that of the
    record; a later FORGET then misses the timeline entry, and a list that asks
    for forgotten memories shows this one but no other. *)
Theorem replayed_encode_outlives_forget :
  list_times (run_steps [live 1 spaceA (upsert 1 100 false); encode_record 1 100; live 2 spaceA (forget 1 TombHard)])
    scopeA Asc true = Some (Ok [105])
  /\ list_times (run_steps [live 1 spaceA (upsert 1 100 false); live 2 spaceA (forget 1 TombHard)])
       scopeA Asc true = Some (Ok []).
Proof. split; vm_compute; reflexivity. Qed.

(** A session change leaves the entry of the dedup index under the old session, and
    puts a forgotten memory back into the timeline. *)
Theorem session_change_drifts :
  (let db := run_steps [live 1 spaceA (upsert 1 100 true); live 2 spaceA (PhaseUpdateSession (mem 1) 8)] in
   bool_decide (is_Some (db_fingerprints db !! fingerprint_key spaceA 7 (blake3 [Byte.x41]))) = true
   /\ mm_session_id <$> db_memories db !! MemoryId.to_be (mem 1) = Some 8)
  /\ (let db := run_steps [live 1 spaceA (upsert 1 100 true); live 2 spaceA (forget 1 TombHard);
                           live 3 spaceA (PhaseUpdateSession (mem 1) 8)] in
      size (db_timeline db) = 1%nat /\ active_text db 1 = (Some false, None)).
Proof. cbv zeta. split_and!; vm_compute; reflexivity. Qed.

End MemoryFaults.
