(* ===== verification/RelationTable.v ===== *)
(** Typed relations ([brain-metadata]: [relation/ops.rs], [tables/relation.rs];
    [brain-core]: [nodes/relation.rs], [nodes/kinds.rs]; [brain-ops]:
    [apply/relation.rs]): the sidecar rows over the shared edge tables, with
    creation, supersession, tombstones, the probes of cardinality, listing and
    history.

    Entities and relation types are tables of other components, of which the
    entity type and the definition are read; they are fields of the state that
    no operation here changes.  Failures of redb are not modelled. *)

From stdpp Require Import gmap sorting.
From S2P Require Import Prelude Ids WalPayload EdgeTable MemoryTable Registry.

(** ** Data *)

Inductive Cardinality := OneToOne | OneToMany | ManyToOne | ManyToMany.

Definition Cardinality_from_u8 (b : Z) : option Cardinality :=
  match b with 0 => Some OneToOne | 1 => Some OneToMany | 2 => Some ManyToOne | 3 => Some ManyToMany | _ => None end.

Record Relation := {
  r_id : Uuid;
  r_relation_type : Z;
  r_from_entity : Uuid;
  r_to_entity : Uuid;
  r_properties_blob : bytes;
  r_confidence : Z;
  r_evidence : list MemoryId;
  r_extractor_id : Z;
  r_extracted_at : Z;
  r_valid_from : option Z;
  r_valid_to : option Z;
  r_version : Z;
  r_superseded_by : option Uuid;
  r_supersedes : option Uuid;
  r_chain_root : Uuid;
  r_tombstoned : bool;
  r_tombstoned_at : option Z;
  r_is_symmetric : bool;
}.

Definition new_root (id : Uuid) (relation_type : Z) (from_entity to_entity : Uuid) (confidence : Z)
    (evidence : list MemoryId) (extractor_id extracted_at : Z) (is_symmetric : bool) : Relation :=
  {| r_id := id; r_relation_type := relation_type; r_from_entity := from_entity; r_to_entity := to_entity;
     r_properties_blob := []; r_confidence := confidence; r_evidence := evidence; r_extractor_id := extractor_id;
     r_extracted_at := extracted_at; r_valid_from := None; r_valid_to := None; r_version := 1;
     r_superseded_by := None; r_supersedes := None; r_chain_root := id; r_tombstoned := false;
     r_tombstoned_at := None; r_is_symmetric := is_symmetric |}.

(** What the phase sets on top of a fresh relation. *)
Definition with_details (r : Relation) (properties_blob : bytes) (valid_from valid_to : option Z) : Relation :=
  {| r_id := r_id r; r_relation_type := r_relation_type r; r_from_entity := r_from_entity r;
     r_to_entity := r_to_entity r; r_properties_blob := properties_blob; r_confidence := r_confidence r;
     r_evidence := r_evidence r; r_extractor_id := r_extractor_id r; r_extracted_at := r_extracted_at r;
     r_valid_from := valid_from; r_valid_to := valid_to; r_version := r_version r;
     r_superseded_by := r_superseded_by r; r_supersedes := r_supersedes r; r_chain_root := r_chain_root r;
     r_tombstoned := r_tombstoned r; r_tombstoned_at := r_tombstoned_at r; r_is_symmetric := r_is_symmetric r |}.

Definition with_endpoints (r : Relation) (from_entity to_entity : Uuid) (is_symmetric : bool) : Relation :=
  {| r_id := r_id r; r_relation_type := r_relation_type r; r_from_entity := from_entity;
     r_to_entity := to_entity; r_properties_blob := r_properties_blob r; r_confidence := r_confidence r;
     r_evidence := r_evidence r; r_extractor_id := r_extractor_id r; r_extracted_at := r_extracted_at r;
     r_valid_from := r_valid_from r; r_valid_to := r_valid_to r; r_version := r_version r;
     r_superseded_by := r_superseded_by r; r_supersedes := r_supersedes r; r_chain_root := r_chain_root r;
     r_tombstoned := r_tombstoned r; r_tombstoned_at := r_tombstoned_at r; r_is_symmetric := is_symmetric |}.

(** The replacement as a link of a chain. *)
Definition chained (r : Relation) (version : Z) (old_id chain_root : Uuid) (is_symmetric : bool) : Relation :=
  {| r_id := r_id r; r_relation_type := r_relation_type r; r_from_entity := r_from_entity r;
     r_to_entity := r_to_entity r; r_properties_blob := r_properties_blob r; r_confidence := r_confidence r;
     r_evidence := r_evidence r; r_extractor_id := r_extractor_id r; r_extracted_at := r_extracted_at r;
     r_valid_from := r_valid_from r; r_valid_to := r_valid_to r; r_version := version;
     r_superseded_by := None; r_supersedes := Some old_id; r_chain_root := chain_root;
     r_tombstoned := r_tombstoned r; r_tombstoned_at := r_tombstoned_at r; r_is_symmetric := is_symmetric |}.

Definition canonical_pair (a b : Uuid) : Uuid * Uuid := if decide (bytes_le a b) then (a, b) else (b, a).

Record RelationMetadata := {
  rm_namespace_id : Z;
  rm_space_id_bytes : bytes;
  rm_session_id : Z;
  rm_from_tag : Z;
  rm_from_bytes : bytes;
  rm_to_tag : Z;
  rm_to_bytes : bytes;
  rm_relation_type_id : Z;
  rm_chain_root_bytes : bytes;
  rm_properties_blob : bytes;
  rm_version : Z;
  rm_confidence : Z;
  rm_extractor_id : Z;
  rm_extracted_at : Z;
  rm_valid_from : option Z;
  rm_valid_to : option Z;
  rm_superseded_by : option bytes;
  rm_supersedes : option bytes;
  rm_evidence_inline : list bytes;
  rm_tombstoned : Z;
  rm_tombstoned_at : option Z;
  rm_is_current : Z;
  rm_is_symmetric : Z;
  rm_flags : Z;
}.

Definition rel_is_current (m : RelationMetadata) : bool := negb (rm_is_current m =? 0).
Definition rel_is_symmetric (m : RelationMetadata) : bool := negb (rm_is_symmetric m =? 0).
Definition rel_is_tombstoned (m : RelationMetadata) : bool := negb (rm_tombstoned m =? 0).
Definition rel_scope (m : RelationMetadata) : RowScope :=
  {| sc_namespace_id := rm_namespace_id m; sc_space_id_bytes := rm_space_id_bytes m |}.

Definition source_node (m : RelationMetadata) : result NodeRef NodeRefError :=
  NodeRef.from_bytes (byte_of (rm_from_tag m) :: rm_from_bytes m).
Definition target_node (m : RelationMetadata) : result NodeRef NodeRefError :=
  NodeRef.from_bytes (byte_of (rm_to_tag m) :: rm_to_bytes m).
Definition entity_endpoints (m : RelationMetadata) : option (Uuid * Uuid) :=
  match source_node m, target_node m with
  | Ok (NodeEntity a), Ok (NodeEntity b) => Some (a, b)
  | _, _ => None
  end.

Definition u8_of (b : bool) : Z := if b then 1 else 0.

(** With the session that [insert_new_relation] stamps on it. *)
Definition metadata_from_relation (r : Relation) (scope : RowScope) (session : Z) : RelationMetadata :=
  {| rm_namespace_id := sc_namespace_id scope; rm_space_id_bytes := sc_space_id_bytes scope;
     rm_session_id := session; rm_from_tag := NodeRef.tag (NodeEntity (r_from_entity r));
     rm_from_bytes := r_from_entity r; rm_to_tag := NodeRef.tag (NodeEntity (r_to_entity r));
     rm_to_bytes := r_to_entity r; rm_relation_type_id := r_relation_type r;
     rm_chain_root_bytes := r_chain_root r; rm_properties_blob := r_properties_blob r; rm_version := r_version r;
     rm_confidence := r_confidence r; rm_extractor_id := r_extractor_id r; rm_extracted_at := r_extracted_at r;
     rm_valid_from := r_valid_from r; rm_valid_to := r_valid_to r; rm_superseded_by := r_superseded_by r;
     rm_supersedes := r_supersedes r; rm_evidence_inline := map MemoryId.to_be (r_evidence r);
     rm_tombstoned := u8_of (r_tombstoned r); rm_tombstoned_at := r_tombstoned_at r;
     rm_is_current := u8_of (negb (r_tombstoned r) && bool_decide (r_superseded_by r = None));
     rm_is_symmetric := u8_of (r_is_symmetric r); rm_flags := 0 |}.

Definition relation_from_metadata (id : Uuid) (m : RelationMetadata) : Relation :=
  let '(from_entity, to_entity) :=
    default (replicate 16 Byte.x00, replicate 16 Byte.x00) (entity_endpoints m) in
  {| r_id := id; r_relation_type := rm_relation_type_id m; r_from_entity := from_entity; r_to_entity := to_entity;
     r_properties_blob := rm_properties_blob m; r_confidence := rm_confidence m;
     r_evidence := map MemoryId.from_be (rm_evidence_inline m); r_extractor_id := rm_extractor_id m;
     r_extracted_at := rm_extracted_at m; r_valid_from := rm_valid_from m; r_valid_to := rm_valid_to m;
     r_version := rm_version m; r_superseded_by := rm_superseded_by m; r_supersedes := rm_supersedes m;
     r_chain_root := rm_chain_root_bytes m; r_tombstoned := rel_is_tombstoned m;
     r_tombstoned_at := rm_tombstoned_at m; r_is_symmetric := rel_is_symmetric m |}.

(** A row with other values in the fields that later writes change. *)
Definition rel_update (m : RelationMetadata) (valid_to : option Z) (superseded_by : option bytes) (tombstoned : Z)
    (tombstoned_at : option Z) : RelationMetadata :=
  {| rm_namespace_id := rm_namespace_id m; rm_space_id_bytes := rm_space_id_bytes m;
     rm_session_id := rm_session_id m; rm_from_tag := rm_from_tag m; rm_from_bytes := rm_from_bytes m;
     rm_to_tag := rm_to_tag m; rm_to_bytes := rm_to_bytes m; rm_relation_type_id := rm_relation_type_id m;
     rm_chain_root_bytes := rm_chain_root_bytes m; rm_properties_blob := rm_properties_blob m;
     rm_version := rm_version m; rm_confidence := rm_confidence m; rm_extractor_id := rm_extractor_id m;
     rm_extracted_at := rm_extracted_at m; rm_valid_from := rm_valid_from m; rm_valid_to := valid_to;
     rm_superseded_by := superseded_by; rm_supersedes := rm_supersedes m;
     rm_evidence_inline := rm_evidence_inline m; rm_tombstoned := tombstoned; rm_tombstoned_at := tombstoned_at;
     rm_is_current := 0; rm_is_symmetric := rm_is_symmetric m; rm_flags := rm_flags m |}.

(** The fields that the code reads. *)
Record RelationTypeDefinition := {
  rt_cardinality : Z;
  rt_is_symmetric : Z;
  rt_from_entity_type_id : Z;
  rt_to_entity_type_id : Z;
}.

Definition decode_entity_type_id (raw : Z) : option Z := if raw =? 0 then None else Some raw.

Record RelDb := MkRelDb {
  rd_edges : EdgeTables;
  rd_relations : gmap bytes RelationMetadata;
  rd_evidence : gset (Z * bytes * bytes * bytes);
  rd_entities : gmap bytes Z;
  rd_types : gmap Z RelationTypeDefinition;
}.

Definition put_relation (id : Uuid) (m : RelationMetadata) (db : RelDb) : RelDb :=
  MkRelDb (rd_edges db) (<[id := m]> (rd_relations db)) (rd_evidence db) (rd_entities db) (rd_types db).

(** Without the failures of redb and of the operations of other tables; nothing
    raises [EndpointMismatch]. *)
Inductive RelationOpError :=
| RelEdgeKey (e : EdgeKeyError)
| RelNotFound (id : Uuid)
| RelAlreadyExists (id : Uuid)
| UnknownRelationType (t : Z)
| UnknownEntity (id : Uuid)
| RelInvalidArgument (s : string)
| AlreadySuperseded (id succ : Uuid)
| AlreadyTombstoned (id : Uuid)
| TypeMismatch (old new : Z)
| EndpointMismatch
| CardinalityViolation (variant : Cardinality) (conflicting : nat)
| EndpointTypeViolation (side : string) (entity : Uuid) (expected actual : Z).

(** ** Checks *)

Definition F32_ONE : Z := 1065353216.
Definition confidence_ok (x : Z) : bool := negb (f32_is_nan x) && negb (f32_lt x 0) && negb (f32_lt F32_ONE x).
Definition bad_confidence : RelationOpError := RelInvalidArgument "confidence must be in [0, 1] and not NaN".

Definition require_entity_exists (db : RelDb) (id : Uuid) : result Z RelationOpError :=
  match rd_entities db !! id with Some t => Ok t | None => Err (UnknownEntity id) end.

Record DeclaredConstraints := {
  dc_cardinality : Cardinality;
  dc_is_symmetric : bool;
  dc_from_type : option Z;
  dc_to_type : option Z;
}.

Definition lookup_type (db : RelDb) (t : Z) : result DeclaredConstraints RelationOpError :=
  match rd_types db !! t with
  | None => Err (UnknownRelationType t)
  | Some row =>
    match Cardinality_from_u8 (rt_cardinality row) with
    | None => Err (RelInvalidArgument "relation type has unknown cardinality")
    | Some c => Ok {| dc_cardinality := c; dc_is_symmetric := negb (rt_is_symmetric row =? 0);
                      dc_from_type := decode_entity_type_id (rt_from_entity_type_id row);
                      dc_to_type := decode_entity_type_id (rt_to_entity_type_id row) |}
    end
  end.

Inductive EndpointDirection := AsGiven | Swapped.

Definition type_ok (declared : option Z) (actual : Z) : bool :=
  match declared with Some want => want =? actual | None => true end.

(** A side that is violated has a declared type, so the defaults are not taken. *)
Definition resolve_endpoint_direction (r : Relation) (from_actual to_actual : Z) (declared : DeclaredConstraints)
  : result EndpointDirection RelationOpError :=
  let from_ok := type_ok (dc_from_type declared) from_actual in
  let to_ok := type_ok (dc_to_type declared) to_actual in
  if from_ok && to_ok then Ok AsGiven else
  if match dc_from_type declared, dc_to_type declared with
     | Some want_from, Some want_to => (want_from =? to_actual) && (want_to =? from_actual)
     | _, _ => false
     end then Ok Swapped else
  if from_ok
  then Err (EndpointTypeViolation "to" (r_to_entity r) (default 0 (dc_to_type declared)) to_actual)
  else Err (EndpointTypeViolation "from" (r_from_entity r) (default 0 (dc_from_type declared)) from_actual).

Definition in_row_scope (scope : RowScope) (m : RelationMetadata) : bool :=
  (rm_namespace_id m =? sc_namespace_id scope) && bool_decide (rm_space_id_bytes m = sc_space_id_bytes scope).

(** ** Probes *)

Definition typed_table (db : RelDb) (outgoing : bool) : table :=
  if outgoing then EDGES (rd_edges db) else EDGES_REVERSE (rd_edges db).

Definition conflict_step (db : RelDb) (scope : RowScope) (new_id : Uuid) (out : list Uuid) (row : EdgeRow)
  : list Uuid :=
  let '(_, _, candidate, _) := row in
  if bool_decide (candidate = new_id) then out else
  match rd_relations db !! candidate with
  | None => out
  | Some meta =>
    if negb (in_row_scope scope meta) then out else
    if rel_is_current meta && negb (bool_decide (candidate ∈ out)) then out ++ [candidate] else out
  end.

Definition collect_typed_conflicts (db : RelDb) (scope : RowScope) (anchor : NodeRef) (rel_type : Z)
    (outgoing : bool) (new_id : Uuid) (out : list Uuid) : result (list Uuid) RelationOpError :=
  let? rows := map_err RelEdgeKey (range_scan (typed_table db outgoing) anchor (Some (Typed rel_type))) in
  Ok (fold_left (conflict_step db scope new_id) rows out).

Definition want_from (c : Cardinality) : bool := match c with ManyToOne | OneToOne => true | _ => false end.
Definition want_to (c : Cardinality) : bool := match c with OneToMany | OneToOne => true | _ => false end.

Definition find_cardinality_conflicts (db : RelDb) (scope : RowScope) (r : Relation) (c : Cardinality)
  : result (list Uuid) RelationOpError :=
  let? found :=
    if want_from c
    then collect_typed_conflicts db scope (NodeEntity (r_from_entity r)) (r_relation_type r) true (r_id r) []
    else Ok [] in
  if want_to c
  then collect_typed_conflicts db scope (NodeEntity (r_to_entity r)) (r_relation_type r) false (r_id r) found
  else Ok found.

(** The loop returns at the first hit, before it decodes what follows. *)
Fixpoint identical_loop (db : RelDb) (scope : RowScope) (r : Relation) (entries : list (bytes * EdgeData))
  : result (option Uuid) RelationOpError :=
  match entries with
  | [] => Ok None
  | (k, _) :: rest =>
    let? key := map_err RelEdgeKey (EdgeKey.decode k) in
    if negb (bool_decide (ek_from key = NodeEntity (r_from_entity r))) then identical_loop db scope r rest else
    if negb (bool_decide (ek_kind key = Typed (r_relation_type r))) then identical_loop db scope r rest else
    if negb (bool_decide (ek_to key = NodeEntity (r_to_entity r))) then identical_loop db scope r rest else
    let candidate := ek_disambiguator key in
    if bool_decide (candidate = r_id r) then identical_loop db scope r rest else
    match rd_relations db !! candidate with
    | None => identical_loop db scope r rest
    | Some meta =>
      if negb (in_row_scope scope meta) then identical_loop db scope r rest else
      if rel_is_current meta then Ok (Some candidate) else identical_loop db scope r rest
    end
  end.

Definition find_identical_active_relation (db : RelDb) (scope : RowScope) (r : Relation)
  : result (option Uuid) RelationOpError :=
  let '(lo, hi) := range_bounds (NodeEntity (r_from_entity r)) (Some (Typed (r_relation_type r))) in
  identical_loop db scope r (range (EDGES (rd_edges db)) lo hi).

(** ** Writes *)

(** [origin::AUTO_DERIVED], [derived_by::CLIENT]. *)
Definition relation_edge (now : Z) : EdgeData :=
  {| ed_weight := F32_ONE; ed_origin := 1; ed_derived_by := 0; ed_created_at := now; ed_annotation := None |}.

Definition relation_edges (t : EdgeTables) (r : Relation) (now : Z) : EdgeTables :=
  let from := NodeEntity (r_from_entity r) in
  let to := NodeEntity (r_to_entity r) in
  let t := link t from (Typed (r_relation_type r)) to (r_id r) (relation_edge now) in
  if r_is_symmetric r && negb (bool_decide (r_from_entity r = r_to_entity r))
  then link t to (Typed (r_relation_type r)) from (r_id r) (relation_edge now) else t.

Definition insert_new_relation (db : RelDb) (scope : RowScope) (session : Z) (r : Relation) (now : Z) : RelDb :=
  MkRelDb (relation_edges (rd_edges db) r now)
    (<[r_id r := metadata_from_relation r scope session]> (rd_relations db))
    (list_to_set (map (fun mem => (sc_namespace_id scope, sc_space_id_bytes scope, MemoryId.to_be mem, r_id r))
                    (r_evidence r)) ∪ rd_evidence db)
    (rd_entities db) (rd_types db).

Definition relation_supersede (db : RelDb) (scope : RowScope) (session : Z) (old_id : Uuid) (new : Relation) (now : Z)
  : result (RelDb * Uuid) RelationOpError :=
  if negb (confidence_ok (r_confidence new)) then Err bad_confidence else
  match rd_relations db !! old_id with
  | None => Err (RelNotFound old_id)
  | Some old =>
    if negb (in_row_scope scope old) then Err (RelNotFound old_id) else
    if rel_is_tombstoned old then Err (AlreadyTombstoned old_id) else
    match rm_superseded_by old with
    | Some succ => Err (AlreadySuperseded old_id succ)
    | None =>
      if negb (rm_relation_type_id old =? r_relation_type new) then
        Err (TypeMismatch (rm_relation_type_id old) (r_relation_type new)) else
      match rd_relations db !! r_id new with
      | Some _ => Err (RelAlreadyExists (r_id new))
      | None =>
        let chain_root := match rm_supersedes old with None => old_id | Some _ => rm_chain_root_bytes old end in
        let new := chained new (sat_add32 (rm_version old) 1) old_id chain_root (rel_is_symmetric old) in
        let valid_to := match rm_valid_to old with None => Some (r_extracted_at new) | v => v end in
        let old := rel_update old valid_to (Some (r_id new)) (rm_tombstoned old) (rm_tombstoned_at old) in
        Ok (insert_new_relation (put_relation old_id old db) scope session new now, r_id new)
      end
    end
  end.

(** The relation as it is stored: endpoints the right way round, and in order when
    the type is symmetric. *)
Definition oriented (r : Relation) (d : EndpointDirection) (is_symmetric : bool) : Relation :=
  let '(from, to) := match d with
    | AsGiven => (r_from_entity r, r_to_entity r)
    | Swapped => (r_to_entity r, r_from_entity r)
    end in
  let '(from, to) := if is_symmetric then canonical_pair from to else (from, to) in
  with_endpoints r from to is_symmetric.

Definition relation_create (db : RelDb) (scope : RowScope) (session : Z) (r : Relation) (now : Z)
  : result (RelDb * Uuid) RelationOpError :=
  if negb (confidence_ok (r_confidence r)) then Err bad_confidence else
  let? from_type := require_entity_exists db (r_from_entity r) in
  let? to_type := require_entity_exists db (r_to_entity r) in
  let? declared := lookup_type db (r_relation_type r) in
  let? direction := resolve_endpoint_direction r from_type to_type declared in
  match rd_relations db !! r_id r with
  | Some _ => Err (RelAlreadyExists (r_id r))
  | None =>
    let r := oriented r direction (dc_is_symmetric declared) in
    let? existing := find_identical_active_relation db scope r in
    match existing with
    | Some id => Ok (db, id)
    | None =>
      let? conflicting := find_cardinality_conflicts db scope r (dc_cardinality declared) in
      match conflicting with
      | [] => Ok (insert_new_relation db scope session r now, r_id r)
      | [old_id] => relation_supersede db scope session old_id r now
      | _ => Err (CardinalityViolation (dc_cardinality declared) (length conflicting))
      end
    end
  end.

Definition relation_tombstone (db : RelDb) (id : Uuid) (now : Z) : result RelDb RelationOpError :=
  match rd_relations db !! id with
  | None => Err (RelNotFound id)
  | Some row =>
    if rel_is_tombstoned row then Ok db else
    Ok (put_relation id (rel_update row (rm_valid_to row) (rm_superseded_by row) 1 (Some now)) db)
  end.

(** ** Reads *)

Record RelationListFilter := { lf_relation_type : option Z; lf_current_only : bool; lf_limit : nat }.

Definition DEFAULT_LIST_LIMIT : nat := 1000.

Fixpoint list_loop (db : RelDb) (scope : RowScope) (f : RelationListFilter) (cap : nat) (rows : list EdgeRow)
    (out : list Relation) : list Relation :=
  match rows with
  | [] => out
  | (kind, _, dis, _) :: rows =>
    match kind, rd_relations db !! dis with
    | Typed _, Some meta =>
      if negb (in_row_scope scope meta) then list_loop db scope f cap rows out else
      if lf_current_only f && negb (rel_is_current meta) then list_loop db scope f cap rows out else
      if match lf_relation_type f with Some want => negb (rm_relation_type_id meta =? want) | None => false end
      then list_loop db scope f cap rows out else
      let out := out ++ [relation_from_metadata dis meta] in
      if (cap <=? length out)%nat then out else list_loop db scope f cap rows out
    | _, _ => list_loop db scope f cap rows out
    end
  end.

Definition list_directional (db : RelDb) (scope : RowScope) (entity : Uuid) (f : RelationListFilter) (outgoing : bool)
  : result (list Relation) RelationOpError :=
  let cap := if (lf_limit f =? 0)%nat then DEFAULT_LIST_LIMIT else Nat.min (lf_limit f) DEFAULT_LIST_LIMIT in
  let kind_filter := Typed <$> lf_relation_type f in
  let? rows := map_err RelEdgeKey
    (if outgoing then walk_outgoing (rd_edges db) (NodeEntity entity) kind_filter
     else walk_incoming (rd_edges db) (NodeEntity entity) kind_filter) in
  Ok (list_loop db scope f cap rows []).

Definition relation_list_from (db : RelDb) (scope : RowScope) (entity : Uuid) (f : RelationListFilter) :=
  list_directional db scope entity f true.
Definition relation_list_to (db : RelDb) (scope : RowScope) (entity : Uuid) (f : RelationListFilter) :=
  list_directional db scope entity f false.

Definition relation_get (db : RelDb) (id : Uuid) : option Relation :=
  relation_from_metadata id <$> rd_relations db !! id.

(** A stable sort by version of the rows in key order. *)
Definition version_le (x y : Relation) : Prop :=
  r_version x < r_version y \/ r_version x = r_version y /\ bytes_le (r_id x) (r_id y).
#[global] Instance version_le_dec x y : Decision (version_le x y).
Proof. unfold version_le. apply _. Defined.

Definition relation_history (db : RelDb) (anchor : Uuid) : result (list Relation) RelationOpError :=
  match rd_relations db !! anchor with
  | None => Err (RelNotFound anchor)
  | Some a =>
    Ok (merge_sort version_le
      (map (fun km => relation_from_metadata km.1 km.2)
        (filter (fun km => rm_chain_root_bytes km.2 = rm_chain_root_bytes a
                           /\ in_row_scope (rel_scope a) km.2 = true) (map_to_list (rd_relations db)))))
  end.

(** ** Phases *)

Record UpsertRelation := {
  ur_id : Uuid;
  ur_type : Z;
  ur_session : Z;
  ur_from : Uuid;
  ur_to : Uuid;
  ur_confidence : Z;
  ur_evidence : list MemoryId;
  ur_is_symmetric : bool;
  ur_extractor : Z;
  ur_extracted_at : Z;
  ur_properties_blob : bytes;
  ur_valid_from : option Z;
  ur_valid_to : option Z;
}.

(** [ApplyError]: not found, or [Metadata] with the error as text. *)
Inductive RelationApplyError := GuardNotFound (id : Uuid) | RelationOp (e : RelationOpError).

Definition relation_scope_guard (db : RelDb) (id : Uuid) (scope : RowScope) : result unit RelationApplyError :=
  match rd_relations db !! id with
  | Some m => if in_row_scope scope m then Ok tt else Err (GuardNotFound id)
  | None => Err (GuardNotFound id)
  end.

Definition upsert_relation_row (u : UpsertRelation) : Relation :=
  with_details (new_root (ur_id u) (ur_type u) (ur_from u) (ur_to u) (ur_confidence u) (ur_evidence u)
    (ur_extractor u) (ur_extracted_at u) (ur_is_symmetric u)) (ur_properties_blob u) (ur_valid_from u) (ur_valid_to u).

(** The type is resolved; the acknowledgement names the id of the request. *)
Definition apply_upsert_relation (db : RelDb) (scope : RowScope) (u : UpsertRelation)
  : result (RelDb * (Uuid * Z)) RelationApplyError :=
  match relation_create db scope (ur_session u) (upsert_relation_row u) (ur_extracted_at u) with
  | Ok (db, _) => Ok (db, (ur_id u, 1))
  | Err e => Err (RelationOp e)
  end.

Definition apply_supersede_relation (db : RelDb) (scope : RowScope) (old_id : Uuid) (new : Relation) (at_ : Z)
  : result RelDb RelationApplyError :=
  let? _ := relation_scope_guard db old_id scope in
  match relation_supersede db scope 0 old_id new at_ with
  | Ok (db, _) => Ok db
  | Err e => Err (RelationOp e)
  end.

Definition apply_tombstone_relation (db : RelDb) (scope : RowScope) (id : Uuid) (at_ : Z)
  : result RelDb RelationApplyError :=
  let? _ := relation_scope_guard db id scope in
  match relation_tombstone db id at_ with Ok db => Ok db | Err e => Err (RelationOp e) end.
