(* ===== verification/RelationSpec.v ===== *)
(** What holds of typed relations: the edge tables index the sidecar exactly,
    listings are exact and confined to the tenant, supersession chains are
    linear histories, and declared cardinalities hold. *)

From stdpp Require Import gmap sorting.
From S2P Require Import Prelude Ids WalPayload EdgeTable MemoryTable Registry RelationTable.

(** ** Runs *)

Inductive RelOp :=
| OpUpsert (scope : RowScope) (u : UpsertRelation)
| OpSupersede (scope : RowScope) (old_id : Uuid) (new : Relation) (at_ : Z)
| OpTombstone (scope : RowScope) (id : Uuid) (at_ : Z).

(** A refused phase leaves the database. *)
Definition rel_step (db : RelDb) (op : RelOp) : RelDb :=
  match op with
  | OpUpsert scope u => match apply_upsert_relation db scope u with Ok (db', _) => db' | Err _ => db end
  | OpSupersede scope old_id new at_ =>
    match apply_supersede_relation db scope old_id new at_ with Ok db' => db' | Err _ => db end
  | OpTombstone scope id at_ => match apply_tombstone_relation db scope id at_ with Ok db' => db' | Err _ => db end
  end.

Definition rel_empty (entities : gmap bytes Z) (types : gmap Z RelationTypeDefinition) : RelDb :=
  MkRelDb {| EDGES := ∅; EDGES_REVERSE := ∅ |} ∅ ∅ entities types.
Definition rel_run (entities : gmap bytes Z) (types : gmap Z RelationTypeDefinition) (ops : list RelOp) : RelDb :=
  fold_left rel_step ops (rel_empty entities types).

(** Ids are UUIDs and type ids 32-bit. *)
Definition rel_op_ok (op : RelOp) : Prop :=
  match op with
  | OpUpsert _ u => uuid_ok (ur_id u) /\ uuid_ok (ur_from u) /\ uuid_ok (ur_to u) /\ u32 (ur_type u)
  | OpSupersede _ _ new _ =>
    uuid_ok (r_id new) /\ uuid_ok (r_from_entity new) /\ uuid_ok (r_to_entity new) /\ u32 (r_relation_type new)
  | OpTombstone _ _ _ => True
  end.

(** ** Rows and their edges *)

(** The edges that stand for a row. *)
Definition has_edge (id : Uuid) (m : RelationMetadata) (k : EdgeKey) : Prop :=
  ek_disambiguator k = id /\ ek_kind k = Typed (rm_relation_type_id m)
  /\ (ek_from k = NodeEntity (rm_from_bytes m) /\ ek_to k = NodeEntity (rm_to_bytes m)
      \/ rel_is_symmetric m = true /\ ek_from k = NodeEntity (rm_to_bytes m) /\ ek_to k = NodeEntity (rm_from_bytes m)).

Record rel_row_wf (id : Uuid) (m : RelationMetadata) : Prop := {
  rw_id16 : uuid_ok id;
  rw_from16 : uuid_ok (rm_from_bytes m);
  rw_to16 : uuid_ok (rm_to_bytes m);
  rw_type32 : u32 (rm_relation_type_id m);
  rw_tags : rm_from_tag m = 1 /\ rm_to_tag m = 1;
  rw_current : rel_is_current m = negb (rel_is_tombstoned m) && bool_decide (rm_superseded_by m = None);
}.

Definition same_scope (m m' : RelationMetadata) : Prop :=
  rm_namespace_id m = rm_namespace_id m' /\ rm_space_id_bytes m = rm_space_id_bytes m'.

(** A chain is linked both ways, and its versions count its links. *)
Record chain_ok (rows : gmap bytes RelationMetadata) (id : Uuid) (m : RelationMetadata) : Prop := {
  ch_root : rm_supersedes m = None -> rm_version m = 1 /\ rm_chain_root_bytes m = id;
  ch_pred o : rm_supersedes m = Some o -> exists mo, rows !! o = Some mo /\ rm_superseded_by mo = Some id
    /\ rm_version m = rm_version mo + 1 /\ rm_chain_root_bytes m = rm_chain_root_bytes mo /\ same_scope m mo
    /\ rm_relation_type_id m = rm_relation_type_id mo;
  ch_succ n : rm_superseded_by m = Some n -> exists mn, rows !! n = Some mn /\ rm_supersedes mn = Some id;
}.

(** The rows, their edges and their bounds. *)
Record rel_base (n : Z) (db : RelDb) : Prop := {
  rl_tables : tables_ok (rd_edges db);
  rl_edges k : EdgeKey.wf k -> is_Some (EDGES (rd_edges db) !! EdgeKey.encode k) <->
    exists m, rd_relations db !! ek_disambiguator k = Some m /\ has_edge (ek_disambiguator k) m k;
  rl_rows id m : rd_relations db !! id = Some m -> rel_row_wf id m;
  rl_versions id m : rd_relations db !! id = Some m -> 1 <= rm_version m <= n;
  rl_symmetric id m : rd_relations db !! id = Some m -> exists d,
    lookup_type db (rm_relation_type_id m) = Ok d /\ rel_is_symmetric m = dc_is_symmetric d;
}.

Record rel_ok (n : Z) (db : RelDb) : Prop := {
  rl_base : rel_base n db;
  rl_chains id m : rd_relations db !! id = Some m -> chain_ok (rd_relations db) id m;
}.

Lemma typed_touched t from to dis x : touched (key from (Typed t) to dis) x <-> x = key from (Typed t) to dis.
Proof. unfold touched. cbn. split; [intros [?|[? _]]; done|by left]. Qed.

Lemma typed_link t ty from to dis d :
  tables_ok t -> EdgeKey.wf (key from (Typed ty) to dis) ->
  tables_ok (link t from (Typed ty) to dis d)
  /\ forall x, EdgeKey.wf x -> is_Some (EDGES (link t from (Typed ty) to dis d) !! EdgeKey.encode x) <->
       x = key from (Typed ty) to dis \/ is_Some (EDGES t !! EdgeKey.encode x).
Proof.
  intros Ht Hk. split; [by apply (link_ok t (key from (Typed ty) to dis))|]. intros x Hx.
  destruct (link_lookup t (key from (Typed ty) to dis) x d Hk Hx) as [E _]. cbn [ek_from ek_kind ek_to ek_disambiguator key] in E.
  rewrite E. pose proof (typed_touched ty from to dis x) as Hto. destruct (decide (touched _ _)) as [H|H]; [|tauto].
  split; [intros _; left; by apply Hto|by eexists].
Qed.

Lemma entity_key_wf from ty to dis :
  uuid_ok from -> uuid_ok to -> u32 ty -> uuid_ok dis ->
  EdgeKey.wf (key (NodeEntity from) (Typed ty) (NodeEntity to) dis).
Proof. by split. Qed.

Lemma relation_edges_spec t r scope session now :
  tables_ok t -> uuid_ok (r_from_entity r) -> uuid_ok (r_to_entity r) -> u32 (r_relation_type r) -> uuid_ok (r_id r) ->
  tables_ok (relation_edges t r now)
  /\ forall x, EdgeKey.wf x -> is_Some (EDGES (relation_edges t r now) !! EdgeKey.encode x) <->
       has_edge (r_id r) (metadata_from_relation r scope session) x \/ is_Some (EDGES t !! EdgeKey.encode x).
Proof.
  intros Ht Hf Hto Hty Hid. unfold relation_edges.
  destruct (typed_link t (r_relation_type r) (NodeEntity (r_from_entity r)) (NodeEntity (r_to_entity r)) (r_id r)
    (relation_edge now) Ht (entity_key_wf _ _ _ _ Hf Hto Hty Hid)) as [Ht1 H1].
  set (t1 := link t _ _ _ _ _) in *.
  destruct (typed_link t1 (r_relation_type r) (NodeEntity (r_to_entity r)) (NodeEntity (r_from_entity r)) (r_id r)
    (relation_edge now) Ht1 (entity_key_wf _ _ _ _ Hto Hf Hty Hid)) as [Ht2 H2].
  assert (forall x a b, x = key (NodeEntity a) (Typed (r_relation_type r)) (NodeEntity b) (r_id r) <->
    ek_disambiguator x = r_id r /\ ek_kind x = Typed (r_relation_type r) /\ ek_from x = NodeEntity a /\ ek_to x = NodeEntity b) as Hx.
  { intros [] a b. unfold key. cbn. naive_solver. }
  assert (rel_is_symmetric (metadata_from_relation r scope session) = r_is_symmetric r) as Hs
    by (unfold rel_is_symmetric; cbn; by destruct (r_is_symmetric r)).
  destruct (r_is_symmetric r && negb (bool_decide (r_from_entity r = r_to_entity r))) eqn:E.
  - apply andb_prop in E as [Esym _]. split; [done|]. intros x Hwx. rewrite H2, H1, !Hx by done. unfold has_edge.
    rewrite Hs, Esym. cbn [metadata_from_relation rm_relation_type_id rm_from_bytes rm_to_bytes]. naive_solver.
  - split; [done|]. intros x Hwx. rewrite H1, Hx by done. unfold has_edge. rewrite Hs.
    cbn [metadata_from_relation rm_relation_type_id rm_from_bytes rm_to_bytes].
    destruct (r_is_symmetric r); [|naive_solver]. apply negb_false_iff, bool_decide_eq_true in E. rewrite E. naive_solver.
Qed.

(** ** Preservation *)

(** What later writes leave of a row. *)
Record row_grows (m m' : RelationMetadata) : Prop := {
  rg_scope : same_scope m' m;
  rg_type : rm_relation_type_id m' = rm_relation_type_id m;
  rg_from : rm_from_bytes m' = rm_from_bytes m;
  rg_to : rm_to_bytes m' = rm_to_bytes m;
  rg_sym : rm_is_symmetric m' = rm_is_symmetric m;
  rg_version : rm_version m' = rm_version m;
  rg_root : rm_chain_root_bytes m' = rm_chain_root_bytes m;
  rg_pred : rm_supersedes m' = rm_supersedes m;
  rg_succ x : rm_superseded_by m = Some x -> rm_superseded_by m' = Some x;
}.

#[global] Instance row_grows_refl : Reflexive row_grows.
Proof. intros m. by split. Qed.

Definition rows_grow (rows rows' : gmap bytes RelationMetadata) : Prop :=
  forall id m, rows !! id = Some m -> exists m', rows' !! id = Some m' /\ row_grows m m'.

Lemma chain_ok_grow rows rows' id m : chain_ok rows id m -> rows_grow rows rows' -> chain_ok rows' id m.
Proof.
  intros [H1 H2 H3] Hg. split; [done| |].
  - intros o (mo & Ho & Hs & Hv & Hr & [Hsc Hsc'] & Ht)%H2. apply Hg in Ho as (mo' & Ho & [[Hg1 Hg2] ? ? ? ? ? ? ? Hsu]).
    exists mo'. split_and!; [done|by apply Hsu|congruence|congruence|split; congruence|congruence].
  - intros n (mn & Hn & Hs)%H3. apply Hg in Hn as (mn' & Hn & [? ? ? ? ? ? ? Hp ?]). exists mn'. by rewrite Hp.
Qed.

Lemma grows_has_edge id m m' k : row_grows m m' -> has_edge id m' k <-> has_edge id m k.
Proof. intros [? Ht Hf Hto Hs ? ? ? ?]. unfold has_edge, rel_is_symmetric. by rewrite Ht, Hf, Hto, Hs. Qed.

Lemma rel_update_grows m valid_to succ tomb tomb_at :
  (forall x, rm_superseded_by m = Some x -> succ = Some x) -> row_grows m (rel_update m valid_to succ tomb tomb_at).
Proof. intros H. by split. Qed.

Lemma rel_update_wf id m valid_to succ tomb tomb_at :
  rel_row_wf id m -> succ <> None \/ tomb = 1 -> rel_row_wf id (rel_update m valid_to succ tomb tomb_at).
Proof.
  intros [] H. split; try done. unfold rel_is_current, rel_is_tombstoned. cbn.
  destruct H as [Hs| ->]; [|done]. rewrite (bool_decide_false _ Hs). by rewrite andb_false_r.
Qed.

Lemma grow_put (rows : gmap bytes RelationMetadata) id m m' :
  rows !! id = Some m -> row_grows m m' -> rows_grow rows (<[id := m']> rows).
Proof.
  intros Hm Hg id' m1 H1. destruct (decide (id = id')) as [<-|].
  - exists m'. rewrite lookup_insert_eq. split; [done|]. by assert (m1 = m) as -> by congruence.
  - exists m1. by rewrite lookup_insert_ne.
Qed.

Lemma grow_new (rows : gmap bytes RelationMetadata) id m : rows !! id = None -> rows_grow rows (<[id := m]> rows).
Proof. intros Hn id' m1 H1. exists m1. rewrite lookup_insert_ne by congruence. done. Qed.

(** A row is overwritten with one that has grown. *)
Lemma rel_base_put n db id m m' :
  rel_base n db -> rd_relations db !! id = Some m -> row_grows m m' -> rel_row_wf id m' ->
  rel_base n (put_relation id m' db).
Proof.
  intros [Ht He Hr Hv Hs] Hm Hg Hwf. split; cbn [put_relation rd_edges rd_relations]; [done|..].
  - intros k Hk. rewrite He by done. destruct (decide (ek_disambiguator k = id)) as [E|Hne].
    + rewrite E, lookup_insert_eq, Hm. split; intros (x & [= <-] & Hx); eexists; (split; [done|]); by apply (grows_has_edge _ m m' k Hg).
    + by rewrite lookup_insert_ne by done.
  - intros id' x [[<- <-]|[_ H]]%lookup_insert_Some; [done|by apply Hr].
  - intros id' x [[<- <-]|[_ H]]%lookup_insert_Some; [rewrite (rg_version _ _ Hg); by apply (Hv id m)|by apply (Hv id' x)].
  - intros id' x [[<- <-]|[_ H]]%lookup_insert_Some; [|by apply (Hs id' x)].
    unfold rel_is_symmetric. rewrite (rg_type _ _ Hg), (rg_sym _ _ Hg). by apply (Hs id m).
Qed.

Lemma rel_ok_tombstone n db id m valid_to tomb_at :
  rel_ok n db -> rd_relations db !! id = Some m ->
  rel_ok n (put_relation id (rel_update m valid_to (rm_superseded_by m) 1 tomb_at) db).
Proof.
  intros [Hb Hc] Hm. set (m' := rel_update m valid_to (rm_superseded_by m) 1 tomb_at).
  assert (row_grows m m') as Hg by by apply rel_update_grows.
  split; [eapply rel_base_put; try done; apply rel_update_wf; [by apply (rl_rows _ _ Hb)|by right]|].
  pose proof (grow_put _ id m m' Hm Hg) as Hgr. cbn [put_relation rd_relations].
  intros id' x [[<- <-]|[_ H]]%lookup_insert_Some; [|by eapply chain_ok_grow; [apply Hc|]].
  destruct (chain_ok_grow _ _ _ _ (Hc _ _ Hm) Hgr) as [H1 H2 H3]. by split.
Qed.

(** The replacement of a row by a new version, or with [old] absent a first version. *)
Definition first_version (r : Relation) : Prop :=
  r_supersedes r = None /\ r_superseded_by r = None /\ r_version r = 1 /\ r_chain_root r = r_id r.

Record rel_fits (db : RelDb) (r : Relation) : Prop := {
  rf_id : uuid_ok (r_id r);
  rf_from : uuid_ok (r_from_entity r);
  rf_to : uuid_ok (r_to_entity r);
  rf_type : u32 (r_relation_type r);
  rf_sym : exists d, lookup_type db (r_relation_type r) = Ok d /\ r_is_symmetric r = dc_is_symmetric d;
}.

Lemma metadata_wf db r scope session :
  rel_fits db r -> rel_row_wf (r_id r) (metadata_from_relation r scope session).
Proof.
  intros []. split; try done. unfold rel_is_current, rel_is_tombstoned. cbn.
  by destruct (r_tombstoned r), (bool_decide (r_superseded_by r = None)).
Qed.

Lemma metadata_sym r scope session : rel_is_symmetric (metadata_from_relation r scope session) = r_is_symmetric r.
Proof. unfold rel_is_symmetric. cbn. by destruct (r_is_symmetric r). Qed.

Lemma rel_base_insert n n' db scope session r now :
  rel_base n db -> n <= n' -> 1 <= r_version r <= n' -> rel_fits db r -> rd_relations db !! r_id r = None ->
  rel_base n' (insert_new_relation db scope session r now).
Proof.
  intros [Ht He Hr Hv Hs] Hn Hver Hfit Hnew. pose proof Hfit as [Hid Hf Hto Hty Hsym].
  destruct (relation_edges_spec (rd_edges db) r scope session now Ht Hf Hto Hty Hid) as [Ht' He'].
  split; cbn [insert_new_relation rd_edges rd_relations].
  - done.
  - intros k Hk. rewrite He', He by done. destruct (decide (ek_disambiguator k = r_id r)) as [E|Hne].
    + rewrite E, lookup_insert_eq, Hnew. split; [|intros (m & [= <-] & H); by left].
      intros [H|(m & [=] & _)]. by eexists.
    + rewrite lookup_insert_ne by done. split; [|by right]. intros [(E & _)|H]; [by rewrite E in Hne|done].
  - intros id m [[<- <-]|[_ H]]%lookup_insert_Some; [by eapply metadata_wf|by apply Hr].
  - intros id m [[<- <-]|[_ H]]%lookup_insert_Some; [done|]. pose proof (Hv id m H). lia.
  - intros id m [[<- <-]|[_ H]]%lookup_insert_Some; [by rewrite metadata_sym|by apply (Hs id m)].
Qed.

Lemma rel_ok_create n db scope session r now :
  rel_ok n db -> 1 <= n -> rel_fits db r -> first_version r -> rd_relations db !! r_id r = None ->
  rel_ok n (insert_new_relation db scope session r now).
Proof.
  intros Hok Hn Hfit (H1 & H2 & H3 & H4) Hnew. pose proof (grow_new _ _ (metadata_from_relation r scope session) Hnew) as Hg.
  destruct Hok as [Hb Hc]. split; [eapply rel_base_insert; try done; lia|].
  cbn [insert_new_relation rd_relations].
  intros id m [[<- <-]|[_ Hm]]%lookup_insert_Some; [|by eapply chain_ok_grow; [apply Hc|]].
  split; cbn; [done|congruence|congruence].
Qed.

(** A replacement is linked with what it replaces. *)
Lemma supersede_chains rows old_id old old' new_id new :
  (forall id m, rows !! id = Some m -> chain_ok rows id m) -> rows !! old_id = Some old -> rows !! new_id = None ->
  row_grows old old' -> rm_superseded_by old' = Some new_id ->
  rm_supersedes new = Some old_id -> rm_superseded_by new = None -> rm_version new = rm_version old + 1 ->
  rm_chain_root_bytes new = rm_chain_root_bytes old -> same_scope new old ->
  rm_relation_type_id new = rm_relation_type_id old ->
  forall id m, <[new_id := new]> (<[old_id := old']> rows) !! id = Some m ->
    chain_ok (<[new_id := new]> (<[old_id := old']> rows)) id m.
Proof.
  intros Hc Hold Hnew Hg Hs' Hp Hs Hv Hr Hsc Hty. set (rows' := <[new_id := new]> (<[old_id := old']> rows)).
  assert (new_id <> old_id) as Hne by congruence.
  assert (rows_grow rows rows') as Hgr.
  { intros id m Hm. destruct (decide (id = old_id)) as [->|Hno].
    - exists old'. unfold rows'. rewrite lookup_insert_ne, lookup_insert_eq by done. split; [done|].
      by assert (m = old) as -> by congruence.
    - exists m. unfold rows'. rewrite !lookup_insert_ne by congruence. done. }
  assert (rows' !! old_id = Some old') as Hold' by (unfold rows'; by rewrite lookup_insert_ne, lookup_insert_eq).
  assert (rows' !! new_id = Some new) as Hnew' by (unfold rows'; by rewrite lookup_insert_eq).
  intros id m Hm. unfold rows' in Hm. apply lookup_insert_Some in Hm as [[<- <-]|[_ [[<- <-]|[_ Hm]]%lookup_insert_Some]].
  - split; [congruence| |congruence]. intros o [= <-]%(eq_trans (eq_sym Hp)). exists old'.
    destruct Hg as [[Hg1 Hg2] Hgt ? ? ? Hgv Hgr' ? ?]. destruct Hsc. split_and!; try done; try congruence. split; congruence.
  - destruct (chain_ok_grow _ rows' _ _ (Hc _ _ Hold) Hgr) as [H1 H2 _]. destruct Hg as [[Hg1 Hg2] Hgt ? ? ? Hgv Hgr' Hgp ?]. split.
    + rewrite Hgp, Hgv, Hgr'. done.
    + rewrite Hgp. intros o (mo & Ho & Hso & Hvo & Hro & [? ?] & Hto)%H2. exists mo.
      split_and!; [done|done|congruence|congruence|split; congruence|congruence].
    + intros x. rewrite Hs'. intros [= <-]. by exists new.
  - by eapply chain_ok_grow; [apply Hc|].
Qed.

Lemma in_row_scope_eq scope m : in_row_scope scope m = true <->
  rm_namespace_id m = sc_namespace_id scope /\ rm_space_id_bytes m = sc_space_id_bytes scope.
Proof. unfold in_row_scope. by rewrite andb_true_iff, Z.eqb_eq, bool_decide_eq_true. Qed.

(** What a supersession that is accepted has found and written. *)
Lemma supersede_inv db scope session old_id new now db' id' :
  relation_supersede db scope session old_id new now = Ok (db', id') ->
  exists old old' r, rd_relations db !! old_id = Some old /\ in_row_scope scope old = true
    /\ rel_is_tombstoned old = false /\ rm_superseded_by old = None /\ rm_relation_type_id old = r_relation_type new
    /\ rd_relations db !! r_id new = None
    /\ r = chained new (sat_add32 (rm_version old) 1) old_id
          (match rm_supersedes old with None => old_id | Some _ => rm_chain_root_bytes old end) (rel_is_symmetric old)
    /\ (exists valid_to, old' = rel_update old valid_to (Some (r_id new)) (rm_tombstoned old) (rm_tombstoned_at old))
    /\ db' = insert_new_relation (put_relation old_id old' db) scope session r now /\ id' = r_id new.
Proof.
  unfold relation_supersede. case_match; [done|]. destruct (rd_relations db !! old_id) as [old|] eqn:Eo; [|done].
  destruct (in_row_scope scope old) eqn:Es; [|done]. cbn [negb]. destruct (rel_is_tombstoned old) eqn:Et; [done|].
  destruct (rm_superseded_by old) eqn:Esb; [done|]. case_match eqn:Ety; [done|]. apply negb_false_iff, Z.eqb_eq in Ety.
  destruct (rd_relations db !! r_id new) eqn:En; [done|]. intros E. apply Ok_inj, pair_eq in E as [<- <-].
  eexists _, _, _. split_and!; try done. by eexists.
Qed.

Lemma rel_ok_supersede n db scope session old_id new now db' id' :
  rel_ok n db -> n < U32_MAX -> uuid_ok (r_id new) -> uuid_ok (r_from_entity new) -> uuid_ok (r_to_entity new) ->
  u32 (r_relation_type new) -> relation_supersede db scope session old_id new now = Ok (db', id') -> rel_ok (n + 1) db'.
Proof.
  intros [Hb Hc] Hn Hid Hf Hto Hty
    (old & old' & r & Hold & Hsc & Htomb & Hsb & Hoty & Hnew & -> & (valid_to & ->) & -> & ->)%supersede_inv.
  set (old' := rel_update old valid_to _ _ _). set (r := chained new _ _ _ _).
  assert (row_grows old old') as Hg by (apply rel_update_grows; intros x; by rewrite Hsb).
  pose proof (rl_versions _ _ Hb _ _ Hold) as Hv. pose proof (Hc _ _ Hold) as [Hroot _ _].
  assert (sat_add32 (rm_version old) 1 = rm_version old + 1) as Ev by (unfold sat_add32; lia).
  assert (rel_fits (put_relation old_id old' db) r) as Hfit.
  { split; try done. cbn. destruct (rl_symmetric _ _ Hb _ _ Hold) as (d & Hd & Es). exists d. by rewrite <- Hoty. }
  assert (new_id_fresh : rd_relations (put_relation old_id old' db) !! r_id r = None)
    by (cbn; rewrite lookup_insert_ne by congruence; done).
  split.
  - eapply rel_base_insert; [|apply Z.le_succ_diag_r|cbn; lia|done|done].
    eapply rel_base_put; [done|done|done|]. apply rel_update_wf; [by apply (rl_rows _ _ Hb)|by left].
  - eapply supersede_chains; try done; cbn.
    + destruct (rm_supersedes old) eqn:Ep; [done|]. by destruct (Hroot eq_refl).
    + apply in_row_scope_eq in Hsc as [? ?]. by split.
Qed.

Lemma canonical_pair_ok a b from to : canonical_pair a b = (from, to) -> from = a /\ to = b \/ from = b /\ to = a.
Proof. unfold canonical_pair. case_decide; intros [= <- <-]; auto. Qed.

(** The ends of a relation are the ends it was given. *)
Lemma oriented_ends r d sym :
  r_from_entity (oriented r d sym) = r_from_entity r /\ r_to_entity (oriented r d sym) = r_to_entity r
  \/ r_from_entity (oriented r d sym) = r_to_entity r /\ r_to_entity (oriented r d sym) = r_from_entity r.
Proof.
  unfold oriented. destruct d, sym; cbn; auto; destruct (canonical_pair _ _) as [from to] eqn:E; cbn;
    apply canonical_pair_ok in E; tauto.
Qed.

Lemma oriented_rest r d sym : let r' := oriented r d sym in
  r_id r' = r_id r /\ r_relation_type r' = r_relation_type r /\ r_is_symmetric r' = sym
  /\ r_supersedes r' = r_supersedes r /\ r_superseded_by r' = r_superseded_by r /\ r_version r' = r_version r
  /\ r_chain_root r' = r_chain_root r /\ r_tombstoned r' = r_tombstoned r.
Proof.
  cbv zeta. unfold oriented. destruct d, sym; try done; by destruct (canonical_pair _ _).
Qed.

(** What a creation that is accepted has checked. *)
Lemma relation_create_inv db scope session r now db' id' :
  relation_create db scope session r now = Ok (db', id') ->
  exists d dir, lookup_type db (r_relation_type r) = Ok d /\ rd_relations db !! r_id r = None
    /\ let r' := oriented r dir (dc_is_symmetric d) in
       (db' = db /\ find_identical_active_relation db scope r' = Ok (Some id')
        \/ find_identical_active_relation db scope r' = Ok None
           /\ (find_cardinality_conflicts db scope r' (dc_cardinality d) = Ok []
               /\ db' = insert_new_relation db scope session r' now /\ id' = r_id r
               \/ exists old_id, find_cardinality_conflicts db scope r' (dc_cardinality d) = Ok [old_id]
                  /\ relation_supersede db scope session old_id r' now = Ok (db', id'))).
Proof.
  unfold relation_create. case_match; [done|]. destruct (require_entity_exists db (r_from_entity r)); [|done].
  destruct (require_entity_exists db (r_to_entity r)); [|done].
  destruct (lookup_type db (r_relation_type r)) as [d|] eqn:Ed; [|done].
  destruct (resolve_endpoint_direction _ _ _ _) as [dir|]; [|done].
  destruct (rd_relations db !! r_id r) eqn:En; [done|]. set (r' := oriented r dir (dc_is_symmetric d)).
  destruct (find_identical_active_relation db scope r') as [[existing|]|] eqn:Ei; [| |done].
  - intros E. apply Ok_inj, pair_eq in E as [<- <-]. exists d, dir. split_and!; [done|done|]. by left.
  - destruct (find_cardinality_conflicts db scope r' (dc_cardinality d)) as [[|c [|c' cs]]|] eqn:Ec; [| |done|done].
    + intros E. apply Ok_inj, pair_eq in E as [<- <-]. exists d, dir. split_and!; [done|done|]. right. split; [done|].
      left. split_and!; [done|done|]. apply oriented_rest.
    + intros E. exists d, dir. split_and!; [done|done|]. right. split; [done|]. right. by exists c.
Qed.

Lemma rel_ok_weaken n n' db : rel_ok n db -> n <= n' -> rel_ok n' db.
Proof.
  intros [[Ht He Hr Hv Hs] Hc] Hn. split; [split; try done|done]. intros id m Hm. specialize (Hv id m Hm). lia.
Qed.

Lemma oriented_fits db r d dir :
  lookup_type db (r_relation_type r) = Ok d -> uuid_ok (r_id r) -> uuid_ok (r_from_entity r) -> uuid_ok (r_to_entity r) ->
  u32 (r_relation_type r) -> rel_fits db (oriented r dir (dc_is_symmetric d)).
Proof.
  intros Hd Hid Hf Hto Hty. destruct (oriented_rest r dir (dc_is_symmetric d)) as (E1 & E2 & E3 & _).
  destruct (oriented_ends r dir (dc_is_symmetric d)) as [[Ea Eb]|[Ea Eb]]; split; rewrite ?E1, ?E2, ?E3, ?Ea, ?Eb; eauto.
Qed.

Lemma rel_ok_step n db op : rel_ok n db -> 1 <= n < U32_MAX -> rel_op_ok op -> rel_ok (n + 1) (rel_step db op).
Proof.
  intros Hok Hn Hop. assert (rel_ok (n + 1) db) as Hsame by (eapply rel_ok_weaken; [done|lia]).
  destruct op as [scope u|scope old_id new at_|scope id at_]; cbn [rel_step].
  - unfold apply_upsert_relation. destruct (relation_create _ _ _ _ _) as [[db' id']|] eqn:E; [|done].
    destruct Hop as (Hid & Hf & Hto & Hty).
    apply relation_create_inv in E as (d & dir & Hd & Hnew & [[-> _]|[_ [(_ & -> & _)|(old_id & _ & E)]]]); [done| |].
    + eapply rel_ok_weaken; [|apply Z.le_succ_diag_r]. apply rel_ok_create; [done|lia|by apply oriented_fits| |].
      * destruct (oriented_rest (upsert_relation_row u) dir (dc_is_symmetric d)) as (E1 & _ & _ & E4 & E5 & E6 & E7 & _).
        by split_and!; [rewrite E4|rewrite E5|rewrite E6|rewrite E7, E1].
      * by destruct (oriented_rest (upsert_relation_row u) dir (dc_is_symmetric d)) as [-> _].
    + assert (rel_fits db (oriented (upsert_relation_row u) dir (dc_is_symmetric d))) as [] by by apply oriented_fits.
      eapply rel_ok_supersede; try done; lia.
  - unfold apply_supersede_relation. destruct (relation_scope_guard db old_id scope); [|done].
    destruct (relation_supersede _ _ _ _ _ _) as [[db' id']|] eqn:E; [|done]. destruct Hop as (? & ? & ? & ?).
    eapply rel_ok_supersede; try done; lia.
  - unfold apply_tombstone_relation. destruct (relation_scope_guard db id scope); [|done]. unfold relation_tombstone.
    destruct (rd_relations db !! id) as [row|] eqn:Er; [|done]. destruct (rel_is_tombstoned row); [done|].
    eapply rel_ok_weaken; [by apply rel_ok_tombstone|lia].
Qed.

Lemma rel_step_tables db op : rd_types (rel_step db op) = rd_types db /\ rd_entities (rel_step db op) = rd_entities db.
Proof.
  assert (forall scope session old_id new now db' id', relation_supersede db scope session old_id new now = Ok (db', id') ->
    rd_types db' = rd_types db /\ rd_entities db' = rd_entities db) as Hs.
  { by intros * (old & old' & r & _ & _ & _ & _ & _ & _ & _ & _ & -> & _)%supersede_inv. }
  destruct op as [scope u|scope old_id new at_|scope id at_]; cbn [rel_step].
  - unfold apply_upsert_relation. destruct (relation_create _ _ _ _ _) as [[db' id']|] eqn:E; [|done].
    apply relation_create_inv in E as (d & dir & _ & _ & [[-> _]|[_ [(_ & -> & _)|(old_id & _ & E)]]]); [done..|]. by eapply Hs.
  - unfold apply_supersede_relation. destruct (relation_scope_guard db old_id scope); [|done].
    destruct (relation_supersede _ _ _ _ _ _) as [[db' id']|] eqn:E; [|done]. by eapply Hs.
  - unfold apply_tombstone_relation. destruct (relation_scope_guard db id scope); [|done]. unfold relation_tombstone.
    destruct (rd_relations db !! id) as [row|]; [|done]. by destruct (rel_is_tombstoned row).
Qed.

Lemma rel_ok_empty entities types : rel_ok 1 (rel_empty entities types).
Proof.
  split; [split|]; cbn [rel_empty rd_edges rd_relations]; try by intros *; rewrite lookup_empty.
  - apply tables_ok_empty.
  - intros k _. cbn [EDGES]. rewrite !lookup_empty. split; [by intros []|by intros (m & [=] & _)].
Qed.

Lemma rel_ok_steps ops db n :
  rel_ok n db -> 1 <= n -> Forall rel_op_ok ops -> n + Z.of_nat (length ops) <= U32_MAX ->
  rel_ok (n + Z.of_nat (length ops)) (fold_left rel_step ops db).
Proof.
  revert db n. induction ops as [|op ops IH]; intros db n Hok Hn Hops Hl; cbn [fold_left length] in *.
  - by rewrite Z.add_0_r.
  - apply Forall_cons in Hops as [Hop Hops]. rewrite Nat2Z.inj_succ in *.
    replace (n + Z.succ (Z.of_nat (length ops))) with (n + 1 + Z.of_nat (length ops)) by lia.
    apply IH; [apply rel_ok_step; [done|lia|done]|lia|done|lia].
Qed.

Lemma rel_run_ok entities types ops :
  Forall rel_op_ok ops -> Z.of_nat (length ops) < U32_MAX -> exists n, rel_ok n (rel_run entities types ops).
Proof. intros H Hl. eexists. apply rel_ok_steps; [apply rel_ok_empty|lia|done|lia]. Qed.

(** ** Histories *)

#[global] Instance version_le_total : Total version_le.
Proof.
  intros x y. unfold version_le. destruct (Z.lt_trichotomy (r_version x) (r_version y)) as [H|[H|H]]; [auto| |auto].
  destruct (total bytes_le (r_id x) (r_id y)); [left|right]; right; auto.
Qed.
#[global] Instance version_le_trans : Transitive version_le.
Proof.
  intros x y z. unfold version_le. intros [H|[H Hb]] [H'|[H' Hb']]; [left; lia..|].
  right. split; [lia|]. by etrans.
Qed.

Lemma seqZ_sorted m n : StronglySorted Z.lt (seqZ m n).
Proof.
  destruct (decide (n <= 0)); [rewrite seqZ_nil by lia; constructor|].
  revert m. generalize (Z.to_nat n), (Z2Nat.id n). intros k. intros E m. rewrite <- E by lia. clear.
  revert m. induction k as [|k IH]; intros m; [constructor|]. rewrite seqZ_cons by lia. constructor.
  - replace (Z.pred (Z.of_nat (S k))) with (Z.of_nat k) by lia. apply IH.
  - apply Forall_forall. intros x [? _]%elem_of_seqZ. lia.
Qed.

(** A strictly increasing list that starts at one and has no gaps. *)
Lemma counting_list (l : list Z) N :
  StronglySorted Z.lt l -> (forall z, z ∈ l <-> 1 <= z <= N) -> l = seqZ 1 N.
Proof.
  intros Hs Hl. apply StronglySorted_unique_strong with (R := Z.lt); [intros; lia|done|apply seqZ_sorted|].
  apply NoDup_Permutation; [eapply sorted_nodup; [|done]; intros; lia|apply NoDup_seqZ|].
  intros z. rewrite Hl, elem_of_seqZ. lia.
Qed.

Section history.
Context (n : Z) (db : RelDb) (a : RelationMetadata).
Hypothesis Hok : rel_ok n db.

(** The members of a chain. *)
Definition member (id : Uuid) (m : RelationMetadata) : Prop :=
  rd_relations db !! id = Some m /\ rm_chain_root_bytes m = rm_chain_root_bytes a /\ same_scope m a.

Lemma member_pred id m o :
  member id m -> rm_supersedes m = Some o ->
  exists mo, member o mo /\ rm_superseded_by mo = Some id /\ rm_version m = rm_version mo + 1.
Proof.
  intros (Hm & Hr & [Hs1 Hs2]) Ho. destruct (ch_pred _ _ _ (rl_chains _ _ Hok _ _ Hm) o Ho)
    as (mo & Hmo & Hsb & Hv & Hro & [Hs3 Hs4] & _). exists mo. unfold member, same_scope. split_and!; try done; congruence.
Qed.

Lemma member_first id m : member id m -> rm_supersedes m = None <-> rm_version m = 1.
Proof.
  intros Hm. pose proof Hm as (Hl & _). split.
  - intros Hs. by apply (ch_root _ _ _ (rl_chains _ _ Hok _ _ Hl)).
  - intros Hv. destruct (rm_supersedes m) as [o|] eqn:Ho; [|done]. exfalso.
    destruct (member_pred id m o Hm Ho) as (mo & (Hmo & _) & _ & E).
    pose proof (rl_versions _ _ (rl_base _ _ Hok) _ _ Hmo). lia.
Qed.

Lemma member_unique id m id' m' : member id m -> member id' m' -> rm_version m = rm_version m' -> id = id'.
Proof.
  remember (Z.to_nat (rm_version m)) as v eqn:Ev. revert id m id' m' Ev. induction v as [v IH] using lt_wf_ind.
  intros id m id' m' Ev Hm Hm' E. pose proof Hm as (Hl & Hr & _). pose proof Hm' as (Hl' & Hr' & _).
  pose proof (rl_versions _ _ (rl_base _ _ Hok) _ _ Hl) as Hv.
  destruct (rm_supersedes m) as [o|] eqn:Eo.
  - destruct (rm_supersedes m') as [o'|] eqn:Eo'.
    2: { apply (member_first id' m' Hm') in Eo'. rewrite <- E in Eo'. apply (member_first id m Hm) in Eo'. congruence. }
    destruct (member_pred id m o Hm Eo) as (mo & Hmo & Hsb & Hvo).
    destruct (member_pred id' m' o' Hm' Eo') as (mo' & Hmo' & Hsb' & Hvo').
    pose proof (rl_versions _ _ (rl_base _ _ Hok) _ _ (proj1 Hmo)) as Hvv.
    assert (o = o') as <- by (apply (IH (Z.to_nat (rm_version mo)) ltac:(lia) o mo o' mo'); done || lia).
    destruct Hmo as (Hlo & _), Hmo' as (Hlo' & _). congruence.
  - pose proof Eo as Eo1. apply (member_first id m Hm) in Eo1. rewrite E in Eo1. apply (member_first id' m' Hm') in Eo1.
    destruct (ch_root _ _ _ (rl_chains _ _ Hok _ _ Hl) Eo) as [_ H1].
    destruct (ch_root _ _ _ (rl_chains _ _ Hok _ _ Hl') Eo1) as [_ H2]. congruence.
Qed.

Lemma member_down id m w : member id m -> 1 <= w <= rm_version m -> exists id' m', member id' m' /\ rm_version m' = w.
Proof.
  remember (Z.to_nat (rm_version m)) as v eqn:Ev. revert id m Ev. induction v as [v IH] using lt_wf_ind.
  intros id m Ev Hm Hw. destruct (decide (w = rm_version m)) as [->|Hne]; [by exists id, m|].
  destruct (rm_supersedes m) as [o|] eqn:Eo.
  - destruct (member_pred id m o Hm Eo) as (mo & Hmo & _ & Hvo).
    apply (IH (Z.to_nat (rm_version mo)) ltac:(lia) o mo); [done..|lia].
  - apply (member_first id m Hm) in Eo. lia.
Qed.

Lemma member_succ id m nx : member id m -> rm_superseded_by m = Some nx ->
  exists mn, member nx mn /\ rm_version mn = rm_version m + 1.
Proof.
  intros (Hm & Hr & [Hs1 Hs2]) Hn. destruct (ch_succ _ _ _ (rl_chains _ _ Hok _ _ Hm) nx Hn) as (mn & Hmn & Hp).
  destruct (ch_pred _ _ _ (rl_chains _ _ Hok _ _ Hmn) id Hp) as (mo & Hmo & _ & Hv & Hro & [Hs3 Hs4] & _).
  assert (mo = m) as -> by congruence. exists mn. unfold member, same_scope. split_and!; try done; congruence.
Qed.

Definition chain_of : list Relation :=
  merge_sort version_le
    (map (fun km => relation_from_metadata km.1 km.2)
      (filter (fun km => rm_chain_root_bytes km.2 = rm_chain_root_bytes a
                         /\ in_row_scope (rel_scope a) km.2 = true) (map_to_list (rd_relations db)))).

Lemma from_metadata_fields id m : let r := relation_from_metadata id m in
  r_id r = id /\ r_version r = rm_version m /\ r_supersedes r = rm_supersedes m /\ r_superseded_by r = rm_superseded_by m.
Proof. cbv zeta. unfold relation_from_metadata. by destruct (default _ _). Qed.

Lemma chain_of_elem r : r ∈ chain_of <-> exists id m, member id m /\ r = relation_from_metadata id m.
Proof.
  unfold chain_of. rewrite merge_sort_Permutation, list_elem_of_fmap. split.
  - intros ([id m] & -> & [(Hr & Hs) Hm]%list_elem_of_filter). apply elem_of_map_to_list in Hm.
    apply in_row_scope_eq in Hs. exists id, m. by split.
  - intros (id & m & (Hm & Hr & Hs) & ->). exists (id, m). split; [done|]. apply list_elem_of_filter. split.
    + split; [done|]. by apply in_row_scope_eq.
    + by apply elem_of_map_to_list.
Qed.

Lemma chain_of_sorted : StronglySorted Z.lt (map r_version chain_of).
Proof.
  assert (StronglySorted version_le chain_of) as Hs by (apply StronglySorted_merge_sort; apply _).
  assert (NoDup (map r_id chain_of)) as Hnd.
  { unfold chain_of. rewrite merge_sort_Permutation, map_map.
    rewrite (map_ext _ fst) by (intros [id m]; apply from_metadata_fields).
    apply nodup_fst_filter, NoDup_fst_map_to_list. }
  assert (forall r, r ∈ chain_of -> exists id m, member id m /\ r = relation_from_metadata id m) as Hin
    by (intros r; apply chain_of_elem).
  induction Hs as [|x l _ IH Hx]; cbn; [constructor|]. apply NoDup_cons in Hnd as [Hn Hnd]. constructor.
  - apply IH; [done|]. intros r Hr. apply Hin. by apply list_elem_of_further.
  - apply Forall_forall. intros v (y & -> & Hy)%list_elem_of_fmap. rewrite Forall_forall in Hx.
    destruct (Hx y Hy) as [H|[E _]]; [done|]. exfalso. apply Hn.
    destruct (Hin x) as (id & m & Hm & ->); [apply list_elem_of_here|].
    destruct (Hin y) as (id' & m' & Hm' & ->); [by apply list_elem_of_further|].
    destruct (from_metadata_fields id m) as (E1 & E2 & _). destruct (from_metadata_fields id' m') as (E1' & E2' & _).
    rewrite E2, E2' in E. rewrite E1, (member_unique id m id' m' Hm Hm' E), <- E1'.
    apply list_elem_of_fmap. by eexists.
Qed.

Lemma chain_versions : is_Some (head chain_of) -> map r_version chain_of = seqZ 1 (Z.of_nat (length chain_of)).
Proof.
  intros Hne. assert (exists x, last chain_of = Some x) as [x Hx].
  { destruct (last chain_of) eqn:E; [by eexists|]. apply last_None in E. rewrite E in Hne. by destruct Hne. }
  assert (map r_version chain_of = seqZ 1 (r_version x)) as E.
  { apply counting_list; [apply chain_of_sorted|]. intros z. split.
    - intros Hz. apply last_Some in Hx as [l Hl]. pose proof chain_of_sorted as Hs. rewrite Hl, map_app in Hz, Hs. cbn in Hz, Hs.
      split.
      + assert (z ∈ r_version <$> chain_of) as (r & -> & Hr)%list_elem_of_fmap by (rewrite Hl, fmap_app; done).
        apply chain_of_elem in Hr as (id & m & (Hm & _) & ->). destruct (from_metadata_fields id m) as (_ & -> & _).
        by apply (rl_versions _ _ (rl_base _ _ Hok) _ _ Hm).
      + apply StronglySorted_app in Hs as (Hs & _ & _). apply elem_of_app in Hz as [Hz| ->%list_elem_of_singleton]; [|done].
        specialize (Hs z (r_version x) Hz ltac:(apply list_elem_of_here)). lia.
    - intros Hz. apply last_Some_elem_of, chain_of_elem in Hx as (id & m & Hm & ->).
      destruct (from_metadata_fields id m) as (_ & Ev & _). rewrite Ev in Hz.
      destruct (member_down id m z Hm Hz) as (id' & m' & Hm' & <-). apply list_elem_of_fmap.
      exists (relation_from_metadata id' m'). split; [by destruct (from_metadata_fields id' m') as (_ & -> & _)|].
      apply chain_of_elem. by eexists _, _. }
  rewrite E. f_equal. apply (f_equal length) in E. rewrite length_map, length_seqZ in E.
  assert (0 <= r_version x); [|lia]. apply last_Some_elem_of, chain_of_elem in Hx as (id & m & (Hm & _) & ->).
  destruct (from_metadata_fields id m) as (_ & -> & _). pose proof (rl_versions _ _ (rl_base _ _ Hok) _ _ Hm). lia.
Qed.

Lemma chain_version_at i x : is_Some (head chain_of) -> chain_of !! i = Some x -> r_version x = 1 + Z.of_nat i.
Proof.
  intros Hne Hx. assert (map r_version chain_of !! i = Some (r_version x)) as H by (rewrite list_lookup_fmap, Hx; done).
  rewrite chain_versions in H by done. apply lookup_seqZ in H as [-> _]. done.
Qed.

Lemma chain_links i x y :
  is_Some (head chain_of) -> chain_of !! i = Some x -> chain_of !! S i = Some y ->
  r_superseded_by x = Some (r_id y) /\ r_supersedes y = Some (r_id x).
Proof.
  intros Hne Hx Hy. pose proof (chain_version_at _ _ Hne Hx) as Vx. pose proof (chain_version_at _ _ Hne Hy) as Vy.
  apply list_elem_of_lookup_2, chain_of_elem in Hx as (id & m & Hm & ->).
  apply list_elem_of_lookup_2, chain_of_elem in Hy as (id' & m' & Hm' & ->).
  destruct (from_metadata_fields id m) as (-> & Ev & _ & ->). destruct (from_metadata_fields id' m') as (-> & Ev' & -> & _).
  rewrite Ev in Vx. rewrite Ev' in Vy. destruct (rm_supersedes m') as [o|] eqn:Eo.
  - destruct (member_pred id' m' o Hm' Eo) as (mo & Hmo & Hsb & Hv).
    assert (o = id) as -> by (apply (member_unique o mo id m); [done|done|lia]).
    destruct Hmo as (Hlo & _), Hm as (Hl & _). split; congruence.
  - apply (member_first id' m' Hm') in Eo. lia.
Qed.

Lemma chain_last x : is_Some (head chain_of) -> last chain_of = Some x -> r_superseded_by x = None.
Proof.
  intros Hne Hx. pose proof Hx as Hin. apply last_Some_elem_of, chain_of_elem in Hin as (id & m & Hm & ->).
  destruct (from_metadata_fields id m) as (_ & Ev & _ & Es). rewrite Es.
  destruct (rm_superseded_by m) as [nx|] eqn:En; [|done]. exfalso.
  destruct (member_succ id m nx Hm En) as (mn & Hmn & Hv).
  assert (relation_from_metadata nx mn ∈ chain_of) as [j Hj]%list_elem_of_lookup_1 by (apply chain_of_elem; by eexists _, _).
  rewrite last_lookup in Hx. pose proof (chain_version_at _ _ Hne Hx) as V1. pose proof (chain_version_at _ _ Hne Hj) as V2.
  destruct (from_metadata_fields nx mn) as (_ & Ev' & _). rewrite Ev in V1. rewrite Ev' in V2.
  apply lookup_lt_Some in Hj. lia.
Qed.
End history.

(** C21: A supersession chain is a linear history.  After any sequence of creations,
    supersessions and tombstones, by any tenants, accepted or refused, the
    history of a relation asked for through any of its versions contains that
    version and has the versions one, two, three and so on without a gap; each
    is superseded by the next and names it, the next names its predecessor,
    and only the last is not superseded, so that at most one is current. *)
Theorem relation_history_linear entities types ops id a
    (Hops : Forall rel_op_ok ops) (Hlen : Z.of_nat (length ops) < U32_MAX)
    (Ha : rd_relations (rel_run entities types ops) !! id = Some a) :
  exists chain, relation_history (rel_run entities types ops) id = Ok chain
    /\ map r_version chain = seqZ 1 (Z.of_nat (length chain)) /\ id ∈ map r_id chain
    /\ (forall i x y, chain !! i = Some x -> chain !! S i = Some y ->
          r_superseded_by x = Some (r_id y) /\ r_supersedes y = Some (r_id x))
    /\ (forall x, last chain = Some x -> r_superseded_by x = None).
Proof.
  destruct (rel_run_ok entities types ops Hops Hlen) as [n Hok]. set (db := rel_run entities types ops) in *.
  assert (relation_from_metadata id a ∈ chain_of db a) as Hin by (apply chain_of_elem; exists id, a; by repeat split).
  assert (is_Some (head (chain_of db a))) as Hne by (destruct (chain_of db a); [by apply not_elem_of_nil in Hin|by eexists]).
  exists (chain_of db a). unfold relation_history. rewrite Ha. split_and!; [done|by eapply chain_versions| | |].
  - apply list_elem_of_fmap. exists (relation_from_metadata id a). by destruct (from_metadata_fields id a) as (-> & _).
  - intros i x y. by eapply chain_links.
  - intros x. by eapply chain_last.
Qed.
