(* ===== verification/RelationCard.v ===== *)
(** Listings and cardinalities of typed relations: a directional listing returns
    exactly the relations of the tenant at an entity, and the declared
    cardinalities bound what it returns. *)

From stdpp Require Import gmap sorting.
From S2P Require Import Prelude Ids WalPayload EdgeTable MemoryTable Registry RelationTable RelationSpec.

(** ** Scans *)

(** The entities at which a walk finds a row. *)
Definition anchors (outgoing : bool) (m : RelationMetadata) : list Uuid :=
  let '(near, far) := if outgoing then (rm_from_bytes m, rm_to_bytes m) else (rm_to_bytes m, rm_from_bytes m) in
  near :: (if rel_is_symmetric m then [far] else []).

Lemma elem_of_anchors e outgoing m : e ∈ anchors outgoing m <->
  if outgoing then rm_from_bytes m = e \/ rel_is_symmetric m = true /\ rm_to_bytes m = e
  else rm_to_bytes m = e \/ rel_is_symmetric m = true /\ rm_from_bytes m = e.
Proof.
  unfold anchors. destruct outgoing, (rel_is_symmetric m); rewrite list_elem_of_In; cbn; intuition congruence.
Qed.

Definition row_dis (row : EdgeRow) : Uuid := row.1.2.

(** The key under which the forward table has a row of either table. *)
Definition forward (outgoing : bool) (k : EdgeKey) : EdgeKey := if outgoing then k else flip k.

Lemma typed_table_lookup n db outgoing k :
  rel_base n db -> EdgeKey.wf k ->
  typed_table db outgoing !! EdgeKey.encode k = EDGES (rd_edges db) !! EdgeKey.encode (forward outgoing k).
Proof.
  intros Hb Hk. destruct outgoing; [done|]. cbn [typed_table forward].
  by rewrite <- (to_mirror _ (rl_tables _ _ Hb) (flip k)), flip_flip by by apply flip_wf.
Qed.

Lemma forward_wf outgoing k : EdgeKey.wf k -> EdgeKey.wf (forward outgoing k).
Proof. destruct outgoing; [done|apply flip_wf]. Qed.

Lemma has_edge_anchored outgoing id m e kind other dis :
  has_edge id m (forward outgoing (key (NodeEntity e) kind other dis)) ->
  id = dis /\ kind = Typed (rm_relation_type_id m) /\ e ∈ anchors outgoing m
  /\ (e = (if outgoing then rm_from_bytes m else rm_to_bytes m)
      /\ other = NodeEntity (if outgoing then rm_to_bytes m else rm_from_bytes m)
      \/ e = (if outgoing then rm_to_bytes m else rm_from_bytes m)
         /\ other = NodeEntity (if outgoing then rm_from_bytes m else rm_to_bytes m)).
Proof.
  unfold has_edge. rewrite elem_of_anchors. destruct outgoing; cbn; intros (-> & -> & H); split_and!; try done;
    destruct H as [[H1 H2]|(Hs & H1 & H2)]; try injection H1; try injection H2; intros; subst; auto.
Qed.

Lemma scan_anchored n db outgoing e kf :
  rel_base n db ->
  exists rows, range_scan (typed_table db outgoing) (NodeEntity e) kf = Ok rows /\ NoDup (map row_dis rows)
    /\ (forall kind other dis d, (kind, other, dis, d) ∈ rows -> wanted kf kind /\ exists m,
          rd_relations db !! dis = Some m /\ kind = Typed (rm_relation_type_id m) /\ e ∈ anchors outgoing m)
    /\ (forall id m, rd_relations db !! id = Some m -> e ∈ anchors outgoing m -> wanted kf (Typed (rm_relation_type_id m)) ->
          exists other d, (Typed (rm_relation_type_id m), other, id, d) ∈ rows).
Proof.
  intros Hb. destruct (range_scan_exact (typed_table db outgoing) (NodeEntity e) kf) as (rows & E & Hin & Hs).
  { intros b d. destruct outgoing; [apply (to_keys _ (rl_tables _ _ Hb))|apply (to_rev_keys _ (rl_tables _ _ Hb))]. }
  assert (forall kind other dis d, (kind, other, dis, d) ∈ rows -> wanted kf kind
    /\ typed_table db outgoing !! EdgeKey.encode (key (NodeEntity e) kind other dis) = Some d
    /\ exists m, rd_relations db !! dis = Some m /\ has_edge dis m (forward outgoing (key (NodeEntity e) kind other dis))) as Hrow.
  { intros kind other dis d (Hwf & Hw & Hl)%Hin. cbn [row_key snd] in *. split_and!; [done|done|].
    rewrite (typed_table_lookup n) in Hl by done. apply (forward_wf outgoing) in Hwf.
    destruct (proj1 (rl_edges _ _ Hb _ Hwf)) as (m & Hm & He); [by eexists|]. exists m. by destruct outgoing. }
  exists rows. split_and!; [done| | |].
  - apply NoDup_fmap_2_strong.
    2: { eapply sorted_nodup; [|apply Hs]. intros r. unfold key_lt. by rewrite bytes_compare_refl. }
    intros [[[k1 o1] i1] d1] [[[k2 o2] i2] d2] H1 H2. cbn. intros ->.
    apply Hrow in H1 as (_ & L1 & m & Hm & (_ & -> & _ & O1)%has_edge_anchored).
    apply Hrow in H2 as (_ & L2 & m' & Hm' & (_ & -> & _ & O2)%has_edge_anchored).
    assert (m' = m) as -> by congruence.
    assert (o1 = o2) as <- by (destruct O1 as [[E1 ->]|[E1 ->]], O2 as [[E2 ->]|[E2 ->]]; congruence). congruence.
  - intros kind other dis d (Hw & _ & m & Hm & (_ & Hk & Ha & _)%has_edge_anchored)%Hrow. split; [done|]. by exists m.
  - intros id m Hm Ha Hw. destruct (rl_rows _ _ Hb _ _ Hm) as [Hid Hf Hto Hty _ _].
    assert (exists other, EdgeKey.wf (key (NodeEntity e) (Typed (rm_relation_type_id m)) other id)
      /\ has_edge id m (forward outgoing (key (NodeEntity e) (Typed (rm_relation_type_id m)) other id))) as (other & Hwf & He).
    { rewrite elem_of_anchors in Ha. unfold has_edge.
      destruct outgoing, Ha as [<-|[Hsym <-]];
        [exists (NodeEntity (rm_to_bytes m))|exists (NodeEntity (rm_from_bytes m))
        |exists (NodeEntity (rm_from_bytes m))|exists (NodeEntity (rm_to_bytes m))];
        (split; [by apply entity_key_wf|cbn; tauto]). }
    assert (is_Some (typed_table db outgoing !! EdgeKey.encode (key (NodeEntity e) (Typed (rm_relation_type_id m)) other id))) as [d Hd].
    { rewrite (typed_table_lookup n) by done. apply (rl_edges _ _ Hb); [by apply forward_wf|]. exists m. by destruct outgoing. }
    exists other, d. by apply Hin.
Qed.

(** ** Listings *)

(** The relations that a listing is asked for. *)
Record listed (db : RelDb) (scope : RowScope) (e : Uuid) (f : RelationListFilter) (outgoing : bool) (id : Uuid)
    (m : RelationMetadata) : Prop := {
  ls_row : rd_relations db !! id = Some m;
  ls_scope : rm_namespace_id m = sc_namespace_id scope /\ rm_space_id_bytes m = sc_space_id_bytes scope;
  ls_current : lf_current_only f = true -> rel_is_current m = true;
  ls_type t : lf_relation_type f = Some t -> rm_relation_type_id m = t;
  ls_anchor : e ∈ anchors outgoing m;
}.

Definition list_cap (f : RelationListFilter) : nat :=
  if (lf_limit f =? 0)%nat then DEFAULT_LIST_LIMIT else Nat.min (lf_limit f) DEFAULT_LIST_LIMIT.

(** What the loop makes of a row. *)
Definition list_row (db : RelDb) (scope : RowScope) (f : RelationListFilter) (row : EdgeRow) : option Relation :=
  let '(kind, _, dis, _) := row in
  match kind, rd_relations db !! dis with
  | Typed _, Some meta =>
    if in_row_scope scope meta && (negb (lf_current_only f) || rel_is_current meta)
       && match lf_relation_type f with Some want => rm_relation_type_id meta =? want | None => true end
    then Some (relation_from_metadata dis meta) else None
  | _, _ => None
  end.

Lemma list_loop_rows db scope f cap rows out :
  (length out < cap)%nat ->
  list_loop db scope f cap rows out = out ++ take (cap - length out) (omap (list_row db scope f) rows).
Proof.
  revert out. induction rows as [|[[[kind other] dis] d] rows IH]; intros out Hc; cbn [list_loop].
  - cbn. by rewrite take_nil, app_nil_r.
  - cbn [omap list_omap list_row]. destruct kind; try by apply IH.
    destruct (rd_relations db !! dis) as [meta|]; [|by apply IH].
    destruct (in_row_scope scope meta); cbn [negb andb]; [|by apply IH].
    destruct (lf_current_only f), (rel_is_current meta); cbn [negb andb orb]; try by apply IH.
    all: destruct (lf_relation_type f) as [want|]; [destruct (rm_relation_type_id meta =? want); cbn [negb]; [|by apply IH]|].
    all: replace (cap - length out)%nat with (S (cap - length out - 1)) by lia; rewrite firstn_cons; cbv zeta.
    all: destruct (Nat.leb_spec cap (length (out ++ [relation_from_metadata dis meta]))) as [Hl|Hl];
      rewrite length_app in Hl; cbn [length] in Hl.
    all: try (replace (cap - length out - 1)%nat with 0%nat by lia; by rewrite take_0).
    all: rewrite IH by (rewrite length_app; cbn [length]; lia); rewrite <- app_assoc, length_app; cbn [length app];
      by replace (cap - (length out + 1))%nat with (cap - length out - 1)%nat by lia.
Qed.

Lemma list_row_listed db scope f e outgoing m kind other dis d :
  rd_relations db !! dis = Some m -> kind = Typed (rm_relation_type_id m) -> e ∈ anchors outgoing m ->
  (listed db scope e f outgoing dis m -> list_row db scope f (kind, other, dis, d) = Some (relation_from_metadata dis m))
  /\ forall r, list_row db scope f (kind, other, dis, d) = Some r ->
       listed db scope e f outgoing dis m /\ r = relation_from_metadata dis m.
Proof.
  intros Hm -> Ha. unfold list_row. rewrite Hm.
  assert (in_row_scope scope m && (negb (lf_current_only f) || rel_is_current m)
    && match lf_relation_type f with Some want => rm_relation_type_id m =? want | None => true end = true
    <-> listed db scope e f outgoing dis m) as Hl.
  { rewrite !andb_true_iff, in_row_scope_eq. split.
    - intros [[Hs Hc] Ht]. split; [done|done| | |done].
      + intros E. by rewrite E in Hc.
      + intros t E. rewrite E in Ht. by apply Z.eqb_eq.
    - intros [_ Hs Hc Ht _]. split_and!; [apply Hs..| |].
      + destruct (lf_current_only f); [by rewrite Hc|done].
      + destruct (lf_relation_type f) as [t|]; [|done]. apply Z.eqb_eq. by apply Ht. }
  destruct (_ && _ && _); split.
  - done.
  - intros r [= <-]. split; [by apply Hl|done].
  - intros H%Hl. done.
  - done.
Qed.

Lemma list_directional_exact n db scope e f outgoing :
  rel_base n db ->
  exists l, list_directional db scope e f outgoing = Ok l /\ NoDup (map r_id l) /\ (length l <= list_cap f)%nat
    /\ (forall r, r ∈ l -> exists m, listed db scope e f outgoing (r_id r) m /\ r = relation_from_metadata (r_id r) m)
    /\ ((length l < list_cap f)%nat -> forall id m, listed db scope e f outgoing id m -> relation_from_metadata id m ∈ l).
Proof.
  intros Hb. destruct (scan_anchored n db outgoing e (Typed <$> lf_relation_type f) Hb) as (rows & E & Hnd & Hrows & Hall).
  unfold list_directional. change (if (lf_limit f =? 0)%nat then _ else _) with (list_cap f).
  assert ((if outgoing then walk_outgoing (rd_edges db) (NodeEntity e) (Typed <$> lf_relation_type f)
           else walk_incoming (rd_edges db) (NodeEntity e) (Typed <$> lf_relation_type f)) = Ok rows) as ->
    by (by destruct outgoing).
  assert (0 < list_cap f)%nat as Hcap.
  { unfold list_cap, DEFAULT_LIST_LIMIT. destruct (Nat.eqb_spec (lf_limit f) 0); lia. }
  cbn [map_err]. rewrite list_loop_rows by done. cbn [app length]. rewrite Nat.sub_0_r.
  set (sel := omap (list_row db scope f) rows). exists (take (list_cap f) sel).
  assert (forall r, r ∈ sel -> exists m, listed db scope e f outgoing (r_id r) m /\ r = relation_from_metadata (r_id r) m) as Hsel.
  { intros r ([[[kind other] dis] d] & Hin & Hr)%list_elem_of_omap. apply Hrows in Hin as (_ & m & Hm & Hk & Ha).
    destruct (list_row_listed db scope f e outgoing m kind other dis d Hm Hk Ha) as [_ Hl].
    destruct (Hl r Hr) as [Hl1 ->]. exists m. by destruct (from_metadata_fields dis m) as (-> & _). }
  split_and!; [done| |rewrite length_take; lia| |].
  - rewrite <- firstn_map. eapply sublist_NoDup; [|apply sublist_take].
    assert (map r_id sel `sublist_of` map row_dis rows) as Hsub; [|by eapply sublist_NoDup].
    clear -Hrows. unfold sel. induction rows as [|[[[kind other] dis] d] rows IH]; [done|]. cbn [omap list_omap map].
    specialize (IH (fun k o i d' H => Hrows k o i d' (list_elem_of_further _ _ _ H))).
    destruct (list_row db scope f (kind, other, dis, d)) as [r|] eqn:Er; [|by apply sublist_cons].
    destruct (Hrows kind other dis d (list_elem_of_here _ _)) as (_ & m & Hm & Hk & Ha).
    destruct (list_row_listed db scope f e outgoing m kind other dis d Hm Hk Ha) as [_ Hl].
    destruct (Hl r Er) as [_ ->]. cbn [map]. destruct (from_metadata_fields dis m) as (-> & _). by apply sublist_skip.
  - intros r Hr. apply Hsel. by apply elem_of_take in Hr as (i & Hi & _); eapply list_elem_of_lookup_2.
  - intros Hlt id m Hl. rewrite length_take in Hlt. rewrite take_ge by lia.
    pose proof Hl as [Hm _ _ Ht Ha]. destruct (Hall id m Hm Ha) as (other & d & Hin).
    { destruct (lf_relation_type f) as [t|]; [|done]. cbn. by rewrite (Ht t). }
    apply list_elem_of_omap. eexists. split; [exact Hin|].
    by apply (list_row_listed db scope f e outgoing m _ other id d Hm eq_refl Ha).
Qed.

(** ** Probes *)

Lemma conflict_fold db scope new_id rows out id m :
  rd_relations db !! id = Some m -> id <> new_id -> in_row_scope scope m = true -> rel_is_current m = true ->
  id ∈ out \/ id ∈ map row_dis rows -> id ∈ fold_left (conflict_step db scope new_id) rows out.
Proof.
  intros Hm Hne Hs Hc. revert out. induction rows as [|[[[kind other] dis] d] rows IH]; intros out Hin; cbn [fold_left].
  - destruct Hin as [Hin|Hin]; [done|by apply not_elem_of_nil in Hin].
  - apply IH. cbn [map row_dis fst snd] in Hin. unfold conflict_step.
    destruct Hin as [Hin|[<-|Hin]%elem_of_cons]; [| |by right].
    + left. repeat case_match; try done. apply elem_of_app. by left.
    + left. rewrite bool_decide_false by done. rewrite Hm, Hs, Hc. cbn [negb andb].
      destruct (bool_decide (id ∈ out)) eqn:E; cbn [negb]; [by apply bool_decide_eq_true in E|].
      apply elem_of_app. right. apply list_elem_of_here.
Qed.

Lemma collect_elem n db scope e t outgoing new_id out l id m :
  rel_base n db -> collect_typed_conflicts db scope (NodeEntity e) t outgoing new_id out = Ok l ->
  rd_relations db !! id = Some m -> id <> new_id -> in_row_scope scope m = true -> rel_is_current m = true ->
  id ∈ out \/ rm_relation_type_id m = t /\ e ∈ anchors outgoing m -> id ∈ l.
Proof.
  intros Hb E Hm Hne Hs Hc Hin. unfold collect_typed_conflicts in E.
  destruct (scan_anchored n db outgoing e (Some (Typed t)) Hb) as (rows & Er & _ & _ & Hall).
  rewrite Er in E. apply Ok_inj in E as <-. eapply conflict_fold; try done.
  destruct Hin as [Hin|[Ht Ha]]; [by left|right]. destruct (Hall id m Hm Ha) as (other & d & Hrow); [cbn; by rewrite Ht|].
  apply list_elem_of_fmap. eexists. by split; [|exact Hrow].
Qed.

(** The probe misses no conflict. *)
Lemma conflicts_complete n db scope r c l id m :
  rel_base n db -> find_cardinality_conflicts db scope r c = Ok l ->
  rd_relations db !! id = Some m -> id <> r_id r -> in_row_scope scope m = true -> rel_is_current m = true ->
  rm_relation_type_id m = r_relation_type r ->
  want_from c = true /\ r_from_entity r ∈ anchors true m \/ want_to c = true /\ r_to_entity r ∈ anchors false m -> id ∈ l.
Proof.
  intros Hb E Hm Hne Hs Hc Ht Hw. unfold find_cardinality_conflicts in E.
  destruct (want_from c) eqn:Ef; cbn in E.
  - destruct (collect_typed_conflicts _ _ _ _ true _ _) as [found|] eqn:E1; [|done].
    assert (r_from_entity r ∈ anchors true m -> id ∈ found) as H1
      by (intros Ha; eapply collect_elem; try done; by right).
    destruct (want_to c) eqn:Eto.
    + eapply collect_elem; try done. destruct Hw as [[_ Ha]|[_ Ha]]; [left; by apply H1|by right].
    + apply Ok_inj in E as <-. destruct Hw as [[_ Ha]|[? _]]; [by apply H1|done].
  - destruct Hw as [[? _]|[Eto Ha]]; [done|]. rewrite Eto in E. eapply collect_elem; try done. by right.
Qed.

Lemma identical_loop_none db scope r entries k d m :
  identical_loop db scope r entries = Ok None -> (EdgeKey.encode k, d) ∈ entries -> EdgeKey.wf k ->
  ek_from k = NodeEntity (r_from_entity r) -> ek_kind k = Typed (r_relation_type r) -> ek_to k = NodeEntity (r_to_entity r) ->
  ek_disambiguator k <> r_id r -> rd_relations db !! ek_disambiguator k = Some m -> in_row_scope scope m = true ->
  rel_is_current m = false.
Proof.
  intros E Hin Hk Hf Hkd Hto Hne Hm Hs. induction entries as [|[b d'] rest IH]; [by apply not_elem_of_nil in Hin|].
  cbn [identical_loop] in E. apply elem_of_cons in Hin as [[= <- <-]|Hin].
  - rewrite decode_key in E by done. cbn in E. rewrite !bool_decide_true in E by done. cbn [negb] in E.
    rewrite bool_decide_false in E by done. rewrite Hm, Hs in E. cbn [negb] in E. by destruct (rel_is_current m).
  - apply IH; [|done]. destruct (EdgeKey.decode b) as [k'|]; [|done]. cbn in E.
    repeat case_match; try done.
Qed.

Lemma identical_complete n db scope r id m :
  rel_base n db -> find_identical_active_relation db scope r = Ok None ->
  rd_relations db !! id = Some m -> id <> r_id r -> in_row_scope scope m = true ->
  rm_relation_type_id m = r_relation_type r -> rm_from_bytes m = r_from_entity r -> rm_to_bytes m = r_to_entity r ->
  rel_is_current m = false.
Proof.
  intros Hb E Hm Hne Hs Ht Hf Hto. unfold find_identical_active_relation in E.
  destruct (rl_rows _ _ Hb _ _ Hm) as [Hid16 Hf16 Hto16 Hty _ _].
  set (k := key (NodeEntity (r_from_entity r)) (Typed (r_relation_type r)) (NodeEntity (r_to_entity r)) id).
  assert (EdgeKey.wf k) as Hk by (apply entity_key_wf; by rewrite <- ?Hf, <- ?Hto, <- ?Ht).
  destruct (proj2 (rl_edges _ _ Hb k Hk)) as [d Hd].
  { exists m. split; [done|]. split; [done|]. cbn. rewrite Ht, Hf, Hto. tauto. }
  pose proof (range_bounds_cover k (Some (Typed (r_relation_type r))) Hk eq_refl) as Hcov. cbn [ek_from k key] in Hcov.
  destruct (range_bounds _ _) as [lo hi]. eapply (identical_loop_none db scope r _ k d m E); try done.
  apply range_elem. tauto.
Qed.

(** ** Cardinality *)

(** A type that is not symmetric, or that is one to one. *)
Definition strict (d : DeclaredConstraints) : Prop := dc_is_symmetric d = false \/ dc_cardinality d = OneToOne.

(** Two current relations that a declaration does not allow together. *)
Definition clash (d : DeclaredConstraints) (m m' : RelationMetadata) : Prop :=
  rm_from_bytes m = rm_from_bytes m' /\ rm_to_bytes m = rm_to_bytes m'
  \/ strict d /\ exists e,
       want_from (dc_cardinality d) = true /\ e ∈ anchors true m /\ e ∈ anchors true m'
       \/ want_to (dc_cardinality d) = true /\ e ∈ anchors false m /\ e ∈ anchors false m'.

Definition card_ok (db : RelDb) : Prop :=
  forall id m id' m' d, rd_relations db !! id = Some m -> rd_relations db !! id' = Some m' -> id <> id' ->
    rel_is_current m = true -> rel_is_current m' = true -> same_scope m m' ->
    rm_relation_type_id m = rm_relation_type_id m' -> lookup_type db (rm_relation_type_id m) = Ok d -> ~ clash d m m'.

Lemma clash_sym d m m' : clash d m m' -> clash d m' m.
Proof.
  intros [[H1 H2]|(Hs & e & [(Hw & H1 & H2)|(Hw & H1 & H2)])]; [by left|right; split; [done|]; exists e..]; auto.
Qed.

Lemma card_put_old db id m' : card_ok db -> rel_is_current m' = false -> card_ok (put_relation id m' db).
Proof.
  intros Hc Hn i1 m1 i2 m2 d H1 H2 Hne C1 C2. cbn [put_relation rd_relations] in H1, H2.
  apply lookup_insert_Some in H1 as [[_ <-]|[_ H1]]; [congruence|].
  apply lookup_insert_Some in H2 as [[_ <-]|[_ H2]]; [congruence|]. by apply (Hc i1 m1 i2 m2 d).
Qed.

Lemma card_insert db scope session r now :
  card_ok db -> rd_relations db !! r_id r = None ->
  (forall id m d, rd_relations db !! id = Some m -> rel_is_current m = true -> in_row_scope scope m = true ->
     rm_relation_type_id m = r_relation_type r -> lookup_type db (r_relation_type r) = Ok d ->
     ~ clash d m (metadata_from_relation r scope session)) ->
  card_ok (insert_new_relation db scope session r now).
Proof.
  intros Hc Hnew Hno i1 m1 i2 m2 d H1 H2 Hne C1 C2 [S1 S2] Ht Hd. cbn [insert_new_relation rd_relations] in H1, H2.
  apply lookup_insert_Some in H1 as [[<- <-]|[_ H1]]; apply lookup_insert_Some in H2 as [H2|[_ H2]].
  - by destruct H2.
  - intros Hcl%clash_sym. cbn in S1, S2, Ht. eapply Hno; try done. apply in_row_scope_eq. by rewrite S1, S2.
  - destruct H2 as [<- <-]. cbn in S1, S2, Ht. rewrite Ht in Hd. eapply Hno; try done. by apply in_row_scope_eq.
  - by apply (Hc i1 m1 i2 m2 d).
Qed.

Lemma clash_ends d m m1 m2 :
  rm_from_bytes m1 = rm_from_bytes m2 -> rm_to_bytes m1 = rm_to_bytes m2 -> rel_is_symmetric m1 = rel_is_symmetric m2 ->
  clash d m m1 -> clash d m m2.
Proof. unfold clash, anchors. by intros -> -> ->. Qed.

(** What the probes have not found does not clash. *)
Lemma probes_no_clash n db scope session r d l id m :
  rel_base n db -> lookup_type db (r_relation_type r) = Ok d -> r_is_symmetric r = dc_is_symmetric d ->
  find_identical_active_relation db scope r = Ok None -> find_cardinality_conflicts db scope r (dc_cardinality d) = Ok l ->
  rd_relations db !! id = Some m -> id <> r_id r -> rel_is_current m = true -> in_row_scope scope m = true ->
  rm_relation_type_id m = r_relation_type r -> id ∉ l -> ~ clash d m (metadata_from_relation r scope session).
Proof.
  intros Hb Hd Hsym Hi Hl Hm Hne Hc Hs Ht Hnin [[H1 H2]|(Hst & e & He)].
  - rewrite (identical_complete n db scope r id m) in Hc; done.
  - assert (rel_is_symmetric m = dc_is_symmetric d) as Hsm.
    { destruct (rl_symmetric _ _ Hb _ _ Hm) as (d' & Hd' & E). rewrite Ht, Hd in Hd'. by apply Ok_inj in Hd' as <-. }
    apply Hnin. eapply conflicts_complete; try done. rewrite !elem_of_anchors, metadata_sym in He. rewrite !elem_of_anchors.
    cbn [metadata_from_relation rm_from_bytes rm_to_bytes] in He. rewrite Hsm, Hsym in *.
    destruct Hst as [E|E]; rewrite E in *; cbn [want_from want_to] in *; naive_solver.
Qed.

Lemma card_supersede n db scope session old_id old new now db' id' :
  rel_base n db -> card_ok db -> relation_supersede db scope session old_id new now = Ok (db', id') ->
  rd_relations db !! old_id = Some old ->
  (forall id m d m', rd_relations db !! id = Some m -> id <> old_id -> id <> r_id new -> rel_is_current m = true ->
     in_row_scope scope m = true -> rm_relation_type_id m = r_relation_type new ->
     lookup_type db (r_relation_type new) = Ok d -> rm_from_bytes m' = r_from_entity new ->
     rm_to_bytes m' = r_to_entity new -> rel_is_symmetric m' = rel_is_symmetric old -> ~ clash d m m') ->
  card_ok db'.
Proof.
  intros Hb Hc E Hold Hno. apply supersede_inv in E
    as (old0 & old' & r & Hold0 & _ & _ & _ & _ & Hnew & -> & (valid_to & ->) & -> & _).
  assert (old0 = old) as -> by congruence. apply card_insert.
  - by apply card_put_old.
  - cbn. rewrite lookup_insert_ne by congruence. done.
  - intros id m d Hm C S T Hd. cbn [put_relation rd_relations chained r_id r_relation_type] in *.
    apply lookup_insert_Some in Hm as [[_ <-]|[Hne Hm]]; [by cbn in C|].
    apply (Hno id m d); try done; [congruence|]. by rewrite metadata_sym.
Qed.

(** An explicit supersession that keeps the endpoints of what it replaces. *)
Definition keeps_ends (db : RelDb) (op : RelOp) : bool :=
  match op with
  | OpSupersede _ old_id new _ =>
    match rd_relations db !! old_id with
    | Some m => bool_decide (rm_from_bytes m = r_from_entity new) && bool_decide (rm_to_bytes m = r_to_entity new)
    | None => true
    end
  | _ => true
  end.

Fixpoint ends_kept (db : RelDb) (ops : list RelOp) : bool :=
  match ops with [] => true | op :: ops => keeps_ends db op && ends_kept (rel_step db op) ops end.

Lemma card_create n db scope u db' id' :
  rel_base n db -> card_ok db ->
  relation_create db scope (ur_session u) (upsert_relation_row u) (ur_extracted_at u) = Ok (db', id') -> card_ok db'.
Proof.
  intros Hb Hc (d & dir & Hd & Hnew & [[-> _]|[Hi H]])%relation_create_inv; [done|]. revert Hi H. cbv zeta.
  destruct (oriented_rest (upsert_relation_row u) dir (dc_is_symmetric d)) as (Eid & Ety & Esym & _).
  set (r := oriented _ dir _) in *. intros Hi. rewrite <- Ety in Hd. rewrite <- Eid in Hnew.
  assert (forall l session id m, find_cardinality_conflicts db scope r (dc_cardinality d) = Ok l ->
    rd_relations db !! id = Some m -> rel_is_current m = true -> in_row_scope scope m = true ->
    rm_relation_type_id m = r_relation_type r -> id ∉ l -> ~ clash d m (metadata_from_relation r scope session)) as Hno.
  { intros l session id m Hl Hm C S T Hn. eapply probes_no_clash; try done. congruence. }
  intros [(Hl & -> & _)|(old_id & Hl & E)].
  - apply card_insert; [done|done|]. intros id m d' Hm C S T Hd'. rewrite Hd in Hd'. apply Ok_inj in Hd' as <-.
    apply (Hno [] _ id); try done. apply not_elem_of_nil.
  - pose proof E as (old & _ & _ & Hold & _ & _ & _ & Hoty & _)%supersede_inv.
    eapply card_supersede; try done. intros id m d' m' Hm Hne _ C S T Hd' Hf Hto Hsy Hcl.
    rewrite Hd in Hd'. apply Ok_inj in Hd' as <-. apply (Hno [old_id] 0 id m); try done; [set_solver|].
    revert Hcl. apply clash_ends; [done|done|]. rewrite metadata_sym, Hsy, Esym.
    destruct (rl_symmetric _ _ Hb _ _ Hold) as (d' & Hd' & Es). rewrite Hoty, Hd in Hd'. by apply Ok_inj in Hd' as <-.
Qed.

Lemma card_step n db op : rel_base n db -> card_ok db -> keeps_ends db op = true -> card_ok (rel_step db op).
Proof.
  intros Hb Hc Hk. destruct op as [scope u|scope old_id new at_|scope id at_]; cbn [rel_step].
  - unfold apply_upsert_relation. destruct (relation_create _ _ _ _ _) as [[db' id']|] eqn:E; [|done].
    by eapply card_create.
  - unfold apply_supersede_relation. destruct (relation_scope_guard db old_id scope); [|done].
    destruct (relation_supersede _ _ _ _ _ _) as [[db' id']|] eqn:E; [|done].
    pose proof E as (old & _ & _ & Hold & Hsc & Htb & Hsb & Hoty & _)%supersede_inv.
    cbn [keeps_ends] in Hk. rewrite Hold in Hk. apply andb_prop in Hk as [Hf%bool_decide_eq_true Hto%bool_decide_eq_true].
    eapply card_supersede; try done. intros id m d m' Hm Hne _ C S T Hd Hf' Hto' Hsy Hcl.
    eapply (Hc id m old_id old); try done.
    + by rewrite (rw_current _ _ (rl_rows _ _ Hb _ _ Hold)), Htb, Hsb.
    + apply in_row_scope_eq in S as [? ?], Hsc as [? ?]. split; congruence.
    + congruence.
    + by rewrite T.
    + revert Hcl. apply clash_ends; congruence.
  - unfold apply_tombstone_relation. destruct (relation_scope_guard db id scope); [|done]. unfold relation_tombstone.
    destruct (rd_relations db !! id) as [row|] eqn:Er; [|done]. destruct (rel_is_tombstoned row); [done|].
    by apply card_put_old.
Qed.

Lemma card_steps ops db n :
  rel_ok n db -> 1 <= n -> card_ok db -> Forall rel_op_ok ops -> n + Z.of_nat (length ops) <= U32_MAX ->
  ends_kept db ops = true -> card_ok (fold_left rel_step ops db).
Proof.
  revert db n. induction ops as [|op ops IH]; intros db n Hok Hn Hc Hops Hl Hk; cbn [fold_left length ends_kept] in *; [done|].
  apply Forall_cons in Hops as [Hop Hops]. apply andb_prop in Hk as [Hk Hks]. rewrite Nat2Z.inj_succ in Hl.
  apply (IH _ (n + 1)); [apply rel_ok_step; [done|lia|done]|lia| |done|lia|done].
  eapply card_step; [apply (rl_base _ _ Hok)|done|done].
Qed.

Lemma run_tables entities types ops :
  rd_types (rel_run entities types ops) = types /\ rd_entities (rel_run entities types ops) = entities.
Proof.
  unfold rel_run. induction ops as [|op ops IH] using rev_ind; [done|]. rewrite fold_left_app. cbn [fold_left].
  destruct (rel_step_tables (fold_left rel_step ops (rel_empty entities types)) op) as [-> ->]. done.
Qed.

Lemma run_card_ok entities types ops :
  Forall rel_op_ok ops -> Z.of_nat (length ops) < U32_MAX -> ends_kept (rel_empty entities types) ops = true ->
  card_ok (rel_run entities types ops).
Proof.
  intros Hops Hl Hk. apply (card_steps ops _ 1); [apply rel_ok_empty|lia| |done|lia|done].
  intros id m id' m' d H. cbn in H. by rewrite lookup_empty in H.
Qed.

(** C23: A directional listing is exact and confined to the tenant.  After any sequence
    of creations, supersessions and tombstones by any tenants, listing the
    relations from or to an entity succeeds and returns no relation twice and
    at most as many as the limit; every relation returned is a stored one of
    the caller's tenant, current and of the type asked for when these were
    asked for, whose source (target) is the entity, or one of whose ends is
    when its type is symmetric; and when fewer than the limit are returned,
    all such relations are. *)
Theorem relation_listing_exact entities types ops scope e f
    (Hops : Forall rel_op_ok ops) (Hlen : Z.of_nat (length ops) < U32_MAX) :
  forall outgoing : bool, exists l,
    (if outgoing then relation_list_from (rel_run entities types ops) scope e f
     else relation_list_to (rel_run entities types ops) scope e f) = Ok l
    /\ NoDup (map r_id l) /\ (length l <= list_cap f)%nat
    /\ (forall r, r ∈ l -> exists m, listed (rel_run entities types ops) scope e f outgoing (r_id r) m
          /\ r = relation_from_metadata (r_id r) m)
    /\ ((length l < list_cap f)%nat -> forall id m,
          listed (rel_run entities types ops) scope e f outgoing id m -> relation_from_metadata id m ∈ l).
Proof.
  intros outgoing. destruct (rel_run_ok entities types ops Hops Hlen) as [n [Hb _]].
  destruct (list_directional_exact n _ scope e f outgoing Hb) as (l & E & H). exists l. split; [by destruct outgoing|done].
Qed.

Lemma at_most_one db scope e f outgoing l :
  list_directional db scope e f outgoing = Ok l -> NoDup (map r_id l) ->
  (forall r, r ∈ l -> exists m, listed db scope e f outgoing (r_id r) m /\ r = relation_from_metadata (r_id r) m) ->
  (forall id m id' m', listed db scope e f outgoing id m -> listed db scope e f outgoing id' m' -> id = id') ->
  (length l <= 1)%nat.
Proof.
  intros _ Hnd Hin Hu. destruct l as [|x [|y l]]; cbn; [lia..|]. exfalso.
  destruct (Hin x) as (m & Hm & _); [apply list_elem_of_here|].
  destruct (Hin y) as (m' & Hm' & _); [apply list_elem_of_further, list_elem_of_here|].
  cbn in Hnd. apply NoDup_cons in Hnd as [Hn _]. apply Hn. rewrite (Hu _ _ _ _ Hm Hm'). apply list_elem_of_here.
Qed.

(** C20: Declared cardinalities hold.  After any sequence of creations, tombstones and
    such explicit supersessions as keep the endpoints of what they replace, by
    any tenants, accepted or refused, and for a declared type that is not
    symmetric or is one to one: where the declaration allows one target per
    source, at most one current relation of the type is listed from any
    entity within a tenant; where it allows one source per target, at most one
    is listed to any entity; and, whatever is declared, no two current
    relations of a tenant have the same type and the same endpoints. *)
Theorem relation_cardinality entities types ops scope t d
    (Hops : Forall rel_op_ok ops) (Hlen : Z.of_nat (length ops) < U32_MAX)
    (Hends : ends_kept (rel_empty entities types) ops = true)
    (Ht : lookup_type (rel_empty entities types) t = Ok d)
    (Hst : dc_is_symmetric d = false \/ dc_cardinality d = OneToOne) :
  let db := rel_run entities types ops in
  (forall e limit, want_from (dc_cardinality d) = true -> exists l,
     relation_list_from db scope e {| lf_relation_type := Some t; lf_current_only := true; lf_limit := limit |} = Ok l
     /\ (length l <= 1)%nat)
  /\ (forall e limit, want_to (dc_cardinality d) = true -> exists l,
     relation_list_to db scope e {| lf_relation_type := Some t; lf_current_only := true; lf_limit := limit |} = Ok l
     /\ (length l <= 1)%nat)
  /\ (forall id m id' m', rd_relations db !! id = Some m -> rd_relations db !! id' = Some m' ->
        rel_is_current m = true -> rel_is_current m' = true -> rel_scope m = rel_scope m' ->
        rm_relation_type_id m = rm_relation_type_id m' -> rm_from_bytes m = rm_from_bytes m' ->
        rm_to_bytes m = rm_to_bytes m' -> id = id').
Proof.
  cbv zeta. destruct (rel_run_ok entities types ops Hops Hlen) as [n [Hb _]].
  pose proof (run_card_ok entities types ops Hops Hlen Hends) as Hc.
  assert (lookup_type (rel_run entities types ops) t = Ok d) as Ht'.
  { unfold lookup_type in *. destruct (run_tables entities types ops) as [-> _]. done. }
  set (db := rel_run entities types ops) in *.
  assert (forall e limit (outgoing : bool),
    (if outgoing then want_from (dc_cardinality d) else want_to (dc_cardinality d)) = true -> exists l,
    list_directional db scope e {| lf_relation_type := Some t; lf_current_only := true; lf_limit := limit |} outgoing = Ok l
    /\ (length l <= 1)%nat) as Hlist.
  { intros e limit outgoing Hw. set (f := {| lf_relation_type := _; lf_current_only := _; lf_limit := limit |}).
    destruct (list_directional_exact n db scope e f outgoing Hb) as (l & E & Hnd & _ & Hin & _). exists l. split; [done|].
    eapply at_most_one; try done. intros id m id' m' [M1 [S1 S1'] C1 T1 A1] [M2 [S2 S2'] C2 T2 A2].
    destruct (decide (id = id')) as [|Hne]; [done|]. exfalso. specialize (T1 t eq_refl). specialize (T2 t eq_refl).
    eapply (Hc id m id' m' d); try done; [by apply C1|by apply C2|split; congruence|congruence|by rewrite T1|].
    right. split; [done|]. exists e. destruct outgoing; tauto. }
  split_and!.
  - intros e limit Hw. by apply (Hlist e limit true).
  - intros e limit Hw. by apply (Hlist e limit false).
  - intros id m id' m' M1 M2 C1 C2 S T F To. destruct (decide (id = id')) as [|Hne]; [done|]. exfalso.
    destruct (rl_symmetric _ _ Hb _ _ M1) as (d' & Hd' & _). injection S as S1 S2.
    eapply (Hc id m id' m' d'); try done. by left.
Qed.
