(* ===== verification/RelationReplay.v ===== *)
(** Typed relations in the log: the payloads of the relation phases
    ([brain-ops/src/writer/wal_map.rs]) and their replay
    ([brain-metadata/src/recovery/relation.rs]), for records whose type is
    resolved.

    A record is written before the phase is applied and carries what was asked
    for, not what was done.  The replay is a projection: it neither drops a
    duplicate, nor supersedes, nor turns endpoints round. *)

From stdpp Require Import gmap sorting.
From S2P Require Import Prelude Ids WalPayload EdgeTable MemoryTable Registry RelationTable RelationSpec.

(** ** Payloads *)

Definition relation_link_payload (scope : RowScope) (u : UpsertRelation) : RelationLinkPayload :=
  {| rl_relation_id := ur_id u; rl_from := NodeEntity (ur_from u); rl_to := NodeEntity (ur_to u);
     rl_relation_type_id := ur_type u; rl_chain_root := ur_id u; rl_confidence := ur_confidence u;
     rl_valid_from := ur_valid_from u; rl_valid_to := ur_valid_to u; rl_supersedes := None;
     rl_evidence := ur_evidence u; rl_extractor_id := ur_extractor u; rl_is_symmetric := ur_is_symmetric u;
     rl_properties_blob := ur_properties_blob u; rl_space_id := sc_space_id_bytes scope;
     rl_namespace_id := sc_namespace_id scope; rl_session_id := ur_session u; rl_intern_hint := None |}.

Definition relation_supersede_payload (scope : RowScope) (old_id : Uuid) (new_rel : Relation)
  : RelationSupersedePayload :=
  {| rs_old_relation_id := old_id;
     rs_new := {| rl_relation_id := r_id new_rel; rl_from := NodeEntity (r_from_entity new_rel);
                  rl_to := NodeEntity (r_to_entity new_rel); rl_relation_type_id := r_relation_type new_rel;
                  rl_chain_root := r_chain_root new_rel; rl_confidence := r_confidence new_rel;
                  rl_valid_from := r_valid_from new_rel; rl_valid_to := r_valid_to new_rel;
                  rl_supersedes := r_supersedes new_rel; rl_evidence := r_evidence new_rel;
                  rl_extractor_id := r_extractor_id new_rel; rl_is_symmetric := r_is_symmetric new_rel;
                  rl_properties_blob := r_properties_blob new_rel; rl_space_id := sc_space_id_bytes scope;
                  rl_namespace_id := sc_namespace_id scope; rl_session_id := 0; rl_intern_hint := None |} |}.

Definition relation_wal_payload (op : RelOp) : WalPayload :=
  match op with
  | OpUpsert scope u => RelationLink (relation_link_payload scope u)
  | OpSupersede scope old_id new _ => RelationSupersede (relation_supersede_payload scope old_id new)
  | OpTombstone scope id at_ =>
    RelationTombstone {| rt_relation_id := id; rt_reason := []; rt_at_unix_nanos := at_;
                         rt_space_id := sc_space_id_bytes scope |}
  end.

(** ** Replay *)

(** A projected row.  The version of a replacement is two, wherever it is in its
    chain. *)
Definition relation_row_of_payload (relation_type_id : Z) (p : RelationLinkPayload) (now : Z) : RelationMetadata :=
  let chain_root := match rl_supersedes p with
    | Some _ => rl_chain_root p
    | None => if decide (rl_chain_root p = replicate 16 Byte.x00) then rl_relation_id p else rl_chain_root p
    end in
  {| rm_namespace_id := rl_namespace_id p; rm_space_id_bytes := rl_space_id p; rm_session_id := rl_session_id p;
     rm_from_tag := NodeRef.tag (rl_from p); rm_from_bytes := NodeRef.id_bytes (rl_from p);
     rm_to_tag := NodeRef.tag (rl_to p); rm_to_bytes := NodeRef.id_bytes (rl_to p);
     rm_relation_type_id := relation_type_id; rm_chain_root_bytes := chain_root;
     rm_properties_blob := rl_properties_blob p;
     rm_version := match rl_supersedes p with Some _ => 2 | None => 1 end;
     rm_confidence := rl_confidence p; rm_extractor_id := rl_extractor_id p; rm_extracted_at := now;
     rm_valid_from := rl_valid_from p; rm_valid_to := rl_valid_to p; rm_superseded_by := None;
     rm_supersedes := rl_supersedes p; rm_evidence_inline := map MemoryId.to_be (rl_evidence p);
     rm_tombstoned := 0; rm_tombstoned_at := None; rm_is_current := 1;
     rm_is_symmetric := u8_of (rl_is_symmetric p); rm_flags := 0 |}.

Definition relation_payload_edges (t : EdgeTables) (relation_type_id : Z) (p : RelationLinkPayload) (now : Z) : EdgeTables :=
  let t := link t (rl_from p) (Typed relation_type_id) (rl_to p) (rl_relation_id p) (relation_edge now) in
  if rl_is_symmetric p && negb (bool_decide (rl_from p = rl_to p))
  then link t (rl_to p) (Typed relation_type_id) (rl_from p) (rl_relation_id p) (relation_edge now) else t.

(** [relation_type_id] is the type of the payload as resolved. *)
Definition write_relation_link (db : RelDb) (relation_type_id : Z) (p : RelationLinkPayload) (now : Z) : RelDb :=
  MkRelDb (relation_payload_edges (rd_edges db) relation_type_id p now)
    (<[rl_relation_id p := relation_row_of_payload relation_type_id p now]> (rd_relations db))
    (list_to_set (map (fun mem => (rl_namespace_id p, rl_space_id p, MemoryId.to_be mem, rl_relation_id p))
                    (rl_evidence p)) ∪ rd_evidence db)
    (rd_entities db) (rd_types db).

Inductive RelationSinkError := MissingSidecar (id : Uuid).

Definition apply_relation_link (db : RelDb) (timestamp_ns : Z) (p : RelationLinkPayload)
  : result RelDb RelationSinkError :=
  Ok (write_relation_link db (rl_relation_type_id p) p timestamp_ns).

Definition apply_relation_supersede (db : RelDb) (timestamp_ns : Z) (p : RelationSupersedePayload)
  : result RelDb RelationSinkError :=
  match rd_relations db !! rs_old_relation_id p with
  | None => Err (MissingSidecar (rs_old_relation_id p))
  | Some old =>
    let valid_to := match rm_valid_to old with None => Some timestamp_ns | v => v end in
    let old := rel_update old valid_to (Some (rl_relation_id (rs_new p))) (rm_tombstoned old) (rm_tombstoned_at old) in
    apply_relation_link (put_relation (rs_old_relation_id p) old db) timestamp_ns (rs_new p)
  end.

Definition apply_relation_tombstone (db : RelDb) (p : RelationTombstonePayload) : result RelDb RelationSinkError :=
  match rd_relations db !! rt_relation_id p with
  | None => Err (MissingSidecar (rt_relation_id p))
  | Some row =>
    Ok (put_relation (rt_relation_id p)
          (rel_update row (rm_valid_to row) (rm_superseded_by row) 1 (Some (rt_at_unix_nanos p))) db)
  end.

(** The arms of [MetadataSink::apply] for relations. *)
Definition relation_sink (db : RelDb) (timestamp_ns : Z) (p : WalPayload) : result RelDb RelationSinkError :=
  match p with
  | RelationLink p => apply_relation_link db timestamp_ns p
  | RelationSupersede p => apply_relation_supersede db timestamp_ns p
  | RelationTombstone p => apply_relation_tombstone db p
  | _ => Ok db
  end.

Fixpoint replay_relations (db : RelDb) (records : list (Z * WalPayload)) : result RelDb RelationSinkError :=
  match records with
  | [] => Ok db
  | (timestamp_ns, p) :: records => let? db := relation_sink db timestamp_ns p in replay_relations db records
  end.

(** ** Plain operations *)

(** What the log describes fully: an upsert that was stored as it was asked for, as a
    first version, and the first tombstone of a relation. *)
Definition plain (db : RelDb) (op : RelOp) : bool :=
  match op with
  | OpUpsert scope u =>
    match apply_upsert_relation db scope u with
    | Ok (db', _) =>
      match rd_relations db' !! ur_id u with
      | Some m => bool_decide (rm_supersedes m = None) && bool_decide (rm_from_bytes m = ur_from u)
                  && bool_decide (rm_to_bytes m = ur_to u) && Bool.eqb (rel_is_symmetric m) (ur_is_symmetric u)
      | None => false
      end
    | Err _ => false
    end
  | OpTombstone scope id _ =>
    match rd_relations db !! id with Some m => in_row_scope scope m && negb (rel_is_tombstoned m) | None => false end
  | OpSupersede _ _ _ _ => false
  end.

Fixpoint all_plain (db : RelDb) (ops : list RelOp) : bool :=
  match ops with [] => true | op :: ops => plain db op && all_plain (rel_step db op) ops end.

Lemma all_plain_app db ops ops' :
  all_plain db (ops ++ ops') = all_plain db ops && all_plain (fold_left rel_step ops db) ops'.
Proof. revert db. induction ops as [|op ops IH]; intros db; [done|]. cbn. by rewrite IH, andb_assoc. Qed.

(** A row without the time at which it was written. *)
Definition erase (m : RelationMetadata) : RelationMetadata :=
  {| rm_namespace_id := rm_namespace_id m; rm_space_id_bytes := rm_space_id_bytes m;
     rm_session_id := rm_session_id m; rm_from_tag := rm_from_tag m; rm_from_bytes := rm_from_bytes m;
     rm_to_tag := rm_to_tag m; rm_to_bytes := rm_to_bytes m; rm_relation_type_id := rm_relation_type_id m;
     rm_chain_root_bytes := rm_chain_root_bytes m; rm_properties_blob := rm_properties_blob m;
     rm_version := rm_version m; rm_confidence := rm_confidence m; rm_extractor_id := rm_extractor_id m;
     rm_extracted_at := 0; rm_valid_from := rm_valid_from m; rm_valid_to := rm_valid_to m;
     rm_superseded_by := rm_superseded_by m; rm_supersedes := rm_supersedes m;
     rm_evidence_inline := rm_evidence_inline m; rm_tombstoned := rm_tombstoned m;
     rm_tombstoned_at := rm_tombstoned_at m; rm_is_current := rm_is_current m;
     rm_is_symmetric := rm_is_symmetric m; rm_flags := rm_flags m |}.

(** Two stores that differ only in times. *)
Record agree (db db' : RelDb) : Prop := {
  ag_rows id : erase <$> rd_relations db !! id = erase <$> rd_relations db' !! id;
  ag_edges k : EdgeKey.wf k ->
    is_Some (EDGES (rd_edges db) !! EdgeKey.encode k) <-> is_Some (EDGES (rd_edges db') !! EdgeKey.encode k);
  ag_reverse k : EdgeKey.wf k ->
    is_Some (EDGES_REVERSE (rd_edges db) !! EdgeKey.encode k) <-> is_Some (EDGES_REVERSE (rd_edges db') !! EdgeKey.encode k);
  ag_evidence : rd_evidence db = rd_evidence db';
  ag_entities : rd_entities db = rd_entities db';
  ag_types : rd_types db = rd_types db';
}.

#[global] Instance agree_equivalence : Equivalence agree.
Proof.
  split.
  - intros x. by split.
  - intros x y []. split; try done; intros k Hk; symmetry; auto.
  - intros x y z [R E V W En T] [R' E' V' W' En' T']. split; [..|congruence|congruence|congruence].
    + intros id. etrans; [apply R|apply R'].
    + intros k Hk. etrans; [by apply E|by apply E'].
    + intros k Hk. etrans; [by apply V|by apply V'].
Qed.

(** ** What an operation leaves *)

Definition tomb (at_ : Z) (m : RelationMetadata) : RelationMetadata :=
  rel_update m (rm_valid_to m) (rm_superseded_by m) 1 (Some at_).

Definition upsert_row (scope : RowScope) (u : UpsertRelation) : RelationMetadata :=
  erase (relation_row_of_payload (ur_type u) (relation_link_payload scope u) 0).

Definition row_effect (id : Uuid) (op : RelOp) (x : option RelationMetadata) : option RelationMetadata :=
  match op with
  | OpUpsert scope u => if decide (ur_id u = id) then Some (upsert_row scope u) else x
  | OpTombstone _ i at_ => if decide (i = id) then tomb at_ <$> x else x
  | OpSupersede _ _ _ _ => x
  end.

Definition edge_effect (op : RelOp) (k : EdgeKey) : Prop :=
  match op with OpUpsert scope u => has_edge (ur_id u) (upsert_row scope u) k | _ => False end.

Definition evidence_effect (op : RelOp) : gset (Z * bytes * bytes * bytes) :=
  match op with
  | OpUpsert scope u =>
    list_to_set (map (fun mem => (sc_namespace_id scope, sc_space_id_bytes scope, MemoryId.to_be mem, ur_id u))
                   (ur_evidence u))
  | _ => ∅
  end.

(** The effect of an operation, live or replayed. *)
Record effect (op : RelOp) (db db' : RelDb) : Prop := {
  ef_rows id : erase <$> rd_relations db' !! id = row_effect id op (erase <$> rd_relations db !! id);
  ef_edges k : EdgeKey.wf k -> is_Some (EDGES (rd_edges db') !! EdgeKey.encode k) <->
    edge_effect op k \/ is_Some (EDGES (rd_edges db) !! EdgeKey.encode k);
  ef_evidence : rd_evidence db' = evidence_effect op ∪ rd_evidence db;
  ef_entities : rd_entities db' = rd_entities db;
  ef_types : rd_types db' = rd_types db;
  ef_tables : tables_ok (rd_edges db) -> tables_ok (rd_edges db');
}.

Lemma tomb_effect scope db id at_ m :
  rd_relations db !! id = Some m -> effect (OpTombstone scope id at_) db (put_relation id (tomb at_ m) db).
Proof.
  intros Hm. split; cbn; try done.
  - intros i. case_decide as E; [subst i|by rewrite lookup_insert_ne]. rewrite lookup_insert_eq, Hm. done.
  - intros k _. tauto.
  - by rewrite union_empty_l_L.
Qed.

(** The relation that the log describes. *)
Lemma payload_edges t scope u now :
  relation_payload_edges t (ur_type u) (relation_link_payload scope u) now
  = relation_edges t (upsert_relation_row u) now.
Proof.
  unfold relation_payload_edges, relation_edges. cbn.
  assert (bool_decide (NodeEntity (ur_from u) = NodeEntity (ur_to u)) = bool_decide (ur_from u = ur_to u)) as ->; [|done].
  apply bool_decide_ext. split; [by injection 1|by intros ->].
Qed.

Lemma upsert_row_metadata scope u :
  erase (metadata_from_relation (upsert_relation_row u) scope (ur_session u)) = upsert_row scope u.
Proof. unfold upsert_row, erase. cbn. by case_decide. Qed.

Lemma upsert_edges scope u t now :
  rel_op_ok (OpUpsert scope u) -> tables_ok t ->
  tables_ok (relation_edges t (upsert_relation_row u) now)
  /\ forall k, EdgeKey.wf k -> is_Some (EDGES (relation_edges t (upsert_relation_row u) now) !! EdgeKey.encode k) <->
       edge_effect (OpUpsert scope u) k \/ is_Some (EDGES t !! EdgeKey.encode k).
Proof. intros (Hid & Hf & Hto & Hty) Ht. by apply (relation_edges_spec t (upsert_relation_row u) scope (ur_session u) now). Qed.

Lemma insert_effect scope u db now :
  rel_op_ok (OpUpsert scope u) -> tables_ok (rd_edges db) ->
  effect (OpUpsert scope u) db (insert_new_relation db scope (ur_session u) (upsert_relation_row u) now).
Proof.
  intros Hop Ht. destruct (upsert_edges scope u (rd_edges db) now Hop Ht) as [Ht' He].
  split; cbn [insert_new_relation rd_relations rd_edges rd_evidence rd_entities rd_types]; try done.
  intros i. cbn [row_effect]. case_decide as E; [subst i|by rewrite lookup_insert_ne].
  change (ur_id u) with (r_id (upsert_relation_row u)). rewrite lookup_insert_eq. cbn [fmap option_fmap option_map].
  by rewrite upsert_row_metadata.
Qed.

Lemma link_effect scope u db ts :
  rel_op_ok (OpUpsert scope u) -> tables_ok (rd_edges db) ->
  effect (OpUpsert scope u) db (write_relation_link db (ur_type u) (relation_link_payload scope u) ts).
Proof.
  intros Hop Ht. destruct (upsert_edges scope u (rd_edges db) ts Hop Ht) as [Ht' He].
  split; cbn [write_relation_link rd_relations rd_edges rd_evidence rd_entities rd_types]; rewrite ?payload_edges; try done.
  intros i. cbn [row_effect]. case_decide as E; [subst i|by rewrite lookup_insert_ne].
  change (ur_id u) with (rl_relation_id (relation_link_payload scope u)). by rewrite lookup_insert_eq.
Qed.

(** A relation that is stored as asked for is the one the phase describes. *)
Lemma with_endpoints_same r from to sym :
  from = r_from_entity r -> to = r_to_entity r -> sym = r_is_symmetric r -> with_endpoints r from to sym = r.
Proof. destruct r. cbn. by intros -> -> ->. Qed.

Lemma oriented_same u dir sym :
  r_from_entity (oriented (upsert_relation_row u) dir sym) = ur_from u ->
  r_to_entity (oriented (upsert_relation_row u) dir sym) = ur_to u -> sym = ur_is_symmetric u ->
  oriented (upsert_relation_row u) dir sym = upsert_relation_row u.
Proof.
  unfold oriented. destruct dir, sym; try destruct (canonical_pair _ _) as [a b]; intros Hf Hto Hs; by apply with_endpoints_same.
Qed.

Lemma live_effect n db op : rel_base n db -> rel_op_ok op -> plain db op = true -> effect op db (rel_step db op).
Proof.
  intros Hb Hop Hp. destruct op as [scope u|scope old_id new at_|scope id at_]; cbn [rel_step plain] in *; [|done|].
  - destruct (apply_upsert_relation db scope u) as [[db' ack]|] eqn:E; [|done].
    unfold apply_upsert_relation in E. destruct (relation_create _ _ _ _ _) as [[db1 id1]|] eqn:Ec; [|done].
    apply Ok_inj, pair_eq in E as [-> _].
    destruct (rd_relations db' !! ur_id u) as [m|] eqn:Em; [|done].
    apply andb_prop in Hp as [[[Hs%bool_decide_eq_true Hf%bool_decide_eq_true]%andb_prop Hto%bool_decide_eq_true]%andb_prop Hsym%eqb_prop].
    apply relation_create_inv in Ec as (d & dir & Hd & Hnew & [[-> _]|[_ [(_ & -> & _)|(old_id & _ & Esup)]]]).
    + cbn in Hnew. congruence.
    + set (r := oriented _ _ _) in *. destruct (oriented_rest (upsert_relation_row u) dir (dc_is_symmetric d)) as (Eid & _ & Esym & _).
      cbn [insert_new_relation rd_relations] in Em. fold r in Eid, Esym. rewrite Eid in Em. cbn [upsert_relation_row with_details new_root r_id] in Em.
      rewrite lookup_insert_eq in Em. injection Em as <-. rewrite metadata_sym, Esym in Hsym.
      assert (r = upsert_relation_row u) as -> by by apply oriented_same.
      apply insert_effect; [done|]. apply (rl_tables _ _ Hb).
    + destruct (oriented_rest (upsert_relation_row u) dir (dc_is_symmetric d)) as (Eid & _).
      apply supersede_inv in Esup as (old & old' & r & _ & _ & _ & _ & _ & _ & -> & _ & -> & _).
      cbn [insert_new_relation rd_relations chained r_id] in Em. rewrite Eid in Em.
      cbn [upsert_relation_row with_details new_root r_id] in Em. rewrite lookup_insert_eq in Em. by injection Em as <-.
  - unfold apply_tombstone_relation, relation_scope_guard, relation_tombstone. destruct (rd_relations db !! id) as [m|] eqn:Em; [|done].
    apply andb_prop in Hp as [-> Ht%negb_true_iff]. rewrite Ht. by apply tomb_effect.
Qed.

Lemma replay_effect scope_db op db ts :
  rel_op_ok op -> plain scope_db op = true -> tables_ok (rd_edges db) ->
  (forall id, is_Some (rd_relations scope_db !! id) -> is_Some (rd_relations db !! id)) ->
  exists db', relation_sink db ts (relation_wal_payload op) = Ok db' /\ effect op db db'.
Proof.
  intros Hop Hp Ht Hdom. destruct op as [scope u|scope old_id new at_|scope id at_]; cbn [relation_wal_payload relation_sink]; [|done|].
  - eexists. split; [done|]. by apply link_effect.
  - cbn [plain] in Hp. destruct (Hdom id) as [m Hm]; [by destruct (rd_relations scope_db !! id)|].
    unfold apply_relation_tombstone. cbn [rt_relation_id rt_at_unix_nanos]. rewrite Hm. eexists. split; [done|]. by apply tomb_effect.
Qed.

(** ** Sequences *)

Fixpoint effects (ops : list RelOp) (db db' : RelDb) : Prop :=
  match ops with [] => db' = db | op :: ops => exists db1, effect op db db1 /\ effects ops db1 db' end.

Definition row_effects (id : Uuid) (ops : list RelOp) (x : option RelationMetadata) : option RelationMetadata :=
  fold_left (fun x op => row_effect id op x) ops x.

Lemma tomb_tomb a b m : tomb a (tomb b m) = tomb a m.
Proof. done. Qed.

Lemma row_effects_shape id ops :
  (exists c, forall x, row_effects id ops x = c) \/ (exists a, forall x, row_effects id ops x = tomb a <$> x)
  \/ forall x, row_effects id ops x = x.
Proof.
  unfold row_effects. induction ops as [|op ops [[c IH]|[[a IH]|IH]]]; cbn [fold_left].
  - auto.
  - left. exists c. intros x. apply IH.
  - destruct op as [scope u| |scope i b]; cbn [row_effect]; try case_decide; eauto.
    right. left. exists a. intros x. rewrite IH. by destruct x.
  - destruct op as [scope u| |scope i b]; cbn [row_effect]; try case_decide; eauto.
Qed.

Lemma row_effects_idem id ops x : row_effects id ops (row_effects id ops x) = row_effects id ops x.
Proof. destruct (row_effects_shape id ops) as [[c H]|[[a H]|H]]; rewrite !H; [done| |done]. by destruct x. Qed.

Lemma row_effect_some id op x : is_Some x -> is_Some (row_effect id op x).
Proof. destruct op; cbn; try case_decide; rewrite ?fmap_is_Some; eauto. Qed.

Lemma effect_dom op db db' id :
  effect op db db' -> is_Some (rd_relations db !! id) -> is_Some (rd_relations db' !! id).
Proof.
  intros H Hs. apply (fmap_is_Some erase). rewrite (ef_rows _ _ _ H). by apply row_effect_some, fmap_is_Some.
Qed.

(** More rows stay more rows. *)
Lemma effect_dom_mono op l l' r r' :
  effect op l l' -> effect op r r' -> (forall id, is_Some (rd_relations l !! id) -> is_Some (rd_relations r !! id)) ->
  forall id, is_Some (rd_relations l' !! id) -> is_Some (rd_relations r' !! id).
Proof.
  intros Hl Hr Hd id H. destruct (decide (is_Some (rd_relations l !! id))) as [Hs|Hn].
  - eapply effect_dom; [done|]. by apply Hd.
  - apply (fmap_is_Some erase) in H. rewrite (ef_rows _ _ _ Hl) in H. apply eq_None_not_Some in Hn. rewrite Hn in H.
    apply (fmap_is_Some erase). rewrite (ef_rows _ _ _ Hr). destruct op; cbn in *; try case_decide; try by destruct H.
Qed.

Lemma effects_app ops ops' db db1 db2 : effects ops db db1 -> effects ops' db1 db2 -> effects (ops ++ ops') db db2.
Proof. revert db. induction ops as [|op ops IH]; cbn; [by intros db ->|]. intros db (d & H & Hs) H2. exists d. eauto. Qed.

Lemma effects_dom ops db db' id :
  effects ops db db' -> is_Some (rd_relations db !! id) -> is_Some (rd_relations db' !! id).
Proof. revert db. induction ops as [|op ops IH]; cbn; [by intros db ->|]. intros db (d & H & Hs) Hi. eauto using effect_dom. Qed.

Lemma effects_tables ops db db' : effects ops db db' -> tables_ok (rd_edges db) -> tables_ok (rd_edges db').
Proof. revert db. induction ops as [|op ops IH]; cbn; [by intros db ->|]. intros db (d & H & Hs) Ht. eauto using ef_tables. Qed.

Lemma effects_views ops db db' :
  effects ops db db' ->
  (forall id, erase <$> rd_relations db' !! id = row_effects id ops (erase <$> rd_relations db !! id))
  /\ (forall k, EdgeKey.wf k -> is_Some (EDGES (rd_edges db') !! EdgeKey.encode k) <->
        (exists op, op ∈ ops /\ edge_effect op k) \/ is_Some (EDGES (rd_edges db) !! EdgeKey.encode k))
  /\ rd_evidence db' = ⋃ (map evidence_effect ops) ∪ rd_evidence db
  /\ rd_entities db' = rd_entities db /\ rd_types db' = rd_types db.
Proof.
  revert db. induction ops as [|op ops IH]; cbn [effects].
  - intros db ->. split_and!; try done; [|cbn; set_solver].
    intros k _. split; [by right|]. intros [(op & Hin & _)|H]; [by apply not_elem_of_nil in Hin|done].
  - intros db (d & [R E V En T _] & H). apply IH in H as (R' & E' & V' & En' & T'). split_and!.
    + intros id. by rewrite R', R.
    + intros k Hk. rewrite E', E by done. split.
      * intros [(o & Hin & Ho)|[Ho|Ho]]; [left; exists o; by split; [right|]|left; exists op; by split; [left|]|by right].
      * intros [(o & [->|Hin]%elem_of_cons & Ho)|Ho]; [by right; left|left; by exists o|by right; right].
    + rewrite V', V. cbn. set_solver.
    + congruence.
    + congruence.
Qed.

Lemma live_effects ops db n :
  rel_ok n db -> 1 <= n -> Forall rel_op_ok ops -> n + Z.of_nat (length ops) <= U32_MAX -> all_plain db ops = true ->
  effects ops db (fold_left rel_step ops db).
Proof.
  revert db n. induction ops as [|op ops IH]; intros db n Hok Hn Hops Hl Hp; cbn [effects fold_left length all_plain] in *; [done|].
  apply Forall_cons in Hops as [Hop Hops]. apply andb_prop in Hp as [Hp Hps]. rewrite Nat2Z.inj_succ in Hl.
  exists (rel_step db op). split; [eapply live_effect; [apply (rl_base _ _ Hok)|done|done]|].
  apply (IH _ (n + 1)); [apply rel_ok_step; [done|lia|done]|lia|done|lia|done].
Qed.

Lemma relation_replay_effects ops records l db n :
  rel_ok n l -> 1 <= n -> Forall rel_op_ok ops -> n + Z.of_nat (length ops) <= U32_MAX -> all_plain l ops = true ->
  map snd records = map relation_wal_payload ops -> tables_ok (rd_edges db) ->
  (forall id, is_Some (rd_relations l !! id) -> is_Some (rd_relations db !! id)) ->
  exists db', replay_relations db records = Ok db' /\ effects ops db db'.
Proof.
  revert records l db n. induction ops as [|op ops IH]; intros records l db n Hok Hn Hops Hl Hp Hr Ht Hd;
    destruct records as [|[ts p] records]; try done.
  - by exists db.
  - injection Hr as -> Hr. cbn [effects length all_plain replay_relations] in *. apply Forall_cons in Hops as [Hop Hops].
    apply andb_prop in Hp as [Hp Hps]. rewrite Nat2Z.inj_succ in Hl.
    destruct (replay_effect l op db ts Hop Hp Ht Hd) as (db1 & -> & He). cbn.
    destruct (IH records (rel_step l op) db1 (n + 1)) as (db' & E & Hes); try done; try lia.
    + apply rel_ok_step; [done|lia|done].
    + by eapply ef_tables.
    + eapply effect_dom_mono; [|done|done]. eapply live_effect; [apply (rl_base _ _ Hok)|done|done].
    + exists db'. split; [done|]. by exists db1.
Qed.

Lemma agree_of_views db db' :
  tables_ok (rd_edges db) -> tables_ok (rd_edges db') ->
  (forall id, erase <$> rd_relations db !! id = erase <$> rd_relations db' !! id) ->
  (forall k, EdgeKey.wf k ->
     is_Some (EDGES (rd_edges db) !! EdgeKey.encode k) <-> is_Some (EDGES (rd_edges db') !! EdgeKey.encode k)) ->
  rd_evidence db = rd_evidence db' -> rd_entities db = rd_entities db' -> rd_types db = rd_types db' -> agree db db'.
Proof.
  intros Ht Ht' Hr He Hv Hen Hty. split; try done. intros k Hk. pose proof (flip_wf k Hk) as Hf.
  rewrite <- (flip_flip k), !to_mirror by done. by apply He.
Qed.

(** C22: Recovery of relations converges.  Let relations be written by any run, and
    after a checkpoint by a run of upserts that were stored as they were asked
    for, as first versions, and of first tombstones.  If the crash finds any
    later state of the metadata store on disk, replaying the records written since
    the checkpoint, with whatever times they carry, succeeds and gives the
    store of the completed run: the same relations but for the times of their
    extraction, the same edges in both directions and the same evidence. *)
Theorem relation_replay_converges entities types ops1 ops2 ops3 records
    (Hops : Forall rel_op_ok (ops1 ++ ops2 ++ ops3))
    (Hlen : Z.of_nat (length (ops1 ++ ops2 ++ ops3)) < U32_MAX)
    (Hplain : all_plain (rel_run entities types ops1) (ops2 ++ ops3) = true)
    (Hrec : map snd records = map relation_wal_payload (ops2 ++ ops3)) :
  exists db, replay_relations (rel_run entities types (ops1 ++ ops2)) records = Ok db
    /\ agree db (rel_run entities types (ops1 ++ ops2 ++ ops3)).
Proof.
  apply Forall_app in Hops as [Hops1 Hops]. pose proof (proj1 (proj1 (Forall_app _ _ _) Hops)) as Hops2.
  rewrite length_app in Hlen. set (n := 1 + Z.of_nat (length ops1)).
  assert (rel_ok n (rel_run entities types ops1)) as Ha by (apply rel_ok_steps; [apply rel_ok_empty|lia|done|lia]).
  assert (rel_ok (n + Z.of_nat (length ops2)) (rel_run entities types (ops1 ++ ops2))) as Hb.
  { unfold rel_run. rewrite fold_left_app. rewrite length_app in Hlen. apply rel_ok_steps; [done|lia|done|lia]. }
  pose proof (live_effects (ops2 ++ ops3) _ n Ha ltac:(lia) Hops ltac:(lia) Hplain) as Hlive.
  pose proof Hplain as Hp2. rewrite all_plain_app in Hp2. apply andb_prop in Hp2 as [Hp2 _].
  assert (effects ops2 (rel_run entities types ops1) (rel_run entities types (ops1 ++ ops2))) as Hmid.
  { unfold rel_run at 2. rewrite fold_left_app. rewrite length_app in Hlen. eapply live_effects; try done; lia. }
  pose proof (rl_tables _ _ (rl_base _ _ Ha)) as Hta. pose proof (effects_tables _ _ _ Hmid Hta) as Htb.
  destruct (relation_replay_effects (ops2 ++ ops3) records (rel_run entities types ops1) (rel_run entities types (ops1 ++ ops2)) n)
    as (db & E & Hre); try done; [lia|lia|by intros id; eapply effects_dom|].
  exists db. split; [done|].
  assert (rel_run entities types (ops1 ++ ops2 ++ ops3) = fold_left rel_step (ops2 ++ ops3) (rel_run entities types ops1)) as ->
    by (unfold rel_run; by rewrite fold_left_app).
  pose proof (effects_tables _ _ _ Hre Htb) as Htd. pose proof (effects_tables _ _ _ Hlive Hta) as Htc.
  apply effects_views in Hmid as (R1 & E1 & V1 & En1 & T1), Hre as (R2 & E2 & V2 & En2 & T2), Hlive as (R3 & E3 & V3 & En3 & T3).
  apply agree_of_views; try done; [| | |congruence|congruence].
  - intros id. rewrite R2, R1, R3. unfold row_effects. rewrite !fold_left_app. f_equal. apply row_effects_idem.
  - intros k Hk. rewrite E2, E1, E3 by done.
    assert ((exists op, op ∈ ops2 ++ ops3 /\ edge_effect op k) <->
      (exists op, op ∈ ops2 /\ edge_effect op k) \/ exists op, op ∈ ops3 /\ edge_effect op k) as ->; [|tauto].
    setoid_rewrite elem_of_app. clear. firstorder.
  - rewrite V2, V1, V3, map_app, union_list_app_L. clear. set_solver.
Qed.
