(* ===== verification/RelationExamples.v ===== *)
(** Runs of typed relations: witnesses of their theorems, and where acknowledgements,
    explicit supersessions and recovery depart from them. *)

From stdpp Require Import gmap sorting.
From S2P Require Import Prelude Ids WalPayload EdgeTable MemoryTable Registry RelationTable RelationSpec.
From S2P Require Import RelationCard RelationReplay.

Module RelationExample.

Definition uid (n : Z) : Uuid := replicate 15 Byte.x00 ++ [byte_of n].
Definition tenant (n : Z) : RowScope := {| sc_namespace_id := 1; sc_space_id_bytes := uid n |}.

(** Three people (type 1) and a company (type 2); one employer each, and friends. *)
Definition entities : gmap bytes Z := list_to_map [(uid 1, 1); (uid 2, 1); (uid 3, 1); (uid 4, 2); (uid 5, 2)].
Definition WORKS_AT : Z := 7.
Definition FRIEND : Z := 8.
Definition types : gmap Z RelationTypeDefinition := list_to_map
  [(WORKS_AT, {| rt_cardinality := 2; rt_is_symmetric := 0; rt_from_entity_type_id := 1; rt_to_entity_type_id := 2 |});
   (FRIEND, {| rt_cardinality := 3; rt_is_symmetric := 1; rt_from_entity_type_id := 0; rt_to_entity_type_id := 0 |})].

Definition request (id ty from to at_ : Z) : UpsertRelation :=
  {| ur_id := uid id; ur_type := ty; ur_session := 0; ur_from := uid from; ur_to := uid to;
     ur_confidence := F32_ONE; ur_evidence := [MemoryId.pack 0 id 1]; ur_is_symmetric := ty =? FRIEND; ur_extractor := 1;
     ur_extracted_at := at_; ur_properties_blob := []; ur_valid_from := None; ur_valid_to := None |}.
Definition upsert (tn id ty from to at_ : Z) : RelOp := OpUpsert (tenant tn) (request id ty from to at_).
Definition supersede (tn old id ty from to at_ : Z) : RelOp :=
  OpSupersede (tenant tn) (uid old) (upsert_relation_row (request id ty from to at_)) at_.

(** One changes jobs twice, the second time by an explicit supersession; the other
    tenant is not concerned; a friendship is turned round and ends. *)
Definition ops : list RelOp :=
  [upsert 10 20 WORKS_AT 1 4 100; upsert 11 21 WORKS_AT 1 4 110; upsert 10 22 WORKS_AT 1 5 120;
   upsert 10 23 FRIEND 2 1 130; upsert 10 24 FRIEND 1 2 140; supersede 10 22 25 WORKS_AT 1 5 150;
   OpTombstone (tenant 11) (uid 23) 160; OpTombstone (tenant 10) (uid 23) 170].
Definition db : RelDb := rel_run entities types ops.
Definition filter_of (ty : Z) : RelationListFilter := {| lf_relation_type := Some ty; lf_current_only := true; lf_limit := 10 |}.
Definition ids (r : result (list Relation) RelationOpError) : option (list Uuid) :=
  match r with Ok l => Some (map r_id l) | Err _ => None end.

Example listings :
  ids (relation_list_from db (tenant 10) (uid 1) (filter_of WORKS_AT)) = Some [uid 25]
  /\ ids (relation_list_from db (tenant 11) (uid 1) (filter_of WORKS_AT)) = Some [uid 21]
  /\ ids (relation_history db (uid 22)) = Some [uid 20; uid 22; uid 25]
  /\ ids (relation_list_to db (tenant 10) (uid 2) (filter_of FRIEND)) = Some [].
Proof. vm_compute. repeat split. Qed.

Lemma uid_ok n : uuid_ok (uid n).
Proof. done. Qed.

Lemma ops_ok : Forall rel_op_ok ops.
Proof. repeat constructor; try apply uid_ok; vm_compute; congruence. Qed.

Lemma relation_history_linear_witness :
  exists chain, relation_history db (uid 22) = Ok chain /\ map r_version chain = seqZ 1 (Z.of_nat (length chain))
    /\ uid 22 ∈ map r_id chain.
Proof.
  assert (is_Some (rd_relations (rel_run entities types ops) !! uid 22)) as [a Ha]
    by (apply (bool_decide_eq_true_1 _); vm_compute; reflexivity).
  destruct (relation_history_linear entities types ops (uid 22) a ops_ok ltac:(vm_compute; congruence) Ha)
    as (chain & H1 & H2 & H3 & _).
  exists chain. exact (conj H1 (conj H2 H3)).
Defined.

Lemma relation_listing_exact_witness :
  exists l, relation_list_from db (tenant 10) (uid 1) (filter_of WORKS_AT) = Ok l /\ NoDup (map r_id l)
    /\ (length l <= 10)%nat.
Proof.
  destruct (relation_listing_exact entities types ops (tenant 10) (uid 1) (filter_of WORKS_AT) ops_ok
    ltac:(vm_compute; congruence) true) as (l & H1 & H2 & H3 & _).
  exists l. exact (conj H1 (conj H2 H3)).
Defined.

Definition works_at : DeclaredConstraints :=
  {| dc_cardinality := ManyToOne; dc_is_symmetric := false; dc_from_type := Some 1; dc_to_type := Some 2 |}.

Lemma relation_cardinality_witness :
  exists l, relation_list_from db (tenant 10) (uid 1) (filter_of WORKS_AT) = Ok l /\ (length l <= 1)%nat.
Proof.
  destruct (relation_cardinality entities types ops (tenant 10) WORKS_AT works_at ops_ok ltac:(vm_compute; congruence)
    ltac:(vm_compute; reflexivity) ltac:(vm_compute; reflexivity) (or_introl eq_refl)) as (H & _).
  exact (H (uid 1) 10%nat eq_refl).
Defined.

(** Two jobs and a friendship before the crash, of which the store on disk has the
    first two; a tombstone and another job after it. *)
Definition before : list RelOp := [upsert 10 20 WORKS_AT 1 4 100; upsert 10 22 WORKS_AT 1 5 120].
Definition stored : list RelOp := [upsert 11 21 WORKS_AT 1 4 110; upsert 10 23 FRIEND 1 2 130].
Definition lost : list RelOp := [OpTombstone (tenant 10) (uid 23) 170; upsert 10 26 WORKS_AT 2 5 180].
Definition logged (l : list RelOp) : list (Z * WalPayload) := map (fun op => (1000, relation_wal_payload op)) l.

Lemma relation_replay_converges_witness :
  exists db', replay_relations (rel_run entities types (before ++ stored)) (logged (stored ++ lost)) = Ok db'
    /\ agree db' (rel_run entities types (before ++ stored ++ lost)).
Proof.
  apply (relation_replay_converges entities types before stored lost (logged (stored ++ lost))).
  - repeat constructor; try apply uid_ok; vm_compute; congruence.
  - vm_compute. reflexivity.
  - vm_compute. reflexivity.
  - reflexivity.
Defined.

(** An explicit supersession is not checked against the cardinality: moving the job of
    one to another leaves the other with two. *)
Definition moved : RelDb :=
  rel_run entities types [upsert 10 20 WORKS_AT 1 4 100; upsert 10 21 WORKS_AT 2 5 110; supersede 10 20 22 WORKS_AT 2 4 120].
Example supersede_breaks_cardinality :
  ids (relation_list_from moved (tenant 10) (uid 2) (filter_of WORKS_AT)) = Some [uid 22; uid 21].
Proof. vm_compute. reflexivity. Qed.

(** Nor are the endpoints: not that they exist, nor their types. *)
Example supersede_accepts_unknown_entity :
  ids (relation_list_from (rel_run entities types [upsert 10 20 WORKS_AT 1 4 100; supersede 10 20 21 WORKS_AT 99 1 110])
         (tenant 10) (uid 99) (filter_of WORKS_AT)) = Some [uid 21].
Proof. vm_compute. reflexivity. Qed.

(** A symmetric type of many to one is checked at one of its two ends: a second friend
    of 1 is refused a place, a second friend of 2 is not. *)
Definition symmetric_types : gmap Z RelationTypeDefinition := list_to_map
  [(FRIEND, {| rt_cardinality := 2; rt_is_symmetric := 1; rt_from_entity_type_id := 0; rt_to_entity_type_id := 0 |})].
Example symmetric_many_to_one_is_not_enforced :
  ids (relation_list_from (rel_run entities symmetric_types [upsert 10 20 FRIEND 2 3 100; upsert 10 21 FRIEND 1 2 110])
         (tenant 10) (uid 2) (filter_of FRIEND)) = Some [uid 21; uid 20].
Proof. vm_compute. reflexivity. Qed.

(** A duplicate is dropped and acknowledged under an id that is not stored. *)
Example duplicate_acknowledged_under_missing_id :
  let db := rel_run entities types [upsert 10 20 WORKS_AT 1 4 100] in
  match apply_upsert_relation db (tenant 10) (request 21 WORKS_AT 1 4 110) with
  | Ok (db', (id, version)) => bool_decide (id = uid 21) && bool_decide (rd_relations db' !! id = None)
  | Err _ => false
  end = true.
Proof. vm_compute. reflexivity. Qed.

(** A second employer supersedes the first; replayed, it does not, and both are current. *)
Definition replayed (l : list RelOp) : RelDb :=
  match replay_relations (rel_empty entities types) (logged l) with Ok db => db | Err _ => rel_empty entities types end.
Example recovery_forgets_supersession :
  let l := [upsert 10 20 WORKS_AT 1 4 100; upsert 10 22 WORKS_AT 1 5 120] in
  ids (relation_list_from (rel_run entities types l) (tenant 10) (uid 1) (filter_of WORKS_AT)) = Some [uid 22]
  /\ ids (relation_list_from (replayed l) (tenant 10) (uid 1) (filter_of WORKS_AT)) = Some [uid 20; uid 22].
Proof. vm_compute. split; reflexivity. Qed.

(** Replayed, a duplicate is a second relation, and endpoints given the wrong way round
    stay so. *)
Example recovery_keeps_duplicates :
  let l := [upsert 10 20 WORKS_AT 1 4 100; upsert 10 21 WORKS_AT 4 1 110] in
  ids (relation_list_to (rel_run entities types l) (tenant 10) (uid 4) (filter_of WORKS_AT)) = Some [uid 20]
  /\ ids (relation_list_from (replayed l) (tenant 10) (uid 4) (filter_of WORKS_AT)) = Some [uid 21].
Proof. vm_compute. split; reflexivity. Qed.

(** Replayed, the replacement of an explicit supersession is the root of a chain of its
    own: the history of the relation is lost. *)
Example recovery_splits_history :
  let l := [upsert 10 20 WORKS_AT 1 4 100; supersede 10 20 21 WORKS_AT 1 5 110] in
  ids (relation_history (rel_run entities types l) (uid 21)) = Some [uid 20; uid 21]
  /\ ids (relation_history (replayed l) (uid 21)) = Some [uid 21]
  /\ rm_version <$> rd_relations (replayed l) !! uid 21 = Some 1.
Proof. vm_compute. repeat split; reflexivity. Qed.

(** A phase that is refused has its record in the log, and recovery applies it: here a
    job at a person. *)
Example recovery_applies_refused :
  let l := [upsert 10 20 WORKS_AT 1 2 100] in
  ids (relation_list_from (rel_run entities types l) (tenant 10) (uid 1) (filter_of WORKS_AT)) = Some []
  /\ ids (relation_list_from (replayed l) (tenant 10) (uid 1) (filter_of WORKS_AT)) = Some [uid 20].
Proof. vm_compute. split; reflexivity. Qed.
End RelationExample.
